(* ===== verification/_CoqProject ===== *)
-Q . S2P
Prelude.v
Double.v
NetworkByteBuffer.v
LevelDB.v
Schema.v
AttributeData.v
MetaData.v
NeighborList.v
PartitionIndex.v
Block.v
BlockContent.v
BlockStorage.v
BlockManager.v
FocusedIndex.v
PriorityQueue.v
Candidate.v
Conf.v
ExpirationMap.v
ExpiredLists.v
CandidateCounts.v
BlockLayout.v
BlockWriting.v
Locality.v
InternalEdges.v
SmartLayout.v
ExpirationFlow.v
InMemoryGraph.v
GraphFlow.v
VertexManager.v
IntervalIndex.v
Query.v
HistoricalGraph.v
PartitionChoice.v
DerivedBlocks.v
Slices.v
Repartition.v
HistoryBlocks.v
BlockReplacement.v
HistoryInvariant.v
HistoryQuery.v
HistoryVertices.v
RepartitionInvariant.v
RepartitionHistory.v
Workload.v
Partitions.v
Heuristics.v
Optimal.v
OptimalEncoding.v
OptimalPartitions.v
OptimalRows.v
OptimalSolve.v
OptimalResults.v
OptimalSearch.v
StreamHistory.v
InteractionGraph.v
StreamAnswers.v
Searches.v
SearchAnswers.v
Tweets.v
TweetStream.v
Sampling.v
