(* ===== verification/Prelude.v ===== *)
(** * RailwayDB: a verified model of the railway interaction-graph store

    RailwayDB keeps a stream of timed interactions between vertices: recent
    edges in memory, older ones in blocks on disk whose attributes are split
    into sub blocks ("railway" layout) according to a partitioning of the
    schema that may change over time.  The C++ sources are under src/code; this
    library models the engine (libintergdb, namespace core), the common query,
    cost and partitioning data (libcommon), the optimizers (liboptimizer) and,
    of the simulation, how graphs are filled from tweets and queried.

    ** Conventions

    A call is a function to [outcome] (this file): a value, an exception, a
    failed assertion, or undefined behaviour of C++.  A [size_t] or [uint64_t]
    is an integer [Z] with its wrap-around written out ([u64]); a [double] is
    its 64-bit pattern with IEEE comparisons and arithmetic (Double); an
    [unordered_map] whose traversal order the program observes is an
    association list in that order, or its order is a parameter; other maps are
    finite maps; a [shared_ptr<AttributeData>] is an address with the data it
    points to.  Objects of the program are passed as explicit state.  A
    definition keeps the name of the function it models; where two classes have
    a function of the same name the files are imported by name.

    Code that is not in src, or is vendored there, is a type class with the laws
    of its documentation and an executable instance for the witnesses: the
    key-value store ([LevelDB]), the R-tree ([SpatialIndex] in IntervalIndex),
    the solver of linear programs (Optimal, with a brute-force instance in
    OptimalSearch).  Hash functions, addresses, random numbers, dates and the
    file system are parameters.

    Loops that are not structural take fuel, and what depends on it is stated
    with the fuel that is enough: the number of bytes for [deserialize]
    ([deserialize_total]; reading past the bytes is undefined and ends the
    model), the entries of the map for [getBlockSmart] ([smart_block]), twice the number of edges for the flush
    ([flush_ok], [every_edge_written]), the number of attributes or of pairs of
    partitions for the optimizers ([merge_while_ok]), the blocks of a slice for
    [update_loop_ok], the edges of a query for [edge_loop_ok], the length of a
    text for [mention_loop_fuel], the draws for [draw_range_ok].

    ** Parts

    - NetworkByteBuffer (NetworkByteBuffer.h, .cpp, EndianHelper.h): the
      serialization buffer; Schema, AttributeData, MetaData: the records it
      stores, the statistics and the metadata file.
    - LevelDB: what the program uses of the key-value store.
    - NeighborList (NeighborList, EdgeFIFO, Edge), Block, BlockContent,
      BlockStorage (Block.cpp): neighbor lists and blocks; partitioning and
      recombination; storage.
    - PartitionIndex, Slices, Repartition (PartitionIndex.cpp): the time-sliced
      partitionings, an LRU cache over a database, and replacing them together
      with the blocks they apply to.
    - BlockManager (BlockManager.cpp), VertexManager (VertexManager.cpp): blocks
      and vertex data by identifier, LRU caches over databases.
    - FocusedIndex (FocusedIntervalQueryIndex.cpp), IntervalIndex
      (RTreeIntervalIndex.cpp, IntervalQueryIndex.cpp): which blocks have edges
      of a vertex, or of any vertex, in a time range.
    - PriorityQueue, Candidate, Conf, ExpirationMap with the theory in
      ExpiredLists, CandidateCounts, BlockLayout, BlockWriting (the layouts that
      fill a block from the top of the queue), Locality, InternalEdges,
      SmartLayout (the one that grows candidates), ExpirationFlow: edges that
      leave the window are collected, laid out into blocks and written.
      InMemoryGraph, GraphFlow: the window before it.
    - HistoricalGraph with PartitionChoice (which sub blocks a query reads),
      DerivedBlocks (sub blocks of a master block), HistoryBlocks, HistoryInvariant
      (the invariant of store and indexes), HistoryQuery and HistoryVertices (the
      two iterators): the blocks on disk.
    - BlockReplacement, RepartitionInvariant, RepartitionHistory: the invariant
      is kept when partitionings are replaced.
    - Query, Workload (Query.h, QuerySummary.h, QueryWorkload, QueryCollector):
      queries and what is counted of them.
    - InteractionGraph (InteractionGraph.cpp): the facade a client uses, which
      owns all of the above; StreamHistory, StreamAnswers: a stream of edges
      through it, from the constructor to the answers.
    - Partitions (Partition, Partitioning, Cost): partitionings and their cost;
      Heuristics (the four solvers without linear programs); Optimal and
      OptimalEncoding, OptimalPartitions, OptimalRows, OptimalSolve,
      OptimalResults, OptimalSearch (the two with).
    - Searches, SearchAnswers: workloads and searches of the simulation
      (ExpSetupHelper.cpp); Tweets, TweetStream: filling graphs from a directory
      of tweets; Sampling: the Zipf generator, query templates and random search
      queries.

    ** Theorems

    - The whole engine: [graph_ingests] (from an empty directory to a flushed
      graph), [graph_answers] (both kinds of queries answer from exactly the
      edges added), [repartition_keeps_history], [every_edge_written],
      [smart_block], [history_invariant], [focused_interval_query], [interval_query];
      [tweets_served], [workload_runs] and [search_queries] apply it to the
      programs of the simulation.
      They hold under all four layouts, the smart one being the default, with
      every metric and every policy ([layout_ok]), for edges at strictly
      increasing times which a block has room for ([edge_room]: one edge of that
      size in a list, or [seedEdgeCount] of them under the smart layout, whose
      first candidates take as many without looking at the size of a block).
    - Round trips ([data_roundtrip], [metadata_restart],
      [block_storage_roundtrip], [partition_recombine],
      [merge_split_roundtrip]): what is written is read back.
    - Refinements ([block_manager_refines_map], [vertex_manager_refines_map],
      [queue_refines_map], [partition_lookup]): caches and indexes do not change
      the contents.
    - Optimizers ([optimal_overlapping], [optimal_nonoverlapping],
      [heuristic_overlapping], [heuristic_nonoverlapping], [used_partitions],
      [partition_choice_covers]): the programs given to the solver are the
      problem, the greedy searches end, and the results are partitionings within
      the threshold.
    - Incremental state agrees with its definition ([candidate_counters],
      [candidate_block_size], [workload_frequencies]).
    - Theorems of kind "error" say what the program does where it does not do
      what it means to; other such behaviour is recorded by lemmas on concrete
      inputs ([zipf_past_last], [near_one_lost], ...).

    ** Not modelled

    LevelDB, libspatialindex, Gurobi, boost and gtest themselves; opening
    databases and directories, printing and timing; the state a caller observes
    after an exception (exceptions end the modelled computation); failure of
    memory allocation; the drivers of the experiments under simulation/exps,
    which set parameters, call the parts above and print; RunningStat and
    NormalRand, which those use for their figures (NormalRand writes past an
    empty vector, so what it computes is undefined); the query language under
    lang, a toy grammar for flex and bison. *)

From Stdlib Require Import ZArith Lia.
From stdpp Require Import base numbers gmap strings list sorting.

#[global] Open Scope Z_scope.

(** ** Outcomes of a C++ call

    A call returns a value, throws one of the exceptions the program raises,
    stops in a failed [assert], or does something the C++ standard leaves
    undefined (reading outside a buffer, dereferencing [end()]). *)

(** The exceptions of [Exceptions.h] and the standard-library and boost
    exceptions the modelled calls can raise. *)
Inductive exn :=
  | vertex_already_exists (id : Z)
  | vertex_not_found (id : Z)
  | block_already_exists (id : Z)
  | block_not_found (id : Z)
  | attribute_not_found (description : string)
  | time_sliced_partition_not_found (time : Z)
  | time_sliced_partition_replacement (description : string)
  | runtime_error (what : string)
  | out_of_range
  | bad_get
  | bad_lexical_cast.

Inductive outcome (A : Type) :=
  | Ret (a : A)
  | Throw (e : exn)
  | AssertFailed
  | Undefined.
Arguments Ret {A} a.
Arguments Throw {A} e.
Arguments AssertFailed {A}.
Arguments Undefined {A}.

#[global] Instance outcome_ret : MRet outcome := fun A a => Ret a.
#[global] Instance outcome_bind : MBind outcome := fun A B f m =>
  match m with
  | Ret a => f a
  | Throw e => Throw e
  | AssertFailed => AssertFailed
  | Undefined => Undefined
  end.
#[global] Instance outcome_fmap : FMap outcome := fun A B f m =>
  match m with
  | Ret a => Ret (f a)
  | Throw e => Throw e
  | AssertFailed => AssertFailed
  | Undefined => Undefined
  end.

(** [assert(b)] of [<cassert>]. *)
Definition cassert (b : bool) : outcome unit :=
  if b then Ret tt else AssertFailed.

(** An operation that is undefined when it has no value to work on. *)
Definition or_undefined {A} (o : option A) : outcome A :=
  match o with Some a => Ret a | None => Undefined end.

(** [v.at(i)]: a checked access. *)
Definition or_throw {A} (e : exn) (o : option A) : outcome A :=
  match o with Some a => Ret a | None => Throw e end.

(** A loop [for (x : l)] whose body updates a state and may fail. *)
Fixpoint foldM {A S} (f : S -> A -> outcome S) (s : S) (l : list A) : outcome S :=
  match l with
  | [] => Ret s
  | a :: l' => s' ← f s a; foldM f s' l'
  end.

(** ** Machine integers *)

Definition u32 (z : Z) : Z := z mod 2 ^ 32.
Definition u64 (z : Z) : Z := z mod 2 ^ 64.

(** The two's complement reading of a [bits]-bit pattern. *)
Definition to_signed (bits z : Z) : Z :=
  let m := z mod 2 ^ bits in if m <? 2 ^ (bits - 1) then m else m - 2 ^ bits.

Abbreviation is_u32 z := (0 <= z < 2 ^ 32).
Abbreviation is_u64 z := (0 <= z < 2 ^ 64).

Lemma u32_id z : is_u32 z -> u32 z = z.
Proof. intros H; apply Z.mod_small, H. Qed.

Lemma u64_id z : is_u64 z -> u64 z = z.
Proof. intros H; apply Z.mod_small, H. Qed.

Lemma u64_range z : is_u64 (u64 z).
Proof. apply Z.mod_pos_bound. lia. Qed.

Lemma u64_add_l a b : u64 (u64 a + b) = u64 (a + b).
Proof. apply Z.add_mod_idemp_l. lia. Qed.

Lemma u64_add_r a b : u64 (a + u64 b) = u64 (a + b).
Proof. apply Z.add_mod_idemp_r. lia. Qed.

Lemma u64_sub_l a b : u64 (u64 a - b) = u64 (a - b).
Proof. apply Zminus_mod_idemp_l. Qed.

Lemma u64_sub_r a b : u64 (a - u64 b) = u64 (a - b).
Proof. apply Zminus_mod_idemp_r. Qed.

Lemma to_signed_mod bits z : to_signed bits (z mod 2 ^ bits) = to_signed bits z.
Proof.
  unfold to_signed. destruct (decide (2 ^ bits = 0)) as [->|H0].
  - by rewrite !Z.mod_0_r.
  - by rewrite Z.mod_mod.
Qed.

Lemma to_signed_id bits z :
  0 < bits -> - 2 ^ (bits - 1) <= z < 2 ^ (bits - 1) -> to_signed bits z = z.
Proof.
  intros Hb Hz. unfold to_signed.
  assert (2 ^ bits = 2 * 2 ^ (bits - 1)) as E.
  { rewrite <- Z.pow_succ_r by lia. f_equal. lia. }
  destruct (decide (0 <= z)).
  - rewrite Z.mod_small by lia. destruct (Z.ltb_spec z (2 ^ (bits - 1))); lia.
  - assert (z mod 2 ^ bits = z + 2 ^ bits) as ->.
    { symmetry. apply Z.mod_unique with (-1); lia. }
    destruct (Z.ltb_spec (z + 2 ^ bits) (2 ^ (bits - 1))); lia.
Qed.

(** ** Automation *)

Create HintDb railway.
Create Rewrite HintDb railway.
#[export] Hint Rewrite @length_app @length_take @length_drop @length_replicate
  @length_insert @length_fmap @length_reverse : railway.

(** Take an [outcome] computation that returned apart. *)
Ltac inv_ret :=
  repeat match goal with
  | H : Ret _ = Ret _ |- _ => injection H as H
  | H : Throw _ = Ret _ |- _ => discriminate H
  | H : AssertFailed = Ret _ |- _ => discriminate H
  | H : Undefined = Ret _ |- _ => discriminate H
  | H : mbind _ ?m = Ret _ |- _ =>
      let E := fresh "E" in destruct m eqn:E; cbn [mbind outcome_bind] in H; [|discriminate H..]
  end; simplify_eq.

(** Case analysis on the innermost boolean test of the goal or hypothesis. *)
Ltac case_if :=
  match goal with
  | |- context [if ?b then _ else _] =>
      lazymatch b with
      | context [if _ then _ else _] => fail
      | _ => let E := fresh "E" in destruct b eqn:E
      end
  | H : context [if ?b then _ else _] |- _ =>
      lazymatch b with
      | context [if _ then _ else _] => fail
      | _ => let E := fresh "E" in destruct b eqn:E
      end
  end.

(** Turn boolean comparisons of integers into propositions. *)
Ltac zb :=
  repeat match goal with
  | H : (_ <? _) = true |- _ => apply Z.ltb_lt in H
  | H : (_ <? _) = false |- _ => apply Z.ltb_ge in H
  | H : (_ <=? _) = true |- _ => apply Z.leb_le in H
  | H : (_ <=? _) = false |- _ => apply Z.leb_gt in H
  | H : (_ =? _) = true |- _ => apply Z.eqb_eq in H
  | H : (_ =? _) = false |- _ => apply Z.eqb_neq in H
  | H : _ && _ = true |- _ => apply andb_prop in H as [? ?]
  | H : _ || _ = false |- _ => apply orb_false_elim in H as [? ?]
  | H : negb _ = true |- _ => apply negb_true_iff in H
  | H : negb _ = false |- _ => apply negb_false_iff in H
  end.

(** Conditions on concrete data: conjunctions, [Forall] and linear arithmetic. *)
Ltac concrete :=
  cbn; repeat first [cbn; lia | apply Forall_nil_2 | apply Forall_cons_2 | split | done].

(** ** Generic lemmas *)

Lemma bind_ret {A B} (m : outcome A) (f : A -> outcome B) b :
  m ≫= f = Ret b <-> exists a, m = Ret a /\ f a = Ret b.
Proof.
  destruct m; cbn; split; try (intros (a' & Ha & Hb)); try discriminate; eauto.
  by injection Ha as ->.
Qed.

(** The computation returns, and what it returns satisfies [Q]. *)
Definition returns {A} (m : outcome A) (Q : A -> Prop) : Prop := exists a, m = Ret a /\ Q a.

Lemma returns_ret {A} (a : A) (Q : A -> Prop) : Q a -> returns (Ret a) Q.
Proof. intros H. by exists a. Qed.

(** Sequential composition: the rest runs on what the first part promises. *)
Lemma returns_bind {A B} (m : outcome A) (f : A -> outcome B) (P : A -> Prop) (Q : B -> Prop) :
  returns m P -> (forall a, P a -> returns (f a) Q) -> returns (m ≫= f) Q.
Proof. intros (a & -> & Ha) Hf. by apply Hf. Qed.

Lemma returns_mono {A} (m : outcome A) (P Q : A -> Prop) :
  returns m P -> (forall a, P a -> Q a) -> returns m Q.
Proof. intros (a & -> & Ha) H. exists a. auto. Qed.

Lemma returns_assert (b : bool) (Q : unit -> Prop) : b = true -> Q tt -> returns (cassert b) Q.
Proof. intros -> H. by exists tt. Qed.

(** A loop whose body re-establishes its invariant returns. *)
Lemma returns_foldM {A S} (P : list A -> S -> Prop) (f : S -> A -> outcome S) l s :
  P [] s ->
  (forall done a rest s, l = done ++ a :: rest -> P done s -> returns (f s a) (P (done ++ [a]))) ->
  returns (foldM f s l) (P l).
Proof.
  intros H0 Hstep.
  cut (forall rest done s, l = done ++ rest -> P done s -> returns (foldM f s rest) (P l)).
  { intros H. by apply (H l []). }
  induction rest as [|a rest IH]; intros done s1 El HP; cbn.
  - rewrite app_nil_r in El. subst. by apply returns_ret.
  - eapply returns_bind; [by eapply Hstep|]. intros s2 H2. apply (IH (done ++ [a])); [|done].
    by rewrite <- app_assoc.
Qed.

Lemma foldM_fmap {A B S} (f : S -> B -> outcome S) (g : A -> B) s l :
  foldM f s (g <$> l) = foldM (fun s a => f s (g a)) s l.
Proof. revert s. induction l as [|a l IH]; intros s; [done|]. cbn. destruct (f s (g a)); cbn; auto. Qed.

Lemma foldM_app {A S} (f : S -> A -> outcome S) s l1 l2 :
  foldM f s (l1 ++ l2) = (s' ← foldM f s l1; foldM f s' l2).
Proof.
  revert s. induction l1 as [|a l1 IH]; intros s; [done|].
  cbn. destruct (f s a); cbn; auto.
Qed.

(** An invariant kept by the body of a loop holds after the loop. *)
Lemma foldM_inv {A S} (P : list A -> S -> Prop) (f : S -> A -> outcome S) l :
  (forall done a rest s s', l = done ++ a :: rest -> P done s ->
     f s a = Ret s' -> P (done ++ [a]) s') ->
  forall s s', P [] s -> foldM f s l = Ret s' -> P l s'.
Proof.
  intros Hstep.
  assert (forall rest done s s', l = done ++ rest -> P done s ->
    foldM f s rest = Ret s' -> P l s') as Hgen.
  { induction rest as [|a rest IH]; intros done s s' El HP H; cbn in H.
    - rewrite app_nil_r in El. by inv_ret.
    - apply bind_ret in H as (s1 & H1 & H2).
      apply (IH (done ++ [a]) s1); [by rewrite <- app_assoc|eauto|done]. }
  intros s s' H0 H. by apply (Hgen l [] s s').
Qed.

(** A loop whose body never fails under its invariant never fails. *)
Lemma foldM_total {A S} (P : list A -> S -> Prop) (f : S -> A -> outcome S) l s :
  P [] s ->
  (forall done a rest s1, l = done ++ a :: rest -> P done s1 ->
     exists s2, f s1 a = Ret s2 /\ P (done ++ [a]) s2) ->
  exists s', foldM f s l = Ret s' /\ P l s'.
Proof.
  intros H0 Hstep.
  assert (forall rest done s, l = done ++ rest -> P done s ->
    exists s', foldM f s rest = Ret s' /\ P l s') as Hgen.
  { induction rest as [|a rest IH]; intros done s1 El HP; cbn.
    - rewrite app_nil_r in El. subst. eauto.
    - destruct (Hstep done a rest s1 El HP) as (s2 & -> & H2). cbn.
      apply (IH (done ++ [a])); [by rewrite <- app_assoc|done]. }
  by apply (Hgen l []).
Qed.

Lemma foldM_ext {A S} (f g : S -> A -> outcome S) s l :
  (forall s a, f s a = g s a) -> foldM f s l = foldM g s l.
Proof.
  intros Hfg. revert s. induction l as [|a l IH]; intros s; [done|].
  cbn. rewrite Hfg. destruct (g s a); cbn; auto.
Qed.

Lemma take_app_exact {A} (l k : list A) n : n = length l -> take n (l ++ k) = l.
Proof. intros ->. apply take_app_length. Qed.

Lemma drop_app_exact {A} (l k : list A) n : n = length l -> drop n (l ++ k) = k.
Proof. intros ->. apply drop_app_length. Qed.

Lemma filter_all {A} (P : A -> Prop) `{forall x, Decision (P x)} (l : list A) :
  Forall P l -> filter P l = l.
Proof.
  induction 1 as [|x l Hx Hl IH]; [done|]. by rewrite filter_cons_True, IH by done.
Qed.

Lemma filter_fmap {A B} (f : A -> B) (P : B -> Prop) `{!forall x, Decision (P x)} (l : list A) :
  filter P (f <$> l) = f <$> filter (fun x => P (f x)) l.
Proof. induction l as [|x l IH]; [done|]. cbn [fmap list_fmap]. rewrite !filter_cons, IH. by case_decide. Qed.

Lemma filter_none {A} (P : A -> Prop) `{forall x, Decision (P x)} (l : list A) :
  Forall (fun x => ~ P x) l -> filter P l = [].
Proof.
  induction 1 as [|x l Hx Hl IH]; [done|]. by rewrite filter_cons_False, IH by done.
Qed.

(** ** [unordered_map] in iteration order

    Where the program's behaviour depends on the order in which an
    [unordered_map] is traversed, the map is an association list in that
    order: looking up takes the entry of the key, inserting a new key puts it
    somewhere (here: last) and assigning to a present key keeps its place. *)

Section Assoc.
Context {K V : Type} `{EqDecision K}.

Fixpoint assoc_find (k : K) (l : list (K * V)) : option V :=
  match l with
  | [] => None
  | (k', v) :: l' => if decide (k = k') then Some v else assoc_find k l'
  end.

(** [m[k] = v] *)
Fixpoint assoc_set (k : K) (v : V) (l : list (K * V)) : list (K * V) :=
  match l with
  | [] => [(k, v)]
  | (k', v') :: l' => if decide (k = k') then (k, v) :: l' else (k', v') :: assoc_set k v l'
  end.

(** [m.emplace(k, v)] and [m.insert]: nothing if the key is present. *)
Definition assoc_emplace (k : K) (v : V) (l : list (K * V)) : list (K * V) :=
  match assoc_find k l with Some _ => l | None => l ++ [(k, v)] end.

(** [m.erase(k)] *)
Fixpoint assoc_erase (k : K) (l : list (K * V)) : list (K * V) :=
  match l with
  | [] => []
  | (k', v) :: l' => if decide (k = k') then l' else (k', v) :: assoc_erase k l'
  end.

Lemma assoc_find_Some k v l : assoc_find k l = Some v -> (k, v) ∈ l.
Proof.
  induction l as [|[k' v'] l IH]; [done|]. cbn. case_decide; [|set_solver].
  intros [= ->]. subst. set_solver.
Qed.

Lemma assoc_find_None k l : assoc_find k l = None <-> k ∉ l.*1.
Proof.
  induction l as [|[k' v'] l IH]; cbn; [set_solver|].
  case_decide; [|rewrite IH; set_solver]. subst. split; [done|set_solver].
Qed.

Lemma assoc_find_elem k v l : NoDup l.*1 -> (k, v) ∈ l -> assoc_find k l = Some v.
Proof.
  induction l as [|[k' v'] l IH]; cbn; [set_solver|].
  intros [Hn Hd]%NoDup_cons Hin. apply elem_of_cons in Hin as [[= -> ->]|Hin].
  - by rewrite decide_True.
  - case_decide; [|auto]. subst. contradict Hn. apply list_elem_of_fmap. by exists (k', v).
Qed.

Lemma assoc_find_app k l1 l2 :
  assoc_find k (l1 ++ l2) = match assoc_find k l1 with Some v => Some v | None => assoc_find k l2 end.
Proof. induction l1 as [|[k' v'] l1 IH]; [done|]. cbn. by case_decide. Qed.

Lemma assoc_find_set k k' v l :
  assoc_find k' (assoc_set k v l) = if decide (k' = k) then Some v else assoc_find k' l.
Proof.
  induction l as [|[k1 v1] l IH]; cbn; [done|].
  destruct (decide (k = k1)) as [->|Hne]; cbn; [by case_decide|].
  rewrite IH. repeat case_decide; congruence.
Qed.

(** Assigning to a present key does not move it. *)
Lemma assoc_set_keys k v l : k ∈ l.*1 -> (assoc_set k v l).*1 = l.*1.
Proof.
  induction l as [|[k1 v1] l IH]; cbn; [set_solver|].
  case_decide; [by subst|]. intros Hin. cbn. f_equal. apply IH. set_solver.
Qed.

Lemma assoc_set_new k v l : k ∉ l.*1 -> assoc_set k v l = l ++ [(k, v)].
Proof.
  induction l as [|[k1 v1] l IH]; cbn; [done|]. intros Hn.
  rewrite decide_False by set_solver. f_equal. apply IH. set_solver.
Qed.

Lemma assoc_set_middle k v v' l1 l2 :
  k ∉ l1.*1 -> assoc_set k v (l1 ++ (k, v') :: l2) = l1 ++ (k, v) :: l2.
Proof.
  induction l1 as [|[k1 v1] l1 IH]; cbn; intros Hn; [by rewrite decide_True|].
  rewrite decide_False by set_solver. f_equal. apply IH. set_solver.
Qed.

Lemma assoc_set_NoDup k v l : NoDup l.*1 -> NoDup (assoc_set k v l).*1.
Proof.
  intros Hnd. destruct (decide (k ∈ l.*1)).
  - by rewrite assoc_set_keys.
  - rewrite assoc_set_new, fmap_app by done. apply NoDup_app. cbn.
    split_and!; [done|set_solver|apply NoDup_singleton].
Qed.

Lemma assoc_emplace_NoDup k v l : NoDup l.*1 -> NoDup (assoc_emplace k v l).*1.
Proof.
  intros Hnd. unfold assoc_emplace. destruct (assoc_find k l) eqn:E; [done|].
  apply assoc_find_None in E. rewrite fmap_app. apply NoDup_app. cbn.
  split_and!; [done|set_solver|apply NoDup_singleton].
Qed.

Lemma assoc_find_emplace k k' v l :
  assoc_find k' (assoc_emplace k v l) =
    match assoc_find k' l with
    | Some v' => Some v'
    | None => if decide (k' = k) then Some v else None
    end.
Proof.
  unfold assoc_emplace. destruct (assoc_find k l) eqn:E.
  - destruct (assoc_find k' l) eqn:E'; [done|]. case_decide; congruence.
  - rewrite assoc_find_app. by destruct (assoc_find k' l).
Qed.

Lemma assoc_find_erase k k' l :
  NoDup l.*1 -> assoc_find k' (assoc_erase k l) = if decide (k' = k) then None else assoc_find k' l.
Proof.
  induction l as [|[k1 v1] l IH]; cbn; intros Hnd; [by case_decide|].
  apply NoDup_cons in Hnd as [Hn Hnd].
  destruct (decide (k = k1)) as [->|]; cbn.
  - case_decide; [|done]. subst. by apply assoc_find_None.
  - rewrite IH by done. repeat case_decide; congruence.
Qed.

Lemma assoc_erase_Permutation k l : k ∈ l.*1 -> l.*1 ≡ₚ k :: (assoc_erase k l).*1.
Proof.
  induction l as [|[k1 v1] l IH]; cbn; [set_solver|].
  case_decide as E; [by subst|]. intros Hin. cbn.
  rewrite IH by set_solver. constructor.
Qed.

Lemma assoc_erase_keys k l : forall x, x ∈ (assoc_erase k l).*1 -> x ∈ l.*1.
Proof. induction l as [|[k1 v1] l IH]; cbn; [done|]. case_decide; set_solver. Qed.

Lemma assoc_erase_NoDup k l : NoDup l.*1 -> NoDup (assoc_erase k l).*1.
Proof.
  induction l as [|[k1 v1] l IH]; cbn; [done|]. intros [Hn Hnd]%NoDup_cons.
  case_decide; [done|]. cbn. apply NoDup_cons. split; [|auto].
  intros Hin. apply Hn. by apply assoc_erase_keys in Hin.
Qed.
End Assoc.

(** Moving an element from one list to the end of another. *)
Lemma filter_move {A} `{EqDecision A} (x : A) (l k : list A) :
  x ∈ l -> NoDup l -> filter (fun y => y <> x) l ++ k ++ [x] ≡ₚ l ++ k.
Proof.
  intros Hx Hl. apply list_elem_of_split in Hx as (l1 & l2 & ->).
  apply NoDup_app in Hl as (_ & Hn1 & [Hn2 _]%NoDup_cons).
  rewrite filter_app, filter_cons, decide_False by tauto. rewrite !filter_all.
  - rewrite <- !app_assoc. apply Permutation_app_head. cbn. rewrite (app_assoc l2). by rewrite <- Permutation_cons_append.
  - apply Forall_forall. intros y Hy ->. done.
  - apply Forall_forall. intros y Hy ->. apply (Hn1 x Hy). by left.
Qed.
