(* ===== verification/Double.v ===== *)
(** * IEEE 754 binary64 values as the program stores them

    [typedef double Timestamp] (common/Types.h, core/Types.h) and every other
    [double] of the program is represented by its 64-bit pattern, an integer
    of [0, 2^64).  Comparisons are defined on the pattern ([dkey] is the
    sign-magnitude reading), arithmetic goes through the standard library's
    executable specification [SpecFloat] at precision 53 and [emax] 1024 with
    rounding to nearest even.  [dltb_SFltb] relates the two readings. *)

From Stdlib Require Import ZArith Lia SpecFloat.
From stdpp Require Import base numbers gmap strings list sorting.
From S2P Require Import Prelude.

Abbreviation double := Z (only parsing).
Abbreviation is_double b := (0 <= b < 2 ^ 64).

(** ** Bit patterns and values *)

Definition to_sf (b : double) : spec_float :=
  let s := 2 ^ 63 <=? b in
  let e := (b / 2 ^ 52) mod 2 ^ 11 in
  let m := b mod 2 ^ 52 in
  if e =? 2047 then (if m =? 0 then S754_infinity s else S754_nan)
  else if e =? 0 then
    match m with
    | Zpos p => S754_finite s p (-1074)
    | _ => S754_zero s
    end
  else
    match m + 2 ^ 52 with
    | Zpos p => S754_finite s p (e - 1075)
    | _ => S754_zero s
    end.

Definition sign_bit (s : bool) : Z := if s then 2 ^ 63 else 0.

Definition of_sf (x : spec_float) : double :=
  match x with
  | S754_zero s => sign_bit s
  | S754_infinity s => sign_bit s + 2047 * 2 ^ 52
  | S754_nan => 2047 * 2 ^ 52 + 2 ^ 51
  | S754_finite s m e =>
      if Zpos m <? 2 ^ 52 then sign_bit s + Zpos m
      else sign_bit s + (e + 1075) * 2 ^ 52 + (Zpos m - 2 ^ 52)
  end.

(** [numeric_limits<double>::max()] and [::infinity()]. *)
Definition dmax : double := 0x7FEFFFFFFFFFFFFF.
Definition dinf : double := 0x7FF0000000000000.
Definition dninf : double := 0xFFF0000000000000.
Definition dzero : double := 0.
Definition dunit : double := 0x3FF0000000000000.
Definition dtwo : double := 0x4000000000000000.

(** ** Arithmetic *)

Definition dadd (a b : double) : double := of_sf (SFadd 53 1024 (to_sf a) (to_sf b)).
Definition dsub (a b : double) : double := of_sf (SFsub 53 1024 (to_sf a) (to_sf b)).
Definition dmul (a b : double) : double := of_sf (SFmul 53 1024 (to_sf a) (to_sf b)).
Definition ddiv (a b : double) : double := of_sf (SFdiv 53 1024 (to_sf a) (to_sf b)).
Definition dopp (a : double) : double := of_sf (SFopp (to_sf a)).

(** Conversion of an integer to [double] (nearest even). *)
Definition dofZ (n : Z) : double := of_sf (binary_normalize 53 1024 n 0 false).

(** Conversion of a [double] to [size_t]: truncation toward zero. *)
Definition d2Z (b : double) : Z :=
  match to_sf b with
  | S754_finite s m e =>
      let v := if 0 <=? e then Zpos m * 2 ^ e else Zpos m / 2 ^ (- e) in
      if s then - v else v
  | _ => 0
  end.

(** ** Comparisons *)

Definition is_nan (b : double) : bool := 2047 * 2 ^ 52 <? b mod 2 ^ 63.

(** The sign-magnitude reading of a bit pattern. *)
Definition dkey (b : double) : Z := if b <? 2 ^ 63 then b else - (b - 2 ^ 63).

Definition dltb (a b : double) : bool :=
  negb (is_nan a) && negb (is_nan b) && (dkey a <? dkey b).
Definition dleb (a b : double) : bool :=
  negb (is_nan a) && negb (is_nan b) && (dkey a <=? dkey b).
Definition deqb (a b : double) : bool :=
  negb (is_nan a) && negb (is_nan b) && (dkey a =? dkey b).

(** A pattern that is a number: a 64-bit pattern and not a NaN. *)
Definition num (b : double) : Prop := is_double b /\ is_nan b = false.

Lemma dltb_num a b : num a -> num b -> dltb a b = (dkey a <? dkey b).
Proof. intros [_ Ha] [_ Hb]. unfold dltb. by rewrite Ha, Hb. Qed.

Lemma dleb_num a b : num a -> num b -> dleb a b = (dkey a <=? dkey b).
Proof. intros [_ Ha] [_ Hb]. unfold dleb. by rewrite Ha, Hb. Qed.

Lemma deqb_num a b : num a -> num b -> deqb a b = (dkey a =? dkey b).
Proof. intros [_ Ha] [_ Hb]. unfold deqb. by rewrite Ha, Hb. Qed.

#[export] Hint Rewrite dltb_num dleb_num deqb_num using assumption : railway.

(** On numbers with a clear sign bit the pattern is its own key. *)
Lemma dkey_nonneg b : 0 <= b < 2 ^ 63 -> dkey b = b.
Proof. intros H. unfold dkey. destruct (Z.ltb_spec b (2 ^ 63)); lia. Qed.

Lemma deqb_refl a : num a -> deqb a a = true.
Proof. intros H. rewrite deqb_num by done. apply Z.eqb_refl. Qed.

Lemma deqb_eq a b : deqb a b = true -> dkey a = dkey b.
Proof. unfold deqb. intros H. zb. done. Qed.

(** ** The two readings agree *)

(** A pattern is a sign, a biased exponent and a fraction. *)
Lemma decompose b : is_double b ->
  exists (s : bool) e m, 0 <= e < 2048 /\ 0 <= m < 2 ^ 52 /\
    b = sign_bit s + e * 2 ^ 52 + m.
Proof.
  intros Hb. exists (2 ^ 63 <=? b), ((b / 2 ^ 52) mod 2 ^ 11), (b mod 2 ^ 52).
  split_and!; try (apply Z.mod_pos_bound; lia); [done..|].
  pose proof (Z.div_mod b (2 ^ 52) ltac:(lia)) as E1.
  pose proof (Z.div_mod (b / 2 ^ 52) (2 ^ 11) ltac:(lia)) as E2.
  assert (b / 2 ^ 52 / 2 ^ 11 = b / 2 ^ 63) as E3 by (rewrite Z.div_div by lia; done).
  unfold sign_bit. destruct (Z.leb_spec (2 ^ 63) b).
  - assert (b / 2 ^ 63 = 1) by (symmetry; apply Z.div_unique with (b - 2 ^ 63); lia). lia.
  - assert (b / 2 ^ 63 = 0) by (apply Z.div_small; lia). lia.
Qed.

Section Parts.
Context (s : bool) (e m : Z) (He : 0 <= e < 2048) (Hm : 0 <= m < 2 ^ 52).
#[local] Abbreviation b := (sign_bit s + e * 2 ^ 52 + m) (only parsing).

Lemma parts_sign : (2 ^ 63 <=? b) = s.
Proof. unfold sign_bit. destruct s; [apply Z.leb_le|apply Z.leb_gt]; lia. Qed.

Lemma parts_exp : (b / 2 ^ 52) mod 2 ^ 11 = e.
Proof.
  assert (b / 2 ^ 52 = (if s then 2048 else 0) + e) as ->.
  { symmetry. apply Z.div_unique with m; [lia|]. unfold sign_bit. destruct s; lia. }
  symmetry. apply Z.mod_unique with (if s then 1 else 0); [lia|]. destruct s; lia.
Qed.

Lemma parts_frac : b mod 2 ^ 52 = m.
Proof.
  symmetry. apply Z.mod_unique with ((if s then 2048 else 0) + e); [lia|].
  unfold sign_bit. destruct s; lia.
Qed.

Lemma parts_key : dkey b = if s then - (e * 2 ^ 52 + m) else e * 2 ^ 52 + m.
Proof. unfold dkey, sign_bit. destruct s; case_if; zb; lia. Qed.

Lemma parts_nan : is_nan b = (e =? 2047) && negb (m =? 0).
Proof.
  unfold is_nan. assert (b mod 2 ^ 63 = e * 2 ^ 52 + m) as ->.
  { symmetry. apply Z.mod_unique with (if s then 1 else 0); [lia|].
    unfold sign_bit. destruct s; lia. }
  destruct (Z.eqb_spec e 2047), (Z.eqb_spec m 0); cbn [andb negb];
    [apply Z.ltb_ge|apply Z.ltb_lt|apply Z.ltb_ge..]; lia.
Qed.

Lemma parts_sf : to_sf b =
  if e =? 2047 then (if m =? 0 then S754_infinity s else S754_nan)
  else if e =? 0 then (if m =? 0 then S754_zero s else S754_finite s (Z.to_pos m) (-1074))
  else S754_finite s (Z.to_pos (m + 2 ^ 52)) (e - 1075).
Proof.
  unfold to_sf. rewrite parts_sign, parts_exp, parts_frac.
  destruct (e =? 2047), (e =? 0); [done..| |].
  - destruct m; [done..|lia].
  - destruct (m + 2 ^ 52) eqn:E; [lia|done|lia].
Qed.
End Parts.

(** The order of two magnitudes, as [SFcompare] computes it. *)
Lemma magnitude_compare e1 m1 e2 m2 :
  0 <= e1 < 2047 -> 0 <= m1 < 2 ^ 52 -> 0 <= e2 < 2047 -> 0 <= m2 < 2 ^ 52 ->
  let E e := if e =? 0 then -1074 else e - 1075 in
  let M e m := if e =? 0 then m else m + 2 ^ 52 in
  match E e1 ?= E e2 with
  | Lt => Lt | Gt => Gt | Eq => M e1 m1 ?= M e2 m2
  end = (e1 * 2 ^ 52 + m1 ?= e2 * 2 ^ 52 + m2).
Proof.
  intros H1 H2 H3 H4 E M. unfold E, M.
  destruct (Z.eqb_spec e1 0), (Z.eqb_spec e2 0);
    match goal with |- match ?c with _ => _ end = ?d =>
      destruct (Z.compare_spec (e1 * 2 ^ 52 + m1) (e2 * 2 ^ 52 + m2)) end;
    repeat match goal with |- context [?x ?= ?y] => destruct (Z.compare_spec x y) end;
    try lia; done.
Qed.

Lemma pos_compare_cont x y : 0 < x -> 0 < y ->
  Pos.compare_cont Eq (Z.to_pos x) (Z.to_pos y) = (x ?= y).
Proof. destruct x, y; done || lia. Qed.

Lemma finite_compare (s1 : bool) e1 m1 (s2 : bool) e2 m2 :
  0 <= e1 < 2047 -> 0 <= m1 < 2 ^ 52 -> 0 <= e2 < 2047 -> 0 <= m2 < 2 ^ 52 ->
  let sf (s : bool) e m :=
    if e =? 0 then (if m =? 0 then S754_zero s else S754_finite s (Z.to_pos m) (-1074))
    else S754_finite s (Z.to_pos (m + 2 ^ 52)) (e - 1075) in
  let key (s : bool) e m := if s then - (e * 2 ^ 52 + m) else e * 2 ^ 52 + m in
  SFcompare (sf s1 e1 m1) (sf s2 e2 m2) = Some (key s1 e1 m1 ?= key s2 e2 m2).
Proof.
  intros H1 H2 H3 H4 sf key. unfold sf, key.
  destruct (Z.eqb_spec e1 0) as [E1|E1], (Z.eqb_spec e2 0) as [E2|E2];
    try destruct (Z.eqb_spec m1 0) as [M1|M1]; try destruct (Z.eqb_spec m2 0) as [M2|M2];
    destruct s1, s2; cbn [SFcompare]; rewrite ?pos_compare_cont by lia; f_equal;
    repeat match goal with
    | |- context [match ?x ?= ?y with _ => _ end] => destruct (Z.compare_spec x y)
    | |- context [CompOpp (?x ?= ?y)] => destruct (Z.compare_spec x y); cbn [CompOpp]
    end;
    match goal with |- ?c = (?x ?= ?y) => destruct (Z.compare_spec x y) end;
    first [done | lia | match goal with |- (?x ?= ?y) = _ => destruct (Z.compare_spec x y) end; done || lia].
Qed.

(** Comparing two patterns by their keys is IEEE comparison of their values. *)
Lemma compare_to_sf a b : is_double a -> is_double b ->
  SFcompare (to_sf a) (to_sf b) =
    if is_nan a || is_nan b then None else Some (dkey a ?= dkey b).
Proof.
  intros (s1 & e1 & m1 & He1 & Hm1 & ->)%decompose (s2 & e2 & m2 & He2 & Hm2 & ->)%decompose.
  rewrite !parts_sf, !parts_nan, !parts_key by done.
  destruct (Z.eqb_spec e1 2047) as [->|N1], (Z.eqb_spec e2 2047) as [->|N2]; cbn [andb negb].
  4: apply finite_compare; lia.
  all: try destruct (Z.eqb_spec m1 0); try destruct (Z.eqb_spec m2 0); cbn [andb orb negb];
    repeat case_if; zb; subst; try destruct s1; try destruct s2; cbn [SFcompare]; try done; f_equal;
    match goal with |- ?c = (?x ?= ?y) => destruct (Z.compare_spec x y) end; done || lia.
Qed.

Lemma dltb_SFltb a b : is_double a -> is_double b ->
  dltb a b = SFltb (to_sf a) (to_sf b).
Proof.
  intros Ha Hb. unfold SFltb, dltb. rewrite compare_to_sf by done.
  by destruct (is_nan a), (is_nan b).
Qed.

(** ** Two exact results of binary64 arithmetic

    A finite non-zero number divided by itself is exactly one, and one minus
    one is exactly zero. *)

Lemma SFdiv_self s m e : SFdiv 53 1024 (S754_finite s m e) (S754_finite s m e)
  = S754_finite false (2 ^ 52) (-52).
Proof.
  unfold SFdiv, SFdiv_core_binary.
  rewrite !Z.sub_diag. change (fexp 53 1024 0) with (-53).
  change (Z.min (-53) 0) with (-53). change (0 - -53) with 53. cbv iota.
  rewrite Z.shiftl_mul_pow2 by lia.
  pose proof (Z_div_mult (2 ^ 53) (Z.pos m) ltac:(lia)) as Q.
  pose proof (Z.mod_mul (2 ^ 53) (Z.pos m) ltac:(lia)) as R.
  rewrite Z.mul_comm in Q. rewrite Z.mul_comm in R.
  unfold Z.div in Q. unfold Z.modulo in R.
  destruct (Z.div_eucl (Z.pos m * 2 ^ 53) (Z.pos m)) as [q r]. subst q r. cbv beta iota zeta.
  assert (new_location (Z.pos m) 0 = loc_Exact) as ->.
  { unfold new_location, new_location_even, new_location_odd. by destruct (Z.even _). }
  rewrite xorb_nilpotent. by vm_compute.
Qed.

Lemma ddiv_self a s m e : to_sf a = S754_finite s m e -> ddiv a a = dunit.
Proof. intros E. unfold ddiv. rewrite E, SFdiv_self. vm_compute. done. Qed.

Lemma dsub_unit : dsub dunit dunit = dzero.
Proof. vm_compute. done. Qed.

(** ** Small integers and negation give numbers *)

Lemma digits2_pos_bounds p : 2 ^ (Zpos (digits2_pos p) - 1) <= Zpos p < 2 ^ Zpos (digits2_pos p).
Proof.
  induction p as [p IH|p IH|]; [..|by cbn]; cbn [digits2_pos]; rewrite Pos2Z.inj_succ;
    replace (Z.succ (Zpos (digits2_pos p)) - 1) with (Z.succ (Zpos (digits2_pos p) - 1)) by lia;
    rewrite !Z.pow_succ_r by lia; lia.
Qed.

Lemma digits2_unique p d : 0 < d -> 2 ^ (d - 1) <= Zpos p < 2 ^ d -> Zpos (digits2_pos p) = d.
Proof.
  intros Hd H. pose proof (digits2_pos_bounds p) as Hp. set (k := Zpos (digits2_pos p)) in *.
  assert (0 < k) by done. destruct (Z.lt_trichotomy k d) as [Hlt|[?|Hgt]]; [|done|].
  - pose proof (Z.pow_le_mono_r 2 k (d - 1) ltac:(lia) ltac:(lia)). lia.
  - pose proof (Z.pow_le_mono_r 2 d (k - 1) ltac:(lia) ltac:(lia)). lia.
Qed.

Lemma round_exact s m e : 2 ^ 52 <= Zpos m < 2 ^ 53 -> -1074 <= e <= 971 ->
  binary_round_aux 53 1024 s (Zpos m) e loc_Exact = S754_finite s m e.
Proof.
  intros Hm He. assert (Zpos (digits2_pos m) = 53) as Hd by (by apply digits2_unique).
  unfold binary_round_aux, shr_fexp. cbn [Zdigits2]. rewrite Hd.
  assert (fexp 53 1024 (53 + e) - e = 0) as -> by (unfold fexp, emin; lia).
  cbn [shr shr_record_of_loc shr_m loc_of_shr_record shr_r shr_s round_nearest_even].
  cbn [Zdigits2]. rewrite Hd.
  assert (fexp 53 1024 (53 + e) - e = 0) as -> by (unfold fexp, emin; lia).
  cbn [shr shr_m]. destruct (Z.leb_spec e (1024 - 53)); [done|lia].
Qed.

Lemma iter_xO p q : Zpos (Pos.iter xO p q) = Zpos p * 2 ^ Zpos q.
Proof.
  induction q as [|q IH] using Pos.peano_ind; [cbn; lia|].
  rewrite Pos.iter_succ, Pos2Z.inj_succ, Z.pow_succ_r by lia. lia.
Qed.

Lemma binary_round_small s p : Zpos p < 2 ^ 53 ->
  exists m e, binary_round 53 1024 s p 0 = S754_finite s m e /\ 2 ^ 52 <= Zpos m < 2 ^ 53 /\ -52 <= e <= 0.
Proof.
  intros Hp. pose proof (digits2_pos_bounds p) as Hd. set (d := Zpos (digits2_pos p)) in *.
  assert (0 < d) by done.
  assert (d <= 53).
  { destruct (decide (d <= 53)); [done|]. pose proof (Z.pow_le_mono_r 2 53 (d - 1) ltac:(lia) ltac:(lia)). lia. }
  unfold binary_round, shl_align. fold d.
  assert (fexp 53 1024 (d + 0) - 0 = d - 53) as -> by (unfold fexp, emin; lia).
  assert (fexp 53 1024 (d + 0) = d - 53) as -> by (unfold fexp, emin; lia).
  destruct (d - 53) as [|q|q] eqn:E; [|lia|].
  - exists p, 0. replace d with 53 in Hd by lia. rewrite round_exact by lia. split_and!; lia || done.
  - exists (Pos.iter xO p q), (Zneg q).
    assert (2 ^ 52 <= Zpos (Pos.iter xO p q) < 2 ^ 53) as Hs.
    { rewrite iter_xO.
      replace 52 with (d - 1 + Zpos q) by lia. replace 53 with (d + Zpos q) by lia. rewrite !Z.pow_add_r by lia. nia. }
    rewrite round_exact by lia. split_and!; lia || done.
Qed.

Lemma num_parts s e m : 0 <= e < 2047 -> 0 <= m < 2 ^ 52 -> num (sign_bit s + e * 2 ^ 52 + m).
Proof.
  intros He Hm. split; [unfold sign_bit; destruct s; lia|].
  rewrite parts_nan by lia. by rewrite (proj2 (Z.eqb_neq e 2047)) by lia.
Qed.

Lemma num_dofZ n : - 2 ^ 53 < n < 2 ^ 53 -> num (dofZ n).
Proof.
  intros Hn. unfold dofZ, binary_normalize. destruct n as [|p|p].
  - by vm_compute.
  - destruct (binary_round_small false p) as (m & e & -> & Hm & He); [lia|]. cbn [of_sf].
    destruct (Z.ltb_spec (Zpos m) (2 ^ 52)); [lia|]. apply num_parts; lia.
  - destruct (binary_round_small true p) as (m & e & -> & Hm & He); [lia|]. cbn [of_sf].
    destruct (Z.ltb_spec (Zpos m) (2 ^ 52)); [lia|]. apply num_parts; lia.
Qed.

Lemma num_dopp b : num b -> num (dopp b).
Proof.
  intros [Hb Hn]. destruct (decompose b Hb) as (s & e & m & He & Hm & ->).
  rewrite parts_nan in Hn by done. unfold dopp. rewrite parts_sf by done.
  destruct (Z.eqb_spec e 2047) as [->|He'].
  - destruct (Z.eqb_spec m 0); [|done]. cbn [SFopp of_sf]. split.
    + unfold sign_bit. destruct s; cbn; lia.
    + replace (sign_bit (negb s) + 2047 * 2 ^ 52) with (sign_bit (negb s) + 2047 * 2 ^ 52 + 0) by lia.
      by rewrite parts_nan by lia.
  - destruct (Z.eqb_spec e 0) as [->|He0].
    + destruct (Z.eqb_spec m 0) as [E|Hm0]; cbn [SFopp of_sf].
      * replace (sign_bit (negb s)) with (sign_bit (negb s) + 0 * 2 ^ 52 + 0) by lia. apply num_parts; lia.
      * rewrite Z2Pos.id by lia. destruct (Z.ltb_spec m (2 ^ 52)); [|lia].
        replace (sign_bit (negb s) + m) with (sign_bit (negb s) + 0 * 2 ^ 52 + m) by lia. apply num_parts; lia.
    + cbn [SFopp of_sf]. rewrite Z2Pos.id by lia. destruct (Z.ltb_spec (m + 2 ^ 52) (2 ^ 52)); [lia|].
      replace (sign_bit (negb s) + (e - 1075 + 1075) * 2 ^ 52 + (m + 2 ^ 52 - 2 ^ 52))
        with (sign_bit (negb s) + e * 2 ^ 52 + m) by lia. apply num_parts; lia.
Qed.

(** ** Rounding gives numbers of the right sign

    Every operation rounds through [binary_round_aux]; whatever it is given,
    the result is a number (a zero, an infinity or a representable finite
    value) of the given sign. *)

Definition sf_signed (s : bool) (x : spec_float) : Prop :=
  match x with
  | S754_zero s' | S754_infinity s' => s' = s
  | S754_finite s' m e => s' = s /\ Zpos m < 2 ^ 53 /\ (2 ^ 52 <= Zpos m -> -1074 <= e <= 971)
  | S754_nan => False
  end.

Lemma of_sf_signed s x : sf_signed s x -> num (of_sf x) /\ if s then dkey (of_sf x) <= 0 else 0 <= dkey (of_sf x).
Proof.
  assert (forall e m, 0 <= e < 2048 -> 0 <= m < 2 ^ 52 -> (e = 2047 -> m = 0) ->
    num (sign_bit s + e * 2 ^ 52 + m) /\
    if s then dkey (sign_bit s + e * 2 ^ 52 + m) <= 0 else 0 <= dkey (sign_bit s + e * 2 ^ 52 + m)) as H.
  { intros e m He Hm Hinf. rewrite parts_key by done. split; [split|destruct s; lia].
    - unfold sign_bit. destruct s; lia.
    - rewrite parts_nan by done. destruct (Z.eqb_spec e 2047) as [E|]; [|done].
      apply Hinf in E. by rewrite E. }
  intros Hx. destruct x as [s'|s'| |s' m e]; cbn in Hx; [| |done|].
  - subst. cbn [of_sf]. replace (sign_bit s) with (sign_bit s + 0 * 2 ^ 52 + 0) by lia. apply H; lia.
  - subst. cbn [of_sf]. replace (sign_bit s + 2047 * 2 ^ 52) with (sign_bit s + 2047 * 2 ^ 52 + 0) by lia. apply H; lia.
  - destruct Hx as (-> & Hm & He). cbn [of_sf]. destruct (Z.ltb_spec (Zpos m) (2 ^ 52)).
    + replace (sign_bit s + Zpos m) with (sign_bit s + 0 * 2 ^ 52 + Zpos m) by lia. apply H; lia.
    + specialize (He ltac:(lia)). apply H; lia.
Qed.

Lemma to_sf_signed b : num b -> sf_signed (2 ^ 63 <=? b) (to_sf b).
Proof.
  intros [Hb Hn]. destruct (decompose b Hb) as (s & e & m & He & Hm & ->).
  rewrite parts_nan in Hn by done. rewrite parts_sign, parts_sf by done.
  destruct (Z.eqb_spec e 2047).
  - destruct (Z.eqb_spec m 0); done.
  - destruct (Z.eqb_spec e 0); [destruct (Z.eqb_spec m 0); [done|]|]; cbn; (split; [done|]);
      rewrite Z2Pos.id by lia; lia.
Qed.

Lemma shr_1_m r : 0 <= shr_m r -> shr_m (shr_1 r) = shr_m r / 2.
Proof.
  destruct r as [m rr rs]. cbn [shr_m]. intros Hm. rewrite <- Z.div2_div. by destruct m as [|[p|p|]|[p|p|]].
Qed.

Lemma iter_shr_m p : forall r, 0 <= shr_m r -> shr_m (SpecFloat.iter_pos shr_1 p r) = shr_m r / 2 ^ Zpos p.
Proof.
  assert (forall a q, 0 <= a -> 0 <= a / 2 ^ q) as Hpos by (intros a q Ha; apply Z_div_nonneg_nonneg; lia).
  assert (forall q r, 0 <= r -> r / 2 ^ Zpos q / 2 ^ Zpos q = r / 2 ^ (2 * Zpos q)) as Hdbl.
  { intros q r _. rewrite Z.div_div by lia. f_equal. rewrite <- Z.pow_add_r by lia. f_equal. lia. }
  induction p as [p IH|p IH|]; intros r Hr; cbn [SpecFloat.iter_pos].
  - assert (0 <= shr_m r / 2) by (apply Z_div_nonneg_nonneg; lia).
    rewrite IH by (rewrite IH by (by rewrite shr_1_m); rewrite shr_1_m by done; by apply Hpos).
    rewrite IH by by rewrite shr_1_m. rewrite shr_1_m, Hdbl by done. by rewrite Z.div_div by lia.
  - rewrite IH by (rewrite IH by done; by apply Hpos). rewrite IH, Hdbl by done. done.
  - by apply shr_1_m.
Qed.

Lemma shr_fexp_small m e l :
  0 <= m -> 0 <= shr_m (shr_fexp 53 1024 m e l).1 < 2 ^ 53 /\ -1074 <= (shr_fexp 53 1024 m e l).2.
Proof.
  intros Hm. set (d := Zdigits2 m).
  assert (0 <= d /\ m < 2 ^ d) as [Hd Hmd].
  { unfold d. destruct m as [|p|p]; cbn [Zdigits2]; [lia| |lia]. split; [lia|]. apply digits2_pos_bounds. }
  assert (shr_m (shr_record_of_loc m l) = m) as Hl by by destruct l as [|[]].
  unfold shr_fexp. fold d. set (n := fexp 53 1024 (d + e) - e).
  assert (d - 53 <= n /\ -1074 <= n + e) as [Hn He] by (unfold n, fexp, emin; lia).
  unfold shr. destruct n as [|p|p] eqn:En; cbn [fst snd].
  - rewrite Hl. pose proof (Z.pow_le_mono_r 2 d 53 ltac:(lia) ltac:(lia)). lia.
  - rewrite iter_shr_m, Hl by by rewrite Hl. split; [|lia]. split; [apply Z_div_nonneg_nonneg; lia|].
    apply Z.div_lt_upper_bound; [lia|]. rewrite <- Z.pow_add_r by lia.
    pose proof (Z.pow_le_mono_r 2 d (Zpos p + 53) ltac:(lia) ltac:(lia)). lia.
  - rewrite Hl. pose proof (Z.pow_le_mono_r 2 d 53 ltac:(lia) ltac:(lia)). lia.
Qed.

Lemma round_aux_signed s m e l : 0 <= m -> sf_signed s (binary_round_aux 53 1024 s m e l).
Proof.
  intros Hm. unfold binary_round_aux. pose proof (shr_fexp_small m e l Hm) as [[H1 _] _].
  destruct (shr_fexp 53 1024 m e l) as [r1 e1]. cbn [fst snd] in H1.
  set (m2 := round_nearest_even _ _). assert (0 <= m2) as H2.
  { unfold m2, round_nearest_even. repeat case_match; lia. }
  pose proof (shr_fexp_small m2 e1 loc_Exact H2) as [H3 H4].
  destruct (shr_fexp 53 1024 m2 e1 loc_Exact) as [r3 e3]. cbn [fst snd] in H3, H4.
  destruct (shr_m r3) as [|p|p] eqn:E; [done| |lia]. destruct (Z.leb_spec e3 (1024 - 53)); [|done].
  cbn. split; [done|]. lia.
Qed.

(** ** Non-negative numbers *)

Definition nonneg (b : double) : Prop := num b /\ b < 2 ^ 63.

Lemma nonneg_key b : nonneg b -> dkey b = b /\ 0 <= b.
Proof. intros [[Hb _] Hs]. rewrite dkey_nonneg; lia. Qed.

Lemma nonneg_sf b : nonneg b -> sf_signed false (to_sf b).
Proof. intros [Hn Hs]. pose proof (to_sf_signed b Hn) as H. by rewrite (proj2 (Z.leb_gt _ _) Hs) in H. Qed.

(** A clear sign, except that a negative zero is not given by rounding. *)
Lemma of_sf_nonneg x : sf_signed false x -> nonneg (of_sf x).
Proof.
  intros Hx. split; [by apply (of_sf_signed false)|].
  destruct x as [s'|s'| |s' m e]; cbn in Hx; [subst; cbn; lia|subst; cbn; lia|done|].
  destruct Hx as (-> & Hm & He). cbn [of_sf sign_bit]. destruct (Z.ltb_spec (Zpos m) (2 ^ 52)); [lia|].
  specialize (He ltac:(lia)). lia.
Qed.

Lemma binary_round_signed s p e : sf_signed s (binary_round 53 1024 s p e).
Proof. unfold binary_round. destruct (shl_align _ _ _). by apply round_aux_signed. Qed.

Lemma nonneg_dofZ n : 0 <= n -> nonneg (dofZ n).
Proof.
  intros Hn. apply of_sf_nonneg. destruct n as [|p|p]; [done| |lia]. apply binary_round_signed.
Qed.

Lemma nonneg_dadd a b : nonneg a -> nonneg b -> nonneg (dadd a b).
Proof.
  intros Ha%nonneg_sf Hb%nonneg_sf. apply of_sf_nonneg. unfold SFadd.
  destruct (to_sf a) as [s1|s1| |s1 m1 e1], (to_sf b) as [s2|s2| |s2 m2 e2]; cbn in Ha, Hb; try done;
    repeat match goal with H : _ /\ _ |- _ => destruct H end; subst; try done.
  cbn [cond_Zopp]. rewrite <- Pos2Z.inj_add. apply binary_round_signed.
Qed.

(** Dividing by a finite positive number. *)
Definition finite_pos (b : double) : Prop := exists m e, to_sf b = S754_finite false m e.

Lemma nonneg_ddiv a b : nonneg a -> finite_pos b -> nonneg (ddiv a b).
Proof.
  intros Ha%nonneg_sf (m & e & Hb). apply of_sf_nonneg. unfold SFdiv. rewrite Hb.
  destruct (to_sf a) as [s1|s1| |s1 m1 e1]; cbn in Ha; try done; [by subst..|]. destruct Ha as (-> & _).
  unfold SFdiv_core_binary. set (q := match _ with Z0 => _ | Zpos _ => _ | Zneg _ => _ end).
  assert (0 <= q) as Hq.
  { unfold q. destruct (e1 - e - _); [lia| |lia]. apply Z.shiftl_nonneg. lia. }
  pose proof (Z_div_nonneg_nonneg q (Zpos m) Hq ltac:(lia)) as Hd. unfold Z.div in Hd.
  destruct (Z.div_eucl q (Zpos m)) as [q' r]. by apply round_aux_signed.
Qed.

Lemma nonneg_dmul a b : nonneg a -> nonneg b -> a < dinf -> b < dinf -> nonneg (dmul a b).
Proof.
  intros Ha Hb Hfa Hfb. apply of_sf_nonneg. unfold SFmul.
  assert (forall x, nonneg x -> x < dinf -> forall s, to_sf x <> S754_infinity s) as Hfin.
  { intros x [[Hx Hn] Hs] Hlt s E. destruct (decompose x Hx) as (sx & e & m & He & Hm & ->).
    rewrite parts_nan in Hn by done. rewrite parts_sf in E by done. unfold dinf in Hlt.
    destruct (Z.eqb_spec e 2047) as [->|]; [unfold sign_bit in Hlt; destruct sx; lia|].
    destruct (Z.eqb_spec e 0); [destruct (Z.eqb_spec m 0)|]; done. }
  pose proof (Hfin a Ha Hfa) as Hia. pose proof (Hfin b Hb Hfb) as Hib.
  apply nonneg_sf in Ha, Hb.
  destruct (to_sf a) as [s1|s1| |s1 m1 e1], (to_sf b) as [s2|s2| |s2 m2 e2]; cbn in Ha, Hb; try done;
    try (by destruct (Hia s1)); try (by destruct (Hib s2));
    repeat match goal with H : _ /\ _ |- _ => destruct H end; subst; try done.
  by apply round_aux_signed.
Qed.

Lemma finite_pos_dofZ n : 0 < n < 2 ^ 53 -> finite_pos (dofZ n).
Proof.
  intros Hn. destruct n as [|p|p]; [lia| |lia]. unfold dofZ, binary_normalize.
  destruct (binary_round_small false p) as (m & e & -> & Hm & He); [lia|]. cbn [of_sf].
  destruct (Z.ltb_spec (Zpos m) (2 ^ 52)); [lia|]. unfold finite_pos. rewrite parts_sf by lia.
  destruct (Z.eqb_spec (e + 1075) 2047); [lia|]. destruct (Z.eqb_spec (e + 1075) 0); [lia|]. eauto.
Qed.

(** ** Sums of integers are exact *)

Lemma exact_shr p : forall m, 0 <= m ->
  SpecFloat.iter_pos shr_1 p (Build_shr_record (m * 2 ^ Zpos p) false false) = Build_shr_record m false false.
Proof.
  assert (forall m, 0 <= m -> shr_1 (Build_shr_record (2 * m) false false) = Build_shr_record m false false) as H1.
  { intros m Hm. destruct m as [|q|q]; [done|done|lia]. }
  induction p as [p IH|p IH|]; intros m Hm; cbn [SpecFloat.iter_pos].
  - assert (m * 2 ^ Zpos p~1 = 2 * (m * 2 ^ Zpos p * 2 ^ Zpos p)) as ->.
    { replace (Zpos p~1) with (1 + Zpos p + Zpos p) by lia. rewrite !Z.pow_add_r by lia. lia. }
    assert (0 <= m * 2 ^ Zpos p) by lia. rewrite H1 by lia. rewrite (IH (m * 2 ^ Zpos p)) by lia. by apply IH.
  - assert (m * 2 ^ Zpos p~0 = m * 2 ^ Zpos p * 2 ^ Zpos p) as ->.
    { replace (Zpos p~0) with (Zpos p + Zpos p) by lia. rewrite Z.pow_add_r by lia. lia. }
    rewrite (IH (m * 2 ^ Zpos p)) by lia. by apply IH.
  - replace (m * 2 ^ 1) with (2 * m) by lia. by apply H1.
Qed.

(** Rounding the integer [p], given with trailing zeros, gives its normal
    form [m * 2 ^ -k]. *)
Lemma round_scaled s p q j m k :
  0 <= j <= 1000 -> 0 <= k <= 52 -> Zpos q = Zpos p * 2 ^ j -> Zpos m = Zpos p * 2 ^ k -> 2 ^ 52 <= Zpos m < 2 ^ 53 ->
  binary_round 53 1024 s q (- j) = S754_finite s m (- k).
Proof.
  intros Hj Hk Hq Hm Hb. assert (Zpos (digits2_pos q) = 53 + j - k) as Hd.
  { apply digits2_unique; [lia|]. destruct (Z.le_ge_cases k j).
    - assert (Zpos q = Zpos m * 2 ^ (j - k)) as ->.
      { rewrite Hq, Hm, <- Z.mul_assoc, <- Z.pow_add_r by lia. do 2 f_equal. lia. }
      replace (53 + j - k - 1) with (52 + (j - k)) by lia. replace (53 + j - k) with (53 + (j - k)) by lia.
      rewrite !Z.pow_add_r by lia. nia.
    - assert (Zpos m = Zpos q * 2 ^ (k - j)) as E.
      { rewrite Hq, Hm, <- Z.mul_assoc, <- Z.pow_add_r by lia. do 2 f_equal. lia. }
      assert (0 < 2 ^ (k - j)) by lia.
      replace (2 ^ 52) with (2 ^ (53 + j - k - 1) * 2 ^ (k - j)) in Hb by (rewrite <- Z.pow_add_r by lia; f_equal; lia).
      replace (2 ^ 53) with (2 ^ (53 + j - k) * 2 ^ (k - j)) in Hb by (rewrite <- Z.pow_add_r by lia; f_equal; lia).
      rewrite E in Hb. nia. }
  unfold binary_round, shl_align. rewrite Hd.
  assert (fexp 53 1024 (53 + j - k + - j) = - k) as -> by (unfold fexp, emin; lia).
  destruct (- k - - j) as [|n|n] eqn:En.
  - assert (q = m) as -> by (assert (k = j) as -> by lia; lia). rewrite round_exact by lia. f_equal. lia.
  - unfold binary_round_aux, shr_fexp at 1. cbn [Zdigits2]. rewrite Hd.
    assert (fexp 53 1024 (53 + j - k + - j) - - j = Zpos n) as -> by (unfold fexp, emin; lia).
    cbn [shr shr_record_of_loc].
    assert (Zpos q = Zpos m * 2 ^ Zpos n) as ->.
    { rewrite Hq, Hm, <- Z.mul_assoc, <- Z.pow_add_r by lia. do 2 f_equal. lia. }
    rewrite exact_shr by lia. cbn [shr_m loc_of_shr_record round_nearest_even].
    assert (- j + Zpos n = - k) as -> by lia. unfold shr_fexp. cbn [Zdigits2].
    rewrite (digits2_unique m 53) by lia.
    assert (fexp 53 1024 (53 + - k) - - k = 0) as -> by (unfold fexp, emin; lia).
    cbn [shr shr_record_of_loc shr_m]. destruct (Z.leb_spec (- k) (1024 - 53)); [done|lia].
  - assert (Pos.iter xO q n = m) as ->.
    { apply Pos2Z.inj. rewrite iter_xO, Hq, Hm, <- Z.mul_assoc, <- Z.pow_add_r by lia. do 2 f_equal. lia. }
    by rewrite round_exact by lia.
Qed.

Lemma integer_form p : Zpos p < 2 ^ 53 -> exists m k, 0 <= k <= 52 /\ Zpos m = Zpos p * 2 ^ k /\ 2 ^ 52 <= Zpos m < 2 ^ 53.
Proof.
  intros Hp. pose proof (digits2_pos_bounds p) as Hd. set (d := Zpos (digits2_pos p)) in *. assert (0 < d) by done.
  assert (d <= 53).
  { destruct (decide (d <= 53)); [done|]. pose proof (Z.pow_le_mono_r 2 53 (d - 1) ltac:(lia) ltac:(lia)). lia. }
  exists (Z.to_pos (Zpos p * 2 ^ (53 - d))), (53 - d). assert (0 < 2 ^ (53 - d)) by lia.
  rewrite Z2Pos.id by lia. split; [lia|]. split; [done|].
  replace (2 ^ 52) with (2 ^ (d - 1) * 2 ^ (53 - d)) by (rewrite <- Z.pow_add_r by lia; f_equal; lia).
  replace (2 ^ 53) with (2 ^ d * 2 ^ (53 - d)) by (rewrite <- Z.pow_add_r by lia; f_equal; lia). nia.
Qed.

Lemma sf_dofZ p m k : 0 <= k <= 52 -> Zpos m = Zpos p * 2 ^ k -> 2 ^ 52 <= Zpos m < 2 ^ 53 ->
  dofZ (Zpos p) = of_sf (S754_finite false m (- k)) /\ to_sf (dofZ (Zpos p)) = S754_finite false m (- k).
Proof.
  intros Hk Hm Hb. assert (dofZ (Zpos p) = of_sf (S754_finite false m (- k))) as E.
  { unfold dofZ, binary_normalize. f_equal. apply (round_scaled false p p 0 m k); lia. }
  split; [done|]. rewrite E. cbn [of_sf]. destruct (Z.ltb_spec (Zpos m) (2 ^ 52)); [lia|]. rewrite parts_sf by lia.
  destruct (Z.eqb_spec (- k + 1075) 2047); [lia|]. destruct (Z.eqb_spec (- k + 1075) 0); [lia|].
  replace (Zpos m - 2 ^ 52 + 2 ^ 52) with (Zpos m) by lia. f_equal. lia.
Qed.

Lemma align_shift m e e' : e' <= e -> Zpos (fst (shl_align m e e')) = Zpos m * 2 ^ (e - e').
Proof.
  intros He. unfold shl_align. destruct (e' - e) as [|n|n] eqn:En; [|lia|]; cbn [fst].
  - replace (e - e') with 0 by lia. lia.
  - rewrite iter_xO. do 2 f_equal. lia.
Qed.

Lemma dadd_dofZ a b : 0 <= a -> 0 <= b -> a + b < 2 ^ 53 -> dadd (dofZ a) (dofZ b) = dofZ (a + b).
Proof.
  intros Ha Hb Hab. destruct a as [|p|p]; [|destruct b as [|q|q]; [| |lia]|lia].
  - rewrite Z.add_0_l. destruct b as [|q|q]; [by vm_compute| |lia].
    destruct (integer_form q) as (m & k & Hk & Hm & Hm2); [lia|]. destruct (sf_dofZ q m k Hk Hm Hm2) as [E1 E2].
    unfold dadd. rewrite E2, E1. done.
  - rewrite Z.add_0_r. destruct (integer_form p) as (m & k & Hk & Hm & Hm2); [lia|].
    destruct (sf_dofZ p m k Hk Hm Hm2) as [E1 E2]. unfold dadd. rewrite E2, E1. done.
  - destruct (integer_form p) as (m1 & k1 & Hk1 & Hm1 & Hb1); [lia|]. destruct (integer_form q) as (m2 & k2 & Hk2 & Hm2 & Hb2); [lia|].
    destruct (integer_form (p + q)) as (m & k & Hk & Hm & Hbm); [lia|].
    destruct (sf_dofZ p m1 k1 Hk1 Hm1 Hb1) as [_ E1]. destruct (sf_dofZ q m2 k2 Hk2 Hm2 Hb2) as [_ E2].
    change (Zpos p + Zpos q) with (Zpos (p + q)). destruct (sf_dofZ (p + q) m k Hk Hm Hbm) as [-> _].
    unfold dadd. rewrite E1, E2. f_equal. cbn [SFadd]. set (j := Z.max k1 k2).
    replace (Z.min (- k1) (- k2)) with (- j) by lia. cbn [cond_Zopp].
    rewrite !align_shift, Hm1, Hm2 by lia.
    rewrite <- !Z.mul_assoc, <- !Z.pow_add_r by lia.
    replace (k1 + (- k1 - - j)) with j by lia. replace (k2 + (- k2 - - j)) with j by lia.
    rewrite <- Z.mul_add_distr_r. change (Zpos p + Zpos q) with (Zpos (p + q)).
    destruct (Zpos (p + q) * 2 ^ j) as [|r|r] eqn:Er; [lia| |lia]. cbn [binary_normalize].
    apply (round_scaled false (p + q) r j m k); lia.
Qed.

Lemma is_double_dofZ n : 0 <= n < 2 ^ 53 -> is_double (dofZ n).
Proof.
  intros Hn. destruct n as [|p|p]; [by vm_compute| |lia]. destruct (integer_form p) as (m & k & Hk & Hm & Hb); [lia|].
  destruct (sf_dofZ p m k Hk Hm Hb) as [-> _]. cbn [of_sf sign_bit]. destruct (Z.ltb_spec (Zpos m) (2 ^ 52)); lia.
Qed.

(** Integers keep their order. *)
Lemma dofZ_lt a b : 0 <= a -> a < b -> b < 2 ^ 53 -> dofZ a < dofZ b.
Proof.
  intros Ha Hab Hb. destruct b as [|q|q]; [lia| |lia]. destruct (integer_form q) as (m2 & k2 & Hk2 & Hm2 & Hb2); [lia|].
  destruct (sf_dofZ q m2 k2 Hk2 Hm2 Hb2) as [-> _]. cbn [of_sf sign_bit]. destruct (Z.ltb_spec (Zpos m2) (2 ^ 52)); [lia|].
  destruct a as [|p|p]; [change (dofZ 0) with 0; lia| |lia]. destruct (integer_form p) as (m1 & k1 & Hk1 & Hm1 & Hb1); [lia|].
  destruct (sf_dofZ p m1 k1 Hk1 Hm1 Hb1) as [-> _]. cbn [of_sf sign_bit]. destruct (Z.ltb_spec (Zpos m1) (2 ^ 52)); [lia|].
  assert (k2 <= k1) as Hk.
  { destruct (Z.le_gt_cases k2 k1) as [?|Hk]; [done|]. assert (0 < 2 ^ k1) by lia.
    assert (2 * 2 ^ k1 <= 2 ^ k2) by (rewrite <- Z.pow_succ_r by lia; apply Z.pow_le_mono_r; lia). nia. }
  destruct (Z.eq_dec k1 k2) as [->|Hne]; [|lia]. assert (0 < 2 ^ k2) by lia. nia.
Qed.

(** ** Halves are exact *)

Lemma round_twice s m e : 2 ^ 52 <= Zpos m < 2 ^ 53 -> -1074 <= e <= 970 ->
  binary_round_aux 53 1024 s (Zpos m * 2) e loc_Exact = S754_finite s m (e + 1).
Proof.
  intros Hm He. assert (Zpos m * 2 = Zpos m~0) as E by lia. unfold binary_round_aux, shr_fexp at 1. rewrite E. cbn [Zdigits2].
  rewrite (digits2_unique m~0 54) by lia. assert (fexp 53 1024 (54 + e) - e = 1) as -> by (unfold fexp, emin; lia).
  cbn [shr shr_record_of_loc]. rewrite <- E. change 2 with (2 ^ 1). rewrite exact_shr by lia. cbn [shr_m loc_of_shr_record round_nearest_even].
  unfold shr_fexp. cbn [Zdigits2]. rewrite (digits2_unique m 53) by lia.
  assert (fexp 53 1024 (53 + (e + 1)) - (e + 1) = 0) as -> by (unfold fexp, emin; lia).
  cbn [shr shr_record_of_loc shr_m]. destruct (Z.leb_spec (e + 1) (1024 - 53)); [done|lia].
Qed.

Lemma half_dofZ n : 0 <= n < 2 ^ 53 -> 0 <= ddiv (dofZ n) dtwo < dinf.
Proof.
  intros Hn. destruct n as [|p|p]; [by vm_compute| |lia]. destruct (integer_form p) as (m & k & Hk & Hm & Hb); [lia|].
  destruct (sf_dofZ p m k Hk Hm Hb) as [_ E]. unfold ddiv. rewrite E.
  change (to_sf dtwo) with (S754_finite false (2 ^ 52) (-51)). unfold SFdiv, SFdiv_core_binary. cbn [Zdigits2 xorb].
  rewrite (digits2_unique m 53) by lia. change (Z.pos (digits2_pos (2 ^ 52))) with 53.
  assert (Z.min (fexp 53 1024 (53 + - k - (53 + -51))) (- k - -51) = - k - 2) as -> by (unfold fexp, emin; lia).
  assert (- k - -51 - (- k - 2) = 53) as -> by lia. cbv iota. rewrite Z.shiftl_mul_pow2 by lia.
  pose proof (Z_div_mult (Zpos m * 2) (2 ^ 52) ltac:(lia)) as Q. pose proof (Z.mod_mul (Zpos m * 2) (2 ^ 52) ltac:(lia)) as R.
  replace (Zpos m * 2 ^ 53) with (Zpos m * 2 * 2 ^ 52) by lia. unfold Z.div in Q. unfold Z.modulo in R.
  change (Z.pos (2 ^ 52)) with (2 ^ 52). destruct (Z.div_eucl _ _) as [q r]. subst q r. cbv beta iota zeta.
  change (new_location (2 ^ 52) 0) with loc_Exact. rewrite round_twice by lia. cbn [of_sf sign_bit]. unfold dinf.
  destruct (Z.ltb_spec (Zpos m) (2 ^ 52)); lia.
Qed.
