(* ===== verification/NetworkByteBuffer.v ===== *)
(** * The serialization buffer: NetworkByteBuffer and EndianHelper

    core/NetworkByteBuffer.h, NetworkByteBuffer.cpp and EndianHelper.h.  A
    buffer is the allocated array ([None] is a byte that was never written),
    its size and the two cursors.  [holds] is the abstract content; the class
    [WireOk] is what a serializable type promises: [operator<<] appends an
    encoding and [operator>>] consumes it. *)

From Stdlib Require Import ZArith Lia Ascii.
From stdpp Require Import base numbers gmap strings list sorting.
From S2P Require Import Prelude.
From S2P Require Import Double.

(** ** Bytes of an integer *)

Definition is_byte (z : Z) : Prop := 0 <= z < 256.

(** The memory image of an [n]-byte integer on a little-endian host. *)
Fixpoint raw (n : nat) (z : Z) : list Z :=
  match n with
  | O => []
  | S n' => z mod 256 :: raw n' (z / 256)
  end.

Fixpoint unraw (l : list Z) : Z :=
  match l with
  | [] => 0
  | b :: l' => b + 256 * unraw l'
  end.

Lemma length_raw n z : length (raw n z) = n.
Proof. revert z. induction n; intros z; cbn; auto. Qed.

Lemma raw_bytes n z : Forall is_byte (raw n z).
Proof.
  revert z. induction n as [|n IH]; intros z; cbn; constructor; auto.
  apply Z.mod_pos_bound. lia.
Qed.

Lemma unraw_raw n z : unraw (raw n z) = z mod 2 ^ (8 * Z.of_nat n).
Proof.
  revert z. induction n as [|n IH]; intros z; [by rewrite Z.mod_1_r|].
  cbn [raw unraw]. rewrite IH.
  replace (8 * Z.of_nat (S n)) with (8 + 8 * Z.of_nat n) by lia.
  rewrite Z.pow_add_r by lia. change (2 ^ 8) with 256.
  rewrite Z.rem_mul_r by (try apply Z.pow_pos_nonneg; lia). lia.
Qed.

Lemma unraw_bound l : Forall is_byte l -> 0 <= unraw l < 2 ^ (8 * Z.of_nat (length l)).
Proof.
  induction 1 as [|b l Hb Hl IH]; [cbn; lia|].
  cbn [unraw length]. replace (8 * Z.of_nat (S (length l))) with (8 + 8 * Z.of_nat (length l)) by lia.
  rewrite Z.pow_add_r by lia. unfold is_byte in Hb. lia.
Qed.

(** ** EndianHelper.h *)

(** The generic [host_to_network]: the bytes of the representation reversed. *)
Definition host_to_network (src : list Z) : list Z := reverse src.

Definition network_to_host (src : list Z) : list Z := host_to_network src.

(** [htons] and [htonl] on a little-endian host, used by the 16- and 32-bit
    specializations of [host_to_network]. *)
Definition htons (v : Z) : Z :=
  Z.lor (Z.shiftl (Z.land v 255) 8) (Z.land (Z.shiftr v 8) 255).

Definition htonl (v : Z) : Z :=
  Z.lor (Z.shiftl (htons (Z.land v 65535)) 16) (htons (Z.land (Z.shiftr v 16) 65535)).

Definition host_to_network16 (v : Z) : list Z := raw 2 (htons v).
Definition host_to_network32 (v : Z) : list Z := raw 4 (htonl v).

Lemma network_to_host_inv l : network_to_host (host_to_network l) = l.
Proof. apply reverse_involutive. Qed.

Lemma land_ones_mod v n : 0 <= n -> Z.land v (2 ^ n - 1) = v mod 2 ^ n.
Proof. intros H. by rewrite <- Z.land_ones, Z.ones_equiv by lia. Qed.

Lemma lor_shiftl_add a b n : 0 <= n -> 0 <= b < 2 ^ n -> Z.lor (Z.shiftl a n) b = a * 2 ^ n + b.
Proof.
  intros Hn Hb. rewrite <- Z.shiftl_mul_pow2 by lia.
  pose proof (Z.add_lor_land (Z.shiftl a n) b). enough (Z.land (Z.shiftl a n) b = 0) by lia.
  apply Z.bits_inj'. intros k Hk. rewrite Z.land_spec, Z.bits_0.
  destruct (Z.lt_ge_cases k n).
  - by rewrite Z.shiftl_spec_low.
  - rewrite <- (Z.mod_small b (2 ^ n)) by lia.
    by rewrite Z.mod_pow2_bits_high, andb_false_r by lia.
Qed.

(** The value of [htons]: the two bytes swapped. *)
Lemma htons_value v : htons v = (v mod 256) * 256 + (v / 256) mod 256.
Proof.
  unfold htons. change 255 with (2 ^ 8 - 1).
  rewrite !land_ones_mod, Z.shiftr_div_pow2 by lia.
  rewrite lor_shiftl_add by (try apply Z.mod_pos_bound; lia). done.
Qed.

Lemma htonl_value v :
  htonl v = htons (v mod 65536) * 65536 + htons ((v / 65536) mod 65536).
Proof.
  unfold htonl. change 65535 with (2 ^ 16 - 1).
  rewrite !land_ones_mod, Z.shiftr_div_pow2 by lia.
  rewrite lor_shiftl_add; [done|lia|]. rewrite htons_value.
  pose proof (Z.mod_pos_bound ((v / 2 ^ 16) mod 2 ^ 16) 256 ltac:(lia)).
  pose proof (Z.mod_pos_bound (((v / 2 ^ 16) mod 2 ^ 16) / 256) 256 ltac:(lia)). lia.
Qed.

(** The [htons]/[htonl] specializations compute what the generic byte
    reversal computes. *)
Lemma host_to_network16_generic v : host_to_network16 v = host_to_network (raw 2 v).
Proof.
  unfold host_to_network16, host_to_network. rewrite htons_value.
  change (raw 2 v) with [v mod 256; (v / 256) mod 256].
  change (reverse [v mod 256; (v / 256) mod 256]) with [(v / 256) mod 256; v mod 256].
  pose proof (Z.mod_pos_bound (v / 256) 256 ltac:(lia)).
  pose proof (Z.mod_pos_bound v 256 ltac:(lia)). cbn [raw].
  rewrite Z.add_comm, Z.mod_add, Z.div_add, (Z.mod_small (_ mod _)), (Z.div_small (_ mod _)) by lia.
  by rewrite Z.add_0_l, (Z.mod_small (v mod 256)) by lia.
Qed.

Lemma raw_app n m z : raw (n + m) z = raw n z ++ raw m (z / 2 ^ (8 * Z.of_nat n)).
Proof.
  revert z. induction n as [|n IH]; intros z; [by rewrite Z.div_1_r|].
  cbn [Nat.add raw app]. rewrite IH, Z.div_div by (try apply Z.pow_pos_nonneg; lia).
  do 4 f_equal. change 256 with (2 ^ 8). rewrite <- Z.pow_add_r by lia. f_equal. lia.
Qed.

Lemma raw_mod n z : raw n (z mod 2 ^ (8 * Z.of_nat n)) = raw n z.
Proof.
  revert z. induction n as [|n IH]; intros z; [done|]. cbn [raw].
  replace (8 * Z.of_nat (S n)) with (8 + 8 * Z.of_nat n) by lia.
  rewrite Z.pow_add_r by lia. change (2 ^ 8) with 256.
  rewrite Z.rem_mul_r by (try apply Z.pow_pos_nonneg; lia).
  pose proof (Z.mod_pos_bound z 256 ltac:(lia)).
  rewrite (Z.mul_comm 256). f_equal.
  - by rewrite Z.mod_add, Z.mod_mod by lia.
  - by rewrite Z.div_add, Z.div_small, Z.add_0_l, IH by lia.
Qed.

Lemma host_to_network32_generic v : host_to_network32 v = host_to_network (raw 4 v).
Proof.
  unfold host_to_network32, host_to_network. rewrite htonl_value.
  assert (forall x, 0 <= htons x < 65536) as Hb.
  { intros x. rewrite htons_value. pose proof (Z.mod_pos_bound x 256 ltac:(lia)).
    pose proof (Z.mod_pos_bound (x / 256) 256 ltac:(lia)). lia. }
  change 4%nat with (2 + 2)%nat. rewrite !raw_app, reverse_app.
  rewrite <- (raw_mod 2 (_ + _)). change (2 ^ (8 * Z.of_nat 2)) with 65536.
  rewrite Z.add_comm, Z.mod_add, Z.div_add by lia.
  rewrite (Z.mod_small (htons _)), (Z.div_small (htons _)), Z.add_0_l by apply Hb.
  pose proof host_to_network16_generic as G. unfold host_to_network16, host_to_network in G.
  rewrite !G. f_equal; f_equal; change 65536 with (2 ^ (8 * Z.of_nat 2)); apply raw_mod.
Qed.

(** ** The buffer object *)

Record NetworkByteBuffer := mkBuffer {
  autoDealloc : bool;
  buf : list (option Z);
  size : Z;
  icursor : Z;
  ocursor : Z
}.

Definition DEFAULT_SIZE : Z := 4096.

(** [new unsigned char[mysize]]: uninitialized bytes. *)
Definition alloc (mysize : Z) : list (option Z) := replicate (Z.to_nat mysize) None.

Definition new_default : NetworkByteBuffer :=
  mkBuffer true (alloc DEFAULT_SIZE) DEFAULT_SIZE 0 0.

Definition new_sized (initialSize : Z) : NetworkByteBuffer :=
  mkBuffer true (alloc initialSize) initialSize 0 0.

(** A buffer over bytes allocated elsewhere. *)
Definition of_bytes (mybuf : list Z) : NetworkByteBuffer :=
  let mysize := Z.of_nat (length mybuf) in
  mkBuffer false (Some <$> mybuf) mysize mysize 0.

Definition copy_of (r : NetworkByteBuffer) : NetworkByteBuffer :=
  mkBuffer true (buf r) (size r) (icursor r) (ocursor r).

(** The constructor with [isDestructive]: the new object and what is left of
    the old one. *)
Definition copy_destructive (r : NetworkByteBuffer) (isDestructive : bool)
  : NetworkByteBuffer * NetworkByteBuffer :=
  if isDestructive then (copy_of r, mkBuffer true [] 0 0 0) else (copy_of r, r).

Definition setAutoDealloc (a : bool) (b : NetworkByteBuffer) : NetworkByteBuffer :=
  mkBuffer a (buf b) (size b) (icursor b) (ocursor b).

Definition setICursor (off : Z) (b : NetworkByteBuffer) : NetworkByteBuffer :=
  mkBuffer (autoDealloc b) (buf b) (size b) off (ocursor b).

Definition setOCursor (off : Z) (b : NetworkByteBuffer) : NetworkByteBuffer :=
  mkBuffer (autoDealloc b) (buf b) (size b) (icursor b) off.

Definition getSerializedDataSize (b : NetworkByteBuffer) : Z := icursor b.
Definition getContentSize (b : NetworkByteBuffer) : Z := icursor b.
Definition getNRemainingBytes (b : NetworkByteBuffer) : Z := u64 (icursor b - ocursor b).

(** The bytes a [leveldb::Slice] over [getPtr()] of [getSerializedDataSize()]
    bytes denotes; undefined if one of them was never written. *)
Definition slice (b : NetworkByteBuffer) : outcome (list Z) :=
  or_undefined (mapM id (take (Z.to_nat (icursor b)) (buf b))).

Definition resize (extra : Z) (b : NetworkByteBuffer) : outcome NetworkByteBuffer :=
  if negb (autoDealloc b) then Throw (runtime_error "cannot resize fixed buffer")
  else
    let maxGrowth := u64 (1 + (2 ^ 32 - 1) - size b) in
    if maxGrowth <? extra then Throw (runtime_error "Buffer exceeds maximum size")
    else
      let growth :=
        if size b <? extra then extra
        else if maxGrowth <? size b then Z.max (maxGrowth / 2) extra
        else size b in
      let newsize := u64 (size b + growth) in
      let newbuf := take (Z.to_nat (size b)) (buf b)
                    ++ drop (Z.to_nat (size b)) (alloc newsize) in
      Ret (mkBuffer (autoDealloc b) newbuf newsize (icursor b) (ocursor b)).

Definition ensure (extra : Z) (b : NetworkByteBuffer) : outcome NetworkByteBuffer :=
  if size b <? u64 (icursor b + extra)
  then resize (u64 (extra + icursor b - size b)) b else Ret b.

(** [memcpy(buf+icursor, ...); icursor += n]: undefined outside the array. *)
Definition write (bs : list Z) (b : NetworkByteBuffer) : outcome NetworkByteBuffer :=
  let i := Z.to_nat (icursor b) in
  let n := length bs in
  if (i + n <=? length (buf b))%nat
  then Ret (mkBuffer (autoDealloc b) (take i (buf b) ++ (Some <$> bs) ++ drop (i + n) (buf b))
              (size b) (u64 (icursor b + Z.of_nat n)) (ocursor b))
  else Undefined.

(** Reading [n] bytes at [ocursor] and advancing it: undefined outside the
    array or on bytes never written. *)
Definition read (n : nat) (b : NetworkByteBuffer) : outcome (list Z * NetworkByteBuffer) :=
  let o := Z.to_nat (ocursor b) in
  if (o + n <=? length (buf b))%nat then
    bs ← or_undefined (mapM id (take n (drop o (buf b))));
    Ret (bs, setOCursor (u64 (ocursor b + Z.of_nat n)) b)
  else Undefined.

Definition append (bs : list Z) (b : NetworkByteBuffer) : outcome NetworkByteBuffer :=
  b' ← ensure (Z.of_nat (length bs)) b; write bs b'.

(** *** One-byte operations *)

Definition addChar (ch : Z) (b : NetworkByteBuffer) := append [ch mod 256] b.
Definition addBool (v : bool) (b : NetworkByteBuffer) := append [if v then 1 else 0] b.
Definition addUInt8 (i : Z) (b : NetworkByteBuffer) := append [i mod 256] b.
Definition addInt8 (i : Z) (b : NetworkByteBuffer) := append [i mod 256] b.

Definition get1 {A} (f : Z -> A) (b : NetworkByteBuffer) : outcome (A * NetworkByteBuffer) :=
  '(bs, b') ← read 1 b; Ret (f (unraw bs), b').

Definition getChar (b : NetworkByteBuffer) := get1 (to_signed 8) b.
Definition getBool (b : NetworkByteBuffer) := get1 (fun z => negb (z =? 0)) b.
Definition getUInt8 (b : NetworkByteBuffer) := get1 (fun z => to_signed 8 z mod 256) b.
Definition getInt8 (b : NetworkByteBuffer) := get1 (to_signed 8) b.

(** *** Fixed-width operations *)

Definition addUInt16 (i : Z) (b : NetworkByteBuffer) := append (host_to_network16 i) b.
Definition addInt16 (i : Z) (b : NetworkByteBuffer) := append (host_to_network16 i) b.
Definition addUInt32 (i : Z) (b : NetworkByteBuffer) := append (host_to_network32 i) b.
Definition addInt32 (i : Z) (b : NetworkByteBuffer) := append (host_to_network32 i) b.
Definition addUInt64 (i : Z) (b : NetworkByteBuffer) := append (host_to_network (raw 8 i)) b.
Definition addInt64 (i : Z) (b : NetworkByteBuffer) := append (host_to_network (raw 8 i)) b.
(** [f] and [d] are bit patterns of the value. *)
Definition addFloat (f : Z) (b : NetworkByteBuffer) := append (host_to_network (raw 4 f)) b.
Definition addDouble (d : double) (b : NetworkByteBuffer) := append (host_to_network (raw 8 d)) b.

Definition get_fixed (n : nat) (b : NetworkByteBuffer) : outcome (Z * NetworkByteBuffer) :=
  '(bs, b') ← read n b; Ret (unraw (network_to_host bs), b').

Definition getUInt16 (b : NetworkByteBuffer) := get_fixed 2 b.
Definition getInt16 (b : NetworkByteBuffer) :=
  '(v, b') ← get_fixed 2 b; Ret (to_signed 16 v, b').
Definition getUInt32 (b : NetworkByteBuffer) := get_fixed 4 b.
Definition getInt32 (b : NetworkByteBuffer) :=
  '(v, b') ← get_fixed 4 b; Ret (to_signed 32 v, b').
Definition getUInt64 (b : NetworkByteBuffer) := get_fixed 8 b.
Definition getInt64 (b : NetworkByteBuffer) :=
  '(v, b') ← get_fixed 8 b; Ret (to_signed 64 v, b').
Definition getFloat (b : NetworkByteBuffer) := get_fixed 4 b.
Definition getDouble (b : NetworkByteBuffer) : outcome (double * NetworkByteBuffer) := get_fixed 8 b.

(** *** Strings, blobs and character sequences *)

Definition str_bytes (s : string) : list Z :=
  (fun c => Z.of_N (N_of_ascii c)) <$> String.list_ascii_of_string s.

Definition bytes_str (l : list Z) : string :=
  String.string_of_list_ascii ((fun z => ascii_of_N (Z.to_N z)) <$> l).

(** A NUL-terminated C string is the list of its bytes before the NUL; its
    length with the NUL is truncated to 32 bits. *)
Definition addNTStr (str : list Z) (b : NetworkByteBuffer) : outcome NetworkByteBuffer :=
  let stlen := u32 (Z.of_nat (length str) + 1) in
  append (take (Z.to_nat stlen) (str ++ [0])) b.

Fixpoint strlen (l : list (option Z)) : outcome (list Z) :=
  match l with
  | Some 0 :: _ => Ret []
  | Some c :: l' => s ← strlen l'; Ret (c :: s)
  | None :: _ | [] => Undefined
  end.

Definition getNTStr (b : NetworkByteBuffer) : outcome (list Z * NetworkByteBuffer) :=
  s ← strlen (drop (Z.to_nat (ocursor b)) (buf b));
  Ret (s, setOCursor (u64 (ocursor b + u32 (Z.of_nat (length s) + 1))) b).

(** [str.size()] is truncated to 32 bits. *)
Definition addSTLString (str : string) (b : NetworkByteBuffer) : outcome NetworkByteBuffer :=
  let stlen := u32 (Z.of_nat (length (str_bytes str))) in
  b1 ← addUInt32 stlen b;
  if 0 <? stlen then append (take (Z.to_nat stlen) (str_bytes str)) b1 else Ret b1.

Definition getSTLString (b : NetworkByteBuffer) : outcome (string * NetworkByteBuffer) :=
  '(stlen, b1) ← getUInt32 b;
  if 0 <? stlen then
    '(bs, b2) ← read (Z.to_nat stlen) b1; Ret (bytes_str bs, b2)
  else Ret ("", b1).

(** [blob] is the array of [bsize] bytes passed. *)
Definition addBlob (blob : list Z) (b : NetworkByteBuffer) : outcome NetworkByteBuffer :=
  b1 ← addUInt32 (Z.of_nat (length blob)) b; append blob b1.

Definition getBlob (b : NetworkByteBuffer) : outcome (list Z * NetworkByteBuffer) :=
  '(mysize, b1) ← getUInt32 b; read (Z.to_nat mysize) b1.

Definition addCharSequence (chsbuf : list Z) (b : NetworkByteBuffer) := append chsbuf b.

(** [sizeTillEOB = icursor-ocursor; ocursor = size;] where [sizeTillEOB] is a
    [uint32_t]: the bytes the caller is told of. *)
Definition getCharSequence (b : NetworkByteBuffer) : outcome (list Z * NetworkByteBuffer) :=
  let sizeTillEOB := u32 (icursor b - ocursor b) in
  '(bs, _) ← read (Z.to_nat sizeTillEOB) b;
  Ret (bs, setOCursor (size b) b).

Definition getFixedCharSequence (mysize : Z) (b : NetworkByteBuffer)
  : outcome (list Z * NetworkByteBuffer) := read (Z.to_nat mysize) b.

(** *** Copies and comparison *)

(** [assign] for [this != &sb]; the old array is deleted whoever owns it. *)
Definition assign (b sb : NetworkByteBuffer) : NetworkByteBuffer :=
  mkBuffer true (buf sb) (size sb) (icursor sb) (ocursor sb).

(** [copyData] for [this != &sb]. *)
Definition copyData (b sb : NetworkByteBuffer) : outcome NetworkByteBuffer :=
  b1 ← (if size b <? icursor sb then resize (icursor sb - size b) b else Ret b);
  let n := Z.to_nat (icursor sb) in
  if (n <=? length (buf b1))%nat then
    Ret (mkBuffer (autoDealloc b1) (take n (buf sb) ++ drop n (buf b1)) (size b1) (icursor sb) 0)
  else Undefined.

Definition equal (b sb : NetworkByteBuffer) : outcome bool :=
  if negb (getSerializedDataSize b =? getSerializedDataSize sb) then Ret false
  else x ← slice b; y ← slice sb; Ret (bool_decide (x = y)).

(** ** Content of a buffer *)

(** [holds b bs]: the array has the size the object records and [bs] has been
    written to it. *)
Definition holds (b : NetworkByteBuffer) (bs : list Z) : Prop :=
  Z.of_nat (length (buf b)) = size b /\
  size b < 2 ^ 64 /\
  icursor b = Z.of_nat (length bs) /\
  exists rest, buf b = (Some <$> bs) ++ rest.

(** [unread b rest]: the bytes between the output and the input cursor. *)
Definition unread (b : NetworkByteBuffer) (rest : list Z) : Prop :=
  exists pre, holds b (pre ++ rest) /\ ocursor b = Z.of_nat (length pre).

(** A buffer that owns its array can grow to 4 GiB. *)
Definition growable (b : NetworkByteBuffer) : Prop :=
  autoDealloc b = true /\ size b <= 2 ^ 32.

Lemma holds_new_default : holds new_default [].
Proof. unfold holds. split_and!; try done. eauto. Qed.

Lemma holds_new_sized n : 0 <= n < 2 ^ 64 -> holds (new_sized n) [].
Proof.
  intros Hn. unfold holds, new_sized, alloc. cbn. rewrite length_replicate.
  split_and!; try lia. eauto.
Qed.

Lemma unread_of_bytes l : Z.of_nat (length l) < 2 ^ 64 -> unread (of_bytes l) l.
Proof.
  intros H. exists []. split; [|done]. unfold holds, of_bytes. cbn.
  rewrite length_fmap. split_and!; try done. exists []. by rewrite app_nil_r.
Qed.

Lemma mapM_id_Some {A} (l : list A) : mapM id (Some <$> l) = Some l.
Proof. induction l as [|a l IH]; [done|]. cbn. by rewrite IH. Qed.

Lemma slice_holds b bs : holds b bs -> slice b = Ret bs.
Proof.
  intros (Hl & _ & Hi & rest & Hb). unfold slice.
  rewrite Hi, Hb, Nat2Z.id, take_app_exact by (by rewrite length_fmap).
  by rewrite mapM_id_Some.
Qed.

(** *** Growth *)

Lemma half_le x : 0 <= x -> 0 <= x / 2 <= x.
Proof. intros H. split; [apply Z.div_pos; lia|apply Z.div_le_upper_bound; lia]. Qed.

Lemma resize_spec extra b :
  growable b -> 0 <= size b -> 0 < extra -> size b + extra <= 2 ^ 32 ->
  Z.of_nat (length (buf b)) = size b ->
  exists b', resize extra b = Ret b' /\ growable b' /\
    size b + extra <= size b' /\ Z.of_nat (length (buf b')) = size b' /\
    (exists fresh, buf b' = buf b ++ fresh) /\
    icursor b' = icursor b /\ ocursor b' = ocursor b.
Proof.
  intros [Ha Hs] H0 He Hcap Hl. unfold resize. rewrite Ha. cbn [negb].
  rewrite (u64_id (1 + _ - _)) by lia.
  destruct (Z.ltb_spec (1 + (2 ^ 32 - 1) - size b) extra); [lia|].
  set (growth := if size b <? extra then _ else _).
  assert (extra <= growth /\ size b + growth <= 2 ^ 32) as [Hg1 Hg2].
  { unfold growth. repeat case_if; zb; try lia.
    pose proof (half_le (1 + (2 ^ 32 - 1) - size b) ltac:(lia)). lia. }
  rewrite u64_id by lia. eexists. split; [done|]. cbn.
  rewrite firstn_all2, length_app, length_drop by lia.
  unfold alloc. rewrite length_replicate. split_and!; try done; try lia. eauto.
Qed.

Lemma holds_icursor_le b bs : holds b bs -> Z.of_nat (length bs) <= size b.
Proof.
  intros (Hl & _ & _ & rest & Hb). rewrite <- Hl, Hb, length_app, length_fmap. lia.
Qed.

Lemma ensure_spec extra b bs :
  holds b bs -> growable b -> 0 <= extra -> Z.of_nat (length bs) + extra <= 2 ^ 32 ->
  exists b', ensure extra b = Ret b' /\ holds b' bs /\ growable b' /\
    Z.of_nat (length bs) + extra <= size b' /\ ocursor b' = ocursor b.
Proof.
  intros Hb Hg He Hcap. pose proof (holds_icursor_le b bs Hb) as Hle.
  pose proof Hb as (Hl & Hs & Hi & rest & Hbuf). unfold ensure.
  rewrite Hi, (u64_id (_ + extra)) by lia.
  destruct (Z.ltb_spec (size b) (Z.of_nat (length bs) + extra)).
  - rewrite u64_id by lia.
    destruct (resize_spec (extra + Z.of_nat (length bs) - size b) b)
      as (b' & -> & Hg' & Hs' & Hl' & [fresh Hf] & Hi' & Ho'); try done; try lia.
    exists b'. split; [done|]. split; [|split; [done|split; [lia|done]]].
    unfold holds. rewrite Hl'. destruct Hg' as [_ Hg'].
    split_and!; try lia. exists (rest ++ fresh). by rewrite Hf, Hbuf, app_assoc.
  - exists b. split_and!; try done; lia.
Qed.

Lemma write_spec bs new b :
  holds b bs -> Z.of_nat (length bs + length new) <= size b ->
  exists b', write new b = Ret b' /\ holds b' (bs ++ new) /\
    autoDealloc b' = autoDealloc b /\ size b' = size b /\ ocursor b' = ocursor b.
Proof.
  intros (Hl & Hs & Hi & rest & Hbuf) Hfit. unfold write. rewrite Hi, Nat2Z.id.
  destruct (Nat.leb_spec (length bs + length new) (length (buf b))); [|lia].
  eexists. split; [done|]. cbn. split; [|done].
  unfold holds. cbn. rewrite Hbuf in *.
  rewrite take_app_exact by (by rewrite length_fmap).
  repeat rewrite ?length_app, ?length_fmap, ?length_drop in *. split_and!.
  - lia.
  - done.
  - rewrite u64_id; lia.
  - eexists. by rewrite fmap_app, <- app_assoc.
Qed.

Lemma append_spec bs new b :
  holds b bs -> growable b -> Z.of_nat (length bs + length new) <= 2 ^ 32 ->
  exists b', append new b = Ret b' /\ holds b' (bs ++ new) /\ growable b' /\
    ocursor b' = ocursor b.
Proof.
  intros Hb Hg Hcap. unfold append.
  destruct (ensure_spec (Z.of_nat (length new)) b bs) as (b1 & -> & Hb1 & Hg1 & Hs1 & Ho1);
    try done; try lia.
  cbn. destruct (write_spec bs new b1) as (b2 & -> & Hb2 & Ha2 & Hs2 & Ho2); [done|lia|].
  exists b2. split_and!; try done; [|congruence].
  unfold growable in *. by rewrite Ha2, Hs2.
Qed.

(** A buffer over foreign bytes never grows. *)
Lemma append_fixed bs new b :
  holds b bs -> autoDealloc b = false -> size b < Z.of_nat (length bs + length new) < 2 ^ 64 ->
  append new b = Throw (runtime_error "cannot resize fixed buffer").
Proof.
  intros (Hl & Hs & Hi & rest & Hbuf) Ha Hbig. unfold append, ensure.
  rewrite Hi, u64_id by lia.
  destruct (Z.ltb_spec (size b) (Z.of_nat (length bs) + Z.of_nat (length new))); [|lia].
  unfold resize. by rewrite Ha.
Qed.

(** Nothing grows beyond 4 GiB. *)
Lemma append_too_big bs new b :
  holds b bs -> growable b -> 2 ^ 32 < Z.of_nat (length bs + length new) < 2 ^ 64 ->
  append new b = Throw (runtime_error "Buffer exceeds maximum size").
Proof.
  intros Hb [Ha Hsz] Hbig. pose proof (holds_icursor_le b bs Hb).
  destruct Hb as (Hl & Hs & Hi & rest & Hbuf). unfold append, ensure.
  rewrite Hi, (u64_id (_ + _)) by lia.
  destruct (Z.ltb_spec (size b) (Z.of_nat (length bs) + Z.of_nat (length new))); [|lia].
  rewrite u64_id by lia. unfold resize. rewrite Ha. cbn [negb].
  rewrite u64_id by lia.
  destruct (Z.ltb_spec (1 + (2 ^ 32 - 1) - size b)
    (Z.of_nat (length new) + Z.of_nat (length bs) - size b)); [done|lia].
Qed.

Lemma read_spec l rest b :
  unread b (l ++ rest) ->
  exists b', read (length l) b = Ret (l, b') /\ unread b' rest /\
    buf b' = buf b /\ icursor b' = icursor b /\ autoDealloc b' = autoDealloc b /\ size b' = size b.
Proof.
  intros (pre & Hb & Ho). pose proof (holds_icursor_le _ _ Hb) as Hle.
  destruct Hb as (Hl & Hs & Hi & tail & Hbuf).
  rewrite !length_app in Hle. unfold read. rewrite Ho, Nat2Z.id.
  destruct (Nat.leb_spec (length pre + length l) (length (buf b))); [|lia].
  assert (take (length l) (drop (length pre) (buf b)) = Some <$> l) as ->.
  { rewrite Hbuf, fmap_app, <- app_assoc, drop_app_exact by (by rewrite length_fmap).
    rewrite fmap_app, <- app_assoc. by rewrite take_app_exact by (by rewrite length_fmap). }
  rewrite mapM_id_Some. cbn. eexists. split; [done|]. split; [|done].
  exists (pre ++ l). split.
  - unfold holds, setOCursor. cbn. rewrite <- app_assoc. split_and!; eauto.
  - unfold setOCursor. cbn. rewrite u64_id by lia. rewrite length_app. lia.
Qed.

Lemma unread_holds b bs : holds b bs -> ocursor b = 0 -> unread b bs.
Proof. intros Hb Ho. exists []. by split. Qed.

Lemma getNRemainingBytes_spec b rest :
  unread b rest -> getNRemainingBytes b = Z.of_nat (length rest).
Proof.
  intros (pre & Hb & Ho). pose proof (holds_icursor_le _ _ Hb) as Hle.
  destruct Hb as (Hl & Hs & Hi & tail & Hbuf). rewrite length_app in *.
  unfold getNRemainingBytes. rewrite Hi, Ho, u64_id; lia.
Qed.

(** ** Serializable types

    The operators [<<] and [>>] of a type, with the encoding they stand for.
    [CodecOk] is what a serializable type promises: on a buffer that can hold
    it, writing a valid value appends its encoding, and reading where the
    encoding of a valid value starts gives the value and moves past it. *)

Record Codec (A : Type) := {
  put : A -> NetworkByteBuffer -> outcome NetworkByteBuffer;
  get : NetworkByteBuffer -> outcome (A * NetworkByteBuffer);
  enc : A -> list Z;
  valid : A -> Prop
}.
Arguments put {A} c a b.
Arguments get {A} c b.
Arguments enc {A} c a.
Arguments valid {A} c a.

Class CodecOk {A : Type} (c : Codec A) : Prop := {
  put_ok (a : A) (b : NetworkByteBuffer) (bs : list Z) :
    holds b bs -> growable b -> valid c a ->
    Z.of_nat (length bs + length (enc c a)) <= 2 ^ 32 ->
    exists b', put c a b = Ret b' /\ holds b' (bs ++ enc c a) /\ growable b' /\
      ocursor b' = ocursor b;
  get_ok (a : A) (b : NetworkByteBuffer) (rest : list Z) :
    unread b (enc c a ++ rest) -> valid c a ->
    exists b', get c b = Ret (a, b') /\ unread b' rest
}.

Section Roundtrip.
Context {A : Type} (c : Codec A) `{!CodecOk c} (a : A).
Context (Hv : valid c a) (Hlen : Z.of_nat (length (enc c a)) <= 2 ^ 32).

(** Reading back from the buffer it was written to. *)
Lemma codec_roundtrip :
  exists b b', put c a new_default = Ret b /\ get c b = Ret (a, b') /\
    getNRemainingBytes b' = 0.
Proof.
  destruct (put_ok a new_default []) as (b & Hp & Hb & _ & Ho);
    [apply holds_new_default|by split|done|done|].
  destruct (get_ok a b []) as (b' & Hg & Hu); [|done|].
  - rewrite app_nil_r. apply unread_holds; [done|]. by rewrite Ho.
  - exists b, b'. split_and!; [done..|]. by rewrite (getNRemainingBytes_spec _ []).
Qed.

(** Reading back from the bytes that were stored. *)
Lemma codec_stored :
  exists b b', put c a new_default = Ret b /\ slice b = Ret (enc c a) /\
    get c (of_bytes (enc c a)) = Ret (a, b').
Proof.
  destruct (put_ok a new_default []) as (b & Hp & Hb & _ & Ho);
    [apply holds_new_default|by split|done|done|].
  destruct (get_ok a (of_bytes (enc c a)) []) as (b' & Hg & Hu); [|done|].
  - rewrite app_nil_r. apply unread_of_bytes. lia.
  - exists b, b'. split_and!; [done| |done]. by apply (slice_holds b (enc c a)).
Qed.
End Roundtrip.

(** *** Fixed-width integers *)

Definition be (n : nat) (z : Z) : list Z := reverse (raw n z).

Lemma length_be n z : length (be n z) = n.
Proof. unfold be. by rewrite length_reverse, length_raw. Qed.
#[export] Hint Rewrite length_be length_raw : railway.

Lemma get_fixed_spec n z rest b :
  unread b (be n z ++ rest) ->
  exists b', get_fixed n b = Ret (z mod 2 ^ (8 * Z.of_nat n), b') /\ unread b' rest.
Proof.
  intros Hu. destruct (read_spec _ _ _ Hu) as (b' & Hr & Hu' & _).
  rewrite length_be in Hr. unfold get_fixed. rewrite Hr. cbn.
  unfold network_to_host, host_to_network, be. rewrite reverse_involutive, unraw_raw. eauto.
Qed.

Definition scalar (n : nat) (add : Z -> NetworkByteBuffer -> outcome NetworkByteBuffer)
  (getf : NetworkByteBuffer -> outcome (Z * NetworkByteBuffer)) (ok : Z -> Prop) : Codec Z :=
  {| put := add; get := getf; enc := be n; valid := ok |}.

Definition uint16 := scalar 2 addUInt16 getUInt16 (fun z => 0 <= z < 2 ^ 16).
Definition int16 := scalar 2 addInt16 getInt16 (fun z => - 2 ^ 15 <= z < 2 ^ 15).
Definition uint32 := scalar 4 addUInt32 getUInt32 (fun z => 0 <= z < 2 ^ 32).
Definition int32 := scalar 4 addInt32 getInt32 (fun z => - 2 ^ 31 <= z < 2 ^ 31).
Definition uint64 := scalar 8 addUInt64 getUInt64 (fun z => 0 <= z < 2 ^ 64).
Definition int64 := scalar 8 addInt64 getInt64 (fun z => - 2 ^ 63 <= z < 2 ^ 63).
Definition float32 := scalar 4 addFloat getFloat (fun z => 0 <= z < 2 ^ 32).
Definition float64 := scalar 8 addDouble getDouble (fun z => 0 <= z < 2 ^ 64).

(** A scalar codec is right when [add] appends the big-endian bytes and [get]
    is [get_fixed] followed by a reading [f] that is right on valid values. *)
Lemma scalar_ok n add getf ok (f : Z -> Z) :
  (forall z b, add z b = append (be n z) b) ->
  (forall b, getf b = '(v, b') ← get_fixed n b; Ret (f v, b')) ->
  (forall z, ok z -> f (z mod 2 ^ (8 * Z.of_nat n)) = z) ->
  CodecOk (scalar n add getf ok).
Proof.
  intros Ha Hg Hf. split; cbn.
  - intros a b bs Hb Hgr Hv Hlen. rewrite Ha. by apply append_spec.
  - intros a b rest Hu Hv. rewrite Hg.
    destruct (get_fixed_spec _ _ _ _ Hu) as (b' & -> & Hu'). cbn. rewrite Hf by done. eauto.
Qed.

Lemma get_fixed_id n b : get_fixed n b = '(v, b') ← get_fixed n b; Ret (v, b').
Proof. by destruct (get_fixed n b) as [[??]| | |]. Qed.

Ltac scalar_unsigned :=
  apply scalar_ok with (fun v => v);
    [ intros; unfold addUInt16, addUInt32, addUInt64, addFloat, addDouble;
      by rewrite ?host_to_network16_generic, ?host_to_network32_generic
    | intros; apply get_fixed_id
    | intros; apply Z.mod_small; assumption ].
Ltac scalar_signed bits :=
  apply scalar_ok with (to_signed bits);
    [ intros; unfold addInt16, addInt32, addInt64;
      by rewrite ?host_to_network16_generic, ?host_to_network32_generic
    | done
    | intros; rewrite to_signed_mod; apply to_signed_id; [lia|assumption] ].

#[export] Instance uint16_ok : CodecOk uint16. Proof. scalar_unsigned. Qed.
#[export] Instance uint32_ok : CodecOk uint32. Proof. scalar_unsigned. Qed.
#[export] Instance uint64_ok : CodecOk uint64. Proof. scalar_unsigned. Qed.
#[export] Instance float32_ok : CodecOk float32. Proof. scalar_unsigned. Qed.
#[export] Instance float64_ok : CodecOk float64. Proof. scalar_unsigned. Qed.
#[export] Instance int16_ok : CodecOk int16. Proof. scalar_signed 16. Qed.
#[export] Instance int32_ok : CodecOk int32. Proof. scalar_signed 32. Qed.
#[export] Instance int64_ok : CodecOk int64. Proof. scalar_signed 64. Qed.

(** *** Strings *)

Lemma bytes_str_bytes s : bytes_str (str_bytes s) = s.
Proof.
  unfold bytes_str, str_bytes. rewrite <- list_fmap_compose.
  rewrite <- (String.string_of_list_ascii_of_string s) at 2. f_equal.
  rewrite <- (list_fmap_id (String.list_ascii_of_string s)) at 2.
  apply list_fmap_ext. intros i x _. cbn. by rewrite N2Z.id, ascii_N_embedding.
Qed.

Lemma str_bytes_inj s1 s2 : str_bytes s1 = str_bytes s2 -> s1 = s2.
Proof. intros E. by rewrite <- (bytes_str_bytes s1), E, bytes_str_bytes. Qed.

Lemma length_str_bytes s : length (str_bytes s) = String.length s.
Proof.
  unfold str_bytes. rewrite length_fmap.
  induction s as [|c s IH]; cbn; auto.
Qed.

Definition stl_string : Codec string := {|
  put := addSTLString;
  get := getSTLString;
  enc s := be 4 (Z.of_nat (String.length s)) ++ str_bytes s;
  valid s := Z.of_nat (String.length s) < 2 ^ 32
|}.

#[export] Instance stl_string_ok : CodecOk stl_string.
Proof.
  split; cbn [put get enc valid stl_string].
  - intros s b bs Hb Hg Hv Hlen. rewrite length_app, length_be, length_str_bytes in Hlen.
    unfold addSTLString. rewrite length_str_bytes, u32_id by lia.
    destruct (put_ok (c := uint32) (Z.of_nat (String.length s)) b bs)
      as (b1 & Hp & Hb1 & Hg1 & Ho1); cbn [put enc valid uint32 scalar] in *;
      rewrite ?length_be; [done..|lia|lia|].
    rewrite Hp. cbn [mbind outcome_bind]. rewrite app_assoc.
    destruct (Z.ltb_spec 0 (Z.of_nat (String.length s))).
    + rewrite Nat2Z.id, firstn_all2 by (rewrite length_str_bytes; lia).
      destruct (append_spec _ (str_bytes s) b1 Hb1 Hg1) as (b2 & -> & Hb2 & Hg2 & Ho2).
      { rewrite length_app, length_be, length_str_bytes. lia. }
      eexists; split_and!; eauto; congruence.
    + assert (str_bytes s = []) as ->.
      { apply nil_length_inv. rewrite length_str_bytes. lia. }
      rewrite app_nil_r. eauto.
  - intros s b rest Hu Hv. rewrite <- app_assoc in Hu. unfold getSTLString.
    destruct (get_ok (c := uint32) (Z.of_nat (String.length s)) b (str_bytes s ++ rest) Hu)
      as (b1 & Hr & Hu1); [cbn; lia|]. cbn [get uint32 scalar] in Hr. rewrite Hr.
    cbn [mbind outcome_bind].
    destruct (Z.ltb_spec 0 (Z.of_nat (String.length s))).
    + rewrite Nat2Z.id, <- length_str_bytes.
      destruct (read_spec _ _ _ Hu1) as (b2 & -> & Hu2 & _). cbn.
      rewrite bytes_str_bytes. eauto.
    + destruct s; [|cbn in *; lia]. eauto.
Qed.

(** *** Vectors and pairs *)

Section Vector.
Context {A : Type} (c : Codec A).

Definition put_vector (val : list A) (b : NetworkByteBuffer) : outcome NetworkByteBuffer :=
  b1 ← addUInt32 (u32 (Z.of_nat (length val))) b;
  foldM (fun b item => put c item b) b1 val.

(** The [for] loop of [operator>>], pushing back on [val]. *)
Fixpoint get_items (n : nat) (val : list A) (b : NetworkByteBuffer)
  : outcome (list A * NetworkByteBuffer) :=
  match n with
  | O => Ret (val, b)
  | S n' => '(item, b') ← get c b; get_items n' (val ++ [item]) b'
  end.

Definition get_vector (val : list A) (b : NetworkByteBuffer)
  : outcome (list A * NetworkByteBuffer) :=
  '(n, b1) ← getUInt32 b; get_items (Z.to_nat n) val b1.

Definition enc_list (l : list A) : list Z := concat (enc c <$> l).

Definition vector : Codec (list A) := {|
  put := put_vector;
  get := get_vector [];
  enc l := be 4 (Z.of_nat (length l)) ++ enc_list l;
  valid l := Z.of_nat (length l) < 2 ^ 32 /\ Forall (valid c) l
|}.

Context `{!CodecOk c}.

Lemma put_items_ok l b bs :
  holds b bs -> growable b -> Forall (valid c) l ->
  Z.of_nat (length bs + length (enc_list l)) <= 2 ^ 32 ->
  exists b', foldM (fun b item => put c item b) b l = Ret b' /\
    holds b' (bs ++ enc_list l) /\ growable b' /\ ocursor b' = ocursor b.
Proof.
  intros Hb Hg Hv. revert b bs Hb Hg. induction Hv as [|a l Ha Hl IH]; intros b bs Hb Hg Hlen.
  - cbn. rewrite app_nil_r. eauto.
  - unfold enc_list in *. cbn in Hlen |- *. rewrite length_app in Hlen.
    destruct (put_ok a b bs) as (b1 & -> & Hb1 & Hg1 & Ho1); [done..|lia|]. cbn.
    destruct (IH b1 (bs ++ enc c a)) as (b2 & -> & Hb2 & Hg2 & Ho2);
      [done..|rewrite length_app; lia|].
    exists b2. rewrite app_assoc. split_and!; try done. congruence.
Qed.

Lemma get_items_ok l val b rest :
  unread b (enc_list l ++ rest) -> Forall (valid c) l ->
  exists b', get_items (length l) val b = Ret (val ++ l, b') /\ unread b' rest.
Proof.
  intros Hu Hv. revert val b Hu. induction Hv as [|a l Ha Hl IH]; intros val b Hu.
  - cbn. rewrite app_nil_r. eauto.
  - unfold enc_list in *. cbn in Hu. rewrite <- app_assoc in Hu.
    destruct (get_ok a b _ Hu Ha) as (b1 & Hg & Hu1). cbn. rewrite Hg. cbn.
    destruct (IH (val ++ [a]) b1 Hu1) as (b2 & -> & Hu2).
    exists b2. by rewrite <- app_assoc.
Qed.

#[export] Instance vector_ok : CodecOk vector.
Proof.
  split; cbn [put get enc valid vector].
  - intros l b bs Hb Hg [Hn Hv] Hlen. rewrite length_app, length_be in Hlen.
    unfold put_vector. rewrite u32_id by lia.
    destruct (put_ok (c := uint32) (Z.of_nat (length l)) b bs)
      as (b1 & Hp & Hb1 & Hg1 & Ho1); cbn [put enc valid uint32 scalar] in *;
      rewrite ?length_be; [done..|lia|lia|].
    rewrite Hp. cbn [mbind outcome_bind].
    destruct (put_items_ok l b1 _ Hb1 Hg1 Hv) as (b2 & -> & Hb2 & Hg2 & Ho2).
    { rewrite length_app, length_be. lia. }
    exists b2. rewrite app_assoc. split_and!; try done. congruence.
  - intros l b rest Hu [Hn Hv]. rewrite <- app_assoc in Hu. unfold get_vector.
    destruct (get_ok (c := uint32) (Z.of_nat (length l)) b _ Hu)
      as (b1 & Hr & Hu1); [cbn; lia|]. cbn [get uint32 scalar] in Hr. rewrite Hr.
    cbn [mbind outcome_bind]. rewrite Nat2Z.id.
    apply (get_items_ok l [] b1 rest Hu1 Hv).
Qed.
End Vector.

Section Pair.
Context {A B : Type} (ca : Codec A) (cb : Codec B).

Definition put_pair (val : A * B) (b : NetworkByteBuffer) : outcome NetworkByteBuffer :=
  b1 ← put ca val.1 b; put cb val.2 b1.

Definition get_pair (b : NetworkByteBuffer) : outcome ((A * B) * NetworkByteBuffer) :=
  '(x, b1) ← get ca b; '(y, b2) ← get cb b1; Ret ((x, y), b2).

Definition pair_codec : Codec (A * B) := {|
  put := put_pair;
  get := get_pair;
  enc p := enc ca p.1 ++ enc cb p.2;
  valid p := valid ca p.1 /\ valid cb p.2
|}.

#[export] Instance pair_ok `{!CodecOk ca, !CodecOk cb} : CodecOk pair_codec.
Proof.
  split; cbn [put get enc valid pair_codec].
  - intros [x y] b bs Hb Hg [Hx Hy] Hlen. cbn in *. rewrite length_app in Hlen.
    unfold put_pair. cbn.
    destruct (put_ok x b bs) as (b1 & -> & Hb1 & Hg1 & Ho1); [done..|lia|]. cbn.
    destruct (put_ok y b1 _ Hb1) as (b2 & -> & Hb2 & Hg2 & Ho2);
      [done..|rewrite length_app; lia|].
    exists b2. rewrite app_assoc. split_and!; try done. congruence.
  - intros [x y] b rest Hu [Hx Hy]. cbn in *. rewrite <- app_assoc in Hu.
    unfold get_pair. destruct (get_ok x b _ Hu Hx) as (b1 & -> & Hu1). cbn.
    destruct (get_ok y b1 _ Hu1 Hy) as (b2 & -> & Hu2). eauto.
Qed.
End Pair.

(** ** Properties *)

(** C26: writing to a buffer that owns its array never touches memory outside
    it: as long as the total stays within 4 GiB the bytes are appended to the
    content (and nothing else of the content changes), and past 4 GiB the
    documented exception is thrown. *)
Theorem append_total (b : NetworkByteBuffer) (bs new : list Z) :
  holds b bs -> growable b -> Z.of_nat (length bs + length new) < 2 ^ 64 ->
  if Z.of_nat (length bs + length new) <=? 2 ^ 32
  then exists b', append new b = Ret b' /\ holds b' (bs ++ new) /\ growable b' /\
         ocursor b' = ocursor b
  else append new b = Throw (runtime_error "Buffer exceeds maximum size").
Proof.
  intros Hb Hg Hlen. destruct (Z.leb_spec (Z.of_nat (length bs + length new)) (2 ^ 32)).
  - by apply append_spec.
  - apply (append_too_big bs); done || lia.
Qed.

Lemma append_total_witness :
  exists b', append [1; 2; 3] new_default = Ret b' /\ holds b' ([] ++ [1; 2; 3]) /\
    growable b' /\ ocursor b' = ocursor new_default.
Proof.
  apply (append_total new_default [] [1; 2; 3]); [apply holds_new_default|by split|done].
Defined.

(** C27: what is written is read back.  For any sequence of 64-bit integers,
    doubles and strings written in one record, the bytes stored are the
    concatenated network encodings and reading them gives the values again. *)
Theorem network_roundtrip (id : Z) (times : list (Z * Z)) (names : list string) :
  let c := pair_codec uint64 (pair_codec (vector (pair_codec float64 int32)) (vector stl_string)) in
  let r := (id, (times, names)) in
  valid c r -> Z.of_nat (length (enc c r)) <= 2 ^ 32 ->
  exists b b', put c r new_default = Ret b /\ slice b = Ret (enc c r) /\
    get c (of_bytes (enc c r)) = Ret (r, b').
Proof.
  intros c r Hv Hlen.
  refine (codec_stored c r Hv Hlen); unfold c;
  repeat first [apply pair_ok | apply vector_ok | apply uint64_ok | apply float64_ok
               | apply int32_ok | apply stl_string_ok].
Qed.

Lemma network_roundtrip_witness :
  exists b b', put (pair_codec uint64 (pair_codec (vector (pair_codec float64 int32)) (vector stl_string)))
      (7, ([(0x3FF0000000000000, -1)], ["a"; "dir"])) new_default = Ret b /\
    slice b = Ret (enc (pair_codec uint64 (pair_codec (vector (pair_codec float64 int32)) (vector stl_string)))
      (7, ([(0x3FF0000000000000, -1)], ["a"; "dir"]))) /\
    get (pair_codec uint64 (pair_codec (vector (pair_codec float64 int32)) (vector stl_string)))
      (of_bytes (enc (pair_codec uint64 (pair_codec (vector (pair_codec float64 int32)) (vector stl_string)))
      (7, ([(0x3FF0000000000000, -1)], ["a"; "dir"])))) = Ret ((7, ([(0x3FF0000000000000, -1)], ["a"; "dir"])), b').
Proof.
  apply (network_roundtrip 7 [(0x3FF0000000000000, -1)] ["a"; "dir"]).
  - concrete.
  - vm_compute. discriminate.
Defined.

(** C36: the growth policy.  [resize] of an owned buffer of at most 4 GiB
    succeeds exactly when the extra bytes fit under 4 GiB; it then keeps the
    old bytes, makes room for the extra ones, never exceeds 4 GiB, and at
    least doubles the array unless that would pass 4 GiB. *)
Theorem resize_policy (extra : Z) (b : NetworkByteBuffer) :
  growable b -> 0 <= size b -> 0 < extra < 2 ^ 64 ->
  Z.of_nat (length (buf b)) = size b ->
  if size b + extra <=? 2 ^ 32 then
    exists b', resize extra b = Ret b' /\ take (length (buf b)) (buf b') = buf b /\
      Z.of_nat (length (buf b')) = size b' /\
      size b + extra <= size b' <= 2 ^ 32 /\
      (2 * size b <= 2 ^ 32 -> 2 * size b <= size b')
  else resize extra b = Throw (runtime_error "Buffer exceeds maximum size").
Proof.
  intros [Ha Hs] H0 He Hl. unfold resize. rewrite Ha. cbn [negb].
  rewrite (u64_id (1 + _ - _)) by lia.
  destruct (Z.leb_spec (size b + extra) (2 ^ 32)),
    (Z.ltb_spec (1 + (2 ^ 32 - 1) - size b) extra); try lia; [|done].
  set (growth := if size b <? extra then _ else _).
  assert (extra <= growth /\ size b + growth <= 2 ^ 32 /\
    (2 * size b <= 2 ^ 32 -> size b <= growth)) as (Hg1 & Hg2 & Hg3).
  { unfold growth. repeat case_if; zb; split_and!; try lia.
    all: pose proof (half_le (1 + (2 ^ 32 - 1) - size b) ltac:(lia)); lia. }
  rewrite u64_id by lia. eexists. split; [done|]. cbn.
  rewrite (take_ge (buf b) (Z.to_nat (size b))) by lia.
  rewrite take_app_exact, length_app, length_drop by lia.
  unfold alloc. rewrite length_replicate. split_and!; lia || done.
Qed.

Lemma resize_policy_witness :
  exists b', resize 1 new_default = Ret b' /\
    take (length (buf new_default)) (buf b') = buf new_default /\
    Z.of_nat (length (buf b')) = size b' /\
    size new_default + 1 <= size b' <= 2 ^ 32 /\
    (2 * size new_default <= 2 ^ 32 -> 2 * size new_default <= size b').
Proof. apply (resize_policy 1 new_default); [by split|done|done|done]. Defined.
