(* ===== verification/LevelDB.v ===== *)
(** * The key-value store the program relies on

    The stores of the program (blocks, vertices, partitionings, the focused
    interval index) are LevelDB databases.  The class [LevelDB] gives the
    calls the program makes and [LevelDBOk] their documented behaviour when no
    I/O error happens: a finite map from byte strings to byte strings whose
    iterators enumerate a snapshot in increasing bytewise order.  [check]
    is the error test every caller performs.  The in-memory map at the end is
    an instance. *)

From Stdlib Require Import ZArith Lia.
From stdpp Require Import base numbers gmap strings list sorting.
From S2P Require Import Prelude.
From S2P Require Import Double.
From S2P Require Import NetworkByteBuffer.

Abbreviation bytes := (list Z).

(** ** The bytewise order of keys *)

Fixpoint bytes_compare (l1 l2 : bytes) : comparison :=
  match l1, l2 with
  | [], [] => Eq
  | [], _ :: _ => Lt
  | _ :: _, [] => Gt
  | x :: l1', y :: l2' =>
      match x ?= y with Eq => bytes_compare l1' l2' | c => c end
  end.

Definition bytes_le (l1 l2 : bytes) : Prop := bytes_compare l1 l2 <> Gt.
Definition bytes_lt (l1 l2 : bytes) : Prop := bytes_compare l1 l2 = Lt.

#[export] Instance bytes_le_dec : RelDecision bytes_le.
Proof. intros l1 l2. unfold bytes_le. destruct (bytes_compare l1 l2); [left|left|right]; congruence. Defined.

Lemma bytes_compare_refl l : bytes_compare l l = Eq.
Proof. induction l as [|x l IH]; [done|]. cbn. by rewrite Z.compare_refl. Qed.

Lemma bytes_compare_eq l1 l2 : bytes_compare l1 l2 = Eq <-> l1 = l2.
Proof.
  split; [|intros ->; apply bytes_compare_refl].
  revert l2. induction l1 as [|x l1 IH]; intros [|y l2]; try done. cbn.
  destruct (Z.compare_spec x y) as [->| |]; try done. intros E. f_equal. by apply IH.
Qed.

Lemma bytes_compare_antisym l1 l2 : bytes_compare l2 l1 = CompOpp (bytes_compare l1 l2).
Proof.
  revert l2. induction l1 as [|x l1 IH]; intros [|y l2]; try done. cbn.
  rewrite (Z.compare_antisym y x). by destruct (y ?= x); cbn.
Qed.

Lemma bytes_compare_trans c l1 l2 l3 :
  bytes_compare l1 l2 = c -> bytes_compare l2 l3 = c -> bytes_compare l1 l3 = c.
Proof.
  revert l2 l3. induction l1 as [|x l1 IH]; intros [|y l2] [|z l3]; cbn; try congruence.
  destruct (Z.compare_spec x y), (Z.compare_spec y z), (Z.compare_spec x z); subst;
    try lia; try congruence; eauto.
Qed.

#[export] Instance bytes_le_total : Total bytes_le.
Proof.
  intros l1 l2. unfold bytes_le. rewrite (bytes_compare_antisym l1 l2).
  destruct (bytes_compare l1 l2); cbn; [left|left|right]; congruence.
Qed.

Lemma bytes_le_lt_eq l1 l2 : bytes_le l1 l2 <-> bytes_lt l1 l2 \/ l1 = l2.
Proof.
  unfold bytes_le, bytes_lt. rewrite <- bytes_compare_eq.
  destruct (bytes_compare l1 l2); intuition congruence.
Qed.

Lemma bytes_lt_trans l1 l2 l3 : bytes_lt l1 l2 -> bytes_lt l2 l3 -> bytes_lt l1 l3.
Proof. apply bytes_compare_trans. Qed.

#[export] Instance bytes_le_trans : Transitive bytes_le.
Proof.
  intros l1 l2 l3 H1 H2. rewrite bytes_le_lt_eq in *.
  destruct H1 as [H1| ->], H2 as [H2| ->]; eauto using bytes_lt_trans.
Qed.

#[export] Instance bytes_le_antisym : AntiSymm (=) bytes_le.
Proof.
  intros l1 l2 H1 H2. unfold bytes_le in *. rewrite (bytes_compare_antisym l1 l2) in H2.
  apply bytes_compare_eq. by destruct (bytes_compare l1 l2).
Qed.

Lemma bytes_compare_app p q l k :
  length p = length q ->
  bytes_compare (p ++ l) (q ++ k) =
    match bytes_compare p q with Eq => bytes_compare l k | c => c end.
Proof.
  revert q. induction p as [|x p IH]; intros [|y q] Hlen; try done. cbn.
  destruct (x ?= y); [|done..]. apply IH. by injection Hlen.
Qed.

Lemma be_S n z : be (S n) z = (z / 2 ^ (8 * Z.of_nat n)) mod 256 :: be n z.
Proof.
  unfold be. replace (S n) with (n + 1)%nat by lia.
  by rewrite raw_app, reverse_app.
Qed.

(** The network encoding of unsigned integers is monotone: comparing keys
    byte by byte is comparing the numbers. *)
Lemma bytes_compare_be n a b :
  0 <= a < 2 ^ (8 * Z.of_nat n) -> 0 <= b < 2 ^ (8 * Z.of_nat n) ->
  bytes_compare (be n a) (be n b) = (a ?= b).
Proof.
  revert a b. induction n as [|n IH]; intros a b Ha Hb.
  - cbn in *. symmetry. apply Z.compare_eq_iff. lia.
  - rewrite !be_S. cbn [bytes_compare].
    set (p := 2 ^ (8 * Z.of_nat n)) in *.
    assert (0 < p) by (apply Z.pow_pos_nonneg; lia).
    assert (2 ^ (8 * Z.of_nat (S n)) = 256 * p) as E.
    { unfold p. rewrite <- (Z.pow_add_r 2 8) by lia. f_equal. lia. }
    rewrite E in *.
    pose proof (Z.div_mod a p ltac:(lia)) as Da. pose proof (Z.div_mod b p ltac:(lia)) as Db.
    pose proof (Z.mod_pos_bound a p ltac:(lia)). pose proof (Z.mod_pos_bound b p ltac:(lia)).
    assert (0 <= a / p < 256 /\ 0 <= b / p < 256) as [Qa Qb].
    { split; (split; [apply Z.div_pos; lia|apply Z.div_lt_upper_bound; lia]). }
    rewrite !(Z.mod_small (_ / p)) by done.
    assert (be n a = be n (a mod p)) as -> by (unfold be; by rewrite raw_mod).
    assert (be n b = be n (b mod p)) as -> by (unfold be; by rewrite raw_mod).
    rewrite IH by done.
    destruct (Z.compare_spec (a / p) (b / p)), (Z.compare_spec a b),
      (Z.compare_spec (a mod p) (b mod p)); try done; nia.
Qed.

Lemma be_inj n a b :
  0 <= a < 2 ^ (8 * Z.of_nat n) -> 0 <= b < 2 ^ (8 * Z.of_nat n) -> be n a = be n b -> a = b.
Proof.
  intros Ha Hb E. apply Z.compare_eq_iff. rewrite <- (bytes_compare_be n) by done.
  rewrite E. apply bytes_compare_refl.
Qed.

(** ** The interface *)

Inductive status (A : Type) :=
  | StatusOK (a : A)
  | NotFound
  | IOError (msg : string).
Arguments StatusOK {A} a.
Arguments NotFound {A}.
Arguments IOError {A} msg.

(** [if (!status.ok()) throw std::runtime_error(status.ToString());] *)
Definition check {A} (s : status A) : outcome A :=
  match s with
  | StatusOK a => Ret a
  | NotFound => Throw (runtime_error "NotFound: ")
  | IOError m => Throw (runtime_error m)
  end.

(** The entries of a map in increasing key order. *)
Definition sorted_entries (m : gmap bytes bytes) : list (bytes * bytes) :=
  merge_sort (fun x y => bytes_le x.1 y.1) (map_to_list m).

Class LevelDB (D : Type) := {
  contents : D -> gmap bytes bytes;
  ldb_get : D -> bytes -> status bytes;
  ldb_put : D -> bytes -> bytes -> status D;
  ldb_delete : D -> bytes -> status D;
  (** [NewIterator] and [Seek]: the entries from the given key on. *)
  ldb_seek : D -> bytes -> list (bytes * bytes)
}.

Class LevelDBOk (D : Type) `{LevelDB D} : Prop := {
  ldb_get_ok d k : ldb_get d k =
    match contents d !! k with Some v => StatusOK v | None => NotFound end;
  ldb_put_ok d k v : exists d', ldb_put d k v = StatusOK d' /\ contents d' = <[k := v]> (contents d);
  ldb_delete_ok d k : exists d', ldb_delete d k = StatusOK d' /\ contents d' = delete k (contents d);
  ldb_seek_ok d k : ldb_seek d k =
    filter (fun kv => bytes_le k kv.1) (sorted_entries (contents d))
}.

(** ** Sorted entries *)

#[export] Instance key_le_total : Total (fun x y : bytes * bytes => bytes_le x.1 y.1).
Proof. intros x y. apply (total bytes_le). Qed.

#[export] Instance key_le_trans : Transitive (fun x y : bytes * bytes => bytes_le x.1 y.1).
Proof. intros x y z. apply (transitivity (R := bytes_le)). Qed.

Lemma elem_of_sorted_entries m k v : (k, v) ∈ sorted_entries m <-> m !! k = Some v.
Proof.
  unfold sorted_entries. rewrite merge_sort_Permutation.
  apply elem_of_map_to_list.
Qed.

Lemma NoDup_sorted_entries m : NoDup (sorted_entries m).*1.
Proof.
  unfold sorted_entries. rewrite merge_sort_Permutation. apply NoDup_fst_map_to_list.
Qed.

(** Keys strictly increase along the entries. *)
Lemma sorted_entries_lt m : StronglySorted bytes_lt (sorted_entries m).*1.
Proof.
  pose proof (NoDup_sorted_entries m) as Hnd.
  assert (StronglySorted (fun x y : bytes * bytes => bytes_le x.1 y.1) (sorted_entries m)) as Hs
    by apply (StronglySorted_merge_sort _).
  induction Hs as [|x l Hs IH Hx]; [constructor|]. cbn in *.
  apply NoDup_cons in Hnd as [Hn Hnd]. constructor; [auto|].
  apply Forall_fmap, Forall_forall. intros y Hy. rewrite Forall_forall in Hx. cbn.
  pose proof (Hx y Hy) as Hle. apply bytes_le_lt_eq in Hle as [|Heq]; [done|].
  contradict Hn. rewrite Heq. apply list_elem_of_fmap. eauto.
Qed.

(** ** An in-memory instance *)

#[export] Instance map_db : LevelDB (gmap bytes bytes) := {
  contents m := m;
  ldb_get m k := match m !! k with Some v => StatusOK v | None => NotFound end;
  ldb_put m k v := StatusOK (<[k := v]> m);
  ldb_delete m k := StatusOK (delete k m);
  ldb_seek m k := filter (fun kv => bytes_le k kv.1) (sorted_entries m)
}.

#[export] Instance map_db_ok : LevelDBOk (gmap bytes bytes).
Proof. split; cbn; eauto. Qed.
