(* ===== verification/Schema.v ===== *)
(** * Attributes and schemas

    common/Attribute.h, core/Schema.h and Schema.cpp.  A schema is the vector
    of its attributes and the map from names to positions. *)

From Stdlib Require Import ZArith Lia.
From stdpp Require Import base numbers gmap strings list sorting pretty.
From S2P Require Import Prelude.
From S2P Require Import Double.
From S2P Require Import NetworkByteBuffer.

(** [Attribute::DataType]; [core::DataType] has the same constructors in the
    same order and is cast to it. *)
Inductive DataType := INT64 | DOUBLE | STRING | UNDEFINED.

#[export] Instance DataType_eq_dec : EqDecision DataType.
Proof. solve_decision. Defined.

Record Attribute := mkAttribute { index_ : Z; name_ : string; type_ : DataType }.

#[export] Instance Attribute_eq_dec : EqDecision Attribute.
Proof. solve_decision. Defined.

Definition setIndex (i : Z) (a : Attribute) : Attribute := mkAttribute i (name_ a) (type_ a).

Definition getTypeString (t : DataType) : string :=
  match t with
  | INT64 => "INT64" | DOUBLE => "DOUBLE" | STRING => "STRING" | UNDEFINED => "UNDEFINED"
  end.

Definition Attribute_toString (a : Attribute) : string :=
  "(name: " +:+ name_ a +:+ ", index: " +:+ pretty (index_ a) +:+ ")".

Record Schema := mkSchema {
  attributes_ : list Attribute;
  nameToIndex_ : gmap string Z
}.

#[export] Instance Schema_eq_dec : EqDecision Schema.
Proof. solve_decision. Defined.

Definition empty_schema : Schema := mkSchema [] ∅.

(** One iteration of the constructor: [push_back], then [emplace], which keeps
    the first position of a repeated name. *)
Definition add_attribute (s : Schema) (nameAndType : string * DataType) : Schema :=
  let index := Z.of_nat (length (attributes_ s)) in
  let attribute := mkAttribute index nameAndType.1 nameAndType.2 in
  let attributes := attributes_ s ++ [attribute] in
  mkSchema attributes
    (match nameToIndex_ s !! nameAndType.1 with
     | Some _ => nameToIndex_ s
     | None => <[nameAndType.1 := Z.of_nat (length attributes) - 1]> (nameToIndex_ s)
     end).

Definition new_schema (namesAndTypes : list (string * DataType)) : Schema :=
  foldl add_attribute empty_schema namesAndTypes.

(** [nameToIndex_.find(name)->second]: undefined on an unknown name. *)
Definition getIndex (s : Schema) (name : string) : outcome Z :=
  or_undefined (nameToIndex_ s !! name).

(** [getAttributes().at(i)] *)
Definition attribute_at (s : Schema) (i : Z) : outcome Attribute :=
  if i <? 0 then Throw out_of_range
  else or_throw out_of_range (attributes_ s !! Z.to_nat i).

Definition Schema_toString (s : Schema) : string :=
  foldl (fun ss a => ss +:+ Attribute_toString a +:+ " ") "" (attributes_ s).

(** ** Well-formed schemas *)

(** Every attribute records its own position, and the name map sends a name to
    the position of the first attribute that has it. *)
Record schema_ok (s : Schema) : Prop := {
  index_ok i a : attributes_ s !! i = Some a -> index_ a = Z.of_nat i;
  names_sound name i : nameToIndex_ s !! name = Some i ->
    exists j a, i = Z.of_nat j /\ attributes_ s !! j = Some a /\ name_ a = name;
  names_complete j a : attributes_ s !! j = Some a -> is_Some (nameToIndex_ s !! name_ a);
  names_first name i j a : nameToIndex_ s !! name = Some i ->
    attributes_ s !! j = Some a -> name_ a = name -> i <= Z.of_nat j
}.

Lemma empty_schema_ok : schema_ok empty_schema.
Proof. by split. Qed.

Lemma lookup_snoc_cases {A} (l : list A) x i a :
  (l ++ [x]) !! i = Some a -> l !! i = Some a \/ (i = length l /\ a = x).
Proof.
  intros [H|[H1 H2]]%lookup_app_Some; [by left|right].
  apply list_lookup_singleton_Some in H2 as [H2 <-]. split; [lia|done].
Qed.

Lemma add_attribute_ok s nt : schema_ok s -> schema_ok (add_attribute s nt).
Proof.
  intros [Hi Hs Hc Hf]. unfold add_attribute.
  set (a0 := mkAttribute _ _ _).
  assert (forall j a, attributes_ s !! j = Some a -> (attributes_ s ++ [a0]) !! j = Some a) as Hl.
  { intros j a H. by apply lookup_app_l_Some. }
  assert ((attributes_ s ++ [a0]) !! length (attributes_ s) = Some a0) as Ha0.
  { by rewrite lookup_app_r, Nat.sub_diag by lia. }
  rewrite length_app. cbn [length].
  split; cbn [attributes_ nameToIndex_].
  - intros i a [H|[-> ->]]%lookup_snoc_cases; [by apply Hi|done].
  - intros name i H.
    destruct (nameToIndex_ s !! nt.1) eqn:E; [|apply lookup_insert_Some in H as [[<- <-]|[_ H]]].
    1, 3: destruct (Hs name i H) as (j & a & -> & Ha & Hn); eauto 6.
    exists (length (attributes_ s)), a0. split_and!; [lia|done|done].
  - intros j a [H|[-> ->]]%lookup_snoc_cases.
    + destruct (Hc j a H). destruct (nameToIndex_ s !! nt.1); [eauto|].
      rewrite lookup_insert. case_decide; eauto.
    + unfold a0. cbn. destruct (nameToIndex_ s !! nt.1) eqn:E; [eauto|].
      rewrite lookup_insert_eq. eauto.
  - intros name i j a H Hj Hn.
    apply lookup_snoc_cases in Hj as [Hj|[-> ->]].
    + assert (nameToIndex_ s !! name = Some i \/ nameToIndex_ s !! name = None /\ nt.1 = name) as [H'|[H' _]].
      { destruct (nameToIndex_ s !! nt.1) eqn:E; [auto|].
        apply lookup_insert_Some in H as [[<- <-]|[? H]]; auto. }
      * eauto.
      * destruct (Hc j a Hj). congruence.
    + assert (nameToIndex_ s !! name = Some i \/ i = Z.of_nat (length (attributes_ s))) as [H'| ->]; [|..|lia].
      { destruct (nameToIndex_ s !! nt.1) eqn:E; [auto|].
        apply lookup_insert_Some in H as [[<- <-]|[? H]]; auto. right. lia. }
      destruct (Hs _ _ H') as (k & b & -> & Hk & _). apply lookup_lt_Some in Hk. lia.
Qed.

Lemma foldl_schema_ok l s : schema_ok s -> schema_ok (foldl add_attribute s l).
Proof. revert s. induction l as [|nt l IH]; intros s Hs; [done|]. apply IH. by apply add_attribute_ok. Qed.

Lemma new_schema_ok l : schema_ok (new_schema l).
Proof. apply foldl_schema_ok, empty_schema_ok. Qed.

#[export] Hint Resolve empty_schema_ok add_attribute_ok new_schema_ok : railway.

Lemma new_schema_attributes l :
  (fun a => (name_ a, type_ a)) <$> attributes_ (new_schema l) = l.
Proof.
  assert (forall s, (fun a => (name_ a, type_ a)) <$> attributes_ (foldl add_attribute s l) =
    ((fun a => (name_ a, type_ a)) <$> attributes_ s) ++ l) as H.
  { induction l as [|[n t] l IH]; intros s; cbn; [by rewrite app_nil_r|].
    rewrite IH. cbn. by rewrite fmap_app, <- app_assoc. }
  apply H.
Qed.

(** ** Properties *)

(** The schema built from a vector of names and types lists exactly those
    attributes in order, each numbered by its position, and [getIndex] of any
    name of the vector is the position of its first occurrence. *)
Theorem schema_constructor (l : list (string * DataType)) (i : nat) (name : string) (t : DataType) :
  l !! i = Some (name, t) ->
  attributes_ (new_schema l) !! i = Some (mkAttribute (Z.of_nat i) name t) /\
  exists j, getIndex (new_schema l) name = Ret (Z.of_nat j) /\ (j <= i)%nat /\
    l.*1 !! j = Some name /\ forall k, (k < j)%nat -> l.*1 !! k <> Some name.
Proof.
  intros Hl. pose proof (new_schema_ok l) as [Hi Hs Hc Hf].
  assert (forall k n t', l !! k = Some (n, t') ->
    attributes_ (new_schema l) !! k = Some (mkAttribute (Z.of_nat k) n t')) as Hat.
  { intros k n t' Hk. rewrite <- (new_schema_attributes l) in Hk.
    apply list_lookup_fmap_Some in Hk as ([ix nm ty] & [= -> ->] & Hk).
    rewrite Hk. f_equal. f_equal. by apply (Hi k _ Hk). }
  split; [by apply Hat|].
  destruct (Hc i _ (Hat _ _ _ Hl)) as [z Hz]. cbn in Hz.
  destruct (Hs name z Hz) as (j & a & -> & Hj & Hn).
  exists j. unfold getIndex. rewrite Hz. split_and!; [done| | |].
  - pose proof (Hf _ _ i _ Hz (Hat _ _ _ Hl) eq_refl). lia.
  - rewrite <- (new_schema_attributes l), <- list_fmap_compose, list_lookup_fmap, Hj. cbn. congruence.
  - intros k Hk Hname. apply list_lookup_fmap_Some in Hname as ([n t'] & Hn' & Hk').
    cbn in Hn'. subst n. pose proof (Hf _ _ k _ Hz (Hat _ _ _ Hk') eq_refl). lia.
Qed.

Lemma schema_constructor_witness :
  attributes_ (new_schema [("a", INT64); ("b", STRING)]) !! 1%nat = Some (mkAttribute (Z.of_nat 1) "b" STRING) /\
  exists j, getIndex (new_schema [("a", INT64); ("b", STRING)]) "b" = Ret (Z.of_nat j) /\ (j <= 1)%nat /\
    [("a", INT64); ("b", STRING)].*1 !! j = Some "b" /\
    forall k, (k < j)%nat -> [("a", INT64); ("b", STRING)].*1 !! k <> Some "b".
Proof. apply (schema_constructor [("a", INT64); ("b", STRING)] 1 "b" STRING). reflexivity. Defined.
