(* ===== verification/AttributeData.v ===== *)
(** * Attribute data of vertices and edges

    core/AttributeData.h, AttributeData.cpp and the size functions of
    Helper.h.  The fields are an [unordered_map<int, Type>] whose traversal
    order is visible in the serialized form, so they are an association list
    in iteration order; [data_equiv] is equality up to that order, which is
    what [operator==] decides. *)

From Stdlib Require Import ZArith Lia Permutation.
From stdpp Require Import base numbers gmap strings list sorting.
From S2P Require Import Prelude.
From S2P Require Import Double.
From S2P Require Import NetworkByteBuffer.
From S2P Require Import Schema.

(** [boost::variant<int64_t, double, std::string>] *)
Inductive Value := VInt (z : Z) | VDouble (d : double) | VString (s : string).

#[export] Instance Value_eq_dec : EqDecision Value.
Proof. solve_decision. Defined.

Record AttributeData := mkData { fields_ : list (Z * Value); schema_ : Schema }.

#[export] Instance AttributeData_eq_dec : EqDecision AttributeData.
Proof. solve_decision. Defined.

Definition with_fields (d : AttributeData) (f : list (Z * Value)) : AttributeData :=
  mkData f (schema_ d).

(** The [default] case asserts a string literal, which is always true, and
    returns a default variant, the integer zero. *)
Definition getTypeValue (t : DataType) : Value :=
  match t with
  | INT64 => VInt 0
  | DOUBLE => VDouble dzero
  | STRING => VString ""
  | UNDEFINED => VInt 0
  end.

(** [AttributeData(Schema const &)] *)
Definition newAttributeData (schema : Schema) : AttributeData :=
  mkData (foldl (fun f attrb => assoc_emplace (index_ attrb) (getTypeValue (type_ attrb)) f)
            [] (attributes_ schema)) schema.

(** [AttributeData(Schema const &, unordered_set<string> const &)]; the set is
    given in its iteration order. *)
Definition newAttributeData_of (schema : Schema) (attributes : list string) : outcome AttributeData :=
  f ← foldM (fun f attrb =>
        idx ← getIndex schema attrb;
        a ← attribute_at schema idx;
        Ret (assoc_emplace idx (getTypeValue (type_ a)) f)) [] attributes;
  Ret (mkData f schema).

Definition setAttribute_named (d : AttributeData) (attributeName : string) (value : Value)
  : outcome AttributeData :=
  idx ← getIndex (schema_ d) attributeName;
  match assoc_find idx (fields_ d) with
  | None => Throw (attribute_not_found attributeName)
  | Some _ => Ret (with_fields d (assoc_set idx value (fields_ d)))
  end.

Definition setAttribute (d : AttributeData) (attributeIndex : Z) (value : Value) : AttributeData :=
  with_fields d (assoc_set attributeIndex value (fields_ d)).

Definition setAttributes (d other : AttributeData) : AttributeData :=
  with_fields d
    (foldl (fun f p => match assoc_find p.1 f with
                       | Some _ => assoc_set p.1 p.2 f
                       | None => f
                       end) (fields_ d) (fields_ other)).

Definition getAttribute_named (d : AttributeData) (attributeName : string) : outcome Value :=
  idx ← getIndex (schema_ d) attributeName;
  match assoc_find idx (fields_ d) with
  | None => Throw (attribute_not_found attributeName)
  | Some v => Ret v
  end.

(** [fields_.find(attributeIndex)->second] *)
Definition getAttribute (d : AttributeData) (attributeIndex : Z) : outcome Value :=
  or_undefined (assoc_find attributeIndex (fields_ d)).

(** [boost::get<T>] *)
Definition get_int (v : Value) : outcome Z := match v with VInt z => Ret z | _ => Throw bad_get end.
Definition get_double (v : Value) : outcome double := match v with VDouble d => Ret d | _ => Throw bad_get end.
Definition get_string (v : Value) : outcome string := match v with VString s => Ret s | _ => Throw bad_get end.

Definition getIntAttribute (d : AttributeData) (i : Z) := getAttribute d i ≫= get_int.
Definition getDoubleAttribute (d : AttributeData) (i : Z) := getAttribute d i ≫= get_double.
Definition getStringAttribute (d : AttributeData) (i : Z) := getAttribute d i ≫= get_string.
Definition getIntAttribute_named (d : AttributeData) (n : string) := getAttribute_named d n ≫= get_int.
Definition getDoubleAttribute_named (d : AttributeData) (n : string) := getAttribute_named d n ≫= get_double.
Definition getStringAttribute_named (d : AttributeData) (n : string) := getAttribute_named d n ≫= get_string.

(** ** Serialized sizes (Helper.h) *)

Definition size_int64 : Z := 8.
Definition size_double : Z := 8.
Definition getSerializedSizeOf_string (s : string) : Z := u64 (4 + Z.of_nat (String.length s)).

(** The size of one field, by the type its schema gives it. *)
Definition field_size (d : AttributeData) (index : Z) : outcome Z :=
  a ← attribute_at (schema_ d) index;
  match type_ a with
  | INT64 => _ ← getIntAttribute d index; Ret size_int64
  | DOUBLE => _ ← getDoubleAttribute d index; Ret size_double
  | STRING => s ← getStringAttribute d index; Ret (getSerializedSizeOf_string s)
  | UNDEFINED => AssertFailed
  end.

Definition getSerializedSizeOf (d : AttributeData) : outcome Z :=
  foldM (fun size p => n ← field_size d p.1; Ret (u64 (size + n))) 0 (fields_ d).

Definition getFieldSize (d : AttributeData) (index : Z) : outcome double :=
  n ← field_size d index; Ret (dofZ n).

(** ** Equality *)

Definition value_eqb (v w : Value) : bool :=
  match v, w with
  | VInt a, VInt b => a =? b
  | VDouble a, VDouble b => deqb a b
  | VString a, VString b => bool_decide (a = b)
  | _, _ => false
  end.

Definition data_eqb (d other : AttributeData) : bool :=
  (length (fields_ d) =? length (fields_ other))%nat &&
  forallb (fun p => match assoc_find p.1 (fields_ other) with
                    | None => false
                    | Some w => value_eqb p.2 w
                    end) (fields_ d).

(** ** The network form *)

Definition put_value (a : Attribute) (v : Value) (sbuf : NetworkByteBuffer) : outcome NetworkByteBuffer :=
  match type_ a with
  | INT64 => z ← get_int v; addInt64 z sbuf
  | DOUBLE => x ← get_double v; addDouble x sbuf
  | STRING => s ← get_string v; addSTLString s sbuf
  | UNDEFINED => AssertFailed
  end.

Definition put_data (d : AttributeData) (sbuf : NetworkByteBuffer) : outcome NetworkByteBuffer :=
  foldM (fun sbuf p => a ← attribute_at (schema_ d) p.1; put_value a p.2 sbuf) sbuf (fields_ d).

Definition get_value (a : Attribute) (sbuf : NetworkByteBuffer) : outcome (Value * NetworkByteBuffer) :=
  match type_ a with
  | INT64 => '(z, b) ← getInt64 sbuf; Ret (VInt z, b)
  | DOUBLE => '(x, b) ← getDouble sbuf; Ret (VDouble x, b)
  | STRING => '(s, b) ← getSTLString sbuf; Ret (VString s, b)
  | UNDEFINED => AssertFailed
  end.

(** [operator>>]: one value for each field of [data], in its iteration order;
    assigning to a present key does not disturb the traversal. *)
Definition get_data (d : AttributeData) (sbuf : NetworkByteBuffer)
  : outcome (AttributeData * NetworkByteBuffer) :=
  foldM (fun '(d, sbuf) idx =>
    a ← attribute_at (schema_ d) idx;
    '(v, sbuf') ← get_value a sbuf;
    Ret (setAttribute d idx v, sbuf')) (d, sbuf) (fields_ d).*1.

(** ** Well-typed data *)

Definition has_type (t : DataType) (v : Value) : Prop :=
  match t, v with
  | INT64, VInt z => - 2 ^ 63 <= z < 2 ^ 63
  | DOUBLE, VDouble d => 0 <= d < 2 ^ 64
  | STRING, VString s => Z.of_nat (String.length s) < 2 ^ 32
  | _, _ => False
  end.

Definition typed_field (s : Schema) (p : Z * Value) : Prop :=
  exists a, attribute_at s p.1 = Ret a /\ has_type (type_ a) p.2.

(** One field per key, each holding a value of its attribute's type. *)
Definition well_typed (d : AttributeData) : Prop :=
  NoDup (fields_ d).*1 /\ Forall (typed_field (schema_ d)) (fields_ d).

(** Equality up to the traversal order, the relation of [operator==]. *)
Definition data_equiv (d1 d2 : AttributeData) : Prop :=
  schema_ d1 = schema_ d2 /\ fields_ d1 ≡ₚ fields_ d2.

#[export] Instance data_equiv_equivalence : Equivalence data_equiv.
Proof.
  split.
  - by intros d.
  - intros d1 d2 [Hs Hf]. by split.
  - intros d1 d2 d3 [Hs1 Hf1] [Hs2 Hf2]. split; [congruence|by rewrite Hf1].
Qed.

#[export] Instance well_typed_proper : Proper (data_equiv ==> iff) well_typed.
Proof. intros d1 d2 [Hs Hf]. unfold well_typed. by rewrite Hs, Hf. Qed.

Lemma assoc_find_Permutation {V} (l1 l2 : list (Z * V)) k :
  NoDup l1.*1 -> l1 ≡ₚ l2 -> assoc_find k l1 = assoc_find k l2.
Proof.
  intros Hnd Hp. destruct (assoc_find k l2) as [v|] eqn:E.
  - apply assoc_find_Some in E. apply assoc_find_elem; [done|by rewrite Hp].
  - apply assoc_find_None in E. apply assoc_find_None. by rewrite Hp.
Qed.

Definition enc_value (v : Value) : list Z :=
  match v with
  | VInt z => be 8 z
  | VDouble d => be 8 d
  | VString s => enc stl_string s
  end.

Definition enc_data (d : AttributeData) : list Z := concat (enc_value <$> (fields_ d).*2).

Lemma put_value_ok a v b bs :
  holds b bs -> growable b -> has_type (type_ a) v ->
  Z.of_nat (length bs + length (enc_value v)) <= 2 ^ 32 ->
  exists b', put_value a v b = Ret b' /\ holds b' (bs ++ enc_value v) /\ growable b' /\
    ocursor b' = ocursor b.
Proof.
  intros Hb Hg Ht Hlen. unfold put_value.
  destruct (type_ a), v; cbn in Ht; try done; cbn [get_int get_double get_string mbind outcome_bind].
  - by apply (put_ok (c := int64)).
  - by apply (put_ok (c := float64)).
  - by apply (put_ok (c := stl_string)).
Qed.

Lemma get_value_ok a v b rest :
  unread b (enc_value v ++ rest) -> has_type (type_ a) v ->
  exists b', get_value a b = Ret (v, b') /\ unread b' rest.
Proof.
  intros Hu Ht. unfold get_value. destruct (type_ a), v; cbn in Ht; try done.
  - destruct (get_ok (c := int64) z b rest Hu Ht) as (b' & Hg & Hu'). cbn in Hg. rewrite Hg. eauto.
  - destruct (get_ok (c := float64) d b rest Hu Ht) as (b' & Hg & Hu'). cbn in Hg. rewrite Hg. eauto.
  - destruct (get_ok (c := stl_string) s b rest Hu Ht) as (b' & Hg & Hu'). cbn in Hg. rewrite Hg. eauto.
Qed.

Lemma put_data_ok d b bs :
  holds b bs -> growable b -> Forall (typed_field (schema_ d)) (fields_ d) ->
  Z.of_nat (length bs + length (enc_data d)) <= 2 ^ 32 ->
  exists b', put_data d b = Ret b' /\ holds b' (bs ++ enc_data d) /\ growable b' /\
    ocursor b' = ocursor b.
Proof.
  unfold put_data, enc_data. generalize (schema_ d) as s. intros s.
  intros Hb Hg Hv. revert b bs Hb Hg.
  induction Hv as [|[i v] l (a & Ha & Ht) Hl IH]; intros b bs Hb Hg Hlen.
  - cbn. rewrite app_nil_r. eauto.
  - cbn in *. rewrite length_app in Hlen. rewrite Ha. cbn.
    destruct (put_value_ok a v b bs) as (b1 & -> & Hb1 & Hg1 & Ho1); [done..|lia|]. cbn.
    destruct (IH b1 (bs ++ enc_value v)) as (b2 & -> & Hb2 & Hg2 & Ho2);
      [done..|rewrite length_app; lia|].
    exists b2. rewrite app_assoc. split_and!; try done. congruence.
Qed.

Lemma get_data_ok d d0 b rest :
  well_typed d -> schema_ d0 = schema_ d -> (fields_ d0).*1 = (fields_ d).*1 ->
  unread b (enc_data d ++ rest) ->
  exists b', get_data d0 b = Ret (d, b') /\ unread b' rest.
Proof.
  intros [Hnd Ht] Hs Hk. unfold get_data. rewrite Hk.
  assert (forall l2 l2' l1 b, fields_ d = l1 ++ l2 -> l2'.*1 = l2.*1 ->
    unread b (concat (enc_value <$> l2.*2) ++ rest) ->
    exists b', foldM (fun '(d, sbuf) idx =>
        a ← attribute_at (schema_ d) idx;
        '(v, sbuf') ← get_value a sbuf;
        Ret (setAttribute d idx v, sbuf')) (mkData (l1 ++ l2') (schema_ d), b) l2.*1 = Ret (d, b')
      /\ unread b' rest) as Hloop.
  { induction l2 as [|[i v] l2 IH]; intros l2' l1 b1 Hd Hk2 Hu.
    - destruct l2'; [|done]. cbn. exists b1. split; [|done].
      rewrite <- Hd. by destruct d.
    - destruct l2' as [|[i' v'] l2']; [done|]. cbn in Hk2. injection Hk2 as -> Hk2.
      rewrite Hd in Ht, Hnd. rewrite Forall_app, Forall_cons in Ht.
      destruct Ht as (_ & (a & Ha & Hty) & _). cbn in Ha, Hu |- *. rewrite Ha. cbn.
      rewrite <- app_assoc in Hu.
      destruct (get_value_ok a v b1 _ Hu Hty) as (b2 & -> & Hu2). cbn.
      rewrite fmap_app in Hnd. apply NoDup_app in Hnd as (_ & Hn & _).
      unfold setAttribute, with_fields. cbn.
      rewrite assoc_set_middle.
      + destruct (IH l2' (l1 ++ [(i, v)]) b2) as (b3 & Hb3 & Hu3);
          [by rewrite Hd, <- app_assoc|done..|].
        rewrite <- app_assoc in Hb3. eauto.
      + intros Hin. apply (Hn i Hin). cbn. set_solver. }
  intros Hu. destruct d0 as [f0 s0]. cbn in *. subst s0.
  by apply (Hloop (fields_ d) f0 [] b).
Qed.

(** The size function counts the bytes [operator<<] writes. *)
Lemma field_size_ok d p :
  well_typed d -> p ∈ fields_ d ->
  field_size d p.1 = Ret (Z.of_nat (length (enc_value p.2))).
Proof.
  intros [Hnd Ht] Hp. rewrite Forall_forall in Ht. destruct (Ht p Hp) as (a & Ha & Hty).
  unfold field_size. rewrite Ha. cbn.
  unfold getIntAttribute, getDoubleAttribute, getStringAttribute, getAttribute.
  destruct p as [i v]. cbn in *. rewrite (assoc_find_elem i v) by done. cbn.
  destruct (type_ a), v; cbn in Hty; try done. cbn.
  unfold getSerializedSizeOf_string.
  rewrite u64_id, length_str_bytes by lia. f_equal. lia.
Qed.

Lemma getSerializedSizeOf_ok d :
  well_typed d -> getSerializedSizeOf d = Ret (u64 (Z.of_nat (length (enc_data d)))).
Proof.
  intros Hwt. unfold getSerializedSizeOf, enc_data.
  assert (forall l acc, (forall p, p ∈ l -> p ∈ fields_ d) ->
    foldM (fun size p => n ← field_size d p.1; Ret (u64 (size + n))) (u64 acc) l =
    Ret (u64 (acc + Z.of_nat (length (concat (enc_value <$> l.*2)))))) as H.
  { induction l as [|[i v] l IH]; intros acc Hl; cbn; [by rewrite Z.add_0_r|].
    pose proof (field_size_ok d (i, v) Hwt ltac:(apply Hl; left)) as Hf. cbn in Hf. rewrite Hf. cbn.
    rewrite u64_add_l, IH by (intros p Hp; apply Hl; by right). f_equal. f_equal. rewrite length_app. lia. }
  apply (H (fields_ d) 0). done.
Qed.

(** ** Construction and assignment *)

Lemma attribute_at_lookup s i :
  attribute_at s (Z.of_nat i) = or_throw out_of_range (attributes_ s !! i).
Proof. unfold attribute_at. destruct (Z.ltb_spec (Z.of_nat i) 0); [lia|]. by rewrite Nat2Z.id. Qed.

(** No attribute has the type [UNDEFINED]. *)
Definition defined_schema (s : Schema) : Prop :=
  schema_ok s /\ Forall (fun a => type_ a <> UNDEFINED) (attributes_ s).

Lemma has_type_default t : t <> UNDEFINED -> has_type t (getTypeValue t).
Proof. destruct t; cbn; lia || done. Qed.

Lemma assoc_emplace_Forall {V} (P : Z * V -> Prop) k v l :
  Forall P l -> P (k, v) -> Forall P (assoc_emplace k v l).
Proof.
  intros Hl Hp. unfold assoc_emplace. destruct (assoc_find k l); [done|].
  apply Forall_app. auto using Forall_cons_2, Forall_nil_2.
Qed.

Lemma assoc_set_Forall {V} (P : Z * V -> Prop) k v l :
  Forall P l -> P (k, v) -> Forall P (assoc_set k v l).
Proof.
  intros Hl Hp. induction Hl as [|[k' v'] l Hk Hl IH]; cbn; [by constructor|].
  case_decide; by constructor.
Qed.

Lemma newAttributeData_typed s : defined_schema s -> well_typed (newAttributeData s).
Proof.
  intros [Hok Hdef]. unfold newAttributeData, well_typed. cbn.
  assert (forall l f, (forall a, a ∈ l -> a ∈ attributes_ s) ->
    NoDup f.*1 /\ Forall (typed_field s) f ->
    NoDup (foldl (fun f attrb => assoc_emplace (index_ attrb) (getTypeValue (type_ attrb)) f) f l).*1 /\
    Forall (typed_field s) (foldl (fun f attrb => assoc_emplace (index_ attrb) (getTypeValue (type_ attrb)) f) f l)) as H.
  { induction l as [|a l IH]; intros f Hl [Hnd Ht]; [done|]. cbn. apply IH.
    - intros x Hx. apply Hl. by right.
    - split; [by apply assoc_emplace_NoDup|]. apply assoc_emplace_Forall; [done|].
      pose proof (Hl a ltac:(left)) as Ha. apply list_elem_of_lookup in Ha as [i Hi].
      exists a. cbn. rewrite (index_ok s Hok i a Hi), attribute_at_lookup, Hi. split; [done|].
      apply has_type_default. rewrite Forall_forall in Hdef. apply Hdef.
      apply list_elem_of_lookup. eauto. }
  apply H; [done|]. split; constructor.
Qed.

Lemma newAttributeData_of_typed s attrs d :
  defined_schema s -> newAttributeData_of s attrs = Ret d -> well_typed d /\ schema_ d = s.
Proof.
  intros [Hok Hdef]. unfold newAttributeData_of. intros H. inv_ret. split; [|done].
  unfold well_typed. cbn.
  refine (foldM_inv (fun _ f => NoDup f.*1 /\ Forall (typed_field s) f) _ _ _ _ _ _ E);
    [|split; constructor].
  intros done0 name rest f f' _ [Hnd Ht] Hs. inv_ret.
  split; [by apply assoc_emplace_NoDup|]. apply assoc_emplace_Forall; [done|].
  eexists. split; [exact E1|]. apply has_type_default.
  unfold attribute_at, or_throw in E1. repeat case_match; inv_ret.
  rewrite Forall_forall in Hdef. apply Hdef, list_elem_of_lookup. eauto.
Qed.

Lemma setAttribute_typed d i v :
  well_typed d -> typed_field (schema_ d) (i, v) -> well_typed (setAttribute d i v).
Proof.
  intros [Hnd Ht] Hv. split; cbn; [by apply assoc_set_NoDup|by apply assoc_set_Forall].
Qed.

(** [setAttributes] keeps the keys and takes the other object's value on the
    common ones. *)
Lemma setAttributes_spec d other :
  NoDup (fields_ other).*1 ->
  (fields_ (setAttributes d other)).*1 = (fields_ d).*1 /\
  forall i, assoc_find i (fields_ (setAttributes d other)) =
    match assoc_find i (fields_ d) with
    | None => None
    | Some v => Some (default v (assoc_find i (fields_ other)))
    end.
Proof.
  unfold setAttributes. cbn. generalize (fields_ d) as f.
  induction (fields_ other) as [|[k w] l IH]; intros f Hnd; cbn.
  - split; [done|]. intros i. by destruct (assoc_find i f).
  - apply NoDup_cons in Hnd as [Hk Hnd].
    destruct (assoc_find k f) as [v|] eqn:E.
    + destruct (IH (assoc_set k w f) Hnd) as [IH1 IH2]. split.
      * rewrite IH1. apply assoc_set_keys.
        destruct (decide (k ∈ f.*1)) as [|Hn]; [done|].
        apply assoc_find_None in Hn. congruence.
      * intros i. rewrite IH2, assoc_find_set. case_decide; [subst|done].
        cbn in Hk. apply assoc_find_None in Hk. by rewrite E, Hk.
    + destruct (IH f Hnd) as [IH1 IH2]. split; [done|].
      intros i. rewrite IH2. destruct (assoc_find i f) eqn:Ei; [|done].
      rewrite decide_False by congruence. done.
Qed.

Lemma setAttributes_typed d other :
  well_typed d -> well_typed other -> schema_ d = schema_ other -> well_typed (setAttributes d other).
Proof.
  intros [Hnd Ht] [Hndo Hto] Hs. split.
  - by rewrite (proj1 (setAttributes_spec d other Hndo)).
  - unfold setAttributes. cbn. rewrite Hs in *. clear Hnd Hndo.
    generalize dependent (fields_ d). induction Hto as [|[k w] l Hk Hl IH]; intros f Hf; [done|].
    cbn. apply IH. destruct (assoc_find k f); [|done]. by apply assoc_set_Forall.
Qed.

(** ** Properties *)

(** C28: the wire form of attribute data: writing well-typed data to an owned
    buffer succeeds, appends exactly the number of bytes [getSerializedSizeOf]
    announces, and reading them into any object of the same schema that
    traverses the same keys in the same order gives the data back and leaves
    the bytes that follow. *)
Theorem data_roundtrip (d d0 : AttributeData) (b : NetworkByteBuffer) (bs rest : list Z) (c : Z) :
  well_typed d -> schema_ d0 = schema_ d -> (fields_ d0).*1 = (fields_ d).*1 ->
  holds b bs -> growable b -> ocursor b = c ->
  Z.of_nat (length bs + length (enc_data d)) < 2 ^ 32 ->
  getSerializedSizeOf d = Ret (Z.of_nat (length (enc_data d))) /\
  (exists b', put_data d b = Ret b' /\ holds b' (bs ++ enc_data d) /\ ocursor b' = c) /\
  (forall br, unread br (enc_data d ++ rest) ->
     exists br', get_data d0 br = Ret (d, br') /\ unread br' rest).
Proof.
  intros Hwt Hs Hk Hb Hg Hc Hlen. split_and!.
  - rewrite getSerializedSizeOf_ok by done. by rewrite u64_id by lia.
  - destruct (put_data_ok d b bs) as (b' & H1 & H2 & _ & H3); [done..|apply Hwt|lia|].
    exists b'. split_and!; congruence.
  - intros br Hu. by apply get_data_ok.
Qed.

Definition example_schema : Schema := new_schema [("weight", INT64); ("tag", STRING)].
Definition example_data : AttributeData := mkData [(0, VInt (-5)); (1, VString "hi")] example_schema.

Lemma example_data_typed : well_typed example_data.
Proof.
  split; [cbn; repeat constructor; set_solver|].
  repeat constructor; eexists; split; (reflexivity || (cbn; lia)).
Qed.

Lemma data_roundtrip_witness :
  well_typed example_data /\
  (getSerializedSizeOf example_data = Ret (Z.of_nat (length (enc_data example_data))) /\
   (exists b', put_data example_data new_default = Ret b' /\ holds b' ([] ++ enc_data example_data) /\
      ocursor b' = 0) /\
   (forall br, unread br (enc_data example_data ++ [7]) ->
      exists br', get_data (newAttributeData example_schema) br = Ret (example_data, br') /\ unread br' [7])).
Proof.
  split; [exact example_data_typed|].
  apply (data_roundtrip example_data (newAttributeData example_schema) new_default [] [7] 0).
  - exact example_data_typed.
  - reflexivity.
  - reflexivity.
  - exact holds_new_default.
  - split; [reflexivity|vm_compute; discriminate].
  - reflexivity.
  - cbn. lia.
Defined.

(** The wire form carries no keys, so it is not invariant under
    [operator==]: two objects with the same fields in different traversal
    orders are equal for [operator==] and serialize to different bytes, and
    reading one's bytes through the other swaps the fields. *)
Theorem wire_order_matters :
  let s := new_schema [("a", INT64); ("b", INT64)] in
  let d1 := mkData [(0, VInt 1); (1, VInt 2)] s in
  let d2 := mkData [(1, VInt 2); (0, VInt 1)] s in
  data_eqb d1 d2 = true /\ data_equiv d1 d2 /\ enc_data d1 <> enc_data d2 /\
  exists b, unread b (enc_data d1) /\
    (p ← get_data d2 b; Ret (fields_ p.1)) = Ret [(1, VInt 1); (0, VInt 2)].
Proof.
  cbv zeta. split_and!.
  - reflexivity.
  - split; [done|]. cbn. constructor 3.
  - discriminate.
  - exists (of_bytes (enc_data (mkData [(0, VInt 1); (1, VInt 2)] (new_schema [("a", INT64); ("b", INT64)])))).
    split; [apply unread_of_bytes; concrete|]. vm_compute. reflexivity.
Qed.

(** C37: construction, assignment and merging keep every field of the type its
    schema declares: default data is well typed on any schema without
    [UNDEFINED] attributes, so is the data built on a subset of the names, and
    [setAttribute] with a value of the declared type and [setAttributes]
    preserve it. *)
Theorem data_typing (s : Schema) :
  defined_schema s ->
  well_typed (newAttributeData s) /\
  (forall names d, newAttributeData_of s names = Ret d -> well_typed d /\ schema_ d = s) /\
  (forall d i v, well_typed d -> typed_field (schema_ d) (i, v) -> well_typed (setAttribute d i v)) /\
  (forall d other, well_typed d -> well_typed other -> schema_ d = schema_ other ->
     well_typed (setAttributes d other) /\ (fields_ (setAttributes d other)).*1 = (fields_ d).*1).
Proof.
  intros Hs. split_and!.
  - by apply newAttributeData_typed.
  - intros names d. by apply newAttributeData_of_typed.
  - intros d i v. apply setAttribute_typed.
  - intros d other Hd Ho He. split; [by apply setAttributes_typed|].
    apply setAttributes_spec, Ho.
Qed.

Lemma data_typing_witness :
  defined_schema example_schema /\ well_typed (newAttributeData example_schema) /\
  well_typed (setAttribute (newAttributeData example_schema) 1 (VString "x")).
Proof.
  assert (defined_schema example_schema) as Hs.
  { split; [apply new_schema_ok|]. repeat constructor; discriminate. }
  destruct (data_typing example_schema Hs) as (H1 & _ & H3 & _).
  split; [exact Hs|]. split; [exact H1|]. apply H3; [exact H1|].
  exists (mkAttribute 1 "tag" STRING). split; [reflexivity|cbn; lia].
Defined.
