(* ===== verification/MetaData.v ===== *)
(** * Schema statistics and the metadata file

    common/SchemaStats.h (how many values of each attribute were seen, and
    their total size), core/MetaDataManager.h and MetaManager.cpp (the file
    that keeps them with the next block identifier). *)

From Stdlib Require Import ZArith Lia.
From stdpp Require Import base numbers gmap strings list sorting pretty.
From S2P Require Import Prelude.
From S2P Require Import Double.
From S2P Require Import NetworkByteBuffer.

(** ** SchemaStats *)

(** [indexToCountAndBytes_], in iteration order. *)
Abbreviation SchemaStats := (list (Z * (Z * double))).

Definition getAvgSize (stats : SchemaStats) (index : Z) : outcome double :=
  match assoc_find index stats with
  | None => Throw (runtime_error ("SchemaStats index " +:+ pretty index +:+ " not found."))
  | Some (count, bytes) =>
      if count =? 0 then Ret dzero else Ret (ddiv bytes (dofZ count))
  end.

Definition incrCountAndBytes (stats : SchemaStats) (index : Z) (bytes : double) : SchemaStats :=
  match assoc_find index stats with
  | None => assoc_set index (1, bytes) stats
  | Some (count, total) => assoc_set index (u32 (count + 1), dadd total bytes) stats
  end.

Definition put_stats (stats : SchemaStats) (sbuf : NetworkByteBuffer) : outcome NetworkByteBuffer :=
  sbuf ← addUInt32 (u32 (Z.of_nat (length stats))) sbuf;
  foldM (fun sbuf p =>
    sbuf ← addUInt32 p.1 sbuf;
    sbuf ← addUInt32 p.2.1 sbuf;
    addDouble p.2.2 sbuf) sbuf stats.

(** [while (numStats)]: the counter decreases at each turn. *)
Fixpoint get_stats_loop (numStats : nat) (stats : SchemaStats) (sbuf : NetworkByteBuffer)
  : outcome (SchemaStats * NetworkByteBuffer) :=
  match numStats with
  | O => Ret (stats, sbuf)
  | S numStats =>
      '(index, sbuf) ← getUInt32 sbuf;
      '(count, sbuf) ← getUInt32 sbuf;
      '(bytes, sbuf) ← getDouble sbuf;
      get_stats_loop numStats (assoc_set index (count, bytes) stats) sbuf
  end.

Definition get_stats (stats : SchemaStats) (sbuf : NetworkByteBuffer)
  : outcome (SchemaStats * NetworkByteBuffer) :=
  '(numStats, sbuf) ← getUInt32 sbuf;
  get_stats_loop (Z.to_nat numStats) stats sbuf.

(** ** MetaDataManager *)

Record MetaDataManager := mkMeta { nextBlockId_ : Z; schemaStats_ : SchemaStats }.

(** The content of the metadata file, [None] when it does not exist. *)
Abbreviation File := (option (list Z)).

(** The bytes written to the file; [is_open] says whether it could be opened. *)
Definition store (m : MetaDataManager) (is_open : bool) (path : string) : outcome (list Z) :=
  buf ← addUInt64 (nextBlockId_ m) new_default;
  buf ← put_stats (schemaStats_ m) buf;
  if negb is_open then Throw (runtime_error ("Could not open file: " +:+ path))
  else slice buf.

(** [NetworkByteBuffer buf(size); file.read(buf.getPtr(), size)]: the bytes are
    stored without moving the input cursor. *)
Definition read_file (content : list Z) : NetworkByteBuffer :=
  mkBuffer true (Some <$> content) (Z.of_nat (length content)) 0 0.

Definition load (m : MetaDataManager) (file : File) (is_open : bool) (path : string)
  : outcome MetaDataManager :=
  match file with
  | None => Ret m
  | Some content =>
      if negb is_open then Throw (runtime_error ("Could not open file: " +:+ path))
      else
        '(next, buf) ← getUInt64 (read_file content);
        '(stats, _) ← get_stats (schemaStats_ m) buf;
        Ret (mkMeta next stats)
  end.

Definition newMetaDataManager (file : File) (is_open : bool) (path : string)
  : outcome MetaDataManager := load (mkMeta 0 []) file is_open path.

(** ** Well-formed statistics *)

Definition stat_ok (p : Z * (Z * double)) : Prop :=
  is_u32 p.1 /\ is_u32 p.2.1 /\ is_u64 p.2.2.

Definition stats_ok (stats : SchemaStats) : Prop :=
  NoDup stats.*1 /\ Forall stat_ok stats.

(** The triples of the wire form as a codec. *)
Definition stat_codec : Codec (Z * (Z * double)) :=
  pair_codec uint32 (pair_codec uint32 float64).

#[export] Instance stat_codec_ok : CodecOk stat_codec.
Proof. repeat first [apply pair_ok | apply uint32_ok | apply float64_ok]. Qed.

Lemma stat_ok_valid l : Forall stat_ok l -> Forall (valid stat_codec) l.
Proof. intros Hl. eapply Forall_impl; [exact Hl|]. by intros [i [c d]]. Qed.

Lemma put_stats_vector stats b : put_stats stats b = put_vector stat_codec stats b.
Proof.
  unfold put_stats, put_vector. destruct (addUInt32 _ b) as [b1| | |]; cbn; try done.

Qed.

Lemma get_stats_loop_ok l stats b rest :
  unread b (enc_list stat_codec l ++ rest) -> Forall stat_ok l ->
  exists b', get_stats_loop (length l) stats b =
      Ret (foldl (fun s p => assoc_set p.1 p.2 s) stats l, b') /\ unread b' rest.
Proof.
  intros Hu Hl. revert stats b Hu. induction Hl as [|[i [c d]] l (Hi & Hc & Hd) Hl IH]; intros stats b Hu.
  - cbn. eauto.
  - unfold enc_list in *. cbn [fmap list_fmap concat] in Hu.
    change (enc stat_codec (i, (c, d))) with (enc uint32 i ++ enc uint32 c ++ enc float64 d) in Hu.
    rewrite <- !app_assoc in Hu. cbn [length get_stats_loop].
    destruct (get_ok (c := uint32) i b _ Hu Hi) as (b1 & E1 & Hu1). cbn in E1. rewrite E1. cbn.
    destruct (get_ok (c := uint32) c b1 _ Hu1 Hc) as (b2 & E2 & Hu2). cbn in E2. rewrite E2. cbn.
    destruct (get_ok (c := float64) d b2 _ Hu2 Hd) as (b3 & E3 & Hu3). cbn in E3. rewrite E3. cbn.
    by apply IH.
Qed.

(** Reading entries with distinct keys into an empty map gives them in order. *)
Lemma foldl_assoc_set_fresh {V} (l : list (Z * V)) :
  forall acc, NoDup (acc ++ l).*1 -> foldl (fun s p => assoc_set p.1 p.2 s) acc l = acc ++ l.
Proof.
  induction l as [|[k v] l IH]; intros acc Hnd; cbn; [by rewrite app_nil_r|].
  rewrite assoc_set_new.
  - rewrite IH by (by rewrite <- app_assoc). by rewrite <- app_assoc.
  - rewrite fmap_app in Hnd. apply NoDup_app in Hnd as (_ & Hn & _).
    intros Hk. apply (Hn k Hk). cbn. set_solver.
Qed.

Lemma get_stats_ok stats b rest :
  unread b (enc (vector stat_codec) stats ++ rest) -> stats_ok stats ->
  Z.of_nat (length stats) < 2 ^ 32 ->
  exists b', get_stats [] b = Ret (stats, b') /\ unread b' rest.
Proof.
  intros Hu [Hnd Hok] Hlen. cbn [enc vector] in Hu. rewrite <- app_assoc in Hu. unfold get_stats.
  destruct (get_ok (c := uint32) (Z.of_nat (length stats)) b _ Hu) as (b1 & E1 & Hu1); [cbn; lia|].
  cbn in E1. rewrite E1. cbn [mbind outcome_bind]. rewrite Nat2Z.id.
  destruct (get_stats_loop_ok stats [] b1 rest Hu1 Hok) as (b2 & -> & Hu2).
  rewrite foldl_assoc_set_fresh by done. eauto.
Qed.

(** ** Reading without an input cursor

    Reading operations ignore the input cursor and who owns the array, so a
    buffer filled from outside reads like one that was written to. *)

Definition reframe (own : bool) (i : Z) (b : NetworkByteBuffer) : NetworkByteBuffer :=
  setAutoDealloc own (setICursor i b).

Definition cursor_blind {A} (g : NetworkByteBuffer -> outcome (A * NetworkByteBuffer)) : Prop :=
  forall own i b, g (reframe own i b) = (fun p => (p.1, reframe own i p.2)) <$> g b.

Lemma read_blind n : cursor_blind (read n).
Proof. intros own i b. unfold read. cbn. case_match; [|done]. by destruct (mapM _ _). Qed.

Lemma bind_blind {A B} g (f : A -> NetworkByteBuffer -> outcome (B * NetworkByteBuffer)) :
  cursor_blind g -> (forall a, cursor_blind (f a)) ->
  cursor_blind (fun b => '(a, b1) ← g b; f a b1).
Proof.
  intros Hg Hf own i b. rewrite Hg. destruct (g b) as [[a b1]| | |]; cbn; try done. apply Hf.
Qed.

Lemma ret_blind {A} (a : A) : cursor_blind (fun b => Ret (a, b)).
Proof. done. Qed.

Lemma get_fixed_blind n : cursor_blind (get_fixed n).
Proof. apply bind_blind; [apply read_blind|intros; apply ret_blind]. Qed.

Lemma get_stats_loop_blind n : forall stats, cursor_blind (get_stats_loop n stats).
Proof.
  induction n as [|n IH]; intros stats; [apply ret_blind|]. cbn [get_stats_loop].
  apply bind_blind; [apply get_fixed_blind|intros i].
  apply bind_blind; [apply get_fixed_blind|intros c].
  apply bind_blind; [apply get_fixed_blind|intros d]. apply IH.
Qed.

Lemma get_stats_blind stats : cursor_blind (get_stats stats).
Proof. apply bind_blind; [apply get_fixed_blind|intros n; apply get_stats_loop_blind]. Qed.

Lemma read_file_of_bytes l : read_file l = reframe true 0 (of_bytes l).
Proof. done. Qed.

Definition meta_ok (m : MetaDataManager) : Prop :=
  is_u64 (nextBlockId_ m) /\ stats_ok (schemaStats_ m) /\ Z.of_nat (length (schemaStats_ m)) < 2 ^ 27.

Definition enc_meta (m : MetaDataManager) : list Z :=
  be 8 (nextBlockId_ m) ++ enc (vector stat_codec) (schemaStats_ m).

Lemma length_enc_stats l : length (enc_list stat_codec l) = (16 * length l)%nat.
Proof.
  unfold enc_list. induction l as [|[i [c d]] l IH]; [done|].
  cbn [fmap list_fmap concat]. rewrite length_app, IH.
  cbn [enc stat_codec pair_codec uint32 float64 scalar]. autorewrite with railway. cbn [length]. lia.
Qed.

Lemma store_ok m path : meta_ok m -> store m true path = Ret (enc_meta m).
Proof.
  intros (Hn & [Hnd Hok] & Hlen). unfold store, enc_meta.
  pose proof (length_enc_stats (schemaStats_ m)) as Hl.
  destruct (put_ok (c := uint64) (nextBlockId_ m) new_default []) as (b1 & E1 & Hb1 & Hg1 & _);
    [apply holds_new_default|by split|done| |].
  { cbn [enc uint64 scalar]. rewrite length_be. cbn. lia. }
  cbn [put enc uint64 scalar] in *. rewrite E1. cbn [mbind outcome_bind app].
  rewrite put_stats_vector.
  destruct (put_ok (c := vector stat_codec) (schemaStats_ m) b1 _ Hb1 Hg1) as (b2 & E2 & Hb2 & _).
  { split; [lia|by apply stat_ok_valid]. }
  { cbn [enc vector app]. autorewrite with railway. lia. }
  cbn [put vector] in E2. rewrite E2. cbn [mbind outcome_bind negb]. by apply slice_holds.
Qed.

Lemma load_ok m path : meta_ok m -> load (mkMeta 0 []) (Some (enc_meta m)) true path = Ret m.
Proof.
  intros (Hn & Hs & Hlen). unfold load. cbn [negb].
  assert (Z.of_nat (length (enc_meta m)) < 2 ^ 64) as Hl.
  { unfold enc_meta. cbn [enc vector]. autorewrite with railway. rewrite length_enc_stats. lia. }
  rewrite read_file_of_bytes.
  pose proof (unread_of_bytes _ Hl) as Hu. unfold enc_meta at 2 in Hu.
  destruct (get_ok (c := uint64) (nextBlockId_ m) _ _ Hu Hn) as (b1 & E1 & Hu1).
  cbn [get uint64 scalar] in E1. unfold getUInt64 in *. rewrite (get_fixed_blind 8 true 0), E1. cbn [fmap outcome_fmap mbind outcome_bind fst snd].
  rewrite <- (app_nil_r (enc _ _)) in Hu1.
  destruct (get_stats_ok _ b1 [] Hu1 Hs ltac:(lia)) as (b2 & E2 & _).
  cbn [schemaStats_]. rewrite get_stats_blind, E2. by destruct m.
Qed.

(** ** Properties *)

(** C34: the metadata survive a restart: the bytes [store] writes, loaded by
    the constructor of the next run, give the same next block identifier and
    the same statistics; without a file the constructor starts from zero; a
    file that cannot be opened raises the exception in both directions. *)
Theorem metadata_restart (m : MetaDataManager) (path : string) :
  meta_ok m ->
  (content ← store m true path; newMetaDataManager (Some content) true path) = Ret m /\
  newMetaDataManager None true path = Ret (mkMeta 0 []) /\
  store m false path = Throw (runtime_error ("Could not open file: " +:+ path)) /\
  forall content, newMetaDataManager (Some content) false path =
    Throw (runtime_error ("Could not open file: " +:+ path)).
Proof.
  intros Hm. split_and!; [|done| |done].
  - rewrite store_ok by done. cbn [mbind outcome_bind]. by apply load_ok.
  - pose proof (store_ok m path Hm) as H. unfold store in *.
    destruct (addUInt64 (nextBlockId_ m) new_default) as [b| | |];
      cbn [mbind outcome_bind negb] in *; [|discriminate H..].
    destruct (put_stats (schemaStats_ m) b) as [b'| | |];
      cbn [mbind outcome_bind negb] in *; [reflexivity|discriminate H..].
Qed.

Lemma metadata_restart_witness :
  meta_ok (mkMeta 7 [(0, (2, dofZ 16)); (1, (1, dofZ 5))]) /\
  (content ← store (mkMeta 7 [(0, (2, dofZ 16)); (1, (1, dofZ 5))]) true "f";
   newMetaDataManager (Some content) true "f") = Ret (mkMeta 7 [(0, (2, dofZ 16)); (1, (1, dofZ 5))]).
Proof.
  assert (meta_ok (mkMeta 7 [(0, (2, dofZ 16)); (1, (1, dofZ 5))])) as H.
  { split; [by vm_compute|]. split; [split|done].
    - cbn. repeat constructor; set_solver.
    - apply Forall_cons_2; [|apply Forall_cons_2; [|apply Forall_nil_2]]; by vm_compute. }
  split; [exact H|]. apply (proj1 (metadata_restart _ "f" H)).
Defined.

(** Recording the sizes of a sequence of values. *)
Definition record_all (stats : SchemaStats) (l : list (Z * double)) : SchemaStats :=
  foldl (fun s p => incrCountAndBytes s p.1 p.2) stats l.

Definition sizes_of (index : Z) (l : list (Z * double)) : list double :=
  (filter (fun p => p.1 = index) l).*2.

Lemma incr_find stats index bytes i :
  assoc_find i (incrCountAndBytes stats index bytes) =
    if decide (i = index) then
      Some match assoc_find index stats with
           | None => (1, bytes)
           | Some (c, t) => (u32 (c + 1), dadd t bytes)
           end
    else assoc_find i stats.
Proof.
  unfold incrCountAndBytes. destruct (assoc_find index stats) as [[c t]|];
    rewrite assoc_find_set; by case_decide.
Qed.

Lemma incr_NoDup stats index bytes : NoDup stats.*1 -> NoDup (incrCountAndBytes stats index bytes).*1.
Proof. intros H. unfold incrCountAndBytes. repeat case_match; by apply assoc_set_NoDup. Qed.

Lemma sizes_of_cons i p l :
  sizes_of i (p :: l) = if decide (p.1 = i) then p.2 :: sizes_of i l else sizes_of i l.
Proof. unfold sizes_of. rewrite filter_cons. by case_decide. Qed.

Lemma record_all_from stats l i c t :
  assoc_find i stats = Some (c, t) ->
  assoc_find i (record_all stats l) =
    Some (if decide (sizes_of i l = []) then c else u32 (c + Z.of_nat (length (sizes_of i l))),
          foldl dadd t (sizes_of i l)).
Proof.
  revert stats c t. unfold record_all. induction l as [|[k x] l IH]; intros stats c t Hf; [done|].
  cbn [foldl]. rewrite sizes_of_cons. cbn. destruct (decide (k = i)) as [->|Hne].
  - rewrite (IH _ (u32 (c + 1)) (dadd t x)).
    + cbn [foldl]. rewrite (decide_False (P := x :: _ = [])) by done. f_equal. f_equal.
      case_decide as E; [by rewrite E|]. unfold u32. rewrite Z.add_mod_idemp_l by lia.
      f_equal. cbn [length]. lia.
    + by rewrite incr_find, decide_True, Hf by done.
  - apply IH. by rewrite incr_find, decide_False by done.
Qed.

(** What the statistics record.  After any sequence of values, an
    attribute that was seen [n] times has the count [n] (modulo 2^32) and the
    left-to-right floating-point sum of its sizes, its average is their
    quotient (and 0 when the counter has wrapped to zero), and asking for an
    attribute that was never seen raises the exception. *)
Theorem stats_recorded (l : list (Z * double)) (i : Z) :
  match sizes_of i l with
  | [] => getAvgSize (record_all [] l) i =
            Throw (runtime_error ("SchemaStats index " +:+ pretty i +:+ " not found."))
  | x :: xs =>
      let n := u32 (Z.of_nat (S (length xs))) in
      assoc_find i (record_all [] l) = Some (n, foldl dadd x xs) /\
      getAvgSize (record_all [] l) i =
        Ret (if n =? 0 then dzero else ddiv (foldl dadd x xs) (dofZ n))
  end.
Proof.
  assert (forall stats, assoc_find i stats = None ->
    assoc_find i (record_all stats l) =
      match sizes_of i l with
      | [] => None
      | x :: xs => Some (u32 (Z.of_nat (S (length xs))), foldl dadd x xs)
      end) as H.
  { induction l as [|[k x] l IH]; intros stats Hs; [done|].
    rewrite sizes_of_cons. cbn. destruct (decide (k = i)) as [->|Hne].
    - unfold record_all. cbn [foldl]. fold (record_all (incrCountAndBytes stats i x) l).
      rewrite (record_all_from _ l i 1 x); cbn.
      + f_equal. f_equal. case_decide as E; [by rewrite E|]. f_equal. lia.
      + by rewrite incr_find, decide_True, Hs by done.
    - apply IH. by rewrite incr_find, decide_False by done. }
  specialize (H [] eq_refl). destruct (sizes_of i l) as [|x xs].
  - unfold getAvgSize. by rewrite H.
  - split; [done|]. unfold getAvgSize. rewrite H. by case_match.
Qed.
