(* ===== verification/NeighborList.v ===== *)
(** * Neighbor lists, edges and the edge window

    core/NeighborList.h, NeighborList.cpp, Edge.h and EdgeFIFO.h.  A
    [shared_ptr<AttributeData>] is an address with the data it points to: the
    program compares such pointers and shares the objects, and never modifies
    an object once it is shared. *)

From Stdlib Require Import ZArith Lia.
From stdpp Require Import base numbers gmap strings list sorting.
From S2P Require Import Prelude.
From S2P Require Import Double.
From S2P Require Import Schema.
From S2P Require Import AttributeData.

Abbreviation Timestamp := double.
Abbreviation VertexId := Z.

Record SharedData := mkShared { addr : Z; cell : AttributeData }.

#[export] Instance SharedData_eq_dec : EqDecision SharedData.
Proof. solve_decision. Defined.

(** ** [std::lower_bound]

    The binary search of the library: the length halves, [before] is the test
    [*mid < value]. *)

Fixpoint lower_bound_loop {A} (fuel : nat) (before : A -> bool) (l : list A) (first len : nat) : nat :=
  match fuel with
  | O => first
  | S fuel =>
      match len with
      | O => first
      | _ =>
          let half := (len / 2)%nat in
          match l !! (first + half)%nat with
          | Some x =>
              if before x then lower_bound_loop fuel before l (first + half + 1) (len - half - 1)
              else lower_bound_loop fuel before l first half
          | None => first
          end
      end
  end.

Definition lower_bound {A} (before : A -> bool) (l : list A) : nat :=
  lower_bound_loop (S (length l)) before l 0 (length l).

(** On a range partitioned by the test, the search stops at the border. *)
Lemma lower_bound_loop_spec {A} (before : A -> bool) l k fuel first len :
  (forall i x, l !! i = Some x -> before x = true <-> (i < k)%nat) ->
  (first <= k <= first + len)%nat -> (first + len <= length l)%nat -> (len < fuel)%nat ->
  lower_bound_loop fuel before l first len = k.
Proof.
  intros Hk. revert first len. induction fuel as [|fuel IH]; intros first len Hb Hl Hf; [lia|].
  cbn [lower_bound_loop]. destruct len as [|len']; [lia|].
  set (len := S len') in *. set (half := (len / 2)%nat).
  assert (half < len)%nat by (apply Nat.div_lt; lia).
  destruct (lookup_lt_is_Some_2 l (first + half)) as [x Hx]; [lia|]. rewrite Hx.
  pose proof (Hk _ _ Hx) as Hp.
  destruct (before x); apply IH; lia.
Qed.

Lemma lower_bound_spec {A} (before : A -> bool) l k :
  (k <= length l)%nat ->
  (forall i x, l !! i = Some x -> before x = true <-> (i < k)%nat) ->
  lower_bound before l = k.
Proof. intros Hle Hk. apply lower_bound_loop_spec; auto; lia. Qed.

Lemma lower_bound_loop_le {A} (before : A -> bool) l fuel first len :
  (first + len <= length l)%nat -> (lower_bound_loop fuel before l first len <= first + len)%nat.
Proof.
  revert first len. induction fuel as [|fuel IH]; intros first len Hl; cbn [lower_bound_loop]; [lia|].
  destruct len as [|len']; [lia|]. set (len := S len') in *. set (half := (len / 2)%nat).
  assert (half < len)%nat by (apply Nat.div_lt; lia).
  case_match; [|lia]. case_match.
  - pose proof (IH (first + half + 1) (len - half - 1) ltac:(lia))%nat. lia.
  - pose proof (IH first half ltac:(lia))%nat. lia.
Qed.

Lemma lower_bound_le {A} (before : A -> bool) l : (lower_bound before l <= length l)%nat.
Proof. apply (lower_bound_loop_le before l _ 0). lia. Qed.

(** ** NeighborList *)

Record NLEdge := mkNLEdge { toVertex_ : VertexId; tm_ : Timestamp; data_ : SharedData }.

#[export] Instance NLEdge_eq_dec : EqDecision NLEdge.
Proof. solve_decision. Defined.

Record NeighborList := mkNeighborList { headVertex_ : VertexId; edges_ : list NLEdge }.

#[export] Instance NeighborList_eq_dec : EqDecision NeighborList.
Proof. solve_decision. Defined.

Definition set_headVertex (v : VertexId) (l : NeighborList) : NeighborList := mkNeighborList v (edges_ l).
Definition addEdge (e : NLEdge) (l : NeighborList) : NeighborList :=
  mkNeighborList (headVertex_ l) (edges_ l ++ [e]).
Definition getNthOldestEdge (l : NeighborList) (n : nat) : outcome NLEdge := or_undefined (edges_ l !! n).
Definition getOldestEdge (l : NeighborList) : outcome NLEdge := or_undefined (head (edges_ l)).
Definition getNewestEdge (l : NeighborList) : outcome NLEdge := or_undefined (last (edges_ l)).
Definition removeOldestEdge (l : NeighborList) : NeighborList :=
  mkNeighborList (headVertex_ l) (tail (edges_ l)).
Definition removeNewestEdge (l : NeighborList) : NeighborList :=
  mkNeighborList (headVertex_ l) (take (pred (length (edges_ l))) (edges_ l)).

(** The [for] loop: stop at the first edge of another time. *)
Fixpoint scan_time (to : VertexId) (tm : Timestamp) (l : list NLEdge) : option NLEdge :=
  match l with
  | [] => None
  | e :: l' =>
      if deqb (tm_ e) tm then
        if toVertex_ e =? to then Some e else scan_time to tm l'
      else None
  end.

Definition getEdgeAttributeData (l : NeighborList) (to : VertexId) (tm : Timestamp) : option SharedData :=
  let it := lower_bound (fun e => dltb (tm_ e) tm) (edges_ l) in
  data_ <$> scan_time to tm (drop it (edges_ l)).

Definition hasEdgesInRange (l : NeighborList) (start endt : Timestamp) : bool :=
  match edges_ l !! lower_bound (fun e => dltb (tm_ e) start) (edges_ l) with
  | None => false
  | Some e => if dleb endt (tm_ e) then false else true
  end.

(** ** The window of edges *)

Record UEdge := mkUEdge { v_ : VertexId; u_ : VertexId; uedge_tm_ : Timestamp }.

#[export] Instance UEdge_eq_dec : EqDecision UEdge.
Proof. solve_decision. Defined.

Record EdgeFIFO := mkFIFO { windowSize_ : Z; fifo_edges_ : list UEdge }.

Definition new_EdgeFIFO (windowSize : Z) : EdgeFIFO := mkFIFO windowSize [].
Definition fifo_addEdge (e : UEdge) (f : EdgeFIFO) : EdgeFIFO :=
  mkFIFO (windowSize_ f) (fifo_edges_ f ++ [e]).
Definition fifo_isEmpty (f : EdgeFIFO) : bool := match fifo_edges_ f with [] => true | _ => false end.
Definition hasExpiredEdges (f : EdgeFIFO) : bool := windowSize_ f <? Z.of_nat (length (fifo_edges_ f)).
Definition fifo_getOldestEdge (f : EdgeFIFO) : outcome UEdge := or_undefined (head (fifo_edges_ f)).
Definition popOldestEdge (f : EdgeFIFO) : EdgeFIFO := mkFIFO (windowSize_ f) (tail (fifo_edges_ f)).

(** ** Lists in time order *)

(** Edges are added as time passes: times are numbers and do not decrease. *)
Definition chronological (l : list NLEdge) : Prop :=
  Forall (fun e => num (tm_ e)) l /\ StronglySorted (fun e e' => dkey (tm_ e) <= dkey (tm_ e')) l.

Lemma chronological_snoc l e :
  chronological l -> num (tm_ e) ->
  (forall e', e' ∈ l -> dkey (tm_ e') <= dkey (tm_ e)) -> chronological (l ++ [e]).
Proof.
  intros [Hn Hs] He Hle. split.
  - apply Forall_app. auto using Forall_cons_2, Forall_nil_2.
  - apply StronglySorted_app_2; [|done|repeat constructor].
    intros x y Hx Hy. apply list_elem_of_singleton in Hy as ->. auto.
Qed.

Lemma chronological_app l1 l2 : chronological (l1 ++ l2) -> chronological l1 /\ chronological l2.
Proof.
  intros [Hn Hs]. apply Forall_app in Hn as [? ?].
  apply StronglySorted_app in Hs as (_ & ? & ?). by split.
Qed.

(** A list sorted by time is partitioned by "before [t]". *)
Lemma chronological_split l t :
  chronological l -> num t ->
  exists l1 l2, l = l1 ++ l2 /\ lower_bound (fun e => dltb (tm_ e) t) l = length l1 /\
    Forall (fun e => dkey (tm_ e) < dkey t) l1 /\ Forall (fun e => dkey t <= dkey (tm_ e)) l2.
Proof.
  intros [Hn Hs] Ht.
  assert (exists l1 l2, l = l1 ++ l2 /\
    Forall (fun e => dkey (tm_ e) < dkey t) l1 /\ Forall (fun e => dkey t <= dkey (tm_ e)) l2)
    as (l1 & l2 & -> & H1 & H2).
  { induction Hs as [|e l Hs IH He].
    - exists [], []. auto.
    - apply Forall_cons in Hn as [Hne Hn]. destruct (decide (dkey (tm_ e) < dkey t)).
      + destruct (IH Hn) as (l1 & l2 & -> & H1 & H2). exists (e :: l1), l2. auto.
      + exists [], (e :: l). split_and!; [done..|]. constructor; [lia|].
        eapply Forall_impl; [exact He|]. cbn. lia. }
  exists l1, l2. split_and!; try done. apply lower_bound_spec.
  - rewrite length_app. lia.
  - intros i e Hi. rewrite Forall_forall in Hn.
    rewrite dltb_num by (try done; apply Hn, list_elem_of_lookup; eauto).
    rewrite Z.ltb_lt. apply lookup_app_Some in Hi as [Hi|[Hge Hi]].
    + pose proof (lookup_lt_Some _ _ _ Hi).
      rewrite Forall_lookup in H1. pose proof (H1 i e Hi). lia.
    + rewrite Forall_lookup in H2. pose proof (H2 _ e Hi). cbn in *. lia.
Qed.

Lemma scan_time_Some to tm l e :
  scan_time to tm l = Some e -> e ∈ l /\ toVertex_ e = to /\ deqb (tm_ e) tm = true.
Proof.
  induction l as [|x l IH]; [done|]. cbn. destruct (deqb (tm_ x) tm) eqn:E; [|done].
  destruct (Z.eqb_spec (toVertex_ x) to).
  - intros [= ->]. split_and!; [left|done..].
  - intros H. destruct (IH H) as (? & ? & ?). split_and!; [by right|done..].
Qed.

Lemma scan_time_complete to tm l :
  StronglySorted (fun e e' => dkey (tm_ e) <= dkey (tm_ e')) l ->
  Forall (fun e => num (tm_ e)) l -> num tm -> Forall (fun e => dkey tm <= dkey (tm_ e)) l ->
  (exists e, e ∈ l /\ toVertex_ e = to /\ deqb (tm_ e) tm = true) ->
  is_Some (scan_time to tm l).
Proof.
  intros Hs Hn Ht Hge. induction Hs as [|x l Hs IH Hx].
  - intros (e & He & _). set_solver.
  - intros (e & He & Hto & Heq). cbn.
    apply Forall_cons in Hn as [Hnx Hn]. apply Forall_cons in Hge as [Hgx Hge].
    assert (dkey (tm_ x) <= dkey (tm_ e)) as Hle.
    { apply elem_of_cons in He as [->|He]; [done|]. rewrite Forall_forall in Hx. auto. }
    pose proof (deqb_eq _ _ Heq) as Hk.
    assert (deqb (tm_ x) tm = true) as ->.
    { rewrite deqb_num by done. apply Z.eqb_eq. lia. }
    destruct (Z.eqb_spec (toVertex_ x) to); [eauto|].
    apply elem_of_cons in He as [->|He]; [done|]. apply IH; eauto.
Qed.

(** The data a search returns belongs to an edge of the list, whatever the
    order of the list. *)
Lemma getEdgeAttributeData_Some l to tm d :
  getEdgeAttributeData l to tm = Some d ->
  exists e, e ∈ edges_ l /\ toVertex_ e = to /\ deqb (tm_ e) tm = true /\ data_ e = d.
Proof.
  unfold getEdgeAttributeData. intros (e & H & ->)%fmap_Some.
  apply scan_time_Some in H as (He & Hto & Htm). exists e. split_and!; try done.
  by eapply subseteq_drop.
Qed.

Lemma getEdgeAttributeData_is_Some l to tm :
  chronological (edges_ l) -> num tm ->
  is_Some (getEdgeAttributeData l to tm) <->
  exists e, e ∈ edges_ l /\ toVertex_ e = to /\ deqb (tm_ e) tm = true.
Proof.
  intros Hc Ht. split.
  - intros [d Hd]. apply getEdgeAttributeData_Some in Hd as (e & ? & ? & ? & _). eauto.
  - intros (e & He & Hto & Hq).
    destruct (chronological_split _ _ Hc Ht) as (l1 & l2 & El & Hlb & H1 & H2).
    unfold getEdgeAttributeData. rewrite Hlb, El, drop_app_length. apply fmap_is_Some.
    destruct Hc as [Hn Hs]. rewrite El in *. apply Forall_app in Hn as [_ Hn].
    apply StronglySorted_app in Hs as (_ & _ & Hs).
    apply scan_time_complete; try done. exists e. split_and!; try done.
    apply elem_of_app in He as [He|He]; [|done].
    rewrite Forall_forall in H1. apply H1 in He. apply deqb_eq in Hq. lia.
Qed.

Lemma hasEdgesInRange_ok l start endt :
  chronological (edges_ l) -> num start -> num endt ->
  hasEdgesInRange l start endt = true <->
  exists e, e ∈ edges_ l /\ dkey start <= dkey (tm_ e) < dkey endt.
Proof.
  intros Hc Hs He.
  destruct (chronological_split _ _ Hc Hs) as (l1 & l2 & El & Hlb & H1 & H2).
  unfold hasEdgesInRange. rewrite Hlb, El, lookup_app_r, Nat.sub_diag by done.
  destruct Hc as [Hn Hsort]. rewrite El in *. rewrite Forall_forall in H1, H2.
  apply StronglySorted_app in Hsort as (_ & _ & Hsort). rewrite Forall_forall in Hn.
  destruct l2 as [|e l2]; cbn [lookup list_lookup].
  - split; [done|]. intros (e & Hin & Hb). rewrite app_nil_r in Hin. apply H1 in Hin. cbn in *. lia.
  - rewrite dleb_num by (try done; apply Hn; set_solver).
    apply StronglySorted_inv in Hsort as [_ Hfirst]. rewrite Forall_forall in Hfirst.
    pose proof (H2 e ltac:(left)) as Hge. destruct (Z.leb_spec (dkey endt) (dkey (tm_ e))).
    + split; [done|]. intros (x & Hin & Hb). apply elem_of_app in Hin as [Hin|Hin].
      * apply H1 in Hin. cbn in *. lia.
      * apply elem_of_cons in Hin as [->|Hin]; [lia|]. apply Hfirst in Hin. lia.
    + split; [|done]. intros _. exists e. split; [set_solver|]. lia.
Qed.

(** ** Properties *)

(** C33: range queries over a neighbor list.  On a list in time order
    [hasEdgesInRange start end] holds exactly when an edge has its time in
    [start, end), and [getEdgeAttributeData to tm] finds data exactly when the
    list has an edge to that vertex at that time, and returns the data of such
    an edge. *)
Theorem neighbor_list_search (l : NeighborList) (start endt : Timestamp) (to : VertexId) :
  chronological (edges_ l) -> num start -> num endt ->
  (hasEdgesInRange l start endt = true <->
   exists e, e ∈ edges_ l /\ dkey start <= dkey (tm_ e) < dkey endt) /\
  (is_Some (getEdgeAttributeData l to start) <->
   exists e, e ∈ edges_ l /\ toVertex_ e = to /\ deqb (tm_ e) start = true) /\
  (forall d, getEdgeAttributeData l to start = Some d ->
   exists e, e ∈ edges_ l /\ toVertex_ e = to /\ deqb (tm_ e) start = true /\ data_ e = d).
Proof.
  intros Hc Hs He. split_and!.
  - by apply hasEdgesInRange_ok.
  - by apply getEdgeAttributeData_is_Some.
  - apply getEdgeAttributeData_Some.
Qed.

Lemma neighbor_list_search_witness :
  let d := mkShared 1 (newAttributeData empty_schema) in
  let l := mkNeighborList 1 [mkNLEdge 2 (dofZ 3) d; mkNLEdge 4 (dofZ 5) d] in
  (hasEdgesInRange l (dofZ 4) (dofZ 6) = true <->
   exists e, e ∈ edges_ l /\ dkey (dofZ 4) <= dkey (tm_ e) < dkey (dofZ 6)) /\
  hasEdgesInRange l (dofZ 4) (dofZ 6) = true.
Proof.
  cbv zeta. split; [|reflexivity].
  refine (proj1 (neighbor_list_search _ (dofZ 4) (dofZ 6) 2 _ _ _)).
  - split; repeat (apply Forall_cons_2 || apply Forall_nil_2 || apply SSorted_cons || apply SSorted_nil);
      by vm_compute.
  - by vm_compute.
  - by vm_compute.
Defined.
