(* ===== verification/PartitionIndex.v ===== *)
(** * Time-sliced partitionings and their index

    core/PartitionIndex.h and the look-ups of PartitionIndex.cpp.  The index is
    a LevelDB database whose keys are the end times of the slices, with a cache
    of slices.  The operations that also rewrite blocks are in
    PartitionUpdate.v. *)

From Stdlib Require Import ZArith Lia.
From stdpp Require Import base numbers gmap strings list sorting.
From S2P Require Import Prelude.
From S2P Require Import Double.
From S2P Require Import NetworkByteBuffer.
From S2P Require Import LevelDB.
From S2P Require Import Schema.
From S2P Require Import AttributeData.
From S2P Require Import NeighborList.

(** [vector<unordered_set<string>>]; a set is the list of its elements in
    iteration order. *)
Abbreviation Partitioning := (list (list string)).

Record TimeSlicedPartitioning := mkSlice {
  startTime_ : Timestamp; endTime_ : Timestamp; partitioning_ : Partitioning
}.

#[export] Instance TimeSlicedPartitioning_eq_dec : EqDecision TimeSlicedPartitioning.
Proof. solve_decision. Defined.

Definition default_slice : TimeSlicedPartitioning := mkSlice dninf dinf [].

(** ** The network form *)

Definition put_slice (t : TimeSlicedPartitioning) (sbuf : NetworkByteBuffer) : outcome NetworkByteBuffer :=
  sbuf ← addDouble (startTime_ t) sbuf;
  sbuf ← addDouble (endTime_ t) sbuf;
  sbuf ← addUInt32 (u32 (Z.of_nat (length (partitioning_ t)))) sbuf;
  foldM (fun sbuf attributes =>
    sbuf ← addUInt32 (u32 (Z.of_nat (length attributes))) sbuf;
    foldM (fun sbuf attribute => addSTLString attribute sbuf) sbuf attributes) sbuf (partitioning_ t).

Definition set_insert (x : string) (s : list string) : list string :=
  if decide (x ∈ s) then s else s ++ [x].

Fixpoint get_attributes (n : nat) (attributes : list string) (sbuf : NetworkByteBuffer)
  : outcome (list string * NetworkByteBuffer) :=
  match n with
  | O => Ret (attributes, sbuf)
  | S n => '(attribute, sbuf) ← getSTLString sbuf; get_attributes n (set_insert attribute attributes) sbuf
  end.

Fixpoint get_parts (n : nat) (partitioning : Partitioning) (sbuf : NetworkByteBuffer)
  : outcome (Partitioning * NetworkByteBuffer) :=
  match n with
  | O => Ret (partitioning, sbuf)
  | S n =>
      '(nAttributes, sbuf) ← getUInt32 sbuf;
      '(attributes, sbuf) ← get_attributes (Z.to_nat nAttributes) [] sbuf;
      get_parts n (partitioning ++ [attributes]) sbuf
  end.

(** [operator>>] overwrites the times and appends the parts to those the
    object already has. *)
Definition get_slice (t : TimeSlicedPartitioning) (sbuf : NetworkByteBuffer)
  : outcome (TimeSlicedPartitioning * NetworkByteBuffer) :=
  '(startTime, sbuf) ← getDouble sbuf;
  '(endTime, sbuf) ← getDouble sbuf;
  '(nParts, sbuf) ← getUInt32 sbuf;
  '(parts, sbuf) ← get_parts (Z.to_nat nParts) (partitioning_ t) sbuf;
  Ret (mkSlice startTime endTime parts, sbuf).

(** ** The cache

    [std::map<Timestamp, _>], in key order; an element of [lruList_] is a node
    with its own identity, which the iterators kept in the cache designate. *)

Record PartitioningAndIter := mkCached { cached_partitioning : TimeSlicedPartitioning; cached_iter : Z }.

Definition cache_lower_bound {V} (time : Timestamp) (m : list (Timestamp * V)) : option (Timestamp * V) :=
  list_find (fun p => dltb p.1 time = false) m ≫= fun p => Some p.2.

Definition cache_find {V} (k : Timestamp) (m : list (Timestamp * V)) : option V :=
  list_find (fun p => deqb p.1 k = true) m ≫= fun p => Some p.2.2.

Fixpoint cache_set {V} (k : Timestamp) (v : V) (m : list (Timestamp * V)) : list (Timestamp * V) :=
  match m with
  | [] => [(k, v)]
  | (k', v') :: m' =>
      if deqb k' k then (k', v) :: m'
      else if dltb k k' then (k, v) :: (k', v') :: m'
      else (k', v') :: cache_set k v m'
  end.

Definition cache_erase {V} (k : Timestamp) (m : list (Timestamp * V)) : list (Timestamp * V) :=
  filter (fun p => deqb p.1 k = false) m.

(** ** The index *)

Section Index.
Context {D : Type} `{LevelDB D}.

Record PartitionIndex := mkIndex {
  partitioningBufferSize_ : Z;
  lruList_ : list (Z * Timestamp);
  nextNode_ : Z;  (** supply of list node identities *)
  cache_ : list (Timestamp * PartitioningAndIter);
  edgeSchema_ : Schema;
  removedPartitionings_ : list TimeSlicedPartitioning;
  db_ : D
}.

Definition with_db (db : D) (p : PartitionIndex) : PartitionIndex :=
  mkIndex (partitioningBufferSize_ p) (lruList_ p) (nextNode_ p) (cache_ p) (edgeSchema_ p)
    (removedPartitionings_ p) db.

Definition with_cache (lru : list (Z * Timestamp)) (next : Z)
  (cache : list (Timestamp * PartitioningAndIter)) (p : PartitionIndex) : PartitionIndex :=
  mkIndex (partitioningBufferSize_ p) lru next cache (edgeSchema_ p) (removedPartitionings_ p) (db_ p).

Definition with_removed (removed : list TimeSlicedPartitioning) (p : PartitionIndex) : PartitionIndex :=
  mkIndex (partitioningBufferSize_ p) (lruList_ p) (nextNode_ p) (cache_ p) (edgeSchema_ p)
    removed (db_ p).

(** [lruList_.erase(iter)]: undefined when the iterator's element is gone. *)
Definition lru_erase (node : Z) (lru : list (Z * Timestamp)) : outcome (list (Z * Timestamp)) :=
  match assoc_find node lru with
  | Some _ => Ret (assoc_erase node lru)
  | None => Undefined
  end.

Definition lru_begin (lru : list (Z * Timestamp)) : option Z := fst <$> head lru.

(** The key of a slice: its end time. *)
Definition time_key (t : Timestamp) : outcome bytes :=
  keyBuf ← addDouble t (new_sized 8); slice keyBuf.

Definition addPartitioning (partitioning : TimeSlicedPartitioning) (p : PartitionIndex)
  : outcome PartitionIndex :=
  key ← time_key (endTime_ partitioning);
  dataBuf ← put_slice partitioning new_default;
  dataSlice ← slice dataBuf;
  db ← check (ldb_put (db_ p) key dataSlice);
  Ret (with_db db p).

Definition initiatePartitioningRemoval (partitioning : TimeSlicedPartitioning) (p : PartitionIndex)
  : outcome PartitionIndex :=
  let p := with_removed (removedPartitionings_ p ++ [partitioning]) p in
  key ← time_key (endTime_ partitioning);
  db ← check (ldb_delete (db_ p) key);
  let p := with_db db p in
  match cache_find (endTime_ partitioning) (cache_ p) with
  | None => Ret p
  | Some c =>
      lru ← lru_erase (cached_iter c) (lruList_ p);
      Ret (with_cache lru (nextNode_ p) (cache_erase (endTime_ partitioning) (cache_ p)) p)
  end.

Definition completePartitioningRemovals (p : PartitionIndex) : PartitionIndex := with_removed [] p.

Definition in_slice (time : Timestamp) (t : TimeSlicedPartitioning) : bool :=
  dleb (startTime_ t) time && dltb time (endTime_ t).

(** The part of [getTimeSlicedPartitioning] that answers from the cache. *)
Definition lookup_cache (time : Timestamp) (p : PartitionIndex)
  : outcome (option (TimeSlicedPartitioning * PartitionIndex)) :=
  match cache_lower_bound time (cache_ p) with
  | None => Ret None
  | Some (key, c) =>
      if in_slice time (cached_partitioning c) then
        if decide (lru_begin (lruList_ p) = Some (cached_iter c)) then
          Ret (Some (cached_partitioning c, p))
        else
          lru ← lru_erase (cached_iter c) (lruList_ p);
          let node := nextNode_ p in
          let c' := mkCached (cached_partitioning c) node in
          Ret (Some (cached_partitioning c,
                     with_cache ((node, time) :: lru) (node + 1) (cache_set key c' (cache_ p)) p))
      else Ret None
  end.

(** The entry the iterator stands at: its key and its value. *)
Definition seek_entry (time : Timestamp) (p : PartitionIndex) : outcome (Timestamp * bytes) :=
  searchKey ← time_key time;
  match ldb_seek (db_ p) searchKey with
  | [] => Throw (time_sliced_partition_not_found time)
  | (foundKey, value) :: it =>
      '(endTime, _) ← getDouble (of_bytes foundKey);
      if deqb endTime time then
        match it with
        | [] => Throw (time_sliced_partition_not_found time)
        | (_, value') :: _ => Ret (endTime, value')
        end
      else Ret (endTime, value)
  end.

Definition lookup_db (time : Timestamp) (p : PartitionIndex)
  : outcome (TimeSlicedPartitioning * PartitionIndex) :=
  '(endTime, value) ← seek_entry time p;
  let entry := match cache_find endTime (cache_ p) with
               | Some c => cached_partitioning c
               | None => default_slice
               end in
  '(partitioning, _) ← get_slice entry (of_bytes value);
  let node := nextNode_ p in
  let cache := cache_set endTime (mkCached partitioning node) (cache_ p) in
  let lru := (node, endTime) :: lruList_ p in
  '(lru, cache) ←
    (if partitioningBufferSize_ p <? Z.of_nat (length lru) then
       match last lru with
       | Some (_, t) => Ret (take (pred (length lru)) lru, cache_erase t cache)
       | None => Undefined
       end
     else Ret (lru, cache));
  (* the returned reference is into the cache *)
  c ← or_undefined (cache_find endTime cache);
  Ret (cached_partitioning c, with_cache lru (node + 1) cache p).

Definition getTimeSlicedPartitioning (time : Timestamp) (p : PartitionIndex)
  : outcome (TimeSlicedPartitioning * PartitionIndex) :=
  hit ← lookup_cache time p;
  match hit with
  | Some r => Ret r
  | None => lookup_db time p
  end.

Definition getTimeSlicedPartitioningForBlockDeserialization (time : Timestamp) (p : PartitionIndex)
  : outcome (TimeSlicedPartitioning * PartitionIndex) :=
  match list_find (fun t => in_slice time t = true) (removedPartitionings_ p) with
  | Some (_, t) => Ret (t, p)
  | None => getTimeSlicedPartitioning time p
  end.

(** The [do ... while (time < endTime)] loop. *)
Fixpoint getTimeSlicedPartitionings_loop (fuel : nat) (time endTime : Timestamp)
  (results : list TimeSlicedPartitioning) (p : PartitionIndex)
  : option (outcome (list TimeSlicedPartitioning * PartitionIndex)) :=
  match fuel with
  | O => None
  | S fuel =>
      match getTimeSlicedPartitioning time p with
      | Ret (partitioning, p') =>
          let results' := results ++ [partitioning] in
          if dltb (endTime_ partitioning) endTime
          then getTimeSlicedPartitionings_loop fuel (endTime_ partitioning) endTime results' p'
          else Some (Ret (results', p'))
      | Throw e => Some (Throw e)
      | AssertFailed => Some AssertFailed
      | Undefined => Some Undefined
      end
  end.

Definition getTimeSlicedPartitionings (fuel : nat) (startTime endTime : Timestamp) (p : PartitionIndex) :=
  getTimeSlicedPartitionings_loop fuel startTime endTime [] p.

(** The constructor: [newDB] says whether the database directory was absent. *)
Definition newPartitionIndex (bufferSize : Z) (edgeSchema : Schema) (newDB : bool) (db : D)
  : outcome PartitionIndex :=
  let p := mkIndex bufferSize [] 0 [] edgeSchema [] db in
  if newDB then
    let allAttributes := foldl (fun s a => set_insert (name_ a) s) [] (attributes_ edgeSchema) in
    addPartitioning (mkSlice dninf dinf [allAttributes]) p
  else Ret p.

End Index.
Arguments PartitionIndex D : clear implicits.

(** ** The wire form of a slice *)

Definition parts_codec : Codec Partitioning := vector (vector stl_string).

#[export] Instance parts_codec_ok : CodecOk parts_codec.
Proof. apply vector_ok, vector_ok, stl_string_ok. Qed.

Definition enc_slice (t : TimeSlicedPartitioning) : list Z :=
  be 8 (startTime_ t) ++ be 8 (endTime_ t) ++ enc parts_codec (partitioning_ t).

Record slice_valid (t : TimeSlicedPartitioning) : Prop := {
  valid_start : is_double (startTime_ t);
  valid_end : is_double (endTime_ t);
  valid_parts : valid parts_codec (partitioning_ t);
  valid_sets : Forall NoDup (partitioning_ t);
  valid_length : Z.of_nat (length (enc_slice t)) <= 2 ^ 32
}.

Lemma put_slice_ok t :
  slice_valid t -> exists b, put_slice t new_default = Ret b /\ slice b = Ret (enc_slice t).
Proof.
  intros [Hs He Hp _ Hl]. unfold put_slice, enc_slice in *. autorewrite with railway in Hl.
  destruct (put_ok (c := float64) (startTime_ t) new_default []) as (b1 & E1 & Hb1 & Hg1 & _);
    [apply holds_new_default|by split|done|cbn [enc float64 scalar length]; rewrite length_be; lia|].
  cbn [put enc float64 scalar app] in *. rewrite E1. cbn [mbind outcome_bind].
  destruct (put_ok (c := float64) (endTime_ t) b1 _ Hb1 Hg1 He) as (b2 & E2 & Hb2 & Hg2 & _);
    [cbn [enc float64 scalar]; rewrite !length_be; lia|].
  cbn [put enc float64 scalar app] in *. rewrite E2. cbn [mbind outcome_bind].
  destruct (put_ok (c := parts_codec) (partitioning_ t) b2 _ Hb2 Hg2 Hp) as (b3 & E3 & Hb3 & _);
    [autorewrite with railway; lia|].
  cbn [put parts_codec vector stl_string] in E3. unfold put_vector in E3.
  cbn [put vector stl_string] in E3. unfold put_vector in E3. cbn [put stl_string] in E3.
  rewrite E3. eexists. split; [done|]. apply slice_holds. by rewrite <- app_assoc in Hb3.
Qed.

Lemma get_items_extends {A} (c : Codec A) n acc b l b' :
  get_items c n acc b = Ret (l, b') -> exists rest, l = acc ++ rest.
Proof.
  revert acc b. induction n as [|n IH]; intros acc b H; cbn in H; inv_ret.
  - exists []. by rewrite app_nil_r.
  - destruct a as [x b1]. apply IH in H as [r ->]. exists (x :: r). by rewrite <- app_assoc.
Qed.

Lemma get_attributes_items n attrs b l b' :
  get_items stl_string n attrs b = Ret (l, b') -> NoDup l -> get_attributes n attrs b = Ret (l, b').
Proof.
  revert attrs b. induction n as [|n IH]; intros attrs b H Hnd; cbn in *; [done|].
  inv_ret. destruct a as [s b1]. cbn.
  destruct (get_items_extends _ _ _ _ _ _ H) as [rest Hl].
  unfold set_insert. rewrite decide_False; [by apply IH|].
  intros Hin. subst l. rewrite <- app_assoc in Hnd. apply NoDup_app in Hnd as (_ & Hn & _).
  apply (Hn s Hin). cbn. left.
Qed.

Lemma get_parts_items n parts b l b' :
  get_items (vector stl_string) n parts b = Ret (l, b') -> Forall NoDup l ->
  get_parts n parts b = Ret (l, b').
Proof.
  revert parts b. induction n as [|n IH]; intros parts b H Hnd; cbn in *; [done|].
  inv_ret. destruct a as [s b1]. cbn in E. unfold get_vector in E.
  destruct (getUInt32 b) as [[k b2]| | |]; cbn in E |- *; try discriminate E.
  assert (NoDup s) as Hs.
  { destruct (get_items_extends _ _ _ _ _ _ H) as [rest ->].
    rewrite !Forall_app, Forall_singleton in Hnd. tauto. }
  rewrite (get_attributes_items _ _ _ _ _ E Hs). cbn. by apply IH.
Qed.

(** Reading into a default object gives the slice; into any other it appends. *)
Lemma get_slice_ok t b rest :
  slice_valid t -> unread b (enc_slice t ++ rest) ->
  exists b', get_slice default_slice b = Ret (t, b') /\ unread b' rest.
Proof.
  intros [Hs He Hp Hnd _] Hu. unfold enc_slice in Hu. rewrite <- !app_assoc in Hu.
  unfold get_slice.
  destruct (get_ok (c := float64) _ _ _ Hu Hs) as (b1 & E1 & Hu1). cbn [get float64 scalar] in E1.
  rewrite E1. cbn [mbind outcome_bind].
  destruct (get_ok (c := float64) _ _ _ Hu1 He) as (b2 & E2 & Hu2). cbn [get float64 scalar] in E2.
  rewrite E2. cbn [mbind outcome_bind].
  destruct (get_ok (c := parts_codec) _ _ _ Hu2 Hp) as (b3 & E3 & Hu3).
  cbn [get parts_codec vector] in E3. unfold get_vector in E3.
  destruct (getUInt32 b2) as [[n b4]| | |]; cbn [mbind outcome_bind] in E3 |- *; try discriminate E3.
  cbn [partitioning_ default_slice]. rewrite (get_parts_items _ _ _ _ _ E3 Hnd). cbn [mbind outcome_bind].
  exists b3. split; [|done]. by destruct t.
Qed.

(** ** Tilings of the time line

    The slices of the index, in time order: the first starts at minus
    infinity, each starts where the one before ends, the last ends at plus
    infinity, and none is empty. *)

Fixpoint tiles (from to : Timestamp) (sl : list TimeSlicedPartitioning) : Prop :=
  match sl with
  | [] => from = to
  | t :: sl' => startTime_ t = from /\ dkey from < dkey (endTime_ t) /\ tiles (endTime_ t) to sl'
  end.

(** A boundary that orders like its pattern: not negative, not a NaN. *)
Definition instant (t : Timestamp) : Prop := 0 <= t <= dinf.

Lemma instant_num t : instant t -> num t.
Proof.
  unfold instant, num. change dinf with 9218868437227405312. intros H.
  split; [lia|]. unfold is_nan. rewrite Z.mod_small by lia. apply Z.ltb_ge. lia.
Qed.

Lemma instant_key t : instant t -> dkey t = t.
Proof. unfold instant. change dinf with 9218868437227405312. intros H. apply dkey_nonneg. lia. Qed.

Record tiling (sl : list TimeSlicedPartitioning) : Prop := {
  tiling_tiles : tiles dninf dinf sl;
  tiling_valid : Forall slice_valid sl;
  tiling_ends : Forall (fun t => instant (endTime_ t)) sl
}.

Lemma tiles_lt from to sl :
  tiles from to sl -> Forall (fun t => dkey from < dkey (endTime_ t)) sl.
Proof.
  revert from. induction sl as [|t sl IH]; intros from; [done|]. cbn.
  intros (_ & Hlt & Ht). constructor; [done|]. eapply Forall_impl; [by apply IH|]. cbn. lia.
Qed.

Lemma tiles_sorted from to sl :
  tiles from to sl -> StronglySorted (fun t t' => dkey (endTime_ t) < dkey (endTime_ t')) sl.
Proof.
  revert from. induction sl as [|t sl IH]; intros from; [constructor|]. cbn.
  intros (_ & _ & Ht). constructor; [by eapply IH|]. by eapply tiles_lt.
Qed.

Lemma tiles_app a c sl1 sl2 :
  tiles a c (sl1 ++ sl2) <-> exists b, tiles a b sl1 /\ tiles b c sl2.
Proof.
  revert a. induction sl1 as [|t sl1 IH]; intros a; cbn.
  - split; [eauto|]. by intros (b & -> & H).
  - rewrite IH. naive_solver.
Qed.

(** The slice of a time: the first whose end is not before it. *)
Lemma tiles_find from to sl time :
  tiles from to sl -> dkey from <= dkey time < dkey to ->
  exists sl1 t sl2, sl = sl1 ++ t :: sl2 /\ dkey (startTime_ t) <= dkey time < dkey (endTime_ t) /\
    Forall (fun t' => dkey (endTime_ t') <= dkey time) sl1.
Proof.
  revert from. induction sl as [|t sl IH]; intros from; cbn.
  - intros -> H. lia.
  - intros (Hs & Hlt & Ht) Hb. destruct (Z.lt_ge_cases (dkey time) (dkey (endTime_ t))).
    + exists [], t, sl. rewrite Hs. split_and!; done || lia.
    + destruct (IH _ Ht) as (sl1 & t' & sl2 & -> & Hb' & Hall); [lia|].
      exists (t :: sl1), t', sl2. split_and!; try done; try lia. by constructor.
Qed.

(** *** The database of a tiling *)

Definition slice_entry (t : TimeSlicedPartitioning) : bytes * bytes := (be 8 (endTime_ t), enc_slice t).

Definition stores (m : gmap bytes bytes) (sl : list TimeSlicedPartitioning) : Prop :=
  m = list_to_map (slice_entry <$> sl).

Lemma end_key_lt t t' :
  instant (endTime_ t) -> instant (endTime_ t') ->
  dkey (endTime_ t) < dkey (endTime_ t') -> bytes_lt (be 8 (endTime_ t)) (be 8 (endTime_ t')).
Proof.
  intros H1 H2 Hlt. rewrite !instant_key in Hlt by done. unfold bytes_lt, instant in *.
  revert H1 H2. change dinf with 9218868437227405312. intros H1 H2.
  rewrite bytes_compare_be by (cbn; lia). by apply Z.compare_lt_iff.
Qed.

Lemma tiling_keys_sorted sl : tiling sl -> StronglySorted bytes_lt (slice_entry <$> sl).*1.
Proof.
  intros [Ht _ He]. rewrite <- list_fmap_compose.
  pose proof (tiles_sorted _ _ _ Ht) as Hs. clear Ht.
  induction Hs as [|t sl Hs IH Hall]; [constructor|]. apply Forall_cons in He as [Ht He].
  cbn. constructor; [by apply IH|]. apply Forall_fmap.
  rewrite Forall_forall in *. intros t' Hin. cbn. apply end_key_lt; auto.
Qed.

Lemma sorted_NoDup_keys (l : list bytes) : StronglySorted bytes_lt l -> NoDup l.
Proof.
  induction 1 as [|k l Hs IH Hall]; [constructor|]. constructor; [|done].
  intros Hin. rewrite Forall_forall in Hall. apply Hall in Hin. unfold bytes_lt in Hin.
  by rewrite bytes_compare_refl in Hin.
Qed.

Lemma tiling_keys_NoDup sl : tiling sl -> NoDup (slice_entry <$> sl).*1.
Proof. intros H. by apply sorted_NoDup_keys, tiling_keys_sorted. Qed.

(** Entries that are sorted are the iteration order of the map they make. *)
Lemma sorted_entries_unique (l : list (bytes * bytes)) :
  StronglySorted bytes_lt l.*1 -> sorted_entries (list_to_map l) = l.
Proof.
  intros Hs. pose proof (sorted_NoDup_keys _ Hs) as Hnd.
  assert (StronglySorted (fun x y : bytes * bytes => bytes_lt x.1 y.1) l /\
    StronglySorted (fun x y : bytes * bytes => bytes_lt x.1 y.1) (sorted_entries (list_to_map l))) as [H1 H2].
  { pose proof (sorted_entries_lt (list_to_map l)) as H2. split; revert Hs H2;
      [generalize l|generalize (sorted_entries (list_to_map l))];
      intros k; [intros Hk _|intros _ Hk]; revert Hk.
    all: induction k as [|x k IH]; intros Hk; [constructor|]; cbn in Hk;
      apply StronglySorted_inv in Hk as [Hk Hx]; constructor; [auto|];
      rewrite Forall_fmap in Hx; exact Hx. }
  assert (sorted_entries (list_to_map l) ≡ₚ l) as Hp.
  { unfold sorted_entries. rewrite merge_sort_Permutation. by apply map_to_list_to_map. }
  symmetry. eapply (StronglySorted_unique_strong _); [|exact H1|exact H2|by symmetry].
  intros x y Hx Hy Hxy Hyx. pose proof (bytes_lt_trans _ _ _ Hxy Hyx) as Hbad.
  unfold bytes_lt in Hbad. by rewrite bytes_compare_refl in Hbad.
Qed.

(** ** Look-ups *)

Lemma time_key_ok t : is_double t -> time_key t = Ret (be 8 t).
Proof.
  intros Ht. unfold time_key.
  destruct (put_ok (c := float64) t (new_sized 8) []) as (b & E & Hb & _);
    [apply holds_new_sized; lia|split; [done|cbn; lia]|done|cbn; lia|].
  cbn [put float64 scalar] in E. rewrite E. cbn [mbind outcome_bind]. by apply slice_holds.
Qed.

Lemma instant_double t : instant t -> is_double t.
Proof. intros H. apply instant_num, H. Qed.

Lemma bytes_le_be8 a b : instant a -> instant b -> bytes_le (be 8 a) (be 8 b) <-> a <= b.
Proof.
  unfold instant. change dinf with 9218868437227405312. intros Ha Hb.
  unfold bytes_le. rewrite bytes_compare_be by (cbn; lia). by rewrite Z.compare_le_iff.
Qed.

Section Lookup.
Context {D : Type} `{LevelDB D, !LevelDBOk D}.

(** The index over a tiling.  Its cache is transparent when it can hold all
    the slices: every cached slice is one of the tiling under its end time,
    the keys increase, and the LRU list has one node per entry. *)
Record index_ok (p : PartitionIndex D) (sl : list TimeSlicedPartitioning) : Prop := {
  io_tiling : tiling sl;
  io_stores : stores (contents (db_ p)) sl;
  io_room : Z.of_nat (length sl) <= partitioningBufferSize_ p;
  io_cached : Forall (fun kc => cached_partitioning kc.2 ∈ sl /\ kc.1 = endTime_ (cached_partitioning kc.2)) (cache_ p);
  io_sorted : StronglySorted (fun x y => x < y) (cache_ p).*1;
  io_iters : (cached_iter ∘ snd) <$> cache_ p ≡ₚ (lruList_ p).*1;
  io_nodes : NoDup (lruList_ p).*1 /\ Forall (fun n => n < nextNode_ p) (lruList_ p).*1
}.

Lemma seek_tiling p sl1 t sl2 time :
  index_ok p (sl1 ++ t :: sl2) -> instant time ->
  Forall (fun t' => endTime_ t' < time) sl1 -> time < endTime_ t ->
  seek_entry time p = Ret (endTime_ t, enc_slice t).
Proof.
  intros Hp Ht H1 H2. unfold seek_entry. rewrite time_key_ok by (by apply instant_double).
  cbn [mbind outcome_bind].
  pose proof (io_tiling _ _ Hp) as Htile. pose proof (tiling_ends _ Htile) as He.
  rewrite ldb_seek_ok, (io_stores _ _ Hp), sorted_entries_unique by (by apply tiling_keys_sorted).
  rewrite fmap_app, filter_app. apply Forall_app in He as [He1 [Het He2]%Forall_cons].
  assert (filter (fun kv : bytes * bytes => bytes_le (be 8 time) kv.1) (slice_entry <$> sl1) = []) as ->.
  { clear -H1 He1 Ht. induction sl1 as [|x sl1 IH]; [done|].
    apply Forall_cons in H1 as [Hx H1]. apply Forall_cons in He1 as [Hex He1].
    rewrite fmap_cons, filter_cons_False; [by apply IH|]. unfold slice_entry. cbn [fst].
    rewrite bytes_le_be8 by done. lia. }
  cbn [app fmap list_fmap]. rewrite filter_cons_True by (unfold slice_entry; cbn [fst]; rewrite bytes_le_be8 by done; lia).
  unfold slice_entry at 1. cbv iota beta.
  assert (exists b', getDouble (of_bytes (be 8 (endTime_ t))) = Ret (endTime_ t, b')) as [b' ->].
  { destruct (get_ok (c := float64) (endTime_ t) (of_bytes (be 8 (endTime_ t))) [])
      as (b' & Hg & _); [|by apply instant_double|by exists b'].
    rewrite app_nil_r. apply unread_of_bytes. cbn [enc float64 scalar]. rewrite length_be. lia. }
  cbn [mbind outcome_bind]. rewrite deqb_num by (by apply instant_num).
  rewrite !instant_key by done. by rewrite (proj2 (Z.eqb_neq (endTime_ t) time)) by lia.
Qed.

Lemma cached_instant p sl k c :
  index_ok p sl -> (k, c) ∈ cache_ p -> instant k /\ cached_partitioning c ∈ sl /\ k = endTime_ (cached_partitioning c).
Proof.
  intros Hp Hin. pose proof (io_cached _ _ Hp) as Hc. rewrite Forall_forall in Hc.
  destruct (Hc _ Hin) as [H1 H2]. cbn in *. split_and!; try done. subst k.
  pose proof (tiling_ends _ (io_tiling _ _ Hp)) as He. rewrite Forall_forall in He. by apply He.
Qed.

Lemma cache_lower_bound_Some {V} time (m : list (Timestamp * V)) k c :
  cache_lower_bound time m = Some (k, c) -> (k, c) ∈ m.
Proof.
  unfold cache_lower_bound. intros ([i [k' c']] & Hf & [= -> ->])%bind_Some.
  apply list_find_Some in Hf as (Hl & _). apply list_elem_of_lookup. eauto.
Qed.

(** In a sorted cache the first key not before a time that is before [k] is at
    most [k]. *)
Lemma cache_lower_bound_le {V} time (m : list (Timestamp * V)) k c :
  StronglySorted (fun x y => x < y) m.*1 -> (k, c) ∈ m -> dltb k time = false ->
  exists k' c', cache_lower_bound time m = Some (k', c') /\ k' <= k /\ dltb k' time = false.
Proof.
  intros Hs Hin Hk. unfold cache_lower_bound.
  destruct (list_find (fun p => dltb p.1 time = false) m) as [[i [k' c']]|] eqn:E.
  - exists k', c'. split; [done|]. apply list_find_Some in E as (Hi & Hp & Hbefore). split; [|done].
    apply list_elem_of_lookup in Hin as [j Hj].
    destruct (decide (j < i)%nat) as [Hlt|Hge].
    + by destruct (Hbefore j (k, c) Hj Hlt).
    + destruct (decide (j = i)) as [->|]; [simplify_eq; lia|].
      assert ((m.*1) !! i = Some k' /\ (m.*1) !! j = Some k) as [Hi' Hj'].
      { by rewrite !list_lookup_fmap, Hi, Hj. }
      enough (k' < k) by lia. clear -Hs Hi' Hj' Hge n. revert i j Hi' Hj' Hge n.
      induction Hs as [|x l Hs IH Hx]; intros [|i] [|j] Hi Hj Hge Hn; cbn in *; try done; try lia.
      * simplify_eq. rewrite Forall_lookup in Hx. eauto.
      * apply (IH i j); auto with lia.
  - apply list_find_None in E. rewrite Forall_forall in E. by destruct (E _ Hin).
Qed.

Lemma cache_find_Some {V} k (m : list (Timestamp * V)) c :
  cache_find k m = Some c -> exists k', (k', c) ∈ m /\ deqb k' k = true.
Proof.
  unfold cache_find. intros ([i [k' c']] & Hf & [= ->])%bind_Some.
  apply list_find_Some in Hf as (Hl & Hq & _). exists k'. split; [|done].
  apply list_elem_of_lookup. eauto.
Qed.

Lemma instant_deqb a b : instant a -> instant b -> deqb a b = (a =? b).
Proof. intros Ha Hb. by rewrite deqb_num, !instant_key by (by try apply instant_num). Qed.

Lemma instant_dltb a b : instant a -> instant b -> dltb a b = (a <? b).
Proof. intros Ha Hb. by rewrite dltb_num, !instant_key by (by try apply instant_num). Qed.

Lemma instant_dleb a b : instant a -> instant b -> dleb a b = (a <=? b).
Proof. intros Ha Hb. by rewrite dleb_num, !instant_key by (by try apply instant_num). Qed.

Lemma cache_find_set {V} k v (m : list (Timestamp * V)) :
  instant k -> cache_find k (cache_set k v m) = Some v.
Proof.
  intros Hk. unfold cache_find. induction m as [|[k' v'] m IH]; cbn.
  - by rewrite decide_True by (by apply deqb_refl, instant_num).
  - destruct (deqb k' k) eqn:E; cbn; [by rewrite decide_True|].
    destruct (dltb k k'); cbn.
    + by rewrite decide_True by (by apply deqb_refl, instant_num).
    + rewrite decide_False by congruence. by destruct (list_find _ (cache_set k v m)) as [[]|].
Qed.

(** Assigning a new key inserts it at its place; a present one keeps its place. *)
Lemma cache_set_new {V} k v (m : list (Timestamp * V)) :
  instant k -> Forall instant m.*1 -> StronglySorted (fun x y => x < y) m.*1 -> k ∉ m.*1 ->
  cache_set k v m ≡ₚ (k, v) :: m /\ StronglySorted (fun x y => x < y) (cache_set k v m).*1.
Proof.
  intros Hk Hm Hs Hn. induction m as [|[k' v'] m IH]; cbn in *; [split; [done|repeat constructor]|].
  apply Forall_cons in Hm as [Hk' Hm]. apply StronglySorted_inv in Hs as [Hs Hx].
  rewrite instant_deqb, instant_dltb by done.
  rewrite (proj2 (Z.eqb_neq k' k)) by set_solver.
  destruct (Z.ltb_spec k k') as [Hlt|Hge]; cbn.
  - split; [done|]. constructor; [by constructor|]. constructor; [done|].
    eapply Forall_impl; [exact Hx|]. cbn. lia.
  - destruct IH as [IH1 IH2]; [done..|set_solver|]. split; [rewrite IH1; constructor|].
    constructor; [done|]. rewrite IH1. constructor; [|done].
    assert (k <> k') by set_solver. cbn; lia.
Qed.

Lemma cache_set_present {V} k v c (m1 m2 : list (Timestamp * V)) :
  instant k -> Forall instant (m1 ++ (k, c) :: m2).*1 ->
  StronglySorted (fun x y => x < y) (m1 ++ (k, c) :: m2).*1 ->
  cache_set k v (m1 ++ (k, c) :: m2) = m1 ++ (k, v) :: m2.
Proof.
  intros Hk. induction m1 as [|[k' v'] m1 IH]; intros Hm Hs; cbn in *.
  - by rewrite deqb_refl by (by apply instant_num).
  - apply Forall_cons in Hm as [Hk' Hm]. apply StronglySorted_inv in Hs as [Hs Hx].
    rewrite fmap_app, Forall_app in Hx. destruct Hx as [_ [Hx _]%Forall_cons]. cbn in Hx.
    rewrite instant_deqb, instant_dltb by done.
    rewrite (proj2 (Z.eqb_neq k' k)), (proj2 (Z.ltb_ge k k')) by lia. by rewrite IH.
Qed.

Lemma index_keys_instant p sl : index_ok p sl -> Forall instant (cache_ p).*1.
Proof.
  intros Hp. apply Forall_fmap, Forall_forall. intros [k c] Hin.
  by destruct (cached_instant _ _ _ _ Hp Hin).
Qed.

(** Two slices of a tiling with the same end are the same. *)
Lemma tiling_end_inj sl t t' : tiling sl -> t ∈ sl -> t' ∈ sl -> endTime_ t = endTime_ t' -> t = t'.
Proof.
  intros Ht Hin Hin' E. pose proof (tiles_sorted _ _ _ (tiling_tiles _ Ht)) as Hs. clear Ht.
  induction Hs as [|x l Hs IH Hx]; [set_solver|]. rewrite Forall_forall in Hx.
  apply elem_of_cons in Hin as [->|Hin], Hin' as [->|Hin']; [done| | |auto].
  - apply Hx in Hin'. rewrite E in Hin'. lia.
  - apply Hx in Hin. rewrite E in Hin. lia.
Qed.

Lemma lookup_hit_ok p sl time k c :
  index_ok p sl -> cache_lower_bound time (cache_ p) = Some (k, c) ->
  in_slice time (cached_partitioning c) = true ->
  exists p', lookup_cache time p = Ret (Some (cached_partitioning c, p')) /\ index_ok p' sl /\ db_ p' = db_ p.
Proof.
  intros Hp Hlb Hin. unfold lookup_cache. rewrite Hlb, Hin.
  pose proof (cache_lower_bound_Some _ _ _ _ Hlb) as Hc.
  destruct (cached_instant _ _ _ _ Hp Hc) as (Hk & Hsl & Hkey).
  case_decide; [eauto|]. pose proof Hp as [Ht Hst Hr Hca Hso Hit [Hnd Hno]].
  assert (cached_iter c ∈ (lruList_ p).*1) as Hnode.
  { rewrite <- Hit. apply list_elem_of_fmap. by exists (k, c). }
  unfold lru_erase. destruct (assoc_find (cached_iter c) (lruList_ p)) eqn:E.
  2: { by apply assoc_find_None in E. }
  cbn [mbind outcome_bind]. eexists. split; [done|]. split; [|done].
  apply list_elem_of_split in Hc as (m1 & m2 & Hm).
  assert (Hset := cache_set_present k (mkCached (cached_partitioning c) (nextNode_ p)) c m1 m2 Hk).
  pose proof (index_keys_instant _ _ Hp) as Hki. rewrite Hm in *.
  assert ((assoc_erase (cached_iter c) (lruList_ p)).*1 ≡ₚ (cached_iter ∘ snd) <$> (m1 ++ m2)) as Herase.
  { apply (Permutation_cons_inv (a := cached_iter c)).
    rewrite <- assoc_erase_Permutation, <- Hit, !fmap_app by done. cbn. by rewrite <- Permutation_middle. }
  assert (Forall (fun n => n < nextNode_ p) (assoc_erase (cached_iter c) (lruList_ p)).*1) as Hlt.
  { rewrite Forall_forall in *. intros x Hx. apply Hno. by apply assoc_erase_keys in Hx. }
  rewrite Hset by done. split; cbn; try done.
  - rewrite Forall_app, Forall_cons in *. naive_solver.
  - by rewrite fmap_app in *.
  - rewrite Herase, !fmap_app. cbn. by rewrite <- Permutation_middle.
  - split; [constructor|constructor; [lia|]].
    + rewrite Forall_forall in Hlt. intros Hx. apply Hlt in Hx. lia.
    + by apply assoc_erase_NoDup.
    + eapply Forall_impl; [exact Hlt|]. cbn. lia.
Qed.

(** The cache never holds more entries than there are slices. *)
Lemma cache_room p sl k :
  index_ok p sl -> k ∈ endTime_ <$> sl -> k ∉ (cache_ p).*1 ->
  (S (length (cache_ p)) <= length sl)%nat.
Proof.
  intros Hp Hk Hn. pose proof Hp as [_ _ _ Hca Hso _ _].
  assert (NoDup (k :: (cache_ p).*1)) as Hnd.
  { constructor; [done|]. clear -Hso. induction Hso as [|x l Hs IH Hx]; [constructor|].
    constructor; [|done]. intros Hin. rewrite Forall_forall in Hx. apply Hx in Hin. lia. }
  rewrite <- (length_fmap endTime_ sl), <- (length_fmap fst (cache_ p)).
  change (S (length (cache_ p).*1)) with (length (k :: (cache_ p).*1)).
  apply (submseteq_length (k :: (cache_ p).*1)), NoDup_submseteq; [done|].
  intros x [->|Hx]%elem_of_cons; [done|]. apply list_elem_of_fmap in Hx as ([k' c] & -> & Hc).
  rewrite Forall_forall in Hca. destruct (Hca _ Hc) as [H1 H2]. cbn in *. subst.
  apply list_elem_of_fmap. eauto.
Qed.

Lemma lookup_miss_ok p sl1 t sl2 time :
  index_ok p (sl1 ++ t :: sl2) -> instant time ->
  Forall (fun t' => endTime_ t' < time) sl1 -> time < endTime_ t ->
  endTime_ t ∉ (cache_ p).*1 ->
  exists p', lookup_db time p = Ret (t, p') /\ index_ok p' (sl1 ++ t :: sl2) /\ db_ p' = db_ p.
Proof.
  intros Hp Hti H1 H2 Hn. unfold lookup_db.
  rewrite (seek_tiling _ _ _ _ _ Hp Hti H1 H2). cbn [mbind outcome_bind].
  pose proof Hp as [Ht Hst Hr Hca Hso Hit [Hnd Hno]].
  pose proof (index_keys_instant _ _ Hp) as Hki.
  assert (t ∈ sl1 ++ t :: sl2) as Hin by set_solver.
  pose proof (tiling_ends _ Ht) as He. rewrite Forall_forall in He. pose proof (He t Hin) as Het.
  assert (cache_find (endTime_ t) (cache_ p) = None) as ->.
  { destruct (cache_find (endTime_ t) (cache_ p)) as [c|] eqn:E; [|done]. exfalso.
    apply cache_find_Some in E as (k & Hk & Hq). apply Hn.
    destruct (cached_instant _ _ _ _ Hp Hk) as (Hki' & _ & _).
    rewrite instant_deqb in Hq by done. apply Z.eqb_eq in Hq. subst k.
    apply list_elem_of_fmap. by exists (endTime_ t, c). }
  assert (exists b', get_slice default_slice (of_bytes (enc_slice t)) = Ret (t, b')) as [b' ->].
  { pose proof (tiling_valid _ Ht) as Hv. rewrite Forall_forall in Hv. pose proof (Hv t Hin) as Hvt.
    destruct (get_slice_ok t (of_bytes (enc_slice t)) []) as (b' & Hg & _); [done| |eauto].
    rewrite app_nil_r. apply unread_of_bytes. pose proof (valid_length _ Hvt). lia. }
  cbn [mbind outcome_bind].
  pose proof (cache_room p _ (endTime_ t) Hp ltac:(apply list_elem_of_fmap; eauto) Hn) as Hroom.
  assert (length (lruList_ p) = length (cache_ p)) as Hlen.
  { rewrite <- (length_fmap fst (lruList_ p)), <- Hit. apply length_fmap. }
  destruct (Z.ltb_spec (partitioningBufferSize_ p)
    (Z.of_nat (length ((nextNode_ p, endTime_ t) :: lruList_ p)))) as [Hlt|_]; [cbn in Hlt; lia|].
  cbn [mbind outcome_bind]. rewrite cache_find_set by done. cbn.
  eexists. split; [done|]. split; [|done].
  destruct (cache_set_new (endTime_ t) (mkCached t (nextNode_ p)) (cache_ p)) as [Hperm Hsort]; try done.
  split; cbn; try done.
  - rewrite Hperm. by constructor.
  - rewrite Hperm. cbn. by constructor.
  - split; [constructor; [|done]|constructor; [lia|]].
    + intros Hx. rewrite Forall_forall in Hno. apply Hno in Hx. lia.
    + eapply Forall_impl; [exact Hno|]. cbn. lia.
Qed.

(** The slice of a time that is not a boundary. *)
Lemma tiling_slice sl time :
  tiling sl -> instant time -> time < dinf -> time ∉ endTime_ <$> sl ->
  exists sl1 t sl2, sl = sl1 ++ t :: sl2 /\ in_slice time t = true /\ time < endTime_ t /\
    Forall (fun t' => endTime_ t' < time) sl1 /\ Forall (fun t' => endTime_ t < endTime_ t') sl2.
Proof.
  intros Ht Hti Hlt Hb.
  assert (instant dinf) as Hinf by (unfold instant; change dinf with 9218868437227405312; lia).
  destruct (tiles_find dninf dinf sl time (tiling_tiles _ Ht)) as (sl1 & t & sl2 & -> & Hin & Hbefore).
  { rewrite !(instant_key time), (instant_key dinf) by done. unfold instant in Hti.
    change (dkey dninf) with (-9218868437227405312). lia. }
  pose proof (tiling_ends _ Ht) as He. rewrite Forall_forall in He.
  assert (t ∈ sl1 ++ t :: sl2) as Htin by set_solver.
  rewrite (instant_key time), (instant_key (endTime_ t)) in Hin by auto.
  exists sl1, t, sl2. split_and!; [done| |lia| |].
  - unfold in_slice. rewrite instant_dltb by auto.
    apply andb_true_intro. split; [|apply Z.ltb_lt; lia].
    rewrite dleb_num, (instant_key time); [apply Z.leb_le; lia|done| |by apply instant_num].
    destruct (proj1 (tiles_app dninf dinf sl1 (t :: sl2)) (tiling_tiles _ Ht)) as (m & Hm1 & <- & _ & _).
    destruct (decide (sl1 = [])) as [->|Hne]; [cbn in Hm1; rewrite <- Hm1; by vm_compute|].
    destruct (exists_last Hne) as (l' & x & ->). apply tiles_app in Hm1 as (m' & _ & Hx & _ & Hend).
    cbn in Hend. rewrite <- Hend. apply instant_num, He. set_solver.
  - rewrite Forall_forall in *. intros x Hx. pose proof (Hbefore x Hx) as Hle.
    rewrite !instant_key in Hle by (try done; apply He; set_solver).
    assert (endTime_ x <> time); [|lia]. intros <-. apply Hb, list_elem_of_fmap. exists x. set_solver.
  - pose proof (tiles_sorted _ _ _ (tiling_tiles _ Ht)) as Hs.
    apply StronglySorted_app in Hs as (_ & _ & [_ Hs]%StronglySorted_inv).
    rewrite Forall_forall in *. intros x Hx. pose proof (Hs x Hx) as Hle.
    by rewrite !instant_key in Hle by (apply He; set_solver).
Qed.

(** When the cache does not answer, the slice is not cached. *)
Lemma lookup_cache_miss p sl1 t sl2 time :
  index_ok p (sl1 ++ t :: sl2) -> instant time -> in_slice time t = true -> time < endTime_ t ->
  Forall (fun t' => endTime_ t' < time) sl1 -> Forall (fun t' => endTime_ t < endTime_ t') sl2 ->
  (forall k c, cache_lower_bound time (cache_ p) = Some (k, c) ->
     in_slice time (cached_partitioning c) = false) ->
  endTime_ t ∉ (cache_ p).*1.
Proof.
  intros Hp Hti Hin Hlt H1 H2 Hmiss Hk.
  apply list_elem_of_fmap in Hk as ([k' c'] & Ek & Hc'). cbn in Ek. subst k'.
  destruct (cached_instant _ _ _ _ Hp Hc') as (Het & _ & _).
  destruct (cache_lower_bound_le time (cache_ p) (endTime_ t) c') as (k & c & Elb & Hle & Hge);
    [apply Hp|done|rewrite instant_dltb by done; apply Z.ltb_ge; lia|].
  pose proof (Hmiss _ _ Elb) as Hno. apply cache_lower_bound_Some in Elb.
  destruct (cached_instant _ _ _ _ Hp Elb) as (Hki & Hsl & ->).
  rewrite instant_dltb in Hge by done. apply Z.ltb_ge in Hge. rewrite Forall_forall in H1, H2.
  apply elem_of_app in Hsl as [Hsl|[Hsl|Hsl]%elem_of_cons].
  - apply H1 in Hsl. lia.
  - congruence.
  - apply H2 in Hsl. lia.
Qed.

Lemma getTimeSlicedPartitioning_ok p sl time :
  index_ok p sl -> instant time -> time < dinf -> time ∉ endTime_ <$> sl ->
  exists t p', getTimeSlicedPartitioning time p = Ret (t, p') /\
    t ∈ sl /\ in_slice time t = true /\ index_ok p' sl /\ db_ p' = db_ p.
Proof.
  intros Hp Hti Hlt Hb.
  destruct (tiling_slice sl time (io_tiling _ _ Hp) Hti Hlt Hb)
    as (sl1 & t & sl2 & -> & Hin & Hend & H1 & H2).
  unfold getTimeSlicedPartitioning.
  destruct (cache_lower_bound time (cache_ p)) as [[k c]|] eqn:Elb;
    [destruct (in_slice time (cached_partitioning c)) eqn:Ein|].
  1: { destruct (lookup_hit_ok _ _ _ _ _ Hp Elb Ein) as (p' & -> & Hp' & Hdb). cbn.
       apply cache_lower_bound_Some in Elb. destruct (cached_instant _ _ _ _ Hp Elb) as (_ & ? & _).
       eexists _, p'. split_and!; done. }
  all: assert (lookup_cache time p = Ret None) as -> by (unfold lookup_cache; rewrite Elb; by try rewrite Ein).
  all: cbn [mbind outcome_bind].
  all: destruct (lookup_miss_ok p sl1 t sl2 time) as (p' & -> & Hp' & Hdb); try done;
    [eapply lookup_cache_miss; try done; congruence|].
  all: exists t, p'; split_and!; try done; set_solver.
Qed.
End Lookup.

(** A look-up changes nothing but the cache. *)
Lemma getTimeSlicedPartitioning_frame {D} `{LevelDB D} time (p p' : PartitionIndex D) t :
  getTimeSlicedPartitioning time p = Ret (t, p') ->
  removedPartitionings_ p' = removedPartitionings_ p /\ edgeSchema_ p' = edgeSchema_ p /\
  db_ p' = db_ p /\ partitioningBufferSize_ p' = partitioningBufferSize_ p.
Proof.
  unfold getTimeSlicedPartitioning. intros E.
  destruct (lookup_cache time p) as [[[t1 p1]|]| | |] eqn:E1; cbn [mbind outcome_bind] in E; try discriminate E.
  - injection E as <- <-. unfold lookup_cache in E1. repeat (case_match; try discriminate E1).
    all: repeat (destruct (lru_erase _ _); cbn [mbind outcome_bind] in E1; try discriminate E1).
    all: injection E1 as <- <-; done.
  - unfold lookup_db in E. inv_ret. repeat (case_match; inv_ret; try done).
Qed.

(** ** Properties *)

(** C20: looking up the slice of a time within the limits of the index: its
    stored slices tile the time line, the cache has room for all of them, so
    that nothing is evicted, and the time is finite, not negative and not a
    boundary between slices.  Then a look-up succeeds, returns the stored
    slice that contains the time, whether it is answered by the cache or by the
    database, leaves the database alone and keeps the index well formed; so
    does the look-up used when blocks are read, when no slice is being
    replaced.  What happens outside these limits is
    [partition_lookup_limits]. *)
Theorem partition_lookup {D} `{LevelDB D, !LevelDBOk D} (p : PartitionIndex D)
    (sl : list TimeSlicedPartitioning) (time : Timestamp) :
  index_ok p sl -> instant time -> time < dinf -> time ∉ endTime_ <$> sl ->
  exists t p', getTimeSlicedPartitioning time p = Ret (t, p') /\
    t ∈ sl /\ in_slice time t = true /\ index_ok p' sl /\ db_ p' = db_ p /\
    (removedPartitionings_ p = [] ->
     getTimeSlicedPartitioningForBlockDeserialization time p = Ret (t, p')).
Proof.
  intros Hp Hti Hlt Hb.
  destruct (getTimeSlicedPartitioning_ok p sl time) as (t & p' & E & Hin & Hs & Hp' & Hdb); try done.
  exists t, p'. split_and!; try done.
  intros Hr. unfold getTimeSlicedPartitioningForBlockDeserialization. by rewrite Hr.
Qed.

(** An index over an in-memory database, holding the given slices. *)
Definition index_with (bufferSize : Z) (sl : list TimeSlicedPartitioning) : PartitionIndex (gmap bytes bytes) :=
  mkIndex bufferSize [] 0 [] example_schema [] (list_to_map (slice_entry <$> sl)).

Definition example_slices : list TimeSlicedPartitioning :=
  [mkSlice dninf (dofZ 10) [["weight"; "tag"]];
   mkSlice (dofZ 10) (dofZ 20) [["weight"]; ["tag"]];
   mkSlice (dofZ 20) dinf [["tag"]; ["weight"]]].

Lemma example_tiling : tiling example_slices.
Proof.
  split.
  - cbn -[dofZ dninf dinf dkey]. split_and!; done || by vm_compute.
  - assert (forall t, is_double (startTime_ t) -> is_double (endTime_ t) ->
      valid parts_codec (partitioning_ t) -> bool_decide (Forall NoDup (partitioning_ t)) = true ->
      Z.of_nat (length (enc_slice t)) <= 2 ^ 32 -> slice_valid t) as H.
    { intros t H1 H2 H3 H4 H5. split; try done. by apply bool_decide_eq_true in H4. }
    repeat (apply Forall_cons_2 || apply Forall_nil_2); apply H.
    all: match goal with
         | |- valid _ _ => concrete
         | |- _ => by vm_compute
         end.
  - repeat (apply Forall_cons_2 || apply Forall_nil_2); by vm_compute.
Qed.

Lemma index_with_ok n sl : tiling sl -> Z.of_nat (length sl) <= n -> index_ok (index_with n sl) sl.
Proof. intros Ht Hn. split; cbn; try done; try constructor; constructor. Qed.

Lemma partition_lookup_witness :
  exists t p', getTimeSlicedPartitioning (dofZ 15) (index_with 3 example_slices) = Ret (t, p') /\
    t ∈ example_slices /\ in_slice (dofZ 15) t = true /\ index_ok p' example_slices /\
    db_ p' = db_ (index_with 3 example_slices) /\
    (removedPartitionings_ (index_with 3 example_slices) = [] ->
     getTimeSlicedPartitioningForBlockDeserialization (dofZ 15) (index_with 3 example_slices) = Ret (t, p')).
Proof.
  apply (partition_lookup (index_with 3 example_slices) example_slices (dofZ 15)).
  - apply index_with_ok; [exact example_tiling|reflexivity || by vm_compute].
  - by vm_compute.
  - by vm_compute.
  - intros Hin. apply list_elem_of_fmap in Hin as (t & E & Ht). revert E.
    repeat (apply elem_of_cons in Ht as [->|Ht]; [by vm_compute|]). by apply elem_of_nil in Ht.
Defined.

(** The look-ups at a sequence of times, one after the other. *)
Definition lookups {D} `{LevelDB D} (times : list Timestamp) (p : PartitionIndex D)
  : outcome (list TimeSlicedPartitioning) :=
  r ← foldM (fun s time => '(t, p') ← getTimeSlicedPartitioning time s.2; Ret (s.1 ++ [t], p')) ([], p) times;
  Ret r.1.

(** What goes wrong at and beyond the limits of the previous property.
    (1) A look-up at a boundary reads the next slice into the cache entry of
    the slice that ends there: the result has the parts of both.  (2) A look-up
    answered by the cache records the time asked for, not the key of the
    entry, in the LRU list; when that node is evicted the entry stays with an
    iterator to a freed node, and the next hit erases through it.  (3) A time
    with the sign bit set sorts after every key and finds no slice. *)
Theorem partition_lookup_limits :
  lookups [dofZ 5; dofZ 10] (index_with 3 example_slices) =
    Ret [mkSlice dninf (dofZ 10) [["weight"; "tag"]];
         mkSlice (dofZ 10) (dofZ 20) [["weight"; "tag"]; ["weight"]; ["tag"]]] /\
  lookups [dofZ 5; dofZ 15; dofZ 5; dofZ 25; dofZ 15; dofZ 5] (index_with 2 example_slices) = Undefined /\
  lookups [dofZ (-1)] (index_with 3 example_slices) = Throw (time_sliced_partition_not_found (dofZ (-1))).
Proof. split_and!; vm_compute; reflexivity. Qed.
