(* ===== verification/Block.v ===== *)
(** * Blocks

    core/Block.h and Block.cpp: the unit of storage, a set of neighbor lists.
    A master block has the edges without attributes and the identifiers of its
    sub blocks; a sub block has the attributes of one part of the partitioning
    of its time. *)

From Stdlib Require Import ZArith Lia.
From stdpp Require Import base numbers gmap strings list sorting.
From S2P Require Import Prelude.
From S2P Require Import Double.
From S2P Require Import NetworkByteBuffer.
From S2P Require Import LevelDB.
From S2P Require Import Schema.
From S2P Require Import AttributeData.
From S2P Require Import NeighborList.
From S2P Require Import PartitionIndex.

Abbreviation BlockId := Z.

(** [neigs_] in iteration order; [partition_] is not initialized by the
    constructor. *)
Record Block := mkBlock {
  id_ : BlockId;
  partition_ : option Z;
  serializedSize_ : Z;
  subBlocks_ : list BlockId;
  neigs_ : list (VertexId * NeighborList)
}.

#[export] Instance Block_eq_dec : EqDecision Block.
Proof. solve_decision. Defined.

Definition sizeof_BlockId : Z := 8.
Definition sizeof_VertexId : Z := 8.
Definition sizeof_Timestamp : Z := 8.
Definition sizeof_uint32 : Z := 4.

Definition new_block (id : BlockId) : Block := mkBlock id None sizeof_BlockId [] [].

Definition with_id (id : BlockId) (b : Block) : Block :=
  mkBlock id (partition_ b) (serializedSize_ b) (subBlocks_ b) (neigs_ b).
Definition with_partition (i : Z) (b : Block) : Block :=
  mkBlock (id_ b) (Some i) (serializedSize_ b) (subBlocks_ b) (neigs_ b).
Definition with_size (n : Z) (b : Block) : Block :=
  mkBlock (id_ b) (partition_ b) n (subBlocks_ b) (neigs_ b).
Definition with_neigs (n : list (VertexId * NeighborList)) (b : Block) : Block :=
  mkBlock (id_ b) (partition_ b) (serializedSize_ b) (subBlocks_ b) n.
Definition addSubBlockId (id : BlockId) (b : Block) : Block :=
  mkBlock (id_ b) (partition_ b) (serializedSize_ b) (subBlocks_ b ++ [id]) (neigs_ b).

(** [serializedSize_ += n] and [-= n] on [size_t]. *)
Definition grow (n : Z) (b : Block) : Block := with_size (u64 (serializedSize_ b + n)) b.
Definition shrink (n : Z) (b : Block) : Block := with_size (u64 (serializedSize_ b - n)) b.

Definition addNeighborList (id : VertexId) (b : Block) : Block :=
  match assoc_find id (neigs_ b) with
  | Some _ => b
  | None =>
      grow sizeof_uint32 (grow sizeof_VertexId
        (with_neigs (assoc_set id (mkNeighborList id []) (neigs_ b)) b))
  end.

(** The data an edge to a vertex that already has the reverse edge shares. *)
Definition shared_data (headVertex to : VertexId) (tm : Timestamp) (data : SharedData) (b : Block)
  : outcome (option SharedData) :=
  match assoc_find to (neigs_ b) with
  | None => Ret None
  | Some nlist =>
      match getEdgeAttributeData nlist headVertex tm with
      | None => Ret None
      | Some sdata => _ ← cassert (addr sdata =? addr data); Ret (Some sdata)
      end
  end.

Definition addEdge (headVertex to : VertexId) (tm : Timestamp) (data : SharedData) (b : Block)
  : outcome Block :=
  shared ← shared_data headVertex to tm data b;
  '(sdata, b) ←
    match shared with
    | Some sdata => Ret (sdata, b)
    | None => n ← getSerializedSizeOf (cell data); Ret (data, grow n b)
    end;
  let b := addNeighborList headVertex b in
  nlist ← or_undefined (assoc_find headVertex (neigs_ b));
  let b := with_neigs (assoc_set headVertex (NeighborList.addEdge (mkNLEdge to tm sdata) nlist) (neigs_ b)) b in
  Ret (grow sizeof_Timestamp (grow sizeof_VertexId b)).

Definition removeNewestEdge (headVertex : VertexId) (b : Block) : outcome Block :=
  match assoc_find headVertex (neigs_ b) with
  | None => AssertFailed
  | Some nlist =>
      edge ← getNewestEdge nlist;
      b ← match assoc_find (toVertex_ edge) (neigs_ b) with
          | None => Ret b
          | Some other =>
              match getEdgeAttributeData other headVertex (tm_ edge) with
              | Some _ => Ret b
              | None => n ← getSerializedSizeOf (cell (data_ edge)); Ret (shrink n b)
              end
          end;
      let nlist := NeighborList.removeNewestEdge nlist in
      let b := with_neigs (assoc_set headVertex nlist (neigs_ b)) b in
      let b := shrink sizeof_VertexId (shrink sizeof_Timestamp b) in
      Ret (match edges_ nlist with
           | [] => shrink sizeof_VertexId (shrink sizeof_uint32 (with_neigs (assoc_erase headVertex (neigs_ b)) b))
           | _ => b
           end)
  end.

Definition findMinMaxTimestamps (b : Block) : outcome (Timestamp * Timestamp) :=
  foldM (fun '(minTimestamp, maxTimestamp) p =>
    oldestEdge ← getOldestEdge p.2;
    newestEdge ← getNewestEdge p.2;
    Ret (if dltb (tm_ oldestEdge) minTimestamp then tm_ oldestEdge else minTimestamp,
         if dltb maxTimestamp (tm_ newestEdge) then tm_ newestEdge else maxTimestamp))
    (dmax, dzero) (neigs_ b).

Definition midpoint (minTimestamp maxTimestamp : Timestamp) : Timestamp :=
  ddiv (dadd minTimestamp maxTimestamp) dtwo.

Definition getPartitioningTimestamp (b : Block) : outcome Timestamp :=
  '(minTimestamp, maxTimestamp) ← findMinMaxTimestamps b;
  Ret (midpoint minTimestamp maxTimestamp).

(** ** Edge triplets *)

Record EdgeTriplet := mkTriplet { lowId_ : VertexId; highId_ : VertexId; triplet_tm_ : Timestamp }.

Definition newEdgeTriplet (id1 id2 : VertexId) (tm : Timestamp) : EdgeTriplet :=
  mkTriplet (Z.min id1 id2) (Z.max id1 id2) tm.

Definition triplet_eqb (a b : EdgeTriplet) : bool :=
  (lowId_ a =? lowId_ b) && (highId_ a =? highId_ b) && deqb (triplet_tm_ a) (triplet_tm_ b).

(** [unordered_map<EdgeTriplet, _>] and [unordered_set<EdgeTriplet>]: only
    searched and inserted into, so the traversal order does not matter. *)
Definition triplet_find {V} (t : EdgeTriplet) (m : list (EdgeTriplet * V)) : option V :=
  list_find (fun p => triplet_eqb p.1 t = true) m ≫= fun p => Some p.2.2.

(** ** Loops over the edges of a block *)

(** [for (pair : neigs) for (edge : pair.second.getEdges())], with the position
    of the edge in its list. *)
Definition edges_of (b : Block) : list (VertexId * nat * NLEdge) :=
  concat ((fun p => imap (fun k e => (p.1, k, e)) (edges_ p.2)) <$> neigs_ b).

(** [make_shared]: a fresh address from the supply. *)
Definition alloc_data (d : AttributeData) (next : Z) : SharedData * Z := (mkShared next d, next + 1).

Section Recombine.
(** [bman.getBlock(id)] *)
Context {S : Type} (getBlock : BlockId -> S -> outcome (Block * S)).

(** [setAttributes] from each sub block in turn. *)
Definition gather (headVertex : VertexId) (k : nat) (subBlockIds : list BlockId)
  (d : AttributeData) (s : S) : outcome (AttributeData * S) :=
  foldM (fun '(d, s) id =>
    '(sub, s) ← getBlock id s;
    nlist ← or_undefined (assoc_find headVertex (neigs_ sub));
    others ← getNthOldestEdge nlist k;
    Ret (setAttributes d (cell (data_ others)), s)) (d, s) subBlockIds.

Definition recombine_step (schema : Schema) (subBlockIds : list BlockId)
  (st : Block * list (EdgeTriplet * SharedData) * Z * S) (x : VertexId * nat * NLEdge)
  : outcome (Block * list (EdgeTriplet * SharedData) * Z * S) :=
  let '(block, read, next, s) := st in
  let '(headVertex, k, edge) := x in
  let etrip := newEdgeTriplet headVertex (toVertex_ edge) (tm_ edge) in
  '(sdata, read, next, s) ←
    match triplet_find etrip read with
    | None =>
        '(d, s) ← gather headVertex k subBlockIds (newAttributeData schema) s;
        let '(sdata, next) := alloc_data d next in
        Ret (sdata, (etrip, sdata) :: read, next, s)
    | Some sdata => Ret (sdata, read, next, s)
    end;
  block ← addEdge headVertex (toVertex_ edge) (tm_ edge) sdata block;
  Ret (block, read, next, s).

Definition recombineBlock (schema : Schema) (b : Block) (next : Z) (s : S) : outcome (Block * Z * S) :=
  _ ← cassert (negb (bool_decide (subBlocks_ b = [])));
  '(block, _, next, s) ←
    foldM (recombine_step schema (subBlocks_ b)) (with_partition (-1) (new_block 0), [], next, s) (edges_of b);
  Ret (block, next, s).
End Recombine.

(** ** Partitioning *)

Definition master_block (schema : Schema) (b : Block) (next : Z) : outcome (Block * Z) :=
  d ← newAttributeData_of schema [];
  let '(sdata, next) := alloc_data d next in
  block ← foldM (fun block '(headVertex, _, edge) =>
      addEdge headVertex (toVertex_ edge) (tm_ edge) sdata block)
    (with_partition (-1) (new_block 0)) (edges_of b);
  Ret (block, next).

(** The attributes of a part, copied from an edge. *)
Definition project (schema : Schema) (attributes : list string) (d : AttributeData) : outcome AttributeData :=
  sdata ← newAttributeData_of schema attributes;
  foldM (fun sdata attrb =>
    attrbIdx ← getIndex schema attrb;
    v ← getAttribute d attrbIdx;
    Ret (setAttribute sdata attrbIdx v)) sdata attributes.

Definition sub_block_step (schema : Schema) (attributes : list string)
  (st : Block * list (EdgeTriplet * SharedData) * Z) (x : VertexId * nat * NLEdge)
  : outcome (Block * list (EdgeTriplet * SharedData) * Z) :=
  let '(block, read, next) := st in
  let '(headVertex, _, edge) := x in
  let etrip := newEdgeTriplet headVertex (toVertex_ edge) (tm_ edge) in
  '(sdata, read, next) ←
    match triplet_find etrip read with
    | None =>
        d ← project schema attributes (cell (data_ edge));
        let '(sdata, next) := alloc_data d next in
        Ret (sdata, (etrip, sdata) :: read, next)
    | Some sdata => Ret (sdata, read, next)
    end;
  block ← addEdge headVertex (toVertex_ edge) (tm_ edge) sdata block;
  Ret (block, read, next).

Definition sub_block (schema : Schema) (i : nat) (attributes : list string) (b : Block) (next : Z)
  : outcome (Block * Z) :=
  '(block, _, next) ←
    foldM (sub_block_step schema attributes)
      (with_partition (Z.of_nat i) (new_block 0), [], next) (edges_of b);
  Ret (block, next).

Definition sub_blocks (schema : Schema) (part : Partitioning) (b : Block) (next : Z)
  : outcome (list Block * Z) :=
  foldM (fun '(blocks, next) '(i, attributes) =>
    '(block, next) ← sub_block schema i attributes b next;
    Ret (blocks ++ [block], next)) ([], next) (imap pair part).

Definition partitionBlock {D} `{LevelDB D} (schema : Schema) (b : Block) (next : Z) (p : PartitionIndex D)
  : outcome (list Block * Z * PartitionIndex D) :=
  partitioningTimestamp ← getPartitioningTimestamp b;
  '(tpart, p) ← getTimeSlicedPartitioning partitioningTimestamp p;
  '(master, next) ← master_block schema b next;
  '(blocks, next) ← sub_blocks schema (partitioning_ tpart) b next;
  Ret (master :: blocks, next, p).

(** ** The stored form *)

Definition serialize_edge (part : Z) (headVertex : VertexId)
  (st : NetworkByteBuffer * list (EdgeTriplet * unit)) (edge : NLEdge)
  : outcome (NetworkByteBuffer * list (EdgeTriplet * unit)) :=
  let '(sbuf, written) := st in
  sbuf ← addUInt64 (toVertex_ edge) sbuf;
  sbuf ← addDouble (tm_ edge) sbuf;
  if part =? -1 then Ret (sbuf, written)
  else
    let etrip := newEdgeTriplet headVertex (toVertex_ edge) (tm_ edge) in
    match triplet_find etrip written with
    | Some _ => Ret (sbuf, written)
    | None => sbuf ← put_data (cell (data_ edge)) sbuf; Ret (sbuf, (etrip, tt) :: written)
    end.

Definition serialize_list (part : Z)
  (st : NetworkByteBuffer * list (EdgeTriplet * unit)) (p : VertexId * NeighborList)
  : outcome (NetworkByteBuffer * list (EdgeTriplet * unit)) :=
  let '(sbuf, written) := st in
  sbuf ← addUInt64 p.1 sbuf;
  sbuf ← addUInt32 (u32 (Z.of_nat (length (edges_ p.2)))) sbuf;
  foldM (serialize_edge part p.1) (sbuf, written) (edges_ p.2).

Definition serialize (b : Block) (sbuf : NetworkByteBuffer) : outcome NetworkByteBuffer :=
  '(minTimestamp, maxTimestamp) ← findMinMaxTimestamps b;
  sbuf ← addUInt64 (id_ b) sbuf;
  sbuf ← put_vector uint64 (subBlocks_ b) sbuf;
  sbuf ← addDouble minTimestamp sbuf;
  sbuf ← addDouble maxTimestamp sbuf;
  part ← or_undefined (partition_ b);
  sbuf ← addInt32 part sbuf;
  '(sbuf, _) ← foldM (serialize_list part) (sbuf, []) (neigs_ b);
  _ ← cassert (negb (part =? -1) || negb (bool_decide (subBlocks_ b = [])));
  Ret sbuf.

(** The reference [part\[partition_\]] is formed before the test of
    [partition_], but only read when it is not -1. *)
Definition part_at (part : Partitioning) (i : Z) : outcome (list string) :=
  if i <? 0 then Undefined else or_undefined (part !! Z.to_nat i).

Definition deserialize_edge (schema : Schema) (part : Partitioning) (i : Z) (fsdata : SharedData)
  (headVertex : VertexId) (st : Block * list (EdgeTriplet * SharedData) * Z * NetworkByteBuffer)
  : outcome (Block * list (EdgeTriplet * SharedData) * Z * NetworkByteBuffer) :=
  let '(b, read, next, sbuf) := st in
  '(toVertex, sbuf) ← getUInt64 sbuf;
  '(tm, sbuf) ← getDouble sbuf;
  let etrip := newEdgeTriplet headVertex toVertex tm in
  '(sdata, read, next, sbuf) ←
    (if i =? -1 then Ret (fsdata, read, next, sbuf)
     else
       match triplet_find etrip read with
       | None =>
           attributes ← part_at part i;
           d ← newAttributeData_of schema attributes;
           '(d, sbuf) ← get_data d sbuf;
           let '(sdata, next) := alloc_data d next in
           Ret (sdata, (etrip, sdata) :: read, next, sbuf)
       | Some sdata => Ret (sdata, read, next, sbuf)
       end);
  b ← addEdge headVertex toVertex tm sdata b;
  Ret (b, read, next, sbuf).

Fixpoint deserialize_edges (n : nat) (schema : Schema) (part : Partitioning) (i : Z) (fsdata : SharedData)
  (headVertex : VertexId) (st : Block * list (EdgeTriplet * SharedData) * Z * NetworkByteBuffer)
  : outcome (Block * list (EdgeTriplet * SharedData) * Z * NetworkByteBuffer) :=
  match n with
  | O => Ret st
  | S n => st ← deserialize_edge schema part i fsdata headVertex st;
           deserialize_edges n schema part i fsdata headVertex st
  end.

(** [while (sbuf.getNRemainingBytes()>0)]; [None] when the fuel ran out. *)
Fixpoint deserialize_lists (fuel : nat) (schema : Schema) (part : Partitioning) (i : Z) (fsdata : SharedData)
  (st : Block * list (EdgeTriplet * SharedData) * Z * NetworkByteBuffer)
  : option (outcome (Block * list (EdgeTriplet * SharedData) * Z * NetworkByteBuffer)) :=
  let '(b, read, next, sbuf) := st in
  if getNRemainingBytes sbuf =? 0 then Some (Ret st)
  else
    match fuel with
    | O => None
    | S fuel =>
        match ('(headVertex, sbuf) ← getUInt64 sbuf;
               '(nedges, sbuf) ← getUInt32 sbuf;
               deserialize_edges (Z.to_nat nedges) schema part i fsdata headVertex (b, read, next, sbuf)) with
        | Ret st => deserialize_lists fuel schema part i fsdata st
        | Throw e => Some (Throw e)
        | AssertFailed => Some AssertFailed
        | Undefined => Some Undefined
        end
    end.

(** Every list takes at least twelve bytes, so the number of remaining bytes
    is enough fuel (see [deserialize_serialize]). *)
Definition deserialize {D} `{LevelDB D} (schema : Schema) (b : Block) (next : Z) (sbuf : NetworkByteBuffer)
  (p : PartitionIndex D) : option (outcome (Block * Z * NetworkByteBuffer * PartitionIndex D)) :=
  match ('(id, sbuf) ← getUInt64 sbuf;
         '(subBlocks, sbuf) ← get_vector uint64 (subBlocks_ b) sbuf;
         '(minTimestamp, sbuf) ← getDouble sbuf;
         '(maxTimestamp, sbuf) ← getDouble sbuf;
         '(i, sbuf) ← getInt32 sbuf;
         '(tpart, p) ← getTimeSlicedPartitioningForBlockDeserialization (midpoint minTimestamp maxTimestamp) p;
         d ← newAttributeData_of schema [];
         let '(fsdata, next) := alloc_data d next in
         Ret (mkBlock id (Some i) (serializedSize_ b) subBlocks (neigs_ b), i, partitioning_ tpart, fsdata, next, sbuf, p)) with
  | Ret (b, i, part, fsdata, next, sbuf, p) =>
      match deserialize_lists (Z.to_nat (getNRemainingBytes sbuf)) schema part i fsdata (b, [], next, sbuf) with
      | None => None
      | Some r => Some ('(b, _, next, sbuf) ← r;
                        _ ← cassert (negb (i =? -1) || negb (bool_decide (subBlocks_ b = [])));
                        Ret (b, next, sbuf, p))
      end
  | Throw e => Some (Throw e)
  | AssertFailed => Some AssertFailed
  | Undefined => Some Undefined
  end.
