(* ===== verification/BlockContent.v ===== *)
(** * What the operations on blocks do

    The content of a block is its lists of edges with the values of their
    attributes, without the addresses.  [addEdge] is shown never to fail its
    assertion as long as edges with the same end points and time share their
    data, and the loops that rebuild a block edge by edge (partitioning,
    recombining, reading from storage) are shown to produce the content they
    should. *)

From Stdlib Require Import ZArith Lia.
From stdpp Require Import base numbers gmap strings list sorting.
From S2P Require Import Prelude.
From S2P Require Import Double.
From S2P Require Import NetworkByteBuffer.
From S2P Require Import LevelDB.
From S2P Require Import Schema.
From S2P Require Import AttributeData.
From S2P Require Import NeighborList.
From S2P Require Import PartitionIndex.
From S2P Require Import Block.

(** ** Edge triplets *)

Lemma triplet_eqb_spec a b :
  triplet_eqb a b = true <->
  lowId_ a = lowId_ b /\ highId_ a = highId_ b /\ deqb (triplet_tm_ a) (triplet_tm_ b) = true.
Proof. unfold triplet_eqb. rewrite !andb_true_iff, !Z.eqb_eq. tauto. Qed.

Lemma deqb_sym a b : deqb a b = deqb b a.
Proof. unfold deqb. rewrite (andb_comm (negb (is_nan a))). f_equal. apply Z.eqb_sym. Qed.

Lemma deqb_trans a b c : deqb a b = true -> deqb b c = true -> deqb a c = true.
Proof. unfold deqb. rewrite !andb_true_iff, !Z.eqb_eq. intuition congruence. Qed.

Lemma triplet_sym a b : triplet_eqb a b = true -> triplet_eqb b a = true.
Proof. rewrite !triplet_eqb_spec, deqb_sym. intuition congruence. Qed.

Lemma triplet_trans a b c : triplet_eqb a b = true -> triplet_eqb b c = true -> triplet_eqb a c = true.
Proof.
  rewrite !triplet_eqb_spec. intros (-> & -> & H1) (-> & -> & H2). split_and!; [done..|].
  by eapply deqb_trans.
Qed.

Lemma triplet_refl id1 id2 tm : num tm -> triplet_eqb (newEdgeTriplet id1 id2 tm) (newEdgeTriplet id1 id2 tm) = true.
Proof. intros H. apply triplet_eqb_spec. split_and!; [done..|]. by apply deqb_refl. Qed.

(** The reverse edge has the same triplet. *)
Lemma triplet_reverse id1 id2 tm tm' :
  deqb tm tm' = true -> triplet_eqb (newEdgeTriplet id1 id2 tm) (newEdgeTriplet id2 id1 tm') = true.
Proof. intros H. apply triplet_eqb_spec. cbn. split_and!; [lia..|done]. Qed.

Lemma triplet_find_cons {V} t (p : EdgeTriplet * V) m :
  triplet_find t (p :: m) = if triplet_eqb p.1 t then Some p.2 else triplet_find t m.
Proof.
  unfold triplet_find. cbn. destruct (triplet_eqb p.1 t) eqn:E.
  - by rewrite decide_True.
  - rewrite decide_False by congruence. by destruct (list_find _ m) as [[]|].
Qed.

Lemma triplet_find_Some {V} t (m : list (EdgeTriplet * V)) v :
  triplet_find t m = Some v -> exists t', (t', v) ∈ m /\ triplet_eqb t' t = true.
Proof.
  induction m as [|[t' v'] m IH]; [done|]. rewrite triplet_find_cons. cbn. case_if.
  - intros [= ->]. exists t'. split; [left|done].
  - intros H. destruct (IH H) as (t0 & ? & ?). exists t0. split; [by right|done].
Qed.

Lemma triplet_find_proper {V} t t' (m : list (EdgeTriplet * V)) :
  triplet_eqb t t' = true -> triplet_find t m = triplet_find t' m.
Proof.
  intros H. induction m as [|p m IH]; [done|]. rewrite !triplet_find_cons, IH.
  assert (triplet_eqb p.1 t = triplet_eqb p.1 t') as ->; [|done].
  apply eq_true_iff_eq. split; intros Hp; eapply triplet_trans; eauto using triplet_sym.
Qed.

(** ** The edges of a block *)

(** [(headVertex, edge)] for every edge of the block. *)
Definition has_edge (b : Block) (h : VertexId) (e : NLEdge) : Prop :=
  exists nl, assoc_find h (neigs_ b) = Some nl /\ e ∈ edges_ nl.

Abbreviation Content := (list (VertexId * list (VertexId * Timestamp * AttributeData))).

Definition edge_content (e : NLEdge) : VertexId * Timestamp * AttributeData :=
  (toVertex_ e, tm_ e, cell (data_ e)).

Definition content (b : Block) : Content :=
  (fun p => (p.1, edge_content <$> edges_ p.2)) <$> neigs_ b.

(** Adding one edge to a content. *)
Definition cpush (c : Content) (h : VertexId) (x : VertexId * Timestamp * AttributeData) : Content :=
  assoc_set h (default [] (assoc_find h c) ++ [x]) c.

Lemma assoc_find_fmap {A B} (f : A -> B) h (l : list (Z * A)) :
  assoc_find h ((fun p => (p.1, f p.2)) <$> l) = f <$> assoc_find h l.
Proof. induction l as [|[k v] l IH]; [done|]. cbn. by case_decide. Qed.

Lemma assoc_set_fmap {A B} (f : A -> B) h v (l : list (Z * A)) :
  (fun p => (p.1, f p.2)) <$> assoc_set h v l = assoc_set h (f v) ((fun p => (p.1, f p.2)) <$> l).
Proof. induction l as [|[k w] l IH]; [done|]. cbn. case_decide; cbn; [done|]. by rewrite IH. Qed.

Lemma assoc_set_set {A} h (v w : A) (l : list (Z * A)) : assoc_set h v (assoc_set h w l) = assoc_set h v l.
Proof.
  induction l as [|[k x] l IH]; cbn; [by rewrite decide_True|].
  destruct (decide (h = k)) as [->|]; cbn; [by rewrite decide_True|].
  by rewrite decide_False, IH.
Qed.

(** The lists of [neigs_] after [addNeighborList] and the new edge. *)
Definition push_edge (h : VertexId) (e : NLEdge) (ns : list (VertexId * NeighborList)) :=
  assoc_set h (NeighborList.addEdge e (default (mkNeighborList h []) (assoc_find h ns))) ns.

Lemma push_edge_content h e b b' :
  neigs_ b' = push_edge h e (neigs_ b) -> content b' = cpush (content b) h (edge_content e).
Proof.
  intros E. unfold content, cpush, push_edge in *. rewrite E.
  rewrite (assoc_set_fmap (fun l => edge_content <$> edges_ l)), (assoc_find_fmap (fun l => edge_content <$> edges_ l)).
  destruct (assoc_find h (neigs_ b)) as [nl|]; cbn; [by rewrite fmap_app|done].
Qed.

Lemma push_edge_has_edge h e b b' h' e' :
  neigs_ b' = push_edge h e (neigs_ b) ->
  has_edge b' h' e' <-> has_edge b h' e' \/ (h' = h /\ e' = e).
Proof.
  intros E. unfold has_edge. rewrite E. unfold push_edge.
  rewrite assoc_find_set. destruct (decide (h' = h)) as [->|Hne].
  - split.
    + intros (nl & [= <-] & Hin). cbn in Hin. apply elem_of_app in Hin as [Hin|Hin%list_elem_of_singleton]; [|by right].
      destruct (assoc_find h (neigs_ b)) as [nl|]; cbn in Hin; [eauto|set_solver].
    + intros H. eexists. split; [done|]. cbn. apply elem_of_app.
      destruct H as [(nl & -> & Hin)|[_ ->]]; [by left|right; set_solver].
  - naive_solver.
Qed.

(** Same block apart from the lists and the size. *)
Definition same_header (b b' : Block) : Prop :=
  id_ b' = id_ b /\ partition_ b' = partition_ b /\ subBlocks_ b' = subBlocks_ b.

(** [addEdge] succeeds when the block's edges with the same triplet have the
    same data, and only appends the edge to the list of its head. *)
Lemma addEdge_ok h to tm d b :
  well_typed (cell d) ->
  (forall e, has_edge b to e -> toVertex_ e = h -> deqb (tm_ e) tm = true -> data_ e = d) ->
  exists b', addEdge h to tm d b = Ret b' /\ same_header b b' /\
    neigs_ b' = push_edge h (mkNLEdge to tm d) (neigs_ b).
Proof.
  intros Hd Hagree. unfold addEdge.
  assert (shared_data h to tm d b = Ret None \/ shared_data h to tm d b = Ret (Some d)) as Hs.
  { unfold shared_data. destruct (assoc_find to (neigs_ b)) as [nl|] eqn:E; [|by left].
    destruct (getEdgeAttributeData nl h tm) as [sd|] eqn:Eg; [|by left].
    apply getEdgeAttributeData_Some in Eg as (e & He & Hto & Htm & <-).
    rewrite (Hagree e); [|by exists nl|done..]. rewrite Z.eqb_refl. by right. }
  destruct Hs as [-> | ->]; rewrite ?getSerializedSizeOf_ok by done; cbn [mbind outcome_bind].
  all: unfold addNeighborList; cbn [neigs_ grow with_size].
  all: destruct (assoc_find h (neigs_ b)) as [nl|] eqn:Eh;
    cbn [neigs_ with_size grow with_neigs]; rewrite ?Eh, ?assoc_find_set, ?(decide_True (P := h = h)) by done;
    cbn [or_undefined mbind outcome_bind]; eexists; split_and!; try done;
    unfold push_edge; rewrite Eh; cbn; rewrite ?assoc_set_set; done.
Qed.

(** ** Rebuilding a block edge by edge

    The loops of [partitionBlock], [recombineBlock] and [deserialize] take the
    edges of a block in order, keep the data they made for a triplet, and add
    the edge with that data.  [F] is the data each edge should get. *)

Definition edge_triplet (x : VertexId * nat * NLEdge) : EdgeTriplet :=
  newEdgeTriplet x.1.1 (toVertex_ x.2) (tm_ x.2).

Definition replay_content (F : VertexId * nat * NLEdge -> AttributeData)
  (xs : list (VertexId * nat * NLEdge)) : Content :=
  foldl (fun c x => cpush c x.1.1 (toVertex_ x.2, tm_ x.2, F x)) [] xs.

Section Replay.
Context (xs : list (VertexId * nat * NLEdge)) (F : VertexId * nat * NLEdge -> AttributeData).
Context (Hnum : forall x, x ∈ xs -> num (tm_ x.2)).
Context (Hcoh : forall x y, x ∈ xs -> y ∈ xs -> triplet_eqb (edge_triplet x) (edge_triplet y) = true -> F x = F y).
Context (Htyped : forall x, x ∈ xs -> well_typed (F x)).

Record replay_inv (b0 : Block) (done : list (VertexId * nat * NLEdge)) (block : Block)
    (read : list (EdgeTriplet * SharedData)) : Prop := {
  ri_header : same_header b0 block;
  ri_content : content block = replay_content F done;
  (** every edge of the block has the data recorded for its triplet *)
  ri_data h e : has_edge block h e ->
    triplet_find (newEdgeTriplet h (toVertex_ e) (tm_ e)) read = Some (data_ e);
  (** what is recorded is what the edges with that triplet should get *)
  ri_read x d : x ∈ xs -> triplet_find (edge_triplet x) read = Some d -> cell d = F x
}.

Lemma replay_init b0 : neigs_ b0 = [] -> replay_inv b0 [] b0 [].
Proof.
  intros E. split; try done.
  - unfold content. by rewrite E.
  - intros h e (nl & Hf & _). rewrite E in Hf. done.
Qed.

Lemma replay_add b0 done block read x d :
  x ∈ xs -> replay_inv b0 done block read -> triplet_find (edge_triplet x) read = Some d ->
  exists block', addEdge x.1.1 (toVertex_ x.2) (tm_ x.2) d block = Ret block' /\
    replay_inv b0 (done ++ [x]) block' read.
Proof.
  intros Hx Hinv Hfind. pose proof Hinv as [Hh Hc Hd Hr].
  pose proof (Hr x d Hx Hfind) as HF.
  destruct (addEdge_ok x.1.1 (toVertex_ x.2) (tm_ x.2) d block) as (b' & E & Hh' & Hn).
  - rewrite HF. by apply Htyped.
  - intros e He Hto Htm. apply Hd in He.
    rewrite (triplet_find_proper _ (edge_triplet x)) in He; [congruence|].
    rewrite Hto. unfold edge_triplet. by apply triplet_reverse.
  - exists b'. split; [exact E|]. split.
    + unfold same_header in *. intuition congruence.
    + rewrite (push_edge_content _ _ _ _ Hn). unfold replay_content. rewrite foldl_app, Hc. cbn.
      by rewrite <- HF.
    + intros h e. rewrite (push_edge_has_edge _ _ _ _ h e Hn). intros [He|[-> ->]]; [by apply Hd|done].
    + done.
Qed.

(** Recording new data for a triplet that has none. *)
Lemma replay_record b0 done block read x d :
  x ∈ xs -> replay_inv b0 done block read -> triplet_find (edge_triplet x) read = None ->
  cell d = F x -> replay_inv b0 done block ((edge_triplet x, d) :: read).
Proof.
  intros Hx [Hh Hc Hd Hr] Hnone HF. split; try done.
  - intros h e He. rewrite triplet_find_cons. cbn. destruct (triplet_eqb (edge_triplet x) _) eqn:E; [|by apply Hd].
    apply Hd in He. apply triplet_sym in E. rewrite (triplet_find_proper _ _ _ E) in He. congruence.
  - intros y dy Hy. rewrite triplet_find_cons. cbn. destruct (triplet_eqb (edge_triplet x) _) eqn:E; [|by apply Hr].
    intros [= <-]. rewrite HF. by apply Hcoh.
Qed.

Lemma replay_new b0 done block read x d :
  x ∈ xs -> replay_inv b0 done block read -> triplet_find (edge_triplet x) read = None ->
  cell d = F x ->
  exists block', addEdge x.1.1 (toVertex_ x.2) (tm_ x.2) d block = Ret block' /\
    replay_inv b0 (done ++ [x]) block' ((edge_triplet x, d) :: read).
Proof.
  intros Hx Hinv Hnone HF. apply replay_add; [done|by apply replay_record|].
  rewrite triplet_find_cons. cbn. unfold edge_triplet. by rewrite triplet_refl by auto.
Qed.
End Replay.

(** Replaying all the edges of a block gives its lists with the new data. *)
Definition block_ok (b : Block) : Prop :=
  NoDup (neigs_ b).*1 /\ Forall (fun p => edges_ p.2 <> []) (neigs_ b).

Lemma replay_list F h es n (c : Content) l :
  h ∉ c.*1 ->
  foldl (fun c x => cpush c x.1.1 (toVertex_ x.2, tm_ x.2, F x)) (c ++ [(h, l)])
    (imap (fun k e => (h, (n + k)%nat, e)) es) =
  c ++ [(h, l ++ imap (fun k e => (toVertex_ e, tm_ e, F (h, (n + k)%nat, e))) es)].
Proof.
  intros Hn. revert n l. induction es as [|e es IH]; intros n l; cbn; [by rewrite app_nil_r|].
  unfold cpush at 2. cbn. rewrite assoc_find_app.
  assert (assoc_find h c = None) as Hf by (by apply assoc_find_None). rewrite Hf. cbn.
  rewrite decide_True, assoc_set_middle by done. cbn.
  rewrite (imap_ext _ (fun k e => (h, (S n + k)%nat, e))) by (intros; cbn; do 2 f_equal; lia).
  rewrite IH, <- app_assoc. cbn. do 5 f_equal.
  apply imap_ext. intros k x _. cbn. by rewrite Nat.add_succ_r.
Qed.

Definition mapped_content (F : VertexId * nat * NLEdge -> AttributeData) (b : Block) : Content :=
  (fun p => (p.1, imap (fun k e => (toVertex_ e, tm_ e, F (p.1, k, e))) (edges_ p.2))) <$> neigs_ b.

Lemma replay_all F b :
  block_ok b -> replay_content F (edges_of b) = mapped_content F b.
Proof.
  intros [Hnd Hne]. unfold replay_content, edges_of, mapped_content.
  assert (forall ns c, NoDup (c ++ ns).*1 -> Forall (fun p => edges_ p.2 <> []) ns ->
    forall c', c'.*1 = c.*1 ->
    foldl (fun c x => cpush c x.1.1 (toVertex_ x.2, tm_ x.2, F x)) c'
      (concat ((fun p => imap (fun k e => (p.1, k, e)) (edges_ p.2)) <$> ns)) =
    c' ++ ((fun p => (p.1, imap (fun k e => (toVertex_ e, tm_ e, F (p.1, k, e))) (edges_ p.2))) <$> ns)) as H.
  { induction ns as [|[h nl] ns IH]; intros c Hnd1 Hne1 c' Hc'; cbn; [by rewrite app_nil_r|].
    apply Forall_cons in Hne1 as [Hne1 Hne2]. cbn in Hne1.
    assert (h ∉ c'.*1) as Hh.
    { rewrite Hc'. rewrite fmap_app in Hnd1. apply NoDup_app in Hnd1 as (_ & H1 & _).
      intros Hin. apply (H1 _ Hin). cbn. left. }
    rewrite foldl_app. destruct (edges_ nl) as [|e es]; [done|]. cbn [imap foldl].
    unfold cpush at 3. cbn [fst snd].
    rewrite (proj2 (assoc_find_None h c')), assoc_set_new by done. cbn [default app].
    pose proof (replay_list F h es 1 c' [(toVertex_ e, tm_ e, F (h, 0%nat, e))] Hh) as Hl.
    cbn [Nat.add] in Hl.
    rewrite (imap_ext (_ ∘ S) (fun k x => (h, S k, x))) by done. rewrite Hl.
    rewrite (IH (c ++ [(h, nl)])); [|by rewrite <- app_assoc|done|by rewrite !fmap_app, Hc'].
    by rewrite <- app_assoc. }
  by apply (H (neigs_ b) [] Hnd Hne []).
Qed.

(** ** Attribute data of a part *)

Definition names_of_schema (schema : Schema) (attributes : list string) : Prop :=
  Forall (fun a => is_Some (nameToIndex_ schema !! a)) attributes.

Definition index_in (schema : Schema) (attributes : list string) (i : Z) : Prop :=
  exists a, a ∈ attributes /\ nameToIndex_ schema !! a = Some i.

#[export] Instance index_in_dec s attrs i : Decision (index_in s attrs i).
Proof.
  destruct (decide (Exists (fun a => nameToIndex_ s !! a = Some i) attrs)) as [H|H];
    rewrite Exists_exists in H; [left|right]; unfold index_in; naive_solver.
Defined.

(** Data with exactly the fields [schema.newAttributeData()] makes. *)
Definition complete (schema : Schema) (d : AttributeData) : Prop :=
  well_typed d /\ schema_ d = schema /\ (fields_ d).*1 = (fields_ (newAttributeData schema)).*1.

Lemma assoc_find_is_Some {V} i (l : list (Z * V)) : is_Some (assoc_find i l) <-> i ∈ l.*1.
Proof.
  destruct (assoc_find i l) eqn:E.
  - split; [|eauto]. intros _. apply assoc_find_Some in E. apply list_elem_of_fmap. by eexists (_, _).
  - split; [by intros []|]. intros Hin. by apply assoc_find_None in E.
Qed.

Lemma newAttributeData_keys s i :
  is_Some (assoc_find i (fields_ (newAttributeData s))) <-> exists a, a ∈ attributes_ s /\ index_ a = i.
Proof.
  unfold newAttributeData. cbn.
  assert (forall l f, is_Some (assoc_find i (foldl (fun f attrb =>
      assoc_emplace (index_ attrb) (getTypeValue (type_ attrb)) f) f l)) <->
    is_Some (assoc_find i f) \/ exists a, a ∈ l /\ index_ a = i) as H.
  { induction l as [|a l IH]; intros f; cbn; [set_solver|].
    rewrite IH, assoc_find_emplace. destruct (assoc_find i f) eqn:E; [split; eauto|].
    case_decide as Hi; [subst; split; [|eauto]; intros _; right; exists a; set_solver|].
    split.
    - intros [[? [=]]|(x & Hx & Hix)]. right. exists x. set_solver.
    - intros [[? [=]]|(x & [->|Hx]%elem_of_cons & Hix)]; [congruence|]. right. eauto. }
  rewrite H. cbn. split; [intros [[? [=]]|?]; done|by right].
Qed.

Lemma schema_index_attribute s a i :
  schema_ok s -> nameToIndex_ s !! a = Some i ->
  exists at_, attribute_at s i = Ret at_ /\ at_ ∈ attributes_ s /\ index_ at_ = i.
Proof.
  intros Hok Ha. destruct (names_sound _ Hok _ _ Ha) as (j & at_ & -> & Hj & Hn).
  exists at_. rewrite attribute_at_lookup, Hj. split_and!; [done| |by apply (Schema.index_ok _ Hok)].
  apply list_elem_of_lookup. eauto.
Qed.

Lemma newAttributeData_of_ok s attrs :
  defined_schema s -> names_of_schema s attrs ->
  exists d, newAttributeData_of s attrs = Ret d /\ well_typed d /\ schema_ d = s /\
    forall i, is_Some (assoc_find i (fields_ d)) <-> index_in s attrs i.
Proof.
  intros Hdef Hn.
  assert (exists f, foldM (fun f attrb =>
      idx ← getIndex s attrb;
      a ← attribute_at s idx;
      Ret (assoc_emplace idx (getTypeValue (type_ a)) f)) [] attrs = Ret f /\
      forall i, is_Some (assoc_find i f) <-> index_in s attrs i) as (f & Hf & Hkeys).
  { apply (foldM_total (fun l f => forall i, is_Some (assoc_find i f) <-> index_in s l i)).
    - intros i. split; [by intros []|]. intros (a & Ha & _). set_solver.
    - intros l a rest f El IH. unfold names_of_schema in Hn. rewrite El, Forall_app, Forall_cons in Hn.
      destruct Hn as (_ & [idx Ha] & _).
      destruct (schema_index_attribute s a idx (proj1 Hdef) Ha) as (at_ & Hat & _ & _).
      unfold getIndex. rewrite Ha. cbn. rewrite Hat. cbn. eexists. split; [done|].
      intros i. rewrite assoc_find_emplace. unfold index_in in *.
      destruct (assoc_find i f) eqn:E.
      + split; [intros _|eauto]. destruct (proj1 (IH i) ltac:(eauto)) as (x & ? & ?).
        exists x. set_solver.
      + case_decide as Hi.
        * subst. split; [|eauto]. intros _. exists a. set_solver.
        * split; [by intros []|]. intros (x & [Hx|Hx%list_elem_of_singleton]%elem_of_app & Hix); [|congruence].
          destruct (proj2 (IH i) ltac:(eauto)) as [? Hbad]. congruence. }
  assert (newAttributeData_of s attrs = Ret (mkData f s)) as E.
  { unfold newAttributeData_of. by rewrite Hf. }
  destruct (newAttributeData_of_typed s attrs _ Hdef E) as [Hwt _].
  exists (mkData f s). done.
Qed.

Lemma complete_field s d a i :
  schema_ok s -> complete s d -> nameToIndex_ s !! a = Some i ->
  exists v, assoc_find i (fields_ d) = Some v /\ typed_field s (i, v).
Proof.
  intros Hok ([Hnd Hty] & Hs & Hk) Ha.
  destruct (schema_index_attribute s a i Hok Ha) as (at_ & _ & Hin & Hi).
  assert (is_Some (assoc_find i (fields_ d))) as [v Hv].
  { apply assoc_find_is_Some. rewrite Hk. apply assoc_find_is_Some, newAttributeData_keys. eauto. }
  exists v. split; [done|]. rewrite Forall_forall, Hs in Hty. by apply Hty, assoc_find_Some.
Qed.

(** [project] succeeds and takes exactly the fields of the part from the edge. *)
Lemma project_ok s attrs d :
  defined_schema s -> names_of_schema s attrs -> complete s d ->
  exists p, project s attrs d = Ret p /\ well_typed p /\ schema_ p = s /\
    (forall i, index_in s attrs i -> assoc_find i (fields_ p) = assoc_find i (fields_ d)) /\
    (forall i, ~ index_in s attrs i -> assoc_find i (fields_ p) = None).
Proof.
  intros Hdef Hn Hc. unfold project.
  destruct (newAttributeData_of_ok s attrs Hdef Hn) as (p0 & -> & Hwt & Hs & Hk). cbn [mbind outcome_bind].
  destruct (foldM_total (fun l p => well_typed p /\ schema_ p = s /\
      (forall i, index_in s l i -> assoc_find i (fields_ p) = assoc_find i (fields_ d)) /\
      (forall i, ~ index_in s l i -> assoc_find i (fields_ p) = assoc_find i (fields_ p0)))
    (fun sdata attrb => attrbIdx ← getIndex s attrb; v ← getAttribute d attrbIdx;
       Ret (setAttribute sdata attrbIdx v)) attrs p0) as (p & Hp & Hwt' & Hs' & H1 & H2).
  - split_and!; try done. intros i (a & Ha & _). set_solver.
  - intros l a rest p El (Hwt1 & Hs1 & H1 & H2).
    unfold names_of_schema in Hn. rewrite El, Forall_app, Forall_cons in Hn. destruct Hn as (_ & [idx Ha] & _).
    destruct (complete_field s d a idx (proj1 Hdef) Hc Ha) as (v & Hv & Hty).
    unfold getIndex, getAttribute. rewrite Ha. cbn. rewrite Hv. cbn.
    eexists. split; [done|]. split_and!.
    + apply setAttribute_typed; [done|by rewrite Hs1].
    + done.
    + intros i Hi. cbn. rewrite assoc_find_set. case_decide; [by subst|]. apply H1.
      destruct Hi as (x & [Hx|Hx%list_elem_of_singleton]%elem_of_app & Hix); [by exists x|congruence].
    + intros i Hi. cbn. rewrite assoc_find_set. case_decide as Hdec.
      * destruct Hi. exists a. subst. split; [set_solver|done].
      * apply H2. intros (x & Hx & Hix). apply Hi. exists x. split; [set_solver|done].
  - exists p. split_and!; try done. intros i Hi. rewrite H2 by done.
    destruct (assoc_find i (fields_ p0)) eqn:E; [|done]. destruct Hi. apply Hk. eauto.
Qed.

(** ** Partitioning a block *)

Record block_wf (s : Schema) (b : Block) : Prop := {
  bw_ok : block_ok b;
  bw_time x : x ∈ edges_of b -> num (tm_ x.2);
  (** edges with the same end points and time have the same attributes *)
  bw_coherent x y : x ∈ edges_of b -> y ∈ edges_of b ->
    triplet_eqb (edge_triplet x) (edge_triplet y) = true -> cell (data_ x.2) = cell (data_ y.2);
  bw_data x : x ∈ edges_of b -> complete s (cell (data_ x.2))
}.

Definition projected (s : Schema) (attrs : list string) (d : AttributeData) : AttributeData :=
  match project s attrs d with Ret p => p | _ => d end.

Lemma elem_of_edges_of b h k e :
  (h, k, e) ∈ edges_of b <-> exists nl, (h, nl) ∈ neigs_ b /\ edges_ nl !! k = Some e.
Proof.
  unfold edges_of. rewrite list_elem_of_In, in_concat. setoid_rewrite <- list_elem_of_In. split.
  - intros (l & Hl & Hin). apply list_elem_of_fmap in Hl as ([h' nl] & -> & Hp).
    apply elem_of_lookup_imap in Hin as (k' & e' & [= -> -> ->] & Hk). eauto.
  - intros (nl & Hp & Hk). eexists. split; [apply list_elem_of_fmap; eexists; split; [reflexivity|exact Hp]|].
    apply elem_of_lookup_imap. eauto.
Qed.

Section Partition.
Context (s : Schema) (Hdef : defined_schema s) (b : Block) (Hwf : block_wf s b).

Lemma sub_block_ok i attrs next :
  names_of_schema s attrs ->
  exists b' next', sub_block s i attrs b next = Ret (b', next') /\
    same_header (with_partition (Z.of_nat i) (new_block 0)) b' /\
    content b' = mapped_content (fun x => projected s attrs (cell (data_ x.2))) b.
Proof.
  intros Hn. unfold sub_block. set (b0 := with_partition _ _).
  set (F := fun x : VertexId * nat * NLEdge => projected s attrs (cell (data_ x.2))).
  assert (forall x, x ∈ edges_of b -> exists p, project s attrs (cell (data_ x.2)) = Ret p /\ F x = p /\ well_typed p) as HF.
  { intros x Hx. destruct (project_ok s attrs _ Hdef Hn (bw_data _ _ Hwf x Hx)) as (p & Hp & Hw & _).
    exists p. unfold F, projected. by rewrite Hp. }
  destruct (foldM_total (fun l st => replay_inv (edges_of b) F b0 l st.1.1 st.1.2)
    (sub_block_step s attrs) (edges_of b) (b0, [], next)) as ([[b' read] next'] & E & Hinv).
  - by apply replay_init.
  - intros l x rest [[block read] nx] El Hinv. cbn in Hinv.
    assert (x ∈ edges_of b) as Hx by (rewrite El; set_solver).
    destruct (HF x Hx) as (p & Hp & HFx & Hw).
    assert (forall y, y ∈ edges_of b -> num (tm_ y.2)) as H1 by apply Hwf.
    assert (forall y z, y ∈ edges_of b -> z ∈ edges_of b ->
      triplet_eqb (edge_triplet y) (edge_triplet z) = true -> F y = F z) as H2.
    { intros y z Hy Hz Ht. unfold F. by rewrite (bw_coherent _ _ Hwf y z). }
    assert (forall y, y ∈ edges_of b -> well_typed (F y)) as H3.
    { intros y Hy. destruct (HF y Hy) as (? & _ & -> & ?). done. }
    destruct x as [[h k] e]. unfold sub_block_step.
    change (newEdgeTriplet h (toVertex_ e) (tm_ e)) with (edge_triplet (h, k, e)).
    destruct (triplet_find (edge_triplet (h, k, e)) read) as [d|] eqn:Ef.
    + destruct (replay_add _ F H3 b0 l block read _ d Hx Hinv Ef) as (b1 & Ha & Hinv').
      cbn in Ha |- *. rewrite Ha. cbn. by eexists.
    + cbn in Hp. rewrite Hp. cbn.
      destruct (replay_new _ F H1 H2 H3 b0 l block read _ (mkShared nx p) Hx Hinv Ef) as (b1 & Ha & Hinv');
        [by cbn; rewrite HFx|].
      cbn in Ha. rewrite Ha. cbn. by eexists.
  - rewrite E. cbn. exists b', next'. destruct Hinv as [Hh Hc _ _]. split_and!; try done.
    cbn in Hc. rewrite Hc. apply replay_all, Hwf.
Qed.

(** The data of the master block's edges: no fields. *)
Definition no_data : AttributeData := mkData [] s.

Lemma master_block_ok next :
  exists b' next', master_block s b next = Ret (b', next') /\
    same_header (with_partition (-1) (new_block 0)) b' /\
    content b' = mapped_content (fun _ => no_data) b.
Proof.
  unfold master_block. cbn [newAttributeData_of foldM mbind outcome_bind].
  cbv beta iota. unfold alloc_data. set (sd := mkShared next _). set (b0 := with_partition _ _).
  destruct (foldM_total (fun l block => same_header b0 block /\ content block = replay_content (fun _ => no_data) l /\
      forall h e, has_edge block h e -> data_ e = sd)
    (fun block '(headVertex, _, edge) => addEdge headVertex (toVertex_ edge) (tm_ edge) sd block)
    (edges_of b) b0) as (b' & E & Hh & Hc & _).
  - split_and!; try done. intros h e (nl & Hf & _). done.
  - intros l [[h k] e] rest block El (Hh & Hc & Hd).
    destruct (addEdge_ok h (toVertex_ e) (tm_ e) sd block) as (b1 & E & Hh1 & Hn1).
    + split; constructor.
    + intros. by eapply Hd.
    + exists b1. split; [done|]. split_and!.
      * unfold same_header in *. intuition congruence.
      * rewrite (push_edge_content _ _ _ _ Hn1), Hc. unfold replay_content. by rewrite foldl_app.
      * intros h' e'. rewrite (push_edge_has_edge _ _ _ _ h' e' Hn1). intros [He|[-> ->]]; [by eapply Hd|done].
  - rewrite E. cbn. exists b', (next + 1). split_and!; try done. rewrite Hc. apply replay_all, Hwf.
Qed.

Lemma sub_blocks_ok part next :
  Forall (names_of_schema s) part ->
  exists blocks next', sub_blocks s part b next = Ret (blocks, next') /\ length blocks = length part /\
    forall i attrs, part !! i = Some attrs -> exists b', blocks !! i = Some b' /\
      same_header (with_partition (Z.of_nat i) (new_block 0)) b' /\
      content b' = mapped_content (fun x => projected s attrs (cell (data_ x.2))) b.
Proof.
  intros Hn. unfold sub_blocks.
  destruct (foldM_total (fun l st => length st.1 = length l /\
      forall j i attrs, l !! j = Some (i, attrs) -> exists b', st.1 !! j = Some b' /\
        same_header (with_partition (Z.of_nat i) (new_block 0)) b' /\
        content b' = mapped_content (fun x => projected s attrs (cell (data_ x.2))) b)
    (fun '(blocks, next) '(i, attributes) =>
      '(block, next) ← sub_block s i attributes b next; Ret (blocks ++ [block], next))
    (imap pair part) ([], next)) as ([blocks next'] & E & Hl & Hb).
  - done.
  - intros l [i attrs] rest [blocks nx] El [Hl Hb]. cbn in Hl, Hb.
    assert ((i, attrs) ∈ imap pair part) as Hin by (rewrite El; set_solver).
    apply elem_of_lookup_imap in Hin as (? & ? & [= <- <-] & Hi).
    rewrite Forall_lookup in Hn. destruct (sub_block_ok i attrs nx (Hn _ _ Hi)) as (b' & nx' & Eb & Hh & Hc).
    rewrite Eb. cbn. eexists. split; [done|]. cbn. rewrite !length_app. split; [cbn; lia|].
    intros j i' attrs' [Hj|[-> [= <- <-]]]%lookup_snoc_cases.
    + destruct (Hb _ _ _ Hj) as (b1 & Hb1 & ?). exists b1. split; [by apply lookup_app_l_Some|done].
    + exists b'. rewrite lookup_app_r, Hl, Nat.sub_diag by lia. done.
  - rewrite E. exists blocks, next'. cbn in Hl, Hb. rewrite length_imap in Hl. split_and!; try done.
    intros i attrs Hi. apply (Hb i i attrs). by rewrite list_lookup_imap, Hi.
Qed.

Lemma getPartitioningTimestamp_ok :
  exists t, getPartitioningTimestamp b = Ret t.
Proof.
  unfold getPartitioningTimestamp, findMinMaxTimestamps.
  destruct (bw_ok _ _ Hwf) as [_ Hne]. revert Hne. generalize (dmax, dzero) as acc.
  induction (neigs_ b) as [|[h nl] ns IH]; intros [mn mx] Hne; cbn; [eauto|].
  apply Forall_cons in Hne as [Hne1 Hne]. cbn in Hne1.
  unfold getOldestEdge, getNewestEdge. destruct (edges_ nl) as [|e es] eqn:E; [done|]. cbn [head].
  destruct (last (e :: es)) as [e'|] eqn:El; [|by apply last_None in El]. cbn. by apply IH.
Qed.
End Partition.

(** ** Recombining sub blocks *)

(** Association lists with the same distinct keys in the same order and the
    same values are equal. *)
Lemma assoc_ext {V} (l1 l2 : list (Z * V)) :
  NoDup l1.*1 -> l1.*1 = l2.*1 -> (forall i, assoc_find i l1 = assoc_find i l2) -> l1 = l2.
Proof.
  revert l2. induction l1 as [|[k v] l1 IH]; intros [|[k' v'] l2] Hnd Hk Hf; try done.
  cbn in Hk, Hnd. injection Hk as <- Hk. apply NoDup_cons in Hnd as [Hn Hnd].
  pose proof (Hf k) as Hkv. cbn in Hkv. rewrite !decide_True in Hkv by done. injection Hkv as <-.
  f_equal. apply IH; [done..|]. intros i. destruct (decide (i = k)) as [->|Hne].
  - assert (assoc_find k l1 = None) as -> by (by apply assoc_find_None).
    symmetry. apply assoc_find_None. by rewrite <- Hk.
  - specialize (Hf i). cbn in Hf. by rewrite !decide_False in Hf by done.
Qed.

(** The part [attributes] says which fields of [d] the data [p] has. *)
Definition is_part (s : Schema) (attrs : list string) (d p : AttributeData) : Prop :=
  well_typed p /\ (forall i, index_in s attrs i -> assoc_find i (fields_ p) = assoc_find i (fields_ d)) /\
  (forall i, ~ index_in s attrs i -> assoc_find i (fields_ p) = None).

Definition covers (s : Schema) (part : Partitioning) : Prop :=
  Forall (names_of_schema s) part /\
  forall i, is_Some (assoc_find i (fields_ (newAttributeData s))) -> exists attrs, attrs ∈ part /\ index_in s attrs i.

(** The part of the data of [d] gathered so far. *)
Definition gathered (s : Schema) (part : Partitioning) (d g : AttributeData) : Prop :=
  schema_ g = s /\ (fields_ g).*1 = (fields_ (newAttributeData s)).*1 /\
  forall i attrs, attrs ∈ part -> index_in s attrs i -> assoc_find i (fields_ g) = assoc_find i (fields_ d).

Lemma gathered_step s part attrs d g p :
  complete s d -> gathered s part d g -> is_part s attrs d p ->
  gathered s (part ++ [attrs]) d (setAttributes g p).
Proof.
  intros (_ & _ & Hk) (Hs & Hkg & Hg) ([Hnd _] & H1 & H2).
  destruct (setAttributes_spec g p Hnd) as [Hkeys Hfind]. split_and!; [done|congruence|].
  intros i a [Ha|Ha%list_elem_of_singleton]%elem_of_app Hi; rewrite Hfind.
  - rewrite (Hg i a Ha Hi). destruct (assoc_find i (fields_ d)) eqn:E; [|done]. f_equal.
    destruct (assoc_find i (fields_ p)) as [w|] eqn:Ep; [|done]. cbn.
    assert (index_in s attrs i) as Hi'.
    { apply dec_stable. intros Hn. rewrite (H2 _ Hn) in Ep. done. }
    rewrite (H1 i Hi'), E in Ep. congruence.
  - subst a. rewrite (H1 i Hi).
    assert (is_Some (assoc_find i (fields_ g)) <-> is_Some (assoc_find i (fields_ d))) as Hiff.
    { by rewrite !assoc_find_is_Some, Hkg, Hk. }
    destruct (assoc_find i (fields_ g)), (assoc_find i (fields_ d)); try done; exfalso;
      [destruct (proj1 Hiff ltac:(eauto))|destruct (proj2 Hiff ltac:(eauto))]; done.
Qed.

(** Gathering all the parts of a covering partitioning gives the data back. *)
Lemma gathered_all s part d g : complete s d -> covers s part -> gathered s part d g -> g = d.
Proof.
  intros ([Hnd _] & Hs & Hk) [_ Hcov] (Hsg & Hkg & Hg). destruct g as [fg sg], d as [fd sd]. cbn in *.
  subst. f_equal. apply assoc_ext; [by rewrite Hkg, <- Hk|congruence|]. intros i.
  destruct (assoc_find i fg) eqn:E.
  - destruct (Hcov i) as (attrs & Ha & Hi).
    { apply assoc_find_is_Some. cbn. rewrite <- Hkg. apply assoc_find_is_Some. eauto. }
    by rewrite <- (Hg i attrs Ha Hi), E.
  - symmetry. apply assoc_find_None. rewrite Hk, <- Hkg. by apply assoc_find_None.
Qed.

Lemma content_lookup b F b' h nl k e :
  NoDup (neigs_ b).*1 -> content b' = mapped_content F b ->
  (h, nl) ∈ neigs_ b -> edges_ nl !! k = Some e ->
  exists nl' e', assoc_find h (neigs_ b') = Some nl' /\ edges_ nl' !! k = Some e' /\
    toVertex_ e' = toVertex_ e /\ tm_ e' = tm_ e /\ cell (data_ e') = F (h, k, e).
Proof.
  intros Hnd Hc Hin Hk.
  assert (assoc_find h (content b') = Some (imap (fun k e => (toVertex_ e, tm_ e, F (h, k, e))) (edges_ nl))) as Hf.
  { apply assoc_find_elem.
    - rewrite Hc. unfold mapped_content. rewrite <- list_fmap_compose. exact Hnd.
    - rewrite Hc. apply list_elem_of_fmap. by exists (h, nl). }
  unfold content in Hf. rewrite (assoc_find_fmap (fun l => edge_content <$> edges_ l)) in Hf.
  apply fmap_Some in Hf as (nl' & Hf & El).
  assert ((edge_content <$> edges_ nl') !! k = Some (toVertex_ e, tm_ e, F (h, k, e))) as Hl.
  { by rewrite <- El, list_lookup_imap, Hk. }
  apply list_lookup_fmap_Some in Hl as (e' & Ee & Hl'). injection Ee as E1 E2 E3.
  exists nl', e'. split_and!; done.
Qed.

(** The edges of a block with the same shape, in the same order. *)
Lemma content_edges b F b' :
  content b' = mapped_content F b ->
  (neigs_ b').*1 = (neigs_ b).*1 /\
  (forall h nl', (h, nl') ∈ neigs_ b' -> exists nl, (h, nl) ∈ neigs_ b /\
     forall k e', edges_ nl' !! k = Some e' -> exists e, edges_ nl !! k = Some e /\
       toVertex_ e' = toVertex_ e /\ tm_ e' = tm_ e) /\
  (Forall (fun p => edges_ p.2 <> []) (neigs_ b) -> Forall (fun p => edges_ p.2 <> []) (neigs_ b')).
Proof.
  unfold content, mapped_content. generalize (neigs_ b) as ns. induction (neigs_ b') as [|[h' nl'] ns' IH];
    intros [|[h nl] ns] H; try done; cbn in H.
  - split_and!; [done| |done]. intros h nl' Hin. set_solver.
  - injection H as <- Hl H. destruct (IH _ H) as (IH1 & IH2 & IH3). cbn. split_and!; [by f_equal| |].
    + intros h nl1 [[= -> ->]|Hin]%elem_of_cons.
      * exists nl. split; [left|]. intros k e' Hk.
        assert ((edge_content <$> edges_ nl') !! k = Some (edge_content e')) as He by (by rewrite list_lookup_fmap, Hk).
        rewrite Hl, list_lookup_imap in He. destruct (edges_ nl !! k) as [e|]; [|done].
        cbn in He. injection He as E1 E2. exists e. split_and!; done.
      * destruct (IH2 _ _ Hin) as (nl2 & ? & ?). exists nl2. split; [by right|done].
    + intros [Hne Hns]%Forall_cons. constructor; [|auto]. cbn in *. intros E. rewrite E in Hl.
      by destruct (edges_ nl).
Qed.

(** Giving the edges of a block of the same shape the data of [b] gives the
    content of [b]. *)
Lemma mapped_back b b' F G :
  content b' = mapped_content F b ->
  (forall h nl nl' k e e', (h, nl) ∈ neigs_ b -> (h, nl') ∈ neigs_ b' ->
     edges_ nl !! k = Some e -> edges_ nl' !! k = Some e' -> G (h, k, e') = cell (data_ e)) ->
  mapped_content G b' = content b.
Proof.
  unfold content, mapped_content. intros Hc. revert Hc.
  generalize (neigs_ b) as ns. induction (neigs_ b') as [|[h' nl'] ns' IH]; intros [|[h nl] ns] Hc HG; try done.
  cbn in Hc |- *. injection Hc as <- Hl Hc. f_equal.
  - f_equal. apply list_eq. intros k. rewrite list_lookup_imap, list_lookup_fmap.
    assert ((edge_content <$> edges_ nl') !! k = imap (fun k e => (toVertex_ e, tm_ e, F (h', k, e))) (edges_ nl) !! k)
      as Hk by (by rewrite Hl).
    rewrite list_lookup_fmap, list_lookup_imap in Hk.
    destruct (edges_ nl' !! k) as [e'|] eqn:E', (edges_ nl !! k) as [e|] eqn:E; try done. cbn in Hk |- *.
    injection Hk as E1 E2 _. unfold edge_content. rewrite E1, E2. do 2 f_equal.
    apply (HG h' nl nl' k e e'); try done; left.
  - apply IH; [done|]. intros. eapply HG; try done; by right.
Qed.

(** The data of the [k]-th edge of the list of [h]. *)
Definition cell_at (b : Block) (x : VertexId * nat * NLEdge) : option AttributeData :=
  nl ← assoc_find x.1.1 (neigs_ b); e ← edges_ nl !! x.1.2; Some (cell (data_ e)).

Section Recombination.
Context (s : Schema) (Hdef : defined_schema s) (b : Block) (Hwf : block_wf s b).
Context (part : Partitioning) (Hcov : covers s part).
(** The stored sub blocks, one for each part, and the store they are read
    from: reading one gives a block with its content and keeps the store in
    order. *)
Context {S : Type} (getBlock : BlockId -> S -> outcome (Block * S)) (I : S -> Prop) (ids : list BlockId).
Context (Hids : length ids = length part).
Context (Hget : forall i id attrs st, ids !! i = Some id -> part !! i = Some attrs -> I st ->
  exists sub st', getBlock id st = Ret (sub, st') /\ I st' /\
    content sub = mapped_content (fun x => projected s attrs (cell (data_ x.2))) b).

Lemma gather_ok h nl k e st :
  (h, nl) ∈ neigs_ b -> edges_ nl !! k = Some e -> I st ->
  exists st', gather getBlock h k ids (newAttributeData s) st = Ret (cell (data_ e), st') /\ I st'.
Proof.
  intros Hin Hk Hst. unfold gather.
  assert ((h, k, e) ∈ edges_of b) as Hx by (apply elem_of_edges_of; eauto).
  pose proof (bw_data _ _ Hwf _ Hx) as Hc. cbn in Hc.
  destruct (foldM_total (fun l st => gathered s (take (length l) part) (cell (data_ e)) st.1 /\ I st.2)
    (fun '(d, s) id => '(sub, s) ← getBlock id s; nlist ← or_undefined (assoc_find h (neigs_ sub));
       others ← getNthOldestEdge nlist k; Ret (setAttributes d (cell (data_ others)), s)) ids
    (newAttributeData s, st)) as ([g st'] & E & Hg & Hst').
  - split; [|done]. split_and!; [done..|]. intros i attrs Ha. set_solver.
  - intros l id rest [g st1] El [Hg Hst1]. cbn in Hg, Hst1.
    assert (ids !! length l = Some id) as Hid by (rewrite El; by apply list_lookup_middle).
    destruct (lookup_lt_is_Some_2 part (length l)) as [attrs Ha].
    { rewrite <- Hids. by apply lookup_lt_Some in Hid. }
    destruct (Hget _ _ _ _ Hid Ha Hst1) as (sub & st2 & -> & Hst2 & Hsub). cbn [mbind outcome_bind].
    destruct (content_lookup b _ sub h nl k e (proj1 (bw_ok _ _ Hwf)) Hsub Hin Hk)
      as (nl' & e' & -> & Hk' & _ & _ & Hcell).
    cbn [or_undefined mbind outcome_bind]. unfold getNthOldestEdge. rewrite Hk'.
    cbn [or_undefined mbind outcome_bind]. eexists. split; [done|]. cbn. split; [|done].
    rewrite length_app. cbn. rewrite Nat.add_1_r, (take_S_r _ _ attrs) by done.
    rewrite Hcell. apply gathered_step; [done..|].
    destruct (project_ok s attrs (cell (data_ e)) Hdef) as (p & Hp & Hw & _ & H1 & H2); [|done|].
    { destruct Hcov as [Hn _]. rewrite Forall_lookup in Hn. eauto. }
    unfold projected. cbn. by rewrite Hp.
  - cbn in Hg, Hst'. rewrite take_ge in Hg by lia. exists st'. split; [|done].
    rewrite E. f_equal. f_equal. by eapply gathered_all.
Qed.

Context (master : Block) (Hmaster : content master = mapped_content (fun _ => no_data s) b).
Context (Hsubs : subBlocks_ master = ids) (Hne : ids <> []).

(** The value the edge [x] of the master block had in the original. *)
Definition original (x : VertexId * nat * NLEdge) : AttributeData := default (cell (data_ x.2)) (cell_at b x).

Lemma master_edge x :
  x ∈ edges_of master -> exists nl e, (x.1.1, nl) ∈ neigs_ b /\ edges_ nl !! x.1.2 = Some e /\
    toVertex_ x.2 = toVertex_ e /\ tm_ x.2 = tm_ e /\ original x = cell (data_ e) /\
    (x.1.1, x.1.2, e) ∈ edges_of b.
Proof.
  destruct x as [[h k] e']. intros (nl' & Hin & Hk)%elem_of_edges_of. cbn.
  destruct (content_edges b _ master Hmaster) as (_ & H & _).
  destruct (H h nl' Hin) as (nl & Hin2 & He). destruct (He k e' Hk) as (e & Hk2 & Hto & Htm).
  exists nl, e. split_and!; try done.
  - unfold original, cell_at. cbn. rewrite (assoc_find_elem h nl) by (apply Hwf || done). cbn. by rewrite Hk2.
  - apply elem_of_edges_of. eauto.
Qed.

Lemma recombineBlock_ok next st :
  I st -> exists b' next' st', recombineBlock getBlock s master next st = Ret (b', next', st') /\
    I st' /\ content b' = content b /\ partition_ b' = Some (-1).
Proof.
  intros Hst. unfold recombineBlock. rewrite Hsubs.
  rewrite bool_decide_eq_false_2 by done. cbn [negb cassert mbind outcome_bind].
  set (b0 := with_partition (-1) (new_block 0)).
  assert (forall y, y ∈ edges_of master -> num (tm_ y.2)) as H1.
  { intros y Hy. destruct (master_edge y Hy) as (nl & e & _ & _ & _ & -> & _ & Hx). by apply (bw_time _ _ Hwf _ Hx). }
  assert (forall y, y ∈ edges_of master -> well_typed (original y)) as H3.
  { intros y Hy. destruct (master_edge y Hy) as (nl & e & _ & _ & _ & _ & -> & Hx). by apply (bw_data _ _ Hwf _ Hx). }
  assert (forall y z, y ∈ edges_of master -> z ∈ edges_of master ->
    triplet_eqb (edge_triplet y) (edge_triplet z) = true -> original y = original z) as H2.
  { intros y z Hy Hz Ht. destruct (master_edge y Hy) as (nl & e & _ & _ & Ey1 & Ey2 & -> & Hx).
    destruct (master_edge z Hz) as (nl' & e' & _ & _ & Ez1 & Ez2 & -> & Hx').
    apply (bw_coherent _ _ Hwf _ _ Hx Hx'). revert Ht. unfold edge_triplet. cbn. by rewrite Ey1, Ey2, Ez1, Ez2. }
  destruct (foldM_total (fun l st => replay_inv (edges_of master) original b0 l st.1.1.1 st.1.1.2 /\ I st.2)
    (recombine_step getBlock s ids) (edges_of master) (b0, [], next, st)) as ([[[b' read] next'] st'] & E & Hinv & Hst').
  - split; [by apply replay_init|done].
  - intros l x rest [[[block read] nx] st1] El [Hinv Hst1]. cbn in Hinv, Hst1.
    assert (x ∈ edges_of master) as Hx by (rewrite El; set_solver).
    destruct (master_edge x Hx) as (nl & e & Hnl & Hk & _ & _ & Horig & _).
    destruct x as [[h k] em]. unfold recombine_step. cbn in Hnl, Hk.
    change (newEdgeTriplet h (toVertex_ em) (tm_ em)) with (edge_triplet (h, k, em)).
    destruct (triplet_find (edge_triplet (h, k, em)) read) as [d|] eqn:Ef.
    + destruct (replay_add _ original H3 b0 l block read _ d Hx Hinv Ef) as (b1 & Ha & Hinv').
      cbn in Ha |- *. rewrite Ha. cbn. by eexists.
    + destruct (gather_ok h nl k e st1 Hnl Hk Hst1) as (st2 & -> & Hst2). cbn.
      destruct (replay_new _ original H1 H2 H3 b0 l block read _ (mkShared nx (cell (data_ e))) Hx Hinv Ef)
        as (b1 & Ha & Hinv'); [done|].
      cbn in Ha. rewrite Ha. cbn. by eexists.
  - rewrite E. cbn. exists b', next', st'. cbn in Hst', Hinv. destruct Hinv as [(_ & Hp & _) Hc _ _].
    split_and!; try done. rewrite Hc, replay_all.
    + eapply mapped_back; [exact Hmaster|]. intros h nl nl' k e e' Hin _ Hk _.
      unfold original, cell_at. cbn. rewrite (assoc_find_elem h nl) by (apply Hwf || done). cbn. by rewrite Hk.
    + destruct (content_edges b _ master Hmaster) as (Hk & _ & Hne'). destruct (bw_ok _ _ Hwf) as [Hnd Hn].
      split; [by rewrite Hk|by apply Hne'].
Qed.
End Recombination.

(** ** Properties *)

(** C11: partitioning loses nothing.  A block whose edges carry complete data,
    cut by the partitioning of its time when that covers the schema, gives a
    master block and one sub block per part; whatever identifiers the sub
    blocks are stored under, recombining the master block from a store that
    gives back sub blocks with the same content rebuilds the original content,
    edge by edge and field by field, without failing an assertion. *)
Theorem partition_recombine {D} `{LevelDB D} (s : Schema) (b : Block) (p p' : PartitionIndex D)
    (t : Timestamp) (tpart : TimeSlicedPartitioning) (next : Z) :
  defined_schema s -> block_wf s b -> covers s (partitioning_ tpart) -> partitioning_ tpart <> [] ->
  getPartitioningTimestamp b = Ret t -> getTimeSlicedPartitioning t p = Ret (tpart, p') ->
  exists master subs next', partitionBlock s b next p = Ret (master :: subs, next', p') /\
    length subs = length (partitioning_ tpart) /\
    forall (S : Type) (getBlock : BlockId -> S -> outcome (Block * S)) (I : S -> Prop) (ids : list BlockId),
      length ids = length subs ->
      (forall i id sub st, ids !! i = Some id -> subs !! i = Some sub -> I st ->
         exists sub' st', getBlock id st = Ret (sub', st') /\ I st' /\ content sub' = content sub) ->
      forall nx st, I st ->
        exists b' nx' st', recombineBlock getBlock s (foldl (fun m id => addSubBlockId id m) master ids) nx st =
            Ret (b', nx', st') /\ I st' /\ content b' = content b.
Proof.
  intros Hdef Hwf Hcov Hne Ht Hp. unfold partitionBlock. rewrite Ht. cbn [mbind outcome_bind].
  rewrite Hp. cbn [mbind outcome_bind].
  destruct (master_block_ok s b Hwf next) as (m & n1 & -> & (_ & _ & Hsub) & Hm). cbn [mbind outcome_bind].
  destruct (sub_blocks_ok s Hdef b Hwf (partitioning_ tpart) n1 (proj1 Hcov)) as (subs & n2 & -> & Hlen & Hsubs).
  cbn [mbind outcome_bind]. exists m, subs, n2. split_and!; [done..|].
  intros S getBlock I ids Hids Hget nx st Hst.
  assert (forall l, subBlocks_ (foldl (fun m id => addSubBlockId id m) m l) = subBlocks_ m ++ l /\
    content (foldl (fun m id => addSubBlockId id m) m l) = content m) as Hfold.
  { induction l as [|x l IH] using rev_ind; [by rewrite app_nil_r|].
    rewrite foldl_app. cbn. destruct IH as [-> IH]. by rewrite app_assoc. }
  destruct (Hfold ids) as [Hs1 Hs2]. rewrite Hsub in Hs1. cbn in Hs1.
  destruct (recombineBlock_ok s Hdef b Hwf (partitioning_ tpart) Hcov getBlock I ids ltac:(congruence)) with
    (master := foldl (fun m id => addSubBlockId id m) m ids) (next := nx) (st := st)
    as (b' & nx' & st' & E & Hst' & Hc & _); try done.
  - intros i id attrs st1 Hid Ha Hst1. destruct (Hsubs i attrs Ha) as (sub & Hsub1 & _ & Hc).
    destruct (Hget i id sub st1 Hid Hsub1 Hst1) as (sub' & st' & ? & ? & Hc'). exists sub', st'. split_and!; try done.
    congruence.
  - by rewrite Hs2.
  - intros ->. cbn in Hids. destruct (partitioning_ tpart); [done|]. cbn in *. lia.
  - eauto 6.
Qed.

Definition example_shared : SharedData := mkShared 1 example_data.

(** An edge between the vertices 1 and 2, listed at both. *)
Definition example_block : Block :=
  mkBlock 7 None 100 []
    [(1, mkNeighborList 1 [mkNLEdge 2 (dofZ 30) example_shared]);
     (2, mkNeighborList 2 [mkNLEdge 1 (dofZ 30) example_shared])].

Lemma example_block_wf : block_wf example_schema example_block.
Proof.
  assert (forall x, x ∈ edges_of example_block -> cell (data_ x.2) = example_data /\ tm_ x.2 = dofZ 30) as H.
  { intros x Hx. cbn -[dofZ] in Hx. repeat (apply elem_of_cons in Hx as [->|Hx]; [done|]). by apply elem_of_nil in Hx. }
  split.
  - split; [|repeat constructor; discriminate]. cbn. repeat constructor; set_solver.
  - intros x Hx. destruct (H x Hx) as [_ ->]. by vm_compute.
  - intros x y Hx Hy _. destruct (H x Hx) as [-> _], (H y Hy) as [-> _]. done.
  - intros x Hx. destruct (H x Hx) as [-> _]. split_and!; [exact example_data_typed|done|done].
Qed.

Lemma example_covers : covers example_schema [["tag"]; ["weight"]].
Proof.
  split; [repeat constructor; eexists; reflexivity|].
  intros i Hi. apply assoc_find_is_Some in Hi.
  change ((fields_ (newAttributeData example_schema)).*1) with [0; 1] in Hi.
  apply elem_of_cons in Hi as [->|Hi]; [|apply elem_of_cons in Hi as [->|Hi%elem_of_nil]; [|done]].
  - exists ["weight"]. split; [set_solver|]. exists "weight". split; [set_solver|reflexivity].
  - exists ["tag"]. split; [set_solver|]. exists "tag". split; [set_solver|reflexivity].
Qed.

Lemma example_defined : defined_schema example_schema.
Proof. split; [apply new_schema_ok|]. repeat constructor; discriminate. Qed.

(** Reading the [i]-th block of a list. *)
Definition nth_block (id : BlockId) (st : list Block) : outcome (Block * list Block) :=
  b ← or_undefined (st !! Z.to_nat id); Ret (b, st).

Lemma partition_recombine_witness :
  exists master subs next' p', partitionBlock example_schema example_block 2 (index_with 3 example_slices) =
      Ret (master :: subs, next', p') /\ length subs = 2%nat /\
    exists b' nx' st', recombineBlock nth_block example_schema
        (foldl (fun m id => addSubBlockId id m) master [0; 1]) 9 subs = Ret (b', nx', st') /\
      content b' = content example_block.
Proof.
  assert (exists tp p', getTimeSlicedPartitioning (dofZ 30) (index_with 3 example_slices) = Ret (tp, p') /\
    partitioning_ tp = [["tag"]; ["weight"]]) as (tp & p' & Hp & Htp).
  { eexists _, _. split; [vm_compute; reflexivity|reflexivity]. }
  destruct (partition_recombine example_schema example_block (index_with 3 example_slices) p' (dofZ 30) tp 2
    example_defined example_block_wf) as (master & subs & next' & E & Hlen & Hrec).
  - rewrite Htp. exact example_covers.
  - rewrite Htp. discriminate.
  - vm_compute. reflexivity.
  - exact Hp.
  - rewrite Htp in Hlen. exists master, subs, next', p'. split; [exact E|]. split; [exact Hlen|].
    destruct (Hrec (list Block) nth_block (fun st => st = subs) [0; 1]) with (nx := 9) (st := subs)
      as (b' & nx' & st' & E' & _ & Hc).
    + symmetry. exact Hlen.
    + intros i id sub st Hid Hsub ->. exists sub, subs. unfold nth_block.
      assert (subs !! Z.to_nat id = Some sub) as ->.
      { destruct i as [|[|i]]; cbn in Hid; [injection Hid as <-; exact Hsub..|discriminate Hid]. }
      split; [reflexivity|split; reflexivity].
    + reflexivity.
    + exists b', nx', st'. split; [exact E'|exact Hc].
Defined.
