(* ===== verification/BlockStorage.v ===== *)
(** * The stored form of blocks

    [Block::serialize] and [Block::deserialize] are inverse to each other: the
    bytes of a block, read back with the partitioning of its time, give a
    block with the same identifiers and the same content. *)

From Stdlib Require Import ZArith Lia.
From stdpp Require Import base numbers gmap strings list sorting.
From S2P Require Import Prelude.
From S2P Require Import Double.
From S2P Require Import NetworkByteBuffer.
From S2P Require Import LevelDB.
From S2P Require Import Schema.
From S2P Require Import AttributeData.
From S2P Require Import NeighborList.
From S2P Require Import PartitionIndex.
From S2P Require Import Block.
From S2P Require Import BlockContent.

(** ** The encoding of the lists *)

Abbreviation Written := (list (EdgeTriplet * unit)).

Definition enc_edge (part : Z) (h : VertexId) (w : Written) (e : NLEdge) : list Z * Written :=
  let base := be 8 (toVertex_ e) ++ be 8 (tm_ e) in
  if part =? -1 then (base, w)
  else
    let t := newEdgeTriplet h (toVertex_ e) (tm_ e) in
    match triplet_find t w with
    | Some _ => (base, w)
    | None => (base ++ enc_data (cell (data_ e)), (t, tt) :: w)
    end.

Fixpoint enc_edges (part : Z) (h : VertexId) (w : Written) (es : list NLEdge) : list Z * Written :=
  match es with
  | [] => ([], w)
  | e :: es =>
      let r := enc_edge part h w e in
      let r' := enc_edges part h r.2 es in
      (r.1 ++ r'.1, r'.2)
  end.

Fixpoint enc_lists (part : Z) (w : Written) (ns : list (VertexId * NeighborList)) : list Z * Written :=
  match ns with
  | [] => ([], w)
  | p :: ns =>
      let r := enc_edges part p.1 w (edges_ p.2) in
      let r' := enc_lists part r.2 ns in
      (be 8 p.1 ++ be 4 (Z.of_nat (length (edges_ p.2))) ++ r.1 ++ r'.1, r'.2)
  end.

Definition enc_header (b : Block) (mn mx : Timestamp) (i : Z) : list Z :=
  be 8 (id_ b) ++ enc (vector uint64) (subBlocks_ b) ++ be 8 mn ++ be 8 mx ++ be 4 i.

Lemma enc_edge_length part h w e : (16 <= length (enc_edge part h w e).1)%nat.
Proof.
  unfold enc_edge. repeat case_match; cbn [fst]; rewrite ?length_app, !length_be; lia.
Qed.

(** ** Writing *)

Section Write.
Context (part : Z).

Definition edge_storable (e : NLEdge) : Prop :=
  is_u64 (toVertex_ e) /\ is_double (tm_ e) /\ well_typed (cell (data_ e)).

Lemma serialize_edge_ok h w e sbuf bs :
  holds sbuf bs -> growable sbuf -> edge_storable e ->
  Z.of_nat (length bs + length (enc_edge part h w e).1) <= 2 ^ 32 ->
  exists sbuf', serialize_edge part h (sbuf, w) e = Ret (sbuf', (enc_edge part h w e).2) /\
    holds sbuf' (bs ++ (enc_edge part h w e).1) /\ growable sbuf'.
Proof.
  intros Hb Hg (Hto & Htm & Hd) Hlen. pose proof (enc_edge_length part h w e) as Hmin.
  unfold serialize_edge.
  destruct (put_ok (c := uint64) (toVertex_ e) sbuf bs Hb Hg Hto) as (b1 & E1 & Hb1 & Hg1 & _);
    [cbn [enc uint64 scalar]; rewrite length_be; lia|].
  cbn [put enc uint64 scalar] in *. rewrite E1. cbn [mbind outcome_bind].
  destruct (put_ok (c := float64) (tm_ e) b1 _ Hb1 Hg1 Htm) as (b2 & E2 & Hb2 & Hg2 & _);
    [cbn [enc float64 scalar]; rewrite length_app, !length_be; lia|].
  cbn [put enc float64 scalar] in *. rewrite E2. cbn [mbind outcome_bind].
  rewrite <- app_assoc in Hb2. unfold enc_edge in *.
  destruct (part =? -1); [eauto|]. destruct (triplet_find _ w); [eauto|]. cbn [fst snd] in *.
  destruct (put_data_ok (cell (data_ e)) b2 _ Hb2 Hg2) as (b3 & E3 & Hb3 & Hg3 & _); [apply Hd| |].
  { rewrite !length_app, !length_be in *. lia. }
  rewrite E3. cbn [mbind outcome_bind]. exists b3. by rewrite <- !app_assoc in *.
Qed.

Lemma serialize_edges_ok h es : forall w sbuf bs,
  holds sbuf bs -> growable sbuf -> Forall edge_storable es ->
  Z.of_nat (length bs + length (enc_edges part h w es).1) <= 2 ^ 32 ->
  exists sbuf', foldM (serialize_edge part h) (sbuf, w) es = Ret (sbuf', (enc_edges part h w es).2) /\
    holds sbuf' (bs ++ (enc_edges part h w es).1) /\ growable sbuf'.
Proof.
  induction es as [|e es IH]; intros w sbuf bs Hb Hg Hs Hlen.
  - cbn. rewrite app_nil_r. eauto.
  - apply Forall_cons in Hs as [He Hs]. cbn [enc_edges fst snd] in *. rewrite length_app in Hlen.
    destruct (serialize_edge_ok h w e sbuf bs Hb Hg He) as (b1 & E1 & Hb1 & Hg1); [lia|].
    destruct (IH (enc_edge part h w e).2 b1 _ Hb1 Hg1 Hs) as (b2 & E2 & Hb2 & Hg2); [rewrite length_app; lia|].
    cbn [foldM]. rewrite E1. cbn [mbind outcome_bind]. rewrite E2, app_assoc. eauto.
Qed.

Definition list_storable (p : VertexId * NeighborList) : Prop :=
  is_u64 p.1 /\ Z.of_nat (length (edges_ p.2)) < 2 ^ 32 /\ Forall edge_storable (edges_ p.2).

Lemma serialize_lists_ok ns : forall w sbuf bs,
  holds sbuf bs -> growable sbuf -> Forall list_storable ns ->
  Z.of_nat (length bs + length (enc_lists part w ns).1) <= 2 ^ 32 ->
  exists sbuf', foldM (serialize_list part) (sbuf, w) ns = Ret (sbuf', (enc_lists part w ns).2) /\
    holds sbuf' (bs ++ (enc_lists part w ns).1) /\ growable sbuf'.
Proof.
  induction ns as [|[h nl] ns IH]; intros w sbuf bs Hb Hg Hs Hlen.
  - cbn. rewrite app_nil_r. eauto.
  - apply Forall_cons in Hs as [(Hh & Hn & Hes) Hs]. cbn [enc_lists foldM fst snd] in *.
    rewrite !length_app, !length_be in Hlen. 
    change (serialize_list part (sbuf, w) (h, nl)) with
      (b1 ← addUInt64 h sbuf; b2 ← addUInt32 (u32 (Z.of_nat (length (edges_ nl)))) b1;
       foldM (serialize_edge part h) (b2, w) (edges_ nl)).
    destruct (put_ok (c := uint64) h sbuf bs Hb Hg Hh) as (b1 & E1 & Hb1 & Hg1 & _);
      [cbn [enc uint64 scalar]; rewrite length_be; lia|].
    cbn [put enc uint64 scalar] in *. rewrite E1. cbn [mbind outcome_bind]. rewrite u32_id by lia.
    destruct (put_ok (c := uint32) (Z.of_nat (length (edges_ nl))) b1 _ Hb1 Hg1) as (b2 & E2 & Hb2 & Hg2 & _);
      [cbn; lia|cbn [enc uint32 scalar]; rewrite length_app, !length_be; lia|].
    cbn [put enc uint32 scalar] in *. rewrite E2. cbn [mbind outcome_bind].
    destruct (serialize_edges_ok h (edges_ nl) w b2 _ Hb2 Hg2 Hes) as (b3 & E3 & Hb3 & Hg3);
      [rewrite !length_app, !length_be; lia|].
    rewrite E3. cbn [mbind outcome_bind].
    destruct (IH (enc_edges part h w (edges_ nl)).2 b3 _ Hb3 Hg3 Hs) as (b4 & E4 & Hb4 & Hg4);
      [rewrite !length_app, !length_be in *; lia|].
    rewrite E4. exists b4. by rewrite <- !app_assoc in *.
Qed.
End Write.

(** ** Reading *)

(** The data of a part read into an object made for it: the fields in the
    order the object has them. *)
Definition part_data (s : Schema) (attrs : list string) (d : AttributeData) : Prop :=
  well_typed d /\ exists d0, newAttributeData_of s attrs = Ret d0 /\
    schema_ d = schema_ d0 /\ (fields_ d).*1 = (fields_ d0).*1.

Section Read.
Context (s : Schema) (i : Z) (parts : Partitioning) (attrs : list string) (fsdata : SharedData).
Context (b : Block).
#[local] Abbreviation xs := (edges_of b).
#[local] Abbreviation F := (fun x : VertexId * nat * NLEdge => cell (data_ x.2)).
Context (Hfs : i = -1 -> cell fsdata = mkData [] s).
Context (Hpart : i <> -1 -> part_at parts i = Ret attrs).
Context (Hnum : forall x, x ∈ xs -> num (tm_ x.2)).
Context (Hcoh : forall x y, x ∈ xs -> y ∈ xs -> triplet_eqb (edge_triplet x) (edge_triplet y) = true -> F x = F y).
Context (Hmaster : i = -1 -> forall x, x ∈ xs -> F x = mkData [] s).
Context (Hdata : i <> -1 -> forall x, x ∈ xs -> part_data s attrs (F x)).
Context (Hids : forall x, x ∈ xs -> is_u64 (toVertex_ x.2)).
Context (b0 : Block).

(** What is known while reading: for a sub block, the loop invariant of the
    rebuilding with the same triplets read as were written; for a master
    block, that every edge has the shared empty data. *)
Definition read_inv (done : list (VertexId * nat * NLEdge)) (block : Block)
    (read : list (EdgeTriplet * SharedData)) (w : Written) : Prop :=
  if i =? -1 then
    same_header b0 block /\ content block = replay_content F done /\
    forall h e, has_edge block h e -> data_ e = fsdata
  else replay_inv xs F b0 done block read /\
    forall t, triplet_find t read = None <-> triplet_find t w = None.

Lemma read_edge_ok done block read next w x sbuf rest :
  x ∈ xs -> read_inv done block read w ->
  unread sbuf ((enc_edge i x.1.1 w x.2).1 ++ rest) ->
  exists block' read' next' sbuf',
    deserialize_edge s parts i fsdata x.1.1 (block, read, next, sbuf) = Ret (block', read', next', sbuf') /\
    read_inv (done ++ [x]) block' read' (enc_edge i x.1.1 w x.2).2 /\ unread sbuf' rest.
Proof.
  intros Hx Hinv Hu. destruct x as [[h k] e]. cbn [fst snd] in *. unfold deserialize_edge.
  pose proof (Hids _ Hx) as Hto. pose proof (proj1 (Hnum _ Hx)) as Htm. cbn [fst snd] in Hto, Htm.
  assert (exists tail, (enc_edge i h w e).1 = be 8 (toVertex_ e) ++ be 8 (tm_ e) ++ tail /\
    (i =? -1 = true -> tail = []) /\
    (i =? -1 = false -> triplet_find (edge_triplet (h, k, e)) w <> None -> tail = []) /\
    (i =? -1 = false -> triplet_find (edge_triplet (h, k, e)) w = None -> tail = enc_data (cell (data_ e))))
    as (tail & Et & T1 & T2 & T3).
  { unfold enc_edge. change (edge_triplet (h, k, e)) with (newEdgeTriplet h (toVertex_ e) (tm_ e)).
    destruct (i =? -1); [|destruct (triplet_find _ w)]; cbn [fst].
    1, 2: exists []; by rewrite app_nil_r. exists (enc_data (cell (data_ e))). by rewrite <- app_assoc. }
  rewrite Et in Hu. rewrite <- !app_assoc in Hu.
  destruct (get_ok (c := uint64) (toVertex_ e) sbuf _ Hu Hto) as (s1 & E1 & Hu1).
  cbn [get uint64 scalar] in E1. rewrite E1. cbn [mbind outcome_bind].
  destruct (get_ok (c := float64) (tm_ e) s1 _ Hu1 Htm) as (s2 & E2 & Hu2).
  cbn [get float64 scalar] in E2. rewrite E2. cbn [mbind outcome_bind]. clear E1 E2.
  change (newEdgeTriplet h (toVertex_ e) (tm_ e)) with (edge_triplet (h, k, e)).
  unfold read_inv, enc_edge in *. destruct (Z.eqb_spec i (-1)) as [Hi|Hi].
  - rewrite T1 in Hu2 by done. destruct Hinv as (Hh & Hc & Hd). cbn [mbind outcome_bind].
    destruct (addEdge_ok h (toVertex_ e) (tm_ e) fsdata block) as (b1 & -> & Hh1 & Hn1).
    + rewrite Hfs by done. split; constructor.
    + intros. by eapply Hd.
    + cbn [mbind outcome_bind]. exists b1, read, next, s2. split_and!; try done.
      * unfold same_header in *. intuition congruence.
      * rewrite (push_edge_content _ _ _ _ Hn1), Hc. unfold replay_content. rewrite foldl_app. cbn.
        unfold edge_content. cbn. pose proof (Hmaster Hi _ Hx) as Hm. cbn in Hm. by rewrite Hfs, Hm.
      * intros h' e'. rewrite (push_edge_has_edge _ _ _ _ h' e' Hn1). intros [He|[-> ->]]; [by eapply Hd|done].
  - destruct Hinv as [Hinv Hdom].
    assert (forall y, y ∈ xs -> well_typed (F y)) as Hwt by (intros y Hy; by apply Hdata).
    destruct (triplet_find (edge_triplet (h, k, e)) read) as [d|] eqn:Ef.
    + rewrite T2 in Hu2; [|done|].
      2: { intros Hn. apply Hdom in Hn. congruence. }
      destruct (replay_add xs F Hwt b0 done block read (h, k, e) d Hx Hinv Ef) as (b1 & Ea & Hinv').
      cbn [fst snd] in Ea. cbn [mbind outcome_bind]. rewrite Ea. cbn [mbind outcome_bind].
      exists b1, read, next, s2. split_and!; try done.
      change (newEdgeTriplet h (toVertex_ e) (tm_ e)) with (edge_triplet (h, k, e)).
      destruct (triplet_find (edge_triplet (h, k, e)) w) eqn:Ew; [done|].
      apply Hdom in Ew. congruence.
    + assert (triplet_find (edge_triplet (h, k, e)) w = None) as Ew by (by apply Hdom).
      rewrite T3 in Hu2 by done. rewrite (Hpart Hi). cbn [mbind outcome_bind].
      destruct (Hdata Hi _ Hx) as (Hw & d0 & Ed & Hsd & Hkd). cbn [fst snd] in Hw, Hsd, Hkd. rewrite Ed.
      cbn [mbind outcome_bind].
      destruct (get_data_ok (cell (data_ e)) d0 s2 rest Hw) as (s3 & Eg & Hu3); [congruence|congruence|done|].
      rewrite Eg. cbn [mbind outcome_bind alloc_data].
      destruct (replay_new xs F Hnum Hcoh Hwt b0 done block read (h, k, e) (mkShared next (cell (data_ e))) Hx Hinv Ef eq_refl)
        as (b1 & Ea & Hinv').
      cbn [fst snd] in Ea. rewrite Ea. cbn [mbind outcome_bind].
      eexists b1, _, _, s3. split_and!; try done.
      change (newEdgeTriplet h (toVertex_ e) (tm_ e)) with (edge_triplet (h, k, e)).
      rewrite Ew. cbn [fst snd]. intros t. rewrite !triplet_find_cons. cbn. by case_if.
Qed.

Lemma read_edges_ok h es : forall n done block read next w sbuf rest,
  (forall k e, es !! k = Some e -> (h, (n + k)%nat, e) ∈ xs) ->
  read_inv done block read w ->
  unread sbuf ((enc_edges i h w es).1 ++ rest) ->
  exists block' read' next' sbuf',
    deserialize_edges (length es) s parts i fsdata h (block, read, next, sbuf) = Ret (block', read', next', sbuf') /\
    read_inv (done ++ imap (fun k e => (h, (n + k)%nat, e)) es) block' read' (enc_edges i h w es).2 /\
    unread sbuf' rest.
Proof.
  induction es as [|e es IH]; intros n done block read next w sbuf rest Hin Hinv Hu.
  - cbn in *. rewrite app_nil_r. eauto 8.
  - cbn [enc_edges fst snd length deserialize_edges] in *. rewrite <- app_assoc in Hu.
    destruct (read_edge_ok done block read next w (h, n, e) sbuf
      ((enc_edges i h (enc_edge i h w e).2 es).1 ++ rest)) as (b1 & r1 & n1 & s1 & E1 & Hinv1 & Hu1);
      [|done|exact Hu|].
    { pose proof (Hin 0%nat e eq_refl) as H0. by rewrite Nat.add_0_r in H0. }
    cbn [fst snd] in *. rewrite E1. cbn [mbind outcome_bind].
    destruct (IH (S n) (done ++ [(h, n, e)]) b1 r1 n1 (enc_edge i h w e).2 s1 rest) as (b2 & r2 & n2 & s2 & E2 & Hinv2 & Hu2);
      [|exact Hinv1|exact Hu1|].
    { intros k e' Hk. replace (S n + k)%nat with (n + S k)%nat by lia. by apply Hin. }
    exists b2, r2, n2, s2. split_and!; [done| |done]. cbn [imap].
    rewrite <- app_assoc in Hinv2. cbn [app] in Hinv2. rewrite Nat.add_0_r.
    replace (imap ((fun k e => (h, (n + k)%nat, e)) ∘ S) es) with (imap (fun k e => (h, (S n + k)%nat, e)) es); [done|].
    apply imap_ext. intros k x _. cbn. by rewrite Nat.add_succ_r.
Qed.

(** The loop over the lists ends: every turn reads at least twelve bytes. *)
Lemma read_lists_ok ns : forall fuel done block read next w sbuf,
  (forall h nl k e, (h, nl) ∈ ns -> edges_ nl !! k = Some e -> (h, k, e) ∈ xs) ->
  Forall (fun p => is_u64 p.1 /\ Z.of_nat (length (edges_ p.2)) < 2 ^ 32) ns ->
  read_inv done block read w ->
  unread sbuf (enc_lists i w ns).1 -> (length (enc_lists i w ns).1 <= fuel)%nat ->
  exists block' read' next' sbuf' w',
    deserialize_lists fuel s parts i fsdata (block, read, next, sbuf) = Some (Ret (block', read', next', sbuf')) /\
    read_inv (done ++ concat ((fun p => imap (fun k e => (p.1, k, e)) (edges_ p.2)) <$> ns)) block' read' w' /\
    unread sbuf' [].
Proof.
  induction ns as [|[h nl] ns IH]; intros fuel done block read next w sbuf Hin Hns Hinv Hu Hf.
  - exists block, read, next, sbuf, w. cbn in *. rewrite app_nil_r. split_and!; [|done..].
    pose proof (getNRemainingBytes_spec _ _ Hu) as Hr. destruct fuel; cbn [deserialize_lists]; by rewrite Hr.
  - apply Forall_cons in Hns as [[Hh Hn] Hns]. cbn [fst snd] in Hh, Hn.
    cbn [enc_lists fst snd] in Hu, Hf. rewrite !length_app, !length_be in Hf.
    pose proof (getNRemainingBytes_spec _ _ Hu) as Hr.
    destruct fuel as [|fuel]; [lia|]. cbn [deserialize_lists]. rewrite Hr, !length_app, !length_be.
    destruct (Z.eqb_spec (Z.of_nat (8 + (4 + (length (enc_edges i h w (edges_ nl)).1 +
      length (enc_lists i (enc_edges i h w (edges_ nl)).2 ns).1)))) 0); [lia|].
    destruct (get_ok (c := uint64) h sbuf _ Hu Hh) as (s1 & E1 & Hu1).
    cbn [get uint64 scalar] in E1. rewrite E1. cbn [mbind outcome_bind].
    destruct (get_ok (c := uint32) (Z.of_nat (length (edges_ nl))) s1 _ Hu1) as (s2 & E2 & Hu2); [cbn; lia|].
    cbn [get uint32 scalar] in E2. rewrite E2. cbn [mbind outcome_bind]. rewrite Nat2Z.id.
    destruct (read_edges_ok h (edges_ nl) 0 done block read next w s2
      (enc_lists i (enc_edges i h w (edges_ nl)).2 ns).1) as (b1 & r1 & n1 & s3 & E3 & Hinv3 & Hu3).
    + intros k e Hk. apply (Hin h nl); [left|done].
    + done.
    + done.
    + rewrite E3. cbn [Nat.add] in Hinv3.
      assert (forall h nl k e, (h, nl) ∈ ns -> edges_ nl !! k = Some e -> (h, k, e) ∈ xs) as Hin'.
      { intros h' nl' k e Hi. apply Hin. by right. }
      destruct (IH fuel _ b1 r1 n1 _ s3 Hin' Hns Hinv3 Hu3 ltac:(lia))
        as (b2 & r2 & n2 & s4 & w' & E4 & Hinv4 & Hu4).
      exists b2, r2, n2, s4, w'. split_and!; [done| |done]. cbn. by rewrite app_assoc.
Qed.
End Read.

(** ** Reading always ends *)

(** A buffer over foreign bytes, read up to its output cursor. *)
Definition reading (b : NetworkByteBuffer) : Prop :=
  0 <= ocursor b <= icursor b /\ icursor b = Z.of_nat (length (buf b)) /\ icursor b < 2 ^ 64.

(** [g] reads at least [n] bytes and stays inside the buffer. *)
Definition advances {A} (n : Z) (g : NetworkByteBuffer -> outcome (A * NetworkByteBuffer)) : Prop :=
  forall b a b', g b = Ret (a, b') -> reading b ->
    reading b' /\ icursor b' = icursor b /\ ocursor b + n <= ocursor b'.

Lemma read_advances n : advances (Z.of_nat n) (read n).
Proof.
  intros b a b' E ((H0 & Hle) & Hi & Hs). unfold read in E. case_if; [|discriminate E]. inv_ret.
  apply Nat.leb_le in E0. unfold reading. cbn. rewrite u64_id by lia. lia.
Qed.

Lemma advances_le {A} n m (g : NetworkByteBuffer -> outcome (A * NetworkByteBuffer)) :
  m <= n -> advances n g -> advances m g.
Proof. intros Hm Hg b a b' E Hb. destruct (Hg b a b' E Hb) as (? & ? & ?). split_and!; done || lia. Qed.

Lemma advances_bind {A B} n m g (f : A -> NetworkByteBuffer -> outcome (B * NetworkByteBuffer)) :
  advances n g -> (forall a, advances m (f a)) -> advances (n + m) (fun b => '(a, b) ← g b; f a b).
Proof.
  intros Hg Hf b c b' E Hb. destruct (g b) as [[a b1]| | |] eqn:E1; cbn in E; try discriminate E.
  destruct (Hg _ _ _ E1 Hb) as (Hb1 & Hi1 & Ho1). destruct (Hf a _ _ _ E Hb1) as (Hb2 & Hi2 & Ho2).
  split_and!; [done|congruence|lia].
Qed.

Lemma advances_ret {A} (a : A) : advances 0 (fun b => Ret (a, b)).
Proof. intros b a' b' [= <- <-] Hb. split_and!; done || lia. Qed.

Lemma advances_map {A B} n g (f : A -> B) :
  advances n g -> advances n (fun b => '(a, b) ← g b; Ret (f a, b)).
Proof.
  intros Hg. replace n with (n + 0) by lia. apply (advances_bind n 0 g (fun a b => Ret (f a, b))); [done|].
  intros a. apply (advances_ret (f a)).
Qed.

Lemma get_fixed_advances n : advances (Z.of_nat n) (get_fixed n).
Proof. apply advances_map, read_advances. Qed.

Lemma getSTLString_advances : advances 0 getSTLString.
Proof.
  unfold getSTLString. apply (advances_le (4 + 0)); [lia|].
  apply (advances_bind 4 0); [apply (get_fixed_advances 4)|]. intros n. destruct (0 <? n).
  - apply (advances_map 0). eapply advances_le; [|apply read_advances]. lia.
  - apply advances_ret.
Qed.

Lemma get_value_advances a : advances 0 (get_value a).
Proof.
  unfold get_value. destruct (type_ a).
  - apply advances_map. eapply advances_le; [|apply advances_map, get_fixed_advances]. lia.
  - apply advances_map. eapply advances_le; [|apply get_fixed_advances]. lia.
  - apply advances_map, getSTLString_advances.
  - intros b x b' E. discriminate E.
Qed.

Lemma get_data_advances d : advances 0 (get_data d).
Proof.
  unfold get_data. generalize ((fields_ d).*1) as ks. intros ks. revert d.
  induction ks as [|k ks IH]; intros d; [apply (advances_ret d)|].
  intros b x b' E Hb. cbn [foldM] in E.
  destruct (attribute_at (schema_ d) k) as [a| | |] eqn:Ea; cbn [mbind outcome_bind] in E; try discriminate E.
  destruct (get_value a b) as [[v b1]| | |] eqn:Ev; cbn [mbind outcome_bind] in E; try discriminate E.
  destruct (get_value_advances a b v b1 Ev Hb) as (Hb1 & Hi1 & Ho1).
  destruct (IH _ b1 x b' E Hb1) as (? & ? & ?). split_and!; [done|congruence|lia].
Qed.

Lemma get_vector_advances c v : advances 0 (get c) -> advances 0 (@get_vector Z c v).
Proof.
  intros Hc. unfold get_vector. apply (advances_le (4 + 0)); [lia|].
  apply (advances_bind 4 0); [apply (get_fixed_advances 4)|]. intros n. generalize (Z.to_nat n) as k.
  intros k. revert v. induction k as [|k IH]; intros v; [apply advances_ret|]. cbn [get_items].
  apply (advances_bind 0 0); [done|]. intros a. apply IH.
Qed.

Section Terminates.
Context (s : Schema) (part : Partitioning) (i : Z) (fsdata : SharedData).

Lemma deserialize_edge_advances h block read next sbuf block' read' next' sbuf' :
  deserialize_edge s part i fsdata h (block, read, next, sbuf) = Ret (block', read', next', sbuf') ->
  reading sbuf -> reading sbuf' /\ icursor sbuf' = icursor sbuf /\ ocursor sbuf <= ocursor sbuf'.
Proof.
  intros E Hb. unfold deserialize_edge in E.
  destruct (getUInt64 sbuf) as [[to b1]| | |] eqn:E1; cbn [mbind outcome_bind] in E; try discriminate E.
  destruct (get_fixed_advances 8 _ _ _ E1 Hb) as (Hb1 & Hi1 & Ho1).
  destruct (getDouble b1) as [[tm b2]| | |] eqn:E2; cbn [mbind outcome_bind] in E; try discriminate E.
  destruct (get_fixed_advances 8 _ _ _ E2 Hb1) as (Hb2 & Hi2 & Ho2).
  assert (forall sd rd nx b3, (addEdge h to tm sd block ≫= fun b => Ret (b, rd, nx, b3)) = Ret (block', read', next', sbuf') ->
    sbuf' = b3) as Hadd.
  { intros sd rd nx b3 Ha. destruct (addEdge _ _ _ _ _); cbn in Ha; congruence. }
  destruct (i =? -1); cbn [mbind outcome_bind] in E.
  - apply Hadd in E as ->. split_and!; [done|congruence|lia].
  - destruct (triplet_find _ read); cbn [mbind outcome_bind] in E.
    + apply Hadd in E as ->. split_and!; [done|congruence|lia].
    + destruct (part_at part i) as [attrs| | |]; cbn [mbind outcome_bind] in E; try discriminate E.
      destruct (newAttributeData_of s attrs) as [d| | |]; cbn [mbind outcome_bind] in E; try discriminate E.
      destruct (get_data d b2) as [[d' b3]| | |] eqn:E3; cbn [mbind outcome_bind alloc_data] in E; try discriminate E.
      destruct (get_data_advances d _ _ _ E3 Hb2) as (Hb3 & Hi3 & Ho3).
      apply Hadd in E as ->. split_and!; [done|congruence|lia].
Qed.

Lemma deserialize_edges_advances n h : forall block read next sbuf block' read' next' sbuf',
  deserialize_edges n s part i fsdata h (block, read, next, sbuf) = Ret (block', read', next', sbuf') ->
  reading sbuf -> reading sbuf' /\ icursor sbuf' = icursor sbuf /\ ocursor sbuf <= ocursor sbuf'.
Proof.
  induction n as [|n IH]; intros block read next sbuf block' read' next' sbuf' E Hb; cbn [deserialize_edges] in E.
  - inv_ret. split_and!; done || lia.
  - destruct (deserialize_edge s part i fsdata h (block, read, next, sbuf)) as [[[[b1 r1] n1] s1]| | |] eqn:E1;
      cbn [mbind outcome_bind] in E; try discriminate E.
    destruct (deserialize_edge_advances _ _ _ _ _ _ _ _ _ E1 Hb) as (Hb1 & Hi1 & Ho1).
    destruct (IH _ _ _ _ _ _ _ _ E Hb1) as (? & ? & ?). split_and!; [done|congruence|lia].
Qed.

(** Every turn of the [while] loop consumes bytes, so as much fuel as there
    are bytes left is enough whatever the bytes are. *)
Lemma deserialize_lists_terminates fuel : forall block read next sbuf,
  reading sbuf -> (Z.to_nat (icursor sbuf - ocursor sbuf) <= fuel)%nat ->
  deserialize_lists fuel s part i fsdata (block, read, next, sbuf) <> None.
Proof.
  induction fuel as [|fuel IH]; intros block read next sbuf Hb Hf; pose proof Hb as ((H0 & Hle) & Hi & Hs);
    cbn [deserialize_lists]; unfold getNRemainingBytes; rewrite u64_id by lia;
    destruct (Z.eqb_spec (icursor sbuf - ocursor sbuf) 0); [done|lia|done|].
  destruct (getUInt64 sbuf) as [[h b1]| | |] eqn:E1; cbn [mbind outcome_bind]; try done.
  destruct (get_fixed_advances 8 _ _ _ E1 Hb) as (Hb1 & Hi1 & Ho1).
  destruct (getUInt32 b1) as [[nedges b2]| | |] eqn:E2; cbn [mbind outcome_bind]; try done.
  destruct (get_fixed_advances 4 _ _ _ E2 Hb1) as (Hb2 & Hi2 & Ho2).
  destruct (deserialize_edges (Z.to_nat nedges) s part i fsdata h (block, read, next, b2)) as [[[[b3 r3] n3] s3]| | |] eqn:E3;
    try done.
  destruct (deserialize_edges_advances _ _ _ _ _ _ _ _ _ _ E3 Hb2) as (Hb3 & Hi3 & Ho3).
  apply IH; [done|]. lia.
Qed.
End Terminates.

Lemma deserialize_total {D} `{LevelDB D} s b next l (p : PartitionIndex D) :
  Z.of_nat (length l) < 2 ^ 64 -> deserialize s b next (of_bytes l) p <> None.
Proof.
  intros Hl. unfold deserialize.
  assert (reading (of_bytes l)) as Hb.
  { unfold reading, of_bytes. cbn. rewrite length_fmap. lia. }
  destruct (getUInt64 (of_bytes l)) as [[id s1]| | |] eqn:E1; cbn [mbind outcome_bind]; try done.
  destruct (get_fixed_advances 8 _ _ _ E1 Hb) as (Hb1 & _ & _).
  destruct (get_vector uint64 (subBlocks_ b) s1) as [[subs s2]| | |] eqn:E2; cbn [mbind outcome_bind]; try done.
  destruct (get_vector_advances uint64 (subBlocks_ b) (advances_le 8 0 _ ltac:(lia) (get_fixed_advances 8)) _ _ _ E2 Hb1)
    as (Hb2 & _ & _).
  destruct (getDouble s2) as [[mn s3]| | |] eqn:E3; cbn [mbind outcome_bind]; try done.
  destruct (get_fixed_advances 8 _ _ _ E3 Hb2) as (Hb3 & _ & _).
  destruct (getDouble s3) as [[mx s4]| | |] eqn:E4; cbn [mbind outcome_bind]; try done.
  destruct (get_fixed_advances 8 _ _ _ E4 Hb3) as (Hb4 & _ & _).
  destruct (getInt32 s4) as [[i s5]| | |] eqn:E5; cbn [mbind outcome_bind]; try done.
  destruct (advances_map 4 _ (to_signed 32) (get_fixed_advances 4) _ _ _ E5 Hb4) as (Hb5 & _ & _).
  destruct (getTimeSlicedPartitioningForBlockDeserialization _ p) as [[tp p']| | |]; cbn [mbind outcome_bind]; try done.
  pose proof Hb5 as ((H0 & Hle) & Hi & Hs).
  assert (Z.to_nat (icursor s5 - ocursor s5) <= Z.to_nat (getNRemainingBytes s5))%nat as Hf.
  { unfold getNRemainingBytes. rewrite u64_id by lia. lia. }
  cbn [alloc_data].
  pose proof (fun fs => deserialize_lists_terminates s (partitioning_ tp) i fs _
    (mkBlock id (Some i) (serializedSize_ b) subs (neigs_ b)) [] (next + 1) s5 Hb5 Hf) as Ht.
  cbn [newAttributeData_of foldM mbind outcome_bind].
  destruct (deserialize_lists _ _ _ _ _ _) as [r|] eqn:E; [done|by destruct (Ht _ E)].
Qed.

(** ** Properties *)

(** A block that can be stored: as part [i] of the partitioning of its time
    (with the attributes [attrs]), or as a master block when [i] is -1. *)
Record storable (s : Schema) (attrs : list string) (i : Z) (b : Block) : Prop := {
  st_ok : block_ok b;
  st_partition : partition_ b = Some i;
  st_part_range : - 2 ^ 31 <= i < 2 ^ 31;
  st_id : is_u64 (id_ b);
  st_subs : valid (vector uint64) (subBlocks_ b);
  st_lists : Forall list_storable (neigs_ b);
  st_time x : x ∈ edges_of b -> num (tm_ x.2);
  st_coherent x y : x ∈ edges_of b -> y ∈ edges_of b ->
    triplet_eqb (edge_triplet x) (edge_triplet y) = true -> cell (data_ x.2) = cell (data_ y.2);
  st_master : i = -1 -> subBlocks_ b <> [] /\ forall x, x ∈ edges_of b -> cell (data_ x.2) = mkData [] s;
  st_data : i <> -1 -> forall x, x ∈ edges_of b -> part_data s attrs (cell (data_ x.2))
}.

Definition enc_block (b : Block) (mn mx : Timestamp) (i : Z) : list Z :=
  enc_header b mn mx i ++ (enc_lists i [] (neigs_ b)).1.

Lemma findMinMaxTimestamps_doubles s attrs i b mn mx :
  storable s attrs i b -> findMinMaxTimestamps b = Ret (mn, mx) -> is_double mn /\ is_double mx.
Proof.
  intros Hs H. unfold findMinMaxTimestamps in H.
  assert (forall h nl e, (h, nl) ∈ neigs_ b -> e ∈ edges_ nl -> is_double (tm_ e)) as Ht.
  { intros h nl e Hin [k Hk]%list_elem_of_lookup.
    assert ((h, k, e) ∈ edges_of b) as Hx by (apply elem_of_edges_of; eauto).
    apply (st_time _ _ _ _ Hs) in Hx. apply Hx. }
  refine (foldM_inv (fun _ st => is_double st.1 /\ is_double st.2) _ _ _ (dmax, dzero) (mn, mx) _ H).
  - intros l [h nl] rest [mn1 mx1] st' El [H1 H2] E. cbn in E. inv_ret. cbn in *.
    assert ((h, nl) ∈ neigs_ b) as Hin by (rewrite El; set_solver).
    unfold getOldestEdge, getNewestEdge in *.
    destruct (head (edges_ nl)) as [e1|] eqn:Ee1; [|done]. destruct (last (edges_ nl)) as [e2|] eqn:Ee2; [|done].
    cbn in *. inv_ret. apply head_Some_elem_of in Ee1. apply last_Some_elem_of in Ee2.
    pose proof (Ht _ _ _ Hin Ee1). pose proof (Ht _ _ _ Hin Ee2).
    split; case_match; done.
  - by vm_compute.
Qed.

Lemma serialize_ok s attrs i b mn mx :
  storable s attrs i b -> findMinMaxTimestamps b = Ret (mn, mx) ->
  Z.of_nat (length (enc_block b mn mx i)) <= 2 ^ 32 ->
  exists buf, serialize b new_default = Ret buf /\ slice buf = Ret (enc_block b mn mx i).
Proof.
  intros Hs Hmm Hlen. destruct (findMinMaxTimestamps_doubles _ _ _ _ _ _ Hs Hmm) as [Hmn Hmx].
  destruct Hs as [_ Hp Hpr Hid Hsub Hl _ _ Hm _]. unfold enc_block, enc_header in Hlen.
  rewrite !length_app, !length_be in Hlen.
  unfold serialize. rewrite Hmm. cbn [mbind outcome_bind].
  destruct (put_ok (c := uint64) (id_ b) new_default []) as (b1 & E1 & Hb1 & Hg1 & _);
    [apply holds_new_default|by split|done|cbn [enc uint64 scalar length]; rewrite length_be; lia|].
  cbn [put enc uint64 scalar app] in *. rewrite E1. cbn [mbind outcome_bind].
  destruct (put_ok (c := vector uint64) (subBlocks_ b) b1 _ Hb1 Hg1 Hsub) as (b2 & E2 & Hb2 & Hg2 & _);
    [rewrite length_be; lia|].
  cbn [put vector] in E2. rewrite E2. cbn [mbind outcome_bind].
  destruct (put_ok (c := float64) mn b2 _ Hb2 Hg2 Hmn) as (b3 & E3 & Hb3 & Hg3 & _);
    [cbn [enc float64 scalar]; rewrite !length_app, !length_be; lia|].
  cbn [put enc float64 scalar] in *. rewrite E3. cbn [mbind outcome_bind].
  destruct (put_ok (c := float64) mx b3 _ Hb3 Hg3 Hmx) as (b4 & E4 & Hb4 & Hg4 & _);
    [cbn [enc float64 scalar]; rewrite !length_app, !length_be; lia|].
  cbn [put enc float64 scalar] in *. rewrite E4, Hp. cbn [mbind outcome_bind or_undefined].
  destruct (put_ok (c := int32) i b4 _ Hb4 Hg4 Hpr) as (b5 & E5 & Hb5 & Hg5 & _);
    [cbn [enc int32 scalar]; rewrite !length_app, !length_be; lia|].
  cbn [put enc int32 scalar] in *. rewrite E5. cbn [mbind outcome_bind].
  destruct (serialize_lists_ok i (neigs_ b) [] b5 _ Hb5 Hg5 Hl) as (b6 & E6 & Hb6 & _);
    [rewrite !length_app, !length_be; lia|].
  rewrite E6. cbn [mbind outcome_bind].
  assert (negb (i =? -1) || negb (bool_decide (subBlocks_ b = [])) = true) as ->.
  { destruct (Z.eqb_spec i (-1)) as [Hi|]; [|done]. destruct (Hm Hi) as [Hne _].
    by rewrite bool_decide_eq_false_2. }
  cbn [cassert mbind outcome_bind]. exists b6. split; [done|]. apply slice_holds.
  unfold enc_block, enc_header. by rewrite <- !app_assoc in *.
Qed.

Lemma deserialize_ok {D} `{LevelDB D} s attrs i b mn mx (p p' : PartitionIndex D) tpart next bid :
  defined_schema s -> storable s attrs i b -> is_double mn -> is_double mx ->
  getTimeSlicedPartitioningForBlockDeserialization (midpoint mn mx) p = Ret (tpart, p') ->
  (i <> -1 -> part_at (partitioning_ tpart) i = Ret attrs) ->
  Z.of_nat (length (enc_block b mn mx i)) <= 2 ^ 32 ->
  exists b' next' buf, deserialize s (new_block bid) next (of_bytes (enc_block b mn mx i)) p =
      Some (Ret (b', next', buf, p')) /\
    id_ b' = id_ b /\ partition_ b' = partition_ b /\ subBlocks_ b' = subBlocks_ b /\ content b' = content b.
Proof.
  intros Hdef Hs Hmn Hmx Hp Hpart Hlen. pose proof Hs as [Hok Hpb Hpr Hid Hsub Hl Ht Hcoh Hm Hd].
  pose proof (unread_of_bytes (enc_block b mn mx i) ltac:(lia)) as Hu.
  unfold enc_block at 2 in Hu. unfold enc_header in Hu. rewrite <- !app_assoc in Hu. unfold deserialize.
  destruct (get_ok (c := uint64) (id_ b) _ _ Hu Hid) as (s1 & E1 & Hu1). cbn [get uint64 scalar] in E1.
  rewrite E1. cbn [mbind outcome_bind]. clear E1.
  destruct (get_ok (c := vector uint64) (subBlocks_ b) _ _ Hu1 Hsub) as (s2 & E2 & Hu2). cbn [get vector] in E2.
  cbn [subBlocks_ new_block]. rewrite E2. cbn [mbind outcome_bind]. clear E2.
  destruct (get_ok (c := float64) mn _ _ Hu2 Hmn) as (s3 & E3 & Hu3). cbn [get float64 scalar] in E3.
  rewrite E3. cbn [mbind outcome_bind]. clear E3.
  destruct (get_ok (c := float64) mx _ _ Hu3 Hmx) as (s4 & E4 & Hu4). cbn [get float64 scalar] in E4.
  rewrite E4. cbn [mbind outcome_bind]. clear E4.
  destruct (get_ok (c := int32) i _ _ Hu4 Hpr) as (s5 & E5 & Hu5). cbn [get int32 scalar] in E5.
  rewrite E5. cbn [mbind outcome_bind]. clear E5. rewrite Hp. cbn [mbind outcome_bind].
  cbn [newAttributeData_of foldM mbind outcome_bind alloc_data].
  set (fsdata := mkShared next _). set (b0 := mkBlock (id_ b) (Some i) _ (subBlocks_ b) _).
  rewrite (getNRemainingBytes_spec _ _ Hu5), Nat2Z.id.
  destruct (read_lists_ok s i (partitioning_ tpart) attrs fsdata b) with (b0 := b0) (ns := neigs_ b)
    (fuel := length (enc_lists i [] (neigs_ b)).1) (done := @nil (VertexId * nat * NLEdge)) (block := b0)
    (read := @nil (EdgeTriplet * SharedData)) (next := next + 1) (w := @nil (EdgeTriplet * unit)) (sbuf := s5)
    as (b' & r' & n' & s' & w' & E & Hinv & _); try done.
  - intros Hi x Hx. by apply Hm.
  - intros x Hx. destruct x as [[h k] e]. apply elem_of_edges_of in Hx as (nl & Hin & Hk).
    rewrite Forall_forall in Hl. destruct (Hl _ Hin) as (_ & _ & Hes). rewrite Forall_lookup in Hes.
    by destruct (Hes _ _ Hk).
  - intros h nl k e Hin Hk. apply elem_of_edges_of. eauto.
  - eapply Forall_impl; [exact Hl|]. by intros p0 (? & ? & _).
  - unfold read_inv. destruct (i =? -1).
    + split_and!; try done. intros h e (nl & Hf & _). done.
    + split; [by apply replay_init|done].
  - rewrite E. cbn [mbind outcome_bind].
    assert (same_header b0 b' /\ content b' = mapped_content (fun x => cell (data_ x.2)) b) as [(H1 & H2 & H3) Hc].
    { unfold read_inv in Hinv. cbn [app] in Hinv. fold (edges_of b) in Hinv. destruct (i =? -1).
      - destruct Hinv as (Hh & Hc & _). split; [done|]. rewrite Hc. by apply replay_all.
      - destruct Hinv as [[Hh Hc _ _] _]. split; [done|]. rewrite Hc. by apply replay_all. }
    rewrite H3. cbn [subBlocks_ b0].
    assert (negb (i =? -1) || negb (bool_decide (subBlocks_ b = [])) = true) as ->.
    { destruct (Z.eqb_spec i (-1)) as [Hi|]; [|done]. destruct (Hm Hi) as [Hne _].
      by rewrite bool_decide_eq_false_2. }
    cbn [cassert mbind outcome_bind]. exists b', n', s'. split_and!; try done.
    + by rewrite H2, Hpb.
    + rewrite Hc. eapply (mapped_back b b (fun x => cell (data_ x.2))).
      * unfold content, mapped_content, edge_content. apply list_fmap_ext. intros j [h nl] _. cbn. f_equal.
        rewrite <- imap_const. by apply imap_ext.
      * intros h nl nl' k e e' Hin Hin' Hk Hk'. cbn.
        assert (nl = nl') as <-; [|congruence].
        destruct Hok as [Hnd _]. pose proof (assoc_find_elem h nl _ Hnd Hin).
        pose proof (assoc_find_elem h nl' _ Hnd Hin'). congruence.
Qed.

(** C12: blocks survive storage.  The bytes [serialize] writes for a block
    (master or sub block), read back by [deserialize] with the partitioning
    its time range designates, give a block with the same identifier,
    partition, sub blocks and content: every list, edge, time and attribute
    value; attribute data shared by the two directions of an edge is written
    once and shared again.  Neither direction fails an assertion, and the
    reading loop ends. *)
Theorem block_storage_roundtrip {D} `{LevelDB D} (s : Schema) (attrs : list string) (i : Z) (b : Block)
    (mn mx : Timestamp) (p p' : PartitionIndex D) (tpart : TimeSlicedPartitioning) (next bid : Z) :
  defined_schema s -> storable s attrs i b ->
  findMinMaxTimestamps b = Ret (mn, mx) ->
  getTimeSlicedPartitioningForBlockDeserialization (midpoint mn mx) p = Ret (tpart, p') ->
  (i <> -1 -> part_at (partitioning_ tpart) i = Ret attrs) ->
  Z.of_nat (length (enc_block b mn mx i)) <= 2 ^ 32 ->
  exists buf stored b' next' buf', serialize b new_default = Ret buf /\ slice buf = Ret stored /\
    deserialize s (new_block bid) next (of_bytes stored) p = Some (Ret (b', next', buf', p')) /\
    id_ b' = id_ b /\ partition_ b' = partition_ b /\ subBlocks_ b' = subBlocks_ b /\ content b' = content b.
Proof.
  intros Hdef Hs Hmm Hp Hpart Hlen.
  destruct (findMinMaxTimestamps_doubles _ _ _ _ _ _ Hs Hmm) as [Hmn Hmx].
  destruct (serialize_ok _ _ _ _ _ _ Hs Hmm Hlen) as (buf & E1 & E2).
  destruct (deserialize_ok s attrs i b mn mx p p' tpart next bid) as (b' & n' & buf' & E3 & H'); try done.
  exists buf, (enc_block b mn mx i), b', n', buf'. done.
Qed.

Definition example_part_data : AttributeData := mkData [(0, VInt (-5))] example_schema.

Definition example_sub_block : Block :=
  mkBlock 7 (Some 1) 100 []
    [(1, mkNeighborList 1 [mkNLEdge 2 (dofZ 30) (mkShared 1 example_part_data)]);
     (2, mkNeighborList 2 [mkNLEdge 1 (dofZ 30) (mkShared 1 example_part_data)])].

Lemma example_part_data_ok : part_data example_schema ["weight"] example_part_data.
Proof.
  split.
  - split; [cbn; repeat constructor; set_solver|].
    repeat constructor; eexists; split; (reflexivity || (cbn; lia)).
  - eexists. split; [vm_compute; reflexivity|]. split; reflexivity.
Qed.

Lemma example_sub_block_storable : storable example_schema ["weight"] 1 example_sub_block.
Proof.
  assert (forall x, x ∈ edges_of example_sub_block -> cell (data_ x.2) = example_part_data /\ tm_ x.2 = dofZ 30) as H.
  { intros x Hx. cbn -[dofZ] in Hx. repeat (apply elem_of_cons in Hx as [->|Hx]; [done|]). by apply elem_of_nil in Hx. }
  split; try done.
  - split; [|repeat constructor; discriminate]. cbn. repeat constructor; set_solver.
  - apply Forall_cons_2; [|apply Forall_cons_2; [|apply Forall_nil_2]].
    all: split; [cbn; lia|]; split; [cbn; lia|]; apply Forall_cons_2; [|apply Forall_nil_2].
    all: split; [cbn; lia|]; split; [by vm_compute|apply example_part_data_ok].
  - intros x Hx. destruct (H x Hx) as [_ ->]. by vm_compute.
  - intros x y Hx Hy _. destruct (H x Hx) as [-> _], (H y Hy) as [-> _]. done.
  - intros _ x Hx. destruct (H x Hx) as [-> _]. apply example_part_data_ok.
Qed.

Lemma block_storage_roundtrip_witness :
  exists buf stored b' next' buf' p', serialize example_sub_block new_default = Ret buf /\ slice buf = Ret stored /\
    deserialize example_schema (new_block 0) 5 (of_bytes stored) (index_with 3 example_slices) =
      Some (Ret (b', next', buf', p')) /\
    id_ b' = 7 /\ partition_ b' = Some 1 /\ subBlocks_ b' = [] /\ content b' = content example_sub_block.
Proof.
  assert (exists tp p', getTimeSlicedPartitioningForBlockDeserialization (midpoint (dofZ 30) (dofZ 30))
      (index_with 3 example_slices) = Ret (tp, p') /\ partitioning_ tp = [["tag"]; ["weight"]])
    as (tp & p' & Hp & Htp).
  { eexists _, _. split; [vm_compute; reflexivity|reflexivity]. }
  destruct (block_storage_roundtrip example_schema ["weight"] 1 example_sub_block (dofZ 30) (dofZ 30)
    (index_with 3 example_slices) p' tp 5 0 example_defined example_sub_block_storable)
    as (buf & stored & b' & n' & buf' & H).
  - vm_compute. reflexivity.
  - exact Hp.
  - intros _. rewrite Htp. reflexivity.
  - vm_compute. discriminate.
  - exists buf, stored, b', n', buf', p'. exact H.
Defined.
