(* ===== verification/BlockManager.v ===== *)
(** * The block manager

    core/BlockManager.h and BlockManager.cpp: blocks in a LevelDB database
    behind an LRU cache of decoded blocks.  The cache is an
    [unordered_map] that is never traversed; an identifier occurs at most once
    in [lruList_], so the iterator an entry keeps is the identifier itself. *)

From Stdlib Require Import ZArith Lia.
From stdpp Require Import base numbers gmap strings list sorting.
From S2P Require Import Prelude.
From S2P Require Import Double.
From S2P Require Import NetworkByteBuffer.
From S2P Require Import LevelDB.
From S2P Require Import Schema.
From S2P Require Import AttributeData.
From S2P Require Import NeighborList.
From S2P Require Import PartitionIndex.
From S2P Require Import Block.
From S2P Require Import BlockContent.
From S2P Require Import BlockStorage.

Section BlockManager.
Context {D : Type} `{LevelDB D}.

Record BlockManager := mkManager {
  nIOReads_ : Z;
  nIOWrites_ : Z;
  reqCount_ : Z;
  hitCount_ : Z;
  blockBufferSize_ : Z;
  bm_edgeSchema_ : Schema;
  bm_lruList_ : list BlockId;
  bm_cache_ : gmap Z Block;
  bm_db_ : D;
  nextBlockId_ : Z
}.

(** The manager with the partition index it refers to and the supply of
    addresses. *)
Record Store := mkStore { bman_ : BlockManager; pidx_ : PartitionIndex D; heap_ : Z }.

Definition newBlockManager (bufferSize : Z) (edgeSchema : Schema) (db : D) (next : Z) : BlockManager :=
  mkManager 0 0 0 0 bufferSize edgeSchema [] ∅ db next.

Definition with_lru_cache (lru : list BlockId) (cache : gmap Z Block) (m : BlockManager) : BlockManager :=
  mkManager (nIOReads_ m) (nIOWrites_ m) (reqCount_ m) (hitCount_ m) (blockBufferSize_ m) (bm_edgeSchema_ m)
    lru cache (bm_db_ m) (nextBlockId_ m).

Definition clear (m : BlockManager) : BlockManager := with_lru_cache [] ∅ m.

Definition count_request (hit : bool) (m : BlockManager) : BlockManager :=
  mkManager (nIOReads_ m) (nIOWrites_ m) (u64 (reqCount_ m + 1)) (if hit then u64 (hitCount_ m + 1) else hitCount_ m)
    (blockBufferSize_ m) (bm_edgeSchema_ m) (bm_lruList_ m) (bm_cache_ m) (bm_db_ m) (nextBlockId_ m).

Definition count_reads (n : Z) (m : BlockManager) : BlockManager :=
  mkManager (u64 (nIOReads_ m + n)) (nIOWrites_ m) (reqCount_ m) (hitCount_ m) (blockBufferSize_ m)
    (bm_edgeSchema_ m) (bm_lruList_ m) (bm_cache_ m) (bm_db_ m) (nextBlockId_ m).

Definition wrote (db : D) (n : Z) (m : BlockManager) : BlockManager :=
  mkManager (nIOReads_ m) (u64 (nIOWrites_ m + n)) (reqCount_ m) (hitCount_ m) (blockBufferSize_ m)
    (bm_edgeSchema_ m) (bm_lruList_ m) (bm_cache_ m) db (nextBlockId_ m).

Definition take_id (m : BlockManager) : BlockManager :=
  mkManager (nIOReads_ m) (nIOWrites_ m) (reqCount_ m) (hitCount_ m) (blockBufferSize_ m) (bm_edgeSchema_ m)
    (bm_lruList_ m) (bm_cache_ m) (bm_db_ m) (u64 (nextBlockId_ m + 1)).

Definition getHitRatio (m : BlockManager) : double := ddiv (dofZ (hitCount_ m)) (dofZ (reqCount_ m)).

(** The key of a block: its identifier. *)
Definition id_key (id : BlockId) : outcome bytes := keyBuf ← addUInt64 id (new_sized 8); slice keyBuf.

(** Moving an entry that is in use to the front. *)
Definition touch (id : BlockId) (lru : list BlockId) : list BlockId :=
  if decide (head lru = Some id) then lru else id :: filter (fun x => x <> id) lru.

(** The entry evicted when the list is longer than the buffer. *)
Definition evict (m : BlockManager) : BlockManager :=
  if blockBufferSize_ m <? Z.of_nat (length (bm_lruList_ m)) then
    match last (bm_lruList_ m) with
    | Some r => with_lru_cache (take (pred (length (bm_lruList_ m))) (bm_lruList_ m)) (delete r (bm_cache_ m)) m
    | None => m
    end
  else m.

(** A loop that runs out of fuel; [deserialize_total] shows that reading
    a block never does. *)
Definition within_fuel {A} (r : option (outcome A)) : outcome A :=
  match r with Some r => r | None => AssertFailed end.

Definition getBlock (id : BlockId) (st : Store) : outcome (Block * Store) :=
  let m := bman_ st in
  match bm_cache_ m !! id with
  | Some block =>
      let m := with_lru_cache (touch id (bm_lruList_ m)) (bm_cache_ m) (count_request true m) in
      _ ← cassert (id_ block =? id);
      Ret (block, mkStore m (pidx_ st) (heap_ st))
  | None =>
      let m := count_request false m in
      key ← id_key id;
      match ldb_get (bm_db_ m) key with
      | NotFound => Throw (block_not_found id)
      | IOError msg => Throw (runtime_error msg)
      | StatusOK value =>
          let m := count_reads (Z.of_nat (length key) + Z.of_nat (length value)) m in
          '(block, heap, _, p) ←
            within_fuel (deserialize (bm_edgeSchema_ m) (new_block 0) (heap_ st) (of_bytes value) (pidx_ st));
          let m := evict (with_lru_cache (id :: bm_lruList_ m) (<[id := block]> (bm_cache_ m)) m) in
          (* [blockAndIter] refers to the cache entry *)
          block ← or_undefined (bm_cache_ m !! id);
          _ ← cassert (id_ block =? id);
          Ret (block, mkStore m p heap)
      end
  end.

(** The block with the identifier it was given, and the store. *)
Definition addBlock (block : Block) (setId : bool) (st : Store) : outcome (Block * Store) :=
  let m := bman_ st in
  let '(block, m) := if setId then (with_id (nextBlockId_ m) block, take_id m) else (block, m) in
  key ← id_key (id_ block);
  dataBuf ← serialize block new_default;
  dataSlice ← slice dataBuf;
  db ← check (ldb_put (bm_db_ m) key dataSlice);
  let m := wrote db (Z.of_nat (length key) + getSerializedDataSize dataBuf) m in
  Ret (block, mkStore m (pidx_ st) (heap_ st)).

Definition updateBlock (block : Block) (st : Store) : outcome Store :=
  '(_, st) ← getBlock (id_ block) st;
  let m := bman_ st in
  let m := with_lru_cache (bm_lruList_ m) (<[id_ block := block]> (bm_cache_ m)) m in
  '(_, st) ← addBlock block false (mkStore m (pidx_ st) (heap_ st));
  Ret st.

Definition removeBlock (blockId : BlockId) (st : Store) : outcome Store :=
  let m := bman_ st in
  key ← id_key blockId;
  db ← check (ldb_delete (bm_db_ m) key);
  let m := wrote db (Z.of_nat (length key)) m in
  let m := match bm_cache_ m !! blockId with
           | Some _ => with_lru_cache (filter (fun x => x <> blockId) (bm_lruList_ m)) (delete blockId (bm_cache_ m)) m
           | None => m
           end in
  Ret (mkStore m (pidx_ st) (heap_ st)).

End BlockManager.
Arguments BlockManager D : clear implicits.
Arguments Store D : clear implicits.

(** ** What the store holds

    [kept st A]: the database of [st] holds the blocks of [A] and every cached
    block has the content of the stored one.  The partition index is in one of
    the states [I], in which reading a block of the time [time] finds a slice
    [t] with [look time t]: while slices are replaced these are not the slices
    that new blocks are written with. *)

(** Equal up to the addresses of the attribute data and the size estimate. *)
Definition same_block (b b' : Block) : Prop :=
  id_ b' = id_ b /\ partition_ b' = partition_ b /\ subBlocks_ b' = subBlocks_ b /\ content b' = content b.

#[export] Instance same_block_equivalence : Equivalence same_block.
Proof.
  unfold same_block. split.
  - intros b. done.
  - intros b b' (? & ? & ? & ?). split_and!; congruence.
  - intros b1 b2 b3 (? & ? & ? & ?) (? & ? & ? & ?). split_and!; congruence.
Qed.

Lemma touch_elem id lru x : id ∈ lru -> x ∈ touch id lru <-> x ∈ lru.
Proof.
  intros Hid. unfold touch. case_decide; [done|].
  rewrite elem_of_cons, list_elem_of_filter. destruct (decide (x = id)); [subst|]; tauto.
Qed.

Lemma filter_NoDup_remove id (lru : list Z) : NoDup lru -> NoDup (filter (fun x => x <> id) lru).
Proof. apply NoDup_filter. Qed.

Lemma touch_NoDup id lru : NoDup lru -> NoDup (touch id lru).
Proof.
  intros H0. unfold touch. case_decide; [done|]. constructor; [|by apply NoDup_filter].
  rewrite list_elem_of_filter. tauto.
Qed.

Lemma touch_length id lru : NoDup lru -> id ∈ lru -> length (touch id lru) = length lru.
Proof.
  intros Hnd Hid. apply Permutation_length, NoDup_Permutation; [by apply touch_NoDup|done|].
  intros x. by apply touch_elem.
Qed.

Section Kept.
Context {D : Type} `{LevelDB D, !LevelDBOk D}.
Context (s : Schema) (look : Timestamp -> TimeSlicedPartitioning -> Prop) (I : PartitionIndex D -> Prop).

(** The bytes a block is stored as. *)
Definition stored_as (b : Block) (v : bytes) : Prop :=
  exists buf, serialize b new_default = Ret buf /\ slice buf = Ret v.

(** A block that can be stored. *)
Definition writable (b : Block) : Prop :=
  exists attrs i mn mx, storable s attrs i b /\ findMinMaxTimestamps b = Ret (mn, mx) /\
    Z.of_nat (length (enc_block b mn mx i)) <= 2 ^ 32.

(** A block that can be stored and read back. *)
Definition legible (b : Block) : Prop :=
  exists attrs i mn mx, storable s attrs i b /\ findMinMaxTimestamps b = Ret (mn, mx) /\
    Z.of_nat (length (enc_block b mn mx i)) <= 2 ^ 32 /\ (exists t, look (midpoint mn mx) t) /\
    (i <> -1 -> forall t, look (midpoint mn mx) t -> part_at (partitioning_ t) i = Ret attrs).

Lemma legible_writable b : legible b -> writable b.
Proof. intros (attrs & i & mn & mx & ? & ? & ? & _). by exists attrs, i, mn, mx. Qed.

(** The index answers the look-ups of a read. *)
Definition answers : Prop := forall p time, I p -> (exists t, look time t) ->
  exists t p', getTimeSlicedPartitioningForBlockDeserialization time p = Ret (t, p') /\ look time t /\ I p'.

Record kept (st : Store D) (A : gmap Z Block) : Prop := {
  kept_schema : bm_edgeSchema_ (bman_ st) = s;
  kept_index : I (pidx_ st);
  kept_db id : is_u64 id -> forall v, contents (bm_db_ (bman_ st)) !! be 8 id = Some v <->
    exists b, A !! id = Some b /\ stored_as b v;
  kept_blocks id b : A !! id = Some b -> id_ b = id /\ is_u64 id /\ id < nextBlockId_ (bman_ st) /\ writable b;
  kept_cache id b' : bm_cache_ (bman_ st) !! id = Some b' -> exists b, A !! id = Some b /\ same_block b b';
  kept_lru : NoDup (bm_lruList_ (bman_ st)) /\
    (forall id, id ∈ bm_lruList_ (bman_ st) <-> is_Some (bm_cache_ (bman_ st) !! id));
  kept_room : 0 < blockBufferSize_ (bman_ st) /\
    Z.of_nat (length (bm_lruList_ (bman_ st))) <= blockBufferSize_ (bman_ st);
  kept_next : 0 <= nextBlockId_ (bman_ st) < 2 ^ 64
}.

Lemma id_key_ok id : is_u64 id -> id_key id = Ret (be 8 id).
Proof.
  intros Hid. unfold id_key.
  destruct (put_ok (c := uint64) id (new_sized 8) []) as (b & E & Hb & _);
    [apply holds_new_sized; lia|split; [done|cbn; lia]|done|cbn; lia|].
  cbn [put uint64 scalar] in E. rewrite E. cbn [mbind outcome_bind]. by apply slice_holds.
Qed.

(** Reading back the bytes of a block. *)
Lemma read_legible (Hdef : defined_schema s) (HI : answers) b v (p : PartitionIndex D) next :
  legible b -> stored_as b v -> I p ->
  exists b' next' buf p', deserialize s (new_block 0) next (of_bytes v) p = Some (Ret (b', next', buf, p')) /\
    same_block b b' /\ I p'.
Proof.
  intros (attrs & i & mn & mx & Hs & Hmm & Hlen & Hlook & Hpart) (buf & E1 & E2) Hp.
  destruct (serialize_ok _ _ _ _ _ _ Hs Hmm Hlen) as (buf' & E1' & E2').
  rewrite E1 in E1'. injection E1' as <-. rewrite E2 in E2'. injection E2' as ->.
  destruct (HI p _ Hp Hlook) as (t & p' & Ep & Ht & Hp').
  destruct (findMinMaxTimestamps_doubles _ _ _ _ _ _ Hs Hmm) as [Hmn Hmx].
  destruct (deserialize_ok s attrs i b mn mx p p' t next 0) as (b' & n' & buf2 & E3 & H1 & H2 & H3 & H4); try done.
  - intros Hi. by apply Hpart.
  - exists b', n', buf2, p'. by split_and!.
Qed.

(** Evicting keeps the list and the cache in step and the entry just used. *)
Lemma evict_ok (m : BlockManager D) id :
  NoDup (id :: bm_lruList_ m) ->
  (forall x, x ∈ id :: bm_lruList_ m <-> is_Some (bm_cache_ m !! x)) ->
  0 < blockBufferSize_ m -> Z.of_nat (length (bm_lruList_ m)) <= blockBufferSize_ m ->
  let m' := evict (with_lru_cache (id :: bm_lruList_ m) (bm_cache_ m) m) in
  NoDup (bm_lruList_ m') /\ (forall x, x ∈ bm_lruList_ m' <-> is_Some (bm_cache_ m' !! x)) /\
  Z.of_nat (length (bm_lruList_ m')) <= blockBufferSize_ m /\
  bm_cache_ m' !! id = bm_cache_ m !! id /\
  (forall x b, bm_cache_ m' !! x = Some b -> bm_cache_ m !! x = Some b).
Proof.
  intros Hnd Hel Hpos Hlen. unfold evict. cbn [bm_lruList_ with_lru_cache blockBufferSize_].
  destruct (Z.ltb_spec (blockBufferSize_ m) (Z.of_nat (length (id :: bm_lruList_ m)))) as [Hlt|Hge].
  2: { cbn. split_and!; done. }
  destruct (bm_lruList_ m) as [|x0 l0] eqn:El; [cbn in Hlt; lia|].
  destruct (exists_last (l := x0 :: l0) ltac:(done)) as (l & r & Er). rewrite Er in *.
  change (id :: l ++ [r]) with ((id :: l) ++ [r]) in *. rewrite last_snoc.
  cbn [with_lru_cache bm_lruList_ bm_cache_].
  rewrite length_app, Nat.add_1_r. cbn [pred]. rewrite take_app_length.
  apply NoDup_app in Hnd as (Hnd & Hr & _).
  assert (forall x, x ∈ id :: l -> x <> r) as Hne by (intros x Hx ->; apply (Hr r Hx); set_solver).
  split_and!; [done| | | |].
  - intros x. rewrite lookup_delete. case_decide as Hd.
    + subst. split; [intros Hx; by destruct (Hne x Hx)|by intros []].
    + rewrite <- Hel, elem_of_app, list_elem_of_singleton. naive_solver.
  - rewrite length_app in Hlen. cbn in *. lia.
  - rewrite lookup_delete_ne; [done|]. intros ->. apply (Hne id); [left|done].
  - intros x b Hx. by apply lookup_delete_Some in Hx as [_ ?].
Qed.

Lemma kept_getBlock (Hdef : defined_schema s) (HI : answers) st A id b :
  kept st A -> A !! id = Some b -> legible b ->
  exists b' st', getBlock id st = Ret (b', st') /\ same_block b b' /\ kept st' A /\
    nextBlockId_ (bman_ st') = nextBlockId_ (bman_ st) /\ bm_db_ (bman_ st') = bm_db_ (bman_ st) /\
    is_Some (bm_cache_ (bman_ st') !! id).
Proof.
  intros Hrep Hb Hread. pose proof Hrep as [Hs Hidx Hdb Hbl Hca [Hnd Hlru] [Hpos Hroom] Hnext].
  destruct (Hbl _ _ Hb) as (Hid & Hu & Hlt & _). unfold getBlock.
  destruct (bm_cache_ (bman_ st) !! id) as [b'|] eqn:Ec.
  - destruct (Hca _ _ Ec) as (b0 & Hb0 & Hsame). rewrite Hb in Hb0. injection Hb0 as <-.
    pose proof Hsame as (Hid' & _). rewrite Hid', Hid, Z.eqb_refl. cbn [cassert mbind outcome_bind].
    eexists b', _. split; [done|]. split; [done|]. split; [|cbn; rewrite Ec; eauto].
    assert (id ∈ bm_lruList_ (bman_ st)) as Hin by (apply Hlru; eauto).
    split; cbn; try done.
    + split; [by apply touch_NoDup|]. intros x. by rewrite touch_elem.
    + by rewrite touch_length.
  - rewrite id_key_ok by done. cbn [mbind outcome_bind].
    destruct Hread as (attrs & i & mn & mx & Hread).
    destruct (serialize_ok _ _ _ _ _ _ (proj1 Hread) (proj1 (proj2 Hread)) (proj1 (proj2 (proj2 Hread))))
      as (buf & E1 & E2).
    set (v := enc_block b mn mx i) in *.
    assert (contents (bm_db_ (bman_ st)) !! be 8 id = Some v) as Hv.
    { apply Hdb; [done|]. exists b. split; [done|]. by exists buf. }
    cbn [bm_db_ count_request]. rewrite ldb_get_ok, Hv.
    destruct (read_legible Hdef HI b v (pidx_ st) (heap_ st)) as (b' & n' & buf' & p' & E3 & Hsame & Hp'); try done.
    { by exists attrs, i, mn, mx. } { by exists buf. }
    cbn [bm_edgeSchema_ count_reads count_request]. rewrite Hs, E3. cbn [within_fuel mbind outcome_bind].
    set (m0 := with_lru_cache _ (<[id := b']> _) _).
    assert (id ∉ bm_lruList_ (bman_ st)) as Hnin.
    { intros Hin. apply Hlru in Hin. rewrite Ec in Hin. by destruct Hin. }
    pose proof (evict_ok (with_lru_cache (bm_lruList_ (bman_ st)) (<[id := b']> (bm_cache_ (bman_ st)))
      (count_reads (Z.of_nat (length (be 8 id)) + Z.of_nat (length v)) (count_request false (bman_ st)))) id) as Hev.
    cbn [bm_lruList_ bm_cache_ with_lru_cache blockBufferSize_ count_reads count_request] in Hev.
    destruct Hev as (H1 & H2 & H3 & H4 & H5); [by constructor| |done|done|].
    { intros x. rewrite elem_of_cons, lookup_insert. case_decide; [subst; naive_solver|].
      rewrite Hlru. naive_solver. }
    match type of H1 with NoDup (bm_lruList_ (evict ?m1)) =>
      assert (m1 = m0) as Em by (unfold m0, with_lru_cache; reflexivity) end.
    rewrite Em in *. rewrite H4, lookup_insert_eq. cbn [or_undefined mbind outcome_bind].
    pose proof Hsame as (Hid' & _). rewrite Hid', Hid, Z.eqb_refl. cbn [cassert mbind outcome_bind].
    assert (bm_edgeSchema_ (evict m0) = s /\ bm_db_ (evict m0) = bm_db_ (bman_ st) /\
      nextBlockId_ (evict m0) = nextBlockId_ (bman_ st) /\ blockBufferSize_ (evict m0) = blockBufferSize_ (bman_ st))
      as (F1 & F2 & F3 & F4).
    { unfold evict. repeat case_match; done. }
    eexists b', _. split; [done|]. split; [done|]. cbn [bman_].
    split; [|split_and!; [done|done|rewrite H4, lookup_insert_eq; eauto]].
    split; cbn; rewrite ?F2, ?F3, ?F4; try done.
    intros x bx Hx. apply H5 in Hx. rewrite lookup_insert in Hx. case_decide; [|by apply Hca].
    subst. injection Hx as <-. eauto.
Qed.

Lemma kept_missing st A id :
  kept st A -> A !! id = None -> is_u64 id -> getBlock id st = Throw (block_not_found id).
Proof.
  intros Hrep Hn Hu. pose proof Hrep as [_ _ Hdb _ Hca _ _ _]. unfold getBlock.
  destruct (bm_cache_ (bman_ st) !! id) as [b'|] eqn:Ec.
  { destruct (Hca _ _ Ec) as (b & Hb & _). congruence. }
  rewrite id_key_ok by done. cbn [mbind outcome_bind bm_db_ count_request]. rewrite ldb_get_ok.
  destruct (contents _ !! be 8 id) as [v|] eqn:Ev; [|done].
  apply (Hdb id Hu v) in Ev as (b & Hb & _). congruence.
Qed.

(** The effect of [addBlock] on the database. *)
Lemma addBlock_eval (st : Store D) b :
  is_u64 (id_ b) -> writable b ->
  exists v db n, stored_as b v /\
    contents db = <[be 8 (id_ b) := v]> (contents (bm_db_ (bman_ st))) /\
    addBlock b false st = Ret (b, mkStore (wrote db n (bman_ st)) (pidx_ st) (heap_ st)).
Proof.
  intros Hid (attrs & i & mn & mx & Hs & Hmm & Hlen).
  destruct (serialize_ok _ _ _ _ _ _ Hs Hmm Hlen) as (buf & E1 & E2).
  unfold addBlock. rewrite id_key_ok by done. cbn [mbind outcome_bind]. rewrite E1. cbn [mbind outcome_bind].
  rewrite E2. cbn [mbind outcome_bind].
  destruct (ldb_put_ok (bm_db_ (bman_ st)) (be 8 (id_ b)) (enc_block b mn mx i)) as (db & -> & Hdb).
  cbn [check mbind outcome_bind]. eexists _, db, _. split; [by exists buf|]. split; [done|reflexivity].
Qed.

Lemma stored_as_det b v v' : stored_as b v -> stored_as b v' -> v = v'.
Proof. intros (buf & E1 & E2) (buf' & E1' & E2'). congruence. Qed.

(** Writing a block under its identifier: the manager [m] has the new
    database and a cache that agrees with it. *)
Lemma kept_put st A b v (m : BlockManager D) p h :
  kept st A -> is_u64 (id_ b) -> writable b -> stored_as b v -> pidx_ st = p ->
  contents (bm_db_ m) = <[be 8 (id_ b) := v]> (contents (bm_db_ (bman_ st))) ->
  bm_edgeSchema_ m = s -> blockBufferSize_ m = blockBufferSize_ (bman_ st) -> bm_lruList_ m = bm_lruList_ (bman_ st) ->
  nextBlockId_ (bman_ st) <= nextBlockId_ m < 2 ^ 64 -> id_ b < nextBlockId_ m ->
  (forall id, is_Some (bm_cache_ m !! id) <-> is_Some (bm_cache_ (bman_ st) !! id)) ->
  (forall id b', bm_cache_ m !! id = Some b' -> id <> id_ b -> bm_cache_ (bman_ st) !! id = Some b') ->
  (forall b', bm_cache_ m !! id_ b = Some b' -> same_block b b') ->
  kept (mkStore m p h) (<[id_ b := b]> A).
Proof.
  intros Hrep Hu Hread Hst <- Hdb Hs Hsz Hlru Hnx Hlt Hc1 Hc2 Hc3.
  pose proof Hrep as [_ Hidx Hdb0 Hbl Hca [Hnd Hl] Hroom Hnext].
  split; cbn; rewrite ?Hsz, ?Hlru; try done; try lia.
  - intros id Hid v'. rewrite Hdb. destruct (decide (id = id_ b)) as [->|Hne].
    + rewrite !lookup_insert_eq. split.
      * intros [= <-]. eauto.
      * intros (b' & [= <-] & Hv'). f_equal. by eapply stored_as_det.
    + rewrite lookup_insert_ne, (lookup_insert_ne A) by (try congruence; intros E; apply Hne; symmetry; eapply (be_inj 8); done).
      by apply Hdb0.
  - intros id b' Hb'. apply lookup_insert_Some in Hb' as [[<- <-]|[Hne Hb']]; [done|].
    destruct (Hbl _ _ Hb') as (? & ? & ? & ?). split_and!; done || lia.
  - intros id b' Hb'. destruct (decide (id = id_ b)) as [->|Hne].
    + exists b. rewrite lookup_insert_eq. auto.
    + rewrite lookup_insert_ne by congruence. apply Hca. by apply Hc2.
  - split; [done|]. intros id. by rewrite Hl, Hc1.
Qed.

Lemma kept_addBlock st A b :
  kept st A -> writable (with_id (nextBlockId_ (bman_ st)) b) -> nextBlockId_ (bman_ st) + 1 < 2 ^ 64 ->
  let b' := with_id (nextBlockId_ (bman_ st)) b in
  exists st', addBlock b true st = Ret (b', st') /\ kept st' (<[id_ b' := b']> A) /\
    nextBlockId_ (bman_ st') = nextBlockId_ (bman_ st) + 1.
Proof.
  intros Hrep Hread Hn b'. pose proof (kept_next _ _ Hrep) as Hnx.
  destruct (addBlock_eval (mkStore (take_id (bman_ st)) (pidx_ st) (heap_ st)) b') as (v & db & n & Hv & Hdb & E);
    [done|done|]. cbn [bman_ pidx_ heap_] in *.
  assert (addBlock b true st = addBlock b' false (mkStore (take_id (bman_ st)) (pidx_ st) (heap_ st))) as -> by done.
  assert (nextBlockId_ (bman_ st) ∉ dom A) as Hfresh.
  { intros Hin. apply elem_of_dom in Hin as [b0 Hb0]. apply (kept_blocks _ _ Hrep) in Hb0. lia. }
  eexists. split; [exact E|]. split; [|cbn; rewrite u64_id; lia].
  eapply kept_put; try done.
  - by apply (kept_schema _ _ Hrep).
  - cbn. rewrite u64_id; lia.
  - cbn. rewrite u64_id; lia.
  - cbn. intros b0 Hb0. apply (kept_cache _ _ Hrep) in Hb0 as (b1 & Hb1 & _).
    destruct Hfresh. apply elem_of_dom. eauto.
Qed.

Lemma kept_updateBlock (Hdef : defined_schema s) (HI : answers) st A b b0 :
  kept st A -> A !! id_ b = Some b0 -> legible b0 -> writable b ->
  exists st', updateBlock b st = Ret st' /\ kept st' (<[id_ b := b]> A) /\
    nextBlockId_ (bman_ st') = nextBlockId_ (bman_ st).
Proof.
  intros Hrep Hb0 Hleg Hread. destruct (kept_blocks _ _ Hrep _ _ Hb0) as (_ & Hu & Hlt & _).
  destruct (kept_getBlock Hdef HI _ _ _ _ Hrep Hb0 Hleg) as (b1 & st1 & E1 & _ & Hrep1 & Hn1 & _ & Hc1).
  unfold updateBlock. rewrite E1. cbn [mbind outcome_bind].
  set (m1 := with_lru_cache _ _ _).
  destruct (addBlock_eval (mkStore m1 (pidx_ st1) (heap_ st1)) b) as (v & db & n & Hv & Hdb & E2); [done..|].
  rewrite E2. cbn [mbind outcome_bind]. eexists. split; [reflexivity|]. split; [|done].
  pose proof (kept_next _ _ Hrep1) as Hnx1.
  eapply (kept_put st1); try done; cbn; try lia.
  - apply (kept_schema _ _ Hrep1).
  - intros id. rewrite lookup_insert. case_decide; [subst|done]. split; [intros _; done|eauto].
  - intros id b' Hb' Hne. by rewrite lookup_insert_ne in Hb' by congruence.
  - intros b' Hb'. rewrite lookup_insert_eq in Hb'. by injection Hb' as <-.
Qed.

Lemma kept_removeBlock st A id :
  kept st A -> is_u64 id ->
  exists st', removeBlock id st = Ret st' /\ kept st' (delete id A) /\
    nextBlockId_ (bman_ st') = nextBlockId_ (bman_ st).
Proof.
  intros Hrep Hu. pose proof Hrep as [Hs Hidx Hdb Hbl Hca [Hnd Hlru] [Hpos Hroom] Hnext].
  unfold removeBlock. rewrite id_key_ok by done. cbn [mbind outcome_bind].
  destruct (ldb_delete_ok (bm_db_ (bman_ st)) (be 8 id)) as (db & -> & Hdel). cbn [check mbind outcome_bind].
  cbn [bm_cache_ wrote]. set (m' := match bm_cache_ (bman_ st) !! id with Some _ => _ | None => _ end).
  assert (bm_edgeSchema_ m' = s /\ bm_db_ m' = db /\ nextBlockId_ m' = nextBlockId_ (bman_ st) /\
    blockBufferSize_ m' = blockBufferSize_ (bman_ st) /\ bm_cache_ m' = delete id (bm_cache_ (bman_ st)) /\
    bm_lruList_ m' = filter (fun x => x <> id) (bm_lruList_ (bman_ st))) as (F1 & F2 & F3 & F4 & F5 & F6).
  { unfold m'. destruct (bm_cache_ (bman_ st) !! id) eqn:E; cbn; [done|]. split_and!; try done.
    - by rewrite delete_id.
    - clear -Hlru E. assert (Forall (fun x => x <> id) (bm_lruList_ (bman_ st))) as Hall.
      { apply Forall_forall. intros x Hx ->. apply Hlru in Hx. rewrite E in Hx. by destruct Hx. }
      symmetry. by apply filter_all. }
  clearbody m'. eexists. split; [reflexivity|]. split; [|done].
  split; cbn; rewrite ?F1, ?F2, ?F3, ?F4, ?F5, ?F6; try done.
  - intros id' Hid' v. rewrite Hdel. destruct (decide (id' = id)) as [->|Hne].
    + rewrite !lookup_delete_eq. naive_solver.
    + rewrite lookup_delete_ne, (lookup_delete_ne A) by (try congruence; intros E; apply Hne; symmetry; eapply (be_inj 8); done).
      by apply Hdb.
  - intros id' b' Hb'. apply lookup_delete_Some in Hb' as [_ Hb']. by apply Hbl.
  - intros id' b' Hb'. apply lookup_delete_Some in Hb' as [Hne Hb']. rewrite lookup_delete_ne by done. by apply Hca.
  - split; [by apply NoDup_filter|]. intros x. rewrite list_elem_of_filter, lookup_delete.
    case_decide; [subst; split; [tauto|by intros []]|]. rewrite Hlru. naive_solver.
  - split; [done|]. pose proof (length_filter (fun x => x <> id) (bm_lruList_ (bman_ st))). lia.
Qed.
End Kept.

(** ** The manager implements a finite map from identifiers to blocks

    [rep st A]: no slice is being replaced, [sl] are the slices of the
    partition index, and every block of [A] can be read back. *)

Section Refinement.
Context {D : Type} `{LevelDB D, !LevelDBOk D}.
Context (s : Schema) (Hdef : defined_schema s) (sl : list TimeSlicedPartitioning).

(** A block that can be stored and read back with the slices [sl]. *)
Definition readable (b : Block) : Prop :=
  exists attrs i mn mx, storable s attrs i b /\ findMinMaxTimestamps b = Ret (mn, mx) /\
    Z.of_nat (length (enc_block b mn mx i)) <= 2 ^ 32 /\
    instant (midpoint mn mx) /\ midpoint mn mx < dinf /\ midpoint mn mx ∉ endTime_ <$> sl /\
    (i <> -1 -> forall t, t ∈ sl -> in_slice (midpoint mn mx) t = true -> part_at (partitioning_ t) i = Ret attrs).

Record rep (st : Store D) (A : gmap Z Block) : Prop := {
  rep_schema : bm_edgeSchema_ (bman_ st) = s;
  rep_index : index_ok (pidx_ st) sl /\ removedPartitionings_ (pidx_ st) = [];
  rep_db id : is_u64 id -> forall v, contents (bm_db_ (bman_ st)) !! be 8 id = Some v <->
    exists b, A !! id = Some b /\ stored_as b v;
  rep_blocks id b : A !! id = Some b -> id_ b = id /\ is_u64 id /\ id < nextBlockId_ (bman_ st) /\ readable b;
  rep_cache id b' : bm_cache_ (bman_ st) !! id = Some b' -> exists b, A !! id = Some b /\ same_block b b';
  rep_lru : NoDup (bm_lruList_ (bman_ st)) /\
    (forall id, id ∈ bm_lruList_ (bman_ st) <-> is_Some (bm_cache_ (bman_ st) !! id));
  rep_room : 0 < blockBufferSize_ (bman_ st) /\
    Z.of_nat (length (bm_lruList_ (bman_ st))) <= blockBufferSize_ (bman_ st);
  rep_next : 0 <= nextBlockId_ (bman_ st) < 2 ^ 64
}.

(** The slices a read of the time [time] may find. *)
Definition slice_at (time : Timestamp) (t : TimeSlicedPartitioning) : Prop :=
  instant time /\ time < dinf /\ time ∉ endTime_ <$> sl /\ t ∈ sl /\ in_slice time t = true.

Definition settled (p : PartitionIndex D) : Prop := index_ok p sl /\ removedPartitionings_ p = [].

Lemma settled_answers : answers slice_at settled.
Proof.
  intros p time [Hp Hr] (t0 & Hi & Hlt & Hno & _).
  destruct (getTimeSlicedPartitioning_ok p sl _ Hp Hi Hlt Hno) as (t & p' & Ep & Hin & Hsl & Hp' & _).
  exists t, p'. unfold getTimeSlicedPartitioningForBlockDeserialization. rewrite Hr. split; [done|].
  split; [by unfold slice_at|]. split; [done|]. apply getTimeSlicedPartitioning_frame in Ep as (-> & _). done.
Qed.

Lemma readable_legible b : tiling sl -> readable b -> legible s slice_at b.
Proof.
  intros Ht (attrs & i & mn & mx & Hs & Hmm & Hlen & Hi & Hlt & Hno & Hpart). exists attrs, i, mn, mx. split_and!; try done.
  - destruct (tiling_slice sl _ Ht Hi Hlt Hno) as (sl1 & t & sl2 & -> & Hin & _). exists t. unfold slice_at. set_solver.
  - intros Hi1 t (_ & _ & _ & Hsl & Hin). by apply Hpart.
Qed.

Lemma readable_writable b : readable b -> writable s b.
Proof. intros (attrs & i & mn & mx & ? & ? & ? & _). by exists attrs, i, mn, mx. Qed.

Lemma rep_kept st A : rep st A <-> kept s settled st A /\ forall id b, A !! id = Some b -> readable b.
Proof.
  split.
  - intros []. split; [|intros id b Hb; by apply rep_blocks0 in Hb as (_ & _ & _ & ?)]. split; try done.
    intros id b (? & ? & ? & ?)%rep_blocks0. auto using readable_writable.
  - intros [[] Hread]. split; try done. intros id b Hb. pose proof Hb as (? & ? & ? & _)%kept_blocks0. eauto.
Qed.

Lemma rep_legible st A b : rep st A -> readable b -> legible s slice_at b.
Proof. intros Hrep. apply readable_legible. apply (io_tiling _ _ (proj1 (rep_index _ _ Hrep))). Qed.

Lemma getBlock_ok st A id b :
  rep st A -> A !! id = Some b ->
  exists b' st', getBlock id st = Ret (b', st') /\ same_block b b' /\ rep st' A /\
    nextBlockId_ (bman_ st') = nextBlockId_ (bman_ st) /\ bm_db_ (bman_ st') = bm_db_ (bman_ st) /\
    is_Some (bm_cache_ (bman_ st') !! id).
Proof.
  intros Hrep Hb. pose proof Hrep as [Hk Hread]%rep_kept.
  destruct (kept_getBlock s _ _ Hdef settled_answers st A id b Hk Hb) as (b' & st' & E & Hs & Hk' & Hrest);
    [by eapply rep_legible, Hread|]. exists b', st'. split_and!; try apply Hrest; try done. by apply rep_kept.
Qed.

Lemma getBlock_missing st A id :
  rep st A -> A !! id = None -> is_u64 id -> getBlock id st = Throw (block_not_found id).
Proof. intros [Hk _]%rep_kept. by apply (kept_missing s settled). Qed.

Lemma insert_readable (A : gmap Z Block) b :
  (forall id b, A !! id = Some b -> readable b) -> readable b ->
  forall id b', <[id_ b := b]> A !! id = Some b' -> readable b'.
Proof. intros HA Hb id b' [[_ <-]|[_ Hb']]%lookup_insert_Some; eauto. Qed.

Lemma addBlock_ok st A b :
  rep st A -> readable (with_id (nextBlockId_ (bman_ st)) b) -> nextBlockId_ (bman_ st) + 1 < 2 ^ 64 ->
  let b' := with_id (nextBlockId_ (bman_ st)) b in
  exists st', addBlock b true st = Ret (b', st') /\ rep st' (<[id_ b' := b']> A) /\
    nextBlockId_ (bman_ st') = nextBlockId_ (bman_ st) + 1.
Proof.
  intros [Hk HA]%rep_kept Hread Hn. destruct (kept_addBlock s settled st A b Hk) as (st' & E & Hk' & Hn');
    [by apply readable_writable|done|]. exists st'. split_and!; [done| |done]. apply rep_kept. split; [done|].
  by apply insert_readable.
Qed.

Lemma updateBlock_ok st A b b0 :
  rep st A -> A !! id_ b = Some b0 -> readable b ->
  exists st', updateBlock b st = Ret st' /\ rep st' (<[id_ b := b]> A) /\
    nextBlockId_ (bman_ st') = nextBlockId_ (bman_ st).
Proof.
  intros Hrep Hb0 Hread. pose proof Hrep as [Hk HA]%rep_kept.
  destruct (kept_updateBlock s _ _ Hdef settled_answers st A b b0 Hk Hb0) as (st' & E & Hk' & Hn');
    [by eapply rep_legible, HA|by apply readable_writable|]. exists st'. split_and!; [done| |done].
  apply rep_kept. split; [done|]. by apply insert_readable.
Qed.

Lemma removeBlock_ok st A id :
  rep st A -> is_u64 id ->
  exists st', removeBlock id st = Ret st' /\ rep st' (delete id A) /\
    nextBlockId_ (bman_ st') = nextBlockId_ (bman_ st).
Proof.
  intros [Hk HA]%rep_kept Hu. destruct (kept_removeBlock s slice_at settled st A id Hk Hu) as (st' & E & Hk' & Hn').
  exists st'. split_and!; [done| |done]. apply rep_kept. split; [done|].
  intros id' b [_ Hb]%lookup_delete_Some. eauto.
Qed.
End Refinement.

(** ** Properties *)

(** C10: the block manager is a finite map.  While its database holds the
    blocks of [A] and its cache agrees with the database, [getBlock] returns
    the block stored under an identifier (from the cache or decoded from the
    database) and throws the documented exception for an unknown one;
    [addBlock] stores under the next identifier, [updateBlock] replaces,
    [removeBlock] deletes; each keeps the agreement, whatever was cached and
    evicted, so later calls see the updated map. *)
Theorem block_manager_refines_map {D} `{LevelDB D, !LevelDBOk D} (s : Schema)
    (sl : list TimeSlicedPartitioning) (st : Store D) (A : gmap Z Block) :
  defined_schema s -> rep s sl st A ->
  (forall id b, A !! id = Some b ->
     exists b' st', getBlock id st = Ret (b', st') /\ same_block b b' /\ rep s sl st' A) /\
  (forall id, is_u64 id -> A !! id = None -> getBlock id st = Throw (block_not_found id)) /\
  (forall b, let b' := with_id (nextBlockId_ (bman_ st)) b in
     readable s sl b' -> nextBlockId_ (bman_ st) + 1 < 2 ^ 64 ->
     exists st', addBlock b true st = Ret (b', st') /\ rep s sl st' (<[id_ b' := b']> A)) /\
  (forall b, is_Some (A !! id_ b) -> readable s sl b ->
     exists st', updateBlock b st = Ret st' /\ rep s sl st' (<[id_ b := b]> A)) /\
  (forall id, is_u64 id -> exists st', removeBlock id st = Ret st' /\ rep s sl st' (delete id A)).
Proof.
  intros Hdef Hrep. split_and!.
  - intros id b Hb. destruct (getBlock_ok s Hdef sl st A id b Hrep Hb) as (b' & st' & ? & ? & ? & _). eauto.
  - intros id Hu Hn. by eapply getBlock_missing.
  - intros b b' Hr Hn. destruct (addBlock_ok s sl st A b Hrep Hr Hn) as (st' & ? & ? & _). eauto.
  - intros b [b0 Hb0] Hr. destruct (updateBlock_ok s Hdef sl st A b b0 Hrep Hb0 Hr) as (st' & ? & ? & _). eauto.
  - intros id Hu. destruct (removeBlock_ok s sl st A id Hrep Hu) as (st' & ? & ? & _). eauto.
Qed.

(** The manager of an empty database. *)
Lemma rep_empty (n : Z) (sl : list TimeSlicedPartitioning) (k : Z) (s : Schema) :
  0 < n -> tiling sl -> Z.of_nat (length sl) <= k ->
  rep s sl (mkStore (newBlockManager n s (∅ : gmap bytes bytes) 0) (index_with k sl) 0) ∅.
Proof.
  intros Hn Ht Hk. split; cbn; try done.
  - split; [by apply index_with_ok|done].
  - intros id _ v. rewrite lookup_empty. split; [done|]. intros (b & Hb & _). by rewrite lookup_empty in Hb.
  - split; [constructor|]. intros id. rewrite lookup_empty. split; [by intros ?%elem_of_nil|by intros []].
  - lia.
Qed.

Definition example_store : Store (gmap bytes bytes) :=
  mkStore (newBlockManager 1 example_schema ∅ 0) (index_with 3 example_slices) 0.

Lemma example_store_rep : rep example_schema example_slices example_store ∅.
Proof. apply rep_empty; [reflexivity|exact example_tiling|vm_compute; discriminate]. Qed.

Lemma example_readable id : is_u64 id -> readable example_schema example_slices (with_id id example_sub_block).
Proof.
  intros Hid. exists ["weight"], 1, (dofZ 30), (dofZ 30).
  destruct example_sub_block_storable as [H1 H2 H3 _ H5 H6 H7 H8 H9 H10].
  split; [by split|]. split; [vm_compute; reflexivity|]. split.
  { unfold enc_block, enc_header. rewrite !length_app, !length_be. vm_compute. discriminate. }
  split; [by vm_compute|]. split; [by vm_compute|]. split.
  - intros Hin. apply list_elem_of_fmap in Hin as (t & E & Ht). revert E.
    repeat (apply elem_of_cons in Ht as [->|Ht]; [by vm_compute|]). by apply elem_of_nil in Ht.
  - intros _ t Ht. repeat (apply elem_of_cons in Ht as [->|Ht]; [by vm_compute|]). by apply elem_of_nil in Ht.
Qed.

(** Adding a block to the empty store, and reading it back. *)
Lemma block_manager_refines_map_witness :
  exists st1, addBlock example_sub_block true example_store = Ret (with_id 0 example_sub_block, st1) /\
    exists b' st2, getBlock 0 st1 = Ret (b', st2) /\ same_block (with_id 0 example_sub_block) b'.
Proof.
  destruct (block_manager_refines_map example_schema example_slices example_store ∅
    example_defined example_store_rep) as (_ & _ & Hadd & _).
  destruct (Hadd example_sub_block) as (st1 & E1 & Hrep1).
  - apply example_readable. split; [discriminate|reflexivity].
  - reflexivity.
  - exists st1. split; [exact E1|].
    destruct (block_manager_refines_map example_schema example_slices st1 _ example_defined Hrep1) as (Hget & _).
    destruct (Hget 0 (with_id 0 example_sub_block)) as (b' & st2 & E2 & Hsame & _).
    + apply lookup_insert_eq.
    + exists b', st2. split; [exact E2|exact Hsame].
Defined.
