(* ===== verification/FocusedIndex.v ===== *)
(** * The focused interval index

    core/FocusedIntervalQueryIndex.h and FocusedIntervalQueryIndex.cpp: for
    every neighbor list of a stored block an entry from (head vertex, time of
    the newest edge) to (block, time of the oldest edge), in a LevelDB
    database; an iterator walks the entries of one vertex that overlap a time
    range. *)

From Stdlib Require Import ZArith Lia.
From stdpp Require Import base numbers gmap strings list sorting.
From S2P Require Import Prelude.
From S2P Require Import Double.
From S2P Require Import NetworkByteBuffer.
From S2P Require Import LevelDB.
From S2P Require Import Schema.
From S2P Require Import AttributeData.
From S2P Require Import NeighborList.
From S2P Require Import PartitionIndex.
From S2P Require Import Block.

#[local] Arguments be : simpl never.

Definition fiq_key_codec : Codec (VertexId * Timestamp) := pair_codec uint64 float64.
Definition fiq_data_codec : Codec (BlockId * Timestamp) := pair_codec uint64 float64.

Section Index.
Context {D : Type} `{LevelDB D}.

(** One iteration of [indexBlock]. *)
Definition index_list (id : BlockId) (db : D) (p : VertexId * NeighborList) : outcome D :=
  let nlist := p.2 in
  let head := headVertex_ nlist in
  oldest ← getOldestEdge nlist;
  newest ← getNewestEdge nlist;
  keyBuf ← put fiq_key_codec (head, tm_ newest) (new_sized 16);
  keySlice ← slice keyBuf;
  dataBuf ← put fiq_data_codec (id, tm_ oldest) (new_sized 16);
  dataSlice ← slice dataBuf;
  check (ldb_put db keySlice dataSlice).

Definition indexBlock (b : Block) (db : D) : outcome D := foldM (index_list (id_ b)) db (neigs_ b).

(** ** The iterator *)

Record Currents := mkCurrents {
  currentStart_ : Timestamp; currentEnd_ : Timestamp; currentVertex_ : VertexId; currentBlock_ : BlockId
}.

(** [dbIter_] is the list of the entries from the current one on; the current
    values are not initialized before the first one is read. *)
Record Iterator := mkIterator {
  vertex_ : VertexId;
  start_ : Timestamp;
  end_ : Timestamp;
  currents_ : option Currents;
  dbIter_ : list (bytes * bytes)
}.

Definition readCurrents (it : Iterator) : outcome Iterator :=
  match dbIter_ it with
  | [] => AssertFailed
  | (key, value) :: _ =>
      '(currentVertex, keyBuffer) ← getUInt64 (of_bytes key);
      '(currentEnd, _) ← getDouble keyBuffer;
      '(currentBlock, valueBuffer) ← getUInt64 (of_bytes value);
      '(currentStart, _) ← getDouble valueBuffer;
      Ret (mkIterator (vertex_ it) (start_ it) (end_ it)
             (Some (mkCurrents currentStart currentEnd currentVertex currentBlock)) (dbIter_ it))
  end.

Definition read_if_valid (it : Iterator) : outcome Iterator :=
  match dbIter_ it with [] => Ret it | _ => readCurrents it end.

Definition query (db : D) (vertex : VertexId) (start endt : Timestamp) : outcome Iterator :=
  targetBuf ← put fiq_key_codec (vertex, start) (new_sized 16);
  targetSlice ← slice targetBuf;
  read_if_valid (mkIterator vertex start endt None (ldb_seek db targetSlice)).

Definition isValid (it : Iterator) : outcome bool :=
  match dbIter_ it with
  | [] => Ret false
  | _ => c ← or_undefined (currents_ it);
         Ret ((currentVertex_ c =? vertex_ it) && dltb (currentStart_ c) (end_ it))
  end.

Definition next (it : Iterator) : outcome Iterator :=
  v ← isValid it;
  _ ← cassert v;
  read_if_valid (mkIterator (vertex_ it) (start_ it) (end_ it) (currents_ it) (tail (dbIter_ it))).

(** The entries an iterator goes through: [while (it.isValid()) { ...; it.next(); }]. *)
Fixpoint collect (fuel : nat) (it : Iterator) : outcome (list Currents) :=
  match fuel with
  | O => Ret []
  | S fuel =>
      v ← isValid it;
      if v : bool then
        c ← or_undefined (currents_ it);
        it ← next it;
        rest ← collect fuel it;
        Ret (c :: rest)
      else Ret []
  end.
End Index.

(** ** The entries of the index *)

Record IndexEntry := mkEntry {
  ie_vertex : VertexId; ie_end : Timestamp; ie_block : BlockId; ie_start : Timestamp
}.

#[export] Instance IndexEntry_eq_dec : EqDecision IndexEntry.
Proof. solve_decision. Defined.

Definition enc_entry (e : IndexEntry) : bytes * bytes :=
  (be 8 (ie_vertex e) ++ be 8 (ie_end e), be 8 (ie_block e) ++ be 8 (ie_start e)).

Definition entry_ok (e : IndexEntry) : Prop :=
  is_u64 (ie_vertex e) /\ instant (ie_end e) /\ is_u64 (ie_block e) /\ is_double (ie_start e).

(** By vertex, then by end time. *)
Definition entry_lt (e e' : IndexEntry) : Prop :=
  ie_vertex e < ie_vertex e' \/ (ie_vertex e = ie_vertex e' /\ ie_end e < ie_end e').

Record indexed (m : gmap bytes bytes) (L : list IndexEntry) : Prop := {
  ix_contents : m = list_to_map (enc_entry <$> L);
  ix_sorted : StronglySorted entry_lt L;
  ix_ok : Forall entry_ok L
}.

Definition to_currents (e : IndexEntry) : Currents :=
  mkCurrents (ie_start e) (ie_end e) (ie_vertex e) (ie_block e).

Lemma instant_u64 t : instant t -> is_u64 t.
Proof. apply instant_double. Qed.

Lemma key_compare v t v' t' :
  is_u64 v -> is_u64 v' -> is_u64 t -> is_u64 t' ->
  bytes_compare (be 8 v ++ be 8 t) (be 8 v' ++ be 8 t') = match v ?= v' with Eq => t ?= t' | c => c end.
Proof.
  intros Hv Hv' Ht Ht'. rewrite bytes_compare_app by (by rewrite !length_be).
  rewrite !bytes_compare_be by (cbn; lia). done.
Qed.

Lemma entries_sorted_keys L :
  StronglySorted entry_lt L -> Forall entry_ok L -> StronglySorted bytes_lt (enc_entry <$> L).*1.
Proof.
  intros Hs Hok. rewrite <- list_fmap_compose.
  induction Hs as [|e L Hs IH He]; [constructor|]. apply Forall_cons in Hok as [Hek Hok].
  cbn. constructor; [by apply IH|]. apply Forall_fmap. rewrite Forall_forall in *.
  intros e' Hin. cbn. unfold bytes_lt. destruct Hek as (? & ?%instant_u64 & _).
  destruct (Hok _ Hin) as (? & ?%instant_u64 & _). rewrite key_compare by done.
  destruct (He _ Hin) as [Hlt|[-> Hlt]].
  - by rewrite (proj2 (Z.compare_lt_iff _ _)).
  - by rewrite Z.compare_refl, (proj2 (Z.compare_lt_iff _ _)).
Qed.

Lemma indexed_sorted_keys m L : indexed m L -> StronglySorted bytes_lt (enc_entry <$> L).*1.
Proof. intros [_ Hs Hok]. by apply entries_sorted_keys. Qed.

Lemma sixteen_ok (c : Codec (Z * Z)) `{!CodecOk c} a :
  valid c a -> length (enc c a) = 16%nat ->
  exists b, put c a (new_sized 16) = Ret b /\ slice b = Ret (enc c a).
Proof.
  intros Hv Hl.
  destruct (put_ok (c := c) a (new_sized 16) []) as (b & E & Hb & _);
    [apply holds_new_sized; lia|split; [done|cbn; lia]|done|cbn; lia|].
  exists b. split; [done|]. by apply slice_holds.
Qed.

#[export] Instance fiq_key_codec_ok : CodecOk fiq_key_codec.
Proof. apply pair_ok; [apply uint64_ok|apply float64_ok]. Qed.

#[export] Instance fiq_data_codec_ok : CodecOk fiq_data_codec.
Proof. apply pair_ok; [apply uint64_ok|apply float64_ok]. Qed.

(** ** What a query enumerates *)

(** The entries of the vertex that end at or after the start of the range, in
    the order of their ends, up to the first that starts at or after the end
    of the range. *)
Fixpoint until (P : IndexEntry -> bool) (l : list IndexEntry) : list IndexEntry :=
  match l with
  | [] => []
  | e :: l => if P e then e :: until P l else []
  end.

Definition query_spec (L : list IndexEntry) (v : VertexId) (start endt : Timestamp) : list IndexEntry :=
  until (fun e => dltb (ie_start e) endt) (filter (fun e => ie_vertex e = v /\ start <= ie_end e) L).

Section Query.
Context {D : Type} `{LevelDB D, !LevelDBOk D}.

Lemma seek_indexed (db : D) L v start :
  indexed (contents db) L -> is_u64 v -> instant start ->
  ldb_seek db (be 8 v ++ be 8 start) =
    enc_entry <$> filter (fun e => v < ie_vertex e \/ (ie_vertex e = v /\ start <= ie_end e)) L.
Proof.
  intros Hix Hv Hst%instant_u64. rewrite ldb_seek_ok, (ix_contents _ _ Hix).
  rewrite sorted_entries_unique by (by eapply indexed_sorted_keys).
  pose proof (ix_ok _ _ Hix) as Hok. clear Hix. induction Hok as [|e L (Hev & He%instant_u64 & _) HL IH]; [done|].
  rewrite fmap_cons, !filter_cons, IH.
  assert (bytes_le (be 8 v ++ be 8 start) (enc_entry e).1 <->
    v < ie_vertex e \/ (ie_vertex e = v /\ start <= ie_end e)) as Hiff.
  { unfold bytes_le, enc_entry. cbn [fst]. rewrite key_compare by done.
    destruct (Z.compare_spec v (ie_vertex e)); [destruct (Z.compare_spec start (ie_end e))|..];
      split; intros ?; try done; try lia. }
  destruct (decide (v < ie_vertex e \/ (ie_vertex e = v /\ start <= ie_end e))) as [Hq|Hq].
  - by rewrite decide_True by (by apply Hiff).
  - by rewrite decide_False by (by rewrite Hiff).
Qed.

Lemma read_entry e it :
  entry_ok e -> forall rest, dbIter_ it = enc_entry e :: rest ->
  read_if_valid it = Ret (mkIterator (vertex_ it) (start_ it) (end_ it) (Some (to_currents e)) (dbIter_ it)).
Proof.
  intros (Hv & He%instant_u64 & Hb & Hs) rest E. unfold read_if_valid, readCurrents. rewrite E. cbn [enc_entry].
  destruct (get_ok (c := uint64) (ie_vertex e) (of_bytes (be 8 (ie_vertex e) ++ be 8 (ie_end e))) (be 8 (ie_end e)))
    as (k1 & E1 & Hu1); [apply unread_of_bytes; cbn [enc uint64 scalar]; rewrite length_app, !length_be; lia|done|].
  cbn [get uint64 scalar] in E1. rewrite E1. cbn [mbind outcome_bind]. rewrite <- (app_nil_r (be 8 (ie_end e))) in Hu1.
  destruct (get_ok (c := float64) (ie_end e) k1 [] Hu1 He) as (k2 & E2 & _).
  cbn [get float64 scalar] in E2. rewrite E2. cbn [mbind outcome_bind].
  destruct (get_ok (c := uint64) (ie_block e) (of_bytes (be 8 (ie_block e) ++ be 8 (ie_start e))) (be 8 (ie_start e)))
    as (k3 & E3 & Hu3); [apply unread_of_bytes; cbn [enc uint64 scalar]; rewrite length_app, !length_be; lia|done|].
  cbn [get uint64 scalar] in E3. rewrite E3. cbn [mbind outcome_bind]. rewrite <- (app_nil_r (be 8 (ie_start e))) in Hu3.
  destruct (get_ok (c := float64) (ie_start e) k3 [] Hu3 Hs) as (k4 & E4 & _).
  cbn [get float64 scalar] in E4. rewrite E4. cbn [mbind outcome_bind]. done.
Qed.

(** An iterator standing on the entries [l] with the current one read. *)
Definition standing (it : Iterator) (v : VertexId) (start endt : Timestamp) (l : list IndexEntry) : Prop :=
  vertex_ it = v /\ start_ it = start /\ end_ it = endt /\ dbIter_ it = enc_entry <$> l /\
  forall e rest, l = e :: rest -> currents_ it = Some (to_currents e).

Lemma standing_read v start endt cur l :
  Forall entry_ok l ->
  exists it, read_if_valid (mkIterator v start endt cur (enc_entry <$> l)) = Ret it /\ standing it v start endt l.
Proof.
  intros Hl. destruct l as [|e l].
  - eexists. split; [reflexivity|]. done.
  - apply Forall_cons in Hl as [He _].
    rewrite (read_entry e _ He (enc_entry <$> l)) by done. eexists. split; [reflexivity|].
    split_and!; try done. cbn. by intros ? ? [= <- <-].
Qed.

Lemma standing_valid it v start endt e l :
  standing it v start endt (e :: l) -> isValid it = Ret ((ie_vertex e =? v) && dltb (ie_start e) endt).
Proof.
  intros (Hv & Hs & He & Hdb & Hcur). unfold isValid. rewrite Hdb. cbn [fmap list_fmap].
  by rewrite (Hcur e l eq_refl), Hv, He.
Qed.

Lemma next_standing it v start endt e l :
  standing it v start endt (e :: l) -> (ie_vertex e =? v) && dltb (ie_start e) endt = true -> Forall entry_ok l ->
  exists it', next it = Ret it' /\ standing it' v start endt l.
Proof.
  intros Hst Hval Hl. unfold next. rewrite (standing_valid _ _ _ _ _ _ Hst), Hval. cbn [cassert mbind outcome_bind].
  destruct Hst as (Hv & Hs & He & Hdb & _). rewrite Hdb, Hv, Hs, He. cbn [fmap list_fmap tail].
  by apply standing_read.
Qed.

Lemma collect_standing v start endt l : forall fuel it,
  standing it v start endt l -> Forall entry_ok l -> (length l <= fuel)%nat ->
  collect fuel it = Ret (to_currents <$> until (fun e => (ie_vertex e =? v) && dltb (ie_start e) endt) l).
Proof.
  induction l as [|e l IH]; intros fuel it Hst Hok Hf; pose proof Hst as (Hv & Hs & He & Hdb & Hcur).
  - destruct fuel; [done|]. cbn [collect]. unfold isValid. by rewrite Hdb.
  - destruct fuel as [|fuel]; [cbn in Hf; lia|]. cbn [collect].
    rewrite (standing_valid _ _ _ _ _ _ Hst). cbn [mbind outcome_bind until].
    destruct ((ie_vertex e =? v) && dltb (ie_start e) endt) eqn:Hval; [|done].
    rewrite (Hcur e l eq_refl). cbn [or_undefined mbind outcome_bind]. apply Forall_cons in Hok as [_ Hok].
    destruct (next_standing _ _ _ _ _ _ Hst Hval Hok) as (it' & -> & Hst').
    cbn [mbind outcome_bind]. rewrite (IH fuel it' Hst' Hok) by (cbn in Hf; lia). done.
Qed.

Lemma until_filter v P l :
  StronglySorted entry_lt l -> Forall (fun e => v <= ie_vertex e) l ->
  until (fun e => (ie_vertex e =? v) && P e) l = until P (filter (fun e => ie_vertex e = v) l).
Proof.
  intros Hs Hge. induction Hs as [|e l Hs IH He]; [done|]. apply Forall_cons in Hge as [Hge Hgel].
  rewrite filter_cons. cbn [until]. destruct (Z.eqb_spec (ie_vertex e) v) as [Hev|Hne].
  - rewrite decide_True by done. cbn [andb until]. by rewrite IH.
  - rewrite decide_False by done. cbn [andb].
    assert (filter (fun e => ie_vertex e = v) l = []) as ->; [|done].
    apply filter_none. eapply Forall_impl; [exact He|]. intros x [Hlt|[Heq _]]; [lia|congruence].
Qed.

(** The entries from the first one of the vertex that ends in the range on. *)
Definition from_entry (L : list IndexEntry) (v : VertexId) (start : Timestamp) : list IndexEntry :=
  filter (fun e => v < ie_vertex e \/ (ie_vertex e = v /\ start <= ie_end e)) L.

Lemma query_standing (db : D) L v start endt :
  indexed (contents db) L -> is_u64 v -> instant start ->
  exists it, query db v start endt = Ret it /\ standing it v start endt (from_entry L v start) /\
    Forall entry_ok (from_entry L v start).
Proof.
  intros Hix Hv Hst. unfold query.
  destruct (sixteen_ok fiq_key_codec (v, start)) as (b & E1 & E2);
    [split; [done|by apply instant_u64]|cbn; by rewrite length_app, !length_be|].
  rewrite E1. cbn [mbind outcome_bind]. rewrite E2. cbn [mbind outcome_bind].
  cbn [enc fiq_key_codec pair_codec uint64 float64 scalar fst snd].
  rewrite (seek_indexed db L v start Hix Hv Hst). fold (from_entry L v start).
  assert (Forall entry_ok (from_entry L v start)) as Hok'.
  { apply Forall_forall. intros x Hx. apply list_elem_of_filter in Hx as [_ Hx].
    pose proof (ix_ok _ _ Hix) as Hok. rewrite Forall_forall in Hok. auto. }
  destruct (standing_read v start endt None _ Hok') as (it & -> & Hstand). by exists it.
Qed.

(** Among the entries from there on, those visited. *)
Lemma from_entry_until L v start P :
  StronglySorted entry_lt L ->
  until (fun e => (ie_vertex e =? v) && P e) (from_entry L v start) =
  until P (filter (fun e => ie_vertex e = v /\ start <= ie_end e) L).
Proof.
  intros Hs. rewrite until_filter.
  - unfold from_entry. rewrite list_filter_filter. f_equal. apply list_filter_iff. intros e. lia.
  - unfold from_entry. induction Hs as [|e L Hs IH He]; [constructor|]. rewrite filter_cons. case_decide; [|done].
    constructor; [done|]. apply Forall_forall. intros x Hx. apply list_elem_of_filter in Hx as [_ Hx].
    rewrite Forall_forall in He. auto.
  - apply Forall_forall. intros x Hx. apply list_elem_of_filter in Hx as [Hx _]. lia.
Qed.

Lemma query_ok (db : D) L v start endt :
  indexed (contents db) L -> is_u64 v -> instant start ->
  exists it, query db v start endt = Ret it /\
    forall fuel, (length L <= fuel)%nat -> collect fuel it = Ret (to_currents <$> query_spec L v start endt).
Proof.
  intros Hix Hv Hst. destruct (query_standing db L v start endt Hix Hv Hst) as (it & E & Hstand & Hok).
  exists it. split; [done|]. intros fuel Hf. rewrite (collect_standing v start endt _ fuel it Hstand Hok).
  2: { pose proof (length_filter (fun e => v < ie_vertex e \/ (ie_vertex e = v /\ start <= ie_end e)) L).
       unfold from_entry. lia. }
  by rewrite from_entry_until by apply (ix_sorted _ _ Hix).
Qed.

(** ** Indexing a block *)

Definition list_entry (id : BlockId) (p : VertexId * NeighborList) : option IndexEntry :=
  oldest ← head (edges_ p.2); newest ← last (edges_ p.2);
  Some (mkEntry (headVertex_ p.2) (tm_ newest) id (tm_ oldest)).

Definition block_entries (b : Block) : list IndexEntry := omap (list_entry (id_ b)) (neigs_ b).

Definition insert_entries (m : gmap bytes bytes) (l : list IndexEntry) : gmap bytes bytes :=
  foldl (fun m e => <[(enc_entry e).1 := (enc_entry e).2]> m) m l.

Definition list_indexable (p : VertexId * NeighborList) : Prop :=
  edges_ p.2 <> [] /\ is_u64 (headVertex_ p.2) /\ Forall (fun e => is_double (tm_ e)) (edges_ p.2).

Lemma index_list_ok id (db : D) p :
  is_u64 id -> list_indexable p ->
  exists e db', list_entry id p = Some e /\ index_list id db p = Ret db' /\
    contents db' = <[(enc_entry e).1 := (enc_entry e).2]> (contents db).
Proof.
  intros Hid (Hne & Hv & Htm). unfold index_list, list_entry, getOldestEdge, getNewestEdge.
  destruct (edges_ p.2) as [|e0 es] eqn:Ees; [done|]. cbn [head].
  destruct (last (e0 :: es)) as [e1|] eqn:El; [|by apply last_None in El].
  rewrite Forall_forall in Htm. pose proof (Htm e0 ltac:(left)) as Ht0.
  pose proof (Htm e1 ltac:(by apply last_Some_elem_of)) as Ht1.
  destruct (sixteen_ok fiq_key_codec (headVertex_ p.2, tm_ e1)) as (kb & E1 & E2);
    [by split|cbn; by rewrite length_app, !length_be|].
  destruct (sixteen_ok fiq_data_codec (id, tm_ e0)) as (vb & E3 & E4);
    [by split|cbn; by rewrite length_app, !length_be|].
  destruct (ldb_put_ok db (enc fiq_key_codec (headVertex_ p.2, tm_ e1)) (enc fiq_data_codec (id, tm_ e0)))
    as (db1 & E5 & Hdb1).
  eexists _, db1. split; [reflexivity|]. split; [|exact Hdb1].
  cbn [or_undefined mbind outcome_bind]. rewrite E1. cbn [mbind outcome_bind].
  rewrite E2. cbn [mbind outcome_bind]. rewrite E3. cbn [mbind outcome_bind].
  rewrite E4. cbn [mbind outcome_bind]. by rewrite E5.
Qed.

Lemma indexBlock_ok (b : Block) (db : D) :
  is_u64 (id_ b) -> Forall list_indexable (neigs_ b) ->
  exists db', indexBlock b db = Ret db' /\ contents db' = insert_entries (contents db) (block_entries b).
Proof.
  intros Hid Hall. unfold indexBlock, block_entries. revert db.
  induction Hall as [|p ns Hp Hns IH]; intros db; [by exists db|].
  destruct (index_list_ok (id_ b) db p Hid Hp) as (e & db1 & He & E1 & Hdb1).
  cbn [foldM omap list_omap]. rewrite E1, He. cbn [mbind outcome_bind].
  destruct (IH db1) as (db2 & E2 & Hdb2). exists db2. split; [exact E2|]. by rewrite Hdb2, Hdb1.
Qed.
End Query.

(** ** Properties *)

(** Later lists of a vertex do not start before earlier ones. *)
Definition in_time_order (L : list IndexEntry) (v : VertexId) : Prop :=
  StronglySorted (fun e e' => dkey (ie_start e) <= dkey (ie_start e')) (filter (fun e => ie_vertex e = v) L) /\
  Forall (fun e => num (ie_start e)) L.

(** C23: a focused query visits exactly the lists that overlap its range.
    When the index holds the entries [L] and the lists of the vertex follow
    each other in time, iterating the result of [query vertex start end] to
    its end gives, in time order, the entries of the vertex that end at or
    after [start] and start before [end]; no entry is skipped, none is visited
    twice, and the iteration needs no more turns than there are entries. *)
Theorem focused_query {D} `{LevelDB D, !LevelDBOk D} (db : D) (L : list IndexEntry) (v : VertexId)
    (start endt : Timestamp) :
  indexed (contents db) L -> is_u64 v -> instant start -> num endt -> in_time_order L v ->
  exists it, query db v start endt = Ret it /\
    collect (length L) it = Ret (to_currents <$>
      filter (fun e => ie_vertex e = v /\ start <= ie_end e /\ dkey (ie_start e) < dkey endt) L).
Proof.
  intros Hix Hv Hst He [Hord Hnum]. destruct (query_ok db L v start endt Hix Hv Hst) as (it & E & Hc).
  exists it. split; [done|]. rewrite Hc by done. do 2 f_equal. unfold query_spec.
  clear -Hord Hnum He. induction L as [|e L IH]; [done|]. apply Forall_cons in Hnum as [Hn Hnum].
  rewrite !filter_cons. rewrite filter_cons in Hord. destruct (decide (ie_vertex e = v)) as [Hev|Hev].
  - apply StronglySorted_inv in Hord as [Hord Hfirst]. destruct (decide (start <= ie_end e)) as [Hse|Hse].
    + rewrite decide_True by done. cbn [until]. rewrite dltb_num by done.
      destruct (Z.ltb_spec (dkey (ie_start e)) (dkey endt)).
      * rewrite decide_True by done. by rewrite IH.
      * rewrite decide_False by lia. symmetry. apply filter_none. rewrite Forall_forall in *.
        intros x Hx (Hxv & _ & Hlt). specialize (Hfirst x). rewrite list_elem_of_filter in Hfirst.
        specialize (Hfirst (conj Hxv Hx)). lia.
    + rewrite decide_False by tauto. rewrite decide_False by tauto. by apply IH.
  - rewrite decide_False by tauto. rewrite decide_False by tauto. by apply IH.
Qed.

Definition example_entries : list IndexEntry :=
  [mkEntry 1 (dofZ 5) 10 (dofZ 2); mkEntry 1 (dofZ 9) 11 (dofZ 6); mkEntry 2 (dofZ 5) 10 (dofZ 2)].

Lemma focused_query_witness :
  exists it, query (list_to_map (enc_entry <$> example_entries) : gmap bytes bytes) 1 (dofZ 4) (dofZ 8) = Ret it /\
    collect 3 it = Ret (to_currents <$> [mkEntry 1 (dofZ 5) 10 (dofZ 2); mkEntry 1 (dofZ 9) 11 (dofZ 6)]).
Proof.
  destruct (focused_query (list_to_map (enc_entry <$> example_entries) : gmap bytes bytes) example_entries 1 (dofZ 4) (dofZ 8))
    as (it & E & Hc).
  - split; [reflexivity| |].
    + repeat (apply SSorted_cons || apply SSorted_nil || apply Forall_cons_2 || apply Forall_nil_2).
      all: (left; by vm_compute) || (right; by vm_compute).
    + repeat (apply Forall_cons_2 || apply Forall_nil_2); by vm_compute.
  - split; [discriminate|reflexivity].
  - by vm_compute.
  - by vm_compute.
  - split.
    + change (filter (fun e => ie_vertex e = 1) example_entries)
        with [mkEntry 1 (dofZ 5) 10 (dofZ 2); mkEntry 1 (dofZ 9) 11 (dofZ 6)].
      repeat (apply SSorted_cons || apply SSorted_nil || apply Forall_cons_2 || apply Forall_nil_2); by vm_compute.
    + repeat (apply Forall_cons_2 || apply Forall_nil_2); by vm_compute.
  - exists it. split; [exact E|]. rewrite <- (eq_refl : length example_entries = 3%nat), Hc.
    vm_compute. reflexivity.
Defined.

(** Lists of one vertex that end at the same time share a key, so
    indexing the second forgets the first: after indexing two blocks with the
    vertex 1 whose newest edges have the time 9, a query over the range of the
    first finds only the second, and one before the second finds nothing. *)
Theorem same_end_overwrites :
  let d := mkShared 1 (mkData [] empty_schema) in
  let b1 := mkBlock 10 None 0 [] [(1, mkNeighborList 1 [mkNLEdge 2 (dofZ 3) d; mkNLEdge 3 (dofZ 9) d])] in
  let b2 := mkBlock 11 None 0 [] [(1, mkNeighborList 1 [mkNLEdge 4 (dofZ 9) d])] in
  (db ← indexBlock b1 (∅ : gmap bytes bytes); db ← indexBlock b2 db;
   it ← query db 1 (dofZ 2) (dofZ 10); collect 5 it) = Ret [mkCurrents (dofZ 9) (dofZ 9) 1 11] /\
  (db ← indexBlock b1 (∅ : gmap bytes bytes); db ← indexBlock b2 db;
   it ← query db 1 (dofZ 2) (dofZ 5); collect 5 it) = Ret [].
Proof. split; vm_compute; reflexivity. Qed.
