(* ===== verification/PriorityQueue.v ===== *)
(** * The priority queue

    core/PriorityQueue.h: a [std::set] of (key, id) pairs ordered by key and
    then by id, with an index from an id to its element.  The program uses it
    with [double] keys: [scoreQueue_] of the expiration map (smallest score at
    the top) and [timestamps_] of a candidate (newest time at the top). *)

From Stdlib Require Import ZArith Lia.
From stdpp Require Import base numbers gmap strings list sorting.
From S2P Require Import Prelude.
From S2P Require Import Double.

Inductive PriorityQueueOrder := MinAtTop | MaxAtTop.

Record KeyIdPair := mkKeyId { key_ : double; kid_ : Z }.

#[export] Instance KeyIdPair_eq_dec : EqDecision KeyIdPair.
Proof. solve_decision. Defined.

Section Queue.
Context (order : PriorityQueueOrder).

(** [KeyIdPair::operator<] *)
Definition less (a b : KeyIdPair) : bool :=
  match order with
  | MaxAtTop => dltb (key_ b) (key_ a) || (deqb (key_ a) (key_ b) && (kid_ a <? kid_ b))
  | MinAtTop => dltb (key_ a) (key_ b) || (deqb (key_ a) (key_ b) && (kid_ a <? kid_ b))
  end.

(** [std::set::insert]: nothing is inserted when an equivalent element is
    there; the element with the key is returned. *)
Fixpoint set_insert (x : KeyIdPair) (l : list KeyIdPair) : KeyIdPair * list KeyIdPair :=
  match l with
  | [] => (x, [x])
  | y :: l' =>
      if less x y then (x, x :: y :: l')
      else if less y x then let '(r, l'') := set_insert x l' in (r, y :: l'')
      else (y, y :: l')
  end.

(** [std::set::erase]: the element an iterator points to. *)
Definition set_erase (x : KeyIdPair) (l : list KeyIdPair) : list KeyIdPair := filter (fun y => y <> x) l.

(** [items_] in its order; an iterator of [index_] is the element it points to. *)
Record PriorityQueue := mkPQ {
  maxItemCount_ : Z;
  items_ : list KeyIdPair;
  index_ : gmap Z KeyIdPair
}.

Definition new_PriorityQueue (maxItemCount : Z) : PriorityQueue := mkPQ maxItemCount [] ∅.
Definition unbounded : PriorityQueue := new_PriorityQueue (2 ^ 64 - 1).

Definition empty (q : PriorityQueue) : bool := (Z.of_nat (size (index_ q)) =? 0).
Definition getSize (q : PriorityQueue) : Z := Z.of_nat (size (index_ q)).
Definition hasItem (id : Z) (q : PriorityQueue) : bool := if index_ q !! id then true else false.
Definition getItemKey (id : Z) (q : PriorityQueue) : outcome double :=
  key_ <$> or_undefined (index_ q !! id).
Definition getTopItem (q : PriorityQueue) : outcome KeyIdPair := or_undefined (head (items_ q)).

Definition addItemHasSpace (key : double) (id : Z) (q : PriorityQueue) : PriorityQueue :=
  let '(it, l) := set_insert (mkKeyId key id) (items_ q) in
  mkPQ (maxItemCount_ q) l (<[id := it]> (index_ q)).

(** As in the source, [addItemHasSpace] is called whether or not [out] holds. *)
Definition addItem (key : double) (id : Z) (q : PriorityQueue) : outcome PriorityQueue :=
  _ ← cassert (negb (hasItem id q));
  q ← (if Z.of_nat (length (items_ q)) =? maxItemCount_ q then
         bottom ← or_undefined (last (items_ q));
         let out := match order with
                    | MaxAtTop => dleb key (key_ bottom)
                    | MinAtTop => dleb (key_ bottom) key
                    end in
         Ret (if out : bool then q
              else mkPQ (maxItemCount_ q) (set_erase bottom (items_ q)) (delete (kid_ bottom) (index_ q)))
       else Ret q);
  Ret (addItemHasSpace key id q).

Definition updateItem (key : double) (id : Z) (q : PriorityQueue) : PriorityQueue :=
  match index_ q !! id with
  | Some it =>
      if deqb key (key_ it) then q
      else addItemHasSpace key id (mkPQ (maxItemCount_ q) (set_erase it (items_ q)) (index_ q))
  | None => addItemHasSpace key id q
  end.

Definition removeItem (id : Z) (q : PriorityQueue) : PriorityQueue :=
  match index_ q !! id with
  | Some it => mkPQ (maxItemCount_ q) (set_erase it (items_ q)) (delete id (index_ q))
  | None => q
  end.

(** ** The invariant *)

(** The place of a key in the order. *)
Definition rank (k : double) : Z := match order with MinAtTop => dkey k | MaxAtTop => - dkey k end.

Definition before (a b : KeyIdPair) : Prop :=
  rank (key_ a) < rank (key_ b) \/ (rank (key_ a) = rank (key_ b) /\ kid_ a < kid_ b).

(** [items_] is strictly sorted and [index_] has exactly its elements. *)
Record pq_ok (q : PriorityQueue) : Prop := {
  pq_sorted : StronglySorted before (items_ q);
  pq_nums : Forall (fun x => num (key_ x)) (items_ q);
  pq_index x : x ∈ items_ q <-> index_ q !! kid_ x = Some x;
  pq_ids id x : index_ q !! id = Some x -> kid_ x = id
}.

Lemma less_before a b : num (key_ a) -> num (key_ b) -> less a b = true <-> before a b.
Proof.
  intros Ha Hb. unfold less, before, rank. destruct order; rewrite !dltb_num, deqb_num by done;
    rewrite orb_true_iff, andb_true_iff, !Z.ltb_lt, Z.eqb_eq; lia.
Qed.

Lemma less_not a b : num (key_ a) -> num (key_ b) -> less a b = false -> less b a = false ->
  dkey (key_ a) = dkey (key_ b) /\ kid_ a = kid_ b.
Proof.
  intros Ha Hb H1 H2. pose proof (less_before a b Ha Hb) as E1. pose proof (less_before b a Hb Ha) as E2.
  rewrite H1 in E1. rewrite H2 in E2. unfold before, rank in *. destruct order; lia.
Qed.

Lemma before_trans a b c : before a b -> before b c -> before a c.
Proof. unfold before. lia. Qed.

Lemma before_irrefl a : ~ before a a.
Proof. unfold before. lia. Qed.

(** Inserting an element whose id is new. *)
Lemma set_insert_ok x l :
  num (key_ x) -> Forall (fun y => num (key_ y)) l -> StronglySorted before l -> kid_ x ∉ kid_ <$> l ->
  exists l', set_insert x l = (x, l') /\ StronglySorted before l' /\ l' ≡ₚ x :: l.
Proof.
  intros Hx Hl Hs Hn. induction Hs as [|y l Hs IH Hy]; cbn.
  { exists [x]. split_and!; [done|repeat constructor|done]. }
  apply Forall_cons in Hl as [Hy1 Hl].
  assert (kid_ x <> kid_ y /\ kid_ x ∉ kid_ <$> l) as [Hne Hn'] by (cbn in Hn; set_solver).
  destruct (less x y) eqn:E1.
  - apply less_before in E1; [|done..]. exists (x :: y :: l). split_and!; [done| |done].
    constructor; [by constructor|]. constructor; [done|].
    eapply Forall_impl; [exact Hy|]. intros z. by apply before_trans.
  - destruct (less y x) eqn:E2; [|by destruct (less_not x y)].
    apply less_before in E2; [|done..].
    destruct (IH Hl Hn') as (l' & -> & Hs' & Hp). exists (y :: l'). split_and!; [done| |].
    + constructor; [done|]. rewrite Hp. by constructor.
    + rewrite Hp. by constructor.
Qed.

Lemma set_erase_ok x l : StronglySorted before l ->
  StronglySorted before (set_erase x l) /\ forall y, y ∈ set_erase x l <-> y ∈ l /\ y <> x.
Proof.
  intros Hs. split.
  - unfold set_erase. induction Hs as [|y l Hs IH Hy]; [constructor|]. rewrite filter_cons.
    case_decide; [|done]. constructor; [done|]. rewrite Forall_forall in *.
    intros z Hz. apply list_elem_of_filter in Hz as [_ Hz]. auto.
  - intros y. unfold set_erase. rewrite list_elem_of_filter. tauto.
Qed.

Lemma pq_keys q : pq_ok q -> forall id, id ∈ kid_ <$> items_ q <-> is_Some (index_ q !! id).
Proof.
  intros [Hs Hn Hi Hk] id. rewrite list_elem_of_fmap. split.
  - intros (x & -> & Hx). apply Hi in Hx. eauto.
  - intros [x Hx]. exists x. split; [symmetry; eauto|]. apply Hi. by rewrite (Hk _ _ Hx).
Qed.

Lemma new_ok n : pq_ok (new_PriorityQueue n).
Proof. split; [constructor|constructor| |done]. intros x. cbn. set_solver. Qed.

(** A queue whose element with the id, if any, is out of the set and still in
    the index, as [updateItem] leaves it. *)
Lemma addItemHasSpace_ok key id q l :
  num key -> StronglySorted before l -> Forall (fun x => num (key_ x)) l ->
  (forall x, x ∈ l <-> kid_ x <> id /\ index_ q !! kid_ x = Some x) ->
  (forall i x, index_ q !! i = Some x -> kid_ x = i) ->
  let q' := addItemHasSpace key id (mkPQ (maxItemCount_ q) l (index_ q)) in
  pq_ok q' /\ index_ q' = <[id := mkKeyId key id]> (index_ q) /\ items_ q' ≡ₚ mkKeyId key id :: l.
Proof.
  intros Hk Hs Hn Hi Hids q'.
  destruct (set_insert_ok (mkKeyId key id) l) as (l' & E & Hs' & Hp); [done..| |].
  { intros Hin. apply list_elem_of_fmap in Hin as (x & Hx & Hin). apply Hi in Hin. cbn in Hx. naive_solver. }
  unfold q', addItemHasSpace. cbn [items_]. rewrite E. cbn [items_ index_]. split_and!; [|done|done].
  split; cbn [items_ index_]; [done| | |].
  - rewrite Hp. by constructor.
  - intros x. rewrite Hp, elem_of_cons, Hi. destruct (decide (kid_ x = id)) as [Ex|Ex].
    + rewrite Ex, lookup_insert_eq. split; [by intros [->|[? _]]|]. intros [= E0]. by left.
    + rewrite lookup_insert_ne by congruence. split; [|by right]. by intros [->|[_ ?]].
  - intros i x. destruct (decide (i = id)) as [->|Hne].
    + rewrite lookup_insert_eq. intros [= E0]. by rewrite <- E0.
    + rewrite lookup_insert_ne by congruence. apply Hids.
Qed.

Lemma updateItem_ok key id q : pq_ok q -> num key ->
  pq_ok (updateItem key id q) /\
  (forall i, i <> id -> index_ (updateItem key id q) !! i = index_ q !! i) /\
  exists k, index_ (updateItem key id q) !! id = Some (mkKeyId k id) /\ dkey k = dkey key.
Proof.
  intros Hq Hk. pose proof Hq as [Hs Hn Hi Hids]. unfold updateItem.
  destruct (index_ q !! id) as [it|] eqn:E.
  - pose proof (Hids _ _ E) as Eid. assert (it ∈ items_ q) as Hit by (apply Hi; by rewrite Eid).
    destruct (deqb key (key_ it)) eqn:Eq.
    + split; [done|]. split; [done|]. exists (key_ it). split; [|symmetry; by apply deqb_eq].
      rewrite E. destruct it; cbn in *; by subst.
    + destruct (set_erase_ok it (items_ q) Hs) as [Hs' Hel].
      destruct (addItemHasSpace_ok key id q (set_erase it (items_ q))) as (Hok & Hix & _); try done.
      * rewrite Forall_forall in *. intros x Hx. apply Hel in Hx as [Hx _]. auto.
      * intros x. rewrite Hel, Hi. split; intros [H1 H2]; split; try done; try congruence.
      * split; [done|]. rewrite Hix. split; [intros i Hne; by rewrite lookup_insert_ne|].
        exists key. by rewrite lookup_insert_eq.
  - destruct (addItemHasSpace_ok key id q (items_ q)) as (Hok & Hix & _); try done.
    + intros x. rewrite Hi. split; [|tauto]. intros Hx. split; [|done]. congruence.
    + destruct q as [mx its ix]. split; [done|]. cbn [maxItemCount_ items_ index_] in *. rewrite Hix.
      split; [intros i Hne; by rewrite lookup_insert_ne|].
      exists key. by rewrite lookup_insert_eq.
Qed.

Lemma removeItem_ok id q : pq_ok q ->
  pq_ok (removeItem id q) /\ index_ (removeItem id q) = delete id (index_ q).
Proof.
  intros Hq. pose proof Hq as [Hs Hn Hi Hids]. unfold removeItem.
  destruct (index_ q !! id) as [it|] eqn:E; [|split; [done|]; by rewrite delete_id].
  pose proof (Hids _ _ E) as Eid. split; [|done].
  destruct (set_erase_ok it (items_ q) Hs) as [Hs' Hel]. split; cbn [items_ index_]; [done| | |].
  - rewrite Forall_forall in *. intros x Hx. apply Hel in Hx as [Hx _]. auto.
  - intros x. rewrite Hel, Hi. destruct (decide (kid_ x = id)) as [Ex|Ex].
    + rewrite Ex, lookup_delete_eq. split; [|done]. intros [H1 H2]. congruence.
    + rewrite lookup_delete_ne by congruence. split; [tauto|]. intros H; split; [done|]. congruence.
  - intros i x. rewrite lookup_delete_Some. intros [_ H]. by apply Hids.
Qed.

(** The item at the top is first in the order. *)
Lemma getTopItem_ok q : pq_ok q -> empty q = false ->
  exists x, getTopItem q = Ret x /\ index_ q !! kid_ x = Some x /\
    forall id y, index_ q !! id = Some y -> y = x \/ before x y.
Proof.
  intros Hq He. pose proof Hq as [Hs Hn Hi Hids].
  assert (items_ q <> []) as Hne.
  { intros E0. unfold empty in He. assert (index_ q = ∅) as E1; [|by rewrite E1, map_size_empty in He].
    apply map_eq. intros i. rewrite lookup_empty. destruct (index_ q !! i) eqn:E; [|done].
    assert (i ∈ kid_ <$> items_ q) as Hin by (apply (pq_keys q Hq); eauto). rewrite E0 in Hin. set_solver. }
  unfold getTopItem. destruct (items_ q) as [|x l] eqn:E; [done|]. cbn. exists x. split; [done|]. split.
  - apply Hi. left.
  - intros id y Hy. assert (y ∈ x :: l) as Hin by (apply Hi; by rewrite (Hids _ _ Hy)).
    apply elem_of_cons in Hin as [->|Hin]; [by left|right].
    apply StronglySorted_inv in Hs as [_ Hf]. rewrite Forall_forall in Hf. auto.
Qed.

Lemma pq_length q : pq_ok q -> length (items_ q) = size (index_ q).
Proof.
  intros Hq. pose proof Hq as [Hs Hn Hi Hids].
  assert (NoDup (kid_ <$> items_ q)) as Hnd.
  { clear Hn. assert (forall x, x ∈ items_ q -> index_ q !! kid_ x = Some x) as H by (intros x; apply Hi).
    revert H. clear Hi Hids Hq. induction Hs as [|x l Hs IH Hx]; intros H; [constructor|]. cbn. constructor.
    - intros Hin. apply list_elem_of_fmap in Hin as (y & E & Hy).
      assert (x = y) as -> by (pose proof (H x ltac:(left)) as H1; pose proof (H y ltac:(by right)); congruence).
      rewrite Forall_forall in Hx. by destruct (before_irrefl y (Hx _ Hy)).
    - apply IH. intros y Hy. apply H. by right. }
  rewrite <- size_dom. transitivity (size (list_to_set (kid_ <$> items_ q) : gset Z)).
  - rewrite size_list_to_set by done. by rewrite length_fmap.
  - f_equal. apply set_eq. intros i. rewrite elem_of_list_to_set, elem_of_dom. by apply pq_keys.
Qed.
End Queue.

(** ** Properties *)

Inductive QueueOp := UpdateItem (key : double) (id : Z) | RemoveItem (id : Z).

Definition op_ok (o : QueueOp) : Prop := match o with UpdateItem key _ => num key | RemoveItem _ => True end.

Definition run_op (order : PriorityQueueOrder) (q : PriorityQueue) (o : QueueOp) : PriorityQueue :=
  match o with UpdateItem key id => updateItem order key id q | RemoveItem id => removeItem id q end.

(** The reference: a map from ids to the values of their keys. *)
Definition spec_op (m : gmap Z Z) (o : QueueOp) : gmap Z Z :=
  match o with UpdateItem key id => <[id := dkey key]> m | RemoveItem id => delete id m end.

Definition to_map (q : PriorityQueue) : gmap Z Z := (fun x => dkey (key_ x)) <$> index_ q.

Lemma to_map_step order q o : pq_ok order q -> op_ok o ->
  pq_ok order (run_op order q o) /\ to_map (run_op order q o) = spec_op (to_map q) o.
Proof.
  intros Hq Ho. unfold to_map. destruct o as [key id|id]; cbn in *.
  - destruct (updateItem_ok order key id q Hq Ho) as (Hok & Hother & k & Hk & Ek). split; [done|].
    apply map_eq. intros i. rewrite lookup_fmap. destruct (decide (i = id)) as [->|Hne].
    + rewrite Hk, lookup_insert_eq. cbn. by rewrite Ek.
    + by rewrite Hother, lookup_insert_ne, lookup_fmap.
  - destruct (removeItem_ok order id q Hq) as (Hok & Hix). split; [done|]. by rewrite Hix, fmap_delete.
Qed.

Lemma to_map_run order ops : forall q, pq_ok order q -> Forall op_ok ops ->
  pq_ok order (foldl (run_op order) q ops) /\ to_map (foldl (run_op order) q ops) = foldl spec_op (to_map q) ops.
Proof.
  induction ops as [|o ops IH]; intros q Hq Hops; [done|]. apply Forall_cons in Hops as [Ho Hops]. cbn.
  destruct (to_map_step order q o Hq Ho) as [Hq' <-]. by apply IH.
Qed.

(** C25: the priority queue is a map from ids to keys with its first key at
    hand.  After any sequence of [updateItem] and [removeItem] with keys that
    are numbers, the queue holds for every id the key last given to it and not
    removed since, [getSize] is the number of its ids, the set and the index
    hold the same items, and unless the queue is empty [getTopItem] returns an
    item whose key is first in the queue's order, with the smallest id among
    the equal keys. *)
Theorem queue_refines_map (order : PriorityQueueOrder) (n : Z) (ops : list QueueOp) :
  Forall op_ok ops ->
  let q := foldl (run_op order) (new_PriorityQueue n) ops in
  let m := foldl spec_op ∅ ops in
  to_map q = m /\ getSize q = Z.of_nat (size m) /\ length (items_ q) = size m /\
  (m <> ∅ -> exists x, getTopItem q = Ret x /\ m !! kid_ x = Some (dkey (key_ x)) /\
     forall id k, m !! id = Some k ->
       let r k := match order with MinAtTop => k | MaxAtTop => - k end in
       r (dkey (key_ x)) < r k \/ (r (dkey (key_ x)) = r k /\ kid_ x <= id)).
Proof.
  intros Hops q m. destruct (to_map_run order ops (new_PriorityQueue n) (new_ok order n) Hops) as [Hq Ha].
  fold q in Hq, Ha. assert (to_map (new_PriorityQueue n) = ∅) as E0 by apply fmap_empty.
  rewrite E0 in Ha. fold m in Ha. assert (size m = size (index_ q)) as Es by (rewrite <- Ha; apply map_size_fmap).
  split_and!; [done|unfold getSize; by rewrite Es|rewrite Es; by eapply pq_length|]. intros Hne.
  destruct (getTopItem_ok order q Hq) as (x & Ht & Hx & Hmin).
  - unfold empty. apply Z.eqb_neq. rewrite <- Es. intros E. apply Hne, map_size_empty_inv. lia.
  - exists x. split; [done|]. rewrite <- Ha. unfold to_map. rewrite lookup_fmap, Hx. split; [done|].
    intros id k. rewrite lookup_fmap, fmap_Some. intros (y & Hy & ->).
    pose proof (pq_ids order q Hq _ _ Hy) as Ey.
    destruct (Hmin _ _ Hy) as [->|Hb]; [right; split; lia|].
    unfold before, rank in Hb. destruct order; cbn; lia.
Qed.

Definition example_ops : list QueueOp :=
  [UpdateItem (dofZ 3) 7; UpdateItem (dofZ 1) 9; UpdateItem (dofZ 2) 7; UpdateItem (dofZ 1) 4;
   RemoveItem 4; UpdateItem (dofZ 5) 9].

Lemma queue_refines_map_witness :
  to_map (foldl (run_op MaxAtTop) (new_PriorityQueue 10) example_ops) = {[7 := dkey (dofZ 2); 9 := dkey (dofZ 5)]} /\
  getTopItem (foldl (run_op MaxAtTop) (new_PriorityQueue 10) example_ops) = Ret (mkKeyId (dofZ 5) 9).
Proof.
  destruct (queue_refines_map MaxAtTop 10 example_ops) as [E _].
  - repeat (apply Forall_cons_2 || apply Forall_nil_2); try exact I; split; [split; vm_compute; congruence|vm_compute; reflexivity|
      split; vm_compute; congruence|vm_compute; reflexivity|split; vm_compute; congruence|vm_compute; reflexivity|
      split; vm_compute; congruence|vm_compute; reflexivity|split; vm_compute; congruence|vm_compute; reflexivity].
  - split; [|vm_compute; reflexivity]. rewrite E. vm_compute. reflexivity.
Defined.

(** A full queue overflows.  When a queue holds [maxItemCount] items and
    the key of a new item is not better than the key at the bottom, [addItem]
    inserts the item all the same and the queue holds one item too many; a
    better key does take the place of the bottom item. *)
Theorem addItem_full (order : PriorityQueueOrder) (q : PriorityQueue) (key : double) (id : Z) (bottom : KeyIdPair) :
  pq_ok order q -> num key -> index_ q !! id = None ->
  Z.of_nat (length (items_ q)) = maxItemCount_ q -> last (items_ q) = Some bottom ->
  exists q', addItem order key id q = Ret q' /\ pq_ok order q' /\
    if decide (rank order (key_ bottom) <= rank order key)
    then length (items_ q') = S (length (items_ q)) /\ index_ q' = <[id := mkKeyId key id]> (index_ q)
    else length (items_ q') = length (items_ q) /\
         index_ q' = <[id := mkKeyId key id]> (delete (kid_ bottom) (index_ q)).
Proof.
  intros Hq Hk Hid Hlen Hlast. pose proof Hq as [Hs Hn Hi Hids].
  assert (bottom ∈ items_ q) as Hb by (by apply last_Some_elem_of).
  assert (num (key_ bottom)) as Hbn by (rewrite Forall_forall in Hn; auto).
  unfold addItem, hasItem. rewrite Hid, Hlen, Z.eqb_refl, Hlast. cbn [negb cassert mbind outcome_bind or_undefined].
  set (out := match order with MinAtTop => _ | MaxAtTop => _ end).
  assert (out = bool_decide (rank order (key_ bottom) <= rank order key)) as ->.
  { unfold out, rank. destruct order; rewrite dleb_num by done; apply eq_true_iff_eq;
      rewrite Z.leb_le, bool_decide_eq_true; lia. }
  eexists. split; [reflexivity|]. case_decide as Hr.
  - rewrite bool_decide_true by done. destruct (addItemHasSpace_ok order key id q (items_ q)) as (Hok & Hix & Hp); try done.
    + intros x. rewrite Hi. split; [|tauto]. intros Hx. split; [congruence|done].
    + destruct q as [mx its ix]. cbn in *. split_and!; [done| |done]. by rewrite Hp.
  - rewrite bool_decide_false by done. set (q1 := mkPQ _ _ _).
    destruct (removeItem_ok order (kid_ bottom) q Hq) as [Hok1 _].
    assert (removeItem (kid_ bottom) q = q1) as E1.
    { unfold removeItem. apply Hi in Hb. by rewrite Hb. }
    rewrite E1 in Hok1. pose proof Hok1 as [Hs1 Hn1 Hi1 Hids1].
    destruct (addItemHasSpace_ok order key id q1 (items_ q1)) as (Hok & Hix & Hp); try done.
    + intros x. rewrite Hi1. split; [|tauto]. intros Hx. split; [|done]. intros E.
      rewrite E in Hx. cbn in Hx. apply lookup_delete_Some in Hx as [_ Hx]. congruence.
    + split_and!; [done| |done]. change (mkPQ _ _ _) with q1 in Hp. rewrite Hp. cbn [length].
      rewrite (pq_length order q1 Hok1), (pq_length order q Hq). cbn [q1 index_].
      rewrite map_size_delete. apply Hi in Hb. rewrite Hb. 
      assert (size (index_ q) <> 0%nat); [|lia]. apply map_size_non_empty_iff. intros E. by rewrite E in Hb.
Qed.

Lemma addItem_full_witness :
  exists q', addItem MinAtTop (dofZ 9) 3 (updateItem MinAtTop (dofZ 5) 1 (new_PriorityQueue 1)) = Ret q' /\
    length (items_ q') = 2%nat.
Proof.
  destruct (addItem_full MinAtTop (updateItem MinAtTop (dofZ 5) 1 (new_PriorityQueue 1)) (dofZ 9) 3 (mkKeyId (dofZ 5) 1))
    as (q' & E & _ & H).
  - apply (updateItem_ok MinAtTop); [apply new_ok|]. split; [split; vm_compute; congruence|vm_compute; reflexivity].
  - split; [split; vm_compute; congruence|vm_compute; reflexivity].
  - vm_compute. reflexivity.
  - vm_compute. reflexivity.
  - vm_compute. reflexivity.
  - exists q'. split; [exact E|]. rewrite decide_True in H by (vm_compute; congruence).
    destruct H as [H _]. rewrite H. vm_compute. reflexivity.
Defined.
