(* ===== verification/Candidate.v ===== *)
(** * Candidate blocks

    core/Candidate.h and Candidate.cpp: a candidate of the smart layout is a
    number of oldest edges taken from each of some neighbor lists, with
    incrementally maintained counts of its edges, of the edges that leave it,
    of its serialized size and of the vertices it touches. *)

From Stdlib Require Import ZArith Lia.
From stdpp Require Import base numbers gmap strings list sorting.
From S2P Require Import Prelude.
From S2P Require Import Double.
From S2P Require Import Schema.
From S2P Require Import AttributeData.
From S2P Require Import NeighborList.
From S2P Require Import PriorityQueue.
From S2P Require Import Block.

(** [Conf::SmartLayoutConf::LocalityMetric] *)
Inductive LocalityMetric := LM_RCONDUCTANCE | LM_COHESIVENESS | LM_RCC_MIXED.

(** The constructor's [else] branch assigns [u] to both ends. *)
Record SUEdge := mkSUEdge { su_u : VertexId; su_v : VertexId }.

Definition newSUEdge (u v : VertexId) : SUEdge := if v <? u then mkSUEdge v u else mkSUEdge u u.

#[export] Instance SUEdge_eq_dec : EqDecision SUEdge.
Proof. solve_decision. Defined.

(** [presentVertices_] and [numEdges_] are traversed by the program and are in
    iteration order. *)
Record Candidate := mkCandidate {
  size_ : Z;
  edgeCount_ : Z;
  outEdgeCount_ : Z;
  presentVertices_ : list (VertexId * Z);
  timestamps_ : PriorityQueue;
  numEdges_ : list (VertexId * Z);
  internalEdges_ : list (SUEdge * Z)
}.

Definition new_Candidate : Candidate := mkCandidate sizeof_BlockId 0 0 [] unbounded [] [].

Definition with_size (n : Z) (c : Candidate) : Candidate :=
  mkCandidate (u64 n) (edgeCount_ c) (outEdgeCount_ c) (presentVertices_ c) (timestamps_ c) (numEdges_ c) (internalEdges_ c).
Definition with_counts (edges out : Z) (c : Candidate) : Candidate :=
  mkCandidate (size_ c) (u64 edges) (u64 out) (presentVertices_ c) (timestamps_ c) (numEdges_ c) (internalEdges_ c).
Definition with_present (p : list (VertexId * Z)) (c : Candidate) : Candidate :=
  mkCandidate (size_ c) (edgeCount_ c) (outEdgeCount_ c) p (timestamps_ c) (numEdges_ c) (internalEdges_ c).
Definition with_internal (i : list (SUEdge * Z)) (c : Candidate) : Candidate :=
  mkCandidate (size_ c) (edgeCount_ c) (outEdgeCount_ c) (presentVertices_ c) (timestamps_ c) (numEdges_ c) i.
Definition with_lists (t : PriorityQueue) (n : list (VertexId * Z)) (c : Candidate) : Candidate :=
  mkCandidate (size_ c) (edgeCount_ c) (outEdgeCount_ c) (presentVertices_ c) t n (internalEdges_ c).

(** [if (m.count(k)) m[k]++; else m[k] = 1;] *)
Definition incr_count {K} `{EqDecision K} (k : K) (m : list (K * Z)) : list (K * Z) :=
  match assoc_find k m with
  | Some n => assoc_set k (u64 (n + 1)) m
  | None => assoc_set k 1 m
  end.

(** [if (--m[k] == 0) m.erase(k);]: an absent key starts from 0. *)
Definition decr_count {K} `{EqDecision K} (k : K) (m : list (K * Z)) : list (K * Z) :=
  let n := u64 (default 0 (assoc_find k m) - 1) in
  if n =? 0 then assoc_erase k (assoc_set k n m) else assoc_set k n m.

Definition getEdgeCount (headVertex : VertexId) (c : Candidate) : Z :=
  default 0 (assoc_find headVertex (numEdges_ c)).

Definition getNewestTime (c : Candidate) : outcome Timestamp := key_ <$> getTopItem (timestamps_ c).

(** [nlist.getNthOldestEdge(i)] for a [size_t] index. *)
Definition getNth (nlist : NeighborList) (i : Z) : outcome NLEdge :=
  if i <? Z.of_nat (length (edges_ nlist)) then getNthOldestEdge nlist (Z.to_nat i) else Undefined.

(** The [while] loop of [hasReverseEdge]. *)
Fixpoint scan_back (nlist : NeighborList) (headVertex : VertexId) (tm : Timestamp) (i : nat) : outcome bool :=
  oedge ← getNthOldestEdge nlist i;
  if deqb tm (tm_ oedge) then
    if toVertex_ oedge =? headVertex then Ret true
    else match i with O => Ret false | S i => scan_back nlist headVertex tm i end
  else Ret false.

Section Map.
(** [map.getNeighborLists()]: only searched. *)
Context (neigLists : gmap VertexId NeighborList).

Definition hasReverseEdge (headVertex : VertexId) (edge : NLEdge) (c : Candidate) : outcome bool :=
  let toVertex := toVertex_ edge in
  match assoc_find toVertex (numEdges_ c) with
  | None => Ret false
  | Some count =>
      nlist ← or_undefined (neigLists !! toVertex);
      let i := u64 (count - 1) in
      oldest ← getOldestEdge nlist;
      let startTime := tm_ oldest in
      oedge ← getNth nlist i;
      if dleb startTime (tm_ edge) then
        if dltb (tm_ edge) (tm_ oedge) then Ret true
        else scan_back nlist headVertex (tm_ edge) (Z.to_nat i)
      else Ret false
  end.

Definition add_nth (headVertex : VertexId) (nlist : NeighborList) (c : Candidate) (j : Z) : outcome Candidate :=
  let c := with_size (size_ c + (sizeof_VertexId + sizeof_Timestamp)) c in
  edge ← getNth nlist j;
  let to := toVertex_ edge in
  let c := with_present (incr_count to (presentVertices_ c)) c in
  found ← hasReverseEdge headVertex edge c;
  if found : bool then
    _ ← cassert (0 <? outEdgeCount_ c);
    let c := with_internal (incr_count (newSUEdge headVertex to) (internalEdges_ c)) c in
    Ret (with_counts (edgeCount_ c + 1) (outEdgeCount_ c - 1) c)
  else
    let c := with_counts (edgeCount_ c + 1) (outEdgeCount_ c + 1) c in
    n ← getSerializedSizeOf (cell (data_ edge));
    Ret (with_size (size_ c + n) c).

Definition remove_nth (headVertex : VertexId) (nlist : NeighborList) (c : Candidate) (j : Z) : outcome Candidate :=
  let c := with_size (size_ c - (sizeof_VertexId + sizeof_Timestamp)) c in
  edge ← getNth nlist j;
  let to := toVertex_ edge in
  let c := with_present (decr_count to (presentVertices_ c)) c in
  found ← hasReverseEdge headVertex edge c;
  if found : bool then
    let c := with_internal (decr_count (newSUEdge headVertex to) (internalEdges_ c)) c in
    Ret (with_counts (edgeCount_ c - 1) (outEdgeCount_ c + 1) c)
  else
    _ ← cassert (0 <? outEdgeCount_ c);
    let c := with_counts (edgeCount_ c - 1) (outEdgeCount_ c - 1) c in
    n ← getSerializedSizeOf (cell (data_ edge));
    Ret (with_size (size_ c - n) c).

Definition setEdgeCount (headVertex : VertexId) (n : Z) (c : Candidate) : outcome Candidate :=
  let cn := getEdgeCount headVertex c in
  if cn =? n then Ret c else
  nlist ← or_undefined (neigLists !! headVertex);
  c ← (if cn <? n then foldM (add_nth headVertex nlist) c (seqZ cn (n - cn))
       else foldM (remove_nth headVertex nlist) c (reverse (seqZ n (cn - n))));
  _ ← cassert (outEdgeCount_ c <=? edgeCount_ c);
  let c := if cn =? 0 then
             with_present (assoc_set headVertex 1 (presentVertices_ c))
               (with_size (size_ c + (sizeof_VertexId + sizeof_uint32)) c)
           else c in
  if n =? 0 then
    let c := with_lists (removeItem headVertex (timestamps_ c)) (assoc_erase headVertex (numEdges_ c)) c in
    let c := with_size (size_ c - (sizeof_VertexId + sizeof_uint32)) c in
    Ret (with_present (decr_count headVertex (presentVertices_ c)) c)
  else
    edge ← getNth nlist (n - 1);
    Ret (with_lists (updateItem MaxAtTop (tm_ edge) headVertex (timestamps_ c))
                    (assoc_set headVertex n (numEdges_ c)) c).
End Map.

Definition getLocality (metric : LocalityMetric) (c : Candidate) : double :=
  let rConductance := dsub dunit (ddiv (dofZ (outEdgeCount_ c)) (dofZ (edgeCount_ c))) in
  let nlistCount := Z.of_nat (length (numEdges_ c)) in
  let half := ddiv dunit dtwo in
  let cohesiveness :=
    if nlistCount =? 1 then half
    else ddiv (dofZ (Z.of_nat (length (internalEdges_ c))))
              (dmul (dmul half (dofZ nlistCount)) (dsub (dofZ nlistCount) dunit)) in
  match metric with
  | LM_RCC_MIXED => dmul rConductance cohesiveness
  | LM_RCONDUCTANCE => rConductance
  | LM_COHESIVENESS => cohesiveness
  end.
