(* ===== verification/Conf.v ===== *)
(** * The configuration

    core/Conf.h: the sizes of the buffers, the layout of blocks and the two
    schemas. *)

From Stdlib Require Import ZArith Lia.
From stdpp Require Import base numbers gmap strings list sorting.
From S2P Require Import Prelude.
From S2P Require Import Schema.
From S2P Require Import Candidate.

#[local] Open Scope string_scope.

Inductive InitialCandidateSelectionPolicy := ICS_Random | ICS_Old | ICS_New | ICS_Max | ICS_Min | ICS_nPolicies.
Inductive LayoutMode := LM_Random | LM_Old | LM_Max | LM_Smart.

#[export] Instance InitialCandidateSelectionPolicy_eq_dec : EqDecision InitialCandidateSelectionPolicy.
Proof. solve_decision. Defined.
#[export] Instance LayoutMode_eq_dec : EqDecision LayoutMode.
Proof. solve_decision. Defined.

Record SmartLayoutConf := mkSmart {
  localityMetric : LocalityMetric;
  initialCandidateSelectionPolicy : InitialCandidateSelectionPolicy;
  seedEdgeCount : Z;
  initialCandidateCount : Z
}.

Definition newSmartLayoutConf : SmartLayoutConf := mkSmart LM_RCC_MIXED ICS_Old 1 10.

Definition getInitialCandidateSelectionPolicyName (policy : InitialCandidateSelectionPolicy) : outcome string :=
  match policy with
  | ICS_Random => Ret "Random"
  | ICS_Old => Ret "Old"
  | ICS_New => Ret "New"
  | ICS_Max => Ret "Max"
  | ICS_Min => Ret "Min"
  | ICS_nPolicies => AssertFailed
  end.

Record Conf := mkConf {
  conf_name : string;
  storageDir : string;
  windowSize : Z;
  blockSize : Z;
  blockBufferSize : Z;
  partitioningBufferSize : Z;
  vertexDataBufferSize : Z;
  expirationMapSize : Z;
  layoutMode : LayoutMode;
  smartLayoutConf : SmartLayoutConf;
  vertexSchema : Schema;
  edgeSchema : Schema
}.

Definition newConf (name storageDir : string) (vertexSchema edgeSchema : list (string * DataType)) : Conf :=
  let windowSize := 1024 * 1024 in
  let blockSize := 16 * 1024 in
  mkConf name storageDir windowSize blockSize (16 * 1024) (16 * 1024) (100 * 1024)
    (Z.max (windowSize / 100) (blockSize / (8 + 8)))
    LM_Smart newSmartLayoutConf (new_schema vertexSchema) (new_schema edgeSchema).

Definition setBlockSize (size : Z) (c : Conf) : Conf :=
  mkConf (conf_name c) (storageDir c) (windowSize c) size (blockBufferSize c) (partitioningBufferSize c)
    (vertexDataBufferSize c) (Z.max (windowSize c / 100) (size / (8 + 8)))
    (layoutMode c) (smartLayoutConf c) (vertexSchema c) (edgeSchema c).

Definition setBlockBufferSize (size : Z) (c : Conf) : Conf :=
  mkConf (conf_name c) (storageDir c) (windowSize c) (blockSize c) size (partitioningBufferSize c)
    (vertexDataBufferSize c) (expirationMapSize c)
    (layoutMode c) (smartLayoutConf c) (vertexSchema c) (edgeSchema c).

(** [conf.layoutMode() = mode] and [conf.smartLayoutConf() = smart] *)
Definition setLayout (mode : LayoutMode) (smart : SmartLayoutConf) (c : Conf) : Conf :=
  mkConf (conf_name c) (storageDir c) (windowSize c) (blockSize c) (blockBufferSize c) (partitioningBufferSize c)
    (vertexDataBufferSize c) (expirationMapSize c) mode smart (vertexSchema c) (edgeSchema c).

Definition getLayoutModeName (layout : LayoutMode) : string :=
  match layout with
  | LM_Random => "Random"
  | LM_Old => "Old"
  | LM_Max => "Max"
  | LM_Smart => "Smart"
  end.
