(* ===== verification/ExpirationMap.v ===== *)
(** * The expiration map

    core/ExpirationMap.h and ExpirationMap.cpp: edges that left the window
    wait here, in the neighbor lists of both their ends, until enough of them
    are there to form a block.  A block takes the oldest edges of some lists;
    which lists is the layout's choice. *)

From Stdlib Require Import ZArith Lia.
From stdpp Require Import base numbers gmap strings list sorting.
From S2P Require Import Prelude.
From S2P Require Import Double.
From S2P Require Import Schema.
From S2P Require Import AttributeData.
From S2P Require Import NeighborList.
From S2P Require Import PriorityQueue.
From S2P Require Import Block.
From S2P Require Import Candidate.
From S2P Require Import Conf.

(** What the expiration map asks of [histg_]. *)
Class BlockSink (G : Type) := sink_block : Block -> G -> outcome G.

Record BlockStats := mkBlockStats {
  count_ : double;
  bs_size_ : double;
  bs_numEdges_ : double;
  numNLists_ : double;
  avgNListSize_ : double;
  locality_ : double;
  locMetric_ : LocalityMetric
}.

Definition newBlockStats (metric : LocalityMetric) : BlockStats :=
  mkBlockStats dzero dzero dzero dzero dzero dzero metric.

Definition BlockStats_update (candidate : Candidate) (s : BlockStats) : BlockStats :=
  let n := dofZ (Z.of_nat (length (numEdges_ candidate))) in
  let avgNListSize := ddiv (foldl (fun avg p => dadd avg (dofZ p.2)) dzero (numEdges_ candidate)) n in
  mkBlockStats (dadd (count_ s) dunit) (dadd (bs_size_ s) (dofZ (Candidate.size_ candidate)))
    (dadd (bs_numEdges_ s) (dofZ (edgeCount_ candidate))) (dadd (numNLists_ s) n)
    (dadd (avgNListSize_ s) avgNListSize)
    (dadd (locality_ s) (getLocality (locMetric_ s) candidate)) (locMetric_ s).

Definition getAvgSize (s : BlockStats) : double := ddiv (bs_size_ s) (count_ s).
Definition getAvgNumEdges (s : BlockStats) : double := ddiv (bs_numEdges_ s) (count_ s).
Definition getAvgNumNLists (s : BlockStats) : double := ddiv (numNLists_ s) (count_ s).
Definition getAvgNListSize (s : BlockStats) : double := ddiv (avgNListSize_ s) (count_ s).
Definition getAvgLocality (s : BlockStats) : double := ddiv (locality_ s) (count_ s).

(** The subclasses of [HeadVertexScorer]. *)
Inductive HeadVertexScorer := MinScorer | MaxScorer | OldScorer | NewScorer | RandScorer.

Definition getHeadVertexScorer (conf : Conf) : outcome HeadVertexScorer :=
  let mode := layoutMode conf in
  let policy := initialCandidateSelectionPolicy (smartLayoutConf conf) in
  let smart p := bool_decide (mode = LM_Smart) && bool_decide (policy = p) in
  if bool_decide (mode = LM_Max) || smart ICS_Max then Ret MaxScorer
  else if smart ICS_Min then Ret MinScorer
  else if bool_decide (mode = LM_Old) || smart ICS_Old then Ret OldScorer
  else if smart ICS_New then Ret NewScorer
  else if bool_decide (mode = LM_Random) || smart ICS_Random then Ret RandScorer
  else AssertFailed.

(** [draws_] counts the calls of [rand()]. *)
Record ExpirationMap := mkExpirationMap {
  stats_ : BlockStats;
  em_size_ : Z;
  em_maxSize_ : Z;
  conf_ : Conf;
  hvScorer_ : HeadVertexScorer;
  scoreQueue_ : PriorityQueue;
  neigLists_ : gmap VertexId NeighborList;
  draws_ : nat
}.

Definition newExpirationMap (conf : Conf) : outcome ExpirationMap :=
  scorer ← getHeadVertexScorer conf;
  Ret (mkExpirationMap (newBlockStats (localityMetric (smartLayoutConf conf))) 0
         (u64 (2 * expirationMapSize conf)) conf scorer unbounded ∅ 0).

Definition with_queue (q : PriorityQueue) (m : ExpirationMap) : ExpirationMap :=
  mkExpirationMap (stats_ m) (em_size_ m) (em_maxSize_ m) (conf_ m) (hvScorer_ m) q (neigLists_ m) (draws_ m).
Definition with_lists (l : gmap VertexId NeighborList) (m : ExpirationMap) : ExpirationMap :=
  mkExpirationMap (stats_ m) (em_size_ m) (em_maxSize_ m) (conf_ m) (hvScorer_ m) (scoreQueue_ m) l (draws_ m).
Definition with_size (n : Z) (m : ExpirationMap) : ExpirationMap :=
  mkExpirationMap (stats_ m) (u64 n) (em_maxSize_ m) (conf_ m) (hvScorer_ m) (scoreQueue_ m) (neigLists_ m) (draws_ m).
Definition with_stats (s : BlockStats) (m : ExpirationMap) : ExpirationMap :=
  mkExpirationMap s (em_size_ m) (em_maxSize_ m) (conf_ m) (hvScorer_ m) (scoreQueue_ m) (neigLists_ m) (draws_ m).
Definition draw (m : ExpirationMap) : ExpirationMap :=
  mkExpirationMap (stats_ m) (em_size_ m) (em_maxSize_ m) (conf_ m) (hvScorer_ m) (scoreQueue_ m) (neigLists_ m) (S (draws_ m)).

(** [neigLists_[v]]: an absent list is created. *)
Definition list_of (v : VertexId) (m : ExpirationMap) : NeighborList :=
  default (mkNeighborList 0 []) (neigLists_ m !! v).

Section Expiration.
(** The values of [rand()]. *)
Context (rand : nat -> Z).
Context {G : Type} `{BlockSink G}.

(** The scorers are only asked for vertices that have a list. *)
Definition score (v : VertexId) (i : Z) (m : ExpirationMap) : outcome (double * ExpirationMap) :=
  nlist ← or_undefined (neigLists_ m !! v);
  let len := Z.of_nat (length (edges_ nlist)) in
  match hvScorer_ m with
  | MinScorer => Ret (dofZ (u64 (len - i)), m)
  | MaxScorer => Ret (dopp (dofZ (u64 (len - i))), m)
  | OldScorer => edge ← getNth nlist i; Ret (tm_ edge, m)
  | NewScorer => edge ← getNth nlist i; Ret (dopp (tm_ edge), m)
  | RandScorer => Ret (dofZ (rand (draws_ m)), draw m)
  end.

(** [scoreQueue_.updateItem(hvScorer_->score(v, i), v)] *)
Definition rescore (v : VertexId) (i : Z) (m : ExpirationMap) : outcome ExpirationMap :=
  '(s, m) ← score v i m;
  Ret (with_queue (updateItem MinAtTop s v (scoreQueue_ m)) m).

Definition add_half (v u : VertexId) (tm : Timestamp) (data : SharedData) (m : ExpirationMap) : outcome ExpirationMap :=
  let nlist := set_headVertex v (list_of v m) in
  let m := with_lists (<[v := NeighborList.addEdge (mkNLEdge u tm data) nlist]> (neigLists_ m)) m in
  rescore v 0 m.

(** *** Removing the edges of a block that was formed *)

(** The [while (!done)] loop: the oldest edges up to one like [nedge]. *)
Fixpoint remove_until (fuel : nat) (nedge : NLEdge) (nlist : NeighborList) (size : Z) : outcome (NeighborList * Z) :=
  match fuel with
  | O => Undefined
  | S fuel =>
      redge ← getOldestEdge nlist;
      let isDone := (toVertex_ redge =? toVertex_ nedge) && deqb (tm_ redge) (tm_ nedge) in
      let nlist := removeOldestEdge nlist in
      let size := u64 (size - 1) in
      if isDone : bool then Ret (nlist, size) else remove_until fuel nedge nlist size
  end.

Definition remove_list (m : ExpirationMap) (p : VertexId * NeighborList) : outcome ExpirationMap :=
  let from := headVertex_ p.2 in
  nedge ← getNewestEdge p.2;
  let srcNlist := list_of from m in
  '(srcNlist, size) ← remove_until (S (length (edges_ srcNlist))) nedge srcNlist (em_size_ m);
  let m := with_size size (with_lists (<[from := srcNlist]> (neigLists_ m)) m) in
  match edges_ srcNlist with
  | [] => Ret (with_queue (removeItem from (scoreQueue_ m)) (with_lists (delete from (neigLists_ m)) m))
  | _ => rescore from 0 m
  end.

Definition removeEdges (block : Block) (m : ExpirationMap) : outcome ExpirationMap :=
  foldM remove_list m (neigs_ block).

(** *** The basic layouts *)

(** One turn of the loop of [getBlock]. *)
Definition take_top (block : Block) (nTaken : list (VertexId * Z)) (m : ExpirationMap)
  : outcome (VertexId * Block * list (VertexId * Z) * ExpirationMap) :=
  item ← getTopItem (scoreQueue_ m);
  let headVertex := kid_ item in
  let i := default 0 (assoc_find headVertex nTaken) in
  let nTaken := assoc_set headVertex (u64 (i + 1)) nTaken in
  let nlist := list_of headVertex m in
  edge ← getNth nlist i;
  block ← Block.addEdge headVertex (toVertex_ edge) (tm_ edge) (data_ edge) block;
  m ← (if i =? u64 (Z.of_nat (length (edges_ nlist)) - 1)
       then Ret (with_queue (removeItem headVertex (scoreQueue_ m)) m)
       else rescore headVertex (u64 (i + 1)) m);
  Ret (headVertex, block, nTaken, m).

(** The loop makes at most one turn for every edge of the lists, and [fuel] is
    more than that. *)
Fixpoint fill_block (fuel : nat) (headVertex : VertexId) (block : Block) (nTaken : list (VertexId * Z))
  (m : ExpirationMap) : outcome (VertexId * Block * ExpirationMap) :=
  match fuel with
  | O => Undefined
  | S fuel =>
      if negb (empty (scoreQueue_ m)) && (serializedSize_ block <? blockSize (conf_ m)) then
        '(headVertex, block, nTaken, m) ← take_top block nTaken m;
        fill_block fuel headVertex block nTaken m
      else Ret (headVertex, block, m)
  end.

(** The number of entries in the lists. *)
Definition entries (l : gmap VertexId NeighborList) : nat :=
  map_fold (fun _ nl n => (length (edges_ nl) + n)%nat) 0%nat l.

(** Giving back the last edge when the block is too large. *)
Definition trim (maxBlockSize : Z) (headVertex : VertexId) (block : Block) (m : ExpirationMap)
  : outcome (Block * ExpirationMap) :=
  if maxBlockSize <? serializedSize_ block then
    block ← removeNewestEdge headVertex block;
    let kept := match assoc_find headVertex (neigs_ block) with
                | Some nlist => Z.of_nat (length (edges_ nlist))
                | None => 0
                end in
    m ← rescore headVertex kept m;
    Ret (block, m)
  else Ret (block, m).

Definition getBlock (block : Block) (m : ExpirationMap) : outcome (Block * ExpirationMap) :=
  let maxBlockSize := blockSize (conf_ m) in
  '(headVertex, block, m) ← fill_block (S (entries (neigLists_ m))) 0 block [] m;
  '(block, m) ← trim maxBlockSize headVertex block m;
  candidate ← foldM (fun candidate p =>
      setEdgeCount (neigLists_ m) p.1 (Z.of_nat (length (edges_ p.2))) candidate)
    new_Candidate (neigs_ block);
  Ret (block, with_stats (BlockStats_update candidate (stats_ m)) m).

(** *** The smart layout *)

(** [bestScore], [bestHeadVertex] and [bestEdgeCount]; [found] is whether they
    are there. *)
Record Best := mkBest { bestScore : double; bestHeadVertex : VertexId; bestEdgeCount : Z }.

Section Extend.
Context (m : ExpirationMap).
#[local] Abbreviation maxBlockSize := (blockSize (conf_ m)).
#[local] Abbreviation locality := (getLocality (localityMetric (smartLayoutConf (conf_ m)))).

(** The score of the change from [initLocality] and [orgSize], kept when better. *)
Definition consider (initLocality : double) (orgSize : Z) (headVertex : VertexId) (edgeCount : Z)
  (candidate : Candidate) (best : option Best) : option Best :=
  let score := ddiv (dsub (locality candidate) initLocality) (dofZ (u64 (Candidate.size_ candidate - orgSize))) in
  match best with
  | Some b => if dltb (bestScore b) score then Some (mkBest score headVertex edgeCount) else best
  | None => Some (mkBest score headVertex edgeCount)
  end.

(** The inner loop over the edge counts of a head vertex, up to its [break]. *)
Fixpoint try_counts (initLocality : double) (orgSize : Z) (orgMaxTime : Timestamp) (headVertex : VertexId)
  (nlist : NeighborList) (counts : list Z) (candidate : Candidate) (best : option Best)
  : outcome (Candidate * option Best) :=
  match counts with
  | [] => Ret (candidate, best)
  | edgeCount :: counts =>
      edge ← getNth nlist (edgeCount - 1);
      if dltb orgMaxTime (tm_ edge) then Ret (candidate, best) else
      _ ← cassert (edgeCount <=? Z.of_nat (length (edges_ (list_of headVertex m))));
      candidate ← setEdgeCount (neigLists_ m) headVertex edgeCount candidate;
      if maxBlockSize <? Candidate.size_ candidate then Ret (candidate, best)
      else try_counts initLocality orgSize orgMaxTime headVertex nlist counts candidate
             (consider initLocality orgSize headVertex edgeCount candidate best)
  end.

(** Setting the count of a vertex back, with the assertion before it. *)
Definition undo (headVertex : VertexId) (orgEdgeCount : Z) (candidate : Candidate) : outcome Candidate :=
  _ ← cassert (orgEdgeCount <=? Z.of_nat (length (edges_ (list_of headVertex m))));
  setEdgeCount (neigLists_ m) headVertex orgEdgeCount candidate.

Definition extend_present (initLocality : double) (orgSize : Z) (orgMaxTime : Timestamp)
  (st : Candidate * option Best) (p : VertexId * Z) : outcome (Candidate * option Best) :=
  let '(candidate, best) := st in
  let headVertex := p.1 in
  match neigLists_ m !! headVertex with
  | None => Ret (candidate, best)
  | Some nlist =>
      let orgEdgeCount := getEdgeCount headVertex candidate in
      let maxEdgeCount := Z.of_nat (length (edges_ nlist)) in
      '(candidate, best) ←
        try_counts initLocality orgSize orgMaxTime headVertex nlist
          (seqZ (orgEdgeCount + 1) (maxEdgeCount - orgEdgeCount)) candidate best;
      candidate ← undo headVertex orgEdgeCount candidate;
      Ret (candidate, best)
  end.

Definition extend_one_step (initLocality : double) (orgSize : Z)
  (st : Candidate * option Best) (p : VertexId * Z) : outcome (Candidate * option Best) :=
  let '(candidate, best) := st in
  let headVertex := p.1 in
  match neigLists_ m !! headVertex with
  | None => Ret (candidate, best)
  | Some nlist =>
      let orgEdgeCount := getEdgeCount headVertex candidate in
      let maxEdgeCount := Z.of_nat (length (edges_ nlist)) in
      if orgEdgeCount =? maxEdgeCount then Ret (candidate, best) else
      let edgeCount := orgEdgeCount + 1 in
      _ ← cassert (edgeCount <=? Z.of_nat (length (edges_ (list_of headVertex m))));
      candidate ← setEdgeCount (neigLists_ m) headVertex edgeCount candidate;
      let best := if Candidate.size_ candidate <=? maxBlockSize
                  then consider initLocality orgSize headVertex edgeCount candidate best else best in
      candidate ← undo headVertex orgEdgeCount candidate;
      Ret (candidate, best)
  end.

(** The loop over the queue: [!found] is tested before each item. *)
Fixpoint extend_from_queue (items : list KeyIdPair) (candidate : Candidate) (best : option Best)
  : outcome (Candidate * option Best) :=
  match best, items with
  | Some _, _ | None, [] => Ret (candidate, best)
  | None, item :: items =>
      let headVertex := kid_ item in
      let nlist := list_of headVertex m in
      let orgEdgeCount := getEdgeCount headVertex candidate in
      let maxEdgeCount := Z.of_nat (length (edges_ nlist)) in
      if orgEdgeCount =? maxEdgeCount then extend_from_queue items candidate best else
      let edgeCount := orgEdgeCount + 1 in
      _ ← cassert (edgeCount <=? maxEdgeCount);
      candidate ← setEdgeCount (neigLists_ m) headVertex edgeCount candidate;
      let size := Candidate.size_ candidate in
      let best := if size <=? maxBlockSize then Some (mkBest dzero headVertex edgeCount) else None in
      candidate ← undo headVertex orgEdgeCount candidate;
      if (maxBlockSize <? size) &&
         (negb (orgEdgeCount =? 0) || (maxBlockSize <? u64 (size - (sizeof_VertexId + sizeof_uint32))))
      then Ret (candidate, best)
      else extend_from_queue items candidate best
  end.

(** Whether the candidate cannot be extended any more, and the candidate. *)
Definition extendCandidate (candidate : Candidate) : outcome (bool * Candidate) :=
  let initLocality := locality candidate in
  let orgSize := Candidate.size_ candidate in
  orgMaxTime ← getNewestTime candidate;
  let vertices := presentVertices_ candidate in
  '(candidate, best) ← foldM (extend_present initLocality orgSize orgMaxTime) (candidate, None) vertices;
  '(candidate, best) ←
    match best with
    | None => foldM (extend_one_step initLocality orgSize) (candidate, None) vertices
    | Some _ => Ret (candidate, best)
    end;
  '(candidate, best) ← extend_from_queue (items_ (scoreQueue_ m)) candidate best;
  match best with
  | Some b =>
      _ ← cassert (bestEdgeCount b <=? Z.of_nat (length (edges_ (list_of (bestHeadVertex b) m))));
      candidate ← setEdgeCount (neigLists_ m) (bestHeadVertex b) (bestEdgeCount b) candidate;
      Ret (Candidate.size_ candidate =? maxBlockSize, candidate)
  | None => Ret (true, candidate)
  end.

Definition init_candidate (headVertex : VertexId) : outcome Candidate :=
  nlist ← or_undefined (neigLists_ m !! headVertex);
  let len := Z.of_nat (length (edges_ nlist)) in
  let edgeCount := Z.min len (seedEdgeCount (smartLayoutConf (conf_ m))) in
  _ ← cassert (edgeCount <=? len);
  setEdgeCount (neigLists_ m) headVertex edgeCount new_Candidate.

(** One pass over [candidates]: the ones that stay and the finalized ones. *)
Definition extend_pass (st : list Candidate * list Candidate) (candidate : Candidate)
  : outcome (list Candidate * list Candidate) :=
  let '(candidates, finalized) := st in
  let oldSize := Candidate.size_ candidate in
  '(isDone, candidate) ← extendCandidate candidate;
  if isDone : bool then Ret (candidates, finalized ++ [candidate])
  else
    _ ← cassert (oldSize <? Candidate.size_ candidate);
    Ret (candidates ++ [candidate], finalized).

(** Every pass adds an edge to each candidate that stays, so [fuel] above the
    number of edges is enough. *)
Fixpoint extend_all (fuel : nat) (candidates finalized : list Candidate) : outcome (list Candidate) :=
  match candidates with
  | [] => Ret finalized
  | _ =>
      match fuel with
      | O => Undefined
      | S fuel =>
          '(candidates, finalized) ← foldM extend_pass ([], finalized) candidates;
          extend_all fuel candidates finalized
      end
  end.

(** [bIndex] and [bValue]; [j] is the index of the next candidate. *)
Fixpoint choose_best (finalized : list Candidate) (j bIndex : nat) (bValue : double) : outcome nat :=
  match finalized with
  | [] => Ret bIndex
  | candidate :: finalized =>
      let ls := locality candidate in
      _ ← cassert (dleb dzero ls);
      if dltb bValue ls then choose_best finalized (S j) j ls else choose_best finalized (S j) bIndex bValue
  end.

Definition form_block (candidate : Candidate) (block : Block) : outcome Block :=
  foldM (fun block p =>
    nlist ← or_undefined (neigLists_ m !! p.1);
    foldM (fun block i =>
      edge ← getNth nlist i;
      Block.addEdge p.1 (toVertex_ edge) (tm_ edge) (data_ edge) block) block (seqZ 0 p.2))
    block (numEdges_ candidate).
End Extend.

(** [it] runs over the first [k] items of the queue; reaching its end is
    undefined. *)
Definition getBlockSmart (block : Block) (m : ExpirationMap) : outcome (Block * ExpirationMap) :=
  let k := Z.min (Z.of_nat (size (neigLists_ m))) (initialCandidateCount (smartLayoutConf (conf_ m))) in
  candidates ← foldM (fun candidates j =>
      item ← or_undefined (items_ (scoreQueue_ m) !! Z.to_nat j);
      candidate ← init_candidate m (kid_ item);
      Ret (candidates ++ [candidate])) [] (seqZ 0 k);
  finalized ← extend_all m (S (entries (neigLists_ m))) candidates [];
  bIndex ← choose_best m finalized 0 0 (dopp dunit);
  candidate ← or_undefined (finalized !! bIndex);
  let m := with_stats (BlockStats_update candidate (stats_ m)) m in
  block ← form_block m candidate block;
  Ret (block, m).

(** *** Writing blocks *)

Definition writeBlock (m : ExpirationMap) (histg : G) : outcome (ExpirationMap * G) :=
  '(block, m) ←
    (match layoutMode (conf_ m) with
     | LM_Smart => getBlockSmart (new_block 0) m
     | _ => getBlock (new_block 0) m
     end);
  m ← removeEdges block m;
  _ ← cassert (Z.of_nat (size (neigLists_ m)) =? getSize (scoreQueue_ m));
  histg ← sink_block block histg;
  Ret (m, histg).

Definition addEdge (edge : UEdge) (data : SharedData) (m : ExpirationMap) (histg : G)
  : outcome (ExpirationMap * G) :=
  m ← add_half (v_ edge) (u_ edge) (uedge_tm_ edge) data m;
  m ← add_half (u_ edge) (v_ edge) (uedge_tm_ edge) data m;
  let m := with_size (em_size_ m + 2) m in
  if em_maxSize_ m <? em_size_ m then writeBlock m histg else Ret (m, histg).

(** [while (size_ > 0) writeBlock();]: [None] when [fuel] blocks did not empty
    the map. *)
Fixpoint flush (fuel : nat) (m : ExpirationMap) (histg : G) : option (outcome (ExpirationMap * G)) :=
  if 0 <? em_size_ m then
    match fuel with
    | O => None
    | S fuel =>
        match writeBlock m histg with
        | Ret (m, histg) => flush fuel m histg
        | Throw e => Some (Throw e)
        | AssertFailed => Some AssertFailed
        | Undefined => Some Undefined
        end
    end
  else Some (Ret (m, histg)).
End Expiration.
