(* ===== verification/ExpiredLists.v ===== *)
(** * Well-formed neighbor lists

    The lists of the expiration map when the edges of the graph arrive at
    strictly increasing times and no edge is a loop: every edge is in the lists
    of both its ends unless it was already written with the block of one of
    them, and each list is sorted.  Entries are identified by their two ends
    and their time. *)

From Stdlib Require Import ZArith Lia.
From stdpp Require Import base numbers gmap strings list sorting.
From S2P Require Import Prelude.
From S2P Require Import Double.
From S2P Require Import Schema.
From S2P Require Import AttributeData.
From S2P Require Import NeighborList.
From S2P Require Import Block.
From S2P Require Import BlockContent.

(** ** Entries *)

(** Head vertex, other end and time. *)
Abbreviation Key := (Z * Z * Z)%type.

Definition ekey (v : VertexId) (e : NLEdge) : Key := (v, toVertex_ e, dkey (tm_ e)).

Definition rev_key (x : Key) : Key := let '(v, u, t) := x in (u, v, t).

(** The undirected edge of an entry. *)
Definition und_key (x : Key) : Key := let '(v, u, t) := x in (Z.min v u, Z.max v u, t).

Lemma rev_rev x : rev_key (rev_key x) = x.
Proof. by destruct x as [[v u] t]. Qed.

Lemma und_rev x : und_key (rev_key x) = und_key x.
Proof. destruct x as [[v u] t]. cbn. by rewrite Z.min_comm, Z.max_comm. Qed.

Lemma und_eq x y : und_key x = und_key y -> x = y \/ x = rev_key y.
Proof.
  destruct x as [[v u] t], y as [[v' u'] t']. cbn. intros [= H1 H2 ->].
  assert ((v = v' /\ u = u') \/ (v = u' /\ u = v')) as [[-> ->]|[-> ->]] by lia; auto.
Qed.

(** ** Sorted lists of edges *)

Definition by_time (l : list NLEdge) : Prop := StronglySorted (fun a b => dkey (tm_ a) < dkey (tm_ b)) l.

Lemma by_time_lt l i j a b : by_time l -> l !! i = Some a -> l !! j = Some b ->
  (i < j)%nat <-> dkey (tm_ a) < dkey (tm_ b).
Proof.
  intros Hs. revert i j. unfold by_time in Hs. induction Hs as [|x l Hs IH Hx]; intros i j Ha Hb; [done|].
  rewrite Forall_forall in Hx. destruct i as [|i], j as [|j]; cbn in *; simplify_eq.
  - lia.
  - apply list_elem_of_lookup_2 in Hb. specialize (Hx _ Hb). lia.
  - apply list_elem_of_lookup_2 in Ha. specialize (Hx _ Ha). lia.
  - rewrite <- (IH i j); [lia|done..].
Qed.

Lemma by_time_inj l i j a b : by_time l -> l !! i = Some a -> l !! j = Some b ->
  dkey (tm_ a) = dkey (tm_ b) -> i = j /\ a = b.
Proof.
  intros Hs Ha Hb E. pose proof (by_time_lt l i j a b Hs Ha Hb). pose proof (by_time_lt l j i b a Hs Hb Ha).
  assert (i = j) as -> by lia. split; [done|congruence].
Qed.

Lemma by_time_take l n : by_time l -> by_time (take n l).
Proof.
  intros Hs. unfold by_time in *. rewrite <- (take_drop n l) in Hs. by apply StronglySorted_app_1_l in Hs.
Qed.

Lemma by_time_drop l n : by_time l -> by_time (drop n l).
Proof.
  intros Hs. unfold by_time in *. rewrite <- (take_drop n l) in Hs. by apply StronglySorted_app_1_r in Hs.
Qed.

(** ** The lists of the map *)

Definition entry (L : gmap VertexId NeighborList) (v : VertexId) (e : NLEdge) : Prop :=
  exists nl, L !! v = Some nl /\ e ∈ edges_ nl.

(** [dsize] is the size of the data of an undirected edge. *)
Record lists_ok (dsize : Key -> Z) (L : gmap VertexId NeighborList) : Prop := {
  lo_head v nl : L !! v = Some nl -> headVertex_ nl = v /\ edges_ nl <> [] /\ by_time (edges_ nl);
  lo_edge v e : entry L v e ->
    toVertex_ e <> v /\ num (tm_ e) /\ well_typed (cell (data_ e)) /\
    getSerializedSizeOf (cell (data_ e)) = Ret (dsize (und_key (ekey v e)));
  lo_mirror v e nl o : entry L v e -> L !! toVertex_ e = Some nl -> head (edges_ nl) = Some o ->
    dkey (tm_ o) <= dkey (tm_ e) ->
    exists e', e' ∈ edges_ nl /\ ekey (toVertex_ e) e' = rev_key (ekey v e) /\ data_ e' = data_ e
}.

Lemma empty_lists_ok dsize : lists_ok dsize ∅.
Proof. split; [intros v nl H; by rewrite lookup_empty in H|..]; intros v e; intros; destruct H as (nl0 & H & _); by rewrite lookup_empty in H. Qed.

(** An entry of the other end's list at the time of an entry is its reverse. *)
Lemma mirror_unique dsize L v e nl e' : lists_ok dsize L -> entry L v e -> L !! toVertex_ e = Some nl ->
  e' ∈ edges_ nl -> dkey (tm_ e') = dkey (tm_ e) -> ekey (toVertex_ e) e' = rev_key (ekey v e) /\ data_ e' = data_ e.
Proof.
  intros HL He Hnl Hin Ht. destruct (lo_head _ _ HL _ _ Hnl) as (_ & _ & Hs).
  apply list_elem_of_lookup in Hin as [i Hi].
  destruct (edges_ nl) as [|o es] eqn:E; [done|].
  assert (dkey (tm_ o) <= dkey (tm_ e)) as Ho.
  { destruct i as [|i]; [cbn in Hi; simplify_eq; lia|].
    assert ((o :: es) !! 0%nat = Some o) as H0 by done.
    pose proof (proj1 (by_time_lt _ _ _ _ _ Hs H0 Hi) ltac:(lia)). lia. }
  destruct (lo_mirror _ _ HL v e nl o He Hnl) as (e1 & H1 & H2 & H3); [by rewrite E|done|].
  rewrite E in H1. apply list_elem_of_lookup in H1 as [i1 Hi1].
  destruct (by_time_inj _ i i1 e' e1 Hs Hi Hi1) as [_ ->]; [|done].
  rewrite Ht. unfold ekey, rev_key in H2. by injection H2.
Qed.

(** ** Taking prefixes *)

Definition count_taken (L : gmap VertexId NeighborList) (cnt : VertexId -> nat) (x : Key) : Prop :=
  exists v nl i e, L !! v = Some nl /\ edges_ nl !! i = Some e /\ (i < cnt v)%nat /\ x = ekey v e.

(** An index in a list is determined by the key. *)
Lemma taken_index dsize L cnt v nl i e : lists_ok dsize L -> L !! v = Some nl -> edges_ nl !! i = Some e ->
  count_taken L cnt (ekey v e) <-> (i < cnt v)%nat.
Proof.
  intros HL Hnl Hi. split.
  - intros (v' & nl' & i' & e' & Hnl' & Hi' & Hlt & E). unfold ekey in E. injection E as -> E1 E2.
    rewrite Hnl in Hnl'. injection Hnl' as <-. destruct (lo_head _ _ HL _ _ Hnl) as (_ & _ & Hs).
    destruct (by_time_inj _ i i' e e' Hs Hi Hi' E2) as [-> _]. done.
  - intros Hlt. by exists v, nl, i, e.
Qed.

(** The reverse of an entry is taken when the other list is taken past it. *)
Lemma rev_taken dsize L cnt v e nl : lists_ok dsize L -> entry L v e -> L !! toVertex_ e = Some nl ->
  count_taken L cnt (rev_key (ekey v e)) <->
  exists i e', edges_ nl !! i = Some e' /\ (i < cnt (toVertex_ e))%nat /\ dkey (tm_ e') = dkey (tm_ e).
Proof.
  intros HL He Hnl. split.
  - intros (v' & nl' & i' & e' & Hnl' & Hi' & Hlt & E). unfold ekey, rev_key in E. injection E as <- E1 E2.
    rewrite Hnl in Hnl'. injection Hnl' as <-. by exists i', e'.
  - intros (i' & e' & Hi' & Hlt & Ht). exists (toVertex_ e), nl, i', e'. split_and!; [done..|]. symmetry.
    by apply (mirror_unique dsize L v e nl e'); [| | |eapply list_elem_of_lookup_2|].
Qed.

(** ** Adding an edge *)

(** [neigLists_[v].addEdge(Edge(u, tm, data))] *)
Definition push_half (v u : VertexId) (tm : Timestamp) (data : SharedData) (L : gmap VertexId NeighborList)
  : gmap VertexId NeighborList :=
  <[v := NeighborList.addEdge (mkNLEdge u tm data) (set_headVertex v (default (mkNeighborList 0 []) (L !! v)))]> L.

Definition list_edges (L : gmap VertexId NeighborList) (v : VertexId) : list NLEdge :=
  match L !! v with Some nl => edges_ nl | None => [] end.

Lemma entry_list L v e : entry L v e <-> e ∈ list_edges L v.
Proof.
  unfold entry, list_edges. split.
  - by intros (nl & -> & H).
  - intros H. destruct (L !! v) as [nl|]; [by exists nl|set_solver].
Qed.

Lemma push_half_edges v u tm d L w :
  list_edges (push_half v u tm d L) w = if decide (w = v) then list_edges L v ++ [mkNLEdge u tm d] else list_edges L w.
Proof.
  unfold list_edges, push_half. case_decide as E.
  - subst. rewrite lookup_insert_eq. cbn. by destruct (L !! v).
  - by rewrite lookup_insert_ne.
Qed.

Lemma push_half_is_Some v u tm d L w : is_Some (push_half v u tm d L !! w) <-> w = v \/ is_Some (L !! w).
Proof.
  unfold push_half. destruct (decide (w = v)) as [->|]; [rewrite lookup_insert_eq|rewrite lookup_insert_ne by done].
  - split; [by left|]. intros _. eauto.
  - split; [by right|]. intros [?|?]; [done|done].
Qed.

Lemma lookup_list_edges L v nl : L !! v = Some nl -> list_edges L v = edges_ nl.
Proof. unfold list_edges. by intros ->. Qed.

Lemma by_time_snoc l e : by_time l -> Forall (fun x => dkey (tm_ x) < dkey (tm_ e)) l -> by_time (l ++ [e]).
Proof.
  unfold by_time. induction 1 as [|x l Hs IH Hx]; intros Hf; cbn; [repeat constructor|].
  apply Forall_cons in Hf as [Hxe Hf]. constructor; [auto|]. apply Forall_app. split; [done|by constructor].
Qed.

(** The lists stay well formed when an edge that is newer than all of them is
    added to the lists of both its ends. *)
Lemma push_ok dsize L v u tm d :
  lists_ok dsize L -> v <> u -> num tm -> well_typed (cell d) ->
  getSerializedSizeOf (cell d) = Ret (dsize (und_key (v, u, dkey tm))) ->
  (forall w e, entry L w e -> dkey (tm_ e) < dkey tm) ->
  lists_ok dsize (push_half u v tm d (push_half v u tm d L)).
Proof.
  intros HL Hvu Hnum Hwt Hsize Hold. set (L' := push_half u v tm d (push_half v u tm d L)).
  assert (forall w, list_edges L' w = list_edges L w ++
    (if decide (w = v) then [mkNLEdge u tm d] else if decide (w = u) then [mkNLEdge v tm d] else [])) as HE.
  { intros w. unfold L'. rewrite !push_half_edges. repeat case_decide; subst; try done. by rewrite app_nil_r. }
  assert (forall w e, entry L' w e <-> entry L w e \/ (w = v /\ e = mkNLEdge u tm d) \/ (w = u /\ e = mkNLEdge v tm d)) as Hent.
  { intros w e. rewrite !entry_list, HE, elem_of_app. repeat case_decide; set_solver. }
  split.
  - intros w nl Hw. pose proof (HE w) as Ew. rewrite (lookup_list_edges _ _ _ Hw) in Ew. split_and!.
    + unfold L', push_half in Hw. destruct (decide (w = u)) as [->|]; [rewrite lookup_insert_eq in Hw; by injection Hw as <-|].
      rewrite lookup_insert_ne in Hw by done.
      destruct (decide (w = v)) as [->|]; [rewrite lookup_insert_eq in Hw; by injection Hw as <-|].
      rewrite lookup_insert_ne in Hw by done. by destruct (lo_head _ _ HL _ _ Hw).
    + rewrite Ew. intros E0. apply app_eq_nil in E0 as [E0 E1].
      assert (w <> v /\ w <> u) as [Hwv Hwu] by (repeat case_decide; try done).
      unfold L', push_half in Hw. rewrite !lookup_insert_ne in Hw by done.
      destruct (lo_head _ _ HL _ _ Hw) as (_ & Hne & _). by rewrite (lookup_list_edges _ _ _ Hw) in E0.
    + rewrite Ew. assert (by_time (list_edges L w)) as Hs.
      { unfold list_edges. destruct (L !! w) as [nl0|] eqn:E; [|constructor]. by destruct (lo_head _ _ HL _ _ E) as (_ & _ & ?). }
      assert (Forall (fun x => dkey (tm_ x) < dkey tm) (list_edges L w)) as Hf.
      { apply Forall_forall. intros x Hx. apply (Hold w). by apply entry_list. }
      repeat case_decide; [by apply by_time_snoc..|by rewrite app_nil_r].
  - intros w e. rewrite Hent. intros [He|[[-> ->]|[-> ->]]]; [by apply (lo_edge _ _ HL)|split_and!; cbn; auto..].
    rewrite Hsize. do 2 f_equal. cbn. by rewrite Z.min_comm, Z.max_comm.
  - intros w e nl o He Hnl Ho Hle. pose proof (HE (toVertex_ e)) as Et. rewrite (lookup_list_edges _ _ _ Hnl) in Et.
    rewrite Hent in He. destruct He as [He|[[-> ->]|[-> ->]]].
    + destruct (L !! toVertex_ e) as [nl0|] eqn:E0.
      * destruct (lo_head _ _ HL _ _ E0) as (_ & Hne & _). rewrite (lookup_list_edges _ _ _ E0) in Et.
        assert (head (edges_ nl0) = Some o) as Ho'.
        { rewrite Et in Ho. by destruct (edges_ nl0). }
        destruct (lo_mirror _ _ HL _ _ _ _ He E0 Ho' Hle) as (e' & Hin & R). exists e'. split; [|done].
        rewrite Et. apply elem_of_app. by left.
      * assert (list_edges L (toVertex_ e) = []) as E1 by (unfold list_edges; by rewrite E0).
        rewrite Et, E1 in Ho. pose proof (Hold _ _ He). repeat case_decide; cbn in Ho; simplify_eq; cbn in *; lia.
    + cbn in *. exists (mkNLEdge v tm d). split; [|done]. rewrite Et. rewrite decide_False, decide_True by done. set_solver.
    + cbn in *. exists (mkNLEdge u tm d). split; [|done]. rewrite Et. rewrite decide_True by done. set_solver.
Qed.

(** ** All entries *)

(** The entries in the first [cnt v] places of every list. *)
Definition taken (L : gmap VertexId NeighborList) (cnt : VertexId -> nat) : gset Key :=
  list_to_set (map_to_list L ≫= fun p => ekey p.1 <$> take (cnt p.1) (edges_ p.2)).

Definition all_entries (L : gmap VertexId NeighborList) : gset Key :=
  list_to_set (map_to_list L ≫= fun p => ekey p.1 <$> edges_ p.2).

Lemma elem_of_taken L cnt x : x ∈ taken L cnt <-> count_taken L cnt x.
Proof.
  unfold taken, count_taken. rewrite elem_of_list_to_set, list_elem_of_bind. split.
  - intros ([v nl] & Hx & Hin). apply elem_of_map_to_list in Hin. apply list_elem_of_fmap in Hx as (e & -> & He).
    apply list_elem_of_lookup in He as [i Hi]. cbn in *. apply lookup_take_Some in Hi as [Hi Hlt].
    by exists v, nl, i, e.
  - intros (v & nl & i & e & Hnl & Hi & Hlt & ->). exists (v, nl). split; [|by apply elem_of_map_to_list].
    cbn. apply list_elem_of_fmap. exists e. split; [done|]. apply list_elem_of_lookup. exists i.
    by apply lookup_take_Some.
Qed.

Lemma elem_of_all L v e : entry L v e -> ekey v e ∈ all_entries L.
Proof.
  intros (nl & Hnl & He). unfold all_entries. rewrite elem_of_list_to_set, list_elem_of_bind.
  exists (v, nl). split; [|by apply elem_of_map_to_list]. cbn. apply list_elem_of_fmap. by exists e.
Qed.

(** Checking that all entries are older than a time, on concrete lists. *)
Definition older (L : gmap VertexId NeighborList) (tm : Timestamp) : bool :=
  forallb (fun p => forallb (fun e => dkey (tm_ e) <? dkey tm) (edges_ p.2)) (map_to_list L).

Lemma older_than L tm : older L tm = true -> forall w e, entry L w e -> dkey (tm_ e) < dkey tm.
Proof.
  unfold older. rewrite forallb_forall. intros H w e (nl & Hnl & He).
  apply elem_of_map_to_list, list_elem_of_In in Hnl. specialize (H _ Hnl). cbn in H.
  rewrite forallb_forall in H. apply list_elem_of_In in He. by apply Z.ltb_lt, H.
Qed.
