(* ===== verification/CandidateCounts.v ===== *)
(** * The counts of a candidate

    A candidate stands for the set of entries it took.  Its counters are
    functions of that set, whatever the sequence of [setEdgeCount] calls that
    led to it, and no assertion of [setEdgeCount] fails. *)

From Stdlib Require Import ZArith Lia.
From stdpp Require Import base numbers gmap strings list sorting.
From S2P Require Import Prelude.
From S2P Require Import Double.
From S2P Require Import Schema.
From S2P Require Import AttributeData.
From S2P Require Import NeighborList.
From S2P Require Import PriorityQueue.
From S2P Require Import Block.
From S2P Require Import BlockContent.
From S2P Require Import Candidate.
From S2P Require Import ExpiredLists.

(** ** Counting over sets of entries *)

(** Entries whose reverse is not in the set. *)
Definition dangling (T : gset Key) : gset Key := filter (fun x => rev_key x ∉ T) T.

(** The data of every undirected edge counts once. *)
Definition data_total (dsize : Key -> Z) (T : gset Key) : Z :=
  set_fold (fun x n => dsize x + n) 0 (set_map und_key T : gset Key).

Lemma data_total_add (dsize : Key -> Z) (T : gset Key) x : x ∉ T ->
  data_total dsize ({[x]} ∪ T) = (if decide (rev_key x ∈ T) then 0 else dsize (und_key x)) + data_total dsize T.
Proof.
  intros Hx. unfold data_total. rewrite set_map_union_L, set_map_singleton_L. case_decide as Hr.
  - rewrite Z.add_0_l. f_equal. apply set_eq. intros y. rewrite elem_of_union, elem_of_singleton.
    split; [intros [->|?]; [|done]|by right]. apply elem_of_map. exists (rev_key x). by rewrite und_rev.
  - rewrite union_comm_L, (set_fold_disj_union_strong (=)).
    + by rewrite set_fold_singleton.
    + intros x1. solve_proper.
    + intros x1 x2 b _ _ _. lia.
    + apply disjoint_singleton_r. rewrite elem_of_map. intros (y & E & Hy).
      apply und_eq in E as [->| ->]; [done|]. by rewrite rev_rev in Hr.
Qed.

Lemma dangling_add (T : gset Key) x : x ∉ T -> rev_key x <> x ->
  Z.of_nat (size (dangling ({[x]} ∪ T))) =
    Z.of_nat (size (dangling T)) + (if decide (rev_key x ∈ T) then -1 else 1).
Proof.
  intros Hx Hne. case_decide as Hr.
  - assert (rev_key x ∈ dangling T) as Hd by (apply elem_of_filter; by rewrite rev_rev).
    assert (dangling ({[x]} ∪ T) = dangling T ∖ {[rev_key x]}) as ->.
    { apply set_eq. intros y. unfold dangling.
      rewrite elem_of_filter, elem_of_difference, elem_of_filter, not_elem_of_union, elem_of_union, !elem_of_singleton.
      split.
      - intros [[H1 H2] [->|H3]]; [done|]. split_and!; [done|done|]. intros ->. by rewrite rev_rev in H1.
      - intros [[H1 H2] H3]. split_and!; [|done|by right]. intros E. apply H3. by rewrite <- E, rev_rev. }
    rewrite size_difference by set_solver. rewrite size_singleton.
    assert (size (dangling T) <> 0%nat); [|lia]. intros E. apply size_empty_inv in E. set_solver.
  - assert (dangling ({[x]} ∪ T) = {[x]} ∪ dangling T) as ->.
    { apply set_eq. intros y. unfold dangling.
      rewrite elem_of_filter, !elem_of_union, elem_of_filter, !elem_of_singleton.
      split.
      - intros [H1 [->|H3]]; [by left|right]. split; [|done]. intros H2. apply H1. by right.
      - intros [->|[H1 H2]]; (split; [|tauto]); intros [E|E]; try done.
        apply Hr. by rewrite <- E, rev_rev. }
    rewrite size_union, size_singleton; [lia|]. unfold dangling. set_solver.
Qed.

Lemma dangling_le (T : gset Key) : (size (dangling T) <= size T)%nat.
Proof. apply subseteq_size. intros x Hx. by apply elem_of_filter in Hx as [_ Hx]. Qed.

(** ** The invariant *)

Section Counts.
Context (dsize : Key -> Z) (L : gmap VertexId NeighborList).
Context (HL : lists_ok dsize L).
(** The entries of all lists; their number is a [size_t]. *)
Context (All : gset Key) (Hall : forall v e, entry L v e -> ekey v e ∈ All) (Hsmall : is_u64 (Z.of_nat (size All))).

Record tracks (cnt : VertexId -> nat) (T : gset Key) : Prop := {
  tr_taken x : x ∈ T <-> count_taken L cnt x;
  tr_range v : (0 < cnt v)%nat -> exists nl, L !! v = Some nl /\ (cnt v <= length (edges_ nl))%nat
}.

Record counters (heads : Z) (T : gset Key) (c : Candidate) : Prop := {
  ct_edges : edgeCount_ c = Z.of_nat (size T);
  ct_out : outEdgeCount_ c = Z.of_nat (size (dangling T));
  ct_size : size_ c = u64 (8 + 12 * heads + 16 * Z.of_nat (size T) + data_total dsize T)
}.

(** [numEdges_] gives the counts. *)
Definition counts_of (c : Candidate) (cnt : VertexId -> nat) : Prop :=
  forall v, assoc_find v (numEdges_ c) = if decide (cnt v = 0%nat) then None else Some (Z.of_nat (cnt v)).

Lemma tracks_small cnt T : tracks cnt T -> is_u64 (Z.of_nat (size T)).
Proof.
  intros HT. assert (T ⊆ All) as Hs; [|apply subseteq_size in Hs; lia].
  intros x Hx. apply (tr_taken _ _ HT) in Hx as (v & nl & i & e & Hnl & Hi & _ & ->).
  apply Hall. exists nl. split; [done|]. by eapply list_elem_of_lookup_2.
Qed.

Lemma scan_back_ok nl h t i e' : by_time (edges_ nl) -> edges_ nl !! i = Some e' -> toVertex_ e' = h ->
  deqb t (tm_ e') = true -> scan_back nl h t i = Ret true.
Proof. clear All Hall Hsmall.
  intros Hs Hi Hto Ht. destruct i; cbn [scan_back]; unfold getNthOldestEdge; rewrite Hi;
    cbn [or_undefined mbind outcome_bind]; rewrite Ht, Hto, Z.eqb_refl; done.
Qed.

Lemma scan_back_miss nl h t i o : edges_ nl !! i = Some o -> deqb t (tm_ o) = false ->
  scan_back nl h t i = Ret false.
Proof. clear All Hall Hsmall.
  intros Hi Ht. destruct i; cbn [scan_back]; unfold getNthOldestEdge; rewrite Hi;
    cbn [or_undefined mbind outcome_bind]; by rewrite Ht.
Qed.

Lemma getNth_ok nl i e : edges_ nl !! i = Some e -> getNth nl (Z.of_nat i) = Ret e.
Proof. clear All Hall Hsmall.
  intros Hi. unfold getNth, getNthOldestEdge. apply lookup_lt_Some in Hi as Hlt.
  destruct (Z.ltb_spec (Z.of_nat i) (Z.of_nat (length (edges_ nl)))); [|lia]. by rewrite Nat2Z.id, Hi.
Qed.

Lemma list_size_small v nl : L !! v = Some nl -> (Z.of_nat (length (edges_ nl)) < 2 ^ 64).
Proof.
  intros Hnl. destruct (lo_head _ _ HL _ _ Hnl) as (_ & _ & Hs).
  assert (size (list_to_set (ekey v <$> edges_ nl) : gset Key) = length (edges_ nl)) as E.
  { rewrite size_list_to_set, length_fmap; [done|]. apply NoDup_alt. intros i j x.
    rewrite !list_lookup_fmap, !fmap_Some. intros (a & Ha & ->) (b & Hb & E). unfold ekey in E.
    by eapply (by_time_inj _ i j a b Hs Ha Hb); injection E. }
  assert ((list_to_set (ekey v <$> edges_ nl) : gset Key) ⊆ All) as Hs'.
  { intros x. rewrite elem_of_list_to_set, list_elem_of_fmap. intros (e & -> & He). apply Hall. by exists nl. }
  apply subseteq_size in Hs'. lia.
Qed.

(** [hasReverseEdge] decides whether the reverse entry was taken.  The entry
    itself may be among the taken ones or not. *)
Lemma hasReverseEdge_ok c cnt T h e :
  tracks cnt T -> entry L h e ->
  assoc_find (toVertex_ e) (numEdges_ c) =
    (if decide (cnt (toVertex_ e) = 0%nat) then None else Some (Z.of_nat (cnt (toVertex_ e)))) ->
  hasReverseEdge L h e c = Ret (bool_decide (rev_key (ekey h e) ∈ T)).
Proof.
  intros HT He Hc. unfold hasReverseEdge. rewrite Hc. destruct (lo_edge _ _ HL _ _ He) as (_ & Hn & _).
  case_decide as H0.
  { rewrite bool_decide_false; [done|]. rewrite (tr_taken _ _ HT). intros (v & nl & i & e' & _ & _ & Hlt & E).
    unfold ekey, rev_key in E. injection E as <- _ _. lia. }
  destruct (tr_range _ _ HT (toVertex_ e)) as (nl & Hnl & Hlen); [lia|].
  pose proof (rev_taken dsize L cnt h e nl HL He Hnl) as Hrev. rewrite <- (tr_taken _ _ HT) in Hrev.
  destruct (lo_head _ _ HL _ _ Hnl) as (_ & Hne & Hs).
  assert (forall i x, edges_ nl !! i = Some x -> num (tm_ x)) as Hnum.
  { intros i x Hi. apply (lo_edge _ _ HL (toVertex_ e) x). exists nl. split; [done|]. by eapply list_elem_of_lookup_2. }
  pose proof (list_size_small _ _ Hnl) as Hsz.
  rewrite Hnl. cbn [or_undefined mbind outcome_bind].
  replace (u64 (Z.of_nat (cnt (toVertex_ e)) - 1)) with (Z.of_nat (pred (cnt (toVertex_ e)))) by (rewrite u64_id; lia).
  set (k := pred (cnt (toVertex_ e))) in *.
  destruct (lookup_lt_is_Some_2 (edges_ nl) k) as [oe Hoe]; [lia|].
  destruct (edges_ nl) as [|o es] eqn:Ees; [done|].
  unfold getOldestEdge. rewrite Ees. cbn [head or_undefined mbind outcome_bind].
  rewrite <- Ees in Hoe, Hs. rewrite (getNth_ok nl k oe Hoe). cbn [mbind outcome_bind].
  assert (edges_ nl !! 0%nat = Some o) as Ho by (by rewrite Ees). rewrite <- Ees in Hnum, Hrev.
  rewrite dleb_num, dltb_num by eauto. rewrite Nat2Z.id.
  destruct (Z.leb_spec (dkey (tm_ o)) (dkey (tm_ e))) as [Hle|Hgt].
  - destruct (lo_mirror _ _ HL h e nl o He Hnl) as (e' & Hin & Ek & _); [by rewrite Ees|done|].
    unfold ekey, rev_key in Ek. injection Ek as Eto Et. apply list_elem_of_lookup in Hin as [i' Hi'].
    pose proof (by_time_lt _ i' k e' oe Hs Hi' Hoe) as Hlt.
    destruct (Z.ltb_spec (dkey (tm_ e)) (dkey (tm_ oe))) as [Hl|Hg].
    + rewrite bool_decide_true; [done|]. apply Hrev. exists i', e'. split_and!; [done|lia|done].
    + destruct (decide (dkey (tm_ e) = dkey (tm_ oe))) as [Eq|Nq].
      * destruct (by_time_inj _ i' k e' oe Hs Hi' Hoe) as [-> ->]; [lia|].
        rewrite (scan_back_ok nl h (tm_ e) k oe); [|done..|].
        { rewrite bool_decide_true; [done|]. apply Hrev. exists k, oe. split_and!; [done|lia|done]. }
        rewrite deqb_num by eauto. apply Z.eqb_eq. lia.
      * rewrite (scan_back_miss nl h (tm_ e) k oe); [|done|].
        { rewrite bool_decide_false; [done|]. rewrite Hrev. intros (i & x & Hi & Hik & Ex).
          destruct (by_time_inj _ i i' x e' Hs Hi Hi') as [-> ->]; [lia|].
          pose proof (by_time_lt _ k i' oe e' Hs Hoe Hi'). lia. }
        rewrite deqb_num by eauto. apply Z.eqb_neq. lia.
  - rewrite bool_decide_false; [done|]. rewrite Hrev. intros (i & x & Hi & Hik & Ex).
    destruct i as [|i]; [rewrite Ho in Hi; simplify_eq; lia|].
    pose proof (proj1 (by_time_lt _ _ _ _ _ Hs Ho Hi) ltac:(lia)). lia.
Qed.

(** ** One entry more or less *)

Definition upd (cnt : VertexId -> nat) (h : VertexId) (n : nat) : VertexId -> nat :=
  fun v => if decide (v = h) then n else cnt v.

Lemma tracks_add cnt T h nl j e : tracks cnt T -> L !! h = Some nl -> edges_ nl !! j = Some e -> cnt h = j ->
  tracks (upd cnt h (S j)) ({[ekey h e]} ∪ T) /\ ekey h e ∉ T.
Proof. clear All Hall Hsmall.
  intros HT Hnl Hj Hcnt. pose proof (lookup_lt_Some _ _ _ Hj) as Hlt. split; [split|].
  - intros x. rewrite elem_of_union, elem_of_singleton, (tr_taken _ _ HT). unfold upd. split.
    + intros [->|(v & nl' & i & e' & H1 & H2 & H3 & ->)].
      * exists h, nl, j, e. rewrite decide_True by done. split_and!; try done. lia.
      * exists v, nl', i, e'. split_and!; try done. case_decide; [|done]. subst. lia.
    + intros (v & nl' & i & e' & H1 & H2 & H3 & ->). case_decide as Ev.
      * subst v. rewrite Hnl in H1. injection H1 as <-. destruct (decide (i = j)) as [->|].
        -- rewrite Hj in H2. injection H2 as ->. by left.
        -- right. exists h, nl, i, e'. split_and!; try done. lia.
      * right. by exists v, nl', i, e'.
  - intros v Hv. unfold upd in *. case_decide; [|by apply (tr_range _ _ HT)]. subst. by exists nl.
  - rewrite (tr_taken _ _ HT), (taken_index dsize L cnt h nl j e) by done. lia.
Qed.

Lemma tracks_sub cnt T h nl j e : tracks (upd cnt h (S j)) T -> L !! h = Some nl -> edges_ nl !! j = Some e ->
  exists T', T = {[ekey h e]} ∪ T' /\ ekey h e ∉ T' /\ tracks (upd cnt h j) T'.
Proof. clear All Hall Hsmall.
  intros HT Hnl Hj. pose proof (lookup_lt_Some _ _ _ Hj) as Hlt.
  assert (ekey h e ∈ T) as Hin.
  { rewrite (tr_taken _ _ HT), (taken_index dsize L _ h nl j e) by done. unfold upd. rewrite decide_True by done. lia. }
  exists (T ∖ {[ekey h e]}). split_and!.
  - apply set_eq. intros x. rewrite elem_of_union, elem_of_difference, elem_of_singleton.
    destruct (decide (x = ekey h e)) as [->|]; tauto.
  - set_solver.
  - split.
    + intros x. rewrite elem_of_difference, elem_of_singleton, (tr_taken _ _ HT). unfold upd. split.
      * intros [(v & nl' & i & e' & H1 & H2 & H3 & ->) Hne]. exists v, nl', i, e'. split_and!; try done.
        case_decide; [|done]. subst. rewrite Hnl in H1. injection H1 as <-.
        destruct (decide (i = j)) as [->|]; [|lia]. rewrite Hj in H2. by injection H2 as ->.
      * intros (v & nl' & i & e' & H1 & H2 & H3 & ->). split.
        -- exists v, nl', i, e'. split_and!; try done. case_decide; [lia|done].
        -- intros E. unfold ekey in E. injection E as -> E1 E2. rewrite decide_True in H3 by done.
           rewrite Hnl in H1. injection H1 as <-. destruct (lo_head _ _ HL _ _ Hnl) as (_ & _ & Hs).
           destruct (by_time_inj _ i j e' e Hs H2 Hj E2) as [-> _]. lia.
    + intros v Hv. unfold upd in *. case_decide as Ev.
      * subst. exists nl. split; [done|lia].
      * destruct (tr_range _ _ HT v) as (nl' & H1 & H2); [by rewrite decide_False by done|].
        rewrite decide_False in H2 by done. by exists nl'.
Qed.

Lemma tracks_ext cnt cnt' T : (forall v, cnt v = cnt' v) -> tracks cnt T -> tracks cnt' T.
Proof. clear All Hall Hsmall.
  intros E [H1 H2]. split.
  - intros x. rewrite H1. unfold count_taken. split; intros (v & nl & i & e & ? & ? & ? & ?);
      exists v, nl, i, e; specialize (E v); split_and!; try done; lia.
  - intros v. rewrite <- E. apply H2.
Qed.

Lemma upd_upd cnt h a b v : upd (upd cnt h a) h b v = upd cnt h b v.
Proof. clear All Hall Hsmall. unfold upd. by case_decide. Qed.

(** What the loops leave alone. *)
Definition same_lists (c c' : Candidate) : Prop := numEdges_ c' = numEdges_ c /\ timestamps_ c' = timestamps_ c.

Section Loop.
Context (cnt : VertexId -> nat) (h : VertexId) (nl : NeighborList) (Hnl : L !! h = Some nl) (heads : Z).

Lemma reverse_found c T k j e : tracks (upd cnt h k) T -> counts_of c cnt -> edges_ nl !! j = Some e ->
  hasReverseEdge L h e c = Ret (bool_decide (rev_key (ekey h e) ∈ T)).
Proof.
  intros HT Hc Hj. assert (entry L h e) as He by (exists nl; split; [done|by eapply list_elem_of_lookup_2]).
  apply (hasReverseEdge_ok c (upd cnt h k) T); [done|done|].
  destruct (lo_edge _ _ HL _ _ He) as (Hne & _). assert (upd cnt h k (toVertex_ e) = cnt (toVertex_ e)) as -> by (unfold upd; by rewrite decide_False). apply Hc.
Qed.

Lemma rev_key_ne j e : edges_ nl !! j = Some e -> rev_key (ekey h e) <> ekey h e.
Proof.
  intros Hj E. assert (entry L h e) as He by (exists nl; split; [done|by eapply list_elem_of_lookup_2]).
  destruct (lo_edge _ _ HL _ _ He) as (Hne & _). unfold ekey, rev_key in E. by injection E.
Qed.

Lemma add_nth_ok c T j : tracks (upd cnt h j) T -> counters heads T c -> counts_of c cnt ->
  (j < length (edges_ nl))%nat ->
  exists c' T', add_nth L h nl c (Z.of_nat j) = Ret c' /\ tracks (upd cnt h (S j)) T' /\
    counters heads T' c' /\ same_lists c c'.
Proof.
  intros HT [H1 H2 H3] Hc Hlt. destruct (lookup_lt_is_Some_2 _ _ Hlt) as [e Hj].
  assert (upd cnt h j h = j) as Hj' by (unfold upd; by rewrite decide_True).
  destruct (tracks_add (upd cnt h j) T h nl j e HT Hnl Hj Hj') as [HT' Hnew].
  apply (tracks_ext _ (upd cnt h (S j))) in HT'; [|apply upd_upd].
  pose proof (tracks_small _ _ HT) as Hs. pose proof (tracks_small _ _ HT') as Hs'.
  pose proof (dangling_le ({[ekey h e]} ∪ T)) as Hd. pose proof (rev_key_ne j e Hj) as Hrev.
  pose proof (dangling_add T (ekey h e) Hnew Hrev) as Hda. pose proof (data_total_add dsize T (ekey h e) Hnew) as Hdt.
  assert (entry L h e) as He by (exists nl; split; [done|by eapply list_elem_of_lookup_2]).
  destruct (lo_edge _ _ HL _ _ He) as (_ & _ & _ & Hsize).
  assert (Z.of_nat (size ({[ekey h e]} ∪ T)) = Z.of_nat (size T) + 1) as Hsz
    by (rewrite size_union, size_singleton by set_solver; lia).
  unfold add_nth. rewrite (getNth_ok nl j e Hj). cbn [mbind outcome_bind].
  rewrite (reverse_found _ T j j e) by done. cbn [mbind outcome_bind].
  case_bool_decide as Hr.
  - rewrite decide_True in Hda, Hdt by done. cbn [outEdgeCount_ with_size with_present]. rewrite H2.
    destruct (Z.ltb_spec 0 (Z.of_nat (size (dangling T)))); [|lia]. cbn [cassert mbind outcome_bind].
    eexists _, _. split; [reflexivity|]. split; [exact HT'|]. split; [|by split]. split; cbn.
    + rewrite H1, Hsz, u64_id; lia.
    + rewrite H2, u64_id; lia.
    + rewrite H3, u64_add_l, Hdt, Hsz. f_equal. unfold sizeof_VertexId, sizeof_Timestamp. lia.
  - rewrite decide_False in Hda, Hdt by done. cbn [mbind outcome_bind]. rewrite Hsize. cbn [mbind outcome_bind].
    eexists _, _. split; [reflexivity|]. split; [exact HT'|]. split; [|by split]. split; cbn.
    + rewrite H1, Hsz, u64_id; lia.
    + rewrite H2, u64_id; lia.
    + rewrite u64_add_l, H3, <- Z.add_assoc, u64_add_l, Hdt, Hsz. f_equal. unfold sizeof_VertexId, sizeof_Timestamp. cbn. lia.
Qed.

Lemma remove_nth_ok c T j : tracks (upd cnt h (S j)) T -> counters heads T c -> counts_of c cnt ->
  (j < length (edges_ nl))%nat ->
  exists c' T', remove_nth L h nl c (Z.of_nat j) = Ret c' /\ tracks (upd cnt h j) T' /\
    counters heads T' c' /\ same_lists c c'.
Proof.
  intros HT [H1 H2 H3] Hc Hlt. destruct (lookup_lt_is_Some_2 _ _ Hlt) as [e Hj].
  destruct (tracks_sub cnt T h nl j e HT Hnl Hj) as (T' & -> & Hnew & HT').
  pose proof (tracks_small _ _ HT) as Hs. pose proof (tracks_small _ _ HT') as Hs'.
  pose proof (dangling_le T') as Hd. pose proof (dangling_le ({[ekey h e]} ∪ T')) as Hd'.
  pose proof (rev_key_ne j e Hj) as Hrev.
  pose proof (dangling_add T' (ekey h e) Hnew Hrev) as Hda. pose proof (data_total_add dsize T' (ekey h e) Hnew) as Hdt.
  assert (entry L h e) as He by (exists nl; split; [done|by eapply list_elem_of_lookup_2]).
  destruct (lo_edge _ _ HL _ _ He) as (_ & _ & _ & Hsize).
  assert (Z.of_nat (size ({[ekey h e]} ∪ T')) = Z.of_nat (size T') + 1) as Hsz
    by (rewrite size_union, size_singleton by set_solver; lia).
  unfold remove_nth. rewrite (getNth_ok nl j e Hj). cbn [mbind outcome_bind].
  rewrite (reverse_found _ ({[ekey h e]} ∪ T') (S j) j e) by done. cbn [mbind outcome_bind].
  rewrite (bool_decide_ext _ (rev_key (ekey h e) ∈ T')) by (rewrite elem_of_union, elem_of_singleton; tauto).
  case_bool_decide as Hr.
  - rewrite decide_True in Hda, Hdt by done.
    eexists _, _. split; [reflexivity|]. split; [exact HT'|]. split; [|by split]. split; cbn.
    + rewrite H1, Hsz, u64_id; lia.
    + rewrite H2, u64_id; lia.
    + rewrite H3, u64_sub_l, Hdt, Hsz. f_equal. unfold sizeof_VertexId, sizeof_Timestamp. lia.
  - rewrite decide_False in Hda, Hdt by done. cbn [outEdgeCount_ with_size with_present]. rewrite H2.
    destruct (Z.ltb_spec 0 (Z.of_nat (size (dangling ({[ekey h e]} ∪ T'))))); [|lia]. cbn [cassert mbind outcome_bind].
    rewrite Hsize. cbn [mbind outcome_bind].
    eexists _, _. split; [reflexivity|]. split; [exact HT'|]. split; [|by split]. split; cbn.
    + rewrite H1, Hsz, u64_id; lia.
    + rewrite u64_id; lia.
    + rewrite u64_sub_l, H3, <- Z.sub_add_distr, u64_sub_l, Hdt, Hsz. f_equal. unfold sizeof_VertexId, sizeof_Timestamp. cbn. lia.
Qed.

Lemma add_loop_ok n : forall c T j, tracks (upd cnt h j) T -> counters heads T c -> counts_of c cnt ->
  (j + n <= length (edges_ nl))%nat ->
  exists c' T', foldM (add_nth L h nl) c (seqZ (Z.of_nat j) (Z.of_nat n)) = Ret c' /\
    tracks (upd cnt h (j + n)) T' /\ counters heads T' c' /\ same_lists c c'.
Proof.
  induction n as [|n IH]; intros c T j HT Hct Hc Hlen.
  - exists c, T. rewrite Nat.add_0_r. by split_and!.
  - rewrite seqZ_cons by lia. cbn [foldM].
    destruct (add_nth_ok c T j HT Hct Hc) as (c1 & T1 & -> & HT1 & Hct1 & Hs1); [lia|]. cbn [mbind outcome_bind].
    destruct (IH c1 T1 (S j) HT1 Hct1) as (c' & T' & E & HT' & Hct' & Hs').
    + intros v. destruct Hs1 as [-> _]. apply Hc.
    + lia.
    + exists c', T'. replace (Z.succ (Z.of_nat j)) with (Z.of_nat (S j)) by lia.
      replace (Z.pred (Z.of_nat (S n))) with (Z.of_nat n) by lia.
      replace (j + S n)%nat with (S j + n)%nat by lia. split_and!; [done..|].
      unfold same_lists in *. intuition congruence.
Qed.

Lemma remove_loop_ok n : forall c T j, tracks (upd cnt h (j + n)) T -> counters heads T c -> counts_of c cnt ->
  (j + n <= length (edges_ nl))%nat ->
  exists c' T', foldM (remove_nth L h nl) c (reverse (seqZ (Z.of_nat j) (Z.of_nat n))) = Ret c' /\
    tracks (upd cnt h j) T' /\ counters heads T' c' /\ same_lists c c'.
Proof.
  induction n as [|n IH]; intros c T j HT Hct Hc Hlen.
  - exists c, T. rewrite Nat.add_0_r in HT. by split_and!.
  - replace (Z.of_nat (S n)) with (Z.of_nat n + 1) by lia. rewrite seqZ_app by lia.
    rewrite reverse_app. cbn [seqZ]. change (seqZ (Z.of_nat j + Z.of_nat n) 1) with [0 + (Z.of_nat j + Z.of_nat n)].
    rewrite reverse_singleton. cbn [app foldM].
    replace (0 + (Z.of_nat j + Z.of_nat n)) with (Z.of_nat (j + n)) by lia.
    destruct (remove_nth_ok c T (j + n)) as (c1 & T1 & -> & HT1 & Hct1 & Hs1); [|done|done|lia|].
    { by replace (S (j + n)) with (j + S n)%nat by lia. }
    cbn [mbind outcome_bind]. destruct (IH c1 T1 j HT1 Hct1) as (c' & T' & E & HT' & Hct' & Hs').
    + intros v. destruct Hs1 as [-> _]. apply Hc.
    + lia.
    + exists c', T'. split_and!; [done..|]. unfold same_lists in *. intuition congruence.
Qed.
End Loop.

(** ** The whole invariant *)

Record counted (c : Candidate) (cnt : VertexId -> nat) : Prop := {
  cd_NoDup : NoDup (numEdges_ c).*1;
  cd_counts : counts_of c cnt;
  cd_taken : exists T, tracks cnt T /\ counters (Z.of_nat (length (numEdges_ c))) T c;
  cd_queue : pq_ok MaxAtTop (timestamps_ c);
  cd_times v : (dkey ∘ key_) <$> index_ (timestamps_ c) !! v =
    if decide (cnt v = 0%nat) then None
    else (dkey ∘ tm_) <$> (L !! v ≫= fun nl => edges_ nl !! pred (cnt v))
}.

Lemma new_counted : counted new_Candidate (fun _ => 0%nat).
Proof.
  clear All Hall Hsmall HL.
  split; try done.
  - constructor.
  - exists ∅. split; split; try done.
    + intros x. split; [set_solver|]. intros (v & nl & i & e & _ & _ & H & _). lia.
    + intros v H. lia.
  - apply new_ok.
Qed.

Lemma getEdgeCount_of c cnt v : counts_of c cnt -> getEdgeCount v c = Z.of_nat (cnt v).
Proof. clear All Hall Hsmall HL. intros Hc. unfold getEdgeCount. rewrite Hc. case_decide; cbn; lia. Qed.

Lemma counted_ext c cnt cnt' : (forall v, cnt v = cnt' v) -> counted c cnt -> counted c cnt'.
Proof. clear All Hall Hsmall.
  intros E [H1 H2 (T & HT & Hct) H4 H5]. split; [done| | |done|].
  - intros v. rewrite <- E. apply H2.
  - exists T. split; [by apply (tracks_ext cnt)|done].
  - intros v. rewrite <- E. apply H5.
Qed.

(** The loop of [setEdgeCount], in either direction. *)
Lemma count_loop_ok c cnt T h nl n heads :
  L !! h = Some nl -> tracks cnt T -> counters heads T c -> counts_of c cnt ->
  (n <= length (edges_ nl))%nat -> cnt h <> n ->
  exists c' T',
    (if Z.of_nat (cnt h) <? Z.of_nat n
     then foldM (add_nth L h nl) c (seqZ (Z.of_nat (cnt h)) (Z.of_nat n - Z.of_nat (cnt h)))
     else foldM (remove_nth L h nl) c (reverse (seqZ (Z.of_nat n) (Z.of_nat (cnt h) - Z.of_nat n)))) = Ret c' /\
    tracks (upd cnt h n) T' /\ counters heads T' c' /\ same_lists c c'.
Proof.
  intros Hnl HT Hct Hc Hlen Hne.
  assert (forall v, cnt v = upd cnt h (cnt h) v) as Hid by (intros v; unfold upd; case_decide; congruence).
  assert (tracks (upd cnt h (cnt h)) T) as HTu by (by apply (tracks_ext cnt)).
  destruct (Z.ltb_spec (Z.of_nat (cnt h)) (Z.of_nat n)) as [Hlt|Hge].
  - rewrite <- Nat2Z.inj_sub by lia.
    destruct (add_loop_ok cnt h nl Hnl heads (n - cnt h) c T (cnt h)) as (c' & T' & E & HT' & R); [done..|lia|].
    replace (cnt h + (n - cnt h))%nat with n in HT' by lia. by exists c', T'.
  - rewrite <- Nat2Z.inj_sub by lia.
    assert (0 < cnt h)%nat as Hpos by lia. destruct (tr_range _ _ HT h Hpos) as (nl' & Hnl' & Hle).
    rewrite Hnl in Hnl'. injection Hnl' as <-.
    apply (remove_loop_ok cnt h nl Hnl heads (cnt h - n) c T n); [|done|done|lia].
    replace (n + (cnt h - n))%nat with (cnt h) by lia. done.
Qed.

(** The assertion after the loop. *)
Lemma out_le_edges heads T c : counters heads T c -> (outEdgeCount_ c <=? edgeCount_ c) = true.
Proof. clear All Hall Hsmall. intros [H1 H2 _]. rewrite H1, H2. pose proof (dangling_le T). apply Z.leb_le. lia. Qed.

Lemma queue_update_ok c cnt h nl n e : counted c cnt -> L !! h = Some nl -> edges_ nl !! pred n = Some e -> (0 < n)%nat ->
  pq_ok MaxAtTop (updateItem MaxAtTop (tm_ e) h (timestamps_ c)) /\
  forall v, (dkey ∘ key_) <$> index_ (updateItem MaxAtTop (tm_ e) h (timestamps_ c)) !! v =
    if decide (upd cnt h n v = 0%nat) then None
    else (dkey ∘ tm_) <$> (L !! v ≫= fun nl => edges_ nl !! pred (upd cnt h n v)).
Proof.
  intros [_ _ _ Hq Ht] Hnl He Hn.
  assert (entry L h e) as Hen by (exists nl; split; [done|by eapply list_elem_of_lookup_2]).
  destruct (lo_edge _ _ HL _ _ Hen) as (_ & Hnum & _).
  destruct (updateItem_ok MaxAtTop (tm_ e) h (timestamps_ c) Hq Hnum) as (Hok & Hother & k & Hk & Ek).
  split; [done|]. intros v. unfold upd. destruct (decide (v = h)) as [->|Hne].
  - rewrite Hk, Hnl. cbn. rewrite He, decide_False by lia. cbn. by rewrite Ek.
  - rewrite Hother by done. apply Ht.
Qed.

Lemma queue_remove_ok c cnt h : counted c cnt ->
  pq_ok MaxAtTop (removeItem h (timestamps_ c)) /\
  forall v, (dkey ∘ key_) <$> index_ (removeItem h (timestamps_ c)) !! v =
    if decide (upd cnt h 0 v = 0%nat) then None
    else (dkey ∘ tm_) <$> (L !! v ≫= fun nl => edges_ nl !! pred (upd cnt h 0 v)).
Proof.
  intros [_ _ _ Hq Ht]. destruct (removeItem_ok MaxAtTop h (timestamps_ c) Hq) as (Hok & ->).
  split; [done|]. intros v. unfold upd. destruct (decide (v = h)) as [->|Hne].
  - by rewrite lookup_delete_eq, decide_True.
  - rewrite lookup_delete_ne by done. apply Ht.
Qed.

Lemma counted_Some c cnt h : counted c cnt -> cnt h <> 0%nat -> h ∈ (numEdges_ c).*1.
Proof. clear All Hall Hsmall.
  intros Hcd Hne. pose proof (cd_counts _ _ Hcd h) as Hf. rewrite decide_False in Hf by done.
  apply assoc_find_Some in Hf. apply list_elem_of_fmap. by exists (h, Z.of_nat (cnt h)).
Qed.

Lemma counted_None c cnt h : counted c cnt -> cnt h = 0%nat -> h ∉ (numEdges_ c).*1.
Proof. clear All Hall Hsmall. intros Hcd E. apply assoc_find_None. by rewrite (cd_counts _ _ Hcd), decide_True. Qed.

(** Any count up to the length of the list can be set, whatever was set before. *)
Lemma setEdgeCount_ok c cnt h n :
  counted c cnt -> ((0 < n)%nat -> exists nl, L !! h = Some nl /\ (n <= length (edges_ nl))%nat) ->
  exists c', setEdgeCount L h (Z.of_nat n) c = Ret c' /\ counted c' (upd cnt h n).
Proof.
  intros Hcd Hn. pose proof Hcd as [Hnd Hc (T & HT & Hct) Hq Ht]. unfold setEdgeCount.
  rewrite (getEdgeCount_of c cnt h Hc). destruct (Z.eqb_spec (Z.of_nat (cnt h)) (Z.of_nat n)) as [E|Hne].
  { exists c. split; [done|]. apply (counted_ext c cnt); [|done]. intros v. unfold upd. case_decide; [subst; lia|done]. }
  assert (exists nl, L !! h = Some nl /\ (n <= length (edges_ nl))%nat) as (nl & Hnl & Hle).
  { destruct (decide (0 < n)%nat); [by apply Hn|].
    destruct (tr_range _ _ HT h) as (nl & Hnl & _); [lia|]. exists nl. split; [done|lia]. }
  rewrite Hnl. cbn [or_undefined mbind outcome_bind].
  destruct (count_loop_ok c cnt T h nl n _ Hnl HT Hct Hc Hle ltac:(lia)) as (c1 & T1 & -> & HT1 & Hct1 & Es & Eq).
  cbn [mbind outcome_bind]. rewrite (out_le_edges _ _ _ Hct1). cbn [cassert mbind outcome_bind].
  destruct Hct1 as [H1 H2 H3].
  destruct (Z.eqb_spec (Z.of_nat n) 0) as [E0|E0].
  - assert (n = 0%nat) as -> by lia. rewrite (proj2 (Z.eqb_neq (Z.of_nat (cnt h)) 0)) by lia.
    pose proof (counted_Some c cnt h Hcd ltac:(lia)) as Hin.
    destruct (queue_remove_ok c cnt h Hcd) as [Hq' Ht'].
    eexists. split; [reflexivity|]. split; cbn; rewrite ?Es, ?Eq.
    + by apply assoc_erase_NoDup.
    + intros v. cbn. rewrite ?Es, assoc_find_erase by done. unfold upd. case_decide; [by rewrite decide_True|apply Hc].
    + exists T1. split; [done|]. split; cbn; [done..|].
      apply (assoc_erase_Permutation h) in Hin. apply Permutation_length in Hin. rewrite !length_fmap in Hin.
      cbn in Hin. rewrite length_fmap in Hin. rewrite H3, u64_sub_l. f_equal.
      unfold sizeof_VertexId, sizeof_uint32. lia.
    + done.
    + done.
  - destruct (lookup_lt_is_Some_2 (edges_ nl) (pred n)) as [e He]; [lia|].
    replace (Z.of_nat n - 1) with (Z.of_nat (pred n)) by lia. rewrite (getNth_ok nl (pred n) e He).
    cbn [mbind outcome_bind]. destruct (queue_update_ok c cnt h nl n e Hcd Hnl He ltac:(lia)) as [Hq' Ht'].
    assert (forall c2, numEdges_ c2 = assoc_set h (Z.of_nat n) (numEdges_ c) -> counts_of c2 (upd cnt h n)) as Hcounts.
    { intros c2 E2 v. rewrite E2, assoc_find_set. unfold upd. case_decide; [by rewrite decide_False by lia|apply Hc]. }
    destruct (Z.eqb_spec (Z.of_nat (cnt h)) 0) as [Ec|Ec]; eexists; (split; [reflexivity|]).
    + pose proof (counted_None c cnt h Hcd ltac:(lia)) as Hnin.
      split; cbn; rewrite ?Es, ?Eq; [by apply assoc_set_NoDup|by apply Hcounts| |done|done].
      exists T1. split; [done|]. rewrite assoc_set_new, length_app by done. split; cbn; [done..|].
      rewrite H3, u64_add_l. f_equal. unfold sizeof_VertexId, sizeof_uint32. lia.
    + pose proof (counted_Some c cnt h Hcd ltac:(lia)) as Hin.
      split; cbn; rewrite ?Es, ?Eq; [by apply assoc_set_NoDup|by apply Hcounts| |done|done].
      exists T1. split; [done|]. split; cbn; [done..|].
      rewrite <- (length_fmap fst (assoc_set _ _ _)), assoc_set_keys, length_fmap by done. done.
Qed.
End Counts.

(** ** Property *)

(** The counts after a sequence of calls. *)
Definition set_all (L : gmap VertexId NeighborList) (ops : list (VertexId * nat)) (c : Candidate) : outcome Candidate :=
  foldM (fun c p => setEdgeCount L p.1 (Z.of_nat p.2) c) c ops.

Definition final_counts (ops : list (VertexId * nat)) : VertexId -> nat :=
  foldl (fun cnt p => upd cnt p.1 p.2) (fun _ => 0%nat) ops.

Lemma set_all_ok dsize L ops : lists_ok dsize L -> is_u64 (Z.of_nat (size (all_entries L))) ->
  Forall (fun p => (p.2 <= length (list_edges L p.1))%nat) ops ->
  exists c, set_all L ops new_Candidate = Ret c /\ counted dsize L c (final_counts ops).
Proof.
  intros HL Hsmall. unfold set_all, final_counts.
  cut (forall c cnt, counted dsize L c cnt -> Forall (fun p => (p.2 <= length (list_edges L p.1))%nat) ops ->
    exists c', foldM (fun c p => setEdgeCount L p.1 (Z.of_nat p.2) c) c ops = Ret c' /\
      counted dsize L c' (foldl (fun cnt p => upd cnt p.1 p.2) cnt ops)).
  { intros H. apply H, new_counted. }
  induction ops as [|[h n] ops IH]; intros c cnt Hcd Hops; [by exists c|]. apply Forall_cons in Hops as [Hn Hops].
  destruct (setEdgeCount_ok dsize L HL (all_entries L) (elem_of_all L) Hsmall c cnt h n Hcd) as (c1 & E & Hcd1).
  - cbn in Hn. unfold list_edges in Hn. intros Hpos. destruct (L !! h) as [nl|]; [by exists nl|cbn in Hn; lia].
  - cbn [foldM fst snd]. rewrite E. cbn [mbind outcome_bind]. by apply IH.
Qed.

Lemma tracks_taken L cnt T : tracks L cnt T -> T = taken L cnt.
Proof. intros HT. apply set_eq. intros x. by rewrite (tr_taken _ _ _ HT), elem_of_taken. Qed.

(** C21: the counters of a candidate are functions of the entries it took.
    After any sequence of [setEdgeCount] calls, up and down, on lists that are
    well formed, no assertion failed and the candidate holds the counts set
    last; [edgeCount_] is the number of entries taken, [outEdgeCount_] the
    number of those whose reverse was not taken, [size_] the size of a block
    with the taken entries (modulo 2^64), in which the data of an edge counts
    once however many of its two entries are there, and [getNewestTime] is the
    latest time of an entry taken. *)
Theorem candidate_counters (dsize : Key -> Z) (L : gmap VertexId NeighborList) (ops : list (VertexId * nat)) :
  lists_ok dsize L -> is_u64 (Z.of_nat (size (all_entries L))) ->
  Forall (fun p => (p.2 <= length (list_edges L p.1))%nat) ops ->
  let T := taken L (final_counts ops) in
  exists c, set_all L ops new_Candidate = Ret c /\
    (forall v, getEdgeCount v c = Z.of_nat (final_counts ops v)) /\
    edgeCount_ c = Z.of_nat (size T) /\
    outEdgeCount_ c = Z.of_nat (size (dangling T)) /\
    size_ c = u64 (8 + 12 * Z.of_nat (length (numEdges_ c)) + 16 * Z.of_nat (size T) + data_total dsize T) /\
    (T <> ∅ -> exists t, getNewestTime c = Ret t /\
       (exists v e, entry L v e /\ ekey v e ∈ T /\ dkey (tm_ e) = dkey t) /\
       forall v e, entry L v e -> ekey v e ∈ T -> dkey (tm_ e) <= dkey t).
Proof.
  intros HL Hsmall Hops T. destruct (set_all_ok dsize L ops HL Hsmall Hops) as (c & E & Hcd).
  exists c. split; [done|]. pose proof Hcd as [Hnd Hc (T0 & HT & [H1 H2 H3]) Hq Ht].
  pose proof (tracks_taken _ _ _ HT) as ->. fold T in HT, H1, H2, H3.
  split_and!; [by intros v; apply getEdgeCount_of|done..|].
  intros Hne. set (cnt := final_counts ops) in *.
  (* an entry taken gives a time in the queue that is not earlier *)
  assert (forall v e, entry L v e -> ekey v e ∈ T -> exists y, index_ (timestamps_ c) !! v = Some y /\
    dkey (tm_ e) <= dkey (key_ y)) as Hlast.
  { intros v e _ Hin. apply (tr_taken _ _ _ HT) in Hin as (v' & nl & i & e' & Hnl & Hi & Hlt & Ek).
    unfold ekey in Ek. injection Ek as <- Eto Etm. specialize (Ht v). rewrite decide_False, Hnl in Ht by lia.
    destruct (tr_range _ _ _ HT v) as (nl' & Hnl' & Hlen); [lia|]. rewrite Hnl in Hnl'. injection Hnl' as <-.
    destruct (lookup_lt_is_Some_2 (edges_ nl) (pred (cnt v))) as [e1 He1]; [lia|].
    cbn in Ht. rewrite He1 in Ht. apply fmap_Some in Ht as (y & Hy & Ey). exists y. split; [done|]. cbn in Ey.
    destruct (lo_head _ _ HL _ _ Hnl) as (_ & _ & Hs). rewrite Etm, <- Ey.
    destruct (decide (i = pred (cnt v))) as [->|]; [rewrite Hi in He1; injection He1 as ->; lia|].
    pose proof (proj1 (by_time_lt _ i (pred (cnt v)) e' e1 Hs Hi He1) ltac:(lia)). lia. }
  destruct (set_choose_L T Hne) as [x Hx]. pose proof Hx as Hx'.
  apply (tr_taken _ _ _ HT) in Hx' as (v & nl & i & e & Hnl & Hi & _ & ->).
  destruct (Hlast v e) as (y & Hy & _); [exists nl; split; [done|by eapply list_elem_of_lookup_2]|done|].
  destruct (getTopItem_ok MaxAtTop (timestamps_ c) Hq) as (top & Etop & Htop & Hmax).
  { unfold empty. apply Z.eqb_neq. intros E0. assert (index_ (timestamps_ c) = ∅) as Ee by (apply map_size_empty_inv; lia).
    by rewrite Ee, lookup_empty in Hy. }
  exists (key_ top). split; [unfold getNewestTime; by rewrite Etop|]. split.
  - specialize (Ht (kid_ top)). rewrite Htop in Ht. cbn in Ht. case_decide as Ec; [done|].
    symmetry in Ht. apply fmap_Some in Ht as (e1 & He1 & Ek). apply bind_Some in He1 as (nl1 & Hnl1 & He1).
    exists (kid_ top), e1. split_and!; [exists nl1; split; [done|by eapply list_elem_of_lookup_2]| |by cbn in Ek].
    apply elem_of_taken. exists (kid_ top), nl1, (pred (cnt (kid_ top))), e1. split_and!; try done. lia.
  - intros w e1 He1 Hin. destruct (Hlast w e1 He1 Hin) as (z & Hz & Hle).
    destruct (Hmax _ _ Hz) as [->|Hb]; [done|]. unfold before, rank in Hb. lia.
Qed.

Definition example_shared (a : Z) : SharedData := mkShared a example_data.

(** Edges 1-2, 1-3 and 2-3 at the times 3, 5 and 8. *)
Definition example_lists : gmap VertexId NeighborList :=
  push_half 3 2 (dofZ 8) (example_shared 3) (push_half 2 3 (dofZ 8) (example_shared 3)
    (push_half 3 1 (dofZ 5) (example_shared 2) (push_half 1 3 (dofZ 5) (example_shared 2)
      (push_half 2 1 (dofZ 3) (example_shared 1) (push_half 1 2 (dofZ 3) (example_shared 1) ∅))))).

Definition example_size : Z := Z.of_nat (length (enc_data example_data)).

Lemma example_shared_typed a : well_typed (cell (example_shared a)).
Proof. apply example_data_typed. Qed.

Lemma example_num t : dofZ t <? 2047 * 2 ^ 52 = true -> 0 <=? dofZ t = true -> num (dofZ t).
Proof.
  intros H1 H2. zb. split; [lia|]. unfold is_nan. rewrite Z.mod_small by lia. apply Z.ltb_ge. lia.
Qed.

Lemma example_lists_ok : lists_ok (fun _ => example_size) example_lists.
Proof.
  unfold example_lists. repeat apply push_ok; try apply empty_lists_ok; try lia; try apply example_shared_typed;
    try reflexivity; try (apply example_num; vm_compute; reflexivity).
  all: apply older_than; vm_compute; reflexivity.
Qed.

Definition example_ops : list (VertexId * nat) := [(1, 2%nat); (2, 1%nat); (3, 2%nat); (1, 1%nat)].

Lemma candidate_counters_witness :
  exists c, set_all example_lists example_ops new_Candidate = Ret c /\
    edgeCount_ c = 4 /\ outEdgeCount_ c = 2 /\ size_ c = 8 + 12 * 3 + 16 * 4 + 3 * example_size.
Proof.
  destruct (candidate_counters (fun _ => example_size) example_lists example_ops) as (c & E & _ & H1 & H2 & H3 & _).
  - exact example_lists_ok.
  - vm_compute. split; congruence.
  - repeat (apply Forall_cons_2 || apply Forall_nil_2); vm_compute; lia.
  - exists c. split; [exact E|]. split; [rewrite H1; vm_compute; reflexivity|].
    split; [rewrite H2; vm_compute; reflexivity|]. rewrite H3.
    assert (length (numEdges_ c) = 3%nat) as ->.
    { pose proof E as E'. vm_compute in E'. injection E' as <-. reflexivity. }
    vm_compute. reflexivity.
Defined.

(** Trying an extension and taking it back loses a present vertex.  With
    the edge from 1 to 2 taken, both vertices are present; raising the count of
    2 and setting it back to 0 leaves all counters as they were, but 2 is no
    longer among the present vertices, from which the next extensions are
    chosen. *)
Theorem present_vertex_lost :
  let r := set_all example_lists [(1, 1%nat)] new_Candidate in
  let r' := r ≫= set_all example_lists [(2, 1%nat); (2, 0%nat)] in
  let counts c := (edgeCount_ c, outEdgeCount_ c, size_ c, numEdges_ c) in
  (counts <$> r) = Ret (1, 1, 36 + example_size, [(1, 1)]) /\ (counts <$> r') = (counts <$> r) /\
  (presentVertices_ <$> r) = Ret [(2, 1); (1, 1)] /\ (presentVertices_ <$> r') = Ret [(1, 1)].
Proof. cbv zeta. split_and!; vm_compute; reflexivity. Qed.

(** Edges inside a candidate are conflated.  The two ends of an [SUEdge]
    made from the smaller vertex are both that vertex, so that internal edges
    with the same smaller end (found from its list) are one; a candidate with
    the whole triangle 1, 2, 3 has a cohesiveness of 2/3, not 1. *)
Theorem internal_edges_conflated :
  (forall u v w, u <= v -> u <= w -> newSUEdge u v = newSUEdge u w) /\
  let r := set_all example_lists [(3, 2%nat); (2, 2%nat); (1, 2%nat)] new_Candidate in
  ((fun c => (edgeCount_ c, outEdgeCount_ c, length (internalEdges_ c), getLocality LM_COHESIVENESS c)) <$> r) =
    Ret (6, 0, 2%nat, ddiv dtwo (dofZ 3)).
Proof.
  split.
  - intros u v w Hv Hw. unfold newSUEdge. by rewrite !(proj2 (Z.ltb_ge _ _)) by done.
  - vm_compute. reflexivity.
Qed.
