(* ===== verification/BlockLayout.v ===== *)
(** * Forming blocks

    The block that a layout forms has, for some head vertices, a number of the
    oldest entries of their lists.  [Block::addEdge] keeps [serializedSize_]
    equal to the size a candidate with the same entries computes. *)

From Stdlib Require Import ZArith Lia.
From stdpp Require Import base numbers gmap strings list sorting.
From S2P Require Import Prelude.
From S2P Require Import Double.
From S2P Require Import Schema.
From S2P Require Import AttributeData.
From S2P Require Import NeighborList.
From S2P Require Import PriorityQueue.
From S2P Require Import Block.
From S2P Require Import BlockContent.
From S2P Require Import Candidate.
From S2P Require Import Conf.
From S2P Require Import ExpirationMap.
From S2P Require Import ExpiredLists.
From S2P Require Import CandidateCounts.

(** Nested sums modulo 2^64 are one sum. *)
Ltac u64_sums := repeat first [rewrite u64_add_l | rewrite u64_add_r | rewrite <- Z.add_assoc].

Section Prefix.
Context (dsize : Key -> Z) (L : gmap VertexId NeighborList).
Context (HL : lists_ok dsize L).

Record prefix_lists (b : Block) (cnt : VertexId -> nat) : Prop := {
  pb_NoDup : NoDup (neigs_ b).*1;
  pb_lists v : assoc_find v (neigs_ b) =
    if decide (cnt v = 0%nat) then None
    else Some (mkNeighborList v (take (cnt v) (list_edges L v)));
  pb_range v : (cnt v <= length (list_edges L v))%nat;
  pb_header : id_ b = 0 /\ partition_ b = None /\ subBlocks_ b = []
}.

Definition block_size (heads : nat) (T : gset Key) : Z :=
  u64 (8 + 12 * Z.of_nat heads + 16 * Z.of_nat (size T) + data_total dsize T).

Definition sized (b : Block) (cnt : VertexId -> nat) : Prop :=
  serializedSize_ b = block_size (length (neigs_ b)) (taken L cnt).

Lemma new_prefix : prefix_lists (new_block 0) (fun _ => 0%nat).
Proof. clear HL. split; try done; [constructor|intros v; cbn; lia]. Qed.

Lemma taken_0 : taken L (fun _ => 0%nat) = ∅.
Proof. clear HL.
  apply set_eq. intros x. rewrite elem_of_taken. split; [|set_solver].
  intros (v & nl & i & e & _ & _ & H & _). lia.
Qed.

Lemma new_sized_block : sized (new_block 0) (fun _ => 0%nat).
Proof. clear HL. unfold sized. rewrite taken_0. vm_compute. done. Qed.

Lemma tracks_of cnt : (forall v, (cnt v <= length (list_edges L v))%nat) -> tracks L cnt (taken L cnt).
Proof. clear HL.
  intros H. split; [intros x; apply elem_of_taken|]. intros v Hv. specialize (H v).
  unfold list_edges in H. destruct (L !! v) as [nl|] eqn:E; [by exists nl|cbn in H; lia].
Qed.

Lemma list_edges_by_time v : by_time (list_edges L v).
Proof.
  unfold list_edges. destruct (L !! v) as [nl|] eqn:E; [|constructor]. by destruct (lo_head _ _ HL _ _ E) as (_ & _ & ?).
Qed.

Lemma list_edges_entry v i e : list_edges L v !! i = Some e -> entry L v e.
Proof. clear HL. intros H. apply entry_list. by eapply list_elem_of_lookup_2. Qed.

Lemma list_edges_nl v i e : list_edges L v !! i = Some e -> exists nl, L !! v = Some nl /\ edges_ nl !! i = Some e.
Proof. clear HL. unfold list_edges. destruct (L !! v) as [nl|]; [by exists nl|done]. Qed.

Lemma by_time_chronological v n : chronological (take n (list_edges L v)).
Proof.
  split.
  - apply Forall_forall. intros e He. apply (lo_edge _ _ HL v). apply entry_list. by apply subseteq_take in He.
  - assert (by_time (take n (list_edges L v))) as Hs by (apply by_time_take, list_edges_by_time).
    unfold by_time in Hs. induction Hs as [|x l Hs IH Hx]; constructor; [done|].
    eapply Forall_impl; [exact Hx|]. cbn. lia.
Qed.

(** The data of the reverse entry is shared exactly when that entry is there. *)
Lemma shared_data_ok b cnt h e : prefix_lists b cnt -> entry L h e ->
  shared_data h (toVertex_ e) (tm_ e) (data_ e) b =
    Ret (if decide (rev_key (ekey h e) ∈ taken L cnt) then Some (data_ e) else None).
Proof.
  intros [_ Hl Hr _] He. unfold shared_data. rewrite Hl. destruct (lo_edge _ _ HL _ _ He) as (_ & Hn & _).
  destruct (decide (cnt (toVertex_ e) = 0%nat)) as [E0|E0].
  { rewrite decide_False; [done|]. rewrite elem_of_taken. intros (v & nl & i & e' & _ & _ & Hlt & E).
    unfold ekey, rev_key in E. injection E as <- _ _. lia. }
  specialize (Hr (toVertex_ e)). unfold list_edges in *. destruct (L !! toVertex_ e) as [nl|] eqn:Enl; [|cbn in Hr; lia].
  set (nlist := mkNeighborList (toVertex_ e) (take (cnt (toVertex_ e)) (edges_ nl))).
  pose proof (by_time_chronological (toVertex_ e) (cnt (toVertex_ e))) as Hc. unfold list_edges in Hc. rewrite Enl in Hc.
  pose proof (getEdgeAttributeData_is_Some nlist h (tm_ e) Hc Hn) as Hiff.
  assert (forall x, x ∈ edges_ nlist -> deqb (tm_ x) (tm_ e) = true -> ekey (toVertex_ e) x = rev_key (ekey h e) /\ data_ x = data_ e) as Hx.
  { intros x Hx Ht. apply subseteq_take in Hx. apply (mirror_unique dsize L h e nl x); try done. by apply deqb_eq. }
  destruct (getEdgeAttributeData nlist h (tm_ e)) as [d|] eqn:Eg.
  - apply getEdgeAttributeData_Some in Eg as (x & Hin & Hto & Ht & <-). destruct (Hx x Hin Ht) as [Ek ->].
    rewrite Z.eqb_refl. cbn. rewrite decide_True; [done|].
    rewrite elem_of_taken. cbn in Hin. apply list_elem_of_lookup in Hin as [i Hi]. apply lookup_take_Some in Hi as [Hi Hlt].
    exists (toVertex_ e), nl, i, x. by rewrite Ek.
  - rewrite decide_False; [done|]. rewrite elem_of_taken. intros (v & nl' & i & x & Hnl' & Hi & Hlt & E).
    assert (is_Some (None : option SharedData)) as [? ?]; [|done]. apply Hiff.
    unfold ekey, rev_key in E. injection E as <- Eto Et. rewrite Enl in Hnl'. injection Hnl' as <-.
    exists x. split; [|split; [done|]].
    + cbn. apply list_elem_of_lookup. exists i. by apply lookup_take_Some.
    + assert (entry L (toVertex_ e) x) as Hx' by (exists nl; split; [done|by eapply list_elem_of_lookup_2]).
      destruct (lo_edge _ _ HL _ _ Hx') as (_ & Hnx & _). rewrite deqb_num by done. apply Z.eqb_eq. lia.
Qed.

(** The part of [addEdge] after the data is found. *)
Lemma append_edge_ok b b1 cnt h e : prefix_lists b cnt -> same_header b b1 -> neigs_ b1 = neigs_ b ->
  list_edges L h !! cnt h = Some e ->
  exists b', (let b := addNeighborList h b1 in
      nlist ← or_undefined (assoc_find h (neigs_ b));
      let b := with_neigs (assoc_set h (NeighborList.addEdge (mkNLEdge (toVertex_ e) (tm_ e) (data_ e)) nlist) (neigs_ b)) b in
      Ret (grow sizeof_Timestamp (grow sizeof_VertexId b))) = Ret b' /\
    prefix_lists b' (upd cnt h (S (cnt h))) /\
    length (neigs_ b') = (length (neigs_ b) + (if decide (cnt h = 0) then 1 else 0))%nat /\
    serializedSize_ b' = u64 (serializedSize_ b1 + (if decide (cnt h = 0%nat) then 28 else 16)).
Proof. clear HL.
  intros [Hnd Hl Hr Hh] (E1 & E2 & E3) En1 Hi.
  assert (mkNLEdge (toVertex_ e) (tm_ e) (data_ e) = e) as -> by (by destruct e).
  assert (take (S (cnt h)) (list_edges L h) = take (cnt h) (list_edges L h) ++ [e]) as Etake by (by apply take_S_r).
  assert (forall v, (upd cnt h (S (cnt h)) v <= length (list_edges L v))%nat) as Hr'.
  { intros v. unfold upd. case_decide as Ev; [|apply Hr]. rewrite Ev. apply lookup_lt_Some in Hi. lia. }
  assert (forall ns nl, ns = assoc_set h nl (neigs_ b) -> nl = mkNeighborList h (take (S (cnt h)) (list_edges L h)) ->
    forall v, assoc_find v ns = if decide (upd cnt h (S (cnt h)) v = 0%nat) then None
      else Some (mkNeighborList v (take (upd cnt h (S (cnt h)) v) (list_edges L v)))) as Hlists.
  { intros ns nl -> -> v. rewrite assoc_find_set. unfold upd. case_decide as Ev; [|apply Hl]. subst v. by rewrite decide_False. }
  unfold addNeighborList. rewrite En1. pose proof (Hl h) as Hlh. cbv zeta.
  destruct (decide (cnt h = 0%nat)) as [E0|E0]; rewrite Hlh.
  - cbn [neigs_ grow Block.with_size with_neigs]. rewrite assoc_find_set, (decide_True (P := h = h)) by done.
    cbn [or_undefined mbind outcome_bind]. eexists. split; [reflexivity|].
    rewrite assoc_set_set. assert (h ∉ (neigs_ b).*1) as Hnin by (by apply assoc_find_None).
    split_and!; [split; cbn| |].
    + by apply assoc_set_NoDup.
    + eapply Hlists; [reflexivity|]. unfold NeighborList.addEdge. cbn. by rewrite Etake, E0.
    + done.
    + by rewrite E1, E2, E3.
    + cbn. rewrite assoc_set_new, length_app by done. done.
    + cbn. by u64_sums.
  - rewrite En1, Hlh. cbn [or_undefined mbind outcome_bind]. eexists. split; [reflexivity|].
    assert (h ∈ (neigs_ b).*1) as Hin.
    { apply assoc_find_Some in Hlh. by apply (list_elem_of_fmap_2 fst) in Hlh. }
    split_and!; [split; cbn| |].
    + by apply assoc_set_NoDup.
    + eapply Hlists; [reflexivity|]. unfold NeighborList.addEdge. cbn. by rewrite Etake.
    + done.
    + by rewrite E1, E2, E3.
    + cbn. rewrite <- (length_fmap fst (assoc_set _ _ _)), assoc_set_keys, length_fmap by done. lia.
    + cbn. by u64_sums.
Qed.

(** Adding the next entry of a list. *)
Lemma addEdge_prefix b cnt h e : prefix_lists b cnt -> list_edges L h !! cnt h = Some e ->
  exists b', Block.addEdge h (toVertex_ e) (tm_ e) (data_ e) b = Ret b' /\
    prefix_lists b' (upd cnt h (S (cnt h))) /\ (sized b cnt -> sized b' (upd cnt h (S (cnt h)))).
Proof.
  intros Hp Hi. pose proof (pb_range _ _ Hp) as Hr.
  pose proof (list_edges_entry _ _ _ Hi) as He. destruct (list_edges_nl _ _ _ Hi) as (nl & Hnl & Hi').
  destruct (lo_edge _ _ HL _ _ He) as (Hne & Hn & Hwt & Hsz).
  destruct (tracks_add dsize L HL cnt (taken L cnt) h nl (cnt h) e (tracks_of cnt Hr) Hnl Hi' eq_refl) as [HT Hnew].
  apply tracks_taken in HT. pose proof (data_total_add dsize (taken L cnt) (ekey h e) Hnew) as Hdt. rewrite HT in Hdt.
  assert (Z.of_nat (size (taken L (upd cnt h (S (cnt h))))) = Z.of_nat (size (taken L cnt)) + 1) as Hsize.
  { rewrite <- HT, size_union, size_singleton by (by apply disjoint_singleton_l). lia. }
  unfold Block.addEdge. rewrite (shared_data_ok b cnt h e) by done. cbn [mbind outcome_bind].
  set (n := if decide (rev_key (ekey h e) ∈ taken L cnt) then 0 else dsize (und_key (ekey h e))) in *.
  assert (exists b1, (match (if decide (rev_key (ekey h e) ∈ taken L cnt) then Some (data_ e) else None) with
      | Some sdata => Ret (sdata, b)
      | None => n ← getSerializedSizeOf (cell (data_ e)); Ret (data_ e, grow n b)
      end) = Ret (data_ e, b1) /\ same_header b b1 /\ neigs_ b1 = neigs_ b /\
      u64 (serializedSize_ b1) = u64 (serializedSize_ b + n)) as (b1 & -> & Hh1 & En1 & Es1).
  { unfold n. case_decide; [exists b|exists (grow (dsize (und_key (ekey h e))) b); rewrite Hsz]; split_and!; try done.
    - by rewrite Z.add_0_r.
    - cbn. apply u64_id, u64_range. }
  cbn [mbind outcome_bind].
  destruct (append_edge_ok b b1 cnt h e Hp Hh1 En1 Hi) as (b' & E' & Hp' & Hlen & Hs').
  exists b'. split; [exact E'|]. split; [done|]. intros Hs. unfold sized, block_size in *.
  rewrite Hs', Hlen, <- u64_add_l, Es1, Hs, Hsize, Hdt. u64_sums. f_equal. case_decide; lia.
Qed.

(** The block is determined by the counts up to the order of its lists. *)
Lemma prefix_keys b cnt v : prefix_lists b cnt -> v ∈ (neigs_ b).*1 <-> cnt v <> 0%nat.
Proof. clear HL.
  intros [_ Hl _ _]. specialize (Hl v). split.
  - intros Hin E. rewrite decide_True in Hl by done. by apply assoc_find_None in Hl.
  - intros Hne. rewrite decide_False in Hl by done. apply assoc_find_Some in Hl.
    by apply (list_elem_of_fmap_2 fst) in Hl.
Qed.

Lemma prefix_heads b b' cnt : prefix_lists b cnt -> prefix_lists b' cnt -> length (neigs_ b) = length (neigs_ b').
Proof. clear HL.
  intros H H'. rewrite <- (length_fmap fst), <- (length_fmap fst (neigs_ b')). apply Permutation_length, NoDup_Permutation.
  - apply (pb_NoDup _ _ H).
  - apply (pb_NoDup _ _ H').
  - intros v. rewrite (prefix_keys b cnt v H). by rewrite (prefix_keys b' cnt v H').
Qed.

Lemma prefix_ext b cnt cnt' : (forall v, cnt v = cnt' v) -> prefix_lists b cnt -> prefix_lists b cnt'.
Proof. clear HL.
  intros E [H1 H2 H3 H4]. split; [done|intros v; rewrite <- E; apply H2|intros v; rewrite <- E; apply H3|done].
Qed.

Lemma sized_ext b cnt cnt' : (forall v, cnt v = cnt' v) -> sized b cnt -> sized b cnt'.
Proof. clear HL.
  intros E Hs. unfold sized in *. rewrite Hs. f_equal. apply set_eq. intros x. rewrite !elem_of_taken.
  unfold count_taken. split; intros (v & nl & i & e & H); exists v, nl, i, e; specialize (E v); intuition lia.
Qed.

(** Adding several entries of one list, as [getBlockSmart] does. *)
Lemma add_entries_ok nl h n : forall b cnt, L !! h = Some nl -> prefix_lists b cnt -> sized b cnt ->
  (cnt h + n <= length (edges_ nl))%nat ->
  exists b', foldM (fun block i =>
      edge ← getNth nl i;
      Block.addEdge h (toVertex_ edge) (tm_ edge) (data_ edge) block) b (seqZ (Z.of_nat (cnt h)) (Z.of_nat n)) = Ret b' /\
    prefix_lists b' (upd cnt h (cnt h + n)) /\ sized b' (upd cnt h (cnt h + n)).
Proof.
  induction n as [|n IH]; intros b cnt Hnl Hp Hs Hlen.
  - exists b. rewrite Nat.add_0_r.
    assert (forall v, cnt v = upd cnt h (cnt h) v) as E by (intros v; unfold upd; case_decide; congruence).
    split_and!; [done|by apply (prefix_ext b cnt)|by apply (sized_ext b cnt)].
  - destruct (lookup_lt_is_Some_2 (edges_ nl) (cnt h)) as [e He]; [lia|].
    destruct (addEdge_prefix b cnt h e Hp) as (b1 & E1 & Hp1 & Hs1); [by rewrite (lookup_list_edges _ _ _ Hnl)|].
    rewrite seqZ_cons by lia. cbn [foldM]. rewrite (getNth_ok _ _ _ He). cbn [mbind outcome_bind].
    rewrite E1. cbn [mbind outcome_bind].
    assert (upd cnt h (S (cnt h)) h = S (cnt h)) as Eh by (unfold upd; by rewrite decide_True).
    destruct (IH b1 (upd cnt h (S (cnt h))) Hnl Hp1 (Hs1 Hs)) as (b' & E' & Hp' & Hs'); [rewrite Eh; lia|].
    rewrite Eh in *. exists b'. replace (Z.succ (Z.of_nat (cnt h))) with (Z.of_nat (S (cnt h))) by lia.
    replace (Z.pred (Z.of_nat (S n))) with (Z.of_nat n) by lia. replace (cnt h + S n)%nat with (S (cnt h) + n)%nat by lia.
    split_and!; [done|eapply prefix_ext; [|exact Hp']|eapply sized_ext; [|exact Hs']]; intros v; apply upd_upd.
Qed.

(** The block of a candidate. *)
Definition counts_in (l : list (VertexId * Z)) (v : VertexId) : nat := Z.to_nat (default 0 (assoc_find v l)).

Lemma form_block_ok (m : ExpirationMap) l : forall b cnt,
  neigLists_ m = L -> prefix_lists b cnt -> sized b cnt -> NoDup l.*1 ->
  Forall (fun p => cnt p.1 = 0%nat /\ 0 < p.2 <= Z.of_nat (length (list_edges L p.1))) l ->
  exists b', foldM (fun block p =>
      nlist ← or_undefined (neigLists_ m !! p.1);
      foldM (fun block i =>
        edge ← getNth nlist i;
        Block.addEdge p.1 (toVertex_ edge) (tm_ edge) (data_ edge) block) block (seqZ 0 p.2)) b l = Ret b' /\
    prefix_lists b' (fun v => cnt v + counts_in l v)%nat /\ sized b' (fun v => cnt v + counts_in l v)%nat.
Proof.
  intros b cnt Hm. revert b cnt. induction l as [|[h k] l IH]; intros b cnt Hp Hs Hnd Hf.
  - exists b. assert (forall v, cnt v = (cnt v + counts_in [] v)%nat) as E by (intros v; unfold counts_in; cbn; lia).
    split_and!; [done|by apply (prefix_ext b cnt)|by apply (sized_ext b cnt)].
  - apply Forall_cons in Hf as [[H0 Hk] Hf]. apply NoDup_cons in Hnd as [Hnin Hnd]. cbn [fst snd] in *.
    unfold list_edges in Hk. destruct (L !! h) as [nl|] eqn:Hnl; [|cbn in Hk; lia].
    destruct (add_entries_ok nl h (Z.to_nat k) b cnt Hnl Hp Hs) as (b1 & E1 & Hp1 & Hs1); [lia|].
    rewrite H0, Z2Nat.id in E1 by lia. cbn [foldM fst snd]. rewrite Hm, Hnl. cbn [or_undefined mbind outcome_bind].
    change (Z.of_nat 0) with 0 in E1. rewrite E1. cbn [mbind outcome_bind]. rewrite H0, Nat.add_0_l in Hp1, Hs1.
    destruct (IH b1 _ Hp1 Hs1 Hnd) as (b' & E' & Hp' & Hs').
    + rewrite Forall_forall in *. intros [v k'] Hin. specialize (Hf _ Hin). cbn in *. unfold upd.
      rewrite decide_False; [done|]. intros ->. apply Hnin. apply list_elem_of_fmap. by exists (h, k').
    + exists b'. rewrite Hm in E'. split; [exact E'|].
      assert (forall v, (upd cnt h (Z.to_nat k) v + counts_in l v = cnt v + counts_in ((h, k) :: l) v)%nat) as E.
      { intros v. unfold upd, counts_in. cbn. destruct (decide (v = h)) as [->|Hne]; [|done].
        apply assoc_find_None in Hnin. rewrite Hnin, H0. cbn. lia. }
      split; [exact (prefix_ext _ _ _ E Hp')|exact (sized_ext _ _ _ E Hs')].
Qed.
End Prefix.

(** ** The block of a counted candidate *)

Lemma form_counted (dsize : Key -> Z) (m : ExpirationMap) (c : Candidate) (cnt : VertexId -> nat) :
  lists_ok dsize (neigLists_ m) -> counted dsize (neigLists_ m) c cnt ->
  exists b, form_block m c (new_block 0) = Ret b /\ prefix_lists (neigLists_ m) b cnt /\ sized dsize (neigLists_ m) b cnt.
Proof.
  set (L := neigLists_ m). intros HL Hcd. pose proof Hcd as [Hnd Hc (T & HT & _) _ _].
  assert (forall v, (0 + counts_in (numEdges_ c) v = cnt v)%nat) as Ecnt.
  { intros v. unfold counts_in. rewrite Hc. case_decide; cbn; lia. }
  destruct (form_block_ok dsize L HL m (numEdges_ c) (new_block 0) (fun _ => 0%nat)) as (b & Eb & Hp & Hs);
    [done|apply new_prefix|apply new_sized_block|done| |].
  - apply Forall_forall. intros [v k] Hin. apply (assoc_find_elem v k) in Hin; [|done]. rewrite Hc in Hin.
    cbn. split; [done|]. case_decide; [done|]. injection Hin as <-. split; [lia|].
    destruct (tr_range _ _ _ HT v) as (nl & Hnl & Hle); [lia|]. rewrite (lookup_list_edges _ _ _ Hnl). lia.
  - exists b. split; [exact Eb|]. split; [exact (prefix_ext _ _ _ _ Ecnt Hp)|exact (sized_ext _ _ _ _ _ Ecnt Hs)].
Qed.

(** The size a candidate reports. *)
Lemma counted_size (dsize : Key -> Z) L (c : Candidate) (cnt : VertexId -> nat) b :
  counted dsize L c cnt -> prefix_lists L b cnt -> Candidate.size_ c = block_size dsize (length (neigs_ b)) (taken L cnt).
Proof.
  intros Hcd Hp. pose proof Hcd as [Hnd Hc (T & HT & [_ _ H3]) _ _].
  rewrite H3. apply tracks_taken in HT as ->. unfold block_size. do 4 f_equal.
  rewrite <- (length_fmap fst (numEdges_ c)), <- (length_fmap fst (neigs_ b)). do 2 f_equal.
  apply Permutation_length, NoDup_Permutation; [done|apply (pb_NoDup _ _ _ Hp)|].
  intros v. rewrite (prefix_keys _ _ _ v Hp). pose proof (Hc v) as Hcv. split.
  - intros Hin E0. rewrite decide_True in Hcv by done. by apply assoc_find_None in Hcv.
  - intros Hne. by apply (counted_Some dsize L c cnt).
Qed.

(** ** Property *)

(** C22: a candidate knows the size of its block.  Forming the block of a
    candidate, reached by any sequence of [setEdgeCount] calls, succeeds, the
    block has exactly the entries the candidate counts, each list in its order,
    and its serialized size is the size the candidate reported. *)
Theorem candidate_block_size (dsize : Key -> Z) (m : ExpirationMap) (ops : list (VertexId * nat)) (c : Candidate) :
  let L := neigLists_ m in
  lists_ok dsize L -> is_u64 (Z.of_nat (size (all_entries L))) ->
  Forall (fun p => (p.2 <= length (list_edges L p.1))%nat) ops ->
  set_all L ops new_Candidate = Ret c ->
  exists b, form_block m c (new_block 0) = Ret b /\ serializedSize_ b = Candidate.size_ c /\
    forall v, assoc_find v (neigs_ b) =
      if decide (final_counts ops v = 0%nat) then None
      else Some (mkNeighborList v (take (final_counts ops v) (list_edges L v))).
Proof.
  intros L HL Hsmall Hops E. destruct (set_all_ok dsize L ops HL Hsmall Hops) as (c' & E' & Hcd).
  rewrite E in E'. injection E' as <-.
  destruct (form_counted dsize m c (final_counts ops) HL Hcd) as (b & Eb & Hp & Hs). exists b. split; [exact Eb|].
  split; [|apply (pb_lists _ _ _ Hp)]. by rewrite Hs, (counted_size dsize L c _ b Hcd Hp).
Qed.

Definition example_map : ExpirationMap :=
  mkExpirationMap (newBlockStats LM_RCC_MIXED) 6 100 (newConf "db" "/tmp" [] []) OldScorer unbounded example_lists 0.

Lemma candidate_block_size_witness :
  exists c b, set_all example_lists example_ops new_Candidate = Ret c /\
    form_block example_map c (new_block 0) = Ret b /\ serializedSize_ b = Candidate.size_ c.
Proof.
  destruct (set_all_ok (fun _ => example_size) example_lists example_ops) as (c & E & _).
  - exact example_lists_ok.
  - vm_compute. split; congruence.
  - repeat (apply Forall_cons_2 || apply Forall_nil_2); vm_compute; lia.
  - destruct (candidate_block_size (fun _ => example_size) example_map example_ops c) as (b & Eb & Hs & _).
    + exact example_lists_ok.
    + vm_compute. split; congruence.
    + repeat (apply Forall_cons_2 || apply Forall_nil_2); vm_compute; lia.
    + exact E.
    + exists c, b. split_and!; [exact E|exact Eb|exact Hs].
Defined.
