(* ===== verification/BlockWriting.v ===== *)
(** * Writing the blocks of the basic layouts

    For the layouts Random, Old and Max: the block [getBlock] forms has a
    prefix of some lists and respects the block size.  For every layout:
    [removeEdges] takes exactly the prefixes of a block away, and the lists, the size and the score queue of
    the expiration map stay consistent. *)

From Stdlib Require Import ZArith Lia.
From stdpp Require Import base numbers gmap strings list sorting.
From S2P Require Import Prelude.
From S2P Require Import Double.
From S2P Require Import Schema.
From S2P Require Import AttributeData.
From S2P Require Import NeighborList.
From S2P Require Import PriorityQueue.
From S2P Require Import Block.
From S2P Require Import BlockContent.
From S2P Require Import Candidate.
From S2P Require Import Conf.
From S2P Require Import ExpirationMap.
From S2P Require Import ExpiredLists.
From S2P Require Import CandidateCounts.
From S2P Require Import BlockLayout.

(** ** Counting entries *)

Lemma entries_delete L v nl : L !! v = Some nl -> entries L = (length (edges_ nl) + entries (delete v L))%nat.
Proof. intros H. unfold entries. rewrite (map_fold_delete_L _ _ v nl L); [done|intros; lia|done]. Qed.

Lemma entries_fresh L v nl : L !! v = None -> entries (<[v := nl]> L) = (length (edges_ nl) + entries L)%nat.
Proof. intros H. unfold entries. rewrite map_fold_insert_L; [done| |done]. intros. lia. Qed.

Lemma entries_insert L v nl : entries (<[v := nl]> L) = (length (edges_ nl) + entries (delete v L))%nat.
Proof. rewrite <- insert_delete_eq. apply entries_fresh, lookup_delete_eq. Qed.

Lemma entries_split L v : entries L = (length (list_edges L v) + entries (delete v L))%nat.
Proof.
  unfold list_edges. destruct (L !! v) as [nl|] eqn:E; [by apply entries_delete|].
  by rewrite delete_id.
Qed.

Lemma all_entries_le L : (size (all_entries L) <= entries L)%nat.
Proof.
  unfold all_entries, entries. rewrite map_fold_foldr.
  assert (forall l : list (Z * NeighborList), length (l ≫= fun p => ekey p.1 <$> edges_ p.2) =
    foldr (uncurry (fun _ nl n => (length (edges_ nl) + n)%nat)) 0%nat l) as <-.
  { induction l as [|[v nl] l IH]; [done|]. cbn. by rewrite length_app, length_fmap, IH. }
  generalize (map_to_list L ≫= fun p => ekey p.1 <$> edges_ p.2). intros l.
  induction l as [|x l IH]; [done|]. cbn [list_to_set length].
  assert (list_to_set l ∖ {[x]} ⊆ (list_to_set l : gset Key)) as Hs by set_solver. apply subseteq_size in Hs.
  rewrite size_union_alt, size_singleton. lia.
Qed.

Lemma entries_empty L : entries L = 0%nat -> (forall v nl, L !! v = Some nl -> edges_ nl <> []) -> L = ∅.
Proof.
  intros H Hne. apply map_eq. intros v. rewrite lookup_empty. destruct (L !! v) as [nl|] eqn:E; [|done].
  rewrite (entries_delete L v nl E) in H. specialize (Hne v nl E). destruct (edges_ nl); [done|cbn in H; lia].
Qed.

(** ** The invariant of the map *)

Definition queue_over (q : PriorityQueue) (P : VertexId -> Prop) : Prop :=
  pq_ok MinAtTop q /\ forall v, is_Some (index_ q !! v) <-> P v.

Record map_ok (dsize : Key -> Z) (m : ExpirationMap) : Prop := {
  mo_lists : lists_ok dsize (neigLists_ m);
  mo_size : em_size_ m = Z.of_nat (entries (neigLists_ m));
  mo_small : Z.of_nat (entries (neigLists_ m)) < 2 ^ 53;
  mo_queue : queue_over (scoreQueue_ m) (fun v => is_Some (neigLists_ m !! v))
}.

(** The fields the layout changes while it looks for a block. *)
Definition with_search (q : PriorityQueue) (n : nat) (m : ExpirationMap) : ExpirationMap :=
  mkExpirationMap (stats_ m) (em_size_ m) (em_maxSize_ m) (conf_ m) (hvScorer_ m) q (neigLists_ m) n.

Definition searching (m m' : ExpirationMap) : Prop := exists q n, m' = with_search q n m.

Lemma searching_refl m : searching m m.
Proof. exists (scoreQueue_ m), (draws_ m). by destruct m. Qed.

Lemma searching_queue m m' q : searching m m' -> searching m (with_queue q m').
Proof. intros (q' & n & ->). by exists q, n. Qed.

Lemma searching_trans m1 m2 m3 : searching m1 m2 -> searching m2 m3 -> searching m1 m3.
Proof. intros (q & n & ->) (q' & n' & ->). by exists q', n'. Qed.

Lemma list_of_edges v m : edges_ (list_of v m) = list_edges (neigLists_ m) v.
Proof. unfold list_of, list_edges. by destruct (neigLists_ m !! v). Qed.

Section Writing.
Context (rand : nat -> Z) (Hrand : forall n, 0 <= rand n < 2 ^ 31).
Context (dsize : Key -> Z).

(** The scorers only need times that are numbers. *)
Definition times_num (L : gmap VertexId NeighborList) : Prop := forall v e, entry L v e -> num (tm_ e).

Lemma lists_ok_times L : lists_ok dsize L -> times_num L.
Proof. intros HL v e He. apply (lo_edge _ _ HL _ _ He). Qed.

Lemma score_ok v (i : nat) m : times_num (neigLists_ m) -> (i < length (list_edges (neigLists_ m) v))%nat ->
  Z.of_nat (entries (neigLists_ m)) < 2 ^ 53 ->
  exists s m', score rand v (Z.of_nat i) m = Ret (s, m') /\ num s /\ searching m m' /\ scoreQueue_ m' = scoreQueue_ m.
Proof.
  intros HL Hi Hsmall. destruct (lookup_lt_is_Some_2 _ _ Hi) as [e He].
  pose proof (entries_split (neigLists_ m) v) as Hsp.
  destruct (list_edges_nl _ _ _ _ He) as (nl & Hnl & He'). rewrite (lookup_list_edges _ _ _ Hnl) in Hi, Hsp.
  pose proof (HL _ _ (list_edges_entry _ _ _ _ He)) as Hn.
  assert (num (dofZ (u64 (Z.of_nat (length (edges_ nl)) - Z.of_nat i)))) as Hlen.
  { rewrite u64_id by lia. apply num_dofZ. lia. }
  unfold score. rewrite Hnl. cbn [or_undefined mbind outcome_bind].
  destruct (hvScorer_ m) eqn:Es; rewrite ?(getNth_ok nl i e He'); cbn [mbind outcome_bind].
  1,2,3,4: eexists _, m; split_and!; [reflexivity| |apply searching_refl|done]; auto using num_dopp.
  eexists _, (draw m). split_and!; [reflexivity| | |by destruct m].
  - apply num_dofZ. specialize (Hrand (draws_ m)). lia.
  - exists (scoreQueue_ m), (S (draws_ m)). by destruct m.
Qed.

Lemma rescore_ok v (i : nat) m (P : VertexId -> Prop) : times_num (neigLists_ m) ->
  (i < length (list_edges (neigLists_ m) v))%nat -> Z.of_nat (entries (neigLists_ m)) < 2 ^ 53 ->
  queue_over (scoreQueue_ m) P ->
  exists m', rescore rand v (Z.of_nat i) m = Ret m' /\ searching m m' /\
    queue_over (scoreQueue_ m') (fun w => w = v \/ P w).
Proof.
  intros HL Hi Hsmall [Hq HP]. destruct (score_ok v i m HL Hi Hsmall) as (s & m1 & E & Hs & Hm1 & Eq).
  unfold rescore. rewrite E. cbn [mbind outcome_bind]. eexists. split; [reflexivity|].
  split; [by apply searching_queue|]. cbn. rewrite Eq.
  destruct (updateItem_ok MinAtTop s v (scoreQueue_ m) Hq Hs) as (Hok & Hother & k & Hk & _).
  split; [done|]. intros w. destruct (decide (w = v)) as [->|Hne].
  - rewrite Hk. split; [by left|]. eauto.
  - rewrite Hother by done. rewrite HP. tauto.
Qed.

Lemma remove_queue_ok v q (P Q : VertexId -> Prop) : queue_over q P -> (forall w, Q w <-> P w /\ w <> v) ->
  queue_over (removeItem v q) Q.
Proof.
  intros [Hq HP] HQ. destruct (removeItem_ok MinAtTop v q Hq) as [Hok Hix]. split; [done|].
  intros w. rewrite Hix, HQ, <- HP. destruct (decide (w = v)) as [->|Hne].
  - rewrite lookup_delete_eq. split; [by intros [? ?]|tauto].
  - rewrite lookup_delete_ne by done. tauto.
Qed.

Lemma queue_over_ext q (P Q : VertexId -> Prop) : queue_over q P -> (forall w, P w <-> Q w) -> queue_over q Q.
Proof. intros [Hq HP] H. split; [done|]. intros w. by rewrite HP. Qed.

(** *** Filling a block *)

Section Fill.
Context (m0 : ExpirationMap) (Hok : map_ok dsize m0).
#[local] Abbreviation L := (neigLists_ m0).

Record fill_inv (m : ExpirationMap) (block : Block) (nTaken : list (VertexId * Z)) (cnt : VertexId -> nat) : Prop := {
  fi_same : searching m0 m;
  fi_lists : prefix_lists L block cnt;
  fi_sized : sized dsize L block cnt;
  fi_taken v : default 0 (assoc_find v nTaken) = Z.of_nat (cnt v);
  fi_queue : queue_over (scoreQueue_ m) (fun v => (cnt v < length (list_edges L v))%nat)
}.

(** Before the last edge was added, the block was smaller than [max]. *)
Definition last_added (max : Z) (hv : VertexId) (cnt : VertexId -> nat) : Prop :=
  (forall v, cnt v = 0%nat) \/
  exists k b, cnt hv = S k /\ prefix_lists L b (upd cnt hv k) /\ sized dsize L b (upd cnt hv k) /\ serializedSize_ b < max.

Lemma searching_fields m m' : searching m m' ->
  neigLists_ m' = neigLists_ m /\ conf_ m' = conf_ m /\ em_size_ m' = em_size_ m /\ em_maxSize_ m' = em_maxSize_ m /\
  hvScorer_ m' = hvScorer_ m /\ stats_ m' = stats_ m.
Proof. by intros (q & n & ->). Qed.

Lemma list_length_small v : Z.of_nat (length (list_edges L v)) < 2 ^ 53.
Proof. pose proof (entries_split L v). pose proof (mo_small _ _ Hok). lia. Qed.

Lemma take_top_ok m block nTaken cnt : fill_inv m block nTaken cnt -> empty (scoreQueue_ m) = false ->
  exists hv block' nTaken' m', take_top rand block nTaken m = Ret (hv, block', nTaken', m') /\
    fill_inv m' block' nTaken' (upd cnt hv (S (cnt hv))) /\ (cnt hv < length (list_edges L hv))%nat.
Proof.
  intros [Hsame Hp Hs Ht [Hq Hdom]] Hne. destruct (getTopItem_ok MinAtTop _ Hq Hne) as (item & Etop & Hitem & _).
  set (hv := kid_ item) in *. pose proof (list_length_small hv) as Hlen.
  assert (cnt hv < length (list_edges L hv))%nat as Hlt by (apply Hdom; eauto).
  destruct (lookup_lt_is_Some_2 _ _ Hlt) as [e He].
  destruct (searching_fields _ _ Hsame) as (EL & _). pose proof (mo_lists _ _ Hok) as HL.
  destruct (addEdge_prefix dsize L HL block cnt hv e Hp He) as (block' & Eadd & Hp' & Hs').
  unfold take_top. rewrite Etop. cbn [mbind outcome_bind]. fold hv. rewrite Ht.
  assert (getNth (list_of hv m) (Z.of_nat (cnt hv)) = Ret e) as ->.
  { apply getNth_ok. by rewrite list_of_edges, EL. }
  cbn [mbind outcome_bind]. rewrite Eadd. cbn [mbind outcome_bind].
  rewrite list_of_edges, EL, !u64_id by lia.
  assert (forall v, default 0 (assoc_find v (assoc_set hv (Z.of_nat (cnt hv) + 1) nTaken)) =
    Z.of_nat (upd cnt hv (S (cnt hv)) v)) as Ht'.
  { intros v. rewrite assoc_find_set. unfold upd. case_decide; cbn; [lia|apply Ht]. }
  destruct (Z.eqb_spec (Z.of_nat (cnt hv)) (Z.of_nat (length (list_edges L hv)) - 1)) as [Elast|Nlast].
  - eexists hv, block', _, _. split; [reflexivity|]. split; [|done]. split; [by apply searching_queue|done|auto|done|].
    cbn. apply (remove_queue_ok hv _ (fun v => (cnt v < length (list_edges L v))%nat)); [done|].
    intros w. unfold upd. case_decide; [subst; lia|tauto].
  - replace (Z.of_nat (cnt hv) + 1) with (Z.of_nat (S (cnt hv))) by lia.
    destruct (rescore_ok hv (S (cnt hv)) m (fun v => (cnt v < length (list_edges L v))%nat)) as (m' & Er & Hm' & Hq');
      [by rewrite EL; apply lists_ok_times|rewrite EL; lia|rewrite EL; apply (mo_small _ _ Hok)|done|].
    rewrite Er. cbn [mbind outcome_bind]. eexists hv, block', _, m'. split; [reflexivity|]. split; [|done].
    split; [by eapply searching_trans|done|auto| |].
    + intros v. rewrite <- Ht'. do 3 f_equal. lia.
    + eapply queue_over_ext; [exact Hq'|]. intros w. unfold upd. cbn. case_decide; [subst; lia|].
      split; [intros [?|?]; [done|done]|by right].
Qed.

Lemma taken_grows cnt hv : (forall v, (cnt v <= length (list_edges L v))%nat) -> (cnt hv < length (list_edges L hv))%nat ->
  size (taken L (upd cnt hv (S (cnt hv)))) = S (size (taken L cnt)).
Proof.
  intros Hr Hlt. destruct (lookup_lt_is_Some_2 _ _ Hlt) as [e He].
  destruct (list_edges_nl _ _ _ _ He) as (nl & Hnl & He').
  destruct (tracks_add dsize L (mo_lists _ _ Hok) cnt (taken L cnt) hv nl (cnt hv) e (tracks_of L cnt Hr) Hnl He' eq_refl) as [HT Hnew].
  apply tracks_taken in HT. rewrite <- HT, size_union, size_singleton by (by apply disjoint_singleton_l). done.
Qed.

Lemma taken_le_all cnt : (forall v, (cnt v <= length (list_edges L v))%nat) -> (size (taken L cnt) <= entries L)%nat.
Proof.
  intros Hr. etrans; [|apply all_entries_le]. apply subseteq_size. intros x.
  rewrite elem_of_taken. intros (v & nl & i & e & Hnl & Hi & _ & ->). apply elem_of_all.
  exists nl. split; [done|]. by eapply list_elem_of_lookup_2.
Qed.

Lemma fill_block_ok fuel : forall hv m block nTaken cnt,
  fill_inv m block nTaken cnt -> last_added (blockSize (conf_ m0)) hv cnt ->
  (entries L < fuel + size (taken L cnt))%nat ->
  exists hv' m' block' nTaken' cnt', fill_block rand fuel hv block nTaken m = Ret (hv', block', m') /\
    fill_inv m' block' nTaken' cnt' /\ last_added (blockSize (conf_ m0)) hv' cnt' /\
    (empty (scoreQueue_ m') = true \/ blockSize (conf_ m0) <= serializedSize_ block').
Proof.
  induction fuel as [|fuel IH]; intros hv m block nTaken cnt Hinv Hlast Hfuel.
  { pose proof (taken_le_all cnt (pb_range _ _ _ (fi_lists _ _ _ _ Hinv))). lia. }
  cbn [fill_block]. destruct (searching_fields _ _ (fi_same _ _ _ _ Hinv)) as (_ & Ec & _). rewrite Ec.
  destruct (empty (scoreQueue_ m)) eqn:Ee; cbn [negb andb].
  { exists hv, m, block, nTaken, cnt. split_and!; auto. }
  destruct (Z.ltb_spec (serializedSize_ block) (blockSize (conf_ m0))) as [Hlt|Hge].
  2:{ exists hv, m, block, nTaken, cnt. split_and!; auto. }
  destruct (take_top_ok m block nTaken cnt Hinv Ee) as (hv1 & block1 & nTaken1 & m1 & E & Hinv1 & Hroom).
  rewrite E. cbn [mbind outcome_bind]. apply (IH hv1 m1 block1 nTaken1 (upd cnt hv1 (S (cnt hv1))) Hinv1).
  - right. exists (cnt hv1), block. unfold upd at 1. rewrite decide_True by done.
    assert (forall v, cnt v = upd (upd cnt hv1 (S (cnt hv1))) hv1 (cnt hv1) v) as Ex.
    { intros v. unfold upd. repeat case_decide; congruence. }
    split_and!; [done|exact (prefix_ext _ _ _ _ Ex (fi_lists _ _ _ _ Hinv))|
      exact (sized_ext _ _ _ _ _ Ex (fi_sized _ _ _ _ Hinv))|done].
  - rewrite taken_grows; [lia|apply (pb_range _ _ _ (fi_lists _ _ _ _ Hinv))|done].
Qed.

(** *** Giving back the last edge *)

Lemma removeNewestEdge_ok block cnt h k : prefix_lists L block cnt -> cnt h = S k ->
  exists b', removeNewestEdge h block = Ret b' /\ prefix_lists L b' (upd cnt h k).
Proof.
  intros Hp Hk. pose proof Hp as [Hnd Hl Hr Hh]. pose proof (Hl h) as Hlh. rewrite decide_False in Hlh by lia.
  assert (k < length (list_edges L h))%nat as Hlt by (specialize (Hr h); lia).
  destruct (lookup_lt_is_Some_2 _ _ Hlt) as [e He]. rewrite Hk, (take_S_r _ _ _ He) in Hlh.
  pose proof (list_edges_entry _ _ _ _ He) as Hen.
  destruct (lo_edge _ _ (mo_lists _ _ Hok) _ _ Hen) as (_ & _ & _ & Hsz).
  unfold removeNewestEdge. rewrite Hlh. cbn [edges_]. unfold getNewestEdge. cbn [edges_].
  rewrite last_snoc. cbn [or_undefined mbind outcome_bind].
  assert (exists b1, (match assoc_find (toVertex_ e) (neigs_ block) with
      | None => Ret block
      | Some other =>
          match getEdgeAttributeData other h (tm_ e) with
          | Some _ => Ret block
          | None => n ← getSerializedSizeOf (cell (data_ e)); Ret (shrink n block)
          end
      end) = Ret b1 /\ same_header block b1 /\ neigs_ b1 = neigs_ block) as (b1 & -> & (H1 & H2 & H3) & En).
  { destruct (assoc_find (toVertex_ e) (neigs_ block)) as [other|]; [|exists block; by split_and!].
    destruct (getEdgeAttributeData other h (tm_ e)); [exists block; by split_and!|].
    rewrite Hsz. exists (shrink (dsize (und_key (ekey h e))) block). by split_and!. }
  cbn [mbind outcome_bind]. unfold NeighborList.removeNewestEdge. cbn [edges_ headVertex_].
  rewrite length_app, length_take, Nat.add_comm. cbn [length Nat.add pred].
  rewrite take_app_exact by (rewrite length_take; lia).
  eexists. split; [reflexivity|]. destruct k as [|k].
  - rewrite take_0. split; cbn.
    + rewrite En. apply assoc_erase_NoDup. by apply assoc_set_NoDup.
    + intros v. rewrite En, assoc_find_erase by (by apply assoc_set_NoDup). rewrite assoc_find_set. unfold upd.
      destruct (decide (v = h)); [done|apply Hl].
    + intros v. unfold upd. case_decide; [lia|apply Hr].
    + by rewrite H1, H2, H3.
  - destruct (take (S k) (list_edges L h)) as [|x l] eqn:Et.
    { apply (f_equal length) in Et. rewrite length_take in Et. cbn [length] in Et. lia. }
    split; cbn.
    + rewrite En. by apply assoc_set_NoDup.
    + intros v. rewrite En, assoc_find_set. unfold upd. case_decide as Ev; [|apply Hl].
      rewrite decide_False by done. subst v. by rewrite Et.
    + intros v. unfold upd. case_decide as Ev; [subst v; lia|apply Hr].
    + by rewrite H1, H2, H3.
Qed.

(** The candidate that only serves the statistics. *)
Lemma stats_candidate_ok block cnt : prefix_lists L block cnt ->
  exists c, foldM (fun candidate p => setEdgeCount L p.1 (Z.of_nat (length (edges_ p.2))) candidate)
    new_Candidate (neigs_ block) = Ret c.
Proof.
  intros [Hnd Hl Hr _]. pose proof (all_entries_le L). pose proof (mo_small _ _ Hok).
  destruct (set_all_ok dsize L ((fun p => (p.1, length (edges_ p.2))) <$> neigs_ block)) as (c & E & _).
  - apply (mo_lists _ _ Hok).
  - lia.
  - apply Forall_fmap, Forall_forall. intros [v nl] Hin. cbn.
    apply (assoc_find_elem v nl) in Hin; [|done]. rewrite Hl in Hin. case_decide; [done|]. injection Hin as <-.
    cbn. rewrite length_take. specialize (Hr v). lia.
  - exists c. unfold set_all in E. by rewrite foldM_fmap in E.
Qed.

Lemma empty_queue_over q P : queue_over q P -> (forall v, ~ P v) <-> empty q = true.
Proof.
  intros [Hq HP]. unfold empty. rewrite Z.eqb_eq. split.
  - intros Hn. assert (index_ q = ∅) as ->; [|by rewrite map_size_empty].
    apply map_eq. intros v. rewrite lookup_empty. destruct (index_ q !! v) eqn:E; [|done].
    exfalso. apply (Hn v), HP. eauto.
  - intros Hs v Hv. apply HP in Hv as [x Hx]. assert (index_ q = ∅) as E by (apply map_size_empty_inv; lia).
    by rewrite E, lookup_empty in Hx.
Qed.

Lemma block_size_0 : block_size dsize 0 ∅ = 8.
Proof. unfold block_size, data_total. by rewrite set_map_empty, set_fold_empty, size_empty. Qed.

Lemma no_entries block cnt : prefix_lists L block cnt -> sized dsize L block cnt -> (forall v, cnt v = 0%nat) ->
  serializedSize_ block = 8.
Proof.
  intros Hp Hs H0. rewrite Hs. assert (taken L cnt = ∅) as ->.
  { apply set_eq. intros x. rewrite elem_of_taken. split; [|set_solver].
    intros (v & nl & i & e & _ & _ & Hi & _). rewrite H0 in Hi. lia. }
  rewrite (prefix_heads L block (new_block 0) cnt); [apply block_size_0|done|].
  apply (prefix_ext L _ (fun _ => 0%nat)); [auto|apply new_prefix].
Qed.

(** A block with one entry. *)
Lemma one_entry block cnt hv e : prefix_lists L block cnt -> sized dsize L block cnt ->
  list_edges L hv !! 0%nat = Some e -> cnt hv = 1%nat -> (forall v, v <> hv -> cnt v = 0%nat) ->
  serializedSize_ block = u64 (36 + dsize (und_key (ekey hv e))).
Proof.
  intros Hp Hs He Hhv Hother. destruct (list_edges_nl _ _ _ _ He) as (nl & Hnl & He').
  assert (taken L cnt = {[ekey hv e]}) as ET.
  { apply set_eq. intros x. rewrite elem_of_taken, elem_of_singleton. split.
    - intros (v & nl' & i & e' & Hnl' & Hi & Hlt' & ->). destruct (decide (v = hv)) as [->|Hne]; [|rewrite Hother in Hlt' by done; lia].
      assert (i = 0%nat) as -> by lia. rewrite Hnl in Hnl'. injection Hnl' as <-. congruence.
    - intros ->. exists hv, nl, 0%nat, e. split_and!; done || lia. }
  assert (length (neigs_ block) = 1%nat) as En.
  { assert ((neigs_ block).*1 ≡ₚ [hv]) as Hperm; [|apply Permutation_length in Hperm; by rewrite length_fmap in Hperm].
    apply NoDup_Permutation; [apply (pb_NoDup _ _ _ Hp)|apply NoDup_singleton|]. intros v.
    rewrite (prefix_keys L block cnt v Hp), list_elem_of_singleton. destruct (decide (v = hv)) as [->|Hne]; [naive_solver lia|].
    split; [|done]. intros H. by rewrite Hother in H. }
  rewrite Hs, ET, En. unfold block_size, data_total.
  rewrite set_map_singleton_L, set_fold_singleton, size_singleton. f_equal. lia.
Qed.

(** The block after the last edge was given back, when there was one too many. *)
Lemma trim_ok hv m block nTaken cnt :
  fill_inv m block nTaken cnt -> last_added (blockSize (conf_ m0)) hv cnt -> 8 <= blockSize (conf_ m0) ->
  exists block' m' cnt',
    trim rand (blockSize (conf_ m0)) hv block m = Ret (block', m') /\
    searching m0 m' /\ prefix_lists L block' cnt' /\
    block_size dsize (length (neigs_ block')) (taken L cnt') <= blockSize (conf_ m0) /\
    queue_over (scoreQueue_ m') (fun v => (cnt' v < length (list_edges L v))%nat) /\
    ((forall v, cnt' v = 0%nat) -> (forall v, cnt v = 0%nat) \/
       exists v e, entry L v e /\ blockSize (conf_ m0) < u64 (36 + dsize (und_key (ekey v e)))).
Proof.
  intros [Hsame Hp Hs _ Hq] Hlast H8. destruct (searching_fields _ _ Hsame) as (EL & _). unfold trim.
  destruct (Z.ltb_spec (blockSize (conf_ m0)) (serializedSize_ block)) as [Hbig|Hfit].
  2:{ exists block, m, cnt. rewrite <- Hs. split_and!; auto. }
  destruct Hlast as [H0|(k & bp & Hk & Hpp & Hsp & Hlt)].
  { rewrite (no_entries block cnt Hp Hs H0) in Hbig. lia. }
  destruct (removeNewestEdge_ok block cnt hv k Hp Hk) as (b1 & E1 & Hp1). rewrite E1. cbn [mbind outcome_bind].
  pose proof (pb_range _ _ _ Hp hv) as Hr. assert (k < length (list_edges L hv))%nat as Hkl by lia.
  assert (match assoc_find hv (neigs_ b1) with Some nlist => Z.of_nat (length (edges_ nlist)) | None => 0 end = Z.of_nat k) as ->.
  { rewrite (pb_lists _ _ _ Hp1). unfold upd. rewrite (decide_True (P := hv = hv)) by done.
    case_decide; cbn; [lia|]. rewrite length_take. lia. }
  destruct (rescore_ok hv k m (fun v => (cnt v < length (list_edges L v))%nat)) as (m' & Em & Hm' & Hq');
    [rewrite EL; apply lists_ok_times, (mo_lists _ _ Hok)|by rewrite EL|by rewrite EL; apply (mo_small _ _ Hok)|done|].
  cbv zeta. rewrite Em. cbn [mbind outcome_bind]. exists b1, m', (upd cnt hv k). split_and!; [done| |done| | |].
  - by eapply searching_trans.
  - rewrite (prefix_heads L b1 bp _ Hp1 Hpp), <- Hsp. lia.
  - eapply queue_over_ext; [exact Hq'|]. intros w. cbn. unfold upd. case_decide; [subst; tauto|].
    split; [intros [?|?]; [done|done]|by right].
  - intros H0. right. destruct (lookup_lt_is_Some_2 _ _ Hkl) as [e He].
    assert (k = 0%nat) as ->. { specialize (H0 hv). unfold upd in H0. by rewrite decide_True in H0. }
    exists hv, e. split; [by eapply list_edges_entry|].
    rewrite (one_entry block cnt hv e Hp Hs He Hk) in Hbig; [done|].
    intros v Hv. specialize (H0 v). unfold upd in H0. by rewrite decide_False in H0.
Qed.

(** *** The block of a layout *)

(** Every edge fits a block of its own. *)
Definition edges_fit : Prop :=
  8 < blockSize (conf_ m0) /\ forall v e, entry L v e -> u64 (36 + dsize (und_key (ekey v e))) <= blockSize (conf_ m0).

Lemma fill_init : fill_inv m0 (new_block 0) [] (fun _ => 0%nat).
Proof.
  split; [apply searching_refl|apply new_prefix|apply new_sized_block|done|].
  eapply queue_over_ext; [apply (mo_queue _ _ Hok)|]. intros v. unfold list_edges. cbn. split.
  - intros [nl Hnl]. rewrite Hnl. destruct (lo_head _ _ (mo_lists _ _ Hok) _ _ Hnl) as (_ & Hne & _).
    destruct (edges_ nl); [done|cbn; lia].
  - destruct (L !! v); [done|cbn; lia].
Qed.

Lemma form_next_ok : 8 <= blockSize (conf_ m0) ->
  exists block m' cnt, getBlock rand (new_block 0) m0 = Ret (block, m') /\
    prefix_lists L block cnt /\ block_size dsize (length (neigs_ block)) (taken L cnt) <= blockSize (conf_ m0) /\
    (neigLists_ m' = L /\ conf_ m' = conf_ m0 /\ em_size_ m' = em_size_ m0 /\ em_maxSize_ m' = em_maxSize_ m0) /\
    queue_over (scoreQueue_ m') (fun v => (cnt v < length (list_edges L v))%nat) /\
    (edges_fit -> L <> ∅ -> exists v, cnt v <> 0%nat).
Proof.
  intros H8. unfold getBlock.
  destruct (fill_block_ok (S (entries L)) 0 m0 (new_block 0) [] (fun _ => 0%nat) fill_init) as
    (hv & m & block & nTaken & cnt & E & Hinv & Hlast & Hexit); [by left|lia|].
  rewrite E. cbn [mbind outcome_bind].
  destruct (trim_ok hv m block nTaken cnt Hinv Hlast H8) as (b1 & m1 & cnt1 & E1 & Hm1 & Hp1 & Hs1 & Hq1 & Hprog).
  rewrite E1. cbn [mbind outcome_bind]. destruct (searching_fields _ _ Hm1) as (EL & Ec & Es & Ex & _).
  destruct (stats_candidate_ok b1 cnt1 Hp1) as (c & E2). rewrite EL, E2. cbn [mbind outcome_bind].
  eexists b1, _, cnt1. split; [reflexivity|]. split_and!; try done.
  intros [H8' Hfit] Hne. destruct (neigs_ b1) as [|[v nl] ns] eqn:Eb.
  2:{ exists v. apply (prefix_keys L b1 cnt1 v Hp1). rewrite Eb. left. }
  exfalso. destruct Hprog as [H0|(v & e & He & Hbig)].
  - intros v. destruct (decide (cnt1 v = 0%nat)) as [?|Hv]; [done|].
    apply (prefix_keys L b1 cnt1 v Hp1) in Hv. rewrite Eb in Hv. set_solver.
  - destruct Hinv as [_ Hp Hs _ Hq]. destruct Hexit as [Hempty|Hfull].
    + apply map_choose in Hne as (v & nl & Hnl). apply (proj2 (empty_queue_over _ _ Hq)) with v in Hempty.
      rewrite H0, (lookup_list_edges _ _ _ Hnl) in Hempty.
      destruct (lo_head _ _ (mo_lists _ _ Hok) _ _ Hnl) as (_ & Hn & _). destruct (edges_ nl); [done|cbn in Hempty; lia].
    + rewrite (no_entries block cnt Hp Hs H0) in Hfull. lia.
  - specialize (Hfit v e He). lia.
Qed.
End Fill.

(** *** Taking the entries of a block away *)

Definition rest (L : gmap VertexId NeighborList) (cnt : VertexId -> nat) (v : VertexId) : option NeighborList :=
  nl ← L !! v;
  if decide (cnt v < length (edges_ nl))%nat then Some (mkNeighborList v (drop (cnt v) (edges_ nl))) else None.

Lemma rest_edges L L' cnt v : (forall v, L' !! v = rest L cnt v) -> list_edges L' v = drop (cnt v) (list_edges L v).
Proof.
  intros H. unfold list_edges. rewrite H. unfold rest. destruct (L !! v) as [nl|]; cbn; [|by rewrite drop_nil].
  case_decide; [done|]. by rewrite drop_ge by lia.
Qed.

Lemma rest_0 L cnt v : lists_ok dsize L -> cnt v = 0%nat -> rest L cnt v = L !! v.
Proof.
  intros HL E. unfold rest. destruct (L !! v) as [nl|] eqn:Hnl; [|done]. cbn. rewrite E.
  destruct (lo_head _ _ HL _ _ Hnl) as (Hh & Hne & _). destruct nl as [h es]; cbn in *. subst h.
  rewrite decide_True; [by rewrite drop_0|]. destruct es; [done|cbn; lia].
Qed.

(** What remains after prefixes of the lists are gone is well formed. *)
Lemma rest_ok L L' cnt : lists_ok dsize L -> (forall v, L' !! v = rest L cnt v) -> lists_ok dsize L'.
Proof.
  intros HL HR. assert (forall v e, entry L' v e -> exists i, list_edges L v !! i = Some e /\ (cnt v <= i)%nat) as Hent.
  { intros v e He. apply entry_list in He. rewrite (rest_edges L L' cnt v HR) in He.
    apply list_elem_of_lookup in He as [i Hi]. rewrite lookup_drop in Hi. exists (cnt v + i)%nat. split; [done|lia]. }
  split.
  - intros v nl Hnl. rewrite HR in Hnl. unfold rest in Hnl. apply bind_Some in Hnl as (nl0 & Hnl0 & E).
    case_decide as Hlt; [|done]. injection E as <-. cbn. destruct (lo_head _ _ HL _ _ Hnl0) as (_ & _ & Hs).
    split_and!; [done| |by apply by_time_drop]. intros E. apply (f_equal length) in E. rewrite length_drop in E. cbn in E. lia.
  - intros v e He. apply Hent in He as (i & Hi & _). apply (lo_edge _ _ HL). by eapply list_edges_entry.
  - intros v e nl o He Hnl Ho Hle. apply Hent in He as (i & Hi & _).
    pose proof (list_edges_entry _ _ _ _ Hi) as Hen.
    pose proof (rest_edges L L' cnt (toVertex_ e) HR) as Ed. rewrite (lookup_list_edges _ _ _ Hnl) in Ed.
    rewrite HR in Hnl. unfold rest in Hnl. apply bind_Some in Hnl as (nl0 & Hnl0 & E).
    case_decide as Hlt; [|done]. injection E as <-. cbn in *. rewrite (lookup_list_edges _ _ _ Hnl0) in Ed.
    destruct (lo_head _ _ HL _ _ Hnl0) as (_ & Hne & Hs).
    assert (edges_ nl0 !! cnt (toVertex_ e) = Some o) as Hco.
    { rewrite <- Ho. rewrite head_lookup, lookup_drop. by rewrite Nat.add_0_r. }
    destruct (edges_ nl0 !! 0%nat) as [o0|] eqn:E0; [|apply lookup_ge_None in E0; lia].
    assert (dkey (tm_ o0) <= dkey (tm_ e)) as Hle0.
    { destruct (decide (cnt (toVertex_ e) = 0%nat)) as [Ez|Ez].
      - rewrite Ez in Hco. rewrite E0 in Hco. injection Hco as ->. done.
      - pose proof (proj1 (by_time_lt _ _ _ _ _ Hs E0 Hco) ltac:(lia)). lia. }
    destruct (lo_mirror _ _ HL v e nl0 o0 Hen Hnl0) as (e' & Hin & Hk & Hd); [by rewrite head_lookup|done|].
    exists e'. split; [|done]. apply list_elem_of_lookup in Hin as [j Hj].
    assert (dkey (tm_ e') = dkey (tm_ e)) as Et by (unfold ekey, rev_key in Hk; by injection Hk).
    apply list_elem_of_lookup. exists (j - cnt (toVertex_ e))%nat. rewrite lookup_drop.
    replace (cnt (toVertex_ e) + (j - cnt (toVertex_ e)))%nat with j; [done|].
    pose proof (by_time_lt _ j (cnt (toVertex_ e)) e' o Hs Hj Hco). lia.
Qed.

(** The loop stops exactly at the newest edge of the block. *)
Lemma remove_until_ok h k : forall l nedge fuel size,
  by_time l -> Forall (fun e => num (tm_ e)) l -> l !! k = Some nedge -> (k < fuel)%nat -> Z.of_nat (S k) <= size < 2 ^ 64 ->
  remove_until fuel nedge (mkNeighborList h l) size = Ret (mkNeighborList h (drop (S k) l), size - Z.of_nat (S k)).
Proof.
  induction k as [|k IH]; intros l nedge fuel size Hs Hn Hk Hf Hsz; (destruct fuel as [|fuel]; [lia|]);
    (destruct l as [|x l]; [done|]); cbn in Hk.
  - injection Hk as ->. apply Forall_cons in Hn as [Hn _]. cbn [remove_until]. unfold getOldestEdge. cbn [edges_ head or_undefined mbind outcome_bind].
    rewrite Z.eqb_refl, deqb_refl by done. cbn [andb]. unfold removeOldestEdge. cbn [edges_ tail headVertex_ drop]. rewrite drop_0, u64_id by lia. done.
  - apply Forall_cons in Hn as [Hx Hn]. assert (num (tm_ nedge)) as Hnn.
    { rewrite Forall_forall in Hn. apply Hn. by eapply list_elem_of_lookup_2. }
    apply StronglySorted_inv in Hs as [Hs Hfirst]. rewrite Forall_forall in Hfirst.
    specialize (Hfirst nedge (list_elem_of_lookup_2 _ _ _ Hk)).
    cbn [remove_until]. unfold getOldestEdge. cbn [edges_ head or_undefined mbind outcome_bind].
    assert (deqb (tm_ x) (tm_ nedge) = false) as -> by (rewrite deqb_num by done; apply Z.eqb_neq; lia).
    rewrite andb_false_r. unfold removeOldestEdge. cbn [edges_ tail headVertex_ drop].
    rewrite (IH l nedge fuel); [|done|done|done|lia|rewrite u64_id; lia]. rewrite u64_id by lia. do 2 f_equal. lia.
Qed.

Section Remove.
Context (L : gmap VertexId NeighborList) (HL : lists_ok dsize L) (block : Block) (cnt : VertexId -> nat).
Context (Hp : prefix_lists L block cnt).
(** Which vertices the score queue has at first: the basic layouts leave out
    the lists that were taken completely, the smart layout has all lists. *)
Context (P0 : VertexId -> Prop) (HP0 : forall v, cnt v = 0%nat -> P0 v <-> (cnt v < length (list_edges L v))%nat).

(** The vertices it has when some lists have been handled. *)
Definition queued (ks : list VertexId) (v : VertexId) : Prop :=
  (v ∈ ks /\ (cnt v < length (list_edges L v))%nat) \/ (v ∉ ks /\ P0 v).

(** The counts of the lists handled so far. *)
Definition counts_done (ks : list VertexId) (v : VertexId) : nat := if decide (v ∈ ks) then cnt v else 0%nat.

Record removing (ks : list VertexId) (m : ExpirationMap) : Prop := {
  rm_lists v : neigLists_ m !! v = rest L (counts_done ks) v;
  rm_size : em_size_ m = Z.of_nat (entries (neigLists_ m));
  rm_small : Z.of_nat (entries (neigLists_ m)) < 2 ^ 53;
  rm_queue : queue_over (scoreQueue_ m) (queued ks)
}.

Lemma queued_other ks v w : w <> v -> queued (ks ++ [v]) w <-> queued ks w.
Proof. intros Hne. unfold queued. rewrite not_elem_of_app, elem_of_app, list_elem_of_singleton. tauto. Qed.

Lemma queued_new ks v : queued (ks ++ [v]) v <-> (cnt v < length (list_edges L v))%nat.
Proof. unfold queued. rewrite not_elem_of_app, elem_of_app, list_elem_of_singleton. tauto. Qed.

Lemma counts_done_other ks v w : w <> v -> counts_done (ks ++ [v]) w = counts_done ks w.
Proof. intros Hne. unfold counts_done. repeat case_decide; set_solver. Qed.

Lemma rest_done_other ks v w : w <> v -> rest L (counts_done (ks ++ [v])) w = rest L (counts_done ks) w.
Proof. intros Hne. unfold rest. by rewrite counts_done_other. Qed.

Lemma entries_update M v nl' k : (k <= length (list_edges M v))%nat -> length (edges_ nl') = (length (list_edges M v) - k)%nat ->
  Z.of_nat (entries (<[v := nl']> M)) = Z.of_nat (entries M) - Z.of_nat k.
Proof. intros Hk Hl. rewrite entries_insert, (entries_split M v), Hl. lia. Qed.

Lemma remove_list_ok ks v nl m : removing ks m -> v ∉ ks -> assoc_find v (neigs_ block) = Some nl ->
  returns (remove_list rand m (v, nl)) (fun m' => removing (ks ++ [v]) m' /\ conf_ m' = conf_ m /\ em_maxSize_ m' = em_maxSize_ m).
Proof.
  intros [Hl Hsz Hsm Hq] Hnin Hf. rewrite (pb_lists _ _ _ Hp) in Hf. case_decide as Hc; [done|]. injection Hf as <-.
  pose proof (pb_range _ _ _ Hp v) as Hr. set (k := pred (cnt v)).
  destruct (lookup_lt_is_Some_2 (list_edges L v) k) as [nedge Hn]; [lia|].
  destruct (list_edges_nl _ _ _ _ Hn) as (nl0 & Hnl0 & Hn0). destruct (lo_head _ _ HL _ _ Hnl0) as (Hh & Hne & Hs).
  assert (neigLists_ m !! v = Some nl0) as Hm.
  { rewrite Hl, rest_0 by (try done; unfold counts_done; by rewrite decide_False). done. }
  assert (list_edges L v = edges_ nl0) as EL by (by apply lookup_list_edges). rewrite EL in Hr, Hn |- *.
  destruct nl0 as [h0 l0]. cbn [headVertex_ edges_] in *. subst h0.
  unfold remove_list, getNewestEdge. cbn [snd headVertex_ edges_].
  assert (last (take (cnt v) l0) = Some nedge) as ->.
  { replace (cnt v) with (S k) by lia. rewrite (take_S_r _ _ _ Hn0). apply last_snoc. }
  cbn [or_undefined mbind outcome_bind]. unfold list_of at 1 2. rewrite Hm. cbn [from_option id edges_].
  pose proof (entries_split (neigLists_ m) v) as Esp. rewrite (lookup_list_edges _ _ _ Hm) in Esp.
  cbn [edges_] in Esp. rewrite (remove_until_ok v k); [|done| |done|lia|lia].
  2:{ apply Forall_forall. intros e He. apply (lo_edge _ _ HL v e). by eexists. }
  cbn [mbind outcome_bind edges_]. replace (S k) with (cnt v) by lia.
  assert (Z.of_nat (entries (<[v := mkNeighborList v (drop (cnt v) l0)]> (neigLists_ m))) =
    em_size_ m - Z.of_nat (cnt v)) as Ent.
  { rewrite (entries_update _ v _ (cnt v)); [by rewrite Hsz|by rewrite (lookup_list_edges _ _ _ Hm)|].
    cbn. by rewrite length_drop, (lookup_list_edges _ _ _ Hm). }
  assert (counts_done (ks ++ [v]) v = cnt v) as Ecv by (unfold counts_done; rewrite decide_True; [done|set_solver]).
  assert (u64 (em_size_ m - Z.of_nat (cnt v)) = em_size_ m - Z.of_nat (cnt v)) as Eu by (apply u64_id; lia).
  destruct (drop (cnt v) l0) as [|x es] eqn:Ed.
  - apply (f_equal length) in Ed as Hlen. rewrite length_drop in Hlen. cbn [length] in Hlen.
    apply returns_ret. split; [|done]. split; cbn.
    + intros w. destruct (decide (w = v)) as [->|Hw].
      * rewrite lookup_delete_eq. unfold rest. rewrite Hnl0, Ecv. cbn. by rewrite decide_False by lia.
      * rewrite lookup_delete_ne, lookup_insert_ne, rest_done_other by done. apply Hl.
    + rewrite delete_insert_eq. rewrite Eu, <- Ent, entries_insert. cbn. done.
    + rewrite delete_insert_eq. lia.
    + apply (remove_queue_ok v _ (queued ks)); [done|]. intros w. destruct (decide (w = v)) as [->|Hw].
      * rewrite queued_new, EL. split; [lia|by intros [_ ?]].
      * rewrite queued_other by done. tauto.
  - set (m1 := with_size _ _). apply (f_equal length) in Ed as Hlen. rewrite length_drop in Hlen. cbn [length] in Hlen.
    assert (forall w, neigLists_ m1 !! w = rest L (counts_done (ks ++ [v])) w) as Hlists1.
    { unfold m1. cbn.
      - intros w. destruct (decide (w = v)) as [->|Hw].
        + rewrite lookup_insert_eq. unfold rest. rewrite Hnl0, Ecv. cbn. rewrite decide_True, Ed by lia. done.
        + rewrite lookup_insert_ne, rest_done_other by done. apply Hl. }
    assert (em_size_ m1 = Z.of_nat (entries (neigLists_ m1)) /\ Z.of_nat (entries (neigLists_ m1)) < 2 ^ 53) as [Hsz1 Hsm1].
    { unfold m1. cbn. rewrite Eu, Ent. lia. }
    assert (lists_ok dsize (neigLists_ m1)) as HL1 by (eapply rest_ok; [exact HL|exact Hlists1]).
    assert (length (list_edges (neigLists_ m1) v) = S (length es)) as Hlen1.
    { unfold m1. cbn. unfold list_edges. by rewrite lookup_insert_eq. }
    destruct (rescore_ok v 0 m1 (queued ks)) as (m2 & E2 & Hm2 & Hq2);
      [by apply lists_ok_times|lia|exact Hsm1|exact Hq|].
    exists m2. split; [exact E2|]. split; [|by destruct Hm2 as (q & n & ->)].
    assert (queue_over (scoreQueue_ m2) (queued (ks ++ [v]))) as Hq3.
    { eapply queue_over_ext; [exact Hq2|]. intros w. destruct (decide (w = v)) as [->|Hw].
      - rewrite queued_new, EL. split; [lia|by left].
      - rewrite queued_other by done. tauto. }
    by destruct Hm2 as (q & n & ->).
Qed.

Lemma removeEdges_ok m : neigLists_ m = L -> em_size_ m = Z.of_nat (entries L) -> Z.of_nat (entries L) < 2 ^ 53 ->
  queue_over (scoreQueue_ m) P0 ->
  returns (removeEdges rand block m) (fun m' => map_ok dsize m' /\ (forall v, neigLists_ m' !! v = rest L cnt v) /\
    conf_ m' = conf_ m /\ em_maxSize_ m' = em_maxSize_ m).
Proof.
  intros EL Esz Hsm Hq.
  eapply returns_mono; [apply (returns_foldM (fun ds m' => removing ds.*1 m' /\ conf_ m' = conf_ m /\ em_maxSize_ m' = em_maxSize_ m))|].
  - split; [|done]. split; rewrite ?EL; try done; [intros v; by rewrite rest_0|].
    eapply queue_over_ext; [exact Hq|]. intros v. unfold queued. rewrite elem_of_nil. tauto.
  - intros ds [v nl] rs m1 En (Hrm & Hc & Hx). pose proof (pb_NoDup _ _ _ Hp) as Hnd. rewrite fmap_app. cbn.
    eapply returns_mono; [apply (remove_list_ok ds.*1 v nl m1 Hrm)|].
    + rewrite En, fmap_app in Hnd. apply NoDup_app in Hnd as (_ & Hd & _). intros Hin. apply (Hd v Hin). cbn. set_solver.
    + apply assoc_find_elem; [done|]. rewrite En. set_solver.
    + intros m2 (H1 & H2 & H3). split; [done|]. split; congruence.
  - intros m1 (Hrm & Hc & Hx).
    assert (forall v, neigLists_ m1 !! v = rest L cnt v) as Hl.
    { intros v. rewrite (rm_lists _ _ Hrm). unfold rest, counts_done. case_decide as Hin; [done|].
      assert (cnt v = 0%nat) as ->; [|done]. destruct (decide (cnt v = 0%nat)) as [?|Hv]; [done|].
      by apply (prefix_keys L block cnt v Hp) in Hv. }
    split; [|done]. split; [by eapply rest_ok|apply (rm_size _ _ Hrm)|apply (rm_small _ _ Hrm)|].
    eapply queue_over_ext; [apply (rm_queue _ _ Hrm)|]. intros v.
    transitivity (cnt v < length (list_edges L v))%nat.
    { unfold queued. destruct (decide (v ∈ (neigs_ block).*1)) as [Hin|Hin]; [tauto|]. rewrite <- HP0; [tauto|].
      destruct (decide (cnt v = 0%nat)) as [?|Hv]; [done|]. by apply (prefix_keys L block cnt v Hp) in Hv. }
    rewrite Hl. unfold rest, list_edges.
    destruct (L !! v) as [nl|]; cbn; [|split; [lia|by intros [? ?]]]. case_decide; split; eauto; [lia|by intros [? ?]].
Qed.
End Remove.
End Writing.
