(* ===== verification/Locality.v ===== *)
(** * The locality of a candidate

    [getLocality] divides, subtracts and multiplies doubles.  On the counters a
    candidate can have, the result is a number that is not negative, for each
    of the three metrics: this is what the assertion of [getBlockSmart] asks
    for.  The bounds come from the exponents: every intermediate value is zero,
    one or a normal number with a small exponent. *)

From Stdlib Require Import ZArith Lia SpecFloat.
From stdpp Require Import base numbers gmap strings list sorting.
From S2P Require Import Prelude.
From S2P Require Import Double.
From S2P Require Import Schema.
From S2P Require Import AttributeData.
From S2P Require Import NeighborList.
From S2P Require Import PriorityQueue.
From S2P Require Import Block.
From S2P Require Import Candidate.

(** ** Normal results *)

(** A mantissa of 53 digits. *)
Definition mantissa (m : positive) : Prop := 2 ^ 52 <= Zpos m < 2 ^ 53.

(** [shr_fexp] on at least 53 digits keeps the first 53. *)
Lemma shr_fexp_normal m e l d : 53 <= d -> 2 ^ (d - 1) <= Zpos m < 2 ^ d -> -1021 <= d + e ->
  2 ^ 52 <= shr_m (shr_fexp 53 1024 (Zpos m) e l).1 < 2 ^ 53 /\ (shr_fexp 53 1024 (Zpos m) e l).2 = d + e - 53.
Proof.
  intros Hd Hm He. unfold shr_fexp. cbn [Zdigits2]. rewrite (digits2_unique m d) by lia.
  assert (shr_m (shr_record_of_loc (Zpos m) l) = Zpos m) as Hl by by destruct l as [|[]].
  assert (fexp 53 1024 (d + e) - e = d - 53) as -> by (unfold fexp, emin; lia).
  unfold shr. destruct (d - 53) as [|p|p] eqn:Ep; [| |lia]; cbn [fst snd].
  - assert (d = 53) as -> by lia. rewrite Hl. lia.
  - rewrite iter_shr_m, Hl by (rewrite Hl; lia). split; [|lia].
    replace (d - 1) with (52 + Zpos p) in Hm by lia. replace d with (53 + Zpos p) in Hm by lia.
    rewrite !Z.pow_add_r in Hm by lia. split; [apply Z.div_le_lower_bound; lia|apply Z.div_lt_upper_bound; lia].
Qed.

(** Rounding a value with at least 53 digits and a moderate exponent. *)
Lemma round_normal m e l d : 53 <= d -> 2 ^ (d - 1) <= Zpos m < 2 ^ d -> -1021 <= d + e <= 1000 ->
  exists m' e', binary_round_aux 53 1024 false (Zpos m) e l = S754_finite false m' e' /\ mantissa m' /\
    (e' = d + e - 53 \/ (e' = d + e - 52 /\ Zpos m' = 2 ^ 52)).
Proof.
  intros Hd Hm He. unfold binary_round_aux. destruct (shr_fexp_normal m e l d Hd Hm ltac:(lia)) as [H1 H2].
  destruct (shr_fexp 53 1024 (Zpos m) e l) as [r1 e1]. cbn [fst snd] in H1, H2. subst e1.
  set (m2 := round_nearest_even _ _). assert (shr_m r1 <= m2 <= shr_m r1 + 1) as H3.
  { unfold m2, round_nearest_even. repeat case_match; lia. }
  clearbody m2. destruct m2 as [|p|p]; [lia| |lia]. destruct (decide (Zpos p < 2 ^ 53)) as [Hlt|Hge].
  - destruct (shr_fexp_normal p (d + e - 53) loc_Exact 53 ltac:(lia) ltac:(lia) ltac:(lia)) as [H4 H5].
    destruct (shr_fexp 53 1024 (Zpos p) (d + e - 53) loc_Exact) as [r3 e3]. cbn [fst snd] in H4, H5. subst e3.
    destruct (shr_m r3) as [|q|q]; [lia| |lia]. destruct (Z.leb_spec (53 + (d + e - 53) - 53) (1024 - 53)); [|lia].
    exists q, (53 + (d + e - 53) - 53). split; [done|]. split; [done|]. left. lia.
  - assert (Zpos p = 2 ^ 53) as Hp by lia. assert (p = 9007199254740992%positive) as -> by lia.
    unfold shr_fexp. cbn [Zdigits2]. rewrite (digits2_unique 9007199254740992 54) by lia.
    assert (fexp 53 1024 (54 + (d + e - 53)) - (d + e - 53) = 1) as -> by (unfold fexp, emin; lia).
    replace (shr (shr_record_of_loc (9007199254740992) loc_Exact) (d + e - 53) 1)
      with (Build_shr_record (4503599627370496) false false, d + e - 53 + 1) by reflexivity.
    cbn [shr_m]. destruct (Z.leb_spec (d + e - 53 + 1) (1024 - 53)); [|lia].
    exists 4503599627370496%positive, (d + e - 53 + 1). split; [reflexivity|]. split; [unfold mantissa; lia|]. right. lia.
Qed.

(** A normal number with an exponent in a range. *)
Definition normal (lo hi : Z) (b : double) : Prop :=
  exists m e, to_sf b = S754_finite false m e /\ b = of_sf (S754_finite false m e) /\ mantissa m /\ lo <= e <= hi.

Lemma normal_sf lo hi m e : mantissa m -> lo <= e <= hi -> -1074 <= e <= 971 -> normal lo hi (of_sf (S754_finite false m e)).
Proof.
  intros Hm He Hr. exists m, e. split; [|done]. unfold mantissa in Hm. cbn [of_sf].
  destruct (Z.ltb_spec (Zpos m) (2 ^ 52)); [lia|]. rewrite parts_sf by lia.
  destruct (Z.eqb_spec (e + 1075) 2047); [lia|]. destruct (Z.eqb_spec (e + 1075) 0); [lia|].
  replace (Zpos m - 2 ^ 52 + 2 ^ 52) with (Zpos m) by lia. f_equal. lia.
Qed.

Lemma normal_mono lo hi lo' hi' b : normal lo hi b -> lo' <= lo -> hi <= hi' -> normal lo' hi' b.
Proof. intros (m & e & H1 & H2 & H3 & H4) Hlo Hhi. exists m, e. split_and!; done || lia. Qed.

Lemma normal_finite_pos lo hi b : normal lo hi b -> finite_pos b.
Proof. intros (m & e & H & _). by exists m, e. Qed.

(** Finite and not negative. *)
Definition finite_nonneg (b : double) : Prop := nonneg b /\ b < dinf.

Lemma normal_nonneg lo hi b : -1074 <= lo -> hi <= 970 -> normal lo hi b -> finite_nonneg b.
Proof.
  intros Hlo Hhi (m & e & _ & -> & Hm & He). unfold mantissa in Hm. split.
  - apply of_sf_nonneg. cbn. lia.
  - cbn [of_sf sign_bit]. unfold dinf. destruct (Z.ltb_spec (Zpos m) (2 ^ 52)); lia.
Qed.

Lemma normal_dofZ n : 0 < n < 2 ^ 53 -> normal (-52) 0 (dofZ n).
Proof.
  intros Hn. destruct n as [|p|p]; [lia| |lia]. destruct (integer_form p) as (m & k & Hk & Hm & Hb); [lia|].
  destruct (sf_dofZ p m k Hk Hm Hb) as [E1 E2]. exists m, (- k). split_and!; done || lia.
Qed.

Lemma finite_dofZ n : 0 <= n < 2 ^ 53 -> finite_nonneg (dofZ n).
Proof.
  intros Hn. destruct (decide (n = 0)) as [->|]; [split; [by apply nonneg_dofZ|done]|].
  apply (normal_nonneg (-52) 0); [lia..|]. apply normal_dofZ. lia.
Qed.

(** ** Products and quotients of normal numbers *)

Lemma normal_dmul a b lo1 hi1 lo2 hi2 : normal lo1 hi1 a -> normal lo2 hi2 b ->
  -1000 <= lo1 + lo2 -> hi1 + hi2 <= 800 -> normal (lo1 + lo2 + 52) (hi1 + hi2 + 54) (dmul a b).
Proof.
  intros (m1 & e1 & E1 & _ & Hm1 & He1) (m2 & e2 & E2 & _ & Hm2 & He2) Hlo Hhi. unfold dmul. rewrite E1, E2.
  unfold mantissa in *. cbn [SFmul xorb]. 
  assert (2 ^ 104 <= Zpos (m1 * m2) < 2 ^ 106) as Hp.
  { rewrite Pos2Z.inj_mul. replace (2 ^ 104) with (2 ^ 52 * 2 ^ 52) by done. replace (2 ^ 106) with (2 ^ 53 * 2 ^ 53) by done. nia. }
  destruct (decide (Zpos (m1 * m2) < 2 ^ 105)) as [Hlt|Hge].
  - destruct (round_normal (m1 * m2) (e1 + e2) loc_Exact 105) as (m' & e' & -> & Hm' & He'); [lia|split; [exact (proj1 Hp)|exact Hlt]|lia|].
    apply normal_sf; [done|lia|lia].
  - destruct (round_normal (m1 * m2) (e1 + e2) loc_Exact 106) as (m' & e' & -> & Hm' & He');
      [lia|split; [change (106 - 1) with 105; lia|exact (proj2 Hp)]|lia|].
    apply normal_sf; [done|lia|lia].
Qed.

(** The quotient of two mantissas. *)
Lemma SFdiv_normal m1 e1 m2 e2 : mantissa m1 -> mantissa m2 -> -900 <= e1 - e2 <= 900 ->
  exists q l, SFdiv 53 1024 (S754_finite false m1 e1) (S754_finite false m2 e2) =
      binary_round_aux 53 1024 false (Zpos q) (e1 - e2 - 53) l /\
    Zpos q = Zpos m1 * 2 ^ 53 / Zpos m2 /\ 2 ^ 52 <= Zpos q < 2 ^ 54 /\ (Zpos m1 < Zpos m2 -> Zpos q < 2 ^ 53).
Proof.
  intros Hm1 Hm2 He. unfold mantissa in *. unfold SFdiv, SFdiv_core_binary. cbn [Zdigits2 xorb].
  rewrite (digits2_unique m1 53), (digits2_unique m2 53) by lia.
  assert (Z.min (fexp 53 1024 (53 + e1 - (53 + e2))) (e1 - e2) = e1 - e2 - 53) as -> by (unfold fexp, emin; lia).
  assert (e1 - e2 - (e1 - e2 - 53) = 53) as -> by lia. cbv iota. rewrite Z.shiftl_mul_pow2 by lia.
  assert (2 ^ 52 <= Zpos m1 * 2 ^ 53 / Zpos m2) as Hlo.
  { apply Z.div_le_lower_bound; [lia|]. replace (2 ^ 53) with (2 * 2 ^ 52) in * by done. nia. }
  assert (Zpos m1 * 2 ^ 53 / Zpos m2 < 2 ^ 54) as Hhi.
  { apply Z.div_lt_upper_bound; [lia|]. replace (2 ^ 54) with (4 * 2 ^ 52) by done. replace (2 ^ 53) with (2 * 2 ^ 52) in * by done. nia. }
  assert (Zpos m1 < Zpos m2 -> Zpos m1 * 2 ^ 53 / Zpos m2 < 2 ^ 53) as Hle.
  { intros Hlt. apply Z.div_lt_upper_bound; [lia|]. nia. }
  unfold Z.div in *. destruct (Z.div_eucl (Zpos m1 * 2 ^ 53) (Zpos m2)) as [q r]. destruct q as [|q|q]; [lia| |lia].
  exists q, (new_location (Zpos m2) r). by split_and!.
Qed.

Lemma normal_ddiv a b lo1 hi1 lo2 hi2 : normal lo1 hi1 a -> normal lo2 hi2 b ->
  -900 <= lo1 - hi2 -> hi1 - lo2 <= 900 -> normal (lo1 - hi2 - 54) (hi1 - lo2 - 50) (ddiv a b).
Proof.
  intros (m1 & e1 & E1 & _ & Hm1 & He1) (m2 & e2 & E2 & _ & Hm2 & He2) Hlo Hhi. unfold ddiv. rewrite E1, E2.
  destruct (SFdiv_normal m1 e1 m2 e2 Hm1 Hm2 ltac:(lia)) as (q & l & -> & _ & Hq & _).
  destruct (decide (Zpos q < 2 ^ 53)) as [Hlt|Hge].
  - destruct (round_normal q (e1 - e2 - 53) l 53) as (m' & e' & -> & Hm' & He'); [lia|lia|lia|]. apply normal_sf; [done|lia|lia].
  - destruct (round_normal q (e1 - e2 - 53) l 54) as (m' & e' & -> & Hm' & He'); [lia|change (54 - 1) with 53; lia|lia|].
    apply normal_sf; [done|lia|lia].
Qed.

(** ** Differences *)

Lemma binary_round_normal p e d : 0 < d -> 2 ^ (d - 1) <= Zpos p < 2 ^ d -> -1021 <= d + e <= 1000 ->
  exists m' e', binary_round 53 1024 false p e = S754_finite false m' e' /\ mantissa m' /\ d + e - 53 <= e' <= d + e - 52.
Proof.
  intros Hd Hp He. unfold binary_round, shl_align. rewrite (digits2_unique p d) by lia.
  assert (fexp 53 1024 (d + e) = d + e - 53) as -> by (unfold fexp, emin; lia).
  replace (d + e - 53 - e) with (d - 53) by lia. destruct (d - 53) as [|n|n] eqn:En.
  - destruct (round_normal p e loc_Exact d) as (m' & e' & -> & Hm' & He'); [lia..|]. exists m', e'. split_and!; done || lia.
  - destruct (round_normal p e loc_Exact d) as (m' & e' & -> & Hm' & He'); [lia..|]. exists m', e'. split_and!; done || lia.
  - assert (mantissa (Pos.iter xO p n)) as Hs.
    { unfold mantissa. rewrite iter_xO. replace 52 with (d - 1 + Zpos n) by lia. replace 53 with (d + Zpos n) by lia.
      rewrite !Z.pow_add_r by lia. nia. }
    destruct (round_normal (Pos.iter xO p n) (d + e - 53) loc_Exact 53) as (m' & e' & -> & Hm' & He'); [lia|done|lia|].
    exists m', e'. split_and!; done || lia.
Qed.

(** The difference of two normal numbers, the second with the smaller or the
    larger exponent, as the rounding of a difference of integers. *)
Lemma SFsub_aligned m1 e1 m2 e2 :
  SFsub 53 1024 (S754_finite false m1 e1) (S754_finite false m2 e2) =
    binary_normalize 53 1024 (Zpos m1 * 2 ^ (e1 - Z.min e1 e2) - Zpos m2 * 2 ^ (e2 - Z.min e1 e2)) (Z.min e1 e2) false.
Proof. cbn [SFsub cond_Zopp]. rewrite !align_shift by lia. done. Qed.

Lemma normalize_pos r e lo hi : 0 < lo -> 2 ^ (lo - 1) <= r < 2 ^ hi -> -1021 <= lo + e -> hi + e <= 1000 ->
  normal (lo + e - 53) (hi + e - 52) (of_sf (binary_normalize 53 1024 r e false)).
Proof.
  intros Hlo Hr Hle Hhe. assert (0 < r) by (pose proof (Z.pow_pos_nonneg 2 (lo - 1)); lia). destruct r as [|p|p]; [lia| |lia]. cbn [binary_normalize].
  pose proof (digits2_pos_bounds p) as Hd. set (d := Zpos (digits2_pos p)) in *. assert (0 < d) by done.
  assert (lo <= d <= hi) as Hb.
  { split.
    - destruct (decide (lo <= d)); [done|]. pose proof (Z.pow_le_mono_r 2 d (lo - 1) ltac:(lia) ltac:(lia)). lia.
    - destruct (decide (d <= hi)); [done|]. pose proof (Z.pow_le_mono_r 2 hi (d - 1) ltac:(lia) ltac:(lia)). lia. }
  destruct (binary_round_normal p e d) as (m' & e' & -> & Hm' & He'); [lia|lia|lia|]. apply normal_sf; [done|lia|lia].
Qed.

Lemma to_sf_dunit : to_sf dunit = S754_finite false 4503599627370496 (-52).
Proof. reflexivity. Qed.

(** [1 - q] for a normal number below one. *)
Lemma normal_one_minus q : normal (-110) (-53) q -> normal (-163) 900 (dsub dunit q).
Proof.
  intros (m & e & E & _ & Hm & He). unfold mantissa in Hm. unfold dsub. rewrite E, to_sf_dunit, SFsub_aligned.
  replace (Z.min (-52) e) with e by lia. replace (e - e) with 0 by lia. rewrite Z.mul_1_r.
  assert (2 ^ (-52 - e) = 2 * 2 ^ (-53 - e)) as E2 by (rewrite <- Z.pow_succ_r by lia; f_equal; lia).
  assert (1 <= 2 ^ (-53 - e)) as H1 by (pose proof (Z.pow_pos_nonneg 2 (-53 - e)); lia).
  assert (2 ^ (-e) = 2 ^ 53 * 2 ^ (-53 - e)) as E3 by (rewrite <- Z.pow_add_r by lia; f_equal; lia).
  eapply normal_mono; [apply (normalize_pos _ e 1 (- e))|lia|lia]; [lia| |lia|lia].
  change (2 ^ (1 - 1)) with 1. rewrite E2, E3. lia.
Qed.

Lemma normal_minus_one n : 2 <= n < 2 ^ 53 -> normal (-53) 2 (dsub (dofZ n) dunit).
Proof.
  intros Hn. destruct n as [|p|p]; [lia| |lia]. destruct (integer_form p) as (m & k & Hk & Hm & Hb); [lia|].
  destruct (sf_dofZ p m k Hk Hm Hb) as [_ E]. unfold dsub. rewrite E, to_sf_dunit, SFsub_aligned.
  replace (Z.min (- k) (-52)) with (-52) by lia. change (-52 - -52) with 0. rewrite Z.mul_1_r.
  assert (Zpos m * 2 ^ (- k - -52) = Zpos p * 2 ^ 52) as ->.
  { rewrite Hm, <- Z.mul_assoc, <- Z.pow_add_r by lia. do 2 f_equal. lia. }
  eapply normal_mono; [apply (normalize_pos _ (-52) 53 105)|lia|lia]; [lia| |lia|lia].
  change (53 - 1) with 52. replace (2 ^ 105) with (2 ^ 53 * 2 ^ 52) by done. lia.
Qed.

(** ** Quotients of counts *)

Lemma ddiv_zero b : finite_pos b -> ddiv dzero b = dzero.
Proof. intros (m & e & E). unfold ddiv. by rewrite E. Qed.

(** A part of a whole: zero, one, or a normal number below one. *)
Lemma part_of a b : 0 <= a <= b -> 0 < b < 2 ^ 53 ->
  ddiv (dofZ a) (dofZ b) = dzero \/ ddiv (dofZ a) (dofZ b) = dunit \/ normal (-110) (-53) (ddiv (dofZ a) (dofZ b)).
Proof.
  intros Ha Hb. destruct (decide (a = 0)) as [->|Hne].
  { left. apply ddiv_zero, finite_pos_dofZ. lia. }
  destruct a as [|p|p], b as [|q|q]; try lia. destruct (integer_form p) as (m1 & k1 & Hk1 & Hm1 & Hb1); [lia|].
  destruct (integer_form q) as (m2 & k2 & Hk2 & Hm2 & Hb2); [lia|].
  destruct (sf_dofZ p m1 k1 Hk1 Hm1 Hb1) as [_ E1]. destruct (sf_dofZ q m2 k2 Hk2 Hm2 Hb2) as [_ E2].
  destruct (decide (p = q)) as [->|Hpq]; [right; left; by apply (ddiv_self _ _ _ _ E1)|].
  assert (k2 <= k1 /\ (k1 = k2 -> Zpos m1 < Zpos m2)) as [Hk Heq].
  { split.
    - destruct (Z.le_gt_cases k2 k1) as [?|Hk]; [done|]. assert (0 < 2 ^ k1) by lia.
      assert (2 * 2 ^ k1 <= 2 ^ k2) by (rewrite <- Z.pow_succ_r by lia; apply Z.pow_le_mono_r; lia). nia.
    - intros ->. assert (0 < 2 ^ k2) by lia. nia. }
  unfold ddiv. rewrite E1, E2.
  destruct (SFdiv_normal m1 (- k1) m2 (- k2)) as (r & l & -> & _ & Hr & Hlt); [done|done|lia|].
  assert (forall m' e', mantissa m' -> e' <= -53 \/ (e' = -52 /\ Zpos m' = 2 ^ 52) -> -110 <= e' ->
    of_sf (S754_finite false m' e') = dunit \/ normal (-110) (-53) (of_sf (S754_finite false m' e'))) as Hcase.
  { intros m' e' Hm' [He'|[-> He']] Hlow; [right; apply normal_sf; [done|lia|lia]|left].
    assert (m' = 4503599627370496%positive) as -> by lia. reflexivity. }
  right. destruct (decide (Zpos r < 2 ^ 53)) as [Hsm|Hbig].
  - destruct (round_normal r (- k1 - - k2 - 53) l 53) as (m' & e' & -> & Hm' & He'); [lia|lia|lia|]. apply Hcase; [done| |lia].
    destruct He' as [?|[? ?]]; [left; lia|]. destruct (decide (k1 = k2)); [right; lia|left; lia].
  - assert (k1 <> k2) by (intros E; specialize (Hlt (Heq E)); lia).
    destruct (round_normal r (- k1 - - k2 - 53) l 54) as (m' & e' & -> & Hm' & He'); [lia|change (54 - 1) with 53; lia|lia|].
    apply Hcase; [done| |lia]. destruct He' as [?|[? ?]]; [left; lia|]. destruct (decide (k1 = k2 + 1)); [right; lia|left; lia].
Qed.

(** ** The metrics *)

Lemma finite_zero : finite_nonneg dzero.
Proof. by apply (finite_dofZ 0). Qed.

Lemma one_minus_part a b : 0 <= a <= b -> 0 < b < 2 ^ 53 -> finite_nonneg (dsub dunit (ddiv (dofZ a) (dofZ b))).
Proof.
  intros Ha Hb. destruct (part_of a b Ha Hb) as [->|[->|H]].
  - change (dsub dunit dzero) with dunit. by apply (finite_dofZ 1).
  - rewrite dsub_unit. apply finite_zero.
  - apply (normal_nonneg (-163) 900); [lia..|]. by apply normal_one_minus.
Qed.

Lemma normal_half : normal (-53) (-53) (ddiv dunit dtwo).
Proof. change (ddiv dunit dtwo) with (of_sf (S754_finite false 4503599627370496 (-53))). by apply normal_sf. Qed.

Lemma pairs_quotient i n : 0 <= i < 2 ^ 53 -> 2 <= n < 2 ^ 53 ->
  finite_nonneg (ddiv (dofZ i) (dmul (dmul (ddiv dunit dtwo) (dofZ n)) (dsub (dofZ n) dunit))).
Proof.
  intros Hi Hn. pose proof (normal_dmul _ _ _ _ _ _ normal_half (normal_dofZ n ltac:(lia)) ltac:(lia) ltac:(lia)) as H1.
  pose proof (normal_dmul _ _ _ _ _ _ H1 (normal_minus_one n Hn) ltac:(lia) ltac:(lia)) as H2.
  destruct (decide (i = 0)) as [->|Hne].
  - rewrite ddiv_zero; [apply finite_zero|]. by eapply normal_finite_pos.
  - pose proof (normal_ddiv _ _ _ _ _ _ (normal_dofZ i ltac:(lia)) H2 ltac:(lia) ltac:(lia)) as H3.
    eapply normal_nonneg; [| |exact H3]; lia.
Qed.

Lemma getLocality_nonneg metric (c : Candidate) :
  0 <= outEdgeCount_ c <= edgeCount_ c -> 0 < edgeCount_ c < 2 ^ 53 ->
  (0 < length (numEdges_ c))%nat -> Z.of_nat (length (numEdges_ c)) < 2 ^ 53 -> Z.of_nat (length (internalEdges_ c)) < 2 ^ 53 ->
  nonneg (getLocality metric c).
Proof.
  intros Hout He Hn0 Hn Hi. unfold getLocality. set (n := Z.of_nat (length (numEdges_ c))) in *.
  pose proof (one_minus_part _ _ Hout He) as [Hr1 Hr2].
  set (coh := if n =? 1 then _ else _). assert (finite_nonneg coh) as [Hc1 Hc2].
  { unfold coh. destruct (Z.eqb_spec n 1); [apply (normal_nonneg (-53) (-53)); [lia..|apply normal_half]|]. apply pairs_quotient; lia. }
  destruct metric; [done|done|]. by apply nonneg_dmul.
Qed.
