(* ===== verification/InternalEdges.v ===== *)
(** * The internal edges of a candidate

    [internalEdges_] counts, for each pair of vertices, the entries that found
    their reverse entry in the candidate when they were added.  The layout only
    ever takes back the entries it added last, so the counts are those of a
    list of such events; there are at most as many of them as edges. *)

From Stdlib Require Import ZArith Lia.
From stdpp Require Import base numbers gmap strings list sorting.
From S2P Require Import Prelude.
From S2P Require Import Double.
From S2P Require Import Schema.
From S2P Require Import AttributeData.
From S2P Require Import NeighborList.
From S2P Require Import PriorityQueue.
From S2P Require Import Block.
From S2P Require Import Candidate.
From S2P Require Import ExpiredLists.
From S2P Require Import CandidateCounts.

(** ** Counts of events *)

Definition occurrences (k : SUEdge) (ks : list SUEdge) : nat := length (filter (fun x => x = k) ks).

Definition internal_is (ks : list SUEdge) (c : Candidate) : Prop :=
  NoDup (internalEdges_ c).*1 /\
  forall k, assoc_find k (internalEdges_ c) =
    if decide (occurrences k ks = 0%nat) then None else Some (Z.of_nat (occurrences k ks)).

Lemma present_occurrences_snoc k x ks : occurrences k (ks ++ [x]) = (occurrences k ks + if decide (x = k) then 1 else 0)%nat.
Proof. unfold occurrences. rewrite filter_app, length_app. f_equal. rewrite filter_cons. by case_decide. Qed.

Lemma present_occurrences_le k ks : (occurrences k ks <= length ks)%nat.
Proof. apply length_filter. Qed.

Lemma new_internal : internal_is [] new_Candidate.
Proof. split; [constructor|done]. Qed.

Lemma same_internal ks c c' : internalEdges_ c' = internalEdges_ c -> internal_is ks c -> internal_is ks c'.
Proof. intros E [H1 H2]. split; by rewrite E. Qed.

Lemma internal_length ks c : internal_is ks c -> (length (internalEdges_ c) <= length ks)%nat.
Proof.
  intros [Hnd Hf]. rewrite <- (length_fmap fst (internalEdges_ c)). apply submseteq_length, NoDup_submseteq; [done|].
  intros k Hk. destruct (decide (occurrences k ks = 0%nat)) as [E|E].
  - specialize (Hf k). rewrite decide_True in Hf by done. by apply assoc_find_None in Hf.
  - unfold occurrences in E. destruct (filter (fun x => x = k) ks) as [|x l] eqn:El; [done|].
    assert (x ∈ filter (fun x => x = k) ks) as Hx by (rewrite El; left). by apply list_elem_of_filter in Hx as [-> ?].
Qed.

Lemma incr_internal ks c c' k : internal_is ks c -> Z.of_nat (length ks) < 2 ^ 63 ->
  internalEdges_ c' = incr_count k (internalEdges_ c) -> internal_is (ks ++ [k]) c'.
Proof.
  intros [Hnd Hf] Hsm E. unfold internal_is. rewrite E. unfold incr_count.
  pose proof (present_occurrences_le k ks) as Hle.
  rewrite (Hf k). destruct (decide (occurrences k ks = 0%nat)) as [E0|E0]; (split; [by apply assoc_set_NoDup|]).
  - intros k'. rewrite assoc_find_set, present_occurrences_snoc. destruct (decide (k' = k)) as [->|Hne].
    + rewrite E0, (decide_True (P := k = k)) by done. done.
    + rewrite (decide_False (P := k = k')), Nat.add_0_r by congruence. apply Hf.
  - intros k'. rewrite assoc_find_set, present_occurrences_snoc. destruct (decide (k' = k)) as [->|Hne].
    + rewrite (decide_True (P := k = k)), decide_False, u64_id by lia || done. f_equal. lia.
    + rewrite (decide_False (P := k = k')), Nat.add_0_r by congruence. apply Hf.
Qed.

Lemma decr_internal ks c c' k : internal_is (ks ++ [k]) c -> Z.of_nat (length ks) < 2 ^ 63 ->
  internalEdges_ c' = decr_count k (internalEdges_ c) -> internal_is ks c'.
Proof.
  intros [Hnd Hf] Hsm E. unfold internal_is. rewrite E. unfold decr_count.
  pose proof (present_occurrences_le k ks) as Hle.
  assert (assoc_find k (internalEdges_ c) = Some (Z.of_nat (S (occurrences k ks)))) as ->.
  { rewrite (Hf k), present_occurrences_snoc, (decide_True (P := k = k)), decide_False by lia || done. do 2 f_equal. lia. }
  cbn [default from_option id]. rewrite u64_id by lia.
  replace (Z.of_nat (S (occurrences k ks)) - 1) with (Z.of_nat (occurrences k ks)) by lia.
  assert (forall k', k' <> k -> assoc_find k' (internalEdges_ c) =
    if decide (occurrences k' ks = 0%nat) then None else Some (Z.of_nat (occurrences k' ks))) as Hother.
  { intros k' Hne. rewrite (Hf k'), present_occurrences_snoc, (decide_False (P := k = k')), Nat.add_0_r by congruence. done. }
  destruct (Z.eqb_spec (Z.of_nat (occurrences k ks)) 0) as [E0|E0].
  - split; [by apply assoc_erase_NoDup, assoc_set_NoDup|]. intros k'.
    rewrite assoc_find_erase by (by apply assoc_set_NoDup). rewrite assoc_find_set.
    destruct (decide (k' = k)) as [->|Hne]; [by rewrite decide_True by lia|by apply Hother].
  - split; [by apply assoc_set_NoDup|]. intros k'. rewrite assoc_find_set.
    destruct (decide (k' = k)) as [->|Hne]; [by rewrite decide_False by lia|by apply Hother].
Qed.

(** ** The loops of [setEdgeCount] *)

Section Events.
Context (dsize : Key -> Z) (L : gmap VertexId NeighborList).
Context (HL : lists_ok dsize L).

(** What adding an entry counts: its reverse was taken before. *)
Definition event (cnt : VertexId -> nat) (h : VertexId) (e : NLEdge) : list SUEdge :=
  if decide (rev_key (ekey h e) ∈ taken L cnt) then [newSUEdge h (toVertex_ e)] else [].

(** The events of the entries from one count to another. *)
Definition events (cnt : VertexId -> nat) (h : VertexId) (a b : nat) : list SUEdge :=
  drop a (take b (list_edges L h)) ≫= event cnt h.

Lemma events_nil cnt h a : events cnt h a a = [].
Proof. unfold events. by rewrite drop_ge by (rewrite length_take; lia). Qed.

Lemma events_snoc cnt h a b e : (a <= b)%nat -> list_edges L h !! b = Some e -> events cnt h a (S b) = events cnt h a b ++ event cnt h e.
Proof.
  intros Hab He. unfold events. rewrite (take_S_r _ _ _ He). apply lookup_lt_Some in He.
  rewrite drop_app_le by (rewrite length_take; lia). rewrite bind_app. cbn. by rewrite app_nil_r.
Qed.

Lemma event_length cnt h e : (length (event cnt h e) <= 1)%nat.
Proof. unfold event. by case_decide; cbn; lia. Qed.

Lemma events_length cnt h a b : (length (events cnt h a b) <= b - a)%nat.
Proof.
  unfold events. transitivity (length (drop a (take b (list_edges L h)))); [|rewrite length_drop, length_take; lia].
  generalize (drop a (take b (list_edges L h))). intros l. induction l as [|e l IH]; [done|].
  cbn. rewrite length_app. pose proof (event_length cnt h e). lia.
Qed.

(** The entries of the vertex itself do not matter. *)
Lemma event_other cnt n h e : entry L h e -> event (upd cnt h n) h e = event cnt h e.
Proof.
  intros He. destruct (lo_edge _ _ HL _ _ He) as (Hne & _). unfold event.
  assert (rev_key (ekey h e) ∈ taken L (upd cnt h n) <-> rev_key (ekey h e) ∈ taken L cnt) as Hiff.
  { rewrite !elem_of_taken. unfold count_taken. split; intros (v & nl & i & x & Hnl & Hi & Hlt & E);
      exists v, nl, i, x; unfold upd in *; (assert (v = toVertex_ e) as -> by (by unfold ekey, rev_key in E; injection E));
      rewrite decide_False in * by done; done. }
  destruct (decide (rev_key (ekey h e) ∈ taken L cnt)) as [H1|H1]; [by rewrite decide_True by tauto|by rewrite decide_False by tauto].
Qed.

Lemma events_other cnt n h a b : events (upd cnt h n) h a b = events cnt h a b.
Proof.
  unfold events. assert (forall e, e ∈ drop a (take b (list_edges L h)) -> entry L h e) as He.
  { intros e Hin. apply entry_list. by apply subseteq_drop, subseteq_take in Hin. }
  induction (drop a (take b (list_edges L h))) as [|e l IH]; [done|]. cbn. rewrite event_other by (apply He; left). f_equal.
  apply IH. intros x Hx. apply He. by right.
Qed.

Lemma events_app cnt h a b b' : (a <= b <= b')%nat -> (b' <= length (list_edges L h))%nat ->
  events cnt h a b ++ events cnt h b b' = events cnt h a b'.
Proof.
  induction b' as [|b' IH]; intros Hb Hl; [assert (b = 0%nat) as -> by lia; by rewrite events_nil, app_nil_r|].
  destruct (decide (b = S b')) as [->|]; [by rewrite events_nil, app_nil_r|].
  destruct (lookup_lt_is_Some_2 (list_edges L h) b') as [e He]; [lia|].
  rewrite !(events_snoc _ _ _ b' e) by lia || done. rewrite app_assoc, IH by lia. done.
Qed.

(** The entries of all lists; their number is a [size_t]. *)
Context (All : gset Key) (Hall : forall v e, entry L v e -> ekey v e ∈ All) (Hsmall : is_u64 (Z.of_nat (size All))).

Section Loop.
Context (cnt : VertexId -> nat) (h : VertexId) (nl : NeighborList) (Hnl : L !! h = Some nl) (heads : Z).

Lemma event_of T k e : tracks L (upd cnt h k) T -> entry L h e ->
  event cnt h e = if bool_decide (rev_key (ekey h e) ∈ T) then [newSUEdge h (toVertex_ e)] else [].
Proof.
  intros HT He. rewrite <- (event_other cnt k h e He). apply tracks_taken in HT as ->. unfold event.
  by rewrite (decide_bool_decide (rev_key (ekey h e) ∈ taken L (upd cnt h k))).
Qed.

Lemma add_nth_internal ks c T j e c' : tracks L (upd cnt h j) T -> counts_of c cnt -> edges_ nl !! j = Some e ->
  internal_is ks c -> Z.of_nat (length ks) < 2 ^ 63 -> add_nth L h nl c (Z.of_nat j) = Ret c' ->
  internal_is (ks ++ event cnt h e) c'.
Proof.
  intros HT Hc Hj Hi Hsm. assert (entry L h e) as He by (exists nl; split; [done|by eapply list_elem_of_lookup_2]).
  unfold add_nth. rewrite (getNth_ok nl j e Hj). cbn [mbind outcome_bind].
  rewrite (reverse_found dsize L HL All Hall Hsmall cnt h nl Hnl _ T j j e) by done. cbn [mbind outcome_bind].
  rewrite (event_of T j e HT He). case_bool_decide.
  - destruct (cassert _); cbn [mbind outcome_bind]; [|done..]. intros [= <-]. by eapply incr_internal.
  - destruct (getSerializedSizeOf _); cbn [mbind outcome_bind]; [|done..]. intros [= <-]. by rewrite app_nil_r.
Qed.

Lemma remove_nth_internal ks c T j e c' : tracks L (upd cnt h (S j)) T -> counts_of c cnt -> edges_ nl !! j = Some e ->
  internal_is (ks ++ event cnt h e) c -> Z.of_nat (length ks) < 2 ^ 63 -> remove_nth L h nl c (Z.of_nat j) = Ret c' ->
  internal_is ks c'.
Proof.
  intros HT Hc Hj Hi Hsm. assert (entry L h e) as He by (exists nl; split; [done|by eapply list_elem_of_lookup_2]).
  unfold remove_nth. rewrite (getNth_ok nl j e Hj). cbn [mbind outcome_bind].
  rewrite (reverse_found dsize L HL All Hall Hsmall cnt h nl Hnl _ T (S j) j e) by done. cbn [mbind outcome_bind].
  rewrite (event_of T (S j) e HT He) in Hi. case_bool_decide.
  - intros [= <-]. by eapply decr_internal.
  - rewrite app_nil_r in Hi. destruct (cassert _); cbn [mbind outcome_bind]; [|done..].
    destruct (getSerializedSizeOf _); cbn [mbind outcome_bind]; [|done..]. by intros [= <-].
Qed.

Lemma events_cons a b e : (a < b)%nat -> edges_ nl !! a = Some e -> events cnt h a b = event cnt h e ++ events cnt h (S a) b.
Proof.
  intros Hab He. unfold events. rewrite (lookup_list_edges _ _ _ Hnl).
  by rewrite (drop_S _ e) by (by rewrite lookup_take_lt).
Qed.

Lemma add_loop_internal n : forall c T j ks c', tracks L (upd cnt h j) T -> counters dsize heads T c -> counts_of c cnt ->
  (j + n <= length (edges_ nl))%nat -> internal_is ks c -> Z.of_nat (length ks + n) < 2 ^ 63 ->
  foldM (add_nth L h nl) c (seqZ (Z.of_nat j) (Z.of_nat n)) = Ret c' -> internal_is (ks ++ events cnt h j (j + n)) c'.
Proof.
  induction n as [|n IH]; intros c T j ks c' HT Hct Hc Hlen Hi Hsm.
  - rewrite Nat.add_0_r, events_nil, app_nil_r. by intros [= <-].
  - destruct (lookup_lt_is_Some_2 (edges_ nl) j) as [e He]; [lia|].
    rewrite seqZ_cons by lia. cbn [foldM].
    destruct (add_nth_ok dsize L HL All Hall Hsmall cnt h nl Hnl heads c T j HT Hct Hc ltac:(lia)) as (c1 & T1 & E1 & HT1 & Hct1 & Hs1 & _).
    rewrite E1. cbn [mbind outcome_bind]. replace (Z.succ (Z.of_nat j)) with (Z.of_nat (S j)) by lia.
    replace (Z.pred (Z.of_nat (S n))) with (Z.of_nat n) by lia. intros E.
    pose proof (event_length cnt h e) as Hev.
    rewrite (events_cons j (j + S n) e) by lia || done. rewrite app_assoc. replace (j + S n)%nat with (S j + n)%nat by lia.
    apply (IH c1 T1 (S j)); [done|done| |lia| | |done].
    + intros v. rewrite Hs1. apply Hc.
    + by apply (add_nth_internal ks c T j e c1 HT Hc He Hi ltac:(lia)).
    + rewrite length_app. lia.
Qed.

Lemma remove_loop_internal n : forall c T j ks c', tracks L (upd cnt h (j + n)) T -> counters dsize heads T c -> counts_of c cnt ->
  (j + n <= length (edges_ nl))%nat -> internal_is (ks ++ events cnt h j (j + n)) c -> Z.of_nat (length ks + n) < 2 ^ 63 ->
  foldM (remove_nth L h nl) c (reverse (seqZ (Z.of_nat j) (Z.of_nat n))) = Ret c' -> internal_is ks c'.
Proof.
  induction n as [|n IH]; intros c T j ks c' HT Hct Hc Hlen Hi Hsm.
  - rewrite Nat.add_0_r, events_nil, app_nil_r in Hi. by intros [= <-].
  - destruct (lookup_lt_is_Some_2 (edges_ nl) (j + n)) as [e He]; [lia|].
    replace (Z.of_nat (S n)) with (Z.of_nat n + 1) by lia. rewrite seqZ_app by lia. rewrite reverse_app.
    change (seqZ (Z.of_nat j + Z.of_nat n) 1) with [0 + (Z.of_nat j + Z.of_nat n)]. rewrite reverse_singleton. cbn [app foldM].
    replace (0 + (Z.of_nat j + Z.of_nat n)) with (Z.of_nat (j + n)) by lia.
    replace (j + S n)%nat with (S (j + n)) in * by lia.
    destruct (remove_nth_ok dsize L HL All Hall Hsmall cnt h nl Hnl heads c T (j + n) HT Hct Hc ltac:(lia)) as (c1 & T1 & E1 & HT1 & Hct1 & Hs1 & _).
    rewrite E1. cbn [mbind outcome_bind]. apply (IH c1 T1 j ks c'); [done|done| |lia| |lia].
    + intros v. rewrite Hs1. apply Hc.
    + rewrite (events_snoc cnt h j (j + n) e), app_assoc in Hi by (lia || by rewrite (lookup_list_edges _ _ _ Hnl)).
      apply (remove_nth_internal _ c T (j + n) e c1 HT Hc He Hi); [|done].
      rewrite length_app. pose proof (events_length cnt h j (j + n)). lia.
Qed.
End Loop.

(** ** [setEdgeCount] *)

(** After the loop the internal edges stay. *)
Lemma setEdgeCount_loop h n c c' nl : L !! h = Some nl -> getEdgeCount h c <> n -> setEdgeCount L h n c = Ret c' ->
  exists c1, (if getEdgeCount h c <? n then foldM (add_nth L h nl) c (seqZ (getEdgeCount h c) (n - getEdgeCount h c))
    else foldM (remove_nth L h nl) c (reverse (seqZ n (getEdgeCount h c - n)))) = Ret c1 /\
    internalEdges_ c' = internalEdges_ c1.
Proof.
  intros Hnl Hne. unfold setEdgeCount. rewrite (proj2 (Z.eqb_neq _ _) Hne), Hnl. cbn [or_undefined mbind outcome_bind].
  destruct (if getEdgeCount h c <? n then _ else _) as [c1| | |]; cbn [mbind outcome_bind]; [|done..].
  destruct (cassert _); cbn [mbind outcome_bind]; [|done..]. intros E. exists c1. split; [done|].
  destruct (n =? 0); [|destruct (getNth nl (n - 1)); cbn [mbind outcome_bind] in E; [|done..]];
    destruct (getEdgeCount h c =? 0); by injection E as <-.
Qed.

Lemma setEdgeCount_up h n c cnt nl ks c' : counted dsize L c cnt -> L !! h = Some nl -> (cnt h <= n <= length (edges_ nl))%nat ->
  internal_is ks c -> Z.of_nat (length ks + (n - cnt h)) < 2 ^ 63 -> setEdgeCount L h (Z.of_nat n) c = Ret c' ->
  internal_is (ks ++ events cnt h (cnt h) n) c'.
Proof.
  intros [_ Hc (T & HT & Hct) _ _] Hnl Hn Hi Hsm E. pose proof (getEdgeCount_of c cnt h Hc) as Eg.
  destruct (decide (cnt h = n)) as [<-|Hne].
  { unfold setEdgeCount in E. rewrite Eg, Z.eqb_refl in E. injection E as <-. by rewrite events_nil, app_nil_r. }
  destruct (setEdgeCount_loop h (Z.of_nat n) c c' nl Hnl ltac:(rewrite Eg; lia) E) as (c1 & E1 & Ei).
  apply (same_internal _ c1); [done|]. rewrite Eg, (proj2 (Z.ltb_lt _ _)), <- Nat2Z.inj_sub in E1 by lia.
  assert (tracks L (upd cnt h (cnt h)) T) as HTu.
  { apply (tracks_ext L cnt); [|done]. intros v. unfold upd. by case_decide; subst. }
  replace n with (cnt h + (n - cnt h))%nat at 1 by lia.
  by apply (add_loop_internal cnt h nl Hnl _ (n - cnt h) c T (cnt h) ks c1 HTu Hct Hc ltac:(lia) Hi Hsm).
Qed.

Lemma setEdgeCount_down h n c cnt nl ks c' : counted dsize L c cnt -> L !! h = Some nl -> (n <= cnt h <= length (edges_ nl))%nat ->
  internal_is (ks ++ events cnt h n (cnt h)) c -> Z.of_nat (length ks + (cnt h - n)) < 2 ^ 63 -> setEdgeCount L h (Z.of_nat n) c = Ret c' ->
  internal_is ks c'.
Proof.
  intros [_ Hc (T & HT & Hct) _ _] Hnl Hn Hi Hsm E. pose proof (getEdgeCount_of c cnt h Hc) as Eg.
  destruct (decide (cnt h = n)) as [<-|Hne].
  { unfold setEdgeCount in E. rewrite Eg, Z.eqb_refl in E. injection E as <-. by rewrite events_nil, app_nil_r in Hi. }
  destruct (setEdgeCount_loop h (Z.of_nat n) c c' nl Hnl ltac:(rewrite Eg; lia) E) as (c1 & E1 & Ei).
  apply (same_internal _ c1); [done|]. rewrite Eg, (proj2 (Z.ltb_ge _ _)), <- Nat2Z.inj_sub in E1 by lia.
  assert (tracks L (upd cnt h (n + (cnt h - n))) T) as HTu.
  { replace (n + (cnt h - n))%nat with (cnt h) by lia. apply (tracks_ext L cnt); [|done]. intros v. unfold upd. by case_decide; subst. }
  apply (remove_loop_internal cnt h nl Hnl _ (cnt h - n) c T n ks c1 HTu Hct Hc ltac:(lia)); [|done|done].
  by replace (n + (cnt h - n))%nat with (cnt h) by lia.
Qed.
End Events.
