(* ===== verification/SmartLayout.v ===== *)
(** * The smart layout

    [getBlockSmart] grows candidates edge by edge from seeds and keeps the one
    with the best locality.  Whatever the metric and the scores are, the growth
    ends, no assertion fails, and the candidate chosen takes at least one edge,
    takes a prefix of each list and fits a block.  A candidate between two
    steps is described by the counts it has taken; the calls of [setEdgeCount]
    that try a step and take it back leave it as it was. *)

From Stdlib Require Import ZArith Lia.
From stdpp Require Import base numbers gmap strings list sorting.
From S2P Require Import Prelude.
From S2P Require Import Double.
From S2P Require Import Schema.
From S2P Require Import AttributeData.
From S2P Require Import NeighborList.
From S2P Require Import PriorityQueue.
From S2P Require Import Block.
From S2P Require Import BlockContent.
From S2P Require Import Candidate.
From S2P Require Import Conf.
From S2P Require Import ExpirationMap.
From S2P Require Import ExpiredLists.
From S2P Require Import CandidateCounts.
From S2P Require Import BlockLayout.
From S2P Require Import BlockWriting.
From S2P Require Import Locality.
From S2P Require Import InternalEdges.

(** ** Configurations *)

(** The edges a block starts with. *)
Definition seeds (conf : Conf) : Z :=
  match layoutMode conf with LM_Smart => seedEdgeCount (smartLayoutConf conf) | _ => 1 end.

(** A block has room for as many edges with data of [n] bytes in one list. *)
Definition edge_room (conf : Conf) (n : Z) : Prop := 20 + seeds conf * (16 + n) <= blockSize conf.

Record layout_ok (conf : Conf) : Prop := {
  lk_size : 8 < blockSize conf < 2 ^ 63;
  lk_smart : layoutMode conf = LM_Smart ->
    1 <= seedEdgeCount (smartLayoutConf conf) /\ 1 <= initialCandidateCount (smartLayoutConf conf) /\
    initialCandidateSelectionPolicy (smartLayoutConf conf) <> ICS_nPolicies
}.

Lemma seeds_pos conf : layout_ok conf -> 1 <= seeds conf.
Proof. intros [_ Hs]. unfold seeds. destruct (layoutMode conf) eqn:E; [lia..|]. by apply Hs. Qed.

Lemma edge_room_fits conf n : layout_ok conf -> 0 <= n -> edge_room conf n -> 36 + n <= blockSize conf.
Proof. intros Hlay Hn Hroom. pose proof (seeds_pos conf Hlay). unfold edge_room in Hroom. nia. Qed.

(** ** The size of the entries taken *)

Section Size.
Context (dsize : Key -> Z) (L : gmap VertexId NeighborList).
Context (HL : lists_ok dsize L).

Definition ranged (cnt : VertexId -> nat) : Prop := forall v, (cnt v <= length (list_edges L v))%nat.

Definition heads (cnt : VertexId -> nat) : nat := size (filter (fun v => cnt v <> 0%nat) (dom L) : gset Z).

(** The serialized size of the entries, before it is reduced modulo 2^64. *)
Definition taken_size (cnt : VertexId -> nat) : Z :=
  8 + 12 * Z.of_nat (heads cnt) + 16 * Z.of_nat (size (taken L cnt)) + data_total dsize (taken L cnt).

Lemma dsize_nonneg v e : entry L v e -> 0 <= dsize (und_key (ekey v e)).
Proof.
  intros He. destruct (lo_edge _ _ HL _ _ He) as (_ & _ & Hwt & Hs). rewrite getSerializedSizeOf_ok in Hs by done.
  assert (dsize (und_key (ekey v e)) = u64 (Z.of_nat (length (enc_data (cell (data_ e)))))) as -> by congruence. apply u64_range.
Qed.

Lemma counted_ranged c cnt : counted dsize L c cnt -> ranged cnt.
Proof.
  clear HL. intros [_ _ (T & HT & _) _ _] v. destruct (decide (cnt v = 0%nat)) as [->|Hv]; [lia|].
  destruct (tr_range _ _ _ HT v) as (nl & Hnl & Hle); [lia|]. by rewrite (lookup_list_edges _ _ _ Hnl).
Qed.

Lemma counted_heads c cnt : counted dsize L c cnt -> length (numEdges_ c) = heads cnt.
Proof.
  clear HL. intros Hcd. pose proof Hcd as [Hnd Hc (T & HT & _) _ _].
  rewrite <- (length_fmap fst), <- (size_list_to_set (C := gset Z)) by done. unfold heads. f_equal. apply set_eq. intros v.
  rewrite elem_of_list_to_set, elem_of_filter, elem_of_dom. pose proof (Hc v) as Hv. split.
  - intros Hin. case_decide; [by apply assoc_find_None in Hv|]. split; [done|].
    destruct (tr_range _ _ _ HT v) as (nl & Hnl & _); [lia|eauto].
  - intros [Hne _]. by apply (counted_Some dsize L c cnt).
Qed.

Lemma counted_taken_size c cnt : counted dsize L c cnt -> Candidate.size_ c = u64 (taken_size cnt).
Proof.
  clear HL. intros Hcd. pose proof Hcd as [_ _ (T & HT & [_ _ H3]) _ _]. rewrite H3, (counted_heads c cnt Hcd).
  by apply tracks_taken in HT as ->.
Qed.

Lemma counted_edges c cnt : counted dsize L c cnt ->
  edgeCount_ c = Z.of_nat (size (taken L cnt)) /\ 0 <= outEdgeCount_ c <= edgeCount_ c.
Proof.
  clear HL. intros [_ _ (T & HT & [H1 H2 _]) _ _]. apply tracks_taken in HT as ->. split; [done|]. rewrite H1, H2.
  pose proof (dangling_le (taken L cnt)). lia.
Qed.

Lemma heads_step cnt h n : is_Some (L !! h) -> (heads (upd cnt h n) <= heads (upd cnt h (S n)) <= S (heads (upd cnt h n)))%nat.
Proof.
  clear HL. intros Hh. unfold heads. split.
  - apply subseteq_size. intros v. rewrite !elem_of_filter. unfold upd. case_decide; [|done]. by intros [_ ?].
  - transitivity (size ({[h]} ∪ filter (fun v => upd cnt h n v <> 0%nat) (dom L) : gset Z)).
    + apply subseteq_size. intros v. rewrite elem_of_union, elem_of_singleton, !elem_of_filter. unfold upd. case_decide; tauto.
    + rewrite size_union_alt, size_singleton.
      assert (filter (fun v => upd cnt h n v <> 0%nat) (dom L) ∖ {[h]} ⊆ (filter (fun v => upd cnt h n v <> 0%nat) (dom L) : gset Z)) as Hs by set_solver.
      apply subseteq_size in Hs. lia.
Qed.

Lemma heads_same cnt h n : n <> 0%nat -> heads (upd cnt h (S n)) = heads (upd cnt h n).
Proof.
  clear HL. intros Hn. unfold heads. f_equal. apply set_eq. intros v. rewrite !elem_of_filter. unfold upd. case_decide; [|done].
  split; intros [_ ?]; by split.
Qed.

(** Every list taken from has an entry taken. *)
Lemma heads_le cnt : ranged cnt -> (heads cnt <= size (taken L cnt))%nat.
Proof.
  clear HL. intros Hr. unfold heads. transitivity (size (set_map (fun x : Key => x.1.1) (taken L cnt) : gset Z)).
  - apply subseteq_size. intros v. rewrite elem_of_filter. intros [Hv _].
    destruct (lookup_lt_is_Some_2 (list_edges L v) 0) as [e He]; [specialize (Hr v); lia|].
    destruct (list_edges_nl _ _ _ _ He) as (nl & Hnl & He'). apply elem_of_map. exists (ekey v e). split; [done|].
    apply elem_of_taken. exists v, nl, 0%nat, e. split_and!; done || lia.
  - generalize (taken L cnt). intros T. induction T as [|x T Hx IH] using set_ind_L; [by rewrite set_map_empty, !size_empty|].
    rewrite set_map_union_L, set_map_singleton_L, size_union_alt, size_singleton, (size_union {[x]} T), size_singleton by set_solver.
    assert (set_map (fun x : Key => x.1.1) T ∖ {[x.1.1]} ⊆ (set_map (fun x : Key => x.1.1) T : gset Z)) as Hs by set_solver.
    apply subseteq_size in Hs. lia.
Qed.

(** One more entry. *)
Lemma taken_step cnt h n e : ranged cnt -> list_edges L h !! n = Some e ->
  size (taken L (upd cnt h (S n))) = S (size (taken L (upd cnt h n))) /\
  taken_size (upd cnt h n) + 16 <= taken_size (upd cnt h (S n)) <= taken_size (upd cnt h n) + 28 + dsize (und_key (ekey h e)) /\
  (n <> 0%nat -> taken_size (upd cnt h (S n)) <= taken_size (upd cnt h n) + 16 + dsize (und_key (ekey h e))).
Proof.
  intros Hr He. pose proof (lookup_lt_Some _ _ _ He) as Hlt. destruct (list_edges_nl _ _ _ _ He) as (nl & Hnl & He').
  assert (ranged (upd cnt h n)) as Hr1 by (intros v; unfold upd; case_decide; subst; [lia|apply Hr]).
  assert (upd cnt h n h = n) as Eh by (unfold upd; by rewrite decide_True).
  destruct (tracks_add dsize L HL (upd cnt h n) (taken L (upd cnt h n)) h nl n e (tracks_of L _ Hr1) Hnl He' Eh) as [HT Hnew].
  apply (tracks_ext L _ (upd cnt h (S n))) in HT; [|apply upd_upd]. apply tracks_taken in HT.
  pose proof (data_total_add dsize _ _ Hnew) as Hd. rewrite HT in Hd.
  assert (size (taken L (upd cnt h (S n))) = S (size (taken L (upd cnt h n)))) as Es.
  { rewrite <- HT, size_union, size_singleton by (by apply disjoint_singleton_l). done. }
  split; [done|]. pose proof (heads_step cnt h n ltac:(eauto)) as Hh.
  pose proof (dsize_nonneg h e (list_edges_entry _ _ _ _ He)) as H0.
  pose proof (heads_same cnt h n) as Hsame.
  unfold taken_size. rewrite Hd, Es. split; [case_decide; lia|]. intros Hn. rewrite (Hsame Hn). case_decide; lia.
Qed.

(** Several more entries. *)
Lemma taken_steps cnt h a b : ranged cnt -> (a <= b <= length (list_edges L h))%nat ->
  size (taken L (upd cnt h b)) = (size (taken L (upd cnt h a)) + (b - a))%nat /\
  taken_size (upd cnt h a) + 16 * Z.of_nat (b - a) <= taken_size (upd cnt h b).
Proof.
  intros Hr. induction b as [|b IH]; intros Hb; [assert (a = 0%nat) as -> by lia; rewrite Nat.sub_diag; lia|].
  destruct (decide (a = S b)) as [->|Hne]; [rewrite Nat.sub_diag; lia|].
  destruct (lookup_lt_is_Some_2 (list_edges L h) b) as [e He]; [lia|].
  destruct (taken_step cnt h b e Hr He) as (H1 & [H2 _] & _). destruct IH as [H3 H4]; [lia|]. lia.
Qed.

Lemma upd_same cnt h v : upd cnt h (cnt h) v = cnt v.
Proof. clear HL. unfold upd. by case_decide; subst. Qed.

Lemma taken_ext cnt cnt' : (forall v, cnt v = cnt' v) -> taken L cnt = taken L cnt'.
Proof.
  clear HL. intros E. apply set_eq. intros x. rewrite !elem_of_taken. unfold count_taken.
  split; intros (v & nl & i & e & ? & ? & ? & ?); exists v, nl, i, e; specialize (E v); split_and!; done || lia.
Qed.

Lemma taken_size_ext cnt cnt' : (forall v, cnt v = cnt' v) -> taken_size cnt = taken_size cnt'.
Proof.
  clear HL. intros E. unfold taken_size. rewrite (taken_ext cnt cnt' E). do 4 f_equal. unfold heads. do 2 f_equal.
  apply set_eq. intros v. rewrite !elem_of_filter. by rewrite E.
Qed.
End Size.

(** ** Growing a candidate *)

Section Growing.
Context (dsize : Key -> Z) (m : ExpirationMap) (Hok : map_ok dsize m).
#[local] Abbreviation L := (neigLists_ m).
#[local] Abbreviation maxBlockSize := (blockSize (conf_ m)).
Context (Hlay : layout_ok (conf_ m)) (Hmode : layoutMode (conf_ m) = LM_Smart).
Context (Hroom : forall v e, entry L v e -> edge_room (conf_ m) (dsize (und_key (ekey v e)))).

Lemma all_small : is_u64 (Z.of_nat (size (all_entries L))).
Proof. clear Hlay Hmode Hroom. pose proof (all_entries_le L). pose proof (mo_small _ _ Hok). lia. Qed.

Lemma taken_bound cnt : ranged L cnt -> (size (taken L cnt) <= entries L)%nat /\ Z.of_nat (size (taken L cnt)) < 2 ^ 53.
Proof.
  clear Hlay Hmode Hroom. intros Hr. assert (size (taken L cnt) <= entries L)%nat as H; [|pose proof (mo_small _ _ Hok); lia].
  etrans; [|apply all_entries_le]. apply subseteq_size. intros x. rewrite elem_of_taken. intros (v & nl & i & e & Hnl & Hi & _ & ->).
  apply elem_of_all. exists nl. split; [done|]. by eapply list_elem_of_lookup_2.
Qed.

(** An edge fits, and so does a full block with one more edge an [uint64_t]. *)
Lemma edge_small v i e : list_edges L v !! i = Some e ->
  0 <= dsize (und_key (ekey v e)) /\ 36 + dsize (und_key (ekey v e)) <= maxBlockSize /\
  maxBlockSize + 28 + dsize (und_key (ekey v e)) < 2 ^ 64.
Proof.
  clear Hmode. intros He%list_edges_entry. pose proof (dsize_nonneg dsize L (mo_lists _ _ Hok) v e He). specialize (Hroom v e He).
  pose proof (seeds_pos _ Hlay). destruct Hlay as [Hs _]. unfold edge_room in Hroom. nia.
Qed.

(** A candidate that has taken some counts; the second part bounds the internal
    edges it knows. *)
Record fair (cnt : VertexId -> nat) (c : Candidate) : Prop := {
  fr_counted : counted dsize L c cnt;
  fr_internal : exists ks, internal_is ks c /\ (length ks <= size (taken L cnt))%nat
}.

(** One that tries another count for one vertex. *)
Record held (cnt : VertexId -> nat) (h : VertexId) (n : nat) (c : Candidate) : Prop := {
  hd_counted : counted dsize L c (upd cnt h n);
  hd_range : (cnt h <= n <= length (list_edges L h))%nat;
  hd_internal : exists ks, internal_is (ks ++ events L cnt h (cnt h) n) c /\ (length ks <= size (taken L cnt))%nat
}.

Lemma fair_ext cnt cnt' c : (forall v, cnt v = cnt' v) -> fair cnt c -> fair cnt' c.
Proof. intros E [H1 H2]. split; [by apply (counted_ext dsize L c cnt)|by rewrite <- (taken_ext L cnt cnt' E)]. Qed.

Lemma held_ranged cnt h n c : held cnt h n c -> ranged L cnt.
Proof.
  intros [H1 H2 _] v. pose proof (counted_ranged dsize L c _ H1 v) as Hv. unfold upd in Hv. case_decide; [subst; lia|done].
Qed.

Lemma held_start cnt h c : fair cnt c -> held cnt h (cnt h) c.
Proof.
  intros [H1 (ks & H2 & H3)]. split.
  - apply (counted_ext dsize L c cnt); [|done]. intros v. by rewrite upd_same.
  - pose proof (counted_ranged dsize L c _ H1 h). lia.
  - exists ks. rewrite events_nil, app_nil_r. by split.
Qed.

Lemma held_fair cnt h n c : held cnt h n c -> fair (upd cnt h n) c.
Proof.
  intros Hh. pose proof (held_ranged _ _ _ _ Hh) as Hr. destruct Hh as [H1 H2 (ks & H3 & H4)]. split; [done|].
  exists (ks ++ events L cnt h (cnt h) n). split; [done|]. rewrite length_app.
  destruct (taken_steps dsize L (mo_lists _ _ Hok) cnt h (cnt h) n Hr H2) as [Es _].
  rewrite (taken_ext L (upd cnt h (cnt h)) cnt (upd_same cnt h)) in Es.
  pose proof (events_length L cnt h (cnt h) n). lia.
Qed.

Lemma held_small cnt h n c ks k : held cnt h n c -> (length ks <= size (taken L cnt))%nat -> (k <= length (list_edges L h))%nat ->
  Z.of_nat (length (ks ++ events L cnt h (cnt h) n) + k) < 2 ^ 63.
Proof.
  intros Hh Hks Hk. pose proof (held_ranged _ _ _ _ Hh) as Hr. pose proof (taken_bound cnt Hr) as [_ Hb].
  pose proof (events_length L cnt h (cnt h) n). pose proof (hd_range _ _ _ _ Hh). rewrite length_app.
  pose proof (entries_split L h). pose proof (mo_small _ _ Hok). lia.
Qed.

Lemma held_set cnt h n n' c : held cnt h n c -> (n <= n' <= length (list_edges L h))%nat ->
  returns (setEdgeCount L h (Z.of_nat n') c) (held cnt h n').
Proof.
  intros Hh Hn. pose proof Hh as [Hcd Hr (ks & Hi & Hks)].
  destruct (setEdgeCount_ok dsize L (mo_lists _ _ Hok) (all_entries L) (elem_of_all L) all_small c (upd cnt h n) h n' Hcd) as (c' & E & Hcd').
  { intros Hpos. destruct (lookup_lt_is_Some_2 (list_edges L h) (pred n')) as [e He]; [lia|].
    destruct (list_edges_nl _ _ _ _ He) as (nl & Hnl & _). exists nl. rewrite (lookup_list_edges _ _ _ Hnl) in Hn. split; [done|lia]. }
  exists c'. split; [done|]. split; [by apply (counted_ext dsize L c' (upd (upd cnt h n) h n')); [apply upd_upd|]|lia|].
  exists ks. split; [|done]. destruct (decide (n' = n)) as [->|Hne].
  - pose proof E as E'. unfold setEdgeCount in E'. rewrite (getEdgeCount_of c _ h (cd_counts _ _ _ _ Hcd)) in E'.
    unfold upd in E'. rewrite decide_True, Z.eqb_refl in E' by done. by injection E' as <-.
  - destruct (lookup_lt_is_Some_2 (list_edges L h) n) as [e He]; [lia|]. destruct (list_edges_nl _ _ _ _ He) as (nl & Hnl & _).
    assert (upd cnt h n h = n) as Eh by (unfold upd; by rewrite decide_True).
    rewrite <- (events_app L cnt h (cnt h) n n'), app_assoc, <- (events_other dsize L (mo_lists _ _ Hok) cnt n h n n') by lia.
    rewrite <- Eh at 3. apply (setEdgeCount_up dsize L (mo_lists _ _ Hok) (all_entries L) (elem_of_all L) all_small h n' c (upd cnt h n) nl _ c' Hcd Hnl); [|done| |done].
    + rewrite Eh, <- (lookup_list_edges _ _ _ Hnl). lia.
    + rewrite Eh. apply (held_small cnt h n c ks _ Hh Hks). lia.
Qed.

Lemma list_of_length v : length (edges_ (list_of v m)) = length (list_edges L v).
Proof. by rewrite list_of_edges. Qed.

Lemma held_undo cnt h n c : held cnt h n c -> returns (undo m h (Z.of_nat (cnt h)) c) (fair cnt).
Proof.
  intros Hh. pose proof Hh as [Hcd Hr (ks & Hi & Hks)]. pose proof (held_ranged _ _ _ _ Hh) as Hrg. unfold undo.
  rewrite list_of_length, (proj2 (Z.leb_le _ _)) by lia. cbn [cassert mbind outcome_bind].
  assert (upd cnt h n h = n) as Eh by (unfold upd; by rewrite decide_True).
  destruct (setEdgeCount_ok dsize L (mo_lists _ _ Hok) (all_entries L) (elem_of_all L) all_small c (upd cnt h n) h (cnt h) Hcd) as (c' & E & Hcd').
  { intros Hpos. destruct (lookup_lt_is_Some_2 (list_edges L h) (pred (cnt h))) as [e He]; [lia|].
    destruct (list_edges_nl _ _ _ _ He) as (nl & Hnl & _). exists nl. split; [done|]. rewrite <- (lookup_list_edges _ _ _ Hnl). lia. }
  exists c'. split; [done|]. split.
  { apply (counted_ext dsize L c' (upd (upd cnt h n) h (cnt h))); [|done]. intros v. by rewrite upd_upd, upd_same. }
  exists ks. split; [|done]. destruct (decide (n = cnt h)) as [->|Hne].
  - pose proof E as E'. unfold setEdgeCount in E'. rewrite (getEdgeCount_of c _ h (cd_counts _ _ _ _ Hcd)) in E'.
    unfold upd in E'. rewrite decide_True, Z.eqb_refl in E' by done. injection E' as <-. by rewrite events_nil, app_nil_r in Hi.
  - destruct (lookup_lt_is_Some_2 (list_edges L h) (cnt h)) as [e He]; [lia|]. destruct (list_edges_nl _ _ _ _ He) as (nl & Hnl & _).
    apply (setEdgeCount_down dsize L (mo_lists _ _ Hok) (all_entries L) (elem_of_all L) all_small h (cnt h) c (upd cnt h n) nl ks c' Hcd Hnl); [|by rewrite Eh, (events_other dsize L (mo_lists _ _ Hok))| |done].
    + rewrite Eh, <- (lookup_list_edges _ _ _ Hnl). lia.
    + rewrite Eh. pose proof (held_small cnt h n c ks (n - cnt h) Hh Hks ltac:(lia)). rewrite length_app in *. lia.
Qed.
(** *** Trying steps *)

Lemma data_nonneg cnt : 0 <= data_total dsize (taken L cnt).
Proof.
  clear Hlay Hmode Hroom. unfold data_total.
  assert (forall x, x ∈ (set_map und_key (taken L cnt) : gset Key) -> 0 <= dsize x) as Hd.
  { intros x (y & -> & Hy)%elem_of_map. apply elem_of_taken in Hy as (v & nl & i & e & Hnl & Hi & _ & ->).
    apply (dsize_nonneg dsize L (mo_lists _ _ Hok)). exists nl. split; [done|]. by eapply list_elem_of_lookup_2. }
  revert Hd. generalize (set_map und_key (taken L cnt) : gset Key).
  apply (set_fold_ind_L (fun r X => (forall x, x ∈ X -> 0 <= dsize x) -> 0 <= r)); [lia|].
  intros x X r _ IH Hd. pose proof (Hd x ltac:(set_solver)). specialize (IH ltac:(intros; apply Hd; set_solver)). lia.
Qed.

Lemma counted_exact c cnt : counted dsize L c cnt -> taken_size dsize L cnt < 2 ^ 64 -> Candidate.size_ c = taken_size dsize L cnt.
Proof.
  intros Hcd Hs. rewrite (counted_taken_size dsize L c cnt Hcd). apply u64_id. pose proof (data_nonneg cnt). unfold taken_size in *. lia.
Qed.

(** A step that was found: it takes more edges of its vertex and fits. *)
Definition best_ok (cnt : VertexId -> nat) (best : option Best) : Prop :=
  match best with
  | None => True
  | Some b => exists n, bestEdgeCount b = Z.of_nat n /\
      (cnt (bestHeadVertex b) < n <= length (list_edges L (bestHeadVertex b)))%nat /\
      taken_size dsize L (upd cnt (bestHeadVertex b) n) <= maxBlockSize
  end.

Lemma consider_ok cnt initLocality orgSize h n c best :
  best_ok cnt best -> (cnt h < n <= length (list_edges L h))%nat -> taken_size dsize L (upd cnt h n) <= maxBlockSize ->
  best_ok cnt (consider m initLocality orgSize h (Z.of_nat n) c best).
Proof.
  intros Hb Hn Hs. unfold consider. set (score := ddiv _ _).
  destruct best as [b|]; [destruct (dltb (bestScore b) score); [|done]|]; by exists n.
Qed.

(** One more edge of the vertex. *)
Lemma one_more cnt h n c : held cnt h n c -> (n < length (list_edges L h))%nat -> taken_size dsize L (upd cnt h n) <= maxBlockSize ->
  returns (setEdgeCount L h (Z.of_nat (S n)) c)
    (fun c' => held cnt h (S n) c' /\ Candidate.size_ c' = taken_size dsize L (upd cnt h (S n))).
Proof.
  intros Hh Hn Hs. eapply returns_mono; [apply (held_set cnt h n (S n) c Hh); lia|]. intros c' Hh'. split; [done|].
  apply counted_exact; [apply (hd_counted _ _ _ _ Hh')|].
  destruct (lookup_lt_is_Some_2 _ _ Hn) as [e He]. destruct (edge_small h n e He) as (_ & _ & Hlt).
  destruct (taken_step dsize L (mo_lists _ _ Hok) cnt h n e (held_ranged _ _ _ _ Hh) He) as (_ & Hst & _). lia.
Qed.

(** What trying steps gives: the candidate as it was, and a step that is good. *)
Definition tried (cnt : VertexId -> nat) (st : Candidate * option Best) : Prop := fair cnt st.1 /\ best_ok cnt st.2.

Lemma try_counts_returns initLocality orgSize orgMaxTime cnt h nl k : L !! h = Some nl -> forall n c best,
  (n + k)%nat = length (list_edges L h) -> held cnt h n c -> taken_size dsize L (upd cnt h n) <= maxBlockSize -> best_ok cnt best ->
  returns (try_counts m initLocality orgSize orgMaxTime h nl (seqZ (Z.of_nat n + 1) (Z.of_nat k)) c best)
    (fun st => (exists n', held cnt h n' st.1) /\ best_ok cnt st.2).
Proof.
  intros Hnl. induction k as [|k IH]; intros n c best Hk Hh Hs Hb.
  { apply returns_ret. split; [by exists n|done]. }
  rewrite seqZ_cons by lia. cbn [try_counts].
  destruct (lookup_lt_is_Some_2 (list_edges L h) n) as [e He]; [lia|].
  replace (Z.of_nat n + 1 - 1) with (Z.of_nat n) by lia.
  rewrite (getNth_ok nl n e) by (by rewrite <- (lookup_list_edges _ _ _ Hnl)). cbn [mbind outcome_bind].
  destruct (dltb orgMaxTime (tm_ e)); [apply returns_ret; split; [by exists n|done]|].
  replace (Z.of_nat n + 1) with (Z.of_nat (S n)) by lia.
  rewrite list_of_length, (proj2 (Z.leb_le _ _)) by lia. cbn [cassert mbind outcome_bind].
  eapply returns_bind; [apply (one_more cnt h n c Hh ltac:(lia) Hs)|]. intros c' [Hh' Es].
  destruct (Z.ltb_spec maxBlockSize (Candidate.size_ c')) as [Hbig|Hfits]; [apply returns_ret; split; [by exists (S n)|done]|].
  replace (Z.succ (Z.of_nat (S n))) with (Z.of_nat (S n) + 1) by lia. replace (Z.pred (Z.of_nat (S k))) with (Z.of_nat k) by lia.
  pose proof (hd_range _ _ _ _ Hh) as Hr.
  apply (IH (S n)); [lia|done|by rewrite <- Es|]. apply consider_ok; [done|lia|by rewrite <- Es].
Qed.

Lemma extend_present_ok initLocality orgSize orgMaxTime cnt st p : taken_size dsize L cnt <= maxBlockSize -> tried cnt st ->
  returns (extend_present m initLocality orgSize orgMaxTime st p) (tried cnt).
Proof.
  intros Hs [Hf Hb]. destruct st as [c best]. cbn [fst snd] in Hf, Hb. unfold extend_present. destruct (L !! p.1) as [nl|] eqn:Hnl.
  2:{ by apply returns_ret. }
  rewrite (getEdgeCount_of c cnt p.1 (cd_counts _ _ _ _ (fr_counted _ _ Hf))).
  pose proof (counted_ranged dsize L c cnt (fr_counted _ _ Hf) p.1) as Hr. rewrite <- (lookup_list_edges _ _ _ Hnl).
  rewrite <- Nat2Z.inj_sub by done.
  eapply returns_bind.
  - apply (try_counts_returns initLocality orgSize orgMaxTime cnt p.1 nl _ Hnl (cnt p.1) c best); [lia|by apply held_start| |done].
    by rewrite (taken_size_ext dsize L _ cnt (upd_same cnt p.1)).
  - intros [c' best'] [(n' & Hh) Hb']. cbn [fst snd] in Hh, Hb'.
    eapply returns_bind; [exact (held_undo cnt p.1 n' c' Hh)|]. intros c2 Hf2. by apply returns_ret.
Qed.

(** One step and back. *)
Lemma step_and_undo cnt h c : taken_size dsize L cnt <= maxBlockSize -> fair cnt c -> (cnt h < length (list_edges L h))%nat ->
  exists c1 c2, setEdgeCount L h (Z.of_nat (cnt h) + 1) c = Ret c1 /\ Candidate.size_ c1 = taken_size dsize L (upd cnt h (S (cnt h))) /\
    undo m h (Z.of_nat (cnt h)) c1 = Ret c2 /\ fair cnt c2.
Proof.
  intros Hs Hf Hlt. destruct (one_more cnt h (cnt h) c (held_start cnt h c Hf) Hlt) as (c1 & E1 & Hh & Es).
  { by rewrite (taken_size_ext dsize L _ cnt (upd_same cnt h)). }
  destruct (held_undo cnt h (S (cnt h)) c1 Hh) as (c2 & E2 & Hf2). exists c1, c2. split_and!; try done.
  by replace (Z.of_nat (cnt h) + 1) with (Z.of_nat (S (cnt h))) by lia.
Qed.

Lemma extend_one_step_ok initLocality orgSize cnt st p : taken_size dsize L cnt <= maxBlockSize -> tried cnt st ->
  returns (extend_one_step m initLocality orgSize st p) (tried cnt).
Proof.
  intros Hs [Hf Hb]. destruct st as [c best]. cbn [fst snd] in Hf, Hb. unfold extend_one_step. destruct (L !! p.1) as [nl|] eqn:Hnl.
  2:{ by apply returns_ret. }
  rewrite (getEdgeCount_of c cnt p.1 (cd_counts _ _ _ _ (fr_counted _ _ Hf))).
  pose proof (counted_ranged dsize L c cnt (fr_counted _ _ Hf) p.1) as Hr. rewrite <- (lookup_list_edges _ _ _ Hnl), list_of_length.
  destruct (Z.eqb_spec (Z.of_nat (cnt p.1)) (Z.of_nat (length (list_edges L p.1)))); [by apply returns_ret|].
  rewrite (proj2 (Z.leb_le _ _)) by lia. cbn [cassert mbind outcome_bind].
  destruct (step_and_undo cnt p.1 c Hs Hf ltac:(lia)) as (c1 & c2 & -> & Es & E2 & Hf2). cbn [mbind outcome_bind].
  cbv zeta. rewrite E2. cbn [mbind outcome_bind]. apply returns_ret. split; [done|]. cbn [snd].
  destruct (Z.leb_spec (Candidate.size_ c1) maxBlockSize); [|done].
  replace (Z.of_nat (cnt p.1) + 1) with (Z.of_nat (S (cnt p.1))) by lia. apply consider_ok; [done|lia|by rewrite <- Es].
Qed.

Lemma extend_from_queue_ok cnt items : taken_size dsize L cnt <= maxBlockSize -> forall c best, fair cnt c -> best_ok cnt best ->
  returns (extend_from_queue m items c best) (tried cnt).
Proof.
  intros Hs. induction items as [|item items IH]; intros c best Hf Hb; cbn [extend_from_queue].
  { destruct best; by apply returns_ret. }
  destruct best as [b|]; [by apply returns_ret|].
  rewrite (getEdgeCount_of c cnt (kid_ item) (cd_counts _ _ _ _ (fr_counted _ _ Hf))), list_of_length.
  pose proof (counted_ranged dsize L c cnt (fr_counted _ _ Hf) (kid_ item)) as Hr.
  destruct (Z.eqb_spec (Z.of_nat (cnt (kid_ item))) (Z.of_nat (length (list_edges L (kid_ item))))); [by apply IH|].
  rewrite (proj2 (Z.leb_le _ _)) by lia. cbn [cassert mbind outcome_bind].
  destruct (step_and_undo cnt (kid_ item) c Hs Hf ltac:(lia)) as (c1 & c2 & -> & Es & E2 & Hf2). cbn [mbind outcome_bind].
  cbv zeta. rewrite E2. cbn [mbind outcome_bind]. set (best := if Candidate.size_ c1 <=? _ then _ else _).
  assert (best_ok cnt best) as Hb'.
  { unfold best. destruct (Z.leb_spec (Candidate.size_ c1) maxBlockSize); [|done].
    exists (S (cnt (kid_ item))). cbn. split_and!; [lia|lia|lia|by rewrite <- Es]. }
  destruct (_ && _); [by apply returns_ret|by apply IH].
Qed.
(** *** One extension *)

Lemma newest_time c cnt v : counted dsize L c cnt -> cnt v <> 0%nat -> exists t, getNewestTime c = Ret t.
Proof.
  clear Hlay Hmode Hroom. intros Hcd Hv. pose proof Hcd as [_ _ (T & HT & _) Hq Ht]. specialize (Ht v). rewrite decide_False in Ht by done.
  destruct (tr_range _ _ _ HT v) as (nl & Hnl & Hle); [lia|]. rewrite Hnl in Ht. cbn [mbind option_bind] in Ht.
  destruct (lookup_lt_is_Some_2 (edges_ nl) (pred (cnt v))) as [e He]; [lia|]. rewrite He in Ht.
  destruct (index_ (timestamps_ c) !! v) as [x|] eqn:Ex; [|done].
  assert (empty (timestamps_ c) = false) as Hne.
  { unfold empty. apply Z.eqb_neq. intros E. assert (index_ (timestamps_ c) = ∅) as E' by (apply map_size_empty_inv; lia).
    by rewrite E', lookup_empty in Ex. }
  destruct (getTopItem_ok MaxAtTop _ Hq Hne) as (item & E & _). exists (key_ item). unfold getNewestTime. by rewrite E.
Qed.

(** A candidate that fits, is not empty and has at least [n] edges. *)
Definition good (n : nat) (c : Candidate) : Prop :=
  exists cnt, fair cnt c /\ taken_size dsize L cnt <= maxBlockSize /\ (exists v, cnt v <> 0%nat) /\ (n <= size (taken L cnt))%nat.

(** A step that was found is taken. *)
Lemma take_best cnt c b : fair cnt c -> taken_size dsize L cnt <= maxBlockSize -> best_ok cnt (Some b) ->
  bestEdgeCount b <= Z.of_nat (length (edges_ (list_of (bestHeadVertex b) m))) /\
  returns (setEdgeCount L (bestHeadVertex b) (bestEdgeCount b) c)
    (fun c' => good (S (size (taken L cnt))) c' /\ Candidate.size_ c < Candidate.size_ c').
Proof.
  intros Hf Hs (n & -> & Hn & Hfit). set (h := bestHeadVertex b) in *. split; [rewrite list_of_length; lia|].
  pose proof (held_start cnt h c Hf) as Hh. destruct (held_set cnt h (cnt h) n c Hh ltac:(lia)) as (c' & E & Hh'). exists c'. split; [done|].
  pose proof (held_ranged _ _ _ _ Hh) as Hr. destruct (taken_steps dsize L (mo_lists _ _ Hok) cnt h (cnt h) n Hr ltac:(lia)) as [Ht Hts].
  rewrite (taken_ext L _ cnt (upd_same cnt h)) in Ht. rewrite (taken_size_ext dsize L _ cnt (upd_same cnt h)) in Hts.
  pose proof (lk_size _ Hlay). split.
  - exists (upd cnt h n). split_and!; [by apply held_fair|done| |rewrite Ht; lia]. exists h. unfold upd. rewrite decide_True by done. lia.
  - rewrite (counted_exact c cnt (fr_counted _ _ Hf)), (counted_exact c' _ (hd_counted _ _ _ _ Hh')) by lia. lia.
Qed.

Lemma extendCandidate_ok n c : good n c ->
  returns (extendCandidate m c) (fun r => good n r.2 /\ (r.1 = false -> good (S n) r.2 /\ Candidate.size_ c < Candidate.size_ r.2)).
Proof.
  intros (cnt & Hf & Hs & [v Hv] & Hn). unfold extendCandidate.
  destruct (newest_time c cnt v (fr_counted _ _ Hf) Hv) as [t ->]. cbn [mbind outcome_bind].
  set (il := getLocality _ c). set (os := Candidate.size_ c).
  assert (forall f : Candidate * option Best -> VertexId * Z -> outcome (Candidate * option Best),
    (forall st p, tried cnt st -> returns (f st p) (tried cnt)) ->
    forall st l, tried cnt st -> returns (foldM f st l) (tried cnt)) as Hfold.
  { intros f Hstep st l Hst. apply (returns_foldM (fun _ => tried cnt)); [done|]. intros; by apply Hstep. }
  eapply returns_bind.
  { apply Hfold; [intros st p Hst; by apply extend_present_ok|by split]. }
  intros [c1 best1] [Hf1 Hb1]. cbn [fst snd] in Hf1, Hb1. eapply (returns_bind _ _ (tried cnt)).
  { destruct best1; [by apply returns_ret|]. apply Hfold; [intros st p Hst; by apply extend_one_step_ok|by split]. }
  intros [c2 best2] [Hf2 Hb2]. cbn [fst snd] in Hf2, Hb2. eapply returns_bind; [by apply extend_from_queue_ok|].
  intros [c3 best3] [Hf3 Hb3]. cbn [fst snd] in Hf3, Hb3. destruct best3 as [b|].
  - destruct (take_best cnt c3 b Hf3 Hs Hb3) as [Hle Htake]. rewrite (proj2 (Z.leb_le _ _) Hle). cbn [cassert mbind outcome_bind].
    eapply returns_bind; [exact Htake|]. intros c4 [(cnt4 & H1 & H2 & H3 & H4) Hlt]. apply returns_ret. cbn [fst snd].
    pose proof (lk_size _ Hlay).
    assert (os = Candidate.size_ c3) as Eos.
    { unfold os. rewrite (counted_exact c cnt (fr_counted _ _ Hf)), (counted_exact c3 cnt (fr_counted _ _ Hf3)) by lia. done. }
    split; [exists cnt4; split_and!; done || lia|]. intros _. split; [exists cnt4; split_and!; done || lia|lia].
  - apply returns_ret. cbn [fst snd]. split; [exists cnt; split_and!; [done|done|by exists v|done]|done].
Qed.

(** *** All candidates *)

Lemma extend_pass_ok n cands fin c : good n c -> Forall (good (S n)) cands -> Forall (good 0) fin ->
  returns (extend_pass m (cands, fin) c) (fun r => Forall (good (S n)) r.1 /\ Forall (good 0) r.2 /\
    (length r.1 + length r.2 = S (length cands + length fin))%nat).
Proof.
  intros Hc Hcs Hfs. unfold extend_pass. eapply returns_bind; [apply (extendCandidate_ok n c Hc)|].
  intros [isDone c'] [Hg Hmore]. cbn [fst snd] in Hg, Hmore.
  assert (good 0 c') as H0 by (destruct Hg as (cnt & ? & ? & ? & ?); exists cnt; split_and!; done || lia).
  destruct isDone.
  - apply returns_ret. cbn [fst snd]. rewrite length_app. split_and!; [done| |cbn; lia]. apply Forall_app. split; [done|by apply Forall_singleton].
  - destruct (Hmore eq_refl) as [Hg' Hlt]. rewrite (proj2 (Z.ltb_lt _ _) Hlt). cbn [cassert mbind outcome_bind].
    apply returns_ret. cbn [fst snd]. rewrite length_app. split_and!; [|done|cbn; lia]. apply Forall_app. split; [done|by apply Forall_singleton].
Qed.

(** Every pass adds an edge to the candidates that stay. *)
Lemma extend_all_ok fuel : forall n cands fin, Forall (good n) cands -> Forall (good 0) fin -> (entries L < fuel + n)%nat ->
  returns (extend_all m fuel cands fin) (fun fin' => Forall (good 0) fin' /\ length fin' = (length cands + length fin)%nat).
Proof.
  induction fuel as [|fuel IH]; intros n cands fin Hcs Hfs Hfuel; (destruct cands as [|c cands]; [by apply returns_ret|]).
  { exfalso. apply Forall_cons in Hcs as [(cnt & Hf & _ & _ & Hn) _].
    pose proof (taken_bound cnt (counted_ranged dsize L c cnt (fr_counted _ _ Hf))). lia. }
  set (all := c :: cands) in *. cbn [extend_all]. unfold all at 1. eapply returns_bind.
  - apply (returns_foldM (fun seen r => Forall (good (S n)) r.1 /\ Forall (good 0) r.2 /\
      (length r.1 + length r.2 = length seen + length fin)%nat)); [split_and!; [constructor|done|done]|].
    intros seen c1 rest [cs fs] El (H1 & H2 & H3). cbn [fst snd] in *. rewrite El, Forall_app, Forall_cons in Hcs. destruct Hcs as (_ & Hc1 & _).
    eapply returns_mono; [by apply (extend_pass_ok n cs fs c1)|]. intros [cs' fs'] (H4 & H5 & H6). rewrite length_app. cbn [fst snd length] in *.
    split_and!; [done|done|lia].
  - intros [cs fs] (H1 & H2 & H3). cbn [fst snd] in *. eapply returns_mono; [apply (IH (S n) cs fs H1 H2); lia|].
    intros fin' [H4 H5]. split; [done|]. lia.
Qed.
(** *** The choice *)

Lemma good_nonneg c metric : good 0 c -> nonneg (getLocality metric c).
Proof.
  intros (cnt & [Hcd (ks & Hi & Hks)] & _ & [v Hv] & _). pose proof (counted_ranged dsize L c cnt Hcd) as Hr.
  destruct (counted_edges dsize L c cnt Hcd) as [He Ho]. pose proof (taken_bound cnt Hr) as [_ Hb].
  assert (0 < size (taken L cnt))%nat as Hpos.
  { destruct (lookup_lt_is_Some_2 (list_edges L v) 0) as [e He0]; [specialize (Hr v); lia|].
    destruct (list_edges_nl _ _ _ _ He0) as (nl & Hnl & He').
    assert (size (taken L cnt) <> 0%nat); [|lia]. intros E. apply size_empty_inv in E.
    assert (ekey v e ∈ taken L cnt) as Hin; [|set_solver]. apply elem_of_taken. exists v, nl, 0%nat, e. split_and!; done || lia. }
  assert (length (numEdges_ c) <= size (taken L cnt))%nat as Hh.
  { rewrite (counted_heads dsize L c cnt Hcd). apply heads_le. exact Hr. }
  apply getLocality_nonneg; [lia|lia| |lia|].
  - pose proof (counted_Some dsize L c cnt v Hcd Hv) as Hin. destruct (numEdges_ c); [by apply elem_of_nil in Hin|cbn; lia].
  - pose proof (internal_length ks c Hi). lia.
Qed.

Lemma choose_best_ok fin : Forall (good 0) fin -> forall j bIndex bValue,
  returns (choose_best m fin j bIndex bValue) (fun i => i = bIndex \/ (j <= i < j + length fin)%nat).
Proof.
  induction 1 as [|c fin Hc _ IH]; intros j bIndex bValue; cbn [choose_best length]; [apply returns_ret; by left|].
  pose proof (good_nonneg c (localityMetric (smartLayoutConf (conf_ m))) Hc) as Hn.
  pose proof (nonneg_key _ Hn) as [Hk H0]. pose proof (proj1 Hn) as Hnum.
  rewrite dleb_num by (done || by vm_compute). rewrite Hk. change (dkey dzero) with 0.
  rewrite (proj2 (Z.leb_le _ _)) by done. cbn [cassert mbind outcome_bind].
  destruct (dltb bValue _); (eapply returns_mono; [apply IH|]); intros i Hi; cbn beta in Hi; lia.
Qed.

(** *** Seeds *)

Lemma none_taken : heads L (fun _ => 0%nat) = 0%nat /\ taken_size dsize L (fun _ => 0%nat) = 8.
Proof.
  assert (heads L (fun _ => 0%nat) = 0%nat) as Eh.
  { unfold heads. apply size_empty_iff. intros v. rewrite elem_of_filter. split; [by intros [? _]|by intros ?%elem_of_empty]. }
  split; [done|]. unfold taken_size. rewrite Eh, taken_0. unfold data_total. by rewrite set_map_empty, set_fold_empty, size_empty.
Qed.

Lemma seed_size v k : (0 < k <= length (list_edges L v))%nat ->
  seeds (conf_ m) * (taken_size dsize L (upd (fun _ => 0%nat) v k) - 20) <= Z.of_nat k * (maxBlockSize - 20).
Proof.
  assert (ranged L (fun _ => 0%nat)) as Hr by (intros w; lia). pose proof (seeds_pos _ Hlay) as Hs1.
  induction k as [|k IH]; intros Hk; [lia|]. destruct (lookup_lt_is_Some_2 (list_edges L v) k) as [e He]; [lia|].
  pose proof (Hroom v e (list_edges_entry _ _ _ _ He)) as Hroom1. unfold edge_room in Hroom1.
  destruct (taken_step dsize L (mo_lists _ _ Hok) (fun _ => 0%nat) v k e Hr He) as (_ & [_ H1] & H2).
  destruct (decide (k = 0%nat)) as [->|Hk0].
  - rewrite (taken_size_ext dsize L (upd (fun _ => 0%nat) v 0) (fun _ => 0%nat)) in H1 by (intros w; unfold upd; by case_decide).
    rewrite (proj2 none_taken) in H1. nia.
  - specialize (H2 Hk0). specialize (IH ltac:(lia)). nia.
Qed.

Lemma init_candidate_ok v : is_Some (L !! v) -> returns (init_candidate m v) (good 1).
Proof.
  intros [nl Hnl]. unfold init_candidate. rewrite Hnl. cbn [or_undefined mbind outcome_bind].
  destruct (lo_head _ _ (mo_lists _ _ Hok) _ _ Hnl) as (_ & Hne & _). pose proof (seeds_pos _ Hlay) as Hs1.
  assert (seeds (conf_ m) = seedEdgeCount (smartLayoutConf (conf_ m))) as <- by (unfold seeds; by rewrite Hmode).
  rewrite <- (lookup_list_edges _ _ _ Hnl) in *. set (len := length (list_edges L v)).
  assert (0 < len)%nat by (unfold len; destruct (list_edges L v); [done|cbn; lia]).
  set (k := Z.to_nat (Z.min (Z.of_nat len) (seeds (conf_ m)))). replace (Z.min (Z.of_nat len) (seeds (conf_ m))) with (Z.of_nat k) by lia.
  rewrite (proj2 (Z.leb_le _ _)) by lia. cbn [cassert mbind outcome_bind].
  assert (fair (fun _ => 0%nat) new_Candidate) as Hf by (split; [apply new_counted|exists []; split; [apply new_internal|cbn; lia]]).
  eapply returns_mono; [apply (held_set _ v 0 k new_Candidate (held_start _ v _ Hf)); fold len; lia|]. intros c Hh.
  exists (upd (fun _ => 0%nat) v k). split_and!.
  - by apply held_fair.
  - pose proof (seed_size v k ltac:(fold len; lia)). pose proof (lk_size _ Hlay).
    assert (maxBlockSize - 20 >= 0).
    { destruct (lookup_lt_is_Some_2 (list_edges L v) 0) as [e He]; [fold len; lia|]. destruct (edge_small v 0 e He). lia. }
    nia.
  - exists v. unfold upd. rewrite decide_True by done. lia.
  - destruct (taken_steps dsize L (mo_lists _ _ Hok) (fun _ => 0%nat) v 0 k (held_ranged _ _ _ _ Hh) ltac:(fold len; lia)) as [-> _]. lia.
Qed.

(** *** The block *)

Lemma lists_le_entries : (size L <= entries L)%nat.
Proof.
  pose proof (fun v nl Hnl => proj1 (proj2 (lo_head _ _ (mo_lists _ _ Hok) v nl Hnl))) as Hne. revert Hne. clear.
  generalize L. intros M. induction M as [|v nl M Hv IH] using map_ind; intros Hne; [rewrite map_size_empty; lia|].
  rewrite map_size_insert_None, (entries_fresh M v nl Hv) by done.
  assert (edges_ nl <> []) as H by (apply (Hne v); apply lookup_insert_eq).
  assert (size M <= entries M)%nat; [|destruct (edges_ nl); [done|cbn; lia]].
  apply IH. intros w nl' Hw. apply (Hne w). rewrite lookup_insert_ne; [done|congruence].
Qed.

Lemma getBlockSmart_ok : L <> ∅ ->
  exists b m' cnt, getBlockSmart (new_block 0) m = Ret (b, m') /\
    prefix_lists L b cnt /\ block_size dsize (length (neigs_ b)) (taken L cnt) <= maxBlockSize /\
    (neigLists_ m' = L /\ conf_ m' = conf_ m /\ em_size_ m' = em_size_ m /\ em_maxSize_ m' = em_maxSize_ m) /\
    scoreQueue_ m' = scoreQueue_ m /\ (exists v, cnt v <> 0%nat) /\ sized dsize L b cnt.
Proof.
  intros Hne. unfold getBlockSmart. set (k := Z.min _ _).
  destruct (mo_queue _ _ Hok) as [Hq Hdom].
  assert (length (items_ (scoreQueue_ m)) = size L) as Elen.
  { rewrite (pq_length MinAtTop _ Hq), <- !size_dom. f_equal. apply set_eq. intros v. rewrite !elem_of_dom. apply Hdom. }
  assert (0 < k) as Hk.
  { unfold k. destruct (lk_smart _ Hlay Hmode) as (_ & H1 & _). assert (size L <> 0%nat); [|lia].
    intros E. apply Hne. by apply map_size_empty_inv. }
  destruct (returns_foldM (fun seen cands => Forall (good 1) cands /\ length cands = length seen)
    (fun candidates j => item ← or_undefined (items_ (scoreQueue_ m) !! Z.to_nat j);
      candidate ← init_candidate m (kid_ item); Ret (candidates ++ [candidate])) (seqZ 0 k) []) as (cands & -> & Hcands & Hlen).
  { by split. }
  { intros seen j rest cs El [Hcs Hl]. assert (j ∈ seqZ 0 k) as Hj by (rewrite El; set_solver). apply elem_of_seqZ in Hj.
    destruct (lookup_lt_is_Some_2 (items_ (scoreQueue_ m)) (Z.to_nat j)) as [item Hitem]; [rewrite Elen; unfold k in Hj; lia|].
    rewrite Hitem. cbn [or_undefined mbind outcome_bind]. apply list_elem_of_lookup_2, (pq_index _ _ Hq) in Hitem.
    eapply returns_bind; [apply (init_candidate_ok (kid_ item)); apply Hdom; eauto|]. intros c Hc. apply returns_ret.
    rewrite Forall_app, Forall_singleton, !length_app, Hl. done. }
  cbn [mbind outcome_bind].
  destruct (extend_all_ok (S (entries L)) 1 cands []) as (fin & -> & Hfin & Hflen); [done|constructor|lia|]. cbn [mbind outcome_bind].
  rewrite length_seqZ in Hlen. cbn [length] in Hflen.
  destruct (choose_best_ok fin Hfin 0 0 (dopp dunit)) as (i & -> & Hi). cbn [mbind outcome_bind].
  destruct (lookup_lt_is_Some_2 fin i) as [c Hc]; [lia|]. rewrite Hc. cbn [or_undefined mbind outcome_bind].
  rewrite Forall_lookup in Hfin. destruct (Hfin i c Hc) as (cnt & Hf & Hs & Hv & _).
  set (m' := with_stats _ m).
  destruct (form_counted dsize m' c cnt (mo_lists _ _ Hok) (fr_counted _ _ Hf)) as (b & -> & Hp & Hsz). cbn [mbind outcome_bind].
  exists b, m', cnt. split_and!; try done. change (neigLists_ m') with L in Hp.
  rewrite <- (counted_size dsize L c cnt b (fr_counted _ _ Hf) Hp).
  pose proof (lk_size _ Hlay). rewrite (counted_exact c cnt (fr_counted _ _ Hf)); lia.
Qed.
End Growing.

(** ** Properties *)


(** The three vertices of the example, scored by their oldest edges, in blocks
    with room for two edges. *)
Definition smart_conf : Conf := setBlockSize (36 + 16 + 2 * example_size) (newConf "db" "/tmp" [] []).

Definition smart_map : ExpirationMap :=
  mkExpirationMap (newBlockStats LM_RCC_MIXED) 6 100 smart_conf OldScorer
    (updateItem MinAtTop (dofZ 5) 3 (updateItem MinAtTop (dofZ 3) 2 (updateItem MinAtTop (dofZ 3) 1 unbounded))) example_lists 0.

Lemma smart_map_ok : map_ok (fun _ => example_size) smart_map.
Proof.
  split; [exact example_lists_ok|by vm_compute..|]. split.
  - repeat (apply updateItem_ok; [|apply example_num; vm_compute; reflexivity]). apply new_ok.
  - intros v. rewrite <- !elem_of_dom. assert (dom (index_ (scoreQueue_ smart_map)) = dom (neigLists_ smart_map)) as ->; [|done].
    apply (bool_decide_unpack _). by vm_compute.
Qed.

Lemma smart_map_room v e : entry (neigLists_ smart_map) v e -> edge_room smart_conf example_size.
Proof. intros _. by vm_compute. Qed.

