(* ===== verification/ExpirationFlow.v ===== *)
(** * The flow of edges through the expiration map

    For every layout: every edge that enters the expiration map leaves it in
    exactly one block for each of its ends, in the order of arrival, and
    flushing ends.  The statements hold for every sink of blocks: the blocks
    do not depend on what the sink does with them. *)

From Stdlib Require Import ZArith Lia.
From stdpp Require Import base numbers gmap strings list sorting.
From S2P Require Import Prelude.
From S2P Require Import Double.
From S2P Require Import Schema.
From S2P Require Import AttributeData.
From S2P Require Import NeighborList.
From S2P Require Import PriorityQueue.
From S2P Require Import Block.
From S2P Require Import BlockContent.
From S2P Require Import Candidate.
From S2P Require Import Conf.
From S2P Require Import ExpirationMap.
From S2P Require Import ExpiredLists.
From S2P Require Import CandidateCounts.
From S2P Require Import BlockLayout.
From S2P Require Import BlockWriting.
From S2P Require Import SmartLayout.

(** ** Counting *)

Lemma entries_mono L' : forall L, (forall v, (length (list_edges L' v) <= length (list_edges L v))%nat) ->
  (entries L' <= entries L)%nat.
Proof.
  induction L' as [|v nl L' Hv IH] using map_ind; intros L H.
  { unfold entries at 1. rewrite map_fold_empty. lia. }
  rewrite (entries_fresh _ _ _ Hv), (entries_split L v). pose proof (H v) as Hlv.
  unfold list_edges at 1 in Hlv. rewrite lookup_insert_eq in Hlv. specialize (IH (delete v L)).
  assert (entries L' <= entries (delete v L))%nat; [|lia]. apply IH. intros w. destruct (decide (w = v)) as [->|Hne].
  - unfold list_edges at 1. rewrite Hv. cbn. lia.
  - specialize (H w). unfold list_edges in *. by rewrite lookup_insert_ne in H; [rewrite lookup_delete_ne|].
Qed.

Lemma entries_strict L L' v : (forall w, (length (list_edges L' w) <= length (list_edges L w))%nat) ->
  (length (list_edges L' v) < length (list_edges L v))%nat -> (entries L' < entries L)%nat.
Proof.
  intros H Hv. rewrite (entries_split L v), (entries_split L' v).
  assert (entries (delete v L') <= entries (delete v L))%nat; [|lia]. apply entries_mono. intros w. specialize (H w).
  unfold list_edges in *. destruct (decide (w = v)) as [->|]; [by rewrite !lookup_delete_eq|by rewrite !lookup_delete_ne].
Qed.

(** The edges a block has for a head vertex. *)
Definition block_list (v : VertexId) (b : Block) : list NLEdge :=
  match assoc_find v (neigs_ b) with Some nl => edges_ nl | None => [] end.

Definition block_lists (v : VertexId) (bs : list Block) : list NLEdge := concat (block_list v <$> bs).

Lemma block_lists_app v bs bs' : block_lists v (bs ++ bs') = block_lists v bs ++ block_lists v bs'.
Proof. unfold block_lists. by rewrite fmap_app, concat_app. Qed.

Lemma prefix_block_list L b cnt v : prefix_lists L b cnt -> block_list v b = take (cnt v) (list_edges L v).
Proof.
  intros Hp. unfold block_list. rewrite (pb_lists _ _ _ Hp). case_decide as E; [by rewrite E, take_0|done].
Qed.

(** Handing blocks to a sink in order. *)
Definition sink_all {G} `{BlockSink G} (bs : list Block) (g : G) : outcome G :=
  foldM (fun g b => sink_block b g) g bs.

Section Flow.
Context (rand : nat -> Z) (Hrand : forall n, 0 <= rand n < 2 ^ 31).
Context (dsize : Key -> Z).

(** What a written block is: a prefix of each list, within the size. *)
Definition written (L : gmap VertexId NeighborList) (conf : Conf) (b : Block) (cnt : VertexId -> nat) : Prop :=
  prefix_lists L b cnt /\ block_size dsize (length (neigs_ b)) (taken L cnt) <= blockSize conf.

(** A block has room for the edges of the map. *)
Definition roomy (m : ExpirationMap) : Prop :=
  forall v e, entry (neigLists_ m) v e -> edge_room (conf_ m) (dsize (und_key (ekey v e))).

Lemma roomy_fits m : map_ok dsize m -> layout_ok (conf_ m) -> roomy m -> edges_fit dsize m.
Proof.
  intros Hok Hlay Hroom. pose proof (lk_size _ Hlay). split; [lia|]. intros v e He. specialize (Hroom v e He). unfold edge_room in Hroom.
  pose proof (seeds_pos _ Hlay). pose proof (dsize_nonneg dsize _ (mo_lists _ _ Hok) v e He). rewrite u64_id; nia.
Qed.

(** What each layout forms. *)
Lemma block_formed m : map_ok dsize m -> layout_ok (conf_ m) -> roomy m -> neigLists_ m <> ∅ ->
  exists b m1 cnt (P0 : VertexId -> Prop),
    match layoutMode (conf_ m) with LM_Smart => getBlockSmart (new_block 0) m | _ => getBlock rand (new_block 0) m end = Ret (b, m1) /\
    prefix_lists (neigLists_ m) b cnt /\ block_size dsize (length (neigs_ b)) (taken (neigLists_ m) cnt) <= blockSize (conf_ m) /\
    (neigLists_ m1 = neigLists_ m /\ conf_ m1 = conf_ m /\ em_size_ m1 = em_size_ m /\ em_maxSize_ m1 = em_maxSize_ m) /\
    queue_over (scoreQueue_ m1) P0 /\ (forall v, cnt v = 0%nat -> P0 v <-> (cnt v < length (list_edges (neigLists_ m) v))%nat) /\
    exists v, cnt v <> 0%nat.
Proof.
  intros Hok Hlay Hroom Hne. destruct (decide (layoutMode (conf_ m) = LM_Smart)) as [Hs|Hb].
  - destruct (getBlockSmart_ok dsize m Hok Hlay Hs Hroom Hne) as (b & m1 & cnt & E & Hp & Hsz & Hf & Eq & Hv & _).
    exists b, m1, cnt, (fun v => is_Some (neigLists_ m !! v)). rewrite Hs, Eq.
    do 4 (split; [done|]). split; [apply (mo_queue _ _ Hok)|]. split; [|done].
    intros v ->. unfold list_edges. split.
    + intros [nl Hnl]. rewrite Hnl. destruct (lo_head _ _ (mo_lists _ _ Hok) _ _ Hnl) as (_ & Hn & _). destruct (edges_ nl); [done|cbn; lia].
    + destruct (neigLists_ m !! v); [eauto|cbn; lia].
  - destruct (form_next_ok rand Hrand dsize m Hok) as (b & m1 & cnt & E & Hp & Hsz & Hf & Hq & Hprog); [pose proof (lk_size _ Hlay); lia|].
    exists b, m1, cnt, (fun v => cnt v < length (list_edges (neigLists_ m) v))%nat.
    split; [by destruct (layoutMode (conf_ m))|]. do 4 (split; [done|]). split; [done|]. apply Hprog; [by apply roomy_fits|done].
Qed.

Lemma writeBlock_ok m : map_ok dsize m -> layout_ok (conf_ m) -> roomy m -> neigLists_ m <> ∅ ->
  exists b m' cnt,
    (forall (G : Type) (sink : BlockSink G) (g : G),
       writeBlock rand m g = (g' ← sink_block b g; Ret (m', g'))) /\
    written (neigLists_ m) (conf_ m) b cnt /\ map_ok dsize m' /\
    (forall v, neigLists_ m' !! v = rest (neigLists_ m) cnt v) /\
    conf_ m' = conf_ m /\ em_maxSize_ m' = em_maxSize_ m /\ (exists v, cnt v <> 0%nat).
Proof.
  intros Hok Hlay Hroom Hne.
  destruct (block_formed m Hok Hlay Hroom Hne) as (b & m1 & cnt & P0 & E1 & Hp & Hs & (EL & Ec & Es & Ex) & Hq & HP0 & Hprog).
  destruct (removeEdges_ok rand Hrand dsize (neigLists_ m) (mo_lists _ _ Hok) b cnt Hp P0 HP0 m1 EL) as (m2 & E2 & Hok2 & Hl2 & Hc2 & Hx2).
  - rewrite Es. apply (mo_size _ _ Hok).
  - apply (mo_small _ _ Hok).
  - done.
  - exists b, m2, cnt. split; [|split_and!; try done; congruence]. intros G sink g. unfold writeBlock.
    rewrite E1. cbn [mbind outcome_bind]. rewrite E2. cbn [mbind outcome_bind].
    assert (Z.of_nat (size (neigLists_ m2)) =? getSize (scoreQueue_ m2) = true) as ->; [|done].
    apply Z.eqb_eq. unfold getSize. rewrite <- !size_dom. do 2 f_equal. apply set_eq. intros v.
    rewrite !elem_of_dom. symmetry. apply (mo_queue _ _ Hok2).
Qed.

Lemma written_split m m' conf b cnt v : written (neigLists_ m) conf b cnt ->
  (forall v, neigLists_ m' !! v = rest (neigLists_ m) cnt v) ->
  list_edges (neigLists_ m) v = block_list v b ++ list_edges (neigLists_ m') v.
Proof.
  intros [Hp _] Hr. rewrite (prefix_block_list _ _ _ v Hp), (rest_edges _ _ cnt v Hr). by rewrite take_drop.
Qed.

Lemma rest_roomy m m' b cnt : roomy m -> written (neigLists_ m) (conf_ m) b cnt ->
  (forall v, neigLists_ m' !! v = rest (neigLists_ m) cnt v) -> conf_ m' = conf_ m -> roomy m'.
Proof.
  intros Hf Hw Hr Hc v e He. rewrite Hc. apply (Hf v).
  apply entry_list in He. apply entry_list. rewrite (written_split m m' _ b cnt v Hw Hr). apply elem_of_app. by right.
Qed.

Lemma written_shrinks m m' b cnt v : written (neigLists_ m) (conf_ m) b cnt ->
  (forall v, neigLists_ m' !! v = rest (neigLists_ m) cnt v) -> cnt v <> 0%nat ->
  (entries (neigLists_ m') < entries (neigLists_ m))%nat.
Proof.
  intros Hw Hr Hv. apply (entries_strict _ _ v).
  - intros w. rewrite (written_split m m' _ b cnt w Hw Hr), length_app. lia.
  - destruct Hw as [Hp _]. pose proof (pb_range _ _ _ Hp v). rewrite (rest_edges _ _ cnt v Hr), length_drop. lia.
Qed.

(** Blocks within the size whose lists are in time order. *)
Definition good_block (conf : Conf) (b : Block) : Prop :=
  exists L cnt, lists_ok dsize L /\ written L conf b cnt.

Lemma flush_empty fuel m : map_ok dsize m -> entries (neigLists_ m) = 0%nat ->
  exists bs m',
    (forall (G : Type) (sink : BlockSink G) (g : G),
       flush rand fuel m g = Some (g' ← sink_all bs g; Ret (m', g'))) /\
    neigLists_ m' = ∅ /\ map_ok dsize m' /\ conf_ m' = conf_ m /\ em_maxSize_ m' = em_maxSize_ m /\
    (forall v, block_lists v bs = list_edges (neigLists_ m) v) /\ Forall (good_block (conf_ m)) bs /\
    (length bs <= entries (neigLists_ m))%nat.
Proof.
  intros Hok E0. pose proof (mo_size _ _ Hok) as Hsz.
  assert (neigLists_ m = ∅) as Hemp.
  { apply entries_empty; [done|]. intros v nl Hnl. by destruct (lo_head _ _ (mo_lists _ _ Hok) _ _ Hnl) as (_ & ? & _). }
  exists [], m. split_and!; try done; [|intros v; rewrite Hemp; unfold list_edges; by rewrite lookup_empty|cbn; lia].
  intros G sink g. destruct fuel; cbn [flush]; by rewrite Hsz, E0.
Qed.

Lemma flush_ok fuel : forall m, map_ok dsize m -> layout_ok (conf_ m) -> roomy m ->
  (entries (neigLists_ m) <= fuel)%nat ->
  exists bs m',
    (forall (G : Type) (sink : BlockSink G) (g : G),
       flush rand fuel m g = Some (g' ← sink_all bs g; Ret (m', g'))) /\
    neigLists_ m' = ∅ /\ map_ok dsize m' /\ conf_ m' = conf_ m /\ em_maxSize_ m' = em_maxSize_ m /\
    (forall v, block_lists v bs = list_edges (neigLists_ m) v) /\ Forall (good_block (conf_ m)) bs /\
    (length bs <= entries (neigLists_ m))%nat.
Proof.
  induction fuel as [|fuel IH]; intros m Hok Hb Hf Hfuel.
  { apply flush_empty; [done|lia]. }
  destruct (decide (entries (neigLists_ m) = 0%nat)) as [E0|E0]; [by apply flush_empty|].
  pose proof (mo_size _ _ Hok) as Hsz.
  destruct (writeBlock_ok m Hok Hb Hf) as (b & m1 & cnt & Ew & Hw & Hok1 & Hr & Hc & Hx & v & Hv).
  { intros E. apply E0. rewrite E. unfold entries. by rewrite map_fold_empty. }
  pose proof (written_shrinks m m1 b cnt v Hw Hr Hv) as Hlt.
  destruct (IH m1 Hok1) as (bs & m' & Ef & He & Hok' & Hc' & Hx' & Hl & Hg & Hn);
    [by rewrite Hc|by apply (rest_roomy m m1 b cnt)|lia|].
  exists (b :: bs), m'. split_and!; [|done|done|congruence|congruence| | |cbn; lia].
  - intros G sink g. cbn [flush]. destruct (Z.ltb_spec 0 (em_size_ m)); [|lia]. rewrite Ew. unfold sink_all. cbn [foldM].
    destruct (sink_block b g) as [g1|e| |]; cbn [mbind outcome_bind]; [|done..]. by rewrite Ef.
  - intros w. change (b :: bs) with ([b] ++ bs). rewrite block_lists_app, Hl. unfold block_lists. cbn. rewrite app_nil_r.
    symmetry. by apply (written_split m m1 (conf_ m) b cnt w).
  - constructor; [|by rewrite Hc in Hg]. exists (neigLists_ m), cnt. split; [apply (mo_lists _ _ Hok)|done].
Qed.

(** *** Adding an edge *)

Lemma add_half_ok v u tm d m (P : VertexId -> Prop) : times_num (neigLists_ m) -> num tm ->
  Z.of_nat (entries (neigLists_ m)) + 1 < 2 ^ 53 -> queue_over (scoreQueue_ m) P ->
  exists m', add_half rand v u tm d m = Ret m' /\
    searching (with_lists (push_half v u tm d (neigLists_ m)) m) m' /\
    queue_over (scoreQueue_ m') (fun w => w = v \/ P w).
Proof.
  intros Hn Htm Hsm Hq. unfold add_half. set (m1 := with_lists _ m).
  assert (m1 = with_lists (push_half v u tm d (neigLists_ m)) m) as E1 by done.
  assert (entries (neigLists_ m1) = S (entries (neigLists_ m))) as Ee.
  { rewrite E1. cbn. unfold push_half. rewrite entries_insert, (entries_split (neigLists_ m) v). cbn.
    rewrite length_app. unfold list_edges. destruct (neigLists_ m !! v); cbn; lia. }
  destruct (rescore_ok rand Hrand dsize v 0 m1 P) as (m' & E & Hm & Hq'); [| |lia|done|].
  - intros w e He. rewrite E1 in He. cbn in He. apply entry_list in He. rewrite push_half_edges in He.
    case_decide; [|by apply (Hn w), entry_list]. apply elem_of_app in He as [He|He%list_elem_of_singleton].
    + by apply (Hn v), entry_list.
    + by subst.
  - rewrite E1. cbn. rewrite push_half_edges, decide_True, length_app by done. cbn. lia.
  - exists m'. split_and!; [exact E|exact Hm|exact Hq'].
Qed.

Definition new_entries (v u : VertexId) (tm : Timestamp) (d : SharedData) (w : VertexId) : list NLEdge :=
  if decide (w = v) then [mkNLEdge u tm d] else if decide (w = u) then [mkNLEdge v tm d] else [].

Lemma push_edges v u tm d L w : v <> u ->
  list_edges (push_half u v tm d (push_half v u tm d L)) w = list_edges L w ++ new_entries v u tm d w.
Proof.
  intros Hne. rewrite !push_half_edges. unfold new_entries. repeat case_decide; subst; try done. by rewrite app_nil_r.
Qed.

Lemma push_entries v u tm d L : entries (push_half v u tm d L) = S (entries L).
Proof.
  unfold push_half. rewrite entries_insert, (entries_split L v). cbn.
  rewrite length_app. unfold list_edges. destruct (L !! v); cbn; lia.
Qed.

(** An edge that can be added: not a loop, newer than the edges of the map,
    and not too large for a block. *)
Record addable (m : ExpirationMap) (v u : VertexId) (tm : Timestamp) (d : SharedData) : Prop := {
  ad_ends : v <> u;
  ad_time : num tm;
  ad_data : well_typed (cell d);
  ad_size : getSerializedSizeOf (cell d) = Ret (dsize (und_key (v, u, dkey tm)));
  ad_fits : edge_room (conf_ m) (dsize (und_key (v, u, dkey tm)));
  ad_new w e : entry (neigLists_ m) w e -> dkey (tm_ e) < dkey tm;
  ad_room : Z.of_nat (entries (neigLists_ m)) + 2 < 2 ^ 53
}.

Lemma expm_addEdge_ok m v u tm d : map_ok dsize m -> layout_ok (conf_ m) -> roomy m -> addable m v u tm d ->
  exists bs m',
    (forall (G : Type) (sink : BlockSink G) (g : G),
       addEdge rand (mkUEdge v u tm) d m g = (g' ← sink_all bs g; Ret (m', g'))) /\
    map_ok dsize m' /\ conf_ m' = conf_ m /\ em_maxSize_ m' = em_maxSize_ m /\
    (forall w, block_lists w bs ++ list_edges (neigLists_ m') w = list_edges (neigLists_ m) w ++ new_entries v u tm d w) /\
    Forall (good_block (conf_ m)) bs /\ (length bs <= 1)%nat.
Proof.
  intros Hok Hb Hall [Hne Htm Hwt Hsz Hfit Hnew Hroom]. pose proof Hok as [HL Hsize Hsm Hq].
  destruct (add_half_ok v u tm d m _ (lists_ok_times _ _ HL) Htm ltac:(lia) Hq) as (m1 & E1 & Hm1 & Hq1).
  pose proof (searching_fields _ _ Hm1) as (EL1 & Ec1 & Es1 & Ex1 & _). cbn in EL1, Ec1, Es1, Ex1.
  destruct (add_half_ok u v tm d m1 (fun w => w = v \/ is_Some (neigLists_ m !! w))) as (m2 & E2 & Hm2 & Hq2);
    [|done|rewrite EL1, push_entries; lia|done|].
  { rewrite EL1. intros w e He. apply entry_list in He. rewrite push_half_edges in He.
    case_decide; [|by apply (lists_ok_times _ _ HL w), entry_list].
    apply elem_of_app in He as [He|He%list_elem_of_singleton]; [by apply (lists_ok_times _ _ HL v), entry_list|by subst]. }
  pose proof (searching_fields _ _ Hm2) as (EL2 & Ec2 & Es2 & Ex2 & _). cbn in EL2, Ec2, Es2, Ex2. rewrite EL1 in EL2.
  set (m3 := with_size (em_size_ m2 + 2) m2).
  assert (map_ok dsize m3) as Hok3.
  { split; cbn.
    - rewrite EL2. by apply push_ok.
    - rewrite EL2, !push_entries, Es2, Es1, Hsize, u64_id; lia.
    - rewrite EL2, !push_entries. lia.
    - eapply queue_over_ext; [exact Hq2|]. intros w. cbn. rewrite EL2, !push_half_is_Some. tauto. }
  assert (forall w, list_edges (neigLists_ m3) w = list_edges (neigLists_ m) w ++ new_entries v u tm d w) as Hl3.
  { intros w. cbn. rewrite EL2. by apply push_edges. }
  assert (forall (G : Type) (sink : BlockSink G) (g : G), addEdge rand (mkUEdge v u tm) d m g =
    if em_maxSize_ m3 <? em_size_ m3 then writeBlock rand m3 g else Ret (m3, g)) as Eadd.
  { intros G sink g. unfold addEdge. cbn [v_ u_ uedge_tm_]. rewrite E1. cbn [mbind outcome_bind]. rewrite E2. done. }
  destruct (em_maxSize_ m3 <? em_size_ m3) eqn:Efull.
  - assert (conf_ m3 = conf_ m) as Ec3 by (cbn; congruence).
    assert (roomy m3) as Hall3.
    { intros w e He. rewrite Ec3. apply entry_list in He. rewrite Hl3 in He. apply elem_of_app in He as [He|He]; [by apply (Hall w), entry_list|].
      unfold new_entries in He. repeat case_decide; [| |by apply elem_of_nil in He]; apply list_elem_of_singleton in He; subst; [done|].
      cbn. by rewrite Z.min_comm, Z.max_comm. }
    assert (neigLists_ m3 <> ∅) as Hne3.
    { intros E. specialize (Hl3 v). rewrite E in Hl3. unfold list_edges at 1 in Hl3. rewrite lookup_empty in Hl3.
      unfold new_entries in Hl3. rewrite decide_True in Hl3 by done. symmetry in Hl3. by apply app_eq_nil in Hl3 as [_ ?]. }
    destruct (writeBlock_ok m3 Hok3) as (b & m' & cnt & Ew & Hw & Hok' & Hr & Hc & Hx & _); [by rewrite Ec3|done|done|].
    exists [b], m'. split_and!; [|done|rewrite Hc; cbn; congruence|rewrite Hx; cbn; congruence| | |done].
    + intros G sink g. rewrite Eadd, Ew. unfold sink_all. cbn [foldM]. by destruct (sink_block b g).
    + intros w. rewrite <- Hl3. unfold block_lists. cbn. rewrite app_nil_r. symmetry. by eapply written_split.
    + repeat constructor. exists (neigLists_ m3), cnt. split; [apply (mo_lists _ _ Hok3)|].
      by rewrite <- Ec1, <- Ec2.
  - exists [], m3. split_and!; [|done|cbn; congruence|cbn; congruence| |constructor|cbn; lia].
    + intros G sink g. rewrite Eadd. done.
    + intros w. by rewrite Hl3.
Qed.
End Flow.
