(* ===== verification/InMemoryGraph.v ===== *)
(** * The in-memory graph

    core/InMemoryGraph.h and InMemoryGraph.cpp: the newest edges stay in a
    window, in the neighbor lists of both ends; an edge that leaves the window
    moves to the expiration map. *)

From Stdlib Require Import ZArith Lia.
From stdpp Require Import base numbers gmap strings list sorting.
From S2P Require Import Prelude.
From S2P Require Import Double.
From S2P Require Import Schema.
From S2P Require Import AttributeData.
From S2P Require Import MetaData.
From S2P Require Import NeighborList.
From S2P Require Import PriorityQueue.
From S2P Require Import Block.
From S2P Require Import Conf.
From S2P Require Import ExpirationMap.

(** [stats_] is the graph's reference to the statistics of the edge schema. *)
Record InMemoryGraph := mkInMemoryGraph {
  vfifo_ : EdgeFIFO;
  expm_ : ExpirationMap;
  img_neigLists_ : gmap VertexId NeighborList;
  img_stats_ : SchemaStats
}.

Definition newInMemoryGraph (conf : Conf) (stats : SchemaStats) : outcome InMemoryGraph :=
  expm ← newExpirationMap conf;
  Ret (mkInMemoryGraph (new_EdgeFIFO (windowSize conf)) expm ∅ stats).

(** [neigLists_[v]]: an absent list is created. *)
Definition neig_list (v : VertexId) (lists : gmap VertexId NeighborList) : NeighborList :=
  default (mkNeighborList 0 []) (lists !! v).

Definition add_end (v u : VertexId) (ts : Timestamp) (data : SharedData) (lists : gmap VertexId NeighborList)
  : gmap VertexId NeighborList :=
  <[v := NeighborList.addEdge (mkNLEdge u ts data) (set_headVertex v (neig_list v lists))]> lists.

(** One of the two blocks of [removeEdge]. *)
Definition remove_end (v u : VertexId) (tm : Timestamp) (lists : gmap VertexId NeighborList)
  : outcome (SharedData * gmap VertexId NeighborList) :=
  let nlist := neig_list v lists in
  oldest ← getOldestEdge nlist;
  _ ← cassert (toVertex_ oldest =? u);
  _ ← cassert (deqb (tm_ oldest) tm);
  let data := data_ oldest in
  let nlist := removeOldestEdge nlist in
  Ret (data, match edges_ nlist with [] => delete v lists | _ => <[v := nlist]> lists end).

Definition removeEdge (edge : UEdge) (lists : gmap VertexId NeighborList)
  : outcome (SharedData * gmap VertexId NeighborList) :=
  '(data, lists) ← remove_end (v_ edge) (u_ edge) (uedge_tm_ edge) lists;
  '(_, lists) ← remove_end (u_ edge) (v_ edge) (uedge_tm_ edge) lists;
  Ret (data, lists).

Section Graph.
Context (rand : nat -> Z).
Context {G : Type} `{BlockSink G}.

(** The body of the loops of [addEdge] and [flush]. *)
Definition expire_one (m : InMemoryGraph) (histg : G) : outcome (InMemoryGraph * G) :=
  oldEdge ← fifo_getOldestEdge (vfifo_ m);
  '(data, lists) ← removeEdge oldEdge (img_neigLists_ m);
  '(expm, histg) ← ExpirationMap.addEdge rand oldEdge data (expm_ m) histg;
  Ret (mkInMemoryGraph (popOldestEdge (vfifo_ m)) expm lists (img_stats_ m), histg).

(** Each turn takes an edge out of the window, so a turn for every edge and
    one more for the test are enough. *)
Fixpoint expire_while (again : EdgeFIFO -> bool) (fuel : nat) (m : InMemoryGraph) (histg : G)
  : outcome (InMemoryGraph * G) :=
  match fuel with
  | O => Undefined
  | S fuel =>
      if again (vfifo_ m) then
        '(m, histg) ← expire_one m histg;
        expire_while again fuel m histg
      else Ret (m, histg)
  end.

(** The hook that keeps track of data sizes. *)
Definition track_sizes (data : AttributeData) (stats : SchemaStats) : outcome SchemaStats :=
  foldM (fun stats p =>
    n ← getFieldSize data p.1;
    Ret (incrCountAndBytes stats p.1 n)) stats (fields_ data).

Definition addEdge (v u : VertexId) (ts : Timestamp) (data : SharedData) (m : InMemoryGraph) (histg : G)
  : outcome (InMemoryGraph * G) :=
  let lists := add_end u v ts data (add_end v u ts data (img_neigLists_ m)) in
  let fifo := fifo_addEdge (mkUEdge v u ts) (vfifo_ m) in
  let m := mkInMemoryGraph fifo (expm_ m) lists (img_stats_ m) in
  '(m, histg) ← expire_while hasExpiredEdges (S (length (fifo_edges_ fifo))) m histg;
  stats ← track_sizes (cell data) (img_stats_ m);
  Ret (mkInMemoryGraph (vfifo_ m) (expm_ m) (img_neigLists_ m) stats, histg).

(** [fuel] bounds the blocks the expiration map writes at the end. *)
Definition flush (fuel : nat) (m : InMemoryGraph) (histg : G) : option (outcome (InMemoryGraph * G)) :=
  match expire_while (fun f => negb (fifo_isEmpty f)) (S (length (fifo_edges_ (vfifo_ m)))) m histg with
  | Ret (m, histg) =>
      r ← ExpirationMap.flush rand fuel (expm_ m) histg;
      Some ('(expm, histg) ← r; Ret (mkInMemoryGraph (vfifo_ m) expm (img_neigLists_ m) (img_stats_ m), histg))
  | Throw e => Some (Throw e)
  | AssertFailed => Some AssertFailed
  | Undefined => Some Undefined
  end.
End Graph.
