(* ===== verification/GraphFlow.v ===== *)
(** * The flow of edges through the in-memory graph

    A stream of edges goes through the window and the expiration map into
    blocks.  Nothing is lost, duplicated or reordered, whatever the sizes of
    the window and of the expiration map. *)

From Stdlib Require Import ZArith Lia.
From stdpp Require Import base numbers gmap strings list sorting.
From S2P Require Import Prelude.
From S2P Require Import Double.
From S2P Require Import Schema.
From S2P Require Import AttributeData.
From S2P Require Import MetaData.
From S2P Require Import NeighborList.
From S2P Require Import PriorityQueue.
From S2P Require Import Block.
From S2P Require Import BlockContent.
From S2P Require Import Candidate.
From S2P Require Import Conf.
From S2P Require Import ExpirationMap.
From S2P Require Import ExpiredLists.
From S2P Require Import CandidateCounts.
From S2P Require Import BlockLayout.
From S2P Require Import BlockWriting.
From S2P Require Import SmartLayout.
From S2P Require Import ExpirationFlow.
From S2P Require Import InMemoryGraph.

(** ** The stream *)

Record StreamEdge := mkStreamEdge { se_v : VertexId; se_u : VertexId; se_tm : Timestamp; se_data : SharedData }.

Definition uedge (e : StreamEdge) : UEdge := mkUEdge (se_v e) (se_u e) (se_tm e).

(** The entries of a stream in the list of a vertex. *)
Definition incident (w : VertexId) (es : list StreamEdge) : list NLEdge :=
  concat ((fun e => new_entries (se_v e) (se_u e) (se_tm e) (se_data e) w) <$> es).

Lemma incident_app w es es' : incident w (es ++ es') = incident w es ++ incident w es'.
Proof. unfold incident. by rewrite fmap_app, concat_app. Qed.

Lemma incident_elem w es e' : e' ∈ incident w es -> exists e, e ∈ es /\ tm_ e' = se_tm e.
Proof.
  unfold incident. rewrite list_elem_of_In, in_concat. intros (l & Hin & Hl).
  apply list_elem_of_In in Hin, Hl. apply list_elem_of_fmap in Hin as (e & -> & He). exists e. split; [done|].
  unfold new_entries in Hl. repeat case_decide; set_solver.
Qed.

Lemma incident_und w es e' : e' ∈ incident w es ->
  exists e, e ∈ es /\ und_key (ekey w e') = und_key (se_v e, se_u e, dkey (se_tm e)).
Proof.
  unfold incident. rewrite list_elem_of_In, in_concat. intros (l & Hin & Hl).
  apply list_elem_of_In in Hin, Hl. apply list_elem_of_fmap in Hin as (e & -> & He). exists e. split; [done|].
  unfold new_entries in Hl. repeat case_decide; apply list_elem_of_singleton in Hl || set_solver; subst; [done|].
  cbn. by rewrite Z.min_comm, Z.max_comm.
Qed.

(** Edges of distinct ends with typed data, at increasing times. *)
Record stream_ok (dsize : Key -> Z) (es : list StreamEdge) : Prop := {
  so_edges : Forall (fun e => se_v e <> se_u e /\ num (se_tm e) /\ well_typed (cell (se_data e)) /\
    getSerializedSizeOf (cell (se_data e)) = Ret (dsize (und_key (se_v e, se_u e, dkey (se_tm e))))) es;
  so_sorted : StronglySorted (fun a b => dkey (se_tm a) < dkey (se_tm b)) es
}.

(** A block has room for every edge of the stream, as many times as it has
    seeds. *)
Definition stream_fits (dsize : Key -> Z) (conf : Conf) (es : list StreamEdge) : Prop :=
  Forall (fun e => edge_room conf (dsize (und_key (se_v e, se_u e, dkey (se_tm e))))) es.

(** ** The window *)

(** The lists of the window are the entries of its edges. *)
Definition window_lists (win : list StreamEdge) (lists : gmap VertexId NeighborList) : Prop :=
  forall w, lists !! w = match incident w win with [] => None | l => Some (mkNeighborList w l) end.

Lemma window_add win lists e : window_lists win lists -> se_v e <> se_u e ->
  window_lists (win ++ [e])
    (add_end (se_u e) (se_v e) (se_tm e) (se_data e) (add_end (se_v e) (se_u e) (se_tm e) (se_data e) lists)).
Proof.
  intros Hw Hne w. rewrite incident_app.
  assert (incident w [e] = new_entries (se_v e) (se_u e) (se_tm e) (se_data e) w) as ->
    by (unfold incident; cbn; by rewrite app_nil_r).
  unfold new_entries.
  assert (forall a b t d ls, add_end a b t d ls !! w =
    if decide (w = a) then Some (NeighborList.addEdge (mkNLEdge b t d) (set_headVertex a (neig_list a ls))) else ls !! w) as Hadd.
  { intros. unfold add_end. case_decide; [subst; apply lookup_insert_eq|by apply lookup_insert_ne]. }
  assert (forall v l, neig_list v l = default (mkNeighborList 0 []) (l !! v)) as Hdef by done.
  destruct (decide (w = se_v e)) as [->|Hv].
  - rewrite Hadd, decide_False, Hadd, decide_True by done. unfold NeighborList.addEdge, set_headVertex. cbn.
    rewrite Hdef, Hw. by destruct (incident (se_v e) win).
  - rewrite Hadd. destruct (decide (w = se_u e)) as [->|Hu].
    + unfold NeighborList.addEdge, set_headVertex. cbn. rewrite Hdef. unfold add_end. rewrite lookup_insert_ne by done.
      rewrite Hw. by destruct (incident (se_u e) win).
    + rewrite Hadd, decide_False, Hw, app_nil_r by done. done.
Qed.

(** Taking the oldest edge out of the lists never fails an assertion. *)
Lemma window_remove win lists e : window_lists (e :: win) lists -> se_v e <> se_u e -> num (se_tm e) ->
  exists lists', removeEdge (uedge e) lists = Ret (se_data e, lists') /\ window_lists win lists'.
Proof.
  intros Hw Hne Hn.
  assert (forall w, incident w (e :: win) = new_entries (se_v e) (se_u e) (se_tm e) (se_data e) w ++ incident w win) as Hc by done.
  assert (forall a b ls l, ls !! a = Some (mkNeighborList a (mkNLEdge b (se_tm e) (se_data e) :: l)) ->
    remove_end a b (se_tm e) ls =
      Ret (se_data e, match l with [] => delete a ls | _ => <[a := mkNeighborList a l]> ls end)) as Hrem.
  { intros a b ls l Ha. unfold remove_end, neig_list. rewrite Ha. cbn. rewrite Z.eqb_refl, deqb_refl by done. done. }
  unfold removeEdge, uedge. cbn [v_ u_ uedge_tm_].
  pose proof (Hw (se_v e)) as Hv. pose proof (Hw (se_u e)) as Hu. rewrite Hc in Hv, Hu. unfold new_entries in Hv, Hu.
  rewrite decide_True in Hv by done. rewrite decide_False, decide_True in Hu by done. cbn in Hv, Hu.
  rewrite (Hrem _ _ _ _ Hv). cbn [mbind outcome_bind].
  set (lists1 := match incident (se_v e) win with [] => _ | _ => _ end).
  assert (forall w, lists1 !! w = if decide (w = se_v e)
    then match incident w win with [] => None | l => Some (mkNeighborList w l) end else lists !! w) as H1.
  { intros w. unfold lists1. case_decide as Ew.
    - subst w. destruct (incident (se_v e) win); [apply lookup_delete_eq|apply lookup_insert_eq].
    - destruct (incident (se_v e) win); [by apply lookup_delete_ne|by apply lookup_insert_ne]. }
  rewrite (Hrem (se_u e) (se_v e) lists1 (incident (se_u e) win)) by (by rewrite H1, decide_False).
  cbn [mbind outcome_bind]. eexists. split; [reflexivity|]. intros w.
  destruct (decide (w = se_u e)) as [->|Hwu].
  - destruct (incident (se_u e) win); [apply lookup_delete_eq|apply lookup_insert_eq].
  - assert (forall l, match l with [] => delete (se_u e) lists1 | _ => <[se_u e := mkNeighborList (se_u e) l]> lists1 end !! w
      = lists1 !! w) as -> by (intros [|? ?]; [by apply lookup_delete_ne|by apply lookup_insert_ne]).
    rewrite H1. case_decide as Ew; [done|]. rewrite Hw, Hc. unfold new_entries. by rewrite !decide_False.
Qed.

(** ** Steps *)

(** The entries of a block and the size of its content. *)
Definition block_entries (b : Block) : gset Key :=
  list_to_set (neigs_ b ≫= fun p => ekey p.1 <$> edges_ p.2).

Definition content_size (dsize : Key -> Z) (b : Block) : Z := block_size dsize (length (neigs_ b)) (block_entries b).

Lemma prefix_block_entries L b cnt : prefix_lists L b cnt -> block_entries b = taken L cnt.
Proof.
  intros Hp. apply set_eq. intros x. unfold block_entries. rewrite elem_of_list_to_set, list_elem_of_bind, elem_of_taken. split.
  - intros ([v nl] & Hx & Hin). cbn in Hx. apply (assoc_find_elem v nl) in Hin; [|apply (pb_NoDup _ _ _ Hp)].
    rewrite (pb_lists _ _ _ Hp) in Hin. case_decide; [done|]. injection Hin as <-. cbn in Hx.
    apply list_elem_of_fmap in Hx as (e & -> & He). apply list_elem_of_lookup in He as [i Hi].
    apply lookup_take_Some in Hi as [Hi Hlt]. destruct (list_edges_nl _ _ _ _ Hi) as (nl & Hnl & Hi').
    by exists v, nl, i, e.
  - intros (v & nl & i & e & Hnl & Hi & Hlt & ->). exists (v, mkNeighborList v (take (cnt v) (list_edges L v))). cbn. split.
    + apply list_elem_of_fmap. exists e. split; [done|]. rewrite (lookup_list_edges _ _ _ Hnl).
      apply list_elem_of_lookup. exists i. by apply lookup_take_Some.
    + apply assoc_find_Some. rewrite (pb_lists _ _ _ Hp), decide_False; [done|lia].
Qed.

Lemma good_block_size dsize conf b : good_block dsize conf b -> content_size dsize b <= blockSize conf.
Proof. intros (L & cnt & _ & Hp & Hs). unfold content_size. by rewrite (prefix_block_entries L b cnt Hp). Qed.

Lemma sink_all_app {G} `{BlockSink G} bs bs' (g : G) : sink_all (bs ++ bs') g = (g' ← sink_all bs g; sink_all bs' g').
Proof. apply foldM_app. Qed.

Section Steps.
Context (rand : nat -> Z) (Hrand : forall n, 0 <= rand n < 2 ^ 31).
Context (dsize : Key -> Z) (conf : Conf) (Hlay : layout_ok conf).

(** The stream so far is what was expired and what is in the window; what was
    expired is in the blocks and in the expiration map. *)
Record flow (es ex win : list StreamEdge) (bs : list Block) (m : InMemoryGraph) : Prop := {
  fl_split : es = ex ++ win;
  fl_fifo : fifo_edges_ (vfifo_ m) = uedge <$> win;
  fl_size : windowSize_ (vfifo_ m) = windowSize conf;
  fl_lists : window_lists win (img_neigLists_ m);
  fl_map : map_ok dsize (expm_ m);
  fl_conf : conf_ (expm_ m) = conf;
  fl_edges w : block_lists w bs ++ list_edges (neigLists_ (expm_ m)) w = incident w ex;
  fl_count : (entries (neigLists_ (expm_ m)) <= 2 * length ex)%nat;
  fl_number : (length bs <= length ex)%nat;
  fl_blocks : Forall (good_block dsize conf) bs
}.

Lemma flow_roomy es ex win bs m : flow es ex win bs m -> stream_fits dsize conf es -> roomy dsize (expm_ m).
Proof.
  clear Hlay. intros Hfl Hf w e' He'. rewrite (fl_conf _ _ _ _ _ Hfl).
  apply entry_list in He'. assert (e' ∈ incident w ex) as Hin.
  { rewrite <- (fl_edges _ _ _ _ _ Hfl). apply elem_of_app. by right. }
  apply incident_und in Hin as (e & He & ->). unfold stream_fits in Hf. rewrite Forall_forall in Hf. apply Hf.
  rewrite (fl_split _ _ _ _ _ Hfl). apply elem_of_app. by left.
Qed.

Lemma flow_addable es ex e win bs m : flow es ex (e :: win) bs m -> stream_ok dsize es -> stream_fits dsize conf es ->
  2 * Z.of_nat (length es) < 2 ^ 53 -> addable dsize (expm_ m) (se_v e) (se_u e) (se_tm e) (se_data e).
Proof.
  intros Hfl [Hes Hsort] Hfit Hsm. pose proof Hfl as [-> _ _ _ _ Hc Hed Hcnt _ _].
  unfold stream_fits in Hfit. rewrite Forall_forall in Hes, Hfit. destruct (Hes e) as (Hne & Hn & Hwt & Hsz); [set_solver|].
  split; try done.
  - rewrite Hc. apply Hfit. set_solver.
  - intros w e' He'. apply entry_list in He'. assert (e' ∈ incident w ex) as Hin by (rewrite <- Hed; set_solver).
    apply incident_elem in Hin as (e0 & He0 & ->). apply StronglySorted_app in Hsort as (Hlt & _ & _).
    apply Hlt; [done|left].
  - rewrite length_app in Hsm. cbn in Hsm. lia.
Qed.

Lemma expire_one_ok es ex e win bs m : flow es ex (e :: win) bs m -> stream_ok dsize es -> stream_fits dsize conf es ->
  2 * Z.of_nat (length es) < 2 ^ 53 ->
  exists bs1 m',
    (forall (G : Type) (sink : BlockSink G) (g : G), expire_one rand m g = (g' ← sink_all bs1 g; Ret (m', g'))) /\
    flow es (ex ++ [e]) win (bs ++ bs1) m' /\ img_stats_ m' = img_stats_ m.
Proof.
  intros Hfl Hso Hfit Hsm. pose proof (flow_addable _ _ _ _ _ _ Hfl Hso Hfit Hsm) as Hadd.
  pose proof (flow_roomy _ _ _ _ _ Hfl Hfit) as Hroom.
  pose proof Hfl as [-> Hfifo Hwsz Hlists Hmap Hc Hed Hcnt Hnum Hbl].
  destruct (window_remove win _ e Hlists (ad_ends _ _ _ _ _ _ Hadd) (ad_time _ _ _ _ _ _ Hadd)) as (lists' & Er & Hl').
  destruct (expm_addEdge_ok rand Hrand dsize (expm_ m) _ _ _ _ Hmap ltac:(by rewrite Hc) Hroom Hadd) as
    (bs1 & em & Ea & Hmap' & Hc' & _ & Hed' & Hg & Hone).
  exists bs1, (mkInMemoryGraph (popOldestEdge (vfifo_ m)) em lists' (img_stats_ m)). split_and!; [|split; cbn|done].
  - intros G sink g. unfold expire_one, fifo_getOldestEdge. rewrite Hfifo. cbn [fmap list_fmap head or_undefined mbind outcome_bind].
    rewrite Er. cbn [mbind outcome_bind]. unfold uedge. rewrite Ea. by destruct (sink_all bs1 g).
  - by rewrite <- app_assoc.
  - by rewrite Hfifo.
  - done.
  - done.
  - done.
  - congruence.
  - intros w. rewrite block_lists_app, <- app_assoc, Hed', app_assoc, Hed, incident_app.
    f_equal. unfold incident. cbn. by rewrite app_nil_r.
  - rewrite length_app. cbn [length].
    assert (entries (neigLists_ em) <= entries (push_half (se_u e) (se_v e) (se_tm e) (se_data e)
      (push_half (se_v e) (se_u e) (se_tm e) (se_data e) (neigLists_ (expm_ m)))))%nat as Hle.
    { apply entries_mono. intros w. rewrite push_edges, <- (Hed' w), length_app by apply (ad_ends _ _ _ _ _ _ Hadd). lia. }
    rewrite !push_entries in Hle. lia.
  - rewrite !length_app. cbn [length]. lia.
  - apply Forall_app. split; [done|]. by rewrite Hc in Hg.
Qed.

Lemma expire_while_ok again es fuel : forall ex win bs m, flow es ex win bs m -> stream_ok dsize es -> stream_fits dsize conf es ->
  2 * Z.of_nat (length es) < 2 ^ 53 -> (forall f, fifo_edges_ f = [] -> 0 <= windowSize_ f -> again f = false) ->
  0 <= windowSize conf -> (length win < fuel)%nat ->
  exists ex' win' bs1 m',
    (forall (G : Type) (sink : BlockSink G) (g : G),
       expire_while rand again fuel m g = (g' ← sink_all bs1 g; Ret (m', g'))) /\
    flow es ex' win' (bs ++ bs1) m' /\ again (vfifo_ m') = false /\ img_stats_ m' = img_stats_ m.
Proof.
  induction fuel as [|fuel IH]; intros ex win bs m Hfl Hso Hfit Hsm Hagain Hws Hfuel; [lia|].
  destruct (again (vfifo_ m)) eqn:Ea.
  2:{ exists ex, win, [], m. rewrite app_nil_r. split_and!; try done. intros G sink g. cbn [expire_while]. by rewrite Ea. }
  destruct win as [|e win].
  { rewrite Hagain in Ea; [done|apply (fl_fifo _ _ _ _ _ Hfl)|by rewrite (fl_size _ _ _ _ _ Hfl)]. }
  destruct (expire_one_ok es ex e win bs m Hfl Hso Hfit Hsm) as (bs1 & m1 & E1 & Hfl1 & Hst1).
  destruct (IH _ _ _ _ Hfl1 Hso Hfit Hsm Hagain Hws) as (ex' & win' & bs2 & m' & E2 & Hfl2 & Hag & Hst2); [cbn in Hfuel; lia|].
  exists ex', win', (bs1 ++ bs2), m'. rewrite app_assoc. split_and!; [|done|done|congruence].
  intros G sink g. cbn [expire_while]. rewrite Ea, E1, sink_all_app. destruct (sink_all bs1 g); cbn [mbind outcome_bind]; [|done..].
  apply E2.
Qed.

Lemma track_sizes_ok d stats : well_typed d ->
  track_sizes d stats = Ret (record_all stats ((fun p => (p.1, dofZ (Z.of_nat (length (enc_value p.2))))) <$> fields_ d)).
Proof.
  intros Hwt. unfold track_sizes, record_all.
  assert (forall l stats, (forall p, p ∈ l -> p ∈ fields_ d) ->
    foldM (fun stats p => n ← getFieldSize d p.1; Ret (incrCountAndBytes stats p.1 n)) stats l =
    Ret (foldl (fun s p => incrCountAndBytes s p.1 p.2) stats ((fun p => (p.1, dofZ (Z.of_nat (length (enc_value p.2))))) <$> l))) as H.
  { induction l as [|p l IH]; intros st Hl; [done|]. cbn [foldM].
    pose proof (field_size_ok d p Hwt (Hl p ltac:(left))) as Hf. cbn beta. unfold getFieldSize. rewrite Hf.
    cbn [mbind outcome_bind]. rewrite IH by (intros q Hq; apply Hl; by right). done. }
  by apply H.
Qed.

Definition add_to (e : StreamEdge) {G} `{BlockSink G} (st : InMemoryGraph * G) : outcome (InMemoryGraph * G) :=
  InMemoryGraph.addEdge rand (se_v e) (se_u e) (se_tm e) (se_data e) st.1 st.2.

(** The sizes the hook records for an edge. *)
Definition recorded (stats : SchemaStats) (e : StreamEdge) : SchemaStats :=
  record_all stats ((fun p => (p.1, dofZ (Z.of_nat (length (enc_value p.2))))) <$> fields_ (cell (se_data e))).

Lemma add_to_ok es ex win bs m e : flow es ex win bs m -> stream_ok dsize (es ++ [e]) -> stream_fits dsize conf (es ++ [e]) ->
  2 * Z.of_nat (length (es ++ [e])) < 2 ^ 53 -> 0 <= windowSize conf ->
  exists ex' win' bs1 m',
    (forall (G : Type) (sink : BlockSink G) (g : G), add_to e (m, g) = (g' ← sink_all bs1 g; Ret (m', g'))) /\
    flow (es ++ [e]) ex' win' (bs ++ bs1) m' /\ Z.of_nat (length win') <= windowSize conf /\
    img_stats_ m' = recorded (img_stats_ m) e.
Proof.
  intros Hfl Hso Hfit Hsm Hws. pose proof Hfl as [Hsplit Hfifo Hwsz Hlists Hmap Hc Hed Hcnt Hnum Hbl].
  pose proof (so_edges _ _ Hso) as Hes. apply Forall_app in Hes as [_ Hes]. apply Forall_cons in Hes as [(Hne & _ & Hwt & _) _].
  set (m1 := mkInMemoryGraph (fifo_addEdge (uedge e) (vfifo_ m)) (expm_ m)
    (add_end (se_u e) (se_v e) (se_tm e) (se_data e) (add_end (se_v e) (se_u e) (se_tm e) (se_data e) (img_neigLists_ m)))
    (img_stats_ m)).
  assert (flow (es ++ [e]) ex (win ++ [e]) bs m1) as Hfl1.
  { split; try done.
    - by rewrite Hsplit, app_assoc.
    - cbn. by rewrite Hfifo, fmap_app.
    - by apply window_add. }
  destruct (expire_while_ok hasExpiredEdges _ (S (length (fifo_edges_ (vfifo_ m1)))) _ _ _ _ Hfl1 Hso Hfit Hsm) as
    (ex' & win' & bs1 & m' & Ew & Hfl' & Hag & Hst); [|done| |].
  - intros f Ef Hf. unfold hasExpiredEdges. rewrite Ef. apply Z.ltb_ge. cbn. lia.
  - rewrite (fl_fifo _ _ _ _ _ Hfl1), length_fmap. lia.
  - exists ex', win', bs1, (mkInMemoryGraph (vfifo_ m') (expm_ m') (img_neigLists_ m') (recorded (img_stats_ m) e)).
    split_and!; [|by destruct Hfl'| |done].
    + intros G sink g. unfold add_to, InMemoryGraph.addEdge. cbn [fst snd]. fold (uedge e). rewrite Ew.
      destruct (sink_all bs1 g); cbn [mbind outcome_bind]; [|done..]. rewrite track_sizes_ok by done. by rewrite Hst.
    + unfold hasExpiredEdges in Hag. rewrite (fl_fifo _ _ _ _ _ Hfl'), (fl_size _ _ _ _ _ Hfl'), length_fmap in Hag.
      by apply Z.ltb_ge in Hag.
Qed.

Definition add_stream {G} `{BlockSink G} (es : list StreamEdge) (st : InMemoryGraph * G) : outcome (InMemoryGraph * G) :=
  foldM (fun st e => add_to e st) st es.

Lemma stream_ok_app es es' : stream_ok dsize (es ++ es') -> stream_ok dsize es.
Proof. intros [H1 H2]. split; [by apply Forall_app in H1 as [? _]|by apply StronglySorted_app_1_l in H2]. Qed.

Lemma add_stream_ok es : forall m0, flow [] [] [] [] m0 -> stream_ok dsize es -> stream_fits dsize conf es ->
  2 * Z.of_nat (length es) < 2 ^ 53 -> 0 <= windowSize conf ->
  exists ex win bs m,
    (forall (G : Type) (sink : BlockSink G) (g : G), add_stream es (m0, g) = (g' ← sink_all bs g; Ret (m, g'))) /\
    flow es ex win bs m /\ Z.of_nat (length win) <= windowSize conf /\
    img_stats_ m = foldl recorded (img_stats_ m0) es.
Proof.
  intros m0 H0 Hso Hfit Hsm Hws. induction es as [|e es IH] using rev_ind.
  { exists [], [], [], m0. split_and!; try done. }
  destruct IH as (ex & win & bs & m & E & Hfl & Hlen & Hst); [by eapply stream_ok_app|by apply Forall_app in Hfit as [? _]|rewrite length_app in Hsm; lia|].
  destruct (add_to_ok es ex win bs m e Hfl Hso Hfit Hsm Hws) as (ex' & win' & bs1 & m' & E1 & Hfl' & Hlen' & Hst').
  exists ex', win', (bs ++ bs1), m'. split_and!; [|done|done|].
  - intros G sink g. unfold add_stream in *. rewrite foldM_app, E, sink_all_app.
    destruct (sink_all bs g) as [g1|x| |]; cbn [mbind outcome_bind]; [|done..]. cbn [foldM]. rewrite E1. by destruct (sink_all bs1 g1).
  - by rewrite foldl_app, Hst', Hst.
Qed.

Lemma newInMemoryGraph_ok stats : exists m0, newInMemoryGraph conf stats = Ret m0 /\ flow [] [] [] [] m0 /\ img_stats_ m0 = stats.
Proof.
  pose proof (lk_smart _ Hlay) as Hsmart. unfold newInMemoryGraph, newExpirationMap.
  assert (exists s, getHeadVertexScorer conf = Ret s) as [s ->].
  { unfold getHeadVertexScorer. destruct (layoutMode conf); [eexists; reflexivity..|].
    destruct Hsmart as (_ & _ & Hp); [done|]. by destruct (initialCandidateSelectionPolicy _); [eexists; reflexivity..|]. }
  cbn [mbind outcome_bind]. eexists. split; [reflexivity|]. split; [|done]. split; cbn; try done.
  split; cbn.
  - apply empty_lists_ok.
  - done.
  - done.
  - split; [apply new_ok|]. intros v. rewrite !lookup_empty. split; by intros [? ?].
Qed.
End Steps.

(** ** Properties *)

Lemma graph_flush_ok rand dsize conf es ex win bs m fuel :
  (forall n, 0 <= rand n < 2 ^ 31) -> layout_ok conf ->
  flow dsize conf es ex win bs m -> stream_ok dsize es -> stream_fits dsize conf es ->
  2 * Z.of_nat (length es) < 2 ^ 53 -> 0 <= windowSize conf -> (2 * length es <= fuel)%nat ->
  exists bs' m',
    (forall (G : Type) (sink : BlockSink G) (g : G), InMemoryGraph.flush rand fuel m g = Some (g' ← sink_all bs' g; Ret (m', g'))) /\
    (forall w, block_lists w (bs ++ bs') = incident w es) /\ Forall (good_block dsize conf) (bs ++ bs') /\
    img_neigLists_ m' = ∅ /\ neigLists_ (expm_ m') = ∅ /\ (length (bs ++ bs') <= 3 * length es)%nat /\
    img_stats_ m' = img_stats_ m.
Proof.
  intros Hrand Hlay Hfl Hso Hfit Hsm Hws Hfuel.
  destruct (expire_while_ok rand Hrand dsize conf Hlay (fun f => negb (fifo_isEmpty f)) es
    (S (length (fifo_edges_ (vfifo_ m)))) ex win bs m Hfl Hso Hfit Hsm) as (ex1 & win1 & bs1 & m1 & E1 & Hfl1 & Hag & Hst1);
    [intros f Hf _; unfold fifo_isEmpty; by rewrite Hf|done|rewrite (fl_fifo _ _ _ _ _ _ _ Hfl), length_fmap; lia|].
  assert (win1 = []) as ->.
  { unfold fifo_isEmpty in Hag. rewrite (fl_fifo _ _ _ _ _ _ _ Hfl1) in Hag. by destruct win1. }
  pose proof Hfl1 as [Hsplit _ _ Hlists Hmap Hc Hed Hcnt Hnum Hbl]. rewrite app_nil_r in Hsplit. subst ex1.
  destruct (flush_ok rand Hrand dsize fuel (expm_ m1) Hmap) as (bs2 & em & E2 & Hemp & _ & _ & _ & Hl2 & Hg2 & Hn2);
    [by rewrite Hc|by eapply flow_roomy|lia|].
  exists (bs1 ++ bs2), (mkInMemoryGraph (vfifo_ m1) em (img_neigLists_ m1) (img_stats_ m1)). split_and!.
  - intros G sink g. unfold InMemoryGraph.flush. rewrite E1, sink_all_app. destruct (sink_all bs1 g); cbn [mbind outcome_bind]; [|done..].
    rewrite E2. cbn. by destruct (sink_all bs2 a).
  - intros w. by rewrite app_assoc, block_lists_app, Hl2, Hed.
  - rewrite app_assoc. apply Forall_app. split; [done|]. by rewrite Hc in Hg2.
  - cbn. apply map_eq. intros w. rewrite Hlists. by rewrite lookup_empty.
  - done.
  - rewrite app_assoc, length_app. lia.
  - exact Hst1.
Qed.

(** C5: every edge is written once for each of its ends, under each of the
    layouts.  Let fewer than 2^52 edges between distinct vertices, with typed
    data, arrive at strictly increasing times, a block having room for a list of
    one edge, or of [seedEdgeCount] edges under the smart layout, of the size of
    each.  Then adding them to a new graph and flushing it succeeds with no
    assertion failing; the blocks handed to the historical graph, in order, give
    every vertex exactly its edges in order of arrival, each with the data it
    came with; the content of every block is within the block size; the window never
    holds more than [windowSize] edges, nothing is left at the end, and the
    statistics have the sizes of the fields of every edge.  The blocks depend
    on the stream and the configuration only, not on the historical graph. *)
Theorem every_edge_written (rand : nat -> Z) (dsize : Key -> Z) (conf : Conf) (stats : SchemaStats)
    (es : list StreamEdge) (fuel : nat) :
  (forall n, 0 <= rand n < 2 ^ 31) -> layout_ok conf -> 0 <= windowSize conf ->
  stream_ok dsize es -> stream_fits dsize conf es -> 2 * Z.of_nat (length es) < 2 ^ 53 -> (2 * length es <= fuel)%nat ->
  exists m0 m m' bs bs',
    newInMemoryGraph conf stats = Ret m0 /\
    (forall (G : Type) (sink : BlockSink G) (g : G), add_stream rand es (m0, g) = (g' ← sink_all bs g; Ret (m, g'))) /\
    (forall (G : Type) (sink : BlockSink G) (g : G), InMemoryGraph.flush rand fuel m g = Some (g' ← sink_all bs' g; Ret (m', g'))) /\
    (forall w, block_lists w (bs ++ bs') = incident w es) /\
    Forall (fun b => content_size dsize b <= blockSize conf) (bs ++ bs') /\
    (exists ex win, es = ex ++ win /\ Z.of_nat (length win) <= windowSize conf /\ window_lists win (img_neigLists_ m)) /\
    img_neigLists_ m' = ∅ /\ neigLists_ (expm_ m') = ∅ /\ img_stats_ m = foldl recorded stats es.
Proof.
  intros Hrand Hlay Hws Hso Hfit Hsm Hfuel.
  destruct (newInMemoryGraph_ok dsize conf Hlay stats) as (m0 & E0 & Hfl0 & Hst0).
  destruct (add_stream_ok rand Hrand dsize conf Hlay es m0 Hfl0 Hso Hfit Hsm Hws) as (ex & win & bs & m & E1 & Hfl & Hlen & Hst).
  destruct (graph_flush_ok rand dsize conf es ex win bs m fuel Hrand Hlay Hfl Hso Hfit Hsm Hws Hfuel) as
    (bs' & m' & E2 & Hl & Hg & He1 & He2 & _).
  exists m0, m, m', bs, bs'. split_and!; try done.
  - eapply Forall_impl; [exact Hg|]. intros b. apply good_block_size.
  - exists ex, win. split_and!; [apply (fl_split _ _ _ _ _ _ _ Hfl)|done|apply (fl_lists _ _ _ _ _ _ _ Hfl)].
  - by rewrite Hst, Hst0.
Qed.

(** A sink that keeps the blocks. *)
#[local] Instance block_log : BlockSink (list Block) := fun b log => Ret (log ++ [b]).

Definition example_stream : list StreamEdge :=
  [mkStreamEdge 1 2 (dofZ 3) (example_shared 1); mkStreamEdge 3 1 (dofZ 5) (example_shared 2);
   mkStreamEdge 2 3 (dofZ 8) (example_shared 3)].

Definition example_conf : Conf :=
  mkConf "db" "/tmp" 1 80 4 4 4 1 LM_Smart newSmartLayoutConf empty_schema example_schema.

Lemma example_stream_ok : stream_ok (fun _ => example_size) example_stream.
Proof.
  split.
  - repeat (apply Forall_cons_2 || apply Forall_nil_2); split_and!; try done; try apply example_shared_typed;
      try (apply example_num; vm_compute; reflexivity).
  - repeat (apply SSorted_cons || apply SSorted_nil || apply Forall_cons_2 || apply Forall_nil_2); by vm_compute.
Qed.

Lemma log_all (l g : list Block) : sink_all l g = Ret (g ++ l).
Proof.
  revert g. induction l as [|b l IH]; intros g; [by rewrite app_nil_r|].
  change (sink_all (b :: l) g) with (sink_all l (g ++ [b])). by rewrite IH, <- app_assoc.
Qed.

Lemma every_edge_written_witness :
  exists m0 m m' log log',
    newInMemoryGraph example_conf [] = Ret m0 /\
    add_stream (fun _ => 7) example_stream (m0, [] : list Block) = Ret (m, log) /\
    InMemoryGraph.flush (fun _ => 7) 6 m log = Some (Ret (m', log')) /\
    block_lists 1 log' = [mkNLEdge 2 (dofZ 3) (example_shared 1); mkNLEdge 3 (dofZ 5) (example_shared 2)].
Proof.
  destruct (every_edge_written (fun _ => 7) (fun _ => example_size) example_conf [] example_stream 6) as
    (m0 & m & m' & bs & bs' & E0 & E1 & E2 & Hl & _).
  - intros _. lia.
  - split; [cbn; lia|]. intros _. cbn. split_and!; [lia..|discriminate].
  - cbn. lia.
  - exact example_stream_ok.
  - repeat (apply Forall_cons_2 || apply Forall_nil_2); vm_compute; congruence.
  - vm_compute. reflexivity.
  - cbn. lia.
  - exists m0, m, m', bs, (bs ++ bs'). split; [exact E0|]. split; [rewrite E1, log_all; reflexivity|].
    split; [rewrite E2, log_all; reflexivity|]. rewrite Hl. reflexivity.
Defined.
