(* ===== verification/VertexManager.v ===== *)
(** * The vertex manager

    core/VertexManager.h and VertexManager.cpp: the data of the vertices in a
    LevelDB database behind an LRU cache.  As in the block manager, the cache
    is never traversed and an identifier stands for the list iterator an entry
    keeps; the cached [shared_ptr] is only read, so it is the data it points
    to. *)

From Stdlib Require Import ZArith Lia.
From stdpp Require Import base numbers gmap strings list sorting.
From S2P Require Import Prelude.
From S2P Require Import Double.
From S2P Require Import NetworkByteBuffer.
From S2P Require Import LevelDB.
From S2P Require Import Schema.
From S2P Require Import AttributeData.
From S2P Require Import NeighborList.
From S2P Require Import PartitionIndex.
From S2P Require Import Block.
From S2P Require Import BlockManager.

Section VertexManager.
Context {D : Type} `{LevelDB D}.

Record VertexManager := mkVM {
  vm_reqCount_ : Z;
  vm_hitCount_ : Z;
  vertexDataBufferSize_ : Z;
  vertexSchema_ : Schema;
  vm_lruList_ : list VertexId;
  vm_cache_ : gmap Z AttributeData;
  vm_db_ : D
}.

Definition newVertexManager (bufferSize : Z) (vertexSchema : Schema) (db : D) : VertexManager :=
  mkVM 0 0 bufferSize vertexSchema [] ∅ db.

Definition vm_with_cache (lru : list VertexId) (cache : gmap Z AttributeData) (m : VertexManager) : VertexManager :=
  mkVM (vm_reqCount_ m) (vm_hitCount_ m) (vertexDataBufferSize_ m) (vertexSchema_ m) lru cache (vm_db_ m).

Definition vm_with_db (db : D) (m : VertexManager) : VertexManager :=
  mkVM (vm_reqCount_ m) (vm_hitCount_ m) (vertexDataBufferSize_ m) (vertexSchema_ m) (vm_lruList_ m) (vm_cache_ m) db.

Definition vm_count (hit : bool) (m : VertexManager) : VertexManager :=
  mkVM (u64 (vm_reqCount_ m + 1)) (if hit then u64 (vm_hitCount_ m + 1) else vm_hitCount_ m)
    (vertexDataBufferSize_ m) (vertexSchema_ m) (vm_lruList_ m) (vm_cache_ m) (vm_db_ m).

Definition vm_getHitRatio (m : VertexManager) : double := ddiv (dofZ (vm_hitCount_ m)) (dofZ (vm_reqCount_ m)).

(** The entry evicted when the list has reached the size of the buffer. *)
Definition vm_evict (m : VertexManager) : VertexManager :=
  if vertexDataBufferSize_ m <=? Z.of_nat (length (vm_lruList_ m)) then
    match last (vm_lruList_ m) with
    | Some r => vm_with_cache (take (pred (length (vm_lruList_ m))) (vm_lruList_ m)) (delete r (vm_cache_ m)) m
    | None => m
    end
  else m.

Definition getVertexData (id : VertexId) (m : VertexManager) : outcome (AttributeData * VertexManager) :=
  match vm_cache_ m !! id with
  | Some data =>
      let m := vm_count true m in
      Ret (data, vm_with_cache (touch id (vm_lruList_ m)) (vm_cache_ m) m)
  | None =>
      let m := vm_count false m in
      key ← id_key id;
      match ldb_get (vm_db_ m) key with
      | NotFound => Throw (vertex_not_found id)
      | IOError msg => Throw (runtime_error msg)
      | StatusOK value =>
          '(data, _) ← get_data (newAttributeData (vertexSchema_ m)) (of_bytes value);
          let m := vm_evict (vm_with_cache (id :: vm_lruList_ m) (<[id := data]> (vm_cache_ m)) m) in
          (* [dataAndIter] refers to the cache entry *)
          data ← or_undefined (vm_cache_ m !! id);
          Ret (data, m)
      end
  end.

Definition addVertex (id : VertexId) (data : AttributeData) (m : VertexManager) : outcome VertexManager :=
  match vm_cache_ m !! id with
  | Some _ => Throw (vertex_already_exists id)
  | None =>
      key ← id_key id;
      match ldb_get (vm_db_ m) key with
      | StatusOK _ => Throw (vertex_already_exists id)
      | IOError msg => Throw (runtime_error msg)
      | NotFound =>
          dataBuf ← put_data data new_default;
          dataSlice ← slice dataBuf;
          db ← check (ldb_put (vm_db_ m) key dataSlice);
          Ret (vm_with_db db m)
      end
  end.
End VertexManager.
Arguments VertexManager D : clear implicits.

(** ** The manager is a write-once map from vertices to data *)

Section Refinement.
Context {D : Type} `{LevelDB D, !LevelDBOk D}.
Context (s : Schema).

(** Data that can be stored and read back with the schema of the manager. *)
Definition storable_data (d : AttributeData) : Prop :=
  well_typed d /\ schema_ d = s /\ (fields_ d).*1 = (fields_ (newAttributeData s)).*1 /\
  Z.of_nat (length (enc_data d)) <= 2 ^ 32.

Record vm_rep (m : VertexManager D) (A : gmap Z AttributeData) : Prop := {
  vr_schema : vertexSchema_ m = s;
  vr_db id : is_u64 id -> contents (vm_db_ m) !! be 8 id = enc_data <$> A !! id;
  vr_data id d : A !! id = Some d -> is_u64 id /\ storable_data d;
  vr_cache id d : vm_cache_ m !! id = Some d -> A !! id = Some d;
  vr_lru : NoDup (vm_lruList_ m) /\ (forall id, id ∈ vm_lruList_ m <-> is_Some (vm_cache_ m !! id));
  vr_room : 2 <= vertexDataBufferSize_ m /\ Z.of_nat (length (vm_lruList_ m)) < vertexDataBufferSize_ m
}.

(** The entry just used survives, as the buffer has room for two. *)
Lemma vm_evict_ok (m : VertexManager D) id :
  NoDup (id :: vm_lruList_ m) -> (forall x, x ∈ id :: vm_lruList_ m <-> is_Some (vm_cache_ m !! x)) ->
  2 <= vertexDataBufferSize_ m -> Z.of_nat (length (vm_lruList_ m)) < vertexDataBufferSize_ m ->
  exists lru cache, vm_evict (vm_with_cache (id :: vm_lruList_ m) (vm_cache_ m) m) = vm_with_cache lru cache m /\
    NoDup lru /\ (forall x, x ∈ lru <-> is_Some (cache !! x)) /\
    Z.of_nat (length lru) < vertexDataBufferSize_ m /\ head lru = Some id /\
    cache !! id = vm_cache_ m !! id /\ cache ⊆ vm_cache_ m.
Proof.
  intros Hnd Hel H2 Hlen. unfold vm_evict. cbn [vm_lruList_ vm_with_cache vertexDataBufferSize_].
  destruct (Z.leb_spec (vertexDataBufferSize_ m) (Z.of_nat (length (id :: vm_lruList_ m)))) as [Hle|Hgt].
  2: { exists (id :: vm_lruList_ m), (vm_cache_ m). split_and!; done. }
  destruct (vm_lruList_ m) as [|x0 l0] eqn:El; [cbn in Hle; lia|].
  destruct (exists_last (l := x0 :: l0) ltac:(done)) as (l & r & Er). rewrite Er in *.
  change (id :: l ++ [r]) with ((id :: l) ++ [r]) in *. rewrite last_snoc.
  cbn [vm_with_cache vm_lruList_ vm_cache_]. rewrite length_app, Nat.add_1_r. cbn [pred]. rewrite take_app_length.
  apply NoDup_app in Hnd as (Hnd & Hr & _).
  assert (forall x, x ∈ id :: l -> x <> r) as Hne by (intros x Hx ->; apply (Hr r Hx); set_solver).
  exists (id :: l), (delete r (vm_cache_ m)). split_and!; [done|done| | |done| |].
  - intros x. rewrite lookup_delete. case_decide as Hd.
    + subst. split; [intros Hx; by destruct (Hne x Hx)|by intros []].
    + rewrite <- Hel, elem_of_app, list_elem_of_singleton. naive_solver.
  - rewrite length_app in Hlen. cbn in *. lia.
  - rewrite lookup_delete_ne; [done|]. intros ->. apply (Hne id); [left|done].
  - apply delete_subseteq.
Qed.

Lemma getVertexData_ok m A id d :
  vm_rep m A -> A !! id = Some d -> exists m', getVertexData id m = Ret (d, m') /\ vm_rep m' A /\ head (vm_lruList_ m') = Some id.
Proof.
  intros Hrep Hd. pose proof Hrep as [Hs Hdb Hda Hca [Hnd Hlru] [H2 Hroom]].
  destruct (Hda _ _ Hd) as (Hu & Hst). unfold getVertexData. destruct (vm_cache_ m !! id) as [d'|] eqn:Ec.
  - pose proof (Hca _ _ Ec) as Hd'. rewrite Hd in Hd'. injection Hd' as <-.
    assert (id ∈ vm_lruList_ m) as Hin by (apply Hlru; eauto).
    eexists. split; [reflexivity|]. split; [|cbn; unfold touch; by case_decide]. split; cbn; try done.
    + split; [by apply touch_NoDup|]. intros x. by rewrite touch_elem.
    + by rewrite touch_length.
  - rewrite id_key_ok by done. cbn [mbind outcome_bind vm_db_ vm_count]. rewrite ldb_get_ok, Hdb, Hd by done.
    cbn [fmap option_fmap option_map vertexSchema_ vm_count]. rewrite Hs. destruct Hst as (Hwt & Hsc & Hk & Hlen).
    destruct (get_data_ok d (newAttributeData s) (of_bytes (enc_data d)) []) as (b' & -> & _);
      [done|by rewrite Hsc|by rewrite Hk| |].
    { rewrite app_nil_r. apply unread_of_bytes. lia. }
    cbn [mbind outcome_bind vm_lruList_ vm_cache_ vm_count].
    assert (id ∉ vm_lruList_ m) as Hnin by (intros Hin; apply Hlru in Hin; rewrite Ec in Hin; by destruct Hin).
    destruct (vm_evict_ok (vm_with_cache (vm_lruList_ m) (<[id := d]> (vm_cache_ m)) (vm_count false m)) id)
      as (lru & cache & E & H3 & H4 & H5 & Hh & H6 & H7); [by constructor| |done|done|].
    { intros x. cbn. rewrite elem_of_cons, lookup_insert. case_decide; [subst; naive_solver|].
      rewrite Hlru. naive_solver. }
    cbn [vm_with_cache vm_lruList_ vm_cache_] in E, H6, H7. unfold vm_with_cache in E at 1 2 |- *.
    cbn [vm_count vm_reqCount_ vm_hitCount_ vertexDataBufferSize_ vertexSchema_ vm_db_] in *.
    rewrite E. unfold vm_with_cache. cbn. rewrite H6, lookup_insert_eq. cbn.
    eexists. split; [reflexivity|]. split; [|done]. split; cbn; try done.
    intros x dx Hx. pose proof (lookup_weaken _ _ _ _ Hx H7) as Hx'.
    rewrite lookup_insert in Hx'. case_decide; [|by apply Hca]. subst. by injection Hx' as <-.
Qed.

Lemma getVertexData_missing m A id :
  vm_rep m A -> A !! id = None -> is_u64 id -> getVertexData id m = Throw (vertex_not_found id).
Proof.
  intros [_ Hdb _ Hca _ _] Hn Hu. unfold getVertexData. destruct (vm_cache_ m !! id) as [d|] eqn:Ec.
  { apply Hca in Ec. congruence. }
  rewrite id_key_ok by done. cbn [mbind outcome_bind vm_db_ vm_count]. by rewrite ldb_get_ok, Hdb, Hn by done.
Qed.

Lemma addVertex_ok m A id d :
  vm_rep m A -> A !! id = None -> is_u64 id -> storable_data d ->
  exists m', addVertex id d m = Ret m' /\ vm_rep m' (<[id := d]> A).
Proof.
  intros Hrep Hn Hu Hst. pose proof Hrep as [Hs Hdb Hda Hca Hlru Hroom]. unfold addVertex.
  destruct (vm_cache_ m !! id) as [d'|] eqn:Ec. { apply Hca in Ec. congruence. }
  rewrite id_key_ok by done. cbn [mbind outcome_bind]. rewrite ldb_get_ok, Hdb, Hn by done. cbn [fmap option_fmap option_map].
  destruct Hst as (Hwt & Hst). pose proof Hst as (_ & _ & Hlen).
  destruct (put_data_ok d new_default []) as (b & -> & Hb & _);
    [apply holds_new_default|by split|apply Hwt|cbn [length Nat.add]; lia|].
  cbn [mbind outcome_bind]. rewrite (slice_holds _ _ Hb). cbn [mbind outcome_bind app].
  destruct (ldb_put_ok (vm_db_ m) (be 8 id) (enc_data d)) as (db & -> & Hc). cbn [check mbind outcome_bind].
  eexists. split; [reflexivity|]. split; cbn; try done.
  - intros id' Hu'. rewrite Hc. destruct (decide (id' = id)) as [->|Hne]; [by rewrite !lookup_insert_eq|].
    rewrite lookup_insert_ne, (lookup_insert_ne A) by (try congruence; intros E; apply Hne; symmetry; eapply (be_inj 8); done).
    by apply Hdb.
  - intros id' d' Hd'. apply lookup_insert_Some in Hd' as [[<- <-]|[_ Hd']]; [done|by apply Hda].
  - intros id' d' Hd'. pose proof (Hca _ _ Hd') as Ha. rewrite lookup_insert_ne; [done|congruence].
Qed.

Lemma addVertex_again m A id d d0 :
  vm_rep m A -> A !! id = Some d0 -> addVertex id d m = Throw (vertex_already_exists id).
Proof.
  intros [_ Hdb Hda _ _ _] Hd. destruct (Hda _ _ Hd) as (Hu & _). unfold addVertex.
  destruct (vm_cache_ m !! id); [done|]. rewrite id_key_ok by done. cbn [mbind outcome_bind].
  by rewrite ldb_get_ok, Hdb, Hd by done.
Qed.

Lemma vm_rep_new (size : Z) (db : D) : contents db = ∅ -> 2 <= size -> vm_rep (newVertexManager size s db) ∅.
Proof.
  intros Hdb Hsz. split; cbn; try done.
  - intros id _. by rewrite Hdb, !lookup_empty.
  - split; [constructor|]. intros id. rewrite lookup_empty. split; [by intros ?%elem_of_nil|by intros []].
  - lia.
Qed.
End Refinement.

(** ** Properties *)

(** C24: the vertex manager implements a write-once map from vertices to their
    data, for a buffer of at least two entries: a stored vertex reads as the
    data it was added with, whether it is cached or not, and becomes the most
    recently used; an unknown vertex raises [vertex_not_found]; adding a new
    vertex extends the map and adding a known one raises
    [vertex_already_exists]; a manager on an empty database is the empty map. *)
Theorem vertex_manager_refines_map {D} `{LevelDB D, !LevelDBOk D} (s : Schema) :
  (forall size (db : D), contents db = ∅ -> 2 <= size -> vm_rep s (newVertexManager size s db) ∅) /\
  (forall (m : VertexManager D) A, vm_rep s m A ->
    (forall id d, A !! id = Some d ->
       exists m', getVertexData id m = Ret (d, m') /\ vm_rep s m' A /\ head (vm_lruList_ m') = Some id) /\
    (forall id, A !! id = None -> is_u64 id -> getVertexData id m = Throw (vertex_not_found id)) /\
    (forall id d, A !! id = None -> is_u64 id -> storable_data s d ->
       exists m', addVertex id d m = Ret m' /\ vm_rep s m' (<[id := d]> A)) /\
    (forall id d d0, A !! id = Some d0 -> addVertex id d m = Throw (vertex_already_exists id))).
Proof.
  split; [intros size db; apply vm_rep_new|]. intros m A Hrep. split_and!.
  - intros id d. by apply (getVertexData_ok s).
  - intros id. by apply (getVertexData_missing s).
  - intros id d. by apply (addVertex_ok s).
  - intros id d d0. by apply (addVertex_again s).
Qed.

Lemma vertex_manager_refines_map_witness :
  exists m m', addVertex 5 example_data (newVertexManager 2 example_schema (∅ : gmap bytes bytes)) = Ret m /\
    getVertexData 5 m = Ret (example_data, m') /\ getVertexData 6 m = Throw (vertex_not_found 6) /\
    addVertex 5 example_data m' = Throw (vertex_already_exists 5).
Proof.
  destruct (vertex_manager_refines_map (D := gmap bytes bytes) example_schema) as (Hnew & Hops).
  destruct (Hops _ _ (Hnew 2 ∅ eq_refl ltac:(lia))) as (_ & _ & Hadd & _).
  destruct (Hadd 5 example_data) as (m & E & Hrep); [reflexivity|lia| |].
  { split; [exact example_data_typed|]. split; [reflexivity|]. split; [reflexivity|]. vm_compute. discriminate. }
  destruct (Hops _ _ Hrep) as (Hget & Hmiss & _).
  destruct (Hget 5 example_data) as (m' & E' & Hrep' & _); [reflexivity|].
  destruct (Hops _ _ Hrep') as (_ & _ & _ & Hagain).
  exists m, m'. split; [exact E|]. split; [exact E'|]. split.
  - apply Hmiss; [reflexivity|lia].
  - by apply (Hagain 5 example_data example_data).
Defined.

(** With a buffer of one entry or none the manager evicts the entry it has
    just filled and goes on using the reference to it, which is undefined: the
    test is [>=] where the block manager and the partition index have [>].
    This happens on the first read of every stored vertex. *)
Theorem small_vertex_buffer {D} `{LevelDB D, !LevelDBOk D} (s : Schema) (db : D) (size : Z) (id : VertexId)
    (d : AttributeData) :
  0 <= size <= 1 -> is_u64 id -> storable_data s d -> contents db !! be 8 id = Some (enc_data d) ->
  getVertexData id (newVertexManager size s db) = Undefined.
Proof.
  intros Hsz Hu (Hwt & Hsc & Hk & Hlen) Hdb. unfold getVertexData. cbn [vm_cache_ newVertexManager].
  rewrite lookup_empty, id_key_ok by done. cbn [mbind outcome_bind vm_db_ vm_count newVertexManager].
  rewrite ldb_get_ok, Hdb. cbn [vertexSchema_ vm_count newVertexManager].
  destruct (get_data_ok d (newAttributeData s) (of_bytes (enc_data d)) []) as (b' & -> & _);
    [done|by rewrite Hsc|by rewrite Hk| |].
  { rewrite app_nil_r. apply unread_of_bytes. lia. }
  cbn [mbind outcome_bind]. unfold vm_evict.
  cbn [vm_lruList_ vm_with_cache vertexDataBufferSize_ vm_count newVertexManager length vm_cache_ last].
  destruct (Z.leb_spec size (Z.of_nat 1)); [|lia]. cbn [vm_cache_ vm_with_cache]. by rewrite lookup_delete_eq.
Qed.

Lemma small_vertex_buffer_witness :
  getVertexData 5 (newVertexManager 1 example_schema ({[ be 8 5 := enc_data example_data ]} : gmap bytes bytes)) = Undefined.
Proof.
  apply (small_vertex_buffer example_schema _ 1 5 example_data); [lia|lia| |].
  - split; [exact example_data_typed|]. split; [reflexivity|]. split; [reflexivity|]. vm_compute. discriminate.
  - apply lookup_singleton_eq.
Defined.
