(* ===== verification/IntervalIndex.v ===== *)
(** * The interval index

    core/RTreeIntervalIndex.h and .cpp: for every neighbor list of a stored
    block an interval (block, head vertex, times of the oldest and the newest
    edge) in an R-tree of libspatialindex; core/IntervalQueryIndex.h and .cpp:
    the index of the vertices with edges in a time range.  The R-tree is
    vendored; what the program uses of it is the class [SpatialIndex]. *)

From Stdlib Require Import ZArith Lia.
From stdpp Require Import base numbers gmap strings list sorting.
From S2P Require Import Prelude.
From S2P Require Import Double.
From S2P Require Import NetworkByteBuffer.
From S2P Require Import LevelDB.
From S2P Require Import Schema.
From S2P Require Import AttributeData.
From S2P Require Import NeighborList.
From S2P Require Import PartitionIndex.
From S2P Require Import Block.

#[local] Arguments be : simpl never.

(** ** The interface of libspatialindex *)

(** [SpatialIndex::Region]: the low and the high corner. *)
Record Region := mkRegion { lows : list double; highs : list double }.

(** The regions have a point in common: in no dimension is one above the
    other. *)
Definition intersects (q r : Region) : bool :=
  forallb (fun x => negb (dltb x.2.2 x.1.1 || dltb x.1.2 x.2.1)) (zip (zip (lows q) (highs q)) (zip (lows r) (highs r))).

(** The library rejects a region whose low corner is above the high one. *)
Definition proper_region (r : Region) : Prop := Forall2 (fun l h => dltb h l = false) (lows r) (highs r).

(** A tree with the data inserted so far: the bytes, the region and the
    identifier of each.  [si_intersectsWithQuery] lists the bytes of the data
    in the order the visitor sees them. *)
Class SpatialIndex (R : Type) := {
  si_empty : R;
  si_data : R -> list (bytes * Region * Z);
  si_getNumberOfData : R -> Z;
  si_insertData : R -> bytes -> Region -> Z -> R;
  si_intersectsWithQuery : R -> Region -> list bytes
}.

Class SpatialIndexOk (R : Type) `{SpatialIndex R} : Prop := {
  si_empty_ok : si_data si_empty = [];
  si_count_ok t : si_getNumberOfData t = Z.of_nat (length (si_data t));
  si_insert_ok t bs r i : proper_region r -> si_data (si_insertData t bs r i) ≡ₚ (bs, r, i) :: si_data t;
  si_intersects_ok t q : proper_region q ->
    si_intersectsWithQuery t q ≡ₚ (fun x => x.1.1) <$> filter (fun x => intersects q x.1.2 = true) (si_data t)
}.

(** ** RTreeIntervalIndex *)

Record IntervalData := mkInterval {
  iv_id : BlockId; iv_vertex : VertexId; iv_start : Timestamp; iv_end : Timestamp
}.

#[export] Instance IntervalData_eq_dec : EqDecision IntervalData.
Proof. solve_decision. Defined.

Definition getRegion (start endt yStart yEnd : Timestamp) : Region := mkRegion [start; yStart] [endt; yEnd].

Definition interval_region (d : IntervalData) : Region := getRegion (iv_start d) (iv_end d) (dofZ 1) (dofZ 9).
Definition query_region (start endt : Timestamp) : Region := getRegion start endt dzero (dofZ 10).

Definition getBytes (d : IntervalData) : outcome bytes :=
  nbf ← addUInt64 (iv_id d) new_default;
  nbf ← addUInt64 (iv_vertex d) nbf;
  nbf ← addDouble (iv_start d) nbf;
  nbf ← addDouble (iv_end d) nbf;
  slice (setAutoDealloc false nbf).

Definition load (data : bytes) : outcome IntervalData :=
  '(id, buf) ← getUInt64 (of_bytes data);
  '(vertex, buf) ← getUInt64 buf;
  '(start, buf) ← getDouble buf;
  '(endt, buf) ← getDouble buf;
  Ret (mkInterval id vertex start endt).

Section RTree.
Context {R : Type} `{SpatialIndex R}.

Record RTreeIntervalIndex := mkRTree { nextId_ : Z; rtidx_ : R }.

(** [existing] is the tree of the files at the given name, if there are any. *)
Definition openOrCreate (existing : option R) : RTreeIntervalIndex :=
  match existing with
  | None => mkRTree 0 si_empty
  | Some t => mkRTree (si_getNumberOfData t) t
  end.

Definition addInterval (id : BlockId) (vertex : VertexId) (start endt : Timestamp) (t : RTreeIntervalIndex)
  : outcome RTreeIntervalIndex :=
  let data := mkInterval id vertex start endt in
  bytes ← getBytes data;
  Ret (mkRTree (u64 (nextId_ t + 1)) (si_insertData (rtidx_ t) bytes (interval_region data) (nextId_ t))).

(** The set of the visitor is in iteration order. *)
Definition visit_batch (vertices : list VertexId) (data : bytes) : outcome (list VertexId) :=
  d ← load data;
  Ret (if decide (iv_vertex d ∈ vertices) then vertices else vertices ++ [iv_vertex d]).

Definition rtree_queryBatch (start endt : Timestamp) (t : RTreeIntervalIndex) : outcome (list VertexId) :=
  foldM visit_batch [] (si_intersectsWithQuery (rtidx_ t) (query_region start endt)).

(** The coroutine runs the query up to the next datum, which the visitor
    loads: [pending_] are the data the query has still to visit.  The tree is
    not changed while an iterator is used. *)
Record RIterator := mkRIter { valid_ : bool; visitor_data_ : option IntervalData; pending_ : list bytes }.

Definition resume (it : RIterator) : outcome RIterator :=
  match pending_ it with
  | [] => Ret (mkRIter false (visitor_data_ it) [])
  | data :: pending => d ← load data; Ret (mkRIter true (Some d) pending)
  end.

Definition getNewIterator (start endt : Timestamp) (t : RTreeIntervalIndex) : outcome RIterator :=
  resume (mkRIter true None (si_intersectsWithQuery (rtidx_ t) (query_region start endt))).

Definition moveToNext (it : RIterator) : outcome RIterator := if valid_ it then resume it else Ret it.

Definition getData (it : RIterator) : outcome IntervalData := or_undefined (visitor_data_ it).

(** ** IntervalQueryIndex *)

(** One iteration of [indexBlock]. *)
Definition iq_index_list (id : BlockId) (t : RTreeIntervalIndex) (p : VertexId * NeighborList)
  : outcome RTreeIntervalIndex :=
  let nlist := p.2 in
  let head := headVertex_ nlist in
  _ ← cassert (head =? p.1);
  oldest ← getOldestEdge nlist;
  newest ← getNewestEdge nlist;
  addInterval id head (tm_ oldest) (tm_ newest) t.

Definition iq_indexBlock (b : Block) (t : RTreeIntervalIndex) : outcome RTreeIntervalIndex :=
  foldM (iq_index_list (id_ b)) t (neigs_ b).
End RTree.
Arguments RTreeIntervalIndex R : clear implicits.

(** The iterator; the current values are not initialized before the first
    ones are read. *)
Record IQIterator := mkIQ {
  iq_start_ : Timestamp;
  iq_end_ : Timestamp;
  iq_currents_ : option IntervalData;
  iidxIter_ : RIterator
}.

Definition iq_isValid (it : IQIterator) : bool := valid_ (iidxIter_ it).
Definition getVertex (it : IQIterator) : outcome VertexId := c ← or_undefined (iq_currents_ it); Ret (iv_vertex c).
Definition getBlockId (it : IQIterator) : outcome BlockId := c ← or_undefined (iq_currents_ it); Ret (iv_id c).

Definition iq_readCurrents (it : IQIterator) : outcome IQIterator :=
  _ ← cassert (valid_ (iidxIter_ it));
  d ← getData (iidxIter_ it);
  Ret (mkIQ (iq_start_ it) (iq_end_ it) (Some d) (iidxIter_ it)).

Definition iq_move (it : IQIterator) : outcome IQIterator :=
  i ← moveToNext (iidxIter_ it);
  Ret (mkIQ (iq_start_ it) (iq_end_ it) (iq_currents_ it) i).

Section Iterator.
(** [bman->getBlock(id)] *)
Context {St : Type} (getBlock : BlockId -> St -> outcome (Block * St)).

(** Each turn visits a datum of the query, so a turn for each of them and one
    more for the test are enough. *)
Fixpoint findNext (fuel : nat) (it : IQIterator) (s : St) : outcome (IQIterator * St) :=
  match fuel with
  | O => Undefined
  | S fuel =>
      if iq_isValid it then
        it ← iq_readCurrents it;
        c ← or_undefined (iq_currents_ it);
        if dltb (iv_end c) (iq_start_ it) || dleb (iq_end_ it) (iv_start c) then
          it ← iq_move it; findNext fuel it s
        else if dltb (iv_start c) (iq_start_ it) && dleb (iq_end_ it) (iv_end c) then
          '(block, s) ← getBlock (iv_id c) s;
          match assoc_find (iv_vertex c) (neigs_ block) with
          | None => AssertFailed
          | Some nlist =>
              if negb (hasEdgesInRange nlist (iq_start_ it) (iq_end_ it)) then
                it ← iq_move it; findNext fuel it s
              else Ret (it, s)
          end
        else Ret (it, s)
      else Ret (it, s)
  end.

Definition find_fuel (it : IQIterator) : nat := S (S (length (pending_ (iidxIter_ it)))).

Definition iq_next (it : IQIterator) (s : St) : outcome (IQIterator * St) :=
  _ ← cassert (iq_isValid it);
  it ← iq_move it;
  findNext (find_fuel it) it s.

Definition iq_query {R} `{SpatialIndex R} (t : RTreeIntervalIndex R) (start endt : Timestamp) (s : St)
  : outcome (IQIterator * St) :=
  i ← getNewIterator start endt t;
  let it := mkIQ start endt None i in
  findNext (find_fuel it) it s.
End Iterator.

(** ** An in-memory instance *)

#[export] Instance list_index : SpatialIndex (list (bytes * Region * Z)) := {
  si_empty := [];
  si_data t := t;
  si_getNumberOfData t := Z.of_nat (length t);
  si_insertData t bs r i := t ++ [(bs, r, i)];
  si_intersectsWithQuery t q := (fun x => x.1.1) <$> filter (fun x => intersects q x.1.2 = true) t
}.

#[export] Instance list_index_ok : SpatialIndexOk (list (bytes * Region * Z)).
Proof.
  split; cbn; try done. intros t bs r i _. rewrite (Permutation_app_comm t). done.
Qed.

(** ** The stored form of an interval *)

Definition interval_codec : Codec (Z * (Z * (Z * Z))) :=
  pair_codec uint64 (pair_codec uint64 (pair_codec float64 float64)).

#[export] Instance interval_codec_ok : CodecOk interval_codec.
Proof. repeat (apply pair_ok || apply uint64_ok || apply float64_ok). Qed.

Definition interval_tuple (d : IntervalData) : Z * (Z * (Z * Z)) :=
  (iv_id d, (iv_vertex d, (iv_start d, iv_end d))).

Definition enc_interval (d : IntervalData) : bytes := enc interval_codec (interval_tuple d).

Record interval_ok (d : IntervalData) : Prop := {
  io_id : is_u64 (iv_id d);
  io_vertex : is_u64 (iv_vertex d);
  io_start : num (iv_start d);
  io_end : num (iv_end d);
  io_order : dkey (iv_start d) <= dkey (iv_end d)
}.

Lemma interval_valid d : interval_ok d -> valid interval_codec (interval_tuple d).
Proof. intros [? ? [? _] [? _] _]. done. Qed.

Lemma enc_interval_length d : length (enc_interval d) = 32%nat.
Proof. unfold enc_interval. cbn. by rewrite !length_app, !length_be. Qed.

Lemma getBytes_ok d : interval_ok d -> getBytes d = Ret (enc_interval d).
Proof.
  intros Hd%interval_valid. pose proof (enc_interval_length d) as Hl. unfold enc_interval in Hl.
  destruct (put_ok (c := interval_codec) (interval_tuple d) new_default [] holds_new_default)
    as (b & E & Hb & _); [by split|done|rewrite Hl; cbn; lia|].
  apply slice_holds in Hb. unfold getBytes.
  change ((nbf ← addUInt64 (iv_id d) new_default; nbf ← addUInt64 (iv_vertex d) nbf;
           nbf ← addDouble (iv_start d) nbf; addDouble (iv_end d) nbf) = Ret b) in E.
  apply bind_ret in E as (b1 & -> & E). cbn [mbind outcome_bind].
  apply bind_ret in E as (b2 & -> & E). cbn [mbind outcome_bind].
  apply bind_ret in E as (b3 & -> & E). cbn [mbind outcome_bind].
  rewrite E. exact Hb.
Qed.

Lemma load_interval_ok d : interval_ok d -> load (enc_interval d) = Ret d.
Proof.
  intros Hd%interval_valid. pose proof (enc_interval_length d) as Hl. unfold enc_interval in *.
  destruct (get_ok (c := interval_codec) (interval_tuple d) (of_bytes (enc interval_codec (interval_tuple d))) [])
    as (b & E & _); [rewrite app_nil_r; apply unread_of_bytes; rewrite Hl; lia|done|].
  unfold load. set (buf := of_bytes _) in *. clearbody buf.
  change ((' (i, b1) ← getUInt64 buf; ' (r, b4) ← (' (v, b2) ← getUInt64 b1;
             ' (r, b4) ← (' (s, b3) ← getDouble b2; ' (e, b4) ← getDouble b3; Ret ((s, e), b4)); Ret ((v, r), b4));
           Ret ((i, r), b4)) = Ret (interval_tuple d, b)) in E.
  destruct (getUInt64 buf) as [[i b1]| | |]; try discriminate E. cbn [mbind outcome_bind] in E |- *.
  destruct (getUInt64 b1) as [[v b2]| | |]; try discriminate E. cbn [mbind outcome_bind] in E |- *.
  destruct (getDouble b2) as [[s b3]| | |]; try discriminate E. cbn [mbind outcome_bind] in E |- *.
  destruct (getDouble b3) as [[e b4]| | |]; try discriminate E. cbn [mbind outcome_bind] in E |- *.
  destruct d. by injection E as -> -> -> -> _.
Qed.

(** ** What the R-tree returns *)

Lemma interval_proper d : interval_ok d -> proper_region (interval_region d).
Proof.
  intros [_ _ Hs He Ho].
  apply Forall2_cons_2; [|apply Forall2_cons_2; [by vm_compute|apply Forall2_nil_2]]. rewrite dltb_num by done. apply Z.ltb_ge, Ho.
Qed.

Lemma query_proper start endt : num start -> num endt -> dkey start <= dkey endt -> proper_region (query_region start endt).
Proof. intros Hs He Ho.
  apply Forall2_cons_2; [|apply Forall2_cons_2; [by vm_compute|apply Forall2_nil_2]]. rewrite dltb_num by done. by apply Z.ltb_ge. Qed.

Lemma intersects_interval start endt d :
  num start -> num endt -> interval_ok d ->
  intersects (query_region start endt) (interval_region d) = true <->
  dkey start <= dkey (iv_end d) /\ dkey (iv_start d) <= dkey endt.
Proof.
  intros Hs He [_ _ Hds Hde _].
  change (intersects _ _) with
    (negb (dltb (iv_end d) start || dltb endt (iv_start d)) &&
     (negb (dltb (dofZ 9) dzero || dltb (dofZ 10) (dofZ 1)) && true)).
  assert (dltb (dofZ 9) dzero || dltb (dofZ 10) (dofZ 1) = false) as -> by by vm_compute.
  cbn [negb andb]. rewrite andb_true_r, !dltb_num, negb_true_iff, orb_false_iff, !Z.ltb_ge by done. done.
Qed.

(** The tree holds the intervals [L]. *)
Definition iq_indexed {R} `{SpatialIndex R} (t : RTreeIntervalIndex R) (L : list IntervalData) : Prop :=
  fst <$> si_data (rtidx_ t) ≡ₚ (fun d => (enc_interval d, interval_region d)) <$> L /\ Forall interval_ok L.

Definition touches (start endt : Timestamp) (d : IntervalData) : Prop :=
  dkey start <= dkey (iv_end d) /\ dkey (iv_start d) <= dkey endt.

#[export] Instance touches_dec start endt d : Decision (touches start endt d).
Proof. apply _. Defined.

Section Tree.
Context {R : Type} `{SpatialIndex R, !SpatialIndexOk R}.

Lemma addInterval_ok (t : RTreeIntervalIndex R) L d :
  iq_indexed t L -> interval_ok d ->
  exists t', addInterval (iv_id d) (iv_vertex d) (iv_start d) (iv_end d) t = Ret t' /\ iq_indexed t' (d :: L).
Proof.
  intros [Hp HL] Hd. unfold addInterval. replace (mkInterval _ _ _ _) with d by by destruct d.
  rewrite getBytes_ok by done. cbn [mbind outcome_bind]. eexists. split; [reflexivity|].
  split; [|by constructor]. cbn [rtidx_]. rewrite si_insert_ok by by apply interval_proper.
  rewrite !fmap_cons. by constructor.
Qed.

Lemma intersecting (t : RTreeIntervalIndex R) L start endt :
  iq_indexed t L -> num start -> num endt -> dkey start <= dkey endt ->
  exists l, si_intersectsWithQuery (rtidx_ t) (query_region start endt) = enc_interval <$> l /\
    l ≡ₚ filter (touches start endt) L.
Proof.
  intros [Hp HL] Hs He Ho. set (q := query_region start endt).
  assert (si_intersectsWithQuery (rtidx_ t) q ≡ₚ enc_interval <$> filter (touches start endt) L) as Hq.
  { rewrite si_intersects_ok by by apply query_proper.
    assert (forall l : list (bytes * Region * Z), (fun x => x.1.1) <$> filter (fun x => intersects q x.1.2 = true) l =
      fst <$> filter (fun y => intersects q y.2 = true) (fst <$> l)) as ->.
    { induction l as [|x l IH]; [done|]. rewrite fmap_cons, !filter_cons. case_decide; [|done].
      rewrite !fmap_cons. by f_equal. }
    rewrite Hp. clear Hp. induction HL as [|d L Hd HL IH]; [done|]. rewrite fmap_cons, !filter_cons. cbn [snd].
    pose proof (intersects_interval start endt d Hs He Hd) as Hi. fold q in Hi.
    destruct (decide (touches start endt d)) as [Ht|Ht].
    - rewrite decide_True by by apply Hi. rewrite !fmap_cons. cbn [fst]. by constructor.
    - by rewrite decide_False by (rewrite Hi; exact Ht). }
  apply Permutation_map_inv in Hq as (l & -> & Hl). exists l. done.
Qed.
End Tree.

(** ** Iterating *)

(** The times of the edges of a list, in time order. *)
Definition ordered (ts : list Timestamp) : Prop :=
  Forall num ts /\ StronglySorted (fun t t' => dkey t <= dkey t') ts.

Lemma ordered_chronological es : ordered (tm_ <$> es) <-> chronological es.
Proof.
  unfold ordered, chronological. rewrite Forall_fmap. split; intros [Hn Hs]; (split; [exact Hn|]); clear Hn.
  - induction es as [|e es IH]; [constructor|]. cbn in Hs. apply StronglySorted_inv in Hs as [Hs He].
    constructor; [by apply IH|]. rewrite Forall_fmap in He. exact He.
  - induction Hs as [|e es Hs IH He]; [constructor|]. cbn. constructor; [done|]. by rewrite Forall_fmap.
Qed.

Definition within (start endt tm : Timestamp) : bool := (dkey start <=? dkey tm) && (dkey tm <? dkey endt).

(** The client of an iterator: [while (it.isValid()) { ...; it.next(); }]. *)
Fixpoint iq_collect {St} (getBlock : BlockId -> St -> outcome (Block * St)) (fuel : nat) (it : IQIterator) (s : St)
  : outcome (list IntervalData * St) :=
  match fuel with
  | O => Ret ([], s)
  | S fuel =>
      if iq_isValid it then
        c ← or_undefined (iq_currents_ it);
        '(it, s) ← iq_next getBlock it s;
        '(rest, s) ← iq_collect getBlock fuel it s;
        Ret (c :: rest, s)
      else Ret ([], s)
  end.

Section Search.
Context {St : Type} (getBlock : BlockId -> St -> outcome (Block * St)).
(** The store can be read: in the states [I], the lists of the indexed blocks
    have the edges with the times [times]. *)
Context (I : St -> Prop) (times : BlockId -> VertexId -> list Timestamp).

Definition located (d : IntervalData) : Prop :=
  ordered (times (iv_id d) (iv_vertex d)) /\
  head (times (iv_id d) (iv_vertex d)) = Some (iv_start d) /\ last (times (iv_id d) (iv_vertex d)) = Some (iv_end d).

Definition readable_lists : Prop := forall d s, located d -> I s ->
  exists b s' nl, getBlock (iv_id d) s = Ret (b, s') /\ I s' /\ assoc_find (iv_vertex d) (neigs_ b) = Some nl /\
    tm_ <$> edges_ nl = times (iv_id d) (iv_vertex d).

Context (start endt : Timestamp) (Hstart : num start) (Hend : num endt).

(** The list of the interval has an edge in the range. *)
Definition hits (d : IntervalData) : bool := existsb (within start endt) (times (iv_id d) (iv_vertex d)).

Lemma ordered_last ts t t' : ordered ts -> t ∈ ts -> last ts = Some t' -> dkey t <= dkey t'.
Proof.
  intros [_ Hs] Hin Hl. induction Hs as [|x l Hs IH Hx]; [by apply elem_of_nil in Hin|].
  destruct l as [|y l]; [injection Hl as <-; apply list_elem_of_singleton in Hin; by subst|].
  rewrite last_cons_cons in Hl. apply elem_of_cons in Hin as [->|Hin]; [|by apply IH].
  rewrite Forall_forall in Hx. apply Hx. by apply last_Some_elem_of.
Qed.

Lemma hits_outside d :
  located d -> dkey (iv_end d) < dkey start \/ dkey endt <= dkey (iv_start d) -> hits d = false.
Proof.
  intros (Ho & Hh & Hl) Hout. unfold hits. apply not_true_iff_false. intros (t & Hin & Ht)%existsb_exists.
  apply list_elem_of_In in Hin. unfold within in Ht. zb. pose proof (ordered_last _ _ _ Ho Hin Hl).
  destruct (times (iv_id d) (iv_vertex d)) as [|x ts]; [done|]. injection Hh as ->.
  destruct Ho as [_ Ho]. apply StronglySorted_inv in Ho as [_ Ho]. rewrite Forall_forall in Ho.
  apply elem_of_cons in Hin as [->|Hin]; [lia|]. specialize (Ho _ Hin). lia.
Qed.

(** An end of the interval is in the range. *)
Lemma hits_end d : located d -> within start endt (iv_start d) || within start endt (iv_end d) = true -> hits d = true.
Proof.
  intros (_ & Hh & Hl) H. unfold hits. apply existsb_exists. apply orb_true_iff in H as [H|H].
  - exists (iv_start d). split; [|done]. destruct (times _ _) as [|x ts]; [done|]. injection Hh as ->. by left.
  - exists (iv_end d). split; [|done]. apply list_elem_of_In. by apply last_Some_elem_of.
Qed.

Lemma hits_list d nl :
  located d -> tm_ <$> edges_ nl = times (iv_id d) (iv_vertex d) -> hasEdgesInRange nl start endt = hits d.
Proof.
  intros (Ho & _ & _) Ht. unfold hits. rewrite <- Ht in *. apply ordered_chronological in Ho.
  apply eq_true_iff_eq. rewrite hasEdgesInRange_ok, existsb_exists by done. split.
  - intros (e & Hin & Hr). exists (tm_ e). split; [by apply list_elem_of_In, list_elem_of_fmap_2|].
    unfold within. apply andb_true_iff. rewrite Z.leb_le, Z.ltb_lt. lia.
  - intros (t & Hin & Hr). apply list_elem_of_In, list_elem_of_fmap in Hin as (e & -> & Hin).
    exists e. split; [done|]. unfold within in Hr. zb. lia.
Qed.

(** The R-tree iterator is at the data [l]. *)
Definition visiting (it : RIterator) (l : list IntervalData) : Prop :=
  match l with
  | [] => valid_ it = false
  | d :: l => it = mkRIter true (Some d) (enc_interval <$> l)
  end.

Definition iterating (it : IQIterator) (l : list IntervalData) : Prop :=
  iq_start_ it = start /\ iq_end_ it = endt /\ visiting (iidxIter_ it) l.

Fixpoint seek (P : IntervalData -> bool) (l : list IntervalData) : list IntervalData :=
  match l with
  | [] => []
  | d :: l' => if P d then l else seek P l'
  end.

Lemma resume_ok (data : option IntervalData) b l :
  Forall interval_ok l -> exists it, resume (mkRIter b data (enc_interval <$> l)) = Ret it /\ visiting it l.
Proof.
  intros Hl. destruct l as [|d l]; [by eexists|]. apply Forall_cons in Hl as [Hd _].
  unfold resume. cbn [pending_ fmap list_fmap]. rewrite load_interval_ok by done. by eexists.
Qed.

Lemma iq_move_ok it d l :
  iterating it (d :: l) -> Forall interval_ok l ->
  exists it', iq_move it = Ret it' /\ iterating it' l /\ iq_currents_ it' = iq_currents_ it.
Proof.
  intros (Hs & He & Hv) Hl. unfold iq_move, moveToNext. cbn in Hv. rewrite Hv. cbn [valid_].
  destruct (resume_ok (Some d) true l Hl) as (i & -> & Hi). eexists. split; [reflexivity|]. done.
Qed.

Lemma findNext_ok (Hread : readable_lists) l : forall fuel it s,
  iterating it l -> Forall (fun d => interval_ok d /\ located d) l -> I s -> (length l < fuel)%nat ->
  exists it' s', findNext getBlock fuel it s = Ret (it', s') /\ I s' /\ iterating it' (seek hits l) /\
    forall d rest, seek hits l = d :: rest -> iq_currents_ it' = Some d.
Proof.
  induction l as [|d l IH]; intros fuel it s Hit Hl HI Hf; (destruct fuel as [|fuel]; [lia|]); cbn [findNext].
  - pose proof Hit as (_ & _ & Hv). unfold iq_isValid. cbn in Hv. rewrite Hv. by exists it, s.
  - pose proof Hit as (Hs & He & Hv). cbn in Hv. unfold iq_isValid, iq_readCurrents, getData. rewrite Hv.
    cbn [valid_ cassert mbind outcome_bind visitor_data_ or_undefined iq_currents_ iq_start_ iq_end_].
    set (it1 := mkIQ _ _ _ _). assert (iterating it1 (d :: l)) as Hit1 by done.
    apply Forall_cons in Hl as [[Hd Hloc] Hl].
    destruct (iq_move_ok it1 d l Hit1) as (it2 & E2 & Hit2 & _); [eapply Forall_impl; [exact Hl|by intros ? []]|].
    rewrite Hs, He. rewrite !dltb_num, !dleb_num by (done || apply Hd). cbn [seek length] in *.
    destruct (orb _ _) eqn:Eout.
    { apply orb_true_iff in Eout. rewrite Z.ltb_lt, Z.leb_le in Eout.
      rewrite (hits_outside d) by done. rewrite E2. cbn [mbind outcome_bind]. apply IH; done || lia. }
    apply orb_false_iff in Eout as [Eo1 Eo2]. zb. destruct (andb _ _) eqn:Ein.
    + destruct (Hread d s Hloc HI) as (b & s1 & nl & -> & HI1 & Hnl & Htm). cbn [mbind outcome_bind].
      rewrite Hnl, (hits_list d nl) by done. destruct (hits d); cbn [negb].
      * exists it1, s1. split_and!; try done. by intros ? ? [= <- <-].
      * rewrite E2. cbn [mbind outcome_bind]. apply IH; done || lia.
    + assert (within start endt (iv_start d) || within start endt (iv_end d) = true) as Hw.
      { pose proof (io_order _ Hd). unfold within. apply orb_true_iff. rewrite !andb_true_iff, !Z.leb_le, !Z.ltb_lt.
        apply andb_false_iff in Ein as [Ein|Ein]; zb; lia. }
      rewrite (hits_end d) by done.
      exists it1, s. split_and!; try done. by intros ? ? [= <- <-].
Qed.
Lemma seek_elem P l x : x ∈ seek P l -> x ∈ l.
Proof. induction l as [|d l IH]; [done|]. cbn. destruct (P d); [done|]. intros H. right. by apply IH. Qed.

Lemma seek_Forall (Q : IntervalData -> Prop) P l : Forall Q l -> Forall Q (seek P l).
Proof. rewrite !Forall_forall. intros H x Hx. by apply H, (seek_elem P). Qed.

Lemma seek_filter P l :
  filter (fun d => P d = true) l = filter (fun d => P d = true) (seek P l).
Proof.
  induction l as [|d l IH]; [done|]. rewrite filter_cons. cbn [seek]. destruct (P d) eqn:E.
  - rewrite decide_True by done. by rewrite filter_cons, decide_True.
  - by rewrite decide_False by done.
Qed.

Lemma seek_head P l d rest : seek P l = d :: rest -> P d = true.
Proof. induction l as [|x l IH]; [done|]. cbn. destruct (P x) eqn:E; [by intros [= <- _]|done]. Qed.

Lemma seek_length P l : (length (seek P l) <= length l)%nat.
Proof. induction l as [|d l IH]; [done|]. cbn. destruct (P d); cbn; lia. Qed.

Lemma pending_length it l : iterating it l -> (length l <= S (length (pending_ (iidxIter_ it))))%nat.
Proof.
  intros (_ & _ & Hv). destruct l as [|d l]; cbn in Hv |- *; [lia|]. rewrite Hv. cbn. rewrite length_fmap. lia.
Qed.

(** The iterator stands at the first list of [l], its values read. *)
Definition at_hit (it : IQIterator) (l : list IntervalData) : Prop :=
  iterating it l /\ forall d rest, l = d :: rest -> iq_currents_ it = Some d.

Lemma iq_next_ok (Hread : readable_lists) it s d l :
  at_hit it (d :: l) -> Forall (fun d => interval_ok d /\ located d) l -> I s ->
  exists it' s', iq_next getBlock it s = Ret (it', s') /\ I s' /\ at_hit it' (seek hits l).
Proof.
  intros [Hit _] Hl HI. unfold iq_next, iq_isValid. pose proof Hit as (_ & _ & Hv). cbn in Hv.
  rewrite Hv. cbn [valid_ cassert mbind outcome_bind].
  destruct (iq_move_ok it d l Hit) as (it1 & -> & Hit1 & _); [eapply Forall_impl; [exact Hl|by intros ? []]|].
  cbn [mbind outcome_bind]. pose proof (pending_length _ _ Hit1).
  destruct (findNext_ok Hread l (find_fuel it1) it1 s) as (it2 & s2 & E & HI2 & Hit2 & Hc); try done; [unfold find_fuel; lia|].
  by exists it2, s2.
Qed.

Lemma iq_collect_ok (Hread : readable_lists) fuel : forall l it s,
  at_hit it (seek hits l) -> Forall (fun d => interval_ok d /\ located d) l -> I s -> (length l <= fuel)%nat ->
  exists s', iq_collect getBlock fuel it s = Ret (filter (fun d => hits d = true) l, s') /\ I s'.
Proof.
  induction fuel as [|fuel IH]; intros l it s Hit Hl HI Hf; cbn [iq_collect].
  { destruct l; [|cbn in Hf; lia]. by exists s. }
  rewrite seek_filter. pose proof (seek_length hits l) as Hlen. pose proof Hit as [(_ & _ & Hv) Hc].
  pose proof (seek_Forall _ hits _ Hl) as Hl'. pose proof (seek_head hits l) as Hh.
  destruct (seek hits l) as [|d rest]; cbn in Hv; unfold iq_isValid; rewrite Hv; cbn [valid_]; [by exists s|].
  rewrite (Hc d rest eq_refl). cbn [or_undefined mbind outcome_bind]. apply Forall_cons in Hl' as [_ Hrest].
  destruct (iq_next_ok Hread it s d rest Hit Hrest HI) as (it1 & s1 & -> & HI1 & Hit1). cbn [mbind outcome_bind].
  destruct (IH rest it1 s1 Hit1 Hrest HI1) as (s2 & -> & HI2); [cbn in Hlen; lia|]. cbn [mbind outcome_bind].
  exists s2. split; [|done]. rewrite filter_cons, decide_True by by apply (Hh d rest). done.
Qed.

Lemma iq_query_ok {R} `{SpatialIndex R, !SpatialIndexOk R} (Hread : readable_lists) (t : RTreeIntervalIndex R) L s :
  iq_indexed t L -> Forall located L -> dkey start <= dkey endt -> I s ->
  exists it s' l, iq_query getBlock t start endt s = Ret (it, s') /\ I s' /\ at_hit it (seek hits l) /\
    l ≡ₚ filter (touches start endt) L /\ Forall (fun d => interval_ok d /\ located d) l.
Proof.
  intros Hix Hloc Hle HI. destruct (intersecting t L start endt Hix Hstart Hend Hle) as (l & El & Hl).
  assert (Forall (fun d => interval_ok d /\ located d) l) as Hall.
  { rewrite Hl. apply Forall_forall. intros d Hd. apply list_elem_of_filter in Hd as [_ Hd].
    destruct Hix as [_ Hok]. rewrite Forall_forall in Hok, Hloc. auto. }
  unfold iq_query, getNewIterator. rewrite El.
  destruct (resume_ok None true l) as (i & -> & Hi); [eapply Forall_impl; [exact Hall|by intros ? []]|].
  cbn [mbind outcome_bind]. set (it0 := mkIQ _ _ _ _). assert (iterating it0 l) as Hit0 by done.
  pose proof (pending_length _ _ Hit0).
  destruct (findNext_ok Hread l (find_fuel it0) it0 s) as (it & s' & E & HI' & Hit & Hc); try done; [unfold find_fuel; lia|].
  exists it, s', l. split_and!; done.
Qed.

Lemma hits_touches d : located d -> hits d = true -> touches start endt d.
Proof.
  intros Hd H. unfold touches. destruct (decide (dkey (iv_end d) < dkey start \/ dkey endt <= dkey (iv_start d))) as [Ho|Ho].
  - rewrite hits_outside in H by done. done.
  - lia.
Qed.

Lemma hits_filter L :
  Forall located L -> filter (fun d => hits d = true) (filter (touches start endt) L) = filter (fun d => hits d = true) L.
Proof.
  induction 1 as [|d L Hd HL IH]; [done|]. rewrite (filter_cons (touches start endt)), (filter_cons _ d L).
  destruct (decide (hits d = true)) as [Hh|Hh].
  - rewrite decide_True by by apply hits_touches. by rewrite filter_cons, decide_True, IH.
  - case_decide; [by rewrite filter_cons, decide_False|done].
Qed.
End Search.

(** ** Indexing a block *)

Definition list_interval (id : BlockId) (p : VertexId * NeighborList) : option IntervalData :=
  oldest ← head (edges_ p.2); newest ← last (edges_ p.2);
  Some (mkInterval id p.1 (tm_ oldest) (tm_ newest)).

Definition block_intervals (b : Block) : list IntervalData := omap (list_interval (id_ b)) (neigs_ b).

(** A list of a stored block: not empty, in time order, filed under its head. *)
Definition list_ordered (p : VertexId * NeighborList) : Prop :=
  edges_ p.2 <> [] /\ is_u64 p.1 /\ headVertex_ p.2 = p.1 /\ chronological (edges_ p.2).

Lemma list_interval_ok id p :
  is_u64 id -> list_ordered p ->
  exists d, list_interval id p = Some d /\ interval_ok d /\ iv_id d = id /\ iv_vertex d = p.1 /\
    head (tm_ <$> edges_ p.2) = Some (iv_start d) /\ last (tm_ <$> edges_ p.2) = Some (iv_end d).
Proof.
  intros Hid (Hne & Hv & _ & Hc). apply ordered_chronological in Hc. unfold list_interval.
  rewrite fmap_last. destruct (edges_ p.2) as [|e0 es] eqn:Ees; [done|].
  cbn [head]. destruct (last (e0 :: es)) as [e1|] eqn:El; [|by apply last_None in El].
  assert (e1 ∈ e0 :: es) as Hin by by apply last_Some_elem_of.
  eexists. split; [reflexivity|]. cbn [iv_id iv_vertex iv_start iv_end fmap option_fmap option_map list_fmap head].
  split_and!; try done. pose proof Hc as [Hn _]. rewrite Forall_fmap, Forall_forall in Hn.
  split; cbn; try done; [apply (Hn e0); by left|by apply (Hn e1)|].
  apply (ordered_last (tm_ <$> (e0 :: es))); [done|by left|]. by rewrite fmap_last, El.
Qed.

Lemma iq_indexBlock_ok {R} `{SpatialIndex R, !SpatialIndexOk R} (t : RTreeIntervalIndex R) L b :
  iq_indexed t L -> is_u64 (id_ b) -> Forall list_ordered (neigs_ b) ->
  exists t', iq_indexBlock b t = Ret t' /\ iq_indexed t' (block_intervals b ++ L).
Proof.
  intros Hix Hid Hall. unfold iq_indexBlock, block_intervals. revert t L Hix.
  induction Hall as [|p ns Hp Hns IH]; intros t L Hix; [by exists t|]. cbn [foldM omap list_omap].
  destruct (list_interval_ok (id_ b) p Hid Hp) as (d & Ed & Hd & Hi & Hv & Hh & Hl). rewrite Ed.
  destruct Hp as (Hne & _ & Hhead & _). unfold iq_index_list. rewrite Hhead, Z.eqb_refl.
  cbn [cassert mbind outcome_bind]. unfold list_interval, getOldestEdge, getNewestEdge in *.
  destruct (head (edges_ p.2)) as [o|] eqn:Eo; [|done]. destruct (last (edges_ p.2)) as [n|] eqn:En; [|done].
  cbn [or_undefined mbind outcome_bind option_bind] in Ed |- *. injection Ed as <-.
  destruct (addInterval_ok t L _ Hix Hd) as (t1 & E1 & Hix1). cbn [iv_id iv_vertex iv_start iv_end] in E1.
  rewrite E1. cbn [mbind outcome_bind]. destruct (IH t1 _ Hix1) as (t2 & E2 & Hp2 & Hok2).
  exists t2. split; [exact E2|]. cbn [app].
  assert (omap (list_interval (id_ b)) ns ++ mkInterval (id_ b) p.1 (tm_ o) (tm_ n) :: L ≡ₚ
    mkInterval (id_ b) p.1 (tm_ o) (tm_ n) :: omap (list_interval (id_ b)) ns ++ L) as Hperm
    by by rewrite Permutation_middle.
  split; [by rewrite Hp2, Hperm|by rewrite <- Hperm].
Qed.

(** ** The batch query *)

Lemma visit_batch_ok l : Forall interval_ok l -> forall vs, NoDup vs ->
  exists vs', foldM visit_batch vs (enc_interval <$> l) = Ret vs' /\ NoDup vs' /\
    forall v, v ∈ vs' <-> v ∈ vs \/ exists d, d ∈ l /\ iv_vertex d = v.
Proof.
  induction 1 as [|d l Hd Hl IH]; intros vs Hnd.
  - exists vs. split_and!; [done..|]. intros v. split; [by left|]. by intros [|(d & []%elem_of_nil & _)].
  - cbn [fmap list_fmap foldM]. unfold visit_batch at 2. rewrite load_interval_ok by done. cbn [mbind outcome_bind].
    set (vs1 := if decide _ then _ else _).
    assert (NoDup vs1 /\ forall v, v ∈ vs1 <-> v ∈ vs \/ iv_vertex d = v) as [Hnd1 H1].
    { unfold vs1. case_decide as Hin.
      - split; [done|]. intros v. split; [by left|]. intros [|<-]; done.
      - split; [apply NoDup_app; split_and!; [done| |apply NoDup_singleton]; set_solver|].
        intros v. rewrite elem_of_app, list_elem_of_singleton. intuition congruence. }
    destruct (IH vs1 Hnd1) as (vs' & E & Hnd' & H'). exists vs'. split_and!; [done..|].
    intros v. rewrite H', H1. setoid_rewrite elem_of_cons. naive_solver.
Qed.

(** ** Properties *)

Lemma batch_ok {R} `{SpatialIndex R, !SpatialIndexOk R} (t : RTreeIntervalIndex R) (L : list IntervalData) (start endt : Timestamp) :
  iq_indexed t L -> num start -> num endt -> dkey start <= dkey endt ->
  exists vs, rtree_queryBatch start endt t = Ret vs /\ NoDup vs /\
    forall v, v ∈ vs <-> exists d, d ∈ L /\ iv_vertex d = v /\ touches start endt d.
Proof.
  intros Hix Hs He Hle. destruct (intersecting t L start endt Hix Hs He Hle) as (l & El & Hl). unfold rtree_queryBatch. rewrite El.
  assert (Forall interval_ok l) as Hok.
  { destruct Hix as [_ Hok]. rewrite Hl. apply Forall_forall. intros d Hd. apply list_elem_of_filter in Hd as [_ Hd].
    rewrite Forall_forall in Hok. auto. }
  destruct (visit_batch_ok l Hok [] (NoDup_nil_2)) as (vs & -> & Hnd & Hvs). exists vs. split; [done|]. split; [done|].
  intros v. rewrite Hvs. setoid_rewrite Hl. setoid_rewrite list_elem_of_filter.
  split; [intros [[]%elem_of_nil|(d & [Ht Hd] & Hv)]; by exists d|intros (d & Hd & Hv & Ht); right; by exists d].
Qed.

(** C32: the batch query returns, each once, the vertices with an interval
    that touches the closed range; so it misses no vertex with an edge in
    [start, end), but it may return vertices that have none, which the
    iterator of the same index filters out: in the example the vertex 1 has
    edges at the times 3 and 9 only, and the batch query for [5, 7) returns
    it. *)
Theorem batch_query_superset :
  (forall (R : Type) (HR : SpatialIndex R), SpatialIndexOk R ->
   forall (t : RTreeIntervalIndex R) (L : list IntervalData) (times : BlockId -> VertexId -> list Timestamp)
     (start endt : Timestamp),
     iq_indexed t L -> Forall (located times) L -> num start -> num endt -> dkey start <= dkey endt ->
     exists vs, rtree_queryBatch start endt t = Ret vs /\ NoDup vs /\
       (forall v, v ∈ vs <-> exists d, d ∈ L /\ iv_vertex d = v /\ touches start endt d) /\
       (forall d, d ∈ L -> hits times start endt d = true -> iv_vertex d ∈ vs)) /\
  (let nl := mkNeighborList 1 [mkNLEdge 2 (dofZ 3) (mkShared 1 (mkData [] empty_schema));
                               mkNLEdge 3 (dofZ 9) (mkShared 2 (mkData [] empty_schema))] in
   let b := mkBlock 4 None 0 [] [(1, nl)] in
   hasEdgesInRange nl (dofZ 5) (dofZ 7) = false /\
   (t ← iq_indexBlock b (openOrCreate (R := list (bytes * Region * Z)) None); rtree_queryBatch (dofZ 5) (dofZ 7) t) = Ret [1] /\
   (t ← iq_indexBlock b (openOrCreate (R := list (bytes * Region * Z)) None);
    '(it, _) ← iq_query (fun _ s => Ret (b, s)) t (dofZ 5) (dofZ 7) tt; Ret (iq_isValid it)) = Ret false).
Proof.
  split; [|split_and!; vm_compute; reflexivity].
  intros R HR HRok t L times start endt Hix Hloc Hs He Hle.
  destruct (batch_ok t L start endt Hix Hs He Hle) as (vs & -> & Hnd & Hiff). exists vs.
  split_and!; [done|done|exact Hiff|]. intros d Hd Hh. apply Hiff. exists d. split_and!; [done..|].
  rewrite Forall_forall in Hloc. apply (hits_touches times); [by apply Hloc|done].
Qed.

Definition example_tree : RTreeIntervalIndex (list (bytes * Region * Z)) :=
  mkRTree 2 (imap (fun i d => (enc_interval d, interval_region d, Z.of_nat i))
    [mkInterval 4 1 (dofZ 3) (dofZ 9); mkInterval 5 2 (dofZ 10) (dofZ 11)]).

Definition example_times (id : BlockId) (v : VertexId) : list Timestamp :=
  if id =? 4 then [dofZ 3; dofZ 9] else [dofZ 10; dofZ 11].

Lemma example_tree_indexed :
  iq_indexed example_tree [mkInterval 4 1 (dofZ 3) (dofZ 9); mkInterval 5 2 (dofZ 10) (dofZ 11)] /\
  Forall (located example_times) [mkInterval 4 1 (dofZ 3) (dofZ 9); mkInterval 5 2 (dofZ 10) (dofZ 11)].
Proof.
  split; [split; [reflexivity|]|].
  - repeat (apply Forall_cons_2 || apply Forall_nil_2); split; by vm_compute.
  - repeat (apply Forall_cons_2 || apply Forall_nil_2); (split; [|split; reflexivity]); split.
    all: repeat (apply SSorted_cons || apply SSorted_nil || apply Forall_cons_2 || apply Forall_nil_2); by vm_compute.
Qed.

Lemma batch_query_superset_witness :
  exists vs, rtree_queryBatch (dofZ 5) (dofZ 7) example_tree = Ret vs /\ NoDup vs /\ 1 ∈ vs /\ 2 ∉ vs.
Proof.
  destruct example_tree_indexed as [Hix Hloc].
  destruct (proj1 batch_query_superset _ _ list_index_ok example_tree _ example_times (dofZ 5) (dofZ 7) Hix Hloc)
    as (vs & E & Hnd & Hvs & _); [by vm_compute..|].
  exists vs. split; [exact E|]. split; [exact Hnd|]. rewrite !Hvs. split.
  - exists (mkInterval 4 1 (dofZ 3) (dofZ 9)). split; [by left|]. split; [reflexivity|]. split; vm_compute; discriminate.
  - intros (d & Hd & Hv & [_ Ht]). apply elem_of_cons in Hd as [->|Hd]; [discriminate Hv|].
    apply list_elem_of_singleton in Hd as ->. revert Ht. by vm_compute.
Defined.
