(* ===== verification/Query.v ===== *)
(** * Queries

    common/Query.h and core/Query.h: a time range and the names of the
    attributes asked for, kept sorted. *)

From Stdlib Require Import ZArith Lia.
From stdpp Require Import base numbers gmap strings list sorting.
From S2P Require Import Prelude.
From S2P Require Import Double.
From S2P Require Import NetworkByteBuffer.
From S2P Require Import Schema.
From S2P Require Import AttributeData.
From S2P Require Import NeighborList.

(** [operator<] of strings compares their bytes; [std::sort] gives the sorted
    permutation, which is unique. *)
Definition string_le (s t : string) : Prop := String.leb s t = true.

#[export] Instance string_le_dec : RelDecision string_le.
Proof. intros s t. unfold string_le. apply _. Defined.

Record Query := mkQuery { q_start_ : Timestamp; q_end_ : Timestamp; attributeNames_ : list string }.

Definition newQuery (start endt : Timestamp) (attributeNames : list string) : Query :=
  mkQuery start endt (merge_sort string_le attributeNames).

(** [operator==] compares the names position by position, and only them. *)
Fixpoint names_eqb (mine other : list string) : bool :=
  match mine, other with
  | [], [] => true
  | m :: mine, o :: other => bool_decide (m = o) && names_eqb mine other
  | _, _ => false
  end.

Definition query_eqb (q other : Query) : bool := names_eqb (attributeNames_ q) (attributeNames_ other).

(** [string_hash] is [std::hash<std::string>]. *)
Definition query_hash (string_hash : string -> Z) (q : Query) : Z :=
  foldl (fun hval attr => u64 (u64 (hval * 37) + string_hash attr)) 17 (attributeNames_ q).

Definition IntervalQuery (start endt : Timestamp) : Query := newQuery start endt [].

Record FocusedIntervalQuery := mkFocused { fiq_query : Query; fiq_headVertex : VertexId }.

Definition newFocusedIntervalQuery (headVertex : VertexId) (start endt : Timestamp) (attributeNames : list string)
  : FocusedIntervalQuery := mkFocused (newQuery start endt attributeNames) headVertex.

Lemma names_eqb_spec l k : names_eqb l k = true <-> l = k.
Proof.
  revert k. induction l as [|x l IH]; intros [|y k]; cbn; try done.
  rewrite andb_true_iff, bool_decide_eq_true, IH. split; [by intros [-> ->]|by intros [= -> ->]].
Qed.

(** Equal queries have equal hash codes. *)
Lemma query_hash_eqb h q q' : query_eqb q q' = true -> query_hash h q = query_hash h q'.
Proof. unfold query_eqb, query_hash. by intros ->%names_eqb_spec. Qed.

Lemma newQuery_names start endt names x : x ∈ attributeNames_ (newQuery start endt names) <-> x ∈ names.
Proof. cbn. by rewrite merge_sort_Permutation. Qed.
