(* ===== verification/HistoricalGraph.v ===== *)
(** * The historical graph

    core/HistoricalGraph.h and HistoricalGraph.cpp: the stored blocks with the
    three indexes over them; the iterator over the edges of a vertex in a time
    range, with the choice of the partitions to read, and the iterator over
    the vertices with edges in a time range. *)

From Stdlib Require Import ZArith Lia SpecFloat.
From stdpp Require Import base numbers gmap strings list sorting.
From S2P Require Import Prelude.
From S2P Require Import Double.
From S2P Require Import NetworkByteBuffer.
From S2P Require Import LevelDB.
From S2P Require Import Schema.
From S2P Require Import AttributeData.
From S2P Require Import MetaData.
From S2P Require Import NeighborList.
From S2P Require Import PartitionIndex.
From S2P Require Import Block.
From S2P Require Import BlockManager.
From S2P Require Import FocusedIndex.
From S2P Require Import IntervalIndex.
From S2P Require Import Query.
From S2P Require Import Conf.

Definition numberOfEdgesInABlock : Z := 24.

(** Conversion of a [double] to [size_t]: undefined out of range. *)
Definition to_size (x : double) : outcome Z :=
  match to_sf x with
  | S754_zero _ => Ret 0
  | S754_finite s m e => if (-1 <? d2Z x) && (d2Z x <? 2 ^ 64) then Ret (d2Z x) else Undefined
  | _ => Undefined
  end.

(** ** Choosing the partitions to read *)

Section Choice.
Context (schema : Schema) (stats : SchemaStats).

Definition getAttributeSize (attr : string) : outcome Z :=
  i ← getIndex schema attr; x ← MetaData.getAvgSize stats (u32 i); to_size x.

Definition getPartitionSize (attrs : list string) : outcome Z :=
  foldM (fun totalSize attr => n ← getAttributeSize attr; Ret (u64 (totalSize + n))) 0 attrs.

(** The score of a partition: the share of its size that the query still
    needs. *)
Definition partition_score (queryAttributes selectedAttributes attrs : list string) : outcome double :=
  n ← getPartitionSize attrs;
  let partitionSize := dofZ n in
  foldM (fun partitionScore attr =>
    if decide (attr ∈ selectedAttributes) then Ret partitionScore
    else if decide (attr ∉ queryAttributes) then Ret partitionScore
    else
      k ← getAttributeSize attr;
      Ret (dadd partitionScore (ddiv (dofZ (u64 (k * numberOfEdgesInABlock))) partitionSize))) dzero attrs.

(** [-1.0] *)
Definition dminus_one : double := dopp dunit.

(** The loop over [unusedPartitions], in the order of the set. *)
Definition best_partition (parting : Partitioning) (queryAttributes selectedAttributes : list string)
  (unusedPartitions : list nat) : outcome (nat * double) :=
  foldM (fun '(bestPartitionIdx, bestPartitionScore) partitionIdx =>
    part ← or_undefined (parting !! partitionIdx);
    partitionScore ← partition_score queryAttributes selectedAttributes part;
    Ret (if dltb bestPartitionScore partitionScore then (partitionIdx, partitionScore)
         else (bestPartitionIdx, bestPartitionScore)))
    (length parting, dminus_one) unusedPartitions.

(** The [while] loop; a partition leaves [unusedPartitions] at each turn, so a
    turn for each of them and one for the test are enough. *)
Fixpoint choose (fuel : nat) (parting : Partitioning) (queryAttributes selectedAttributes : list string)
  (unusedPartitions : list nat) (partitionIndices : list nat) : outcome (list nat) :=
  match fuel with
  | O => Undefined
  | S fuel =>
      if (length selectedAttributes =? length queryAttributes)%nat then Ret partitionIndices
      else
        '(best, _) ← best_partition parting queryAttributes selectedAttributes unusedPartitions;
        part ← or_undefined (parting !! best);
        let selectedAttributes :=
          foldl (fun s attr => if decide (attr ∈ queryAttributes) then set_insert attr s else s) selectedAttributes part in
        choose fuel parting queryAttributes selectedAttributes
          (filter (fun i => i <> best) unusedPartitions) (partitionIndices ++ [best])
  end.

(** [unused] is the set of all positions in its iteration order. *)
Definition recomputePartitionIndices (parting : Partitioning) (queryAttributes : list string) (unused : list nat)
  : outcome (list nat) := choose (S (length unused)) parting queryAttributes [] unused [].
End Choice.

(** ** The iterator over edges *)

Section EdgeIterator.
Context {D : Type} `{LevelDB D}.
(** The iteration order of a set of the first [n] positions, and the
    statistics the block manager refers to. *)
Context (order : nat -> list nat) (stats : SchemaStats).

Record EdgeIterator := mkEdgeIterator {
  done_ : bool;
  currentEdgeIndex_ : nat;
  currentNumEdges_ : nat;
  ei_partitioning_ : TimeSlicedPartitioning;
  partitionIndices_ : list nat;
  ei_it_ : Iterator;
  queryAttributes_ : list string
}.

(** The list of the current vertex in the block; [find(...)->second]. *)
Definition current_list (it : Iterator) (b : Block) : outcome NeighborList :=
  c ← or_undefined (currents_ it);
  or_undefined (assoc_find (currentVertex_ c) (neigs_ b)).

Definition get_current_block (it : Iterator) (st : Store D) : outcome (Block * Store D) :=
  c ← or_undefined (currents_ it);
  getBlock (currentBlock_ c) st.

(** The position of the first edge at or after the start of the range. *)
Fixpoint first_from (start : Timestamp) (es : list NLEdge) (i : nat) : nat :=
  match es with
  | [] => i
  | e :: es => if dleb start (tm_ e) then i else first_from start es (S i)
  end.

Definition renew_partitioning (t : Timestamp) (it : EdgeIterator) (st : Store D) : outcome (EdgeIterator * Store D) :=
  '(partitioning, p) ← getTimeSlicedPartitioning t (pidx_ st);
  indices ← recomputePartitionIndices (bm_edgeSchema_ (bman_ st)) stats (partitioning_ partitioning) (queryAttributes_ it)
    (order (length (partitioning_ partitioning)));
  Ret (mkEdgeIterator (done_ it) (currentEdgeIndex_ it) (currentNumEdges_ it) partitioning indices (ei_it_ it)
         (queryAttributes_ it), mkStore (bman_ st) p (heap_ st)).

Definition initFromBlock (it : EdgeIterator) (st : Store D) : outcome (EdgeIterator * Store D) :=
  '(block, st) ← get_current_block (ei_it_ it) st;
  partitioningTimestamp ← getPartitioningTimestamp block;
  '(it, st) ←
    (match partitionIndices_ it with
     | [] => renew_partitioning partitioningTimestamp it st
     | _ =>
         if dltb partitioningTimestamp (startTime_ (ei_partitioning_ it)) ||
            dleb (endTime_ (ei_partitioning_ it)) partitioningTimestamp
         then renew_partitioning partitioningTimestamp it st
         else Ret (it, st)
     end);
  nlist ← current_list (ei_it_ it) block;
  let index := first_from (start_ (ei_it_ it)) (edges_ nlist) 0 in
  _ ← cassert (index <? length (edges_ nlist))%nat;
  edge ← getNthOldestEdge nlist index;
  let done := if dleb (end_ (ei_it_ it)) (tm_ edge) then true else done_ it in
  Ret (mkEdgeIterator done index (length (edges_ nlist)) (ei_partitioning_ it) (partitionIndices_ it) (ei_it_ it)
         (queryAttributes_ it), st).

Definition newEdgeIterator (it : Iterator) (query : Query) (st : Store D) : outcome (EdgeIterator * Store D) :=
  let e := mkEdgeIterator false 0 0 default_slice [] it (foldl (fun s x => set_insert x s) [] (attributeNames_ query)) in
  v ← isValid it;
  if v : bool then initFromBlock e st else Ret (e, st).

Definition ei_isValid (e : EdgeIterator) : outcome bool :=
  v ← isValid (ei_it_ e);
  Ret (v && negb (done_ e)).

Definition ei_with_it (it : Iterator) (e : EdgeIterator) : EdgeIterator :=
  mkEdgeIterator (done_ e) (currentEdgeIndex_ e) (currentNumEdges_ e) (ei_partitioning_ e) (partitionIndices_ e) it
    (queryAttributes_ e).

Definition ei_next (e : EdgeIterator) (st : Store D) : outcome (EdgeIterator * Store D) :=
  v ← ei_isValid e;
  _ ← cassert v;
  let e := mkEdgeIterator (done_ e) (S (currentEdgeIndex_ e)) (currentNumEdges_ e) (ei_partitioning_ e)
             (partitionIndices_ e) (ei_it_ e) (queryAttributes_ e) in
  if (currentEdgeIndex_ e <? currentNumEdges_ e)%nat then
    '(block, st) ← get_current_block (ei_it_ e) st;
    nlist ← current_list (ei_it_ e) block;
    edge ← getNthOldestEdge nlist (currentEdgeIndex_ e);
    Ret (if dleb (end_ (ei_it_ e)) (tm_ edge) then
           mkEdgeIterator true (currentEdgeIndex_ e) (currentNumEdges_ e) (ei_partitioning_ e)
             (partitionIndices_ e) (ei_it_ e) (queryAttributes_ e)
         else e, st)
  else
    it ← next (ei_it_ e);
    v ← isValid it;
    if v : bool then initFromBlock (ei_with_it it e) st else Ret (ei_with_it it e, st).

Definition getEdge (e : EdgeIterator) (st : Store D) : outcome (NLEdge * Store D) :=
  '(block, st) ← get_current_block (ei_it_ e) st;
  nlist ← current_list (ei_it_ e) block;
  edge ← getNthOldestEdge nlist (currentEdgeIndex_ e);
  Ret (edge, st).

Definition getEdgeData (e : EdgeIterator) (st : Store D) : outcome (AttributeData * Store D) :=
  data ← newAttributeData_of (bm_edgeSchema_ (bman_ st)) (queryAttributes_ e);
  '(masterBlock, st) ← get_current_block (ei_it_ e) st;
  part ← or_undefined (partition_ masterBlock);
  _ ← cassert (part =? -1);
  let subBlocks := subBlocks_ masterBlock in
  _ ← cassert (negb (bool_decide (subBlocks = [])));
  foldM (fun '(data, st) index =>
    _ ← cassert (index <? length subBlocks)%nat;
    id ← or_undefined (subBlocks !! index);
    '(sub, st) ← getBlock id st;
    nlist ← current_list (ei_it_ e) sub;
    edge ← getNthOldestEdge nlist (currentEdgeIndex_ e);
    Ret (setAttributes data (cell (data_ edge)), st)) (data, st) (partitionIndices_ e).
End EdgeIterator.

(** ** The iterator over vertices *)

Record VertexIterator := mkVertexIterator {
  last_ : option VertexId;
  vertices_ : gset Z;
  vi_it_ : IQIterator
}.

(** What the constructor and [next] do when the index iterator is valid. *)
Definition note_vertex (it : VertexIterator) : outcome VertexIterator :=
  if iq_isValid (vi_it_ it) then
    v ← getVertex (vi_it_ it);
    Ret (mkVertexIterator (Some v) ({[ v ]} ∪ vertices_ it) (vi_it_ it))
  else Ret it.

Definition newVertexIterator (it : IQIterator) : outcome VertexIterator := note_vertex (mkVertexIterator None ∅ it).

Definition vi_isValid (it : VertexIterator) : bool := iq_isValid (vi_it_ it).
Definition getVertexId (it : VertexIterator) : outcome VertexId := or_undefined (last_ it).

Section VertexIterator.
Context {St : Type} (getBlock : BlockId -> St -> outcome (Block * St)).

(** The [do ... while]; the index iterator moves at each turn. *)
Fixpoint skip_seen (fuel : nat) (vertices : gset Z) (it : IQIterator) (s : St) : outcome (IQIterator * St) :=
  match fuel with
  | O => Undefined
  | S fuel =>
      '(it, s) ← iq_next getBlock it s;
      if iq_isValid it then
        v ← getVertex it;
        if decide (v ∈ vertices) then skip_seen fuel vertices it s else Ret (it, s)
      else Ret (it, s)
  end.

Definition vi_next (it : VertexIterator) (s : St) : outcome (VertexIterator * St) :=
  _ ← cassert (vi_isValid it);
  '(i, s) ← skip_seen (S (length (pending_ (iidxIter_ (vi_it_ it))))) (vertices_ it) (vi_it_ it) s;
  it ← note_vertex (mkVertexIterator (last_ it) (vertices_ it) i);
  Ret (it, s).
End VertexIterator.

(** ** The graph *)

Section Graph.
Context {D : Type} `{LevelDB D} {R : Type} `{SpatialIndex R}.

(** The partition index and the block manager are in [hg_store_]. *)
Record HistoricalGraph := mkHistory {
  hg_conf_ : Conf;
  hg_store_ : Store D;
  iqIndex_ : RTreeIntervalIndex R;
  fiqIndex_ : D
}.

(** The databases and the tree are the files found at the storage directory. *)
Definition newHistoricalGraph (conf : Conf) (nextBlockId : Z) (newDB : bool) (partitions blocks focused : D)
  (tree : option R) : outcome HistoricalGraph :=
  p ← newPartitionIndex (partitioningBufferSize conf) (edgeSchema conf) newDB partitions;
  Ret (mkHistory conf (mkStore (newBlockManager (blockBufferSize conf) (edgeSchema conf) blocks nextBlockId) p 0)
         (openOrCreate tree) focused).

(** The loop over the sub blocks of [addBlock]. *)
Definition add_sub_blocks (master : Block) (subs : list Block) (st : Store D) : outcome (Block * Store D) :=
  foldM (fun '(master, st) sub =>
    '(sub, st) ← BlockManager.addBlock sub true st;
    Ret (addSubBlockId (id_ sub) master, st)) (master, st) subs.

Definition addBlock (block : Block) (g : HistoricalGraph) : outcome HistoricalGraph :=
  let st := hg_store_ g in
  '(newBlocks, heap, p) ← partitionBlock (edgeSchema (hg_conf_ g)) block (heap_ st) (pidx_ st);
  let st := mkStore (bman_ st) p heap in
  match newBlocks with
  | [] => AssertFailed
  | [_] => AssertFailed
  | master :: subs =>
      '(master, st) ← add_sub_blocks master subs st;
      '(master, st) ← BlockManager.addBlock master true st;
      iq ← iq_indexBlock master (iqIndex_ g);
      fiq ← indexBlock master (fiqIndex_ g);
      Ret (mkHistory (hg_conf_ g) st iq fiq)
  end.

Definition intervalQuery (start endt : Timestamp) (g : HistoricalGraph) : outcome (VertexIterator * HistoricalGraph) :=
  '(it, st) ← iq_query getBlock (iqIndex_ g) start endt (hg_store_ g);
  v ← newVertexIterator it;
  Ret (v, mkHistory (hg_conf_ g) st (iqIndex_ g) (fiqIndex_ g)).

Definition intervalQueryBatch (start endt : Timestamp) (g : HistoricalGraph) : outcome (list VertexId) :=
  rtree_queryBatch start endt (iqIndex_ g).

Definition focusedIntervalQuery (order : nat -> list nat) (stats : SchemaStats) (query : FocusedIntervalQuery)
  (g : HistoricalGraph) : outcome (EdgeIterator * HistoricalGraph) :=
  it ← FocusedIndex.query (fiqIndex_ g) (fiq_headVertex query) (q_start_ (fiq_query query)) (q_end_ (fiq_query query));
  '(e, st) ← newEdgeIterator order stats it (fiq_query query) (hg_store_ g);
  Ret (e, mkHistory (hg_conf_ g) st (iqIndex_ g) (fiqIndex_ g)).

Definition clearBlockBuffer (g : HistoricalGraph) : HistoricalGraph :=
  mkHistory (hg_conf_ g) (mkStore (clear (bman_ (hg_store_ g))) (pidx_ (hg_store_ g)) (heap_ (hg_store_ g)))
    (iqIndex_ g) (fiqIndex_ g).

Definition getEdgeReadIOCount (g : HistoricalGraph) : Z := nIOReads_ (bman_ (hg_store_ g)).
Definition getEdgeWriteIOCount (g : HistoricalGraph) : Z := nIOWrites_ (bman_ (hg_store_ g)).
Definition getEdgeIOCount (g : HistoricalGraph) : Z := u64 (getEdgeReadIOCount g + getEdgeWriteIOCount g).
End Graph.
Arguments HistoricalGraph D R : clear implicits.
