(* ===== verification/PartitionChoice.v ===== *)
(** * Choosing the partitions to read

    The greedy choice of [EdgeIterator::recomputePartitionIndices]: it ends,
    and the chosen partitions have every attribute of the query. *)

From Stdlib Require Import ZArith Lia.
From stdpp Require Import base numbers gmap strings list sorting.
From S2P Require Import Prelude.
From S2P Require Import Double.
From S2P Require Import NetworkByteBuffer.
From S2P Require Import Schema.
From S2P Require Import AttributeData.
From S2P Require Import MetaData.
From S2P Require Import NeighborList.
From S2P Require Import PartitionIndex.
From S2P Require Import HistoricalGraph.

Section Choice.
Context (schema : Schema) (stats : SchemaStats) (parting : Partitioning).

(** The statistics know a positive average size of every attribute of the
    partitioning, and the partitions are not enormous. *)
Definition measured (attr : string) : Prop := exists n, getAttributeSize schema stats attr = Ret n /\ 0 < n < 2 ^ 32.

Definition measured_parts : Prop := Forall (fun part => Forall measured part /\ Z.of_nat (length part) < 2 ^ 16) parting.

Lemma partition_size_ok part :
  Forall measured part -> Z.of_nat (length part) < 2 ^ 16 ->
  exists n, getPartitionSize schema stats part = Ret n /\ 0 <= n < 2 ^ 53 /\ (part <> [] -> 0 < n).
Proof.
  intros Hm Hl. unfold getPartitionSize.
  cut (forall k acc, 0 <= acc <= k * 2 ^ 32 -> 0 <= k -> k + Z.of_nat (length part) < 2 ^ 16 ->
    exists n, foldM (fun totalSize attr => n ← getAttributeSize schema stats attr; Ret (u64 (totalSize + n))) acc part = Ret n /\
      acc <= n <= (k + Z.of_nat (length part)) * 2 ^ 32 /\ (part <> [] -> acc < n)).
  { intros H. destruct (H 0 0) as (n & E & Hn & Hp); [lia..|]. exists n. split_and!; [done|lia|lia|done]. }
  clear Hl. induction Hm as [|a part (n & E & Hn) Hm IH]; intros k acc Hacc Hk Hl; cbn [foldM length] in *.
  - exists acc. split; [done|]. split; [lia|done].
  - rewrite E. cbn [mbind outcome_bind]. rewrite u64_id by lia.
    destruct (IH (k + 1) (acc + n)) as (m & -> & Hb & Hp); [lia..|]. exists m. split_and!; [done|lia|lia|]. intros _. lia.
Qed.

Lemma partition_score_ok q selected part :
  Forall measured part -> Z.of_nat (length part) < 2 ^ 16 ->
  exists x, partition_score schema stats q selected part = Ret x /\ nonneg x.
Proof.
  intros Hm Hl. destruct (partition_size_ok part Hm Hl) as (n & En & Hn & Hpos). unfold partition_score. rewrite En.
  cbn [mbind outcome_bind]. apply (returns_foldM (fun _ x => nonneg x)).
  { apply (nonneg_dofZ 0). lia. }
  intros l a rest x El Hx. rewrite Forall_forall in Hm.
  destruct (Hm a) as (k & Ek & Hk); [rewrite El; set_solver|].
  assert (0 < n) by (apply Hpos; by rewrite El; destruct l).
  repeat case_decide; [by apply returns_ret..|]. rewrite Ek. cbn [mbind outcome_bind]. apply returns_ret.
  apply nonneg_dadd; [done|]. apply nonneg_ddiv; [|apply finite_pos_dofZ; lia].
  apply nonneg_dofZ, u64_range.
Qed.

Lemma above_minus_one x : nonneg x -> dltb dminus_one x = true.
Proof.
  intros Hx. rewrite dltb_num by (apply Hx || by vm_compute). apply Z.ltb_lt.
  destruct (nonneg_key x Hx) as [-> H0]. enough (dkey dminus_one < 0) by lia. by vm_compute.
Qed.

(** Some unused partition is the best one. *)
Lemma best_partition_ok q selected unused :
  measured_parts -> unused <> [] -> Forall (fun i => i < length parting)%nat unused ->
  exists best x, best_partition schema stats parting q selected unused = Ret (best, x) /\ best ∈ unused.
Proof.
  intros Hm Hne Hin. unfold best_partition.
  destruct (returns_foldM (fun l r => if decide (l = []) then r = (length parting, dminus_one) else r.1 ∈ l /\ nonneg r.2)
    (fun '(bestPartitionIdx, bestPartitionScore) partitionIdx =>
      part ← or_undefined (parting !! partitionIdx);
      partitionScore ← partition_score schema stats q selected part;
      Ret (if dltb bestPartitionScore partitionScore then (partitionIdx, partitionScore)
           else (bestPartitionIdx, bestPartitionScore))) unused (length parting, dminus_one)) as ([best x] & -> & Hr).
  - done.
  - intros l i rest [best x] El Hr. rewrite Forall_forall in Hin.
    destruct (lookup_lt_is_Some_2 parting i) as [part Hp]; [apply Hin; rewrite El; set_solver|]. rewrite Hp.
    cbn [or_undefined mbind outcome_bind].
    assert (part ∈ parting) as Hpart by by eapply list_elem_of_lookup_2.
    unfold measured_parts in Hm. rewrite Forall_forall in Hm. destruct (Hm part Hpart) as [Hm1 Hm2].
    destruct (partition_score_ok q selected part Hm1 Hm2) as (y & -> & Hy). cbn [mbind outcome_bind].
    apply returns_ret. rewrite decide_False by (by destruct l). case_decide as Hl.
    + injection Hr as -> ->. rewrite above_minus_one by done. split; [|done]. cbn. set_solver.
    + destruct Hr as [Hb Hx]. case_if; (split; [|done]); cbn in *; set_solver.
  - rewrite decide_False in Hr by done. exists best, x. split; [done|]. apply Hr.
Qed.

Context (q : list string) (Hq : NoDup q) (Hm : measured_parts).

(** The attributes of the query in the partitions chosen so far. *)
Record chosen (selected : list string) (unused indices : list nat) : Prop := {
  ch_sub : selected ⊆ q;
  ch_nodup : NoDup selected;
  ch_selected a : a ∈ selected <-> a ∈ q /\ exists i part, i ∈ indices /\ parting !! i = Some part /\ a ∈ part;
  ch_all : unused ++ indices ≡ₚ seq 0 (length parting)
}.

Lemma select_ok part : forall selected, NoDup selected -> selected ⊆ q ->
  let s' := foldl (fun s attr => if decide (attr ∈ q) then set_insert attr s else s) selected part in
  NoDup s' /\ s' ⊆ q /\ forall a, a ∈ s' <-> a ∈ selected \/ (a ∈ q /\ a ∈ part).
Proof.
  induction part as [|x part IH]; intros s Hnd Hsub; cbn [foldl].
  { split_and!; [done..|]. intros a. rewrite elem_of_nil. tauto. }
  assert (let s1 := if decide (x ∈ q) then set_insert x s else s in
    NoDup s1 /\ s1 ⊆ q /\ forall a, a ∈ s1 <-> a ∈ s \/ (a ∈ q /\ a = x)) as (H1 & H2 & H3).
  { cbv zeta. case_decide as Hx.
    - unfold set_insert. case_decide as Hin.
      + split_and!; [done..|]. intros a. split; [by left|]. by intros [|[_ ->]].
      + split_and!; [apply NoDup_app; split_and!; [done| |apply NoDup_singleton]; set_solver|set_solver|].
        intros a. rewrite elem_of_app, list_elem_of_singleton. split; [intros [| ->]|intros [|[_ ->]]]; tauto.
    - split_and!; [done..|]. intros a. split; [by left|]. by intros [|[? ->]]. }
  destruct (IH _ H1 H2) as (H4 & H5 & H6). split_and!; [done..|].
  intros a. rewrite H6, H3, elem_of_cons. tauto.
Qed.

Lemma chosen_step selected unused indices best part :
  chosen selected unused indices -> best ∈ unused -> parting !! best = Some part ->
  chosen (foldl (fun s attr => if decide (attr ∈ q) then set_insert attr s else s) selected part)
    (filter (fun i => i <> best) unused) (indices ++ [best]).
Proof.
  intros [Hsub Hnd Hsel Hall] Hb Hp. destruct (select_ok part selected Hnd Hsub) as (H1 & H2 & H3).
  split; [done|done| |].
  - intros a. rewrite H3, Hsel. setoid_rewrite elem_of_app. setoid_rewrite list_elem_of_singleton. split.
    + intros [(Ha & i & pt & Hi & Hpt & Hin)|[Ha Hin]]; (split; [done|]); [exists i, pt; tauto|exists best, part; tauto].
    + intros (Ha & i & pt & [Hi| ->] & Hpt & Hin); [left; split; [done|]; by exists i, pt|right].
      rewrite Hp in Hpt. injection Hpt as ->. done.
  - rewrite <- Hall. assert (NoDup unused) as Hnu.
    { pose proof (NoDup_seq 0 (length parting)) as Hs. rewrite <- Hall in Hs. by apply NoDup_app in Hs as (? & _). }
    by apply filter_move.
Qed.

(** Everything is covered when as many attributes are selected as asked for. *)
Lemma all_selected selected unused indices :
  chosen selected unused indices -> length selected = length q -> forall a, a ∈ q -> a ∈ selected.
Proof.
  intros [Hsub Hnd _ _] Hl a Ha. assert (selected ≡ₚ q) as ->; [|done].
  apply submseteq_length_Permutation; [by apply NoDup_submseteq|lia].
Qed.

Definition covered : Prop := forall a, a ∈ q -> exists part, part ∈ parting /\ a ∈ part.

Lemma choose_ok (Hcov : covered) : forall fuel selected unused indices,
  chosen selected unused indices -> (length unused < fuel)%nat ->
  exists idx, choose schema stats fuel parting q selected unused indices = Ret idx /\
    exists selected' unused', chosen selected' unused' idx /\ length selected' = length q.
Proof.
  induction fuel as [|fuel IH]; intros selected unused indices Hc Hf; [lia|]. cbn [choose].
  destruct (Nat.eqb_spec (length selected) (length q)) as [El|El]; [eauto 6|].
  assert (exists a, a ∈ q /\ a ∉ selected) as (a & Ha & Hna).
  { destruct (decide (Forall (fun a => a ∈ selected) q)) as [Hall|Hnall].
    - destruct El. rewrite Forall_forall in Hall. destruct Hc as [Hsub Hnd _ _].
      apply Nat.le_antisymm; apply submseteq_length, NoDup_submseteq; done.
    - apply not_Forall_Exists in Hnall; [|apply _]. by apply Exists_exists in Hnall. }
  destruct (Hcov a Ha) as (part & [i Hi]%list_elem_of_lookup & Hin).
  assert (i ∈ unused) as Hu.
  { assert (i ∈ unused ++ indices) as [|Hi']%elem_of_app; [|done|].
    - rewrite (ch_all _ _ _ Hc). apply elem_of_seq. apply lookup_lt_Some in Hi. lia.
    - destruct Hna. apply (ch_selected _ _ _ Hc). split; [done|]. by exists i, part. }
  assert (Forall (fun i => i < length parting)%nat unused) as Hlt.
  { apply Forall_forall. intros x Hx. assert (x ∈ unused ++ indices) as Hx' by (apply elem_of_app; by left).
    rewrite (ch_all _ _ _ Hc) in Hx'. apply elem_of_seq in Hx'. lia. }
  destruct (best_partition_ok q selected unused Hm) as (best & x & -> & Hbest); [by intros ->; apply elem_of_nil in Hu|done|].
  cbn [mbind outcome_bind]. rewrite Forall_forall in Hlt.
  destruct (lookup_lt_is_Some_2 parting best (Hlt _ Hbest)) as [bp Hbp]. rewrite Hbp. cbn [or_undefined mbind outcome_bind].
  apply IH; [by apply chosen_step|].
  assert (length (filter (fun i => i <> best) unused) < length unused)%nat; [|lia].
  apply length_filter_lt with best; [done|]. tauto.
Qed.

Lemma chosen_start order : order ≡ₚ seq 0 (length parting) -> chosen [] order [].
Proof.
  intros Ho. split; [set_solver|constructor| |by rewrite app_nil_r].
  intros a. split; [by intros ?%elem_of_nil|]. by intros (_ & i & part & ?%elem_of_nil & _).
Qed.

Lemma recompute_ok order :
  covered -> order ≡ₚ seq 0 (length parting) ->
  exists idx, recomputePartitionIndices schema stats parting q order = Ret idx /\ NoDup idx /\
    Forall (fun i => i < length parting)%nat idx /\
    forall a, a ∈ q -> exists i part, i ∈ idx /\ parting !! i = Some part /\ a ∈ part.
Proof.
  intros Hcov Ho. destruct (choose_ok Hcov (S (length order)) [] order [] (chosen_start order Ho)) as
    (idx & E & sel & un & Hc & Hl); [lia|].
  exists idx. split; [exact E|]. pose proof (NoDup_seq 0 (length parting)) as Hnd. pose proof (ch_all _ _ _ Hc) as Hall.
  rewrite <- Hall in Hnd. apply NoDup_app in Hnd as (_ & _ & Hnd). split_and!; [done| |].
  - apply Forall_forall. intros i Hi. assert (i ∈ un ++ idx) as Hx by (apply elem_of_app; by right). rewrite Hall in Hx.
    apply elem_of_seq in Hx. lia.
  - intros a Ha. apply (all_selected _ _ _ Hc Hl) in Ha. apply (ch_selected _ _ _ Hc) in Ha. apply Ha.
Qed.

(** An attribute in no partition is never selected, and when the partitions
    are used up the search yields a position past the end. *)
Lemma choose_uncovered a : a ∈ q -> (forall part, part ∈ parting -> a ∉ part) ->
  forall fuel selected unused indices,
  chosen selected unused indices -> (length unused < fuel)%nat ->
  choose schema stats fuel parting q selected unused indices = Undefined.
Proof.
  intros Ha Hno. induction fuel as [|fuel IH]; intros selected unused indices Hc Hf; [lia|]. cbn [choose].
  destruct (Nat.eqb_spec (length selected) (length q)) as [El|El].
  { apply (all_selected _ _ _ Hc El) in Ha. apply (ch_selected _ _ _ Hc) in Ha as (_ & i & part & _ & Hp & Hin).
    destruct (Hno part); [by eapply list_elem_of_lookup_2|done]. }
  assert (Forall (fun i => i < length parting)%nat unused) as Hlt.
  { apply Forall_forall. intros x Hx. assert (x ∈ unused ++ indices) as Hx' by (apply elem_of_app; by left).
    rewrite (ch_all _ _ _ Hc) in Hx'. apply elem_of_seq in Hx'. lia. }
  destruct unused as [|u unused].
  { cbn [best_partition foldM mbind outcome_bind]. by rewrite lookup_ge_None_2. }
  destruct (best_partition_ok q selected (u :: unused) Hm) as (best & x & -> & Hbest); [done|done|].
  cbn [mbind outcome_bind]. rewrite Forall_forall in Hlt.
  destruct (lookup_lt_is_Some_2 parting best (Hlt _ Hbest)) as [bp Hbp]. rewrite Hbp. cbn [or_undefined mbind outcome_bind].
  apply IH; [by apply chosen_step|].
  assert (length (filter (fun i => i <> best) (u :: unused)) < length (u :: unused))%nat; [|lia].
  apply length_filter_lt with best; [done|]. tauto.
Qed.
End Choice.

(** ** Properties *)

(** C29: choosing the partitions to read ends and finds enough: when the
    statistics give every attribute of the partitioning a positive size and
    every attribute of the query is in some partition, the greedy loop returns,
    for any iteration order of the set of partitions, distinct positions of
    partitions that together have all attributes of the query. *)
Theorem partition_choice_covers (schema : Schema) (stats : SchemaStats) (parting : Partitioning) (q : list string)
    (order : list nat) :
  measured_parts schema stats parting -> NoDup q -> covered parting q -> order ≡ₚ seq 0 (length parting) ->
  exists idx, recomputePartitionIndices schema stats parting q order = Ret idx /\ NoDup idx /\
    Forall (fun i => i < length parting)%nat idx /\
    forall a, a ∈ q -> exists i part, i ∈ idx /\ parting !! i = Some part /\ a ∈ part.
Proof. intros Hm Hq Hc Ho. by apply recompute_ok. Qed.

(** Both attributes are 12 bytes large on average. *)
Definition example_stats : SchemaStats := [(0, (1, dofZ 12)); (1, (2, dofZ 24))].

Lemma example_measured : measured_parts example_schema example_stats [["weight"]; ["tag"; "weight"]].
Proof.
  assert (measured example_schema example_stats "weight") as Hw by (exists 12; split; [vm_compute; reflexivity|lia]).
  assert (measured example_schema example_stats "tag") as Ht by (exists 12; split; [vm_compute; reflexivity|lia]).
  apply Forall_cons_2; [split; [by apply Forall_singleton|cbn; lia]|].
  apply Forall_singleton. split; [|cbn; lia]. apply Forall_cons_2; [done|by apply Forall_singleton].
Qed.

Lemma partition_choice_covers_witness :
  exists idx, recomputePartitionIndices example_schema example_stats [["weight"]; ["tag"; "weight"]] ["tag"] [1; 0]%nat = Ret idx /\
    1%nat ∈ idx.
Proof.
  destruct (partition_choice_covers example_schema example_stats [["weight"]; ["tag"; "weight"]] ["tag"] [1; 0]%nat)
    as (idx & E & _ & Hlt & Hcov).
  - exact example_measured.
  - apply NoDup_singleton.
  - intros a Ha. apply list_elem_of_singleton in Ha as ->. exists ["tag"; "weight"]. split; [right; left|left].
  - exact (Permutation_swap 0%nat 1%nat []).
  - exists idx. split; [exact E|]. destruct (Hcov "tag" ltac:(left)) as (i & part & Hi & Hp & Hin).
    destruct i as [|[|i]]; [|exact Hi|discriminate Hp].
    injection Hp as <-. apply list_elem_of_singleton in Hin. discriminate Hin.
Defined.

(** C38: an attribute of the query that no partition has makes the loop run
    past the last partition: it reads the vector of partitions out of its
    bounds. *)
Theorem partition_choice_out_of_bounds (schema : Schema) (stats : SchemaStats) (parting : Partitioning)
    (q : list string) (order : list nat) (a : string) :
  measured_parts schema stats parting -> NoDup q -> order ≡ₚ seq 0 (length parting) ->
  a ∈ q -> (forall part, part ∈ parting -> a ∉ part) ->
  recomputePartitionIndices schema stats parting q order = Undefined.
Proof.
  intros Hm Hq Ho Ha Hno. unfold recomputePartitionIndices.
  apply (choose_uncovered schema stats parting q Hq Hm a Ha Hno); [by apply (chosen_start schema stats)|lia].
Qed.

Lemma partition_choice_out_of_bounds_witness :
  recomputePartitionIndices example_schema example_stats [["weight"]; ["tag"; "weight"]] ["tag"; "colour"] [0; 1]%nat = Undefined.
Proof.
  apply (partition_choice_out_of_bounds _ _ _ _ _ "colour").
  - exact example_measured.
  - apply NoDup_cons. split; [|apply NoDup_singleton]. intros H. apply list_elem_of_singleton in H. discriminate H.
  - reflexivity.
  - right; left.
  - intros part Hp Hin. repeat (apply elem_of_cons in Hp as [->|Hp]);
      [repeat (apply elem_of_cons in Hin as [H|Hin]; [discriminate H|]); by apply elem_of_nil in Hin..|].
    by apply elem_of_nil in Hp.
Defined.
