(* ===== verification/DerivedBlocks.v ===== *)
(** * The stored form of a partitioned block

    The master block and the sub blocks that [partitionBlock] makes of a block
    have its lists with other data: their times, their midpoint and their
    stored length are bounded by those of the original, so they can be stored
    and read back. *)

From Stdlib Require Import ZArith Lia Permutation.
From stdpp Require Import base numbers gmap strings list sorting.
From S2P Require Import Prelude.
From S2P Require Import Double.
From S2P Require Import NetworkByteBuffer.
From S2P Require Import LevelDB.
From S2P Require Import Schema.
From S2P Require Import AttributeData.
From S2P Require Import NeighborList.
From S2P Require Import PartitionIndex.
From S2P Require Import Block.
From S2P Require Import BlockContent.
From S2P Require Import BlockStorage.
From S2P Require Import BlockManager.

#[local] Arguments be : simpl never.

(** ** Blocks of the same shape *)

Definition derived_list (F : VertexId * nat * NLEdge -> AttributeData) (p' p : VertexId * NeighborList) : Prop :=
  p'.1 = p.1 /\ edge_content <$> edges_ p'.2 = imap (fun k e => (toVertex_ e, tm_ e, F (p.1, k, e))) (edges_ p.2).

Definition derived (F : VertexId * nat * NLEdge -> AttributeData) (b b' : Block) : Prop :=
  Forall2 (derived_list F) (neigs_ b') (neigs_ b).

Lemma content_derived F b b' : content b' = mapped_content F b <-> derived F b b'.
Proof.
  unfold content, mapped_content, derived. generalize (neigs_ b) as ns. induction (neigs_ b') as [|[h' nl'] ns' IH];
    intros [|[h nl] ns]; cbn.
  - split; [constructor|done].
  - split; [done|intros H; inversion H].
  - split; [done|intros H; inversion H].
  - split.
    + intros [= E1 E2 E3]. constructor; [by split|by apply IH].
    + intros H. inversion H as [|? ? ? ? [E1 E2] E3]. cbn in *. subst. f_equal; [by f_equal|by apply IH].
Qed.

Lemma derived_edge F p' p k :
  derived_list F p' p ->
  match edges_ p'.2 !! k, edges_ p.2 !! k with
  | Some e', Some e => toVertex_ e' = toVertex_ e /\ tm_ e' = tm_ e /\ cell (data_ e') = F (p.1, k, e)
  | None, None => True
  | _, _ => False
  end.
Proof.
  intros [_ H]. assert ((edge_content <$> edges_ p'.2) !! k =
    imap (fun k e => (toVertex_ e, tm_ e, F (p.1, k, e))) (edges_ p.2) !! k) as Hk by by rewrite H.
  rewrite list_lookup_fmap, list_lookup_imap in Hk.
  destruct (edges_ p'.2 !! k), (edges_ p.2 !! k); try done. cbn in Hk. by injection Hk as -> -> ->.
Qed.

Lemma derived_times F p' p : derived_list F p' p -> tm_ <$> edges_ p'.2 = tm_ <$> edges_ p.2.
Proof.
  intros H. apply list_eq. intros k. rewrite !list_lookup_fmap. pose proof (derived_edge F p' p k H) as Hk.
  destruct (edges_ p'.2 !! k), (edges_ p.2 !! k); try done. cbn. f_equal. apply Hk.
Qed.

Lemma derived_length F p' p : derived_list F p' p -> length (edges_ p'.2) = length (edges_ p.2).
Proof. intros H%derived_times. apply (f_equal length) in H. by rewrite !length_fmap in H. Qed.

Lemma derived_keys F b b' : derived F b b' -> (neigs_ b').*1 = (neigs_ b).*1.
Proof. unfold derived. induction 1 as [|p' p ns' ns [H _] _ IH]; [done|]. cbn. by f_equal. Qed.

(** The edge the derived one comes from. *)
Lemma derived_origin F b b' h k e' :
  derived F b b' -> (h, k, e') ∈ edges_of b' ->
  exists e, (h, k, e) ∈ edges_of b /\ toVertex_ e' = toVertex_ e /\ tm_ e' = tm_ e /\ cell (data_ e') = F (h, k, e).
Proof.
  intros Hd (nl' & Hin & Hk)%elem_of_edges_of.
  apply list_elem_of_lookup in Hin as [i Hi].
  destruct (Forall2_lookup_l _ _ _ i _ Hd Hi) as ([h0 nl] & Hi' & Hp). pose proof Hp as [Eh _]. cbn in Eh. subst h0.
  pose proof (derived_edge F _ _ k Hp) as He. cbn in He. rewrite Hk in He.
  destruct (edges_ nl !! k) as [e|] eqn:Ek; [|done]. exists e. split; [|done].
  apply elem_of_edges_of. exists nl. split; [|done]. by eapply list_elem_of_lookup_2.
Qed.

Lemma times_ends (es es' : list NLEdge) :
  tm_ <$> es' = tm_ <$> es -> tm_ <$> head es' = tm_ <$> head es /\ tm_ <$> last es' = tm_ <$> last es.
Proof.
  intros Ht. split; [|by rewrite <- !fmap_last, Ht].
  destruct es', es; try done. cbn in *. by injection Ht as ->.
Qed.

Lemma derived_minmax F b b' : derived F b b' -> findMinMaxTimestamps b' = findMinMaxTimestamps b.
Proof.
  unfold derived, findMinMaxTimestamps. generalize (dmax, dzero) as acc. intros acc H. revert acc.
  induction H as [|p' p ns' ns Hp Hns IH]; intros [mn mx]; [done|]. cbn [foldM].
  destruct (times_ends _ _ (derived_times F p' p Hp)) as [E1 E2]. unfold getOldestEdge, getNewestEdge.
  destruct (head (edges_ p'.2)) as [o'|], (head (edges_ p.2)) as [o|]; try done.
  destruct (last (edges_ p'.2)) as [n'|], (last (edges_ p.2)) as [n|]; try done.
  cbn in E1, E2 |- *. injection E1 as ->. injection E2 as ->. apply IH.
Qed.

(** ** Stored lengths *)

Definition edge_bytes (d : AttributeData) : nat := (16 + length (enc_data d))%nat.

Definition list_bytes (p : VertexId * NeighborList) : nat :=
  (12 + sum_list_with (fun e => edge_bytes (cell (data_ e))) (edges_ p.2))%nat.

(** The bytes the lists of a block take at most, each edge written with its
    data. *)
Definition block_bytes (b : Block) : nat := sum_list_with list_bytes (neigs_ b).

Lemma enc_edges_bound part h es : forall w,
  (length (enc_edges part h w es).1 <= sum_list_with (fun e => edge_bytes (cell (data_ e))) es)%nat.
Proof.
  induction es as [|e es IH]; intros w; [done|]. cbn [enc_edges fst sum_list_with]. rewrite length_app.
  specialize (IH (enc_edge part h w e).2).
  assert (length (enc_edge part h w e).1 <= edge_bytes (cell (data_ e)))%nat; [|lia].
  unfold enc_edge, edge_bytes. repeat case_match; cbn [fst]; rewrite ?length_app, !length_be; lia.
Qed.

Lemma enc_lists_bound part ns : forall w, (length (enc_lists part w ns).1 <= sum_list_with list_bytes ns)%nat.
Proof.
  induction ns as [|p ns IH]; intros w; [done|]. cbn [enc_lists fst sum_list_with].
  specialize (IH (enc_edges part p.1 w (edges_ p.2)).2). pose proof (enc_edges_bound part p.1 (edges_ p.2) w).
  rewrite !length_app, !length_be. unfold list_bytes at 1. lia.
Qed.

Lemma derived_bytes F b b' :
  derived F b b' ->
  (forall x, x ∈ edges_of b -> (length (enc_data (F x)) <= length (enc_data (cell (data_ x.2))))%nat) ->
  (block_bytes b' <= block_bytes b)%nat.
Proof.
  intros Hd HF. unfold block_bytes.
  assert (forall p k e, p ∈ neigs_ b -> edges_ p.2 !! k = Some e ->
    (length (enc_data (F (p.1, k, e))) <= length (enc_data (cell (data_ e))))%nat) as HF'.
  { intros [h nl] k e Hp Hk. apply (HF (h, k, e)), elem_of_edges_of. eauto. }
  clear HF. unfold derived in Hd. revert Hd HF'. generalize (neigs_ b) as ns.
  induction (neigs_ b') as [|p' ns' IH]; intros ns Hd HF; inversion Hd as [|? p ? ns0 Hp Hns]; subst; [done|].
  cbn [sum_list_with]. assert (list_bytes p' <= list_bytes p)%nat.
  - unfold list_bytes. assert (forall k e, edges_ p.2 !! k = Some e ->
      (length (enc_data (F (p.1, k, e))) <= length (enc_data (cell (data_ e))))%nat) as HF1 by (intros k e; apply HF; left).
    destruct Hp as [_ Hp]. clear -Hp HF1. generalize dependent F. revert p. intros [h nl]. cbn [fst snd].
    generalize (edges_ nl) as es. induction (edges_ p'.2) as [|e' es' IH]; intros [|e es] F Hp HF; try done.
    cbn in Hp. injection Hp as _ _ Ed Hp. cbn [sum_list_with].
    specialize (IH es (fun x => F (x.1.1, S x.1.2, x.2)) Hp (fun k e0 Hk => HF (S k) e0 Hk)).
    pose proof (HF 0%nat e eq_refl) as H0. rewrite <- Ed in H0. unfold edge_bytes at 1 3. lia.
  - assert (sum_list_with list_bytes ns' <= sum_list_with list_bytes ns0)%nat; [|lia].
    apply IH; [done|]. intros q k e Hq. apply HF. by right.
Qed.

(** A part of the data is stored in no more bytes. *)
Lemma part_bytes s attrs d p : well_typed d -> is_part s attrs d p -> (length (enc_data p) <= length (enc_data d))%nat.
Proof.
  intros [Hndd _] ([Hnd _] & H1 & H2). unfold enc_data.
  assert (forall l : list (Z * Value), length (concat (enc_value <$> l.*2)) = sum_list_with (fun x => length (enc_value x.2)) l) as Hl.
  { induction l as [|x l IH]; [done|]. cbn. by rewrite length_app, IH. }
  rewrite !Hl. assert (fields_ p ⊆+ fields_ d) as [k ->]%submseteq_Permutation.
  { apply NoDup_submseteq; [by apply (NoDup_fmap_1 fst)|]. intros [i v] Hin.
    pose proof (assoc_find_elem i v _ Hnd Hin) as Hi. apply assoc_find_Some. rewrite <- H1; [done|].
    apply dec_stable. intros Hn. rewrite (H2 i Hn) in Hi. done. }
  rewrite sum_list_with_app. lia.
Qed.

(** ** Slices of a tiling do not overlap *)

Lemma tiles_starts from to sl :
  tiles from to sl -> Forall (fun t => dkey from <= dkey (startTime_ t)) sl.
Proof.
  revert from. induction sl as [|t sl IH]; intros from; [done|]. cbn. intros (<- & Hlt & Ht).
  constructor; [lia|]. eapply Forall_impl; [by apply IH|]. cbn. lia.
Qed.

Lemma slice_unique sl time t t' :
  tiles dninf dinf sl -> t ∈ sl -> t' ∈ sl -> in_slice time t = true -> in_slice time t' = true -> t = t'.
Proof.
  generalize dninf at 1 as from. intros from. revert from. induction sl as [|x sl IH]; intros from Ht Hin Hin' H H'.
  { by apply elem_of_nil in Hin. }
  cbn in Ht. destruct Ht as (_ & _ & Ht). pose proof (tiles_starts _ _ _ Ht) as Hs. rewrite Forall_forall in Hs.
  assert (forall y, y ∈ sl -> in_slice time x = true -> in_slice time y = true -> False) as Hno.
  { intros y Hy Hx Hiy. specialize (Hs y Hy). unfold in_slice, dleb, dltb in *. zb. lia. }
  apply elem_of_cons in Hin as [->|Hin], Hin' as [->|Hin']; [done|by destruct (Hno t')|by destruct (Hno t)|].
  by apply (IH (endTime_ x)).
Qed.

(** ** The blocks of a partitioned block can be stored *)

(** [project] keeps the fields in the order [newAttributeData_of] makes them. *)
Lemma project_part_data s attrs d p :
  defined_schema s -> names_of_schema s attrs -> complete s d -> project s attrs d = Ret p -> part_data s attrs p.
Proof.
  intros Hdef Hn Hc E. destruct (newAttributeData_of_ok s attrs Hdef Hn) as (d0 & E0 & _ & Hs0 & Hk0).
  destruct (project_ok s attrs d Hdef Hn Hc) as (p' & E' & Hwt & Hs & _). rewrite E in E'. injection E' as <-.
  split; [done|]. exists d0. split; [done|]. split; [congruence|].
  unfold project in E. rewrite E0 in E. cbn [mbind outcome_bind] in E.
  refine (foldM_inv (fun _ q => (fields_ q).*1 = (fields_ d0).*1) _ attrs _ d0 p eq_refl E).
  intros l a rest q q' El Hq Eq. apply bind_ret in Eq as (i & Ei & Eq). apply bind_ret in Eq as (v & _ & Eq).
  injection Eq as <-. cbn. rewrite assoc_set_keys; [done|]. rewrite Hq. apply assoc_find_is_Some, Hk0.
  exists a. split; [rewrite El; set_solver|]. unfold getIndex in Ei. destruct (nameToIndex_ s !! a); [by injection Ei as <-|discriminate Ei].
Qed.

Lemma projected_ok s attrs d :
  defined_schema s -> names_of_schema s attrs -> complete s d ->
  part_data s attrs (projected s attrs d) /\ is_part s attrs d (projected s attrs d).
Proof.
  intros Hdef Hn Hc. destruct (project_ok s attrs d Hdef Hn Hc) as (p & E & Hwt & _ & H1 & H2).
  unfold projected. rewrite E. split; [by eapply project_part_data|done].
Qed.

Section Stored.
Context (s : Schema) (Hdef : defined_schema s) (sl : list TimeSlicedPartitioning) (Htile : tiling sl).

(** Partitionings that cover the schema. *)
Definition parts_ok : Prop :=
  Forall (fun t => covers s (partitioning_ t) /\ partitioning_ t <> [] /\ Z.of_nat (length (partitioning_ t)) < 2 ^ 24) sl.

Record well_stored (b : Block) : Prop := {
  ws_wf : block_wf s b;
  ws_lists : Forall list_storable (neigs_ b);
  ws_mid : exists mn mx, findMinMaxTimestamps b = Ret (mn, mx) /\ instant (midpoint mn mx) /\ midpoint mn mx < dinf /\
    midpoint mn mx ∉ endTime_ <$> sl;
  ws_size : Z.of_nat (block_bytes b) <= 2 ^ 31
}.

Context (b : Block) (Hb : well_stored b).

Section Derived.
Context (F : VertexId * nat * NLEdge -> AttributeData) (b' : Block) (Hd : content b' = mapped_content F b).
Context (Hwt : forall x, x ∈ edges_of b -> well_typed (F x)).
Context (Hsz : forall x, x ∈ edges_of b -> (length (enc_data (F x)) <= length (enc_data (cell (data_ x.2))))%nat).

Lemma derived_lists_storable : Forall list_storable (neigs_ b').
Proof.
  clear Hsz. apply content_derived in Hd. pose proof (ws_lists _ Hb) as Hl. apply Forall_forall.
  intros [h nl'] Hin. pose proof Hin as Hin'. apply list_elem_of_lookup in Hin' as [i Hi].
  destruct (Forall2_lookup_l _ _ _ i _ Hd Hi) as ([h0 nl] & Hi' & Hp). pose proof Hp as [Eh _]. cbn in Eh. subst h0.
  rewrite Forall_lookup in Hl. destruct (Hl _ _ Hi') as (Hh & Hlen & Hes). split; [done|]. split.
  - pose proof (derived_length F _ _ Hp) as E. cbn in *. by rewrite E.
  - apply Forall_lookup. intros k e' Hk. destruct (derived_origin F b b' h k e' Hd) as (e & He & E1 & E2 & E3).
    { apply elem_of_edges_of. eauto. }
    pose proof He as (nl0 & Hnl0 & Hk0)%elem_of_edges_of.
    assert (nl0 = nl) as ->.
    { apply list_elem_of_lookup_2 in Hi'. destruct (bw_ok _ _ (ws_wf _ Hb)) as [Hnd _].
      pose proof (assoc_find_elem _ _ _ Hnd Hi') as A1. pose proof (assoc_find_elem _ _ _ Hnd Hnl0) as A2. congruence. }
    rewrite Forall_lookup in Hes. destruct (Hes _ _ Hk0) as (H1 & H2 & _). unfold edge_storable.
    rewrite E1, E2, E3. auto.
Qed.

Lemma derived_length_ok mn mx i :
  Z.of_nat (length (subBlocks_ b')) <= 2 ^ 24 -> Z.of_nat (length (enc_block b' mn mx i)) <= 2 ^ 32.
Proof.
  clear Hwt. intros Hsub. apply content_derived in Hd. pose proof (derived_bytes F b b' Hd Hsz) as Hle.
  pose proof (ws_size _ Hb) as Hs. unfold enc_block, enc_header. rewrite !length_app, !length_be.
  pose proof (enc_lists_bound i (neigs_ b') []) as Hl. unfold block_bytes in *.
  assert (length (enc (vector uint64) (subBlocks_ b')) = 4 + 8 * length (subBlocks_ b'))%nat as ->; [|lia].
  cbn [enc vector]. rewrite length_app, length_be. f_equal. clear.
  induction (subBlocks_ b') as [|x l IH]; [done|]. unfold enc_list in *. rewrite fmap_cons. cbn [concat length]. rewrite length_app, IH.
  cbn [enc uint64 scalar]. rewrite length_be. lia.
Qed.

Lemma derived_storable attrs i :
  partition_ b' = Some i -> - 2 ^ 31 <= i < 2 ^ 31 -> is_u64 (id_ b') -> valid (vector uint64) (subBlocks_ b') ->
  (forall x y, x ∈ edges_of b -> y ∈ edges_of b -> cell (data_ x.2) = cell (data_ y.2) -> F x = F y) ->
  (i = -1 -> subBlocks_ b' <> [] /\ forall x, x ∈ edges_of b -> F x = mkData [] s) ->
  (i <> -1 -> forall x, x ∈ edges_of b -> part_data s attrs (F x)) ->
  storable s attrs i b'.
Proof.
  intros Hp Hi Hid Hsub Hcoh Hm Hpd. pose proof derived_lists_storable as Hls. clear Hsz.
  pose proof (proj1 (content_derived _ _ _) Hd) as Hdr. destruct (ws_wf _ Hb) as [[Hnd Hne] Htm Hco _].
  assert (forall x, x ∈ edges_of b' -> exists y, y ∈ edges_of b /\ edge_triplet x = edge_triplet y /\
    tm_ x.2 = tm_ y.2 /\ cell (data_ x.2) = F y) as Horig.
  { intros [[h k] e'] Hx. destruct (derived_origin F b b' h k e' Hdr Hx) as (e & He & E1 & E2 & E3).
    exists (h, k, e). unfold edge_triplet. cbn. rewrite E1, E2. done. }
  split; try done.
  - split; [by rewrite (derived_keys F b b' Hdr)|]. by apply (content_edges b F b' Hd).
  - intros x Hx. destruct (Horig x Hx) as (y & Hy & _ & -> & _). by apply Htm.
  - intros x y Hx Hy Ht. destruct (Horig x Hx) as (x0 & Hx0 & Ex & _ & ->). destruct (Horig y Hy) as (y0 & Hy0 & Ey & _ & ->).
    apply Hcoh; [done|done|]. apply Hco; [done|done|]. by rewrite <- Ex, <- Ey.
  - intros E. destruct (Hm E) as [H1 H2]. split; [done|]. intros x Hx. destruct (Horig x Hx) as (y & Hy & _ & _ & ->). by apply H2.
  - intros E x Hx. destruct (Horig x Hx) as (y & Hy & _ & _ & ->). by apply Hpd.
Qed.
End Derived.
End Stored.
