(* ===== verification/Slices.v ===== *)
(** * Replacing slices of the partition index

    core/PartitionIndex.cpp: what [initiatePartitioningRemoval] and
    [addPartitioning] do to the slices of an index, and what a read finds while
    slices are being replaced: the slices that are being removed answer before
    the new ones. *)

From Stdlib Require Import ZArith Lia Permutation.
From stdpp Require Import base numbers gmap strings list sorting.
From S2P Require Import Prelude.
From S2P Require Import Double.
From S2P Require Import NetworkByteBuffer.
From S2P Require Import LevelDB.
From S2P Require Import Schema.
From S2P Require Import NeighborList.
From S2P Require Import PartitionIndex.
From S2P Require Import BlockManager.
From S2P Require Import DerivedBlocks.

#[local] Arguments be : simpl never.

(** ** Tilings *)

Lemma tiles_bounds a b sl : tiles a b sl ->
  dkey a <= dkey b /\ Forall (fun t => dkey a <= dkey (startTime_ t) /\ dkey (endTime_ t) <= dkey b) sl.
Proof.
  revert a. induction sl as [|t sl IH]; intros a; cbn; [by intros ->|]. intros (<- & Hlt & Ht).
  destruct (IH _ Ht) as [Hle Hall]. split; [lia|]. constructor; [lia|]. eapply Forall_impl; [exact Hall|]. cbn. lia.
Qed.

Lemma tiles_end_unique a b b' sl : tiles a b sl -> tiles a b' sl -> b = b'.
Proof. revert a. induction sl as [|t sl IH]; intros a; cbn; [congruence|]. intros (_ & _ & H) (_ & _ & H'). by eapply IH. Qed.

Lemma tiles_start_unique a a' b sl : tiles a b sl -> tiles a' b sl -> a = a'.
Proof. destruct sl as [|t sl]; cbn; [congruence|]. intros (-> & _) (-> & _). done. Qed.

Lemma in_slice_bounds time t : in_slice time t = true -> dkey (startTime_ t) <= dkey time < dkey (endTime_ t).
Proof. unfold in_slice, dleb, dltb. intros H. zb. lia. Qed.

Lemma tiling_ends_NoDup sl : tiling sl -> NoDup (endTime_ <$> sl).
Proof.
  intros [Ht _ _]. pose proof (tiles_sorted _ _ _ Ht) as Hs. clear Ht. induction Hs as [|t sl Hs IH Hx]; [constructor|].
  cbn. constructor; [|done]. intros (t' & E & Hin)%list_elem_of_fmap. rewrite Forall_forall in Hx. apply Hx in Hin. rewrite E in Hin. lia.
Qed.

(** The slices between two sequences of a tiling are in a part of the time
    line that the other slices do not touch. *)
Section Middle.
Context (l1 olds news l2 : list TimeSlicedPartitioning).
Context (Hold : tiling (l1 ++ olds ++ l2)) (Hnew : tiling (l1 ++ news ++ l2)).

Lemma middle_tiles : exists x y, tiles dninf x l1 /\ tiles x y olds /\ tiles x y news /\ tiles y dinf l2.
Proof.
  destruct (proj1 (tiles_app _ _ _ _) (tiling_tiles _ Hold)) as (x & H1 & (y & H2 & H3)%tiles_app).
  destruct (proj1 (tiles_app _ _ _ _) (tiling_tiles _ Hnew)) as (x' & H1' & (y' & H2' & H3')%tiles_app).
  assert (x' = x) as -> by by eapply tiles_end_unique. assert (y' = y) as -> by by eapply tiles_start_unique.
  by exists x, y.
Qed.

(** A time in one of the new slices is in one of the old ones. *)
Lemma middle_time time t : instant time -> time < dinf -> time ∉ endTime_ <$> l1 ++ olds ++ l2 ->
  t ∈ news -> in_slice time t = true -> exists t', t' ∈ olds /\ in_slice time t' = true.
Proof.
  intros Hi Hlt Hno Ht Hin%in_slice_bounds. destruct (tiling_slice _ time Hold Hi Hlt Hno) as (sl1 & t0 & sl2 & E & Hin0 & _).
  destruct middle_tiles as (x & y & H1 & H2 & H2' & H3). exists t0. split; [|done]. apply in_slice_bounds in Hin0.
  destruct (tiles_bounds _ _ _ H1) as [_ B1]. destruct (tiles_bounds _ _ _ H2') as [_ B2]. destruct (tiles_bounds _ _ _ H3) as [_ B3].
  rewrite Forall_forall in B1. rewrite Forall_forall in B2. rewrite Forall_forall in B3. specialize (B2 t Ht).
  assert (t0 ∈ l1 ++ olds ++ l2) as Hin' by (rewrite E; set_solver).
  apply elem_of_app in Hin' as [Hin'|Hin']; [specialize (B1 _ Hin'); lia|].
  apply elem_of_app in Hin' as [Hin'|Hin']; [done|]. specialize (B3 _ Hin'). lia.
Qed.
End Middle.

(** ** The slices an index holds *)

Section Holding.
Context {D : Type} `{LevelDB D, !LevelDBOk D}.

(** [index_ok] without the tiling: it holds between the removal of slices and
    the addition of others. *)
Record holding (p : PartitionIndex D) (L : list TimeSlicedPartitioning) : Prop := {
  hd_valid : Forall (fun t => slice_valid t /\ instant (endTime_ t)) L;
  hd_ends : NoDup (endTime_ <$> L);
  hd_stores : stores (contents (db_ p)) L;
  hd_cached : Forall (fun kc => cached_partitioning kc.2 ∈ L /\ kc.1 = endTime_ (cached_partitioning kc.2)) (cache_ p);
  hd_sorted : StronglySorted (fun x y => x < y) (cache_ p).*1;
  hd_iters : (cached_iter ∘ snd) <$> cache_ p ≡ₚ (lruList_ p).*1;
  hd_nodes : NoDup (lruList_ p).*1 /\ Forall (fun n => n < nextNode_ p) (lruList_ p).*1
}.

Lemma end_keys_NoDup L : Forall (fun t => slice_valid t /\ instant (endTime_ t)) L -> NoDup (endTime_ <$> L) ->
  NoDup (slice_entry <$> L).*1.
Proof.
  intros Hv Hnd. rewrite <- list_fmap_compose. induction Hv as [|t L [Ht _] Hv IH]; [constructor|].
  cbn in *. apply NoDup_cons in Hnd as [Hn Hnd]. constructor; [|by apply IH].
  intros (t' & E & Hin)%list_elem_of_fmap. cbn in E. rewrite Forall_forall in Hv. destruct (Hv _ Hin) as [Ht' _].
  apply Hn. apply (be_inj 8) in E; [rewrite E; by apply list_elem_of_fmap_2|apply Ht|apply Ht'].
Qed.

Lemma holding_Permutation p L L' : holding p L -> L ≡ₚ L' -> holding p L'.
Proof.
  intros [Hv He Hs Hc Hso Hi Hn] HL. split; [by rewrite <- HL|by rewrite <- HL| | |done|done|done].
  - unfold stores in *. rewrite Hs. apply (list_to_map_proper (M := gmap bytes)); [by apply end_keys_NoDup|by rewrite HL].
  - eapply Forall_impl; [exact Hc|]. intros kc [Hin ?]. split; [by rewrite <- HL|done].
Qed.

Lemma index_holding p sl : index_ok p sl -> holding p sl.
Proof.
  intros [Ht Hs Hr Hc Hso Hi Hn]. split; try done; [|by apply tiling_ends_NoDup].
  pose proof (tiling_valid _ Ht) as Hv. pose proof (tiling_ends _ Ht) as He. rewrite Forall_forall in *. auto.
Qed.

Lemma holding_index p L sl : holding p L -> L ≡ₚ sl -> tiling sl -> Z.of_nat (length sl) <= partitioningBufferSize_ p -> index_ok p sl.
Proof. intros Hp HL Ht Hr. destruct (holding_Permutation p L sl Hp HL). by split. Qed.

(** *** Adding a slice *)

Lemma addPartitioning_ok p L t : holding p L -> slice_valid t -> instant (endTime_ t) -> endTime_ t ∉ endTime_ <$> L ->
  exists p', addPartitioning t p = Ret p' /\ holding p' (t :: L) /\ removedPartitionings_ p' = removedPartitionings_ p /\
    partitioningBufferSize_ p' = partitioningBufferSize_ p /\ edgeSchema_ p' = edgeSchema_ p.
Proof.
  intros [Hv He Hs Hc Hso Hi Hn] Ht Hti Hno. unfold addPartitioning. rewrite time_key_ok by apply Ht. cbn [mbind outcome_bind].
  destruct (put_slice_ok t Ht) as (b & -> & E). cbn [mbind outcome_bind]. rewrite E. cbn [mbind outcome_bind].
  destruct (ldb_put_ok (db_ p) (be 8 (endTime_ t)) (enc_slice t)) as (db & -> & Hdb). cbn [check mbind outcome_bind].
  eexists. split; [reflexivity|]. split; [|done]. split; cbn; try done.
  - by constructor.
  - by constructor.
  - unfold stores in *. rewrite Hdb, Hs. done.
  - eapply Forall_impl; [exact Hc|]. intros kc [Hin ?]. split; [by right|done].
Qed.

(** *** Removing a slice *)

Lemma cache_find_key {V} k (m : list (Timestamp * V)) : instant k -> Forall instant m.*1 ->
  (cache_find k m = None /\ k ∉ m.*1) \/ (exists c, cache_find k m = Some c /\ (k, c) ∈ m).
Proof.
  intros Hk Hm. destruct (cache_find k m) as [c|] eqn:E.
  - right. exists c. split; [done|]. apply cache_find_Some in E as (k' & Hin & Hq).
    rewrite Forall_fmap, Forall_forall in Hm. pose proof (Hm _ Hin) as Hk'. cbn in Hk'.
    rewrite instant_deqb in Hq by done. apply Z.eqb_eq in Hq. by subst.
  - left. split; [done|]. unfold cache_find in E. apply bind_None in E as [E|([i [k' c]] & _ & E)]; [|done].
    apply list_find_None in E. rewrite Forall_forall in E. intros ([k' c] & -> & Hin)%list_elem_of_fmap.
    apply (E _ Hin). cbn. by apply deqb_refl, instant_num.
Qed.

Lemma cache_erase_filter {V} k (m : list (Timestamp * V)) : instant k -> Forall instant m.*1 ->
  cache_erase k m = filter (fun p => p.1 <> k) m.
Proof.
  intros Hk Hm. unfold cache_erase. induction m as [|[k' c] m IH]; [done|]. cbn in Hm. apply Forall_cons in Hm as [Hk' Hm].
  rewrite !filter_cons, IH by done. cbn. rewrite instant_deqb by done. destruct (Z.eqb_spec k' k); repeat case_decide; congruence.
Qed.

Lemma initiatePartitioningRemoval_ok p L t : holding p (t :: L) ->
  exists p', initiatePartitioningRemoval t p = Ret p' /\ holding p' L /\ removedPartitionings_ p' = removedPartitionings_ p ++ [t] /\
    partitioningBufferSize_ p' = partitioningBufferSize_ p /\ edgeSchema_ p' = edgeSchema_ p.
Proof.
  intros [[[Ht Hti] Hv]%Forall_cons He Hs Hc Hso Hi [Hnd Hno]]. rewrite fmap_cons in He. pose proof He as [Hne He']%NoDup_cons.
  assert (NoDup (slice_entry <$> t :: L).*1) as Hkeys by (apply end_keys_NoDup; [by constructor|done]).
  unfold initiatePartitioningRemoval. rewrite time_key_ok by apply Ht. cbn [mbind outcome_bind].
  destruct (ldb_delete_ok (db_ (with_removed (removedPartitionings_ p ++ [t]) p)) (be 8 (endTime_ t))) as (db & -> & Hdb).
  cbn [check mbind outcome_bind]. cbn [cache_ with_db with_removed db_] in *.
  assert (stores (contents db) L) as Hs'.
  { unfold stores in *. rewrite Hdb, Hs. cbn. apply delete_insert_id. apply not_elem_of_list_to_map_1. cbn in Hkeys. by apply NoDup_cons in Hkeys as [? _]. }
  rewrite Forall_forall in Hv. rewrite Forall_forall in Hc.
  assert (Forall instant (cache_ p).*1) as Hki.
  { apply Forall_fmap, Forall_forall. intros kc Hin. cbn. destruct (Hc kc Hin) as [[E|Hin']%elem_of_cons ->]; [by rewrite E|by apply Hv]. }
  assert (forall kc, kc ∈ cache_ p -> kc.1 <> endTime_ t -> cached_partitioning kc.2 ∈ L /\ kc.1 = endTime_ (cached_partitioning kc.2)) as Hin.
  { intros kc Hin Hk. destruct (Hc kc Hin) as [[E|Hin']%elem_of_cons E']; [|done]. rewrite E in E'. done. }
  destruct (cache_find_key (endTime_ t) (cache_ p) Hti Hki) as [[-> Hn]|(c & -> & Hcin)].
  - eexists. split; [reflexivity|]. split; [|done]. split; cbn; try done; [by apply Forall_forall|].
    apply Forall_forall. intros kc Hkc. apply Hin; [done|]. intros E. apply Hn. rewrite <- E. by apply list_elem_of_fmap_2.
  - cbn [lruList_ with_db with_removed]. unfold lru_erase.
    assert (cached_iter c ∈ (lruList_ p).*1) as Hnode by (rewrite <- Hi; apply list_elem_of_fmap; by exists (endTime_ t, c)).
    destruct (assoc_find (cached_iter c) (lruList_ p)) eqn:E; [|by apply assoc_find_None in E].
    cbn [mbind outcome_bind]. eexists. split; [reflexivity|]. split; [|done]. rewrite cache_erase_filter by done.
    assert (NoDup (cache_ p).*1) as Hcnd.
    { clear -Hso. induction Hso as [|x l Hs IH Hx]; [constructor|]. constructor; [|done]. intros Hin.
      rewrite Forall_forall in Hx. apply Hx in Hin. lia. }
    assert (cache_ p ≡ₚ (endTime_ t, c) :: filter (fun kc => kc.1 <> endTime_ t) (cache_ p)) as Hperm.
    { clear -Hcin Hcnd. revert Hcin Hcnd. generalize (cache_ p). intros m Hcin Hcnd. apply list_elem_of_split in Hcin as (m1 & m2 & ->). rewrite fmap_app in Hcnd.
      apply NoDup_app in Hcnd as (_ & H1 & H2). cbn in H1, H2. apply NoDup_cons in H2 as [H2 _].
      rewrite filter_app, filter_cons, decide_False by tauto.
      rewrite !filter_all; [by rewrite Permutation_middle| |].
      - apply Forall_forall. intros kc Hk E. apply H2. rewrite <- E. by apply list_elem_of_fmap_2.
      - apply Forall_forall. intros kc Hk E. apply (H1 (endTime_ t)); [|by left]. rewrite <- E. by apply list_elem_of_fmap_2. }
    split; cbn; try done.
    + by apply Forall_forall.
    + apply Forall_forall. intros kc [Hk Hkc]%list_elem_of_filter. by apply Hin.
    + clear -Hso. induction (cache_ p) as [|[k c] m IH]; [constructor|]. cbn in Hso. apply StronglySorted_inv in Hso as [Hs Hx].
      rewrite filter_cons. case_decide; [|by apply IH]. cbn. constructor; [by apply IH|].
      rewrite Forall_forall in *. intros x (kc & -> & [_ Hin]%list_elem_of_filter)%list_elem_of_fmap. apply Hx. by apply list_elem_of_fmap_2.
    + apply (Permutation_cons_inv (a := cached_iter c)). rewrite <- assoc_erase_Permutation by done. rewrite <- Hi. by rewrite Hperm at 2.
    + split; [by apply assoc_erase_NoDup|]. rewrite Forall_forall in *. intros x Hx. apply Hno. by apply assoc_erase_keys in Hx.
Qed.
End Holding.

(** ** Slices replaced by others *)

Section Replacing.
Context {D : Type} `{LevelDB D, !LevelDBOk D}.

Lemma removals_ok olds : forall (p : PartitionIndex D) L, holding p (olds ++ L) ->
  exists p', foldM (fun p t => initiatePartitioningRemoval t p) p olds = Ret p' /\ holding p' L /\
    removedPartitionings_ p' = removedPartitionings_ p ++ olds /\
    partitioningBufferSize_ p' = partitioningBufferSize_ p /\ edgeSchema_ p' = edgeSchema_ p.
Proof.
  induction olds as [|t olds IH]; intros p L Hp; cbn [foldM]; [exists p; by rewrite app_nil_r|].
  destruct (initiatePartitioningRemoval_ok p _ t Hp) as (p1 & -> & Hp1 & Hr1 & Hb1 & He1). cbn [mbind outcome_bind].
  destruct (IH p1 L Hp1) as (p2 & -> & Hp2 & Hr2 & Hb2 & He2). exists p2.
  rewrite Hr2, Hr1, <- app_assoc, Hb2, He2. done.
Qed.

Lemma additions_ok news : forall (p : PartitionIndex D) L, holding p L ->
  Forall (fun t => slice_valid t /\ instant (endTime_ t)) news -> NoDup (endTime_ <$> news ++ L) ->
  exists p', foldM (fun p t => addPartitioning t p) p news = Ret p' /\ holding p' (news ++ L) /\
    removedPartitionings_ p' = removedPartitionings_ p /\
    partitioningBufferSize_ p' = partitioningBufferSize_ p /\ edgeSchema_ p' = edgeSchema_ p.
Proof.
  induction news as [|t news IH]; intros p L Hp Hv Hnd; cbn [foldM]; [by exists p|].
  apply Forall_cons in Hv as [[Ht Hti] Hv]. cbn in Hnd. apply NoDup_cons in Hnd as [Hno Hnd].
  destruct (addPartitioning_ok p L t Hp Ht Hti) as (p1 & -> & Hp1 & Hr1 & Hb1 & He1).
  { intros Hin. apply Hno. rewrite fmap_app, elem_of_app. by right. }
  cbn [mbind outcome_bind]. destruct (IH p1 (t :: L) Hp1 Hv) as (p2 & -> & Hp2 & Hr2 & Hb2 & He2).
  { rewrite <- Permutation_middle. cbn. by constructor. }
  exists p2. split; [done|]. split; [|by rewrite Hr2, Hb2, He2].
  eapply holding_Permutation; [exact Hp2|]. cbn. by rewrite Permutation_middle.
Qed.

Context (l1 olds news l2 : list TimeSlicedPartitioning).
#[local] Abbreviation sl := (l1 ++ olds ++ l2).
#[local] Abbreviation sl' := (l1 ++ news ++ l2).
Context (Hnew : tiling sl') (s : Schema).

(** The index while the old slices are being replaced: it has the new ones,
    and the old ones answer the reads. *)
Definition replacing (p : PartitionIndex D) : Prop := index_ok p sl' /\ removedPartitionings_ p = olds /\ edgeSchema_ p = s.

Definition old_slice_at (time : Timestamp) (t : TimeSlicedPartitioning) : Prop :=
  instant time /\ time < dinf /\ time ∉ endTime_ <$> sl /\ time ∉ endTime_ <$> sl' /\ t ∈ sl /\ in_slice time t = true.

Lemma replacement_ok p : index_ok p sl -> removedPartitionings_ p = [] -> edgeSchema_ p = s -> Z.of_nat (length sl') <= partitioningBufferSize_ p ->
  exists p1 p2, foldM (fun p t => initiatePartitioningRemoval t p) p olds = Ret p1 /\
    foldM (fun p t => addPartitioning t p) p1 news = Ret p2 /\ replacing p2 /\ partitioningBufferSize_ p2 = partitioningBufferSize_ p.
Proof.
  intros Hp Hr Hsch Hroom. pose proof (index_holding _ _ Hp) as Hh.
  destruct (removals_ok olds p (l1 ++ l2)) as (p1 & E1 & Hp1 & Hr1 & Hb1 & He1).
  { eapply holding_Permutation; [exact Hh|]. rewrite !app_assoc. by rewrite (Permutation_app_comm l1 olds). }
  destruct (additions_ok news p1 (l1 ++ l2) Hp1) as (p2 & E2 & Hp2 & Hr2 & Hb2 & He2).
  - pose proof (tiling_valid _ Hnew) as Hv. pose proof (tiling_ends _ Hnew) as He. rewrite Forall_forall in Hv, He.
    apply Forall_forall. intros t Ht. split; [apply Hv|apply He]; set_solver.
  - assert (news ++ l1 ++ l2 ≡ₚ sl') as -> by (rewrite !app_assoc; by rewrite (Permutation_app_comm l1 news)).
    by apply tiling_ends_NoDup.
  - exists p1, p2. split; [done|]. split; [done|]. split; [|congruence]. split; [|split; [by rewrite Hr2, Hr1, Hr|congruence]].
    eapply holding_index; [exact Hp2| |done|congruence]. rewrite !app_assoc. by rewrite (Permutation_app_comm l1 news).
Qed.

Lemma replacing_answers (Hold : tiling sl) : answers old_slice_at replacing.
Proof.
  intros p time (Hp & Hr & He) (t0 & Hi & Hlt & Hno & Hno' & _). unfold getTimeSlicedPartitioningForBlockDeserialization. rewrite Hr.
  destruct (list_find (fun t => in_slice time t = true) olds) as [[i t]|] eqn:E.
  - apply list_find_Some in E as (Ht%list_elem_of_lookup_2 & Hin & _). exists t, p. split; [done|]. split; [|done].
    unfold old_slice_at. set_solver.
  - apply list_find_None in E. rewrite Forall_forall in E.
    destruct (getTimeSlicedPartitioning_ok p sl' time Hp Hi Hlt Hno') as (t & p' & Ep & Hin & Hsl & Hp' & _).
    exists t, p'. split; [done|]. split; [|split; [done|]; apply getTimeSlicedPartitioning_frame in Ep as (-> & -> & _); done].
    unfold old_slice_at. split_and!; try done. apply elem_of_app in Hin as [Hin|Hin]; [set_solver|].
    apply elem_of_app in Hin as [Hin|Hin]; [|set_solver].
    destruct (middle_time l1 olds news l2 Hold Hnew time t Hi Hlt Hno Hin Hsl) as (t' & Ht' & Hin'). by destruct (E t').
Qed.

Lemma complete_ok p : replacing p -> settled sl' (completePartitioningRemovals p).
Proof. intros [[] _]. by split; [split|]. Qed.
End Replacing.
