(* ===== verification/Repartition.v ===== *)
(** * Repartitioning

    core/PartitionIndex.cpp: [replaceTimeSlicedPartitioning] and
    [replaceTimeSlicedPartitionings], which put other slices in the place of
    some of the partition index and rewrite the blocks of their time with the
    new partitionings ([updateBlocks], [replaceBlocks]). *)

From Stdlib Require Import ZArith Lia Permutation.
From stdpp Require Import base numbers gmap strings list sorting.
From S2P Require Import Prelude.
From S2P Require Import Double.
From S2P Require Import NetworkByteBuffer.
From S2P Require Import LevelDB.
From S2P Require Import Schema.
From S2P Require Import AttributeData.
From S2P Require Import NeighborList.
From S2P Require Import PartitionIndex.
From S2P Require Import Block.
From S2P Require Import BlockManager.
From S2P Require Import IntervalIndex.

(** ** Rewriting a block *)

Section Repartition.
Context {D : Type} `{LevelDB D}.

Definition with_index (p : PartitionIndex D) (st : Store D) : Store D := mkStore (bman_ st) p (heap_ st).

(** [newBlocks] is the vector of the caller, whose blocks get their
    identifiers; the differences of sizes fit an [int]. *)
Definition replaceBlocks (masterBlock : Block) (newBlocks : list Block) (st : Store D) : outcome (Store D) :=
  _ ← cassert (0 <? length newBlocks)%nat;
  let subBlocks := subBlocks_ masterBlock in
  let numReplace := Nat.min (length subBlocks) (length newBlocks - 1) in
  let numAdd := (length newBlocks - 1 - length subBlocks)%nat in
  let numRemove := (1 + length subBlocks - length newBlocks)%nat in
  '(newBlocks, st) ← foldM (fun '(newBlocks, st) i =>
    id ← or_undefined (subBlocks !! i);
    block ← or_undefined (newBlocks !! (i + 1)%nat);
    let block := with_id id block in
    st ← updateBlock block st;
    Ret (<[(i + 1)%nat := block]> newBlocks, st)) (newBlocks, st) (seq 0 numReplace);
  '(newBlocks, st) ← foldM (fun '(newBlocks, st) i =>
    let k := (i + length subBlocks + 1)%nat in
    block ← or_undefined (newBlocks !! k);
    '(block, st) ← addBlock block true st;
    Ret (<[k := block]> newBlocks, st)) (newBlocks, st) (seq 0 numAdd);
  st ← foldM (fun st i =>
    id ← or_undefined (subBlocks !! (i + length newBlocks - 1)%nat);
    removeBlock id st) st (seq 0 numRemove);
  master ← or_undefined (newBlocks !! 0%nat);
  updateBlock (foldl (fun master sub => addSubBlockId (id_ sub) master) (with_id (id_ masterBlock) master) (drop 1 newBlocks)) st.

(** The body of the loop of [updateBlocks] for a block not seen before.  The
    data of the recombined block, the new blocks and the blocks read in between
    have addresses of their own; they are compared only inside one block. *)
Definition repartition_block (startTime endTime : Timestamp) (id : BlockId) (st : Store D) : outcome (Store D) :=
  '(masterBlock, st) ← getBlock id st;
  partitioningTimestamp ← getPartitioningTimestamp masterBlock;
  if dltb partitioningTimestamp startTime || dleb endTime partitioningTimestamp then Ret st
  else
    let edgeSchema := edgeSchema_ (pidx_ st) in
    '(recombMaster, next, st) ← recombineBlock getBlock edgeSchema masterBlock (heap_ st) st;
    '(newBlocks, next, p) ← partitionBlock edgeSchema recombMaster (Z.max next (heap_ st)) (pidx_ st);
    replaceBlocks masterBlock newBlocks (mkStore (bman_ st) p next).

(** The [while] loop: the iterator moves on before the block is rewritten, so
    a turn for each datum of the query and one more for the test are enough
    ([update_loop_ok]). *)
Fixpoint update_loop (fuel : nat) (startTime endTime : Timestamp) (seenIds : list BlockId) (it : IQIterator) (st : Store D)
  : outcome (Store D) :=
  match fuel with
  | O => Undefined
  | S fuel =>
      if iq_isValid it then
        id ← getBlockId it;
        '(it, st) ← iq_next getBlock it st;
        if decide (id ∈ seenIds) then update_loop fuel startTime endTime seenIds it st
        else
          st ← repartition_block startTime endTime id st;
          update_loop fuel startTime endTime (id :: seenIds) it st
      else Ret st
  end.

Context {R : Type} `{SpatialIndex R} (iqIdx_ : RTreeIntervalIndex R).

Definition updateBlocks (startTime endTime : Timestamp) (st : Store D) : outcome (Store D) :=
  '(it, st) ← iq_query getBlock iqIdx_ startTime endTime st;
  update_loop (find_fuel it) startTime endTime [] it st.

(** ** Replacing slices *)

Definition getPartitioningAttributeCount (parting : Partitioning) : nat :=
  length (foldl (fun attributes attr => set_insert attr attributes) [] (concat parting)).

(** Each slice starts where the one before ends. *)
Fixpoint contiguous (slices : list TimeSlicedPartitioning) : bool :=
  match slices with
  | t :: (t' :: _) as rest => deqb (startTime_ t') (endTime_ t) && contiguous rest
  | _ => true
  end.

Definition missing_attributes (parting : Partitioning) (p : PartitionIndex D) : bool :=
  negb (getPartitioningAttributeCount parting =? length (attributes_ (edgeSchema_ p)))%nat.

Definition update_all (ranges : list TimeSlicedPartitioning) (st : Store D) : outcome (Store D) :=
  foldM (fun st partitioning => updateBlocks (startTime_ partitioning) (endTime_ partitioning) st) st ranges.

Definition replaceTimeSlicedPartitioning (toBeReplaced : TimeSlicedPartitioning)
  (replacement : list TimeSlicedPartitioning) (st : Store D) : outcome (Store D) :=
  match head replacement, last replacement with
  | Some first, Some end_ =>
      if negb (deqb (startTime_ toBeReplaced) (startTime_ first)) then
        Throw (time_sliced_partition_replacement
          "start time of the time slice to be replaced does not match that of the replacement time slice sequence")
      else if negb (deqb (endTime_ toBeReplaced) (endTime_ end_)) then
        Throw (time_sliced_partition_replacement
          "end time of the time slice to be replaced does not match that of the replacement time slice sequence")
      else if negb (contiguous replacement) then
        Throw (time_sliced_partition_replacement "replacement time slice sequence is not contigious in time")
      else if existsb (fun parting => missing_attributes (partitioning_ parting) (pidx_ st)) replacement then
        Throw (time_sliced_partition_replacement "replacement partitioning has missing attributes")
      else
        p ← initiatePartitioningRemoval toBeReplaced (pidx_ st);
        p ← foldM (fun p partitioning => addPartitioning partitioning p) p replacement;
        st ← update_all replacement (with_index p st);
        Ret (with_index (completePartitioningRemovals (pidx_ st)) st)
  | _, _ => Throw (time_sliced_partition_replacement "replacement time slice sequence is empty")
  end.

Definition replaceTimeSlicedPartitionings (toBeReplaced : list TimeSlicedPartitioning)
  (replacement : TimeSlicedPartitioning) (st : Store D) : outcome (Store D) :=
  match head toBeReplaced, last toBeReplaced with
  | Some first, Some end_ =>
      if negb (deqb (startTime_ first) (startTime_ replacement)) then
        Throw (time_sliced_partition_replacement
          "start time of the time slice sequence to be replaced does not match that of the replacement time slice")
      else if negb (deqb (endTime_ end_) (endTime_ replacement)) then
        Throw (time_sliced_partition_replacement
          "end time of the time slice sequence to be replaced does not match that of the replacement time slice")
      else if negb (contiguous toBeReplaced) then
        Throw (time_sliced_partition_replacement "replacement time slice sequence is not contigious in time")
      else if missing_attributes (partitioning_ replacement) (pidx_ st) then
        Throw (time_sliced_partition_replacement "replacement partitioning has missing attributes")
      else
        p ← foldM (fun p partitioning => initiatePartitioningRemoval partitioning p) (pidx_ st) toBeReplaced;
        p ← addPartitioning replacement p;
        st ← update_all toBeReplaced (with_index p st);
        Ret (with_index (completePartitioningRemovals (pidx_ st)) st)
  | _, _ => Throw (time_sliced_partition_replacement "time slice sequence to be replaced is empty")
  end.
End Repartition.
