(* ===== verification/HistoryBlocks.v ===== *)
(** * Adding blocks to the historical graph

    [HistoricalGraph::addBlock] partitions a block, stores the parts and
    enters the master block in both indexes; afterwards the store and the
    indexes hold the block. *)

From Stdlib Require Import ZArith Lia Permutation.
From stdpp Require Import base numbers gmap strings list sorting.
From S2P Require Import Prelude.
From S2P Require Import Double.
From S2P Require Import NetworkByteBuffer.
From S2P Require Import LevelDB.
From S2P Require Import Schema.
From S2P Require Import AttributeData.
From S2P Require Import NeighborList.
From S2P Require Import PartitionIndex.
From S2P Require Import Block.
From S2P Require Import BlockContent.
From S2P Require Import BlockStorage.
From S2P Require Import BlockManager.
From S2P Require Import FocusedIndex.
From S2P Require Import IntervalIndex.
From S2P Require Import Conf.
From S2P Require Import HistoricalGraph.
From S2P Require Import DerivedBlocks.

#[local] Arguments be : simpl never.

(** ** The lists are filed under their heads *)

Definition heads_ok (b : Block) : Prop := Forall (fun p => headVertex_ p.2 = p.1) (neigs_ b).

Lemma heads_set (ns : list (VertexId * NeighborList)) h nl :
  Forall (fun p => headVertex_ p.2 = p.1) ns -> headVertex_ nl = h ->
  Forall (fun p => headVertex_ p.2 = p.1) (assoc_set h nl ns).
Proof.
  intros Hns Hnl. induction Hns as [|[k v] ns Hk Hns IH]; cbn; [by constructor|].
  case_decide; [by constructor|]. by constructor.
Qed.

Lemma heads_find (ns : list (VertexId * NeighborList)) h nl :
  Forall (fun p => headVertex_ p.2 = p.1) ns -> assoc_find h ns = Some nl -> headVertex_ nl = h.
Proof. intros Hns Hf%assoc_find_Some. rewrite Forall_forall in Hns. by apply (Hns (h, nl)). Qed.

Lemma addEdge_heads h to tm d b b' : Block.addEdge h to tm d b = Ret b' -> heads_ok b -> heads_ok b'.
Proof.
  unfold Block.addEdge, heads_ok. intros E Hb. apply bind_ret in E as (sh & _ & E).
  apply bind_ret in E as ([sd b1] & E1 & E).
  assert (neigs_ b1 = neigs_ b) as Hn.
  { destruct sh; [by injection E1 as <- <-|]. apply bind_ret in E1 as (n & _ & E1). by injection E1 as <- <-. }
  assert (Forall (fun p => headVertex_ p.2 = p.1) (neigs_ (addNeighborList h b1))) as H2.
  { unfold addNeighborList. rewrite Hn. destruct (assoc_find h (neigs_ b)); [by rewrite Hn|]. cbn. by apply heads_set. }
  apply bind_ret in E as (nl & Enl & E). injection E as <-. cbn.
  destruct (assoc_find h (neigs_ (addNeighborList h b1))) as [nl'|] eqn:Ef; [|discriminate Enl]. injection Enl as <-.
  apply heads_set; [done|]. cbn. by apply (heads_find (neigs_ (addNeighborList h b1))).
Qed.

Lemma master_heads s b next m next' : master_block s b next = Ret (m, next') -> heads_ok m.
Proof.
  unfold master_block. intros E. apply bind_ret in E as (d & _ & E). cbn [alloc_data] in E.
  apply bind_ret in E as (m1 & E1 & E). injection E as <- _.
  refine (foldM_inv (fun _ block => heads_ok block) _ _ _ _ _ _ E1); [|constructor].
  intros l [[h k] e] rest b1 b2 _ H1 E2. by eapply addEdge_heads.
Qed.

(** ** What is stored *)

Section Stored.
Context (s : Schema) (Hdef : defined_schema s) (sl : list TimeSlicedPartitioning) (Htile : tiling sl).
Context (Hparts : parts_ok s sl).

Lemma master_readable b m :
  well_stored s sl b -> content m = mapped_content (fun _ => no_data s) b -> partition_ m = Some (-1) ->
  subBlocks_ m <> [] -> Forall (fun i => is_u64 i) (subBlocks_ m) -> Z.of_nat (length (subBlocks_ m)) <= 2 ^ 24 ->
  is_u64 (id_ m) -> readable s sl m.
Proof.
  intros Hb Hm Hp Hne Hsub Hlen Hid. destruct (ws_mid _ _ _ Hb) as (mn & mx & Hmm & Hi & Hlt & Hno).
  exists [], (-1), mn, mx. split; [|split; [|split]].
  - apply (derived_storable s sl b Hb (fun _ => no_data s) m Hm); try done.
    + intros x _. split; constructor.
    + split; [lia|done].
  - by rewrite (derived_minmax _ b m (proj1 (content_derived _ _ _) Hm)).
  - apply (derived_length_ok s sl b Hb _ m Hm); [|done]. intros x _. cbn. lia.
  - done.
Qed.

Lemma parts_ok_in t : t ∈ sl -> covers s (partitioning_ t) /\ partitioning_ t <> [] /\ Z.of_nat (length (partitioning_ t)) < 2 ^ 24.
Proof. unfold parts_ok in Hparts. rewrite Forall_forall in Hparts. apply Hparts. Qed.

Lemma sub_readable b mn mx tp i attrs sub :
  well_stored s sl b -> findMinMaxTimestamps b = Ret (mn, mx) -> tp ∈ sl -> in_slice (midpoint mn mx) tp = true ->
  partitioning_ tp !! i = Some attrs -> content sub = mapped_content (fun x => projected s attrs (cell (data_ x.2))) b ->
  partition_ sub = Some (Z.of_nat i) -> subBlocks_ sub = [] -> is_u64 (id_ sub) -> readable s sl sub.
Proof.
  intros Hb Hmm Htp Hin Hattrs Hc Hp Hsub Hid.
  destruct (ws_mid _ _ _ Hb) as (mn' & mx' & Hmm' & Hi & Hlt & Hno). rewrite Hmm in Hmm'. injection Hmm' as <- <-.
  destruct (parts_ok_in tp Htp) as ([Hnames _] & _ & Hlen).
  assert (names_of_schema s attrs) as Hn by (rewrite Forall_lookup in Hnames; eauto).
  pose proof (lookup_lt_Some _ _ _ Hattrs) as Hilt.
  assert (forall x, x ∈ edges_of b -> part_data s attrs (projected s attrs (cell (data_ x.2))) /\
    is_part s attrs (cell (data_ x.2)) (projected s attrs (cell (data_ x.2)))) as HF.
  { intros x Hx. apply projected_ok; [done..|]. by apply (bw_data _ _ (ws_wf _ _ _ Hb)). }
  exists attrs, (Z.of_nat i), mn, mx. split; [|split; [|split]].
  - apply (derived_storable s sl b Hb (fun x => projected s attrs (cell (data_ x.2))) sub Hc); try done.
    + intros x Hx. by destruct (HF x Hx) as [[? _] _].
    + lia.
    + rewrite Hsub. split; [cbn; lia|constructor].
    + intros x y _ _ E. by rewrite E.
    + lia.
    + intros _ x Hx. by apply HF.
  - by rewrite (derived_minmax _ b sub (proj1 (content_derived _ _ _) Hc)).
  - apply (derived_length_ok s sl b Hb _ sub Hc); [|rewrite Hsub; cbn; lia]. intros x Hx.
    apply (part_bytes s attrs); [|by apply HF]. by apply (bw_data _ _ (ws_wf _ _ _ Hb)).
  - split_and!; try done. intros _ t Ht Hit. assert (t = tp) as -> by by eapply slice_unique; [apply Htile|..].
    unfold part_at. destruct (Z.ltb_spec (Z.of_nat i) 0); [lia|]. by rewrite Nat2Z.id, Hattrs.
Qed.

(** The blocks [A] hold the block [b] under [id]: its master block, and a sub
    block for each part of the slice of its midpoint. *)
Record holds_block (A : gmap Z Block) (id : BlockId) (b : Block) : Prop := {
  hb_stored : well_stored s sl b;
  hb_blocks : exists m mn mx tp, A !! id = Some m /\ partition_ m = Some (-1) /\
    content m = mapped_content (fun _ => no_data s) b /\
    findMinMaxTimestamps b = Ret (mn, mx) /\ tp ∈ sl /\ in_slice (midpoint mn mx) tp = true /\
    length (subBlocks_ m) = length (partitioning_ tp) /\
    forall i attrs, partitioning_ tp !! i = Some attrs -> exists sid sub, subBlocks_ m !! i = Some sid /\
      A !! sid = Some sub /\ content sub = mapped_content (fun x => projected s attrs (cell (data_ x.2))) b
}.

Lemma holds_block_mono A A' id b : A ⊆ A' -> holds_block A id b -> holds_block A' id b.
Proof.
  intros Hsub [Hb (m & mn & mx & tp & Hm & Hp & Hc & Hmm & Htp & Hin & Hlen & Hsubs)]. split; [done|].
  exists m, mn, mx, tp. split_and!; try done; [by eapply lookup_weaken|].
  intros i attrs Hi. destruct (Hsubs i attrs Hi) as (sid & sub & ? & ? & ?).
  exists sid, sub. split_and!; try done. by eapply lookup_weaken.
Qed.

(** ** Storing the parts *)

Section Add.
Context {D : Type} `{LevelDB D, !LevelDBOk D}.

Lemma rep_fresh (st : Store D) A n : rep s sl st A -> nextBlockId_ (bman_ st) <= n -> A !! n = None.
Proof.
  intros Hrep Hn. destruct (A !! n) as [b|] eqn:E; [|done]. apply (rep_blocks _ _ _ _ Hrep) in E. lia.
Qed.

Definition add_ids (m : Block) (ids : list BlockId) : Block := foldl (fun m id => addSubBlockId id m) m ids.

Lemma add_ids_ok m ids :
  id_ (add_ids m ids) = id_ m /\ partition_ (add_ids m ids) = partition_ m /\
  subBlocks_ (add_ids m ids) = subBlocks_ m ++ ids /\ neigs_ (add_ids m ids) = neigs_ m.
Proof.
  revert m. induction ids as [|x ids IH]; intros m; [by rewrite app_nil_r|].
  cbn [add_ids foldl]. destruct (IH (addSubBlockId x m)) as (E1 & E2 & E3 & E4). unfold add_ids in *.
  rewrite E1, E2, E3, E4. cbn. by rewrite <- app_assoc.
Qed.

Lemma add_sub_blocks_ok subs : forall m (st : Store D) A,
  rep s sl st A -> nextBlockId_ (bman_ st) + Z.of_nat (length subs) < 2 ^ 64 ->
  (forall sub n, sub ∈ subs -> is_u64 n -> readable s sl (with_id n sub)) ->
  exists st' A', let n := nextBlockId_ (bman_ st) in
    add_sub_blocks m subs st = Ret (add_ids m (seqZ n (Z.of_nat (length subs))), st') /\
    rep s sl st' A' /\ A ⊆ A' /\ nextBlockId_ (bman_ st') = n + Z.of_nat (length subs) /\
    (forall k, is_Some (A' !! k) -> is_Some (A !! k) \/ n <= k < n + Z.of_nat (length subs)) /\
    forall i sub, subs !! i = Some sub -> A' !! (n + Z.of_nat i) = Some (with_id (n + Z.of_nat i) sub).
Proof.
  induction subs as [|sub subs IH]; intros m st A Hrep Hn Hread.
  { exists st, A. cbn. split_and!; [done|done|done|lia|by left|done]. }
  cbn [length] in Hn. pose proof (rep_next _ _ _ _ Hrep) as Hnx.
  destruct (addBlock_ok s sl st A sub Hrep) as (st1 & E1 & Hrep1 & Hn1); [|lia|].
  { apply Hread; [left|lia]. }
  cbn [id_ with_id] in Hrep1. set (n := nextBlockId_ (bman_ st)) in *.
  destruct (IH (addSubBlockId n m) st1 (<[n := with_id n sub]> A)) as (st2 & A2 & E2 & Hrep2 & Hsub2 & Hn2 & Hdom2 & Hl2);
    [done|lia|by intros; apply Hread; [right|]|].
  exists st2, A2. cbn zeta in *. split_and!.
  - unfold add_sub_blocks in *. cbn [foldM]. rewrite E1. cbn [mbind outcome_bind id_ with_id]. rewrite E2.
    do 2 f_equal. rewrite Hn1. cbn [length]. rewrite (seqZ_cons n) by lia.
    replace (Z.pred (Z.of_nat (S (length subs)))) with (Z.of_nat (length subs)) by lia.
    unfold add_ids. cbn [foldl]. by rewrite <- Z.add_1_r.
  - done.
  - etransitivity; [|exact Hsub2]. apply insert_subseteq. by apply (rep_fresh st); [|lia].
  - cbn [length]. lia.
  - intros k [Hk|Hk]%Hdom2; [|right; cbn [length]; lia]. rewrite lookup_insert in Hk. case_decide; [right; cbn [length]; lia|by left].
  - intros [|i] sub' Hi; cbn in Hi.
    + injection Hi as <-. rewrite Z.add_0_r. eapply lookup_weaken; [|exact Hsub2]. apply lookup_insert_eq.
    + specialize (Hl2 i sub' Hi). rewrite Hn1 in Hl2.
      by replace (n + Z.of_nat (S i)) with (n + 1 + Z.of_nat i) by lia.
Qed.
End Add.
End Stored.
