(* ===== verification/BlockReplacement.v ===== *)
(** * Rewriting a partitioned block

    Blocks with the same content are stored alike; and what
    [PartitionIndex::replaceBlocks] leaves in the block manager: the new
    sub blocks under the identifiers of the old ones as far as they go, the
    others added or removed, and the new master block under the identifier of
    the old one. *)

From Stdlib Require Import ZArith Lia Permutation.
From stdpp Require Import base numbers gmap strings list sorting.
From S2P Require Import Prelude.
From S2P Require Import Double.
From S2P Require Import NetworkByteBuffer.
From S2P Require Import LevelDB.
From S2P Require Import Schema.
From S2P Require Import AttributeData.
From S2P Require Import NeighborList.
From S2P Require Import PartitionIndex.
From S2P Require Import Block.
From S2P Require Import BlockContent.
From S2P Require Import BlockStorage.
From S2P Require Import BlockManager.
From S2P Require Import DerivedBlocks.
From S2P Require Import HistoryBlocks.
From S2P Require Import Repartition.

#[local] Arguments be : simpl never.

(** ** Blocks with the same content *)

Lemma content_mapped b : content b = mapped_content (fun x => cell (data_ x.2)) b.
Proof.
  unfold content, mapped_content. apply list_fmap_ext. intros _ [h nl] _. f_equal. apply list_eq. intros k.
  rewrite list_lookup_fmap, list_lookup_imap. by destruct (edges_ nl !! k).
Qed.

(** Data computed from the data of the edges are those of the content. *)
Lemma mapped_by_content G b :
  mapped_content (fun x => G (cell (data_ x.2))) b =
    fmap (M := list) (fun p => (p.1, fmap (M := list) (fun y => (y.1, G y.2)) p.2)) (content b).
Proof.
  unfold content, mapped_content. rewrite <- list_fmap_compose. apply list_fmap_ext. intros _ [h nl] _. cbn. f_equal.
  apply list_eq. intros k. rewrite !list_lookup_fmap, list_lookup_imap. by destruct (edges_ nl !! k).
Qed.

Lemma same_content_mapped G b b' : content b' = content b ->
  mapped_content (fun x => G (cell (data_ x.2))) b' = mapped_content (fun x => G (cell (data_ x.2))) b.
Proof. intros Hc. by rewrite !mapped_by_content, Hc. Qed.

Lemma well_stored_content s sl b b' : well_stored s sl b -> content b' = content b -> well_stored s sl b'.
Proof.
  intros Hb Hc. pose proof Hc as Hm. rewrite (content_mapped b) in Hm. pose proof (proj1 (content_derived _ _ _) Hm) as Hd.
  destruct (ws_wf _ _ _ Hb) as [[Hnd Hne] Htm Hco Hda].
  assert (forall x, x ∈ edges_of b' -> exists y, y ∈ edges_of b /\ edge_triplet x = edge_triplet y /\
    tm_ x.2 = tm_ y.2 /\ cell (data_ x.2) = cell (data_ y.2)) as Horig.
  { intros [[h k] e'] Hx. destruct (derived_origin _ b b' h k e' Hd Hx) as (e & He & E1 & E2 & E3).
    exists (h, k, e). unfold edge_triplet. cbn. rewrite E1, E2. done. }
  split.
  - split.
    + split; [by rewrite (derived_keys _ b b' Hd)|]. by apply (content_edges b _ b' Hm).
    + intros x Hx. destruct (Horig x Hx) as (y & Hy & _ & -> & _). by apply Htm.
    + intros x y Hx Hy Ht. destruct (Horig x Hx) as (x0 & Hx0 & Ex & _ & ->). destruct (Horig y Hy) as (y0 & Hy0 & Ey & _ & ->).
      apply Hco; [done|done|]. by rewrite <- Ex, <- Ey.
    + intros x Hx. destruct (Horig x Hx) as (y & Hy & _ & _ & ->). by apply Hda.
  - apply (derived_lists_storable s sl b Hb _ b' Hm). intros x Hx. by apply Hda.
  - rewrite (derived_minmax _ b b' Hd). apply (ws_mid _ _ _ Hb).
  - pose proof (derived_bytes _ b b' Hd ltac:(done)). pose proof (ws_size _ _ _ Hb). lia.
Qed.

(** ** Replacing the stored blocks *)

Lemma take_ids (ids : list BlockId) k n : k ∈ take n ids -> k ∈ ids.
Proof. intros Hk. rewrite <- (take_drop n ids). set_solver. Qed.

Section Replace.
Context {D : Type} `{LevelDB D, !LevelDBOk D}.
Context (s : Schema) (Hdef : defined_schema s) (look : Timestamp -> TimeSlicedPartitioning -> Prop) (I : PartitionIndex D -> Prop).
Context (HI : answers look I).

(** The old master block with the identifiers of its sub blocks, and the new
    blocks. *)
Context (m m2 : Block) (subs : list Block) (st : Store D) (A : gmap Z Block).
#[local] Abbreviation ids := (subBlocks_ m).
Context (Hst : kept s I st A) (m0 : Block) (Hm : A !! id_ m = Some m0) (Hm0 : legible s look m0).
Context (Hnd : NoDup (id_ m :: ids)) (Hids : forall k, k ∈ ids -> exists b, A !! k = Some b /\ legible s look b).
Context (Hsubs : forall sub n, sub ∈ subs -> is_u64 n -> writable s (with_id n sub)).
Context (Hroom : nextBlockId_ (bman_ st) + Z.of_nat (length subs) < 2 ^ 64).

#[local] Abbreviation next := (nextBlockId_ (bman_ st)).
#[local] Abbreviation r := (Nat.min (length ids) (length subs)).

(** The identifiers of the new sub blocks. *)
Definition new_ids : list BlockId := take r ids ++ seqZ next (Z.of_nat (length subs - r)).

(** The vector after the first [n] of them were stored. *)
Definition named_blocks (n : nat) : list Block :=
  m2 :: imap (fun i sub => if (i <? n)%nat then with_id (nth i new_ids 0) sub else sub) subs.

Lemma length_new_ids : length new_ids = length subs.
Proof. unfold new_ids. rewrite length_app, length_take, length_seqZ. lia. Qed.

Lemma new_id_lt i : (i < length subs)%nat -> new_ids !! i = Some (nth i new_ids 0).
Proof. intros Hi. rewrite <- length_new_ids in Hi. apply lookup_lt_is_Some in Hi as [x Hx]. by rewrite (nth_lookup_Some _ _ _ _ Hx). Qed.

Lemma next_fresh k : is_Some (A !! k) -> 0 <= k < next.
Proof. intros [b Hb]. apply (kept_blocks _ _ _ _ Hst) in Hb as (_ & Hu & Hlt & _). lia. Qed.

Lemma new_ids_cases k : k ∈ new_ids -> k ∈ take r ids \/ next <= k < next + Z.of_nat (length subs).
Proof. unfold new_ids. rewrite elem_of_app, elem_of_seqZ. intros [?|?]; [by left|right; lia]. Qed.

Lemma new_ids_NoDup : NoDup (id_ m :: new_ids).
Proof.
  apply NoDup_cons in Hnd as [Hn Hnd']. assert (0 <= id_ m < next) as Hmn by (apply next_fresh; by exists m0). constructor.
  - intros [Hk%take_ids|Hk]%new_ids_cases; [done|lia].
  - unfold new_ids. apply NoDup_app. split_and!; [|intros k Hk1%take_ids Hk2%elem_of_seqZ|apply NoDup_seqZ].
    + rewrite <- (take_drop r ids) in Hnd'. by apply NoDup_app in Hnd' as (? & _).
    + destruct (Hids k Hk1) as (b & Hb & _). assert (0 <= k < next) by (apply next_fresh; by exists b). lia.
Qed.

(** Storing the next of the new sub blocks. *)
Lemma named_blocks_next n sub : subs !! n = Some sub ->
  named_blocks n !! S n = Some sub /\ <[S n := with_id (nth n new_ids 0) sub]> (named_blocks n) = named_blocks (S n).
Proof.
  intros Hn. unfold named_blocks. split.
  - change (imap (fun i sub => if (i <? n)%nat then with_id (nth i new_ids 0) sub else sub) subs !! n = Some sub).
    rewrite list_lookup_imap, Hn. cbn [fmap option_fmap option_map]. by rewrite (proj2 (Nat.ltb_ge n n)) by lia.
  - change (m2 :: <[n := with_id (nth n new_ids 0) sub]> (imap (fun i sub => if (i <? n)%nat then with_id (nth i new_ids 0) sub else sub) subs) =
      m2 :: imap (fun i sub => if (i <? S n)%nat then with_id (nth i new_ids 0) sub else sub) subs).
    f_equal. apply list_eq. intros k. destruct (decide (k = n)) as [->|Hk].
    + rewrite list_lookup_insert_eq by (rewrite length_imap; by eapply lookup_lt_Some). rewrite list_lookup_imap, Hn. cbn [fmap option_fmap option_map].
      by rewrite (proj2 (Nat.ltb_lt n (S n))) by lia.
    + rewrite list_lookup_insert_ne, !list_lookup_imap by done. destruct (subs !! k); [|done]. cbn [fmap option_fmap option_map].
      f_equal. destruct (Nat.ltb_spec k n), (Nat.ltb_spec k (S n)); try lia; done.
Qed.

(** The first [n] new sub blocks are stored. *)
Definition stored_subs (n : nat) (st1 : Store D) : Prop :=
  exists A1, kept s I st1 A1 /\ nextBlockId_ (bman_ st1) = next + Z.of_nat (n - r) /\
    (forall i sub, (i < n)%nat -> subs !! i = Some sub -> A1 !! nth i new_ids 0 = Some (with_id (nth i new_ids 0) sub)) /\
    (forall k, k ∉ take n new_ids -> A1 !! k = A !! k).

Lemma stored_subs_step n sub st1 st2 A1 :
  subs !! n = Some sub -> kept s I st1 A1 ->
  (forall i sub, (i < n)%nat -> subs !! i = Some sub -> A1 !! nth i new_ids 0 = Some (with_id (nth i new_ids 0) sub)) ->
  (forall k, k ∉ take n new_ids -> A1 !! k = A !! k) ->
  kept s I st2 (<[nth n new_ids 0 := with_id (nth n new_ids 0) sub]> A1) ->
  nextBlockId_ (bman_ st2) = next + Z.of_nat (S n - r) -> stored_subs (S n) st2.
Proof.
  intros Hn _ Hs Hf Hk2 Hn2. pose proof new_ids_NoDup as [_ Hnn]%NoDup_cons.
  pose proof (new_id_lt n (lookup_lt_Some _ _ _ Hn)) as Hid.
  exists (<[nth n new_ids 0 := with_id (nth n new_ids 0) sub]> A1). split; [done|]. split; [done|]. split.
  - intros i sub' Hi Hsub. destruct (decide (i = n)) as [->|Hne]; [rewrite lookup_insert_eq; congruence|].
    rewrite lookup_insert_ne; [apply Hs; [lia|done]|]. intros E.
    pose proof (new_id_lt i (lookup_lt_Some _ _ _ Hsub)) as Hid'. rewrite <- E in Hid'. by pose proof (NoDup_lookup _ _ _ _ Hnn Hid Hid').
  - intros k Hk. rewrite (take_S_r _ _ _ Hid) in Hk. rewrite lookup_insert_ne by set_solver. apply Hf. set_solver.
Qed.

Lemma replace_phase : 
  exists st1, foldM (fun '(newBlocks, st) i =>
    id ← or_undefined (ids !! i);
    block ← or_undefined (newBlocks !! (i + 1)%nat);
    let block := with_id id block in
    st ← updateBlock block st;
    Ret (<[(i + 1)%nat := block]> newBlocks, st)) (named_blocks 0, st) (seq 0 r) = Ret (named_blocks r, st1) /\ stored_subs r st1.
Proof.
  destruct (foldM_total (fun l nst => nst.1 = named_blocks (length l) /\ stored_subs (length l) nst.2)
    (fun '(newBlocks, st) i =>
    id ← or_undefined (ids !! i);
    block ← or_undefined (newBlocks !! (i + 1)%nat);
    let block := with_id id block in
    st ← updateBlock block st;
    Ret (<[(i + 1)%nat := block]> newBlocks, st)) (seq 0 r) (named_blocks 0, st)) as ([nb st1] & -> & Enb & Hs).
  - split; [done|]. exists A. split; [done|]. split; [cbn [length fst snd]; rewrite Nat.sub_0_l, Z.add_0_r; done|]. split; [intros ? ? Hi; cbn in Hi; lia|done].
  - intros l i rest [nb st1] El [Enb (A1 & Hk1 & Hn1 & Hs1 & Hf1)]. cbn [fst snd] in *. subst nb.
    assert (i = length l /\ length l < r)%nat as [-> Hl].
    { assert (seq 0 r !! length l = Some i) as Hi by (rewrite El; by apply list_lookup_middle). apply lookup_seq in Hi. lia. }
    destruct (lookup_lt_is_Some_2 subs (length l)) as [sub Hsub]; [lia|].
    destruct (lookup_lt_is_Some_2 ids (length l)) as [id Hid]; [lia|].
    destruct (named_blocks_next (length l) sub Hsub) as [Hnb Hins]. rewrite Hid, Nat.add_1_r, Hnb. cbn [or_undefined mbind outcome_bind].
    assert (nth (length l) new_ids 0 = id) as Eid.
    { rewrite nth_lookup. unfold new_ids. rewrite lookup_app_l by (rewrite length_take; lia). by rewrite lookup_take_lt, Hid by lia. }
    pose proof new_ids_NoDup as [_ Hnn]%NoDup_cons.
    assert (id ∉ take (length l) new_ids) as Hnew.
    { pose proof (new_id_lt (length l) ltac:(lia)) as Hx. rewrite Eid in Hx. rewrite <- (take_drop_middle _ _ _ Hx) in Hnn.
      apply NoDup_app in Hnn as (_ & Hno & _). intros Hin. apply (Hno _ Hin). left. }
    destruct (Hids id) as (b0 & Hb0 & Hleg); [by eapply list_elem_of_lookup_2|].
    assert (0 <= id < next) as Hr by (apply next_fresh; by exists b0). pose proof (kept_next _ _ _ _ Hst).
    destruct (kept_updateBlock s look I Hdef HI st1 A1 (with_id id sub) b0 Hk1) as (st2 & -> & Hk2 & Hn2).
    { cbn. by rewrite Hf1. } { done. } { apply Hsubs; [by eapply list_elem_of_lookup_2|]. lia. }
    cbn [mbind outcome_bind]. eexists. split; [reflexivity|]. cbn [fst snd]. rewrite length_app, Nat.add_1_r, <- Eid. split; [done|].
    apply (stored_subs_step _ sub st1 st2 A1); [done|done|done|done|by rewrite Eid|]. rewrite Hn2, Hn1. lia.
  - cbn [fst snd] in *. rewrite length_seq in *. subst nb. by exists st1.
Qed.

Lemma add_phase st1 : stored_subs r st1 ->
  exists st2, foldM (fun '(newBlocks, st) i =>
    let k := (i + length ids + 1)%nat in
    block ← or_undefined (newBlocks !! k);
    '(block, st) ← addBlock block true st;
    Ret (<[k := block]> newBlocks, st)) (named_blocks r, st1) (seq 0 (length subs - length ids)) =
    Ret (named_blocks (length subs), st2) /\ stored_subs (length subs) st2.
Proof.
  intros Hs0. pose proof (kept_next _ _ _ _ Hst).
  destruct (foldM_total (fun l nst => nst.1 = named_blocks (r + length l) /\ stored_subs (r + length l) nst.2)
    (fun '(newBlocks, st) i =>
    let k := (i + length ids + 1)%nat in
    block ← or_undefined (newBlocks !! k);
    '(block, st) ← addBlock block true st;
    Ret (<[k := block]> newBlocks, st)) (seq 0 (length subs - length ids)) (named_blocks r, st1)) as ([nb st2] & -> & Enb & Hs).
  - cbn [fst snd length]. by rewrite Nat.add_0_r.
  - intros l i rest [nb st2] El [Enb (A1 & Hk1 & Hn1 & Hs1 & Hf1)]. cbn [fst snd] in *. subst nb.
    assert (i = length l /\ length l < length subs - length ids)%nat as [-> Hl].
    { assert (seq 0 (length subs - length ids) !! length l = Some i) as Hi by (rewrite El; by apply list_lookup_middle). apply lookup_seq in Hi. lia. }
    assert (r + length l = length l + length ids)%nat as Er by lia. rewrite Er in *.
    destruct (lookup_lt_is_Some_2 subs (length l + length ids)) as [sub Hsub]; [lia|].
    destruct (named_blocks_next _ sub Hsub) as [Hnb Hins]. rewrite Nat.add_1_r, Hnb. cbn [or_undefined mbind outcome_bind].
    assert (nth (length l + length ids) new_ids 0 = nextBlockId_ (bman_ st2)) as Eid.
    { rewrite nth_lookup. unfold new_ids. rewrite lookup_app_r, length_take by (rewrite length_take; lia).
      rewrite Hn1. replace (length l + length ids - r `min` length ids)%nat with (length l) by lia. rewrite (lookup_seqZ_lt next _ (length l)) by lia. cbn. lia. }
    destruct (kept_addBlock s I st2 A1 sub Hk1) as (st3 & -> & Hk3 & Hn3); [|lia|].
    { apply Hsubs; [by eapply list_elem_of_lookup_2|]. lia. }
    cbn [mbind outcome_bind]. eexists. split; [reflexivity|]. cbn [fst snd]. rewrite length_app, <- Eid. cbn [length].
    replace (r + (length l + 1))%nat with (S (length l + length ids)) by lia. split; [done|].
    apply (stored_subs_step _ sub st2 st3 A1); [done|done|done|done|by rewrite Eid|]. lia.
  - cbn [fst snd] in *. rewrite length_seq in *. replace (r + (length subs - length ids))%nat with (length subs) in * by lia. subst nb. by exists st2.
Qed.

Lemma remove_phase (st2 : Store D) A2 : kept s I st2 A2 ->
  exists st3 A3, foldM (fun st i => id ← or_undefined (ids !! (i + S (length subs) - 1)%nat); removeBlock id st) st2
      (seq 0 (length ids - length subs)) = Ret st3 /\ kept s I st3 A3 /\ nextBlockId_ (bman_ st3) = nextBlockId_ (bman_ st2) /\
    (forall k, k ∈ drop (length subs) ids -> A3 !! k = None) /\ (forall k, k ∉ drop (length subs) ids -> A3 !! k = A2 !! k).
Proof.
  intros Hk2. pose proof (kept_next _ _ _ _ Hst).
  destruct (foldM_total (fun l st3 => exists A3, kept s I st3 A3 /\ nextBlockId_ (bman_ st3) = nextBlockId_ (bman_ st2) /\
      (forall k, k ∈ take (length l) (drop (length subs) ids) -> A3 !! k = None) /\
      (forall k, k ∉ take (length l) (drop (length subs) ids) -> A3 !! k = A2 !! k))
    (fun st i => id ← or_undefined (ids !! (i + S (length subs) - 1)%nat); removeBlock id st) (seq 0 (length ids - length subs)) st2)
    as (st3 & -> & A3 & Hk3 & Hn3 & H1 & H2).
  - exists A2. split_and!; [done..|by intros k ?%elem_of_nil|done].
  - intros l i rest st3 El (A3 & Hk3 & Hn3 & H1 & H2).
    assert (i = length l /\ length l < length ids - length subs)%nat as [-> Hl].
    { assert (seq 0 (length ids - length subs) !! length l = Some i) as Hi by (rewrite El; by apply list_lookup_middle). apply lookup_seq in Hi. lia. }
    destruct (lookup_lt_is_Some_2 ids (length subs + length l)) as [id Hid]; [lia|].
    replace (length l + S (length subs) - 1)%nat with (length subs + length l)%nat by lia. rewrite Hid. cbn [or_undefined mbind outcome_bind].
    destruct (Hids id) as (b0 & Hb0 & _); [by eapply list_elem_of_lookup_2|]. assert (0 <= id < next) as Hr by (apply next_fresh; by exists b0).
    destruct (kept_removeBlock s look I st3 A3 id Hk3) as (st4 & -> & Hk4 & Hn4); [lia|]. exists st4. split; [done|].
    assert (take (length (l ++ [length l])) (drop (length subs) ids) = take (length l) (drop (length subs) ids) ++ [id]) as ->.
    { rewrite length_app, Nat.add_1_r. apply take_S_r. by rewrite lookup_drop. }
    exists (delete id A3). split; [done|]. split; [congruence|]. split.
    + intros k Hk. destruct (decide (k = id)) as [->|Hne]; [apply lookup_delete_eq|]. rewrite lookup_delete_ne by done. apply H1. set_solver.
    + intros k Hk. rewrite lookup_delete_ne by set_solver. apply H2. set_solver.
  - exists st3, A3. rewrite length_seq, take_ge in H1, H2 by (rewrite length_drop; lia). done.
Qed.

Lemma all_named : (fun b => id_ b) <$> drop 1 (named_blocks (length subs)) = new_ids.
Proof.
  apply list_eq. intros i. unfold named_blocks. rewrite skipn_cons, drop_0. rewrite list_lookup_fmap, list_lookup_imap.
  destruct (subs !! i) as [sub|] eqn:E; cbn [fmap option_fmap option_map].
  - pose proof (lookup_lt_Some _ _ _ E) as Hi. rewrite (proj2 (Nat.ltb_lt _ _) Hi). cbn. by rewrite new_id_lt.
  - symmetry. apply lookup_ge_None. rewrite length_new_ids. by apply lookup_ge_None.
Qed.

(** The master block that is written. *)
Definition new_master : Block := add_ids (with_id (id_ m) m2) new_ids.

Context (Hmaster : writable s new_master).

(** What was replaced, added and removed. *)
Lemma replaceBlocks_ok :
  exists st' A', replaceBlocks m (m2 :: subs) st = Ret st' /\ kept s I st' A' /\
    next <= nextBlockId_ (bman_ st') <= next + Z.of_nat (length subs) /\
    A' !! id_ m = Some new_master /\
    (forall i sub, subs !! i = Some sub -> exists k, new_ids !! i = Some k /\ A' !! k = Some (with_id k sub)) /\
    (forall k, k ∈ ids -> k ∉ new_ids -> A' !! k = None) /\
    (forall k, k <> id_ m -> k ∉ ids -> k ∉ new_ids -> A' !! k = A !! k).
Proof.
  pose proof Hnd as [Hmi Hnd']%NoDup_cons. pose proof new_ids_NoDup as [Hmn Hnn]%NoDup_cons.
  destruct replace_phase as (st1 & E1 & Hs1). destruct (add_phase st1 Hs1) as (st2 & E2 & A2 & Hk2 & Hn2 & Hsub2 & Hf2).
  destruct (remove_phase st2 A2 Hk2) as (st3 & A3 & E3 & Hk3 & Hn3 & Hr3 & Hf3).
  rewrite take_ge in Hf2 by (rewrite length_new_ids; lia).
  assert (forall k, k ∈ drop (length subs) ids -> k ∉ new_ids) as Hdis.
  { intros k Hk Hin. assert (k ∈ ids) as Hki by (rewrite <- (take_drop (length subs) ids); set_solver).
    apply new_ids_cases in Hin as [Hin|Hin].
    - rewrite <- (take_drop (length subs) ids) in Hnd'. apply NoDup_app in Hnd' as (_ & Hno & _). apply (Hno k); [|done].
      assert (length subs < length ids)%nat by (destruct (decide (length subs < length ids)%nat); [done|rewrite drop_ge in Hk by lia; by apply elem_of_nil in Hk]).
      by rewrite Nat.min_r in Hin by lia.
    - destruct (Hids k Hki) as (b & Hb & _). assert (0 <= k < next) by (apply next_fresh; by exists b). lia. }
  assert (A3 !! id_ m = Some m0) as Hm3.
  { rewrite Hf3, Hf2; [done|done|]. intros Hk. apply Hmi. rewrite <- (take_drop (length subs) ids). set_solver. }
  assert (id_ new_master = id_ m) as Eid by (unfold new_master; by destruct (add_ids_ok (with_id (id_ m) m2) new_ids) as (-> & _)).
  destruct (kept_updateBlock s look I Hdef HI st3 A3 new_master m0 Hk3) as (st4 & E4 & Hk4 & Hn4); [by rewrite Eid|done|done|].
  rewrite Eid in Hk4. exists st4, (<[id_ m := new_master]> A3). split.
  - cbv zeta in E1, E2. unfold replaceBlocks. cbn [length Nat.ltb Nat.leb cassert mbind outcome_bind].
    replace (S (length subs) - 1)%nat with (length subs) by lia. replace (1 + length ids - S (length subs))%nat with (length ids - length subs)%nat by lia.
    assert (m2 :: subs = named_blocks 0) as ->.
    { unfold named_blocks. f_equal. clear. generalize new_ids. intros l. apply list_eq. intros i.
      rewrite list_lookup_imap. by destruct (subs !! i). }
    rewrite E1. cbn [mbind outcome_bind]. rewrite E2. cbn [mbind outcome_bind].
    assert (length (named_blocks (length subs)) = S (length subs)) as -> by (unfold named_blocks; cbn; by rewrite length_imap).
    rewrite E3. cbn [mbind outcome_bind]. change (named_blocks (length subs) !! 0%nat) with (Some m2). cbn [or_undefined mbind outcome_bind].
    rewrite <- E4. f_equal. unfold new_master, add_ids. rewrite <- all_named. by rewrite foldl_fmap.
  - split; [done|]. split; [lia|]. split; [apply lookup_insert_eq|]. split_and!.
    + intros i sub Hi. pose proof (new_id_lt i (lookup_lt_Some _ _ _ Hi)) as Hid. exists (nth i new_ids 0). split; [done|].
      assert (nth i new_ids 0 ∈ new_ids) as Hin by (by eapply list_elem_of_lookup_2).
      rewrite lookup_insert_ne by (intros E; by rewrite E in Hmn). rewrite Hf3 by (intros Hk; by apply (Hdis _ Hk)).
      apply Hsub2; [by eapply lookup_lt_Some|done].
    + intros k Hk Hkn. rewrite lookup_insert_ne by (intros E; rewrite <- E in Hk; done). apply Hr3.
      rewrite <- (take_drop (length subs) ids) in Hk. apply elem_of_app in Hk as [Hk|Hk]; [|done]. destruct Hkn. unfold new_ids. apply elem_of_app. left.
      destruct (decide (length subs <= length ids)%nat); [by rewrite Nat.min_r by lia|]. rewrite Nat.min_l by lia. rewrite take_ge in Hk by lia. by rewrite take_ge.
    + intros k Hkm Hk Hkn. rewrite lookup_insert_ne by done. rewrite Hf3, Hf2; [done..|]. intros Hd. apply Hk. rewrite <- (take_drop (length subs) ids). set_solver.
Qed.
End Replace.
