(* ===== verification/HistoryInvariant.v ===== *)
(** * The invariant of the historical graph

    The store and both indexes hold a sequence of blocks, oldest first, in
    which the edges of a vertex follow each other in time;
    [HistoricalGraph::addBlock] extends the sequence. *)

From Stdlib Require Import ZArith Lia Permutation.
From stdpp Require Import base numbers gmap strings list sorting.
From S2P Require Import Prelude.
From S2P Require Import Double.
From S2P Require Import NetworkByteBuffer.
From S2P Require Import LevelDB.
From S2P Require Import Schema.
From S2P Require Import AttributeData.
From S2P Require Import NeighborList.
From S2P Require Import PartitionIndex.
From S2P Require Import Block.
From S2P Require Import BlockContent.
From S2P Require Import BlockStorage.
From S2P Require Import BlockManager.
From S2P Require Import FocusedIndex.
From S2P Require Import IntervalIndex.
From S2P Require Import Conf.
From S2P Require Import HistoricalGraph.
From S2P Require Import DerivedBlocks.
From S2P Require Import HistoryBlocks.

#[local] Arguments be : simpl never.

(** ** Adding entries to the focused index *)

Lemma entry_lt_total e e' :
  (ie_vertex e, ie_end e) <> (ie_vertex e', ie_end e') -> entry_lt e e' \/ entry_lt e' e.
Proof.
  intros Hne. unfold entry_lt. destruct (Z.lt_trichotomy (ie_vertex e) (ie_vertex e')) as [|[Hv|]]; [lia| |lia].
  destruct (Z.lt_trichotomy (ie_end e) (ie_end e')) as [|[He|]]; [lia|congruence|lia].
Qed.

Lemma entry_lt_trans x y z : entry_lt x y -> entry_lt y z -> entry_lt x z.
Proof. unfold entry_lt. lia. Qed.

Definition entry_key (e : IndexEntry) : VertexId * Timestamp := (ie_vertex e, ie_end e).

Lemma sorted_insert e L :
  StronglySorted entry_lt L -> entry_key e ∉ entry_key <$> L -> exists L', L' ≡ₚ e :: L /\ StronglySorted entry_lt L'.
Proof.
  intros Hs Hne. induction Hs as [|x L Hs IH Hx]; [exists [e]; split; [done|repeat constructor]|].
  rewrite fmap_cons, not_elem_of_cons in Hne. destruct Hne as [Hne Hni].
  destruct (entry_lt_total e x Hne) as [Hlt|Hlt].
  - exists (e :: x :: L). split; [done|]. constructor; [by constructor|]. constructor; [done|].
    eapply Forall_impl; [exact Hx|]. intros y. by apply entry_lt_trans.
  - destruct (IH Hni) as (L' & HL' & Hs'). exists (x :: L'). split; [rewrite HL'; constructor|].
    constructor; [done|]. rewrite HL'. by constructor.
Qed.

Lemma indexed_insert m L e :
  indexed m L -> entry_ok e -> entry_key e ∉ entry_key <$> L ->
  exists L', indexed (<[(enc_entry e).1 := (enc_entry e).2]> m) L' /\ L' ≡ₚ e :: L.
Proof.
  intros [-> Hs Hok] He Hne. destruct (sorted_insert e L Hs Hne) as (L' & HL' & Hs'). exists L'. split; [|done].
  assert (Forall entry_ok L') as Hok' by (rewrite HL'; by constructor). split; [|done|done].
  change (<[(enc_entry e).1 := (enc_entry e).2]> (list_to_map (enc_entry <$> L)))
    with (list_to_map (M := gmap bytes bytes) (enc_entry <$> e :: L)).
  apply list_to_map_proper; [|by rewrite HL'].
  rewrite <- HL'. by apply sorted_NoDup_keys, entries_sorted_keys.
Qed.

Lemma indexed_extend l : forall m L,
  indexed m L -> Forall entry_ok l -> NoDup (entry_key <$> l ++ L) ->
  exists L', indexed (insert_entries m l) L' /\ L' ≡ₚ l ++ L.
Proof.
  induction l as [|e l IH]; intros m L Hix Hok Hnd; [by exists L|].
  apply Forall_cons in Hok as [He Hok]. cbn [app] in Hnd. rewrite fmap_cons in Hnd. apply NoDup_cons in Hnd as [Hne Hnd].
  rewrite fmap_app, elem_of_app in Hne.
  destruct (indexed_insert m L e Hix He) as (L1 & Hix1 & H1); [tauto|].
  destruct (IH _ L1 Hix1 Hok) as (L' & Hix' & H').
  - rewrite H1. rewrite <- Permutation_middle, fmap_cons. constructor; [|done]. rewrite fmap_app, elem_of_app. tauto.
  - exists L'. split; [done|]. by rewrite H', H1, <- Permutation_middle.
Qed.

(** ** The entries of a partitioned block *)

Lemma derived_entries F b m id :
  derived F b m -> heads_ok b -> heads_ok m -> omap (list_entry id) (neigs_ m) = omap (list_entry id) (neigs_ b).
Proof.
  unfold derived, heads_ok. induction 1 as [|p' p ns' ns Hp Hns IH]; [done|]. intros Hb Hm.
  apply Forall_cons in Hb as [Hb1 Hb], Hm as [Hm1 Hm]. cbn. rewrite IH by done.
  pose proof (derived_times F p' p Hp) as Ht. destruct Hp as [Ek _].
  enough (list_entry id p' = list_entry id p) as -> by done. unfold list_entry. rewrite Hb1, Hm1, Ek.
  destruct (times_ends _ _ Ht) as [Eh El].
  destruct (head (edges_ p'.2)), (head (edges_ p.2)); cbn in Eh |- *; try done. injection Eh as ->.
  destruct (last (edges_ p'.2)), (last (edges_ p.2)); cbn in El |- *; try done. by injection El as ->.
Qed.

Lemma derived_intervals F b m id :
  derived F b m -> omap (list_interval id) (neigs_ m) = omap (list_interval id) (neigs_ b).
Proof.
  unfold derived. induction 1 as [|p' p ns' ns Hp Hns IH]; [done|]. cbn. rewrite IH.
  pose proof (derived_times F p' p Hp) as Ht. destruct Hp as [Ek _].
  enough (list_interval id p' = list_interval id p) as -> by done. unfold list_interval. rewrite Ek.
  destruct (times_ends _ _ Ht) as [Eh El].
  destruct (head (edges_ p'.2)), (head (edges_ p.2)); cbn in Eh |- *; try done. injection Eh as ->.
  destruct (last (edges_ p'.2)), (last (edges_ p.2)); cbn in El |- *; try done. by injection El as ->.
Qed.

(** ** The history *)

(** The lists of a vertex in a sequence of blocks, and the times of its edges. *)
Definition vertex_lists (v : VertexId) (hist : list (BlockId * Block)) : list (BlockId * NeighborList) :=
  omap (fun ib => nl ← assoc_find v (neigs_ ib.2); Some (ib.1, nl)) hist.

Definition vertex_times (v : VertexId) (bs : list Block) : list Timestamp :=
  mbind (fun b => match assoc_find v (neigs_ b) with Some nl => tm_ <$> edges_ nl | None => [] end) bs.

(** The edges of each vertex follow each other in time, not before the time
    zero. *)
Definition in_order (bs : list Block) : Prop := forall v,
  Forall instant (vertex_times v bs) /\ StronglySorted Z.lt (vertex_times v bs).

Definition history_entries (hist : list (BlockId * Block)) : list IndexEntry :=
  mbind (fun ib => omap (list_entry ib.1) (neigs_ ib.2)) hist.

Definition history_intervals (hist : list (BlockId * Block)) : list IntervalData :=
  mbind (fun ib => omap (list_interval ib.1) (neigs_ ib.2)) hist.

(** The identifiers of the blocks a block is stored as: its master block and
    the sub blocks. *)
Definition own_ids (A : gmap Z Block) (id : BlockId) : list BlockId :=
  id :: match A !! id with Some m => subBlocks_ m | None => [] end.

Definition owned_ids (A : gmap Z Block) (hist : list (BlockId * Block)) : list BlockId :=
  mbind (fun ib => own_ids A ib.1) hist.

Section History.
Context (s : Schema) (Hdef : defined_schema s) (sl : list TimeSlicedPartitioning) (Htile : tiling sl).
Context (Hparts : parts_ok s sl).
Context {D : Type} `{LevelDB D, !LevelDBOk D} {R : Type} `{SpatialIndex R, !SpatialIndexOk R}.

Record hist_ok (g : HistoricalGraph D R) (A : gmap Z Block) (hist : list (BlockId * Block)) : Prop := {
  ho_conf : edgeSchema (hg_conf_ g) = s;
  ho_rep : rep s sl (hg_store_ g) A;
  ho_blocks : Forall (fun ib => holds_block s sl A ib.1 ib.2 /\ heads_ok ib.2) hist;
  ho_owned : NoDup (owned_ids A hist) /\ forall id, is_Some (A !! id) -> id ∈ owned_ids A hist;
  ho_order : in_order hist.*2;
  ho_iq : iq_indexed (iqIndex_ g) (history_intervals hist);
  ho_fiq : exists L, indexed (contents (fiqIndex_ g)) L /\ L ≡ₚ history_entries hist
}.

Lemma vertex_times_app v bs bs' : vertex_times v (bs ++ bs') = vertex_times v bs ++ vertex_times v bs'.
Proof. unfold vertex_times. apply bind_app. Qed.

(** *** Reading the entries of a history *)

Lemma list_entry_Some id p e :
  list_entry id p = Some e -> headVertex_ p.2 = p.1 ->
  ie_vertex e = p.1 /\ ie_block e = id /\ ie_start e ∈ tm_ <$> edges_ p.2 /\ ie_end e ∈ tm_ <$> edges_ p.2.
Proof.
  unfold list_entry. intros E Hh. destruct (head (edges_ p.2)) as [o|] eqn:Eo; [|discriminate E].
  destruct (last (edges_ p.2)) as [n|] eqn:En; [|discriminate E]. injection E as <-. cbn. split_and!; [done|done| |].
  - apply list_elem_of_fmap_2. destruct (edges_ p.2); [discriminate Eo|]. injection Eo as ->. by left.
  - apply list_elem_of_fmap_2. by apply last_Some_elem_of.
Qed.

Lemma block_times b v nl :
  NoDup (neigs_ b).*1 -> (v, nl) ∈ neigs_ b -> vertex_times v [b] = tm_ <$> edges_ nl.
Proof. intros Hnd Hin. unfold vertex_times. cbn. rewrite (assoc_find_elem v nl) by done. by rewrite app_nil_r. Qed.

Lemma vertex_times_elem v bs b t : b ∈ bs -> t ∈ vertex_times v [b] -> t ∈ vertex_times v bs.
Proof.
  intros Hb Ht. apply list_elem_of_split in Hb as (l1 & l2 & ->).
  change (l1 ++ b :: l2) with (l1 ++ [b] ++ l2). rewrite !vertex_times_app, !elem_of_app. tauto.
Qed.

Lemma entry_time id b e :
  NoDup (neigs_ b).*1 -> heads_ok b -> e ∈ omap (list_entry id) (neigs_ b) ->
  ie_block e = id /\ ie_vertex e ∈ (neigs_ b).*1 /\
  ie_start e ∈ vertex_times (ie_vertex e) [b] /\ ie_end e ∈ vertex_times (ie_vertex e) [b].
Proof.
  intros Hnd Hh (p & Hp & E)%list_elem_of_omap. unfold heads_ok in Hh. rewrite Forall_forall in Hh.
  destruct (list_entry_Some id p e E (Hh p Hp)) as (Hv & Hb & Hs & He). rewrite Hv.
  rewrite (block_times b p.1 p.2) by (by destruct p). split_and!; try done. by apply list_elem_of_fmap_2.
Qed.

(** The entries of a new block have keys of their own. *)
Lemma new_keys hist b id L :
  in_order (hist.*2 ++ [b]) -> Forall (fun ib => heads_ok ib.2 /\ NoDup (neigs_ ib.2).*1) hist ->
  heads_ok b -> NoDup (neigs_ b).*1 -> StronglySorted entry_lt L -> L ≡ₚ history_entries hist ->
  NoDup (entry_key <$> omap (list_entry id) (neigs_ b) ++ L).
Proof.
  intros Hord Hhist Hb Hnd Hs HL. rewrite fmap_app. apply NoDup_app. split_and!.
  - assert (forall ns, NoDup ns.*1 -> Forall (fun p => headVertex_ p.2 = p.1) ns ->
      NoDup (entry_key <$> omap (list_entry id) ns)) as Hns; [|by apply Hns].
    clear. induction ns as [|p ns IH]; intros Hnd Hh; [constructor|]. cbn in Hnd.
    apply NoDup_cons in Hnd as [Hni Hnd]. apply Forall_cons in Hh as [Hp Hh]. cbn [omap list_omap].
    destruct (list_entry id p) as [e|] eqn:E; [|by apply IH]. rewrite fmap_cons. constructor; [|by apply IH].
    intros (e' & Hk & (p' & Hp' & E')%list_elem_of_omap)%list_elem_of_fmap. injection Hk as Hv _.
    rewrite Forall_forall in Hh. destruct (list_entry_Some _ _ _ E Hp) as [H1 _].
    destruct (list_entry_Some _ _ _ E' (Hh p' Hp')) as [H2 _]. apply Hni. rewrite <- H1, Hv, H2.
    by apply list_elem_of_fmap_2.
  - intros k (e & -> & He)%list_elem_of_fmap (e' & Hk & He')%list_elem_of_fmap. injection Hk as Hv Hend.
    destruct (entry_time id b e Hnd Hb He) as (_ & _ & _ & Ht).
    rewrite HL in He'. apply list_elem_of_bind in He' as ([id' b'] & He' & Hin).
    rewrite Forall_forall in Hhist. destruct (Hhist _ Hin) as [Hb' Hnd'].
    destruct (entry_time id' b' e' Hnd' Hb' He') as (_ & _ & _ & Ht').
    apply (vertex_times_elem _ hist.*2) in Ht'; [|by apply (list_elem_of_fmap_2 snd _ (id', b'))].
    destruct (Hord (ie_vertex e)) as [_ Hst]. rewrite vertex_times_app in Hst.
    rewrite Hv, <- Hend in *. pose proof (StronglySorted_app_1_elem_of _ _ _ _ _ Hst Ht' Ht). lia.
  - clear -Hs. induction Hs as [|e L Hs IH He]; [constructor|]. rewrite fmap_cons. constructor; [|done].
    intros (e' & Hk & He')%list_elem_of_fmap. rewrite Forall_forall in He. specialize (He e' He').
    injection Hk as H1 H2. unfold entry_lt in He. lia.
Qed.

(** *** The lists of a new block *)

Lemma vertex_block_order bs b v : in_order (bs ++ [b]) -> Forall instant (vertex_times v [b]) /\ StronglySorted Z.lt (vertex_times v [b]).
Proof.
  intros Hord. destruct (Hord v) as [Hi Hs]. rewrite vertex_times_app in Hi, Hs.
  apply Forall_app in Hi as [_ Hi]. apply StronglySorted_app in Hs as (_ & _ & Hs). done.
Qed.

Lemma strict_ordered ts : Forall instant ts -> StronglySorted Z.lt ts -> ordered ts.
Proof.
  intros Hi Hs. split; [eapply Forall_impl; [exact Hi|apply instant_num]|].
  induction Hs as [|t ts Hs IH Ht]; [constructor|]. apply Forall_cons in Hi as [Hti Hi]. constructor; [by apply IH|].
  rewrite Forall_forall in *. intros x Hx. rewrite !instant_key by auto. specialize (Ht x Hx). lia.
Qed.

(** The lists of a block with the edges of [b] are those of [b] in its place
    and its time order. *)
Lemma lists_in_order F b m :
  well_stored s sl b -> in_order [b] -> derived F b m -> heads_ok m ->
  Forall (fun p => list_ordered p /\ list_indexable p /\ Forall instant (tm_ <$> edges_ p.2)) (neigs_ m).
Proof.
  intros Hb Hord Hd Hm. pose proof (bw_ok _ _ (ws_wf _ _ _ Hb)) as [Hnd Hne]. pose proof (ws_lists _ _ _ Hb) as Hls.
  unfold heads_ok in Hm. rewrite Forall_forall in Hm, Hne, Hls. apply Forall_forall. intros p' Hp'.
  pose proof Hp' as [i Hi]%list_elem_of_lookup. destruct (Forall2_lookup_l _ _ _ i _ Hd Hi) as (p & Hip & Hp).
  apply list_elem_of_lookup_2 in Hip. pose proof (derived_times F p' p Hp) as Ht. pose proof (proj1 Hp) as Ek.
  destruct (Hord p.1) as [Hin Hs]. rewrite (block_times b p.1 p.2) in Hin, Hs by (done || by destruct p).
  destruct (Hls p Hip) as (Hv & _ & _).
  assert (edges_ p'.2 <> []) as Hne'.
  { intros E. apply (Hne p Hip). pose proof (derived_length F p' p Hp) as Hl. rewrite E in Hl. by destruct (edges_ p.2). }
  split_and!.
  - split; [done|]. split; [by rewrite Ek|]. split; [by apply Hm|]. apply ordered_chronological. rewrite Ht. by apply strict_ordered.
  - split; [done|]. split; [by rewrite (Hm p' Hp'), Ek|]. assert (Forall (fun t => is_double t) (tm_ <$> edges_ p'.2)) as Hdb.
    { rewrite Ht. eapply Forall_impl; [exact Hin|apply instant_double]. }
    rewrite Forall_fmap in Hdb. exact Hdb.
  - by rewrite Ht.
Qed.

Lemma entries_ok F b m id :
  well_stored s sl b -> in_order [b] -> derived F b m -> heads_ok m -> is_u64 id ->
  Forall entry_ok (omap (list_entry id) (neigs_ m)).
Proof.
  intros Hb Hord Hd Hm Hid. pose proof (lists_in_order F b m Hb Hord Hd Hm) as Hl. apply Forall_forall.
  intros e (p & Hp & E)%list_elem_of_omap. rewrite Forall_forall in Hl. destruct (Hl p Hp) as (Ho & (_ & Hv & _) & Hi).
  destruct (list_entry_Some id p e E) as (H1 & H2 & H3 & H4); [apply Ho|].
  rewrite Forall_forall in Hi. unfold entry_ok. rewrite H1, H2.
  split; [apply Ho|]. split; [by apply Hi|]. split; [done|]. by apply instant_double, Hi.
Qed.

Lemma rep_index_step (st : Store D) A p h :
  rep s sl st A -> index_ok p sl -> removedPartitionings_ p = [] -> rep s sl (mkStore (bman_ st) p h) A.
Proof. intros [] Hp Hr. by split. Qed.

(** ** Storing a block *)

Lemma store_block_ok (st : Store D) A b :
  rep s sl st A -> well_stored s sl b -> nextBlockId_ (bman_ st) + 2 ^ 24 < 2 ^ 64 ->
  exists m subs h p st1 m' st2 A', partitionBlock s b (heap_ st) (pidx_ st) = Ret (m :: subs, h, p) /\ subs <> [] /\
    add_sub_blocks m subs (mkStore (bman_ st) p h) = Ret (m', st1) /\
    BlockManager.addBlock m' true st1 = Ret (with_id (nextBlockId_ (bman_ st1)) m', st2) /\
    let master := with_id (nextBlockId_ (bman_ st1)) m' in
    content master = mapped_content (fun _ => no_data s) b /\ heads_ok master /\ is_u64 (id_ master) /\
    rep s sl st2 A' /\ A ⊆ A' /\ holds_block s sl A' (id_ master) b /\
    NoDup (own_ids A' (id_ master)) /\ Forall (fun k => nextBlockId_ (bman_ st) <= k) (own_ids A' (id_ master)) /\
    (forall k, is_Some (A' !! k) -> is_Some (A !! k) \/ k ∈ own_ids A' (id_ master)) /\
    nextBlockId_ (bman_ st2) <= nextBlockId_ (bman_ st) + 2 ^ 24.
Proof.
  intros Hrep Hb Hroom. destruct (ws_mid _ _ _ Hb) as (mn & mx & Hmm & Hti & Hlt & Hno).
  pose proof (ws_wf _ _ _ Hb) as Hwf. destruct (rep_index _ _ _ _ Hrep) as [Hidx Hrem].
  destruct (getTimeSlicedPartitioning_ok _ _ _ Hidx Hti Hlt Hno) as (tp & p & Ep & Htp & Hin & Hidx' & _).
  destruct (parts_ok_in s sl Hparts tp Htp) as (Hcov & Hne & Hlen).
  destruct (master_block_ok s b Hwf (heap_ st)) as (m & n1 & Em & (_ & Hmp & Hms) & Hmc).
  destruct (sub_blocks_ok s Hdef b Hwf (partitioning_ tp) n1 (proj1 Hcov)) as (subs & n2 & Es & Hl & Hsubs).
  exists m, subs, n2, p. set (st0 := mkStore (bman_ st) p n2).
  assert (rep s sl st0 A) as Hrep0.
  { apply rep_index_step; [done..|]. destruct (getTimeSlicedPartitioning_frame _ _ _ _ Ep) as [-> _]. done. }
  destruct (add_sub_blocks_ok s sl subs m st0 A Hrep0) as (st1 & A1 & E1 & Hrep1 & Hsub1 & Hn1 & Hdom1 & Hl1).
  { cbn [bman_ st0]. lia. }
  { intros sub n Hsub Hn. apply list_elem_of_lookup in Hsub as [i Hi].
    destruct (lookup_lt_is_Some_2 (partitioning_ tp) i) as [attrs Ha].
    { apply lookup_lt_Some in Hi. lia. }
    destruct (Hsubs i attrs Ha) as (sub' & Hi' & (_ & Hp & Hss) & Hc). rewrite Hi in Hi'. injection Hi' as <-.
    by apply (sub_readable s Hdef sl Htile Hparts b mn mx tp i attrs). }
  cbn [bman_ st0] in *. set (n0 := nextBlockId_ (bman_ st)) in *.
  set (m' := add_ids m (seqZ n0 (Z.of_nat (length subs)))) in *.
  destruct (add_ids_ok m (seqZ n0 (Z.of_nat (length subs)))) as (_ & Hp' & Hs' & Hns'). fold m' in Hp', Hs', Hns'.
  rewrite Hmp in Hp'. rewrite Hms in Hs'. cbn in Hp', Hs'.
  assert (Hm'c : content m' = mapped_content (fun _ => no_data s) b) by (unfold content in *; by rewrite Hns').
  pose proof (rep_next _ _ _ _ Hrep) as Hnx. fold n0 in Hnx. pose proof (rep_next _ _ _ _ Hrep1) as Hnx1.
  assert (length (seqZ n0 (Z.of_nat (length subs))) = length subs) as Hlq by (rewrite length_seqZ; lia).
  assert (subs <> []) as Hsne by (intros ->; cbn in Hl; by destruct (partitioning_ tp)).
  destruct (addBlock_ok s sl st1 A1 m' Hrep1) as (st2 & E2 & Hrep2 & Hn2); [|lia|].
  { apply (master_readable s sl b); [done..| | | |]; cbn [with_id subBlocks_ id_]; rewrite ?Hs'.
    - intros E. rewrite E in Hlq. by destruct subs.
    - apply Forall_forall. intros x [Hx1 Hx2]%elem_of_seqZ. lia.
    - rewrite Hlq. lia.
    - lia. }
  exists st1, m', st2, (<[id_ (with_id (nextBlockId_ (bman_ st1)) m') := with_id (nextBlockId_ (bman_ st1)) m']> A1).
  cbn [id_ with_id] in *. set (n := nextBlockId_ (bman_ st1)) in *.
  assert (A1 ⊆ <[n := with_id n m']> A1) as Hsub2 by (apply insert_subseteq; apply (rep_fresh s sl st1); [done|lia]).
  assert (own_ids (<[n := with_id n m']> A1) n = n :: seqZ n0 (Z.of_nat (length subs))) as Hown.
  { unfold own_ids. rewrite lookup_insert_eq. cbn [with_id subBlocks_]. by rewrite Hs'. }
  rewrite Hown. split_and!; try done; try lia.
  - unfold partitionBlock, getPartitioningTimestamp. rewrite Hmm. cbn [mbind outcome_bind]. rewrite Ep.
    cbn [mbind outcome_bind]. rewrite Em. cbn [mbind outcome_bind]. by rewrite Es.
  - unfold heads_ok. cbn [with_id neigs_]. rewrite Hns'. by apply (master_heads s b _ _ _ Em).
  - by transitivity A1.
  - split; [done|]. exists (with_id n m'), mn, mx, tp. split_and!; try done.
    + by rewrite lookup_insert_eq.
    + cbn [with_id subBlocks_]. rewrite Hs'. lia.
    + intros i attrs Ha. destruct (Hsubs i attrs Ha) as (sub & Hi & _ & Hc).
      exists (n0 + Z.of_nat i), (with_id (n0 + Z.of_nat i) sub). split_and!; [| |done].
      * cbn [with_id subBlocks_]. rewrite Hs'. apply lookup_seqZ. apply lookup_lt_Some in Hi. lia.
      * eapply lookup_weaken; [by apply Hl1|done].
  - constructor; [rewrite elem_of_seqZ; lia|apply NoDup_seqZ].
  - constructor; [lia|]. apply Forall_forall. intros k [Hk _]%elem_of_seqZ. done.
  - intros k Hk. rewrite lookup_insert in Hk. case_decide; [right; set_solver|].
    destruct (Hdom1 k Hk) as [?|?]; [by left|right]. apply elem_of_cons. right. by apply elem_of_seqZ.
Qed.

Lemma owned_ids_mono A A' hist : A ⊆ A' -> Forall (fun ib => is_Some (A !! ib.1)) hist -> owned_ids A' hist = owned_ids A hist.
Proof.
  intros HA Hh. unfold owned_ids. induction Hh as [|[id b] hist [m Hm] Hh IH]; [done|]. cbn. cbn in IH. rewrite IH. do 2 f_equal.
  cbn in Hm. by rewrite Hm, (lookup_weaken _ _ _ _ Hm HA).
Qed.

Lemma history_entries_app hist id b :
  history_entries (hist ++ [(id, b)]) = history_entries hist ++ omap (list_entry id) (neigs_ b).
Proof. unfold history_entries. rewrite bind_app. cbn. by rewrite app_nil_r. Qed.

Lemma history_intervals_app hist id b :
  history_intervals (hist ++ [(id, b)]) = history_intervals hist ++ omap (list_interval id) (neigs_ b).
Proof. unfold history_intervals. rewrite bind_app. cbn. by rewrite app_nil_r. Qed.

Lemma iq_indexed_Permutation (t : RTreeIntervalIndex R) L L' : iq_indexed t L -> L ≡ₚ L' -> iq_indexed t L'.
Proof. intros [H1 H2] HL. split; [by rewrite H1, HL|by rewrite <- HL]. Qed.

Lemma history_blocks g A hist :
  hist_ok g A hist -> Forall (fun ib => heads_ok ib.2 /\ NoDup (neigs_ ib.2).*1) hist.
Proof.
  intros Hg. eapply Forall_impl; [exact (ho_blocks _ _ _ Hg)|]. intros [id b] [[Hb _] Hh]. split; [done|].
  apply (bw_ok _ _ (ws_wf _ _ _ Hb)).
Qed.

Lemma owned_in A hist k : Forall (fun ib => holds_block s sl A ib.1 ib.2 /\ heads_ok ib.2) hist ->
  k ∈ owned_ids A hist -> is_Some (A !! k).
Proof.
  intros Hbl ([id b] & Hk & Hin)%list_elem_of_bind. rewrite Forall_forall in Hbl. destruct (Hbl _ Hin) as [[_ (m & mn & mx & tp & Hm & _ & _ & _ & _ & _ & Hlen & Hsub)] _].
  unfold own_ids in Hk. cbn [fst] in *. rewrite Hm in Hk. apply elem_of_cons in Hk as [->|[i Hi]%list_elem_of_lookup]; [by exists m|].
  destruct (lookup_lt_is_Some_2 (partitioning_ tp) i) as [attrs Ha]; [rewrite <- Hlen; by eapply lookup_lt_Some|].
  destruct (Hsub i attrs Ha) as (sid & sub & Hs & HA & _). rewrite Hi in Hs. injection Hs as <-. by exists sub.
Qed.

Lemma owned_lt A hist n k : (forall k, is_Some (A !! k) -> k < n) -> Forall (fun ib => holds_block s sl A ib.1 ib.2 /\ heads_ok ib.2) hist ->
  k ∈ owned_ids A hist -> k < n.
Proof. intros HA Hbl Hk. by eapply HA, owned_in. Qed.

(** Adding a block extends the history; it takes an identifier for each part
    and one for the master block. *)
Lemma history_addBlock_ok g A hist b :
  hist_ok g A hist -> well_stored s sl b -> heads_ok b -> in_order (hist.*2 ++ [b]) ->
  nextBlockId_ (bman_ (hg_store_ g)) + 2 ^ 24 < 2 ^ 64 ->
  exists g' A' id, HistoricalGraph.addBlock b g = Ret g' /\ hist_ok g' A' (hist ++ [(id, b)]) /\
    nextBlockId_ (bman_ (hg_store_ g')) <= nextBlockId_ (bman_ (hg_store_ g)) + 2 ^ 24.
Proof.
  intros Hg Hb Hh Hord Hroom. pose proof (history_blocks _ _ _ Hg) as Hwf.
  pose proof Hg as [Hconf Hrep Hbl [Hown Hdom] _ Hiq (L & Hfiq & HL)].
  destruct (store_block_ok (hg_store_ g) A b Hrep Hb Hroom)
    as (m & subs & h & p & st1 & m' & st2 & A' & E1 & Hsub & E2 & E3 & Hc & Hmh & Hid & Hrep' & HA & Hhold & Hno & Hnew & Hdom' & Hnx).
  set (master := with_id _ m') in *. cbn zeta in *. pose proof (proj1 (content_derived _ _ _) Hc) as Hd.
  pose proof (vertex_block_order hist.*2 b) as Hord1. assert (in_order [b]) as Hordb by (intros v; by apply Hord1).
  pose proof (lists_in_order _ b master Hb Hordb Hd Hmh) as Hlists.
  assert (Forall list_ordered (neigs_ master)) as Hlo by (eapply Forall_impl; [exact Hlists|by intros ? []]).
  assert (Forall list_indexable (neigs_ master)) as Hli by (eapply Forall_impl; [exact Hlists|by intros ? (? & ? & ?)]).
  destruct (iq_indexBlock_ok (iqIndex_ g) _ master Hiq Hid Hlo) as (iq & E4 & Hiq').
  destruct (indexBlock_ok master (fiqIndex_ g) Hid Hli) as (fiq & E5 & Hfiq').
  exists (mkHistory (hg_conf_ g) st2 iq fiq), A', (id_ master). split_and!; [| |done].
  - unfold HistoricalGraph.addBlock. rewrite Hconf, E1. cbn [mbind outcome_bind].
    destruct subs as [|sub subs]; [done|]. rewrite E2. cbn [mbind outcome_bind]. rewrite E3. cbn [mbind outcome_bind].
    fold master. rewrite E4. cbn [mbind outcome_bind]. by rewrite E5.
  - split; cbn [hg_conf_ hg_store_ iqIndex_ fiqIndex_]; [done|done| | | | |].
    + apply Forall_app. split; [|by apply Forall_singleton].
      eapply Forall_impl; [exact Hbl|]. intros [id' b'] [Hb' Hh']. split; [|done]. by eapply holds_block_mono.
    + assert (owned_ids A' (hist ++ [(id_ master, b)]) = owned_ids A hist ++ own_ids A' (id_ master)) as ->.
      { unfold owned_ids. rewrite bind_app. cbn [mbind list_bind fst]. rewrite app_nil_r. f_equal. apply owned_ids_mono; [done|].
        eapply Forall_impl; [exact Hbl|]. intros [id' b'] [[_ (m0 & mn & mx & tp & Hm0 & _)] _]. by exists m0. }
      rewrite Forall_forall in Hnew. split.
      * apply NoDup_app. split_and!; [done| |done]. intros k Hk1 Hk2%Hnew. 
        apply (owned_lt A hist (nextBlockId_ (bman_ (hg_store_ g)))) in Hk1; [lia| |done].
        intros k' [b' Hb']. by apply (rep_blocks _ _ _ _ Hrep) in Hb' as (_ & _ & ? & _).
      * intros k [Hk%Hdom|Hk]%Hdom'; set_solver.
    + by rewrite fmap_app.
    + rewrite history_intervals_app. eapply iq_indexed_Permutation; [exact Hiq'|].
      unfold block_intervals. by rewrite (derived_intervals _ b master _ Hd), Permutation_app_comm.
    + destruct (indexed_extend (block_entries master) _ L Hfiq) as (L' & Hix & HL').
      * by apply (entries_ok (fun _ => no_data s) b).
      * unfold block_entries. rewrite (derived_entries _ b master _ Hd) by done.
        apply (new_keys hist); try done; [by apply (bw_ok _ _ (ws_wf _ _ _ Hb))|by apply (ix_sorted _ _ Hfiq)].
      * exists L'. rewrite Hfiq'. split; [done|]. rewrite history_entries_app, HL'.
        unfold block_entries. rewrite (derived_entries _ b master _ Hd) by done. by rewrite HL, Permutation_app_comm.
Qed.
End History.

(** ** The new graph *)

(** The slice a new partition index starts with: all times, one part with all
    attributes. *)
Definition initial_slice (s : Schema) : TimeSlicedPartitioning :=
  mkSlice dninf dinf [foldl (fun s a => set_insert (name_ a) s) [] (attributes_ s)].

Lemma elem_of_set_insert x y l : y ∈ set_insert x l <-> y = x \/ y ∈ l.
Proof. unfold set_insert. case_decide; [naive_solver|]. rewrite elem_of_app, list_elem_of_singleton. tauto. Qed.

Lemma elem_of_all_names (l : list Attribute) x :
  x ∈ foldl (fun s a => set_insert (name_ a) s) [] l <-> x ∈ name_ <$> l.
Proof.
  assert (forall acc, x ∈ foldl (fun s a => set_insert (name_ a) s) acc l <-> x ∈ acc \/ x ∈ name_ <$> l) as Hg.
  { induction l as [|a l IH]; intros acc; cbn [foldl fmap list_fmap]; [rewrite elem_of_nil; tauto|].
    rewrite IH, elem_of_set_insert, elem_of_cons. tauto. }
  rewrite Hg, elem_of_nil. tauto.
Qed.

Lemma unique_name_index s a :
  schema_ok s -> NoDup (name_ <$> attributes_ s) -> a ∈ attributes_ s -> nameToIndex_ s !! name_ a = Some (index_ a).
Proof.
  intros Hok Hnd [j Hj]%list_elem_of_lookup. destruct (names_complete _ Hok j a Hj) as [i Hi]. rewrite Hi. f_equal.
  destruct (names_sound _ Hok _ _ Hi) as (k & b & -> & Hk & Hn). rewrite (Schema.index_ok _ Hok _ _ Hj). f_equal.
  apply (NoDup_lookup (name_ <$> attributes_ s) k j (name_ a) Hnd); rewrite list_lookup_fmap; [by rewrite Hk; cbn; rewrite Hn|by rewrite Hj].
Qed.

Section New.
Context (s : Schema) (Hdef : defined_schema s) (Hnames : NoDup (name_ <$> attributes_ s)).
Context (Hvalid : slice_valid (initial_slice s)).

Lemma initial_covers : covers s (partitioning_ (initial_slice s)).
Proof.
  clear Hvalid. split.
  - apply Forall_singleton, Forall_forall. intros x (a & -> & Ha)%elem_of_all_names%list_elem_of_fmap.
    rewrite (unique_name_index s a (proj1 Hdef) Hnames Ha). eauto.
  - intros i (a & Ha & <-)%newAttributeData_keys. eexists. split; [left|]. exists (name_ a). split.
    + by apply elem_of_all_names, list_elem_of_fmap_2.
    + by apply unique_name_index; [apply Hdef|..].
Qed.

Lemma initial_tiling : tiling [initial_slice s].
Proof.
  split; [|by apply Forall_singleton|apply Forall_singleton; by vm_compute].
  split; [done|]. split; [by vm_compute|done].
Qed.

Lemma initial_parts : parts_ok s [initial_slice s].
Proof. clear Hvalid. apply Forall_singleton. split_and!; [apply initial_covers|done|by vm_compute]. Qed.

Context {D : Type} `{LevelDB D, !LevelDBOk D} {R : Type} `{SpatialIndex R, !SpatialIndexOk R}.

Lemma new_index_ok size (db : D) :
  1 <= size -> contents db = ∅ ->
  exists p, newPartitionIndex size s true db = Ret p /\ index_ok p [initial_slice s] /\ removedPartitionings_ p = [].
Proof.
  intros Hsz Hdb. unfold newPartitionIndex. fold (initial_slice s). unfold addPartitioning.
  rewrite time_key_ok by by vm_compute. cbn [mbind outcome_bind].
  destruct (put_slice_ok (initial_slice s) Hvalid) as (b & -> & E). cbn [mbind outcome_bind]. rewrite E.
  cbn [mbind outcome_bind db_]. destruct (ldb_put_ok db (be 8 dinf) (enc_slice (initial_slice s))) as (db' & Edb & Hdb').
  change (endTime_ (initial_slice s)) with dinf. rewrite Edb. cbn [check mbind outcome_bind].
  eexists. split; [reflexivity|]. split; [|done].
  split; cbn; [apply initial_tiling| |lia|constructor|constructor|done|split; constructor].
  unfold stores. by rewrite Hdb', Hdb.
Qed.

Lemma new_history_ok conf (partitions blocks focused : D) :
  edgeSchema conf = s -> 1 <= partitioningBufferSize conf -> 0 < blockBufferSize conf ->
  contents partitions = ∅ -> contents blocks = ∅ -> contents focused = ∅ ->
  exists g, newHistoricalGraph (R := R) conf 0 true partitions blocks focused None = Ret g /\
    hist_ok s [initial_slice s] g ∅ [] /\ nextBlockId_ (bman_ (hg_store_ g)) = 0.
Proof.
  intros Hconf Hps Hbs Hp Hb Hf. unfold newHistoricalGraph. rewrite Hconf.
  destruct (new_index_ok (partitioningBufferSize conf) partitions Hps Hp) as (p & -> & Hidx & Hrem).
  cbn [mbind outcome_bind]. eexists. split; [reflexivity|]. split; [|done]. split; cbn; [done| | | | | |].
  - split; cbn; try done.
    + intros id _ v. rewrite Hb, lookup_empty. split; [done|]. intros (b & Hb' & _). by rewrite lookup_empty in Hb'.
    + split; [constructor|]. intros id. rewrite lookup_empty. split; [by intros ?%elem_of_nil|by intros []].
    + lia.
  - constructor.
  - split; [constructor|]. intros id. rewrite lookup_empty. by intros [].
  - intros v. split; constructor.
  - split; [|constructor]. cbn. by rewrite si_empty_ok.
  - exists []. split; [|done]. split; [by rewrite Hf|constructor|constructor].
Qed.
End New.

(** ** Properties *)

(** C9: the historical graph keeps its parts in step.  A graph on empty
    databases holds the empty history; and whenever a graph holds a history,
    adding a block whose edges come, vertex by vertex, after those of the
    history succeeds and gives a graph that holds the history with the block
    at its end: the block is cut by the partitioning of its time, its parts
    and its master block are in the store under fresh identifiers, and both
    indexes have exactly the lists of the history. *)
Theorem history_invariant {D} `{LevelDB D, !LevelDBOk D} {R} `{SpatialIndex R, !SpatialIndexOk R} (s : Schema) :
  defined_schema s ->
  (forall conf (partitions blocks focused : D),
     NoDup (name_ <$> attributes_ s) -> slice_valid (initial_slice s) -> edgeSchema conf = s ->
     1 <= partitioningBufferSize conf -> 0 < blockBufferSize conf ->
     contents partitions = ∅ -> contents blocks = ∅ -> contents focused = ∅ ->
     exists g, newHistoricalGraph (R := R) conf 0 true partitions blocks focused None = Ret g /\
       hist_ok s [initial_slice s] g ∅ [] /\ nextBlockId_ (bman_ (hg_store_ g)) = 0) /\
  (forall sl (g : HistoricalGraph D R) A hist b, tiling sl -> parts_ok s sl ->
     hist_ok s sl g A hist -> well_stored s sl b -> heads_ok b -> in_order (hist.*2 ++ [b]) ->
     nextBlockId_ (bman_ (hg_store_ g)) + 2 ^ 24 < 2 ^ 64 ->
     exists g' A' id, HistoricalGraph.addBlock b g = Ret g' /\ hist_ok s sl g' A' (hist ++ [(id, b)]) /\
       nextBlockId_ (bman_ (hg_store_ g')) <= nextBlockId_ (bman_ (hg_store_ g)) + 2 ^ 24).
Proof.
  intros Hdef. split.
  - intros conf p b f Hn Hv. by apply new_history_ok.
  - intros sl g A hist b Ht Hp. by apply history_addBlock_ok.
Qed.

Definition example_history_conf : Conf := newConf "db" "/tmp" [] [("weight", INT64); ("tag", STRING)].

Lemma example_initial_slice : slice_valid (initial_slice example_schema).
Proof.
  split; [by vm_compute|by vm_compute| | |by vm_compute].
  - cbn. repeat (split || constructor); by vm_compute.
  - apply Forall_singleton. cbn. repeat constructor; set_solver.
Qed.

Lemma example_names : NoDup (name_ <$> attributes_ example_schema).
Proof. cbn. repeat constructor; set_solver. Qed.

Lemma example_block_stored : well_stored example_schema [initial_slice example_schema] example_block.
Proof.
  split.
  - exact example_block_wf.
  - repeat (apply Forall_cons_2 || apply Forall_nil_2); (split; [by vm_compute|]; split; [by vm_compute|]).
    all: apply Forall_singleton; split; [by vm_compute|]; split; [by vm_compute|exact example_data_typed].
  - exists (dofZ 30), (dofZ 30). split; [by vm_compute|]. split; [by vm_compute|]. split; [by vm_compute|].
    intros Hin. apply list_elem_of_singleton in Hin. revert Hin. by vm_compute.
  - by vm_compute.
Qed.

Lemma example_block_order : in_order [example_block].
Proof.
  intros v. unfold vertex_times. cbn. repeat case_decide; cbn; split; repeat constructor; by vm_compute.
Qed.

Lemma example_block_heads : heads_ok example_block.
Proof. repeat constructor. Qed.

(** A graph that holds the example block. *)
Lemma example_history :
  exists (g : HistoricalGraph (gmap bytes bytes) (list (bytes * Region * Z))) A id,
    hist_ok example_schema [initial_slice example_schema] g A [(id, example_block)].
Proof.
  destruct (new_history_ok (D := gmap bytes bytes) (R := list (bytes * Region * Z)) example_schema example_initial_slice
    example_history_conf ∅ ∅ ∅) as (g & _ & Hg & Hn); [done|by vm_compute|by vm_compute|done..|].
  destruct (history_addBlock_ok example_schema example_defined _ (initial_tiling _ example_initial_slice)
    (initial_parts _ example_defined example_names) g ∅ [] example_block Hg example_block_stored example_block_heads
    example_block_order) as (g' & A' & id & _ & Hg' & _); [by rewrite Hn|].
  by exists g', A', id.
Qed.

Lemma history_invariant_witness :
  exists g g' A' id, newHistoricalGraph (D := gmap bytes bytes) (R := list (bytes * Region * Z)) example_history_conf 0 true ∅ ∅ ∅ None = Ret g /\
    HistoricalGraph.addBlock example_block g = Ret g' /\
    hist_ok example_schema [initial_slice example_schema] g' A' [(id, example_block)].
Proof.
  destruct (history_invariant (D := gmap bytes bytes) (R := list (bytes * Region * Z)) example_schema example_defined)
    as [Hnew Hadd].
  destruct (Hnew example_history_conf ∅ ∅ ∅) as (g & E & Hg & Hn);
    [exact example_names|exact example_initial_slice|reflexivity|by vm_compute|by vm_compute|reflexivity|reflexivity|reflexivity|].
  destruct (Hadd [initial_slice example_schema] g ∅ [] example_block) as (g' & A' & id & E' & Hg' & _).
  - exact (initial_tiling example_schema example_initial_slice).
  - exact (initial_parts example_schema example_defined example_names).
  - exact Hg.
  - exact example_block_stored.
  - exact example_block_heads.
  - exact example_block_order.
  - rewrite Hn. reflexivity.
  - exists g, g', A', id. split; [exact E|]. split; [exact E'|exact Hg'].
Defined.
