(* ===== verification/HistoryQuery.v ===== *)
(** * Focused queries on the historical graph

    The edge iterator of a focused query goes through the edges of the vertex
    in the range, in time order, and gives each with the attributes the query
    names, read from the sub blocks of the partitions it chose. *)

From Stdlib Require Import ZArith Lia Permutation.
From stdpp Require Import base numbers gmap strings list sorting.
From S2P Require Import Prelude.
From S2P Require Import Double.
From S2P Require Import NetworkByteBuffer.
From S2P Require Import LevelDB.
From S2P Require Import Schema.
From S2P Require Import AttributeData.
From S2P Require Import MetaData.
From S2P Require Import NeighborList.
From S2P Require Import PartitionIndex.
From S2P Require Import Block.
From S2P Require Import BlockContent.
From S2P Require Import BlockManager.
From S2P Require Import FocusedIndex.
From S2P Require Import IntervalIndex.
From S2P Require Import Query.
From S2P Require Import Conf.
From S2P Require Import HistoricalGraph.
From S2P Require Import PartitionChoice.
From S2P Require Import DerivedBlocks.
From S2P Require Import HistoryBlocks.
From S2P Require Import HistoryInvariant.

#[local] Arguments be : simpl never.

(** ** The lists of a vertex *)

Definition list_times (ls : list (BlockId * NeighborList)) : list Timestamp := mbind (fun p => tm_ <$> edges_ p.2) ls.

Lemma vertex_list_times v hist : vertex_times v hist.*2 = list_times (vertex_lists v hist).
Proof.
  unfold vertex_times, list_times, vertex_lists. induction hist as [|[id b] hist IH]; [done|]. cbn. rewrite IH.
  by destruct (assoc_find v (neigs_ b)).
Qed.

(** The entry of a list in the focused index. *)
Definition entry_of (v : VertexId) (p : BlockId * NeighborList) : IndexEntry :=
  mkEntry v (default dzero (last (tm_ <$> edges_ p.2))) p.1 (default dzero (head (tm_ <$> edges_ p.2))).

Lemma entry_of_list id v nl :
  headVertex_ nl = v -> edges_ nl <> [] -> list_entry id (v, nl) = Some (entry_of v (id, nl)).
Proof.
  intros Hh Hne. unfold list_entry, entry_of. cbn [fst snd]. rewrite fmap_last, Hh.
  destruct (edges_ nl) as [|e es]; [done|]. cbn [head fmap list_fmap].
  destruct (last (e :: es)) eqn:E; [done|]. by apply last_None in E.
Qed.

(** The entries of a vertex in a block: that of its list, if it has one. *)
Lemma vertex_entry id b v :
  NoDup (neigs_ b).*1 -> Forall (fun p => headVertex_ p.2 = p.1) (neigs_ b) -> Forall (fun p => edges_ p.2 <> []) (neigs_ b) ->
  filter (fun e => ie_vertex e = v) (omap (list_entry id) (neigs_ b)) =
    match assoc_find v (neigs_ b) with Some nl => [entry_of v (id, nl)] | None => [] end.
Proof.
  generalize (neigs_ b) as ns. clear b. induction ns as [|[h nl] ns IH]; intros Hnd Hh Hne; [done|].
  cbn in Hnd. apply NoDup_cons in Hnd as [Hni Hnd]. apply Forall_cons in Hh as [Hh1 Hh]. apply Forall_cons in Hne as [Hne1 Hne].
  cbn in Hh1, Hne1. cbn [omap list_omap]. rewrite (entry_of_list id h nl) by done. rewrite filter_cons, IH by done.
  cbn [assoc_find]. destruct (decide (v = h)) as [->|Hvh].
  - rewrite decide_True by done. destruct (assoc_find h ns) eqn:E; [|done].
    destruct Hni. apply assoc_find_is_Some. eauto.
  - rewrite decide_False by (cbn; congruence). done.
Qed.

Lemma history_vertex_entries v hist :
  Forall (fun ib => heads_ok ib.2 /\ block_ok ib.2) hist ->
  filter (fun e => ie_vertex e = v) (history_entries hist) = entry_of v <$> vertex_lists v hist.
Proof.
  unfold history_entries, vertex_lists. induction 1 as [|[id b] hist [Hh [Hnd Hne]] Hhist IH]; [done|]. cbn [mbind list_bind fst snd].
  rewrite filter_app, IH, vertex_entry by done. cbn [omap list_omap fst snd]. by destruct (assoc_find v (neigs_ b)).
Qed.

(** ** Lists that follow each other in time *)

Definition sequential (ls : list (BlockId * NeighborList)) : Prop :=
  Forall (fun p => edges_ p.2 <> []) ls /\ Forall instant (list_times ls) /\ StronglySorted Z.lt (list_times ls).

Lemma sequential_cons p ls :
  sequential (p :: ls) -> edges_ p.2 <> [] /\ Forall instant (tm_ <$> edges_ p.2) /\ StronglySorted Z.lt (tm_ <$> edges_ p.2) /\
    sequential ls /\ forall t t', t ∈ tm_ <$> edges_ p.2 -> t' ∈ list_times ls -> t < t'.
Proof.
  intros (Hne & Hi & Hs). apply Forall_cons in Hne as [Hp Hne].
  change (list_times (p :: ls)) with ((tm_ <$> edges_ p.2) ++ list_times ls) in *.
  apply Forall_app in Hi as [Hi1 Hi2]. pose proof Hs as Hs'. apply StronglySorted_app in Hs' as (_ & Hs1 & Hs2).
  split_and!; try done. intros t t'. by apply StronglySorted_app_1_elem_of.
Qed.

Lemma sequential_filter (P : BlockId * NeighborList -> Prop) `{!forall p, Decision (P p)} ls :
  sequential ls -> sequential (filter P ls).
Proof.
  induction ls as [|p ls IH]; intros Hls; [done|]. destruct (sequential_cons p ls Hls) as (Hne & Hi & Hs & Hls' & Hlt).
  rewrite filter_cons. destruct (decide (P p)); [|by apply IH]. destruct (IH Hls') as (Hne2 & Hi2 & Hs2).
  split; [by constructor|].
  change (list_times (p :: filter P ls)) with ((tm_ <$> edges_ p.2) ++ list_times (filter P ls)).
  split; [by apply Forall_app|]. apply StronglySorted_app. split; [|done]. intros t t' Ht Ht'. apply Hlt; [done|].
  apply list_elem_of_bind in Ht' as (p' & Ht' & [_ Hp']%list_elem_of_filter). apply list_elem_of_bind. by exists p'.
Qed.

Lemma ends_elem (p : BlockId * NeighborList) v :
  edges_ p.2 <> [] -> ie_start (entry_of v p) ∈ tm_ <$> edges_ p.2 /\ ie_end (entry_of v p) ∈ tm_ <$> edges_ p.2.
Proof.
  intros Hne. unfold entry_of. cbn. assert (tm_ <$> edges_ p.2 <> []) as Hn by (by destruct (edges_ p.2)). split.
  - destruct (tm_ <$> edges_ p.2); [done|by left].
  - destruct (last (tm_ <$> edges_ p.2)) eqn:E; [by apply last_Some_elem_of|by apply last_None in E].
Qed.

Lemma sequential_entries v ls : sequential ls -> StronglySorted entry_lt (entry_of v <$> ls).
Proof.
  induction ls as [|p ls IH]; intros Hls; [constructor|].
  destruct (sequential_cons p ls Hls) as (Hne & _ & _ & Hls' & Hlt). cbn. constructor; [by apply IH|].
  apply Forall_fmap, Forall_forall. intros p' Hp'. cbn. right. split; [done|].
  apply Hlt; [by apply (ends_elem p v)|]. apply list_elem_of_bind. exists p'. split; [|done].
  apply (ends_elem p' v). destruct Hls' as [Hne' _]. rewrite Forall_forall in Hne'. by apply Hne'.
Qed.

(** In a sorted index the entries of a vertex come before those of later
    ones. *)
Lemma from_entry_split L v start E :
  StronglySorted entry_lt L -> filter (fun e => ie_vertex e = v) L = E ->
  exists others, from_entry L v start = filter (fun e => start <= ie_end e) E ++ others /\
    Forall (fun e => ie_vertex e <> v) others.
Proof.
  intros Hs <-. exists (filter (fun e => v < ie_vertex e) L). unfold from_entry. split.
  - induction Hs as [|e L Hs IH He]; [done|]. rewrite !filter_cons.
    destruct (Z.lt_trichotomy (ie_vertex e) v) as [Hv|[Hv|Hv]].
    + rewrite !decide_False by lia. done.
    + rewrite (decide_True (P := ie_vertex e = v)) by done. rewrite (decide_False (P := v < ie_vertex e)) by lia.
      rewrite filter_cons. destruct (decide (start <= ie_end e)) as [Hse|Hse].
      * rewrite decide_True by tauto. cbn. by rewrite IH.
      * rewrite decide_False by lia. done.
    + rewrite (decide_False (P := ie_vertex e = v)) by lia. rewrite !decide_True by lia.
      assert (filter (fun e => ie_vertex e = v) L = []) as Hnone.
      { apply filter_none. eapply Forall_impl; [exact He|]. unfold entry_lt. intros x Hx. lia. }
      rewrite Hnone in IH |- *. cbn in IH |- *. by rewrite IH.
  - apply Forall_forall. intros e [He _]%list_elem_of_filter. lia.
Qed.

(** The vertex's entries in the index of a history. *)
Lemma indexed_vertex_entries L v hist :
  StronglySorted entry_lt L -> L ≡ₚ history_entries hist ->
  Forall (fun ib => heads_ok ib.2 /\ block_ok ib.2) hist -> sequential (vertex_lists v hist) ->
  filter (fun e => ie_vertex e = v) L = entry_of v <$> vertex_lists v hist.
Proof.
  intros Hs HL Hok Hseq. apply (StronglySorted_unique_strong entry_lt).
  - intros x y _ _. unfold entry_lt. lia.
  - clear HL. induction Hs as [|e L Hs IH He]; [constructor|]. rewrite filter_cons. case_decide; [|done].
    constructor; [done|]. apply Forall_forall. intros x [_ Hx]%list_elem_of_filter. rewrite Forall_forall in He. auto.
  - by apply sequential_entries.
  - by rewrite HL, history_vertex_entries.
Qed.

(** ** The edges in a range *)

(** An edge of a list with its block and its place. *)
Definition Position : Type := BlockId * nat * NLEdge.

Definition list_positions (p : BlockId * NeighborList) : list Position := imap (fun k e => (p.1, k, e)) (edges_ p.2).
Definition positions (ls : list (BlockId * NeighborList)) : list Position := mbind list_positions ls.

Definition in_range (start endt : Timestamp) (x : Position) : Prop := start <= tm_ x.2 < endt.

#[export] Instance in_range_dec start endt x : Decision (in_range start endt x).
Proof. unfold in_range. apply _. Defined.

Lemma elem_of_list_positions p x : x ∈ list_positions p -> tm_ x.2 ∈ tm_ <$> edges_ p.2.
Proof.
  intros [i Hi]%list_elem_of_lookup. unfold list_positions in Hi. rewrite list_lookup_imap in Hi.
  destruct (edges_ p.2 !! i) eqn:E; [|done]. injection Hi as <-. cbn. apply list_elem_of_fmap_2. by eapply list_elem_of_lookup_2.
Qed.

Lemma elem_of_positions ls x : x ∈ positions ls -> tm_ x.2 ∈ list_times ls.
Proof.
  intros (p & Hx & Hp)%list_elem_of_bind. apply list_elem_of_bind. exists p. split; [|done]. by apply elem_of_list_positions.
Qed.

Lemma no_positions start endt l :
  (forall x : Position, x ∈ l -> ~ in_range start endt x) -> filter (in_range start endt) l = [].
Proof. intros Hl. apply filter_none, Forall_forall. exact Hl. Qed.

Lemma last_end (p : BlockId * NeighborList) v t :
  edges_ p.2 <> [] -> Forall instant (tm_ <$> edges_ p.2) -> StronglySorted Z.lt (tm_ <$> edges_ p.2) ->
  t ∈ tm_ <$> edges_ p.2 -> t <= ie_end (entry_of v p).
Proof.
  intros Hne Hi Hs Ht. pose proof (proj2 (ends_elem p v Hne)) as He. revert He. unfold entry_of. cbn [ie_end].
  destruct (last (tm_ <$> edges_ p.2)) as [x|] eqn:El; [|apply last_None in El; by destruct (edges_ p.2)].
  cbn [default]. intros Hx. pose proof (ordered_last _ _ _ (strict_ordered _ Hi Hs) Ht El) as Hle.
  rewrite Forall_forall in Hi. by rewrite !instant_key in Hle by auto.
Qed.

(** The lists that end before the range have no edge in it. *)
Lemma positions_from start endt v ls :
  sequential ls -> filter (in_range start endt) (positions ls) =
    filter (in_range start endt) (positions (filter (fun p => start <= ie_end (entry_of v p)) ls)).
Proof.
  induction ls as [|p ls IH]; intros Hls; [done|]. destruct (sequential_cons p ls Hls) as (Hne & Hi & Hs & Hls' & _).
  change (positions (p :: ls)) with (list_positions p ++ positions ls). rewrite filter_app, IH, filter_cons by done.
  destruct (decide (start <= ie_end (entry_of v p))) as [Hd|Hd]; [symmetry; apply filter_app|].
  rewrite no_positions; [done|]. intros x Hx [Hlo _]. apply Hd. apply elem_of_list_positions in Hx.
  pose proof (last_end p v _ Hne Hi Hs Hx). lia.
Qed.

Lemma sorted_lookup l i j x y : StronglySorted Z.lt l -> l !! i = Some x -> l !! j = Some y -> (i < j)%nat -> x < y.
Proof.
  intros Hs. revert i j. induction Hs as [|z l Hs IH Hz]; intros [|i] [|j] Hi Hj Hij; try done; try lia.
  - injection Hi as <-. rewrite Forall_forall in Hz. apply Hz. by eapply list_elem_of_lookup_2.
  - apply (IH i j Hi Hj). lia.
Qed.

(** Once an edge is past the range, all later ones are. *)
Lemma past_range start endt p ls k e :
  sequential (p :: ls) -> edges_ p.2 !! k = Some e -> endt <= tm_ e ->
  filter (in_range start endt) (drop k (list_positions p) ++ positions ls) = [].
Proof.
  intros Hls Hk He. destruct (sequential_cons p ls Hls) as (_ & _ & Hs & _ & Hlt). apply no_positions.
  intros x [Hx|Hx]%elem_of_app [_ Hhi].
  - apply list_elem_of_lookup in Hx as [i Hi]. rewrite lookup_drop in Hi. unfold list_positions in Hi.
    rewrite list_lookup_imap in Hi. destruct (edges_ p.2 !! (k + i)%nat) as [e'|] eqn:Ei; [|done]. injection Hi as <-. cbn in Hhi.
    destruct i as [|i].
    + rewrite Nat.add_0_r, Hk in Ei. injection Ei as <-. lia.
    + pose proof (sorted_lookup (tm_ <$> edges_ p.2) k (k + S i) (tm_ e) (tm_ e') Hs) as Hlt'.
      rewrite !list_lookup_fmap, Hk, Ei in Hlt'. specialize (Hlt' eq_refl eq_refl ltac:(lia)). lia.
  - apply elem_of_positions in Hx. specialize (Hlt (tm_ e) (tm_ x.2)). apply Hlt in Hx; [lia|].
    apply list_elem_of_fmap_2. by eapply list_elem_of_lookup_2.
Qed.

Lemma first_from_ok start es i :
  Forall instant (tm_ <$> es) -> instant start -> (exists e, e ∈ es /\ start <= tm_ e) ->
  exists k e, first_from start es i = (i + k)%nat /\ es !! k = Some e /\ start <= tm_ e /\
    forall j e', (j < k)%nat -> es !! j = Some e' -> tm_ e' < start.
Proof.
  intros Hi Hst (e0 & He0 & Hge). revert i. induction es as [|e es IH]; intros i; [by apply elem_of_nil in He0|].
  apply Forall_cons in Hi as [Hie Hi]. cbn [first_from]. rewrite instant_dleb by done.
  destruct (Z.leb_spec start (tm_ e)) as [Hle|Hgt].
  - exists 0%nat, e. split_and!; [lia|done|done|]. intros j e' Hj. lia.
  - destruct (IH Hi) with (i := S i) as (k & e1 & E & Hk & Hs & Hb).
    { apply elem_of_cons in He0 as [->|He0]; [lia|done]. }
    exists (S k), e1. split_and!; [lia|done|done|]. intros [|j] e' Hj Hj'; [injection Hj' as <-; lia|].
    apply (Hb j e'); [lia|done].
Qed.

Lemma drop_positions p k e :
  edges_ p.2 !! k = Some e -> drop k (list_positions p) = (p.1, k, e) :: drop (S k) (list_positions p).
Proof.
  intros Hk. apply drop_S. unfold list_positions. by rewrite list_lookup_imap, Hk.
Qed.

(** The positions before the first edge of the range are outside. *)
Lemma skip_positions start endt p ls k :
  (forall j e, (j < k)%nat -> edges_ p.2 !! j = Some e -> tm_ e < start) ->
  filter (in_range start endt) (positions (p :: ls)) =
    filter (in_range start endt) (drop k (list_positions p) ++ positions ls).
Proof.
  intros Hb. change (positions (p :: ls)) with (list_positions p ++ positions ls).
  rewrite <- (take_drop k (list_positions p)) at 1. rewrite !filter_app.
  rewrite (no_positions start endt (take k (list_positions p))); [done|].
  intros x [j Hj]%list_elem_of_lookup [Hlo _]. apply lookup_take_Some in Hj as [Hj Hjk]. unfold list_positions in Hj.
  rewrite list_lookup_imap in Hj. destruct (edges_ p.2 !! j) as [e|] eqn:E; [|done]. injection Hj as <-. cbn in Hlo.
  specialize (Hb j e Hjk E). lia.
Qed.

(** ** What the iterator reads *)

Lemma derived_find F b b' v nl :
  derived F b b' -> assoc_find v (neigs_ b) = Some nl ->
  exists nl', assoc_find v (neigs_ b') = Some nl' /\ derived_list F (v, nl') (v, nl).
Proof.
  unfold derived. induction 1 as [|[h' nl'] [h nl0] ns' ns Hp Hns IH]; [done|]. pose proof Hp as [Eh _]. cbn in Eh. subst h'.
  cbn [assoc_find]. case_decide as Hd; [|by apply IH]. intros [= ->]. subst h. by exists nl'.
Qed.

(** The attributes of a schema have one name for each position. *)
Lemma index_name s a a' i : schema_ok s -> nameToIndex_ s !! a = Some i -> nameToIndex_ s !! a' = Some i -> a = a'.
Proof.
  intros Hok Ha Ha'. destruct (names_sound _ Hok _ _ Ha) as (j & x & -> & Hj & <-).
  destruct (names_sound _ Hok _ _ Ha') as (j' & x' & E & Hj' & <-). apply Nat2Z.inj in E as <-. congruence.
Qed.

Lemma covers_query s part names :
  schema_ok s -> covers s part -> names_of_schema s names -> forall a, a ∈ names -> exists attrs, attrs ∈ part /\ a ∈ attrs.
Proof.
  intros Hok [_ Hcov] Hn a Ha. unfold names_of_schema in Hn. rewrite Forall_forall in Hn. destruct (Hn a Ha) as [i Hi].
  destruct (Hcov i) as (attrs & Hin & a' & Ha' & Hi').
  - apply newAttributeData_keys. destruct (names_sound _ Hok _ _ Hi) as (j & x & -> & Hj & _). exists x.
    split; [by eapply list_elem_of_lookup_2|]. by apply (Schema.index_ok _ Hok).
  - exists attrs. split; [done|]. by rewrite (index_name s a a' i).
Qed.

(** The set of the names of a query. *)
Definition name_set (names : list string) : list string := foldl (fun s x => set_insert x s) [] names.

Lemma name_set_ok names : NoDup (name_set names) /\ forall x, x ∈ name_set names <-> x ∈ names.
Proof.
  unfold name_set. assert (forall acc, NoDup acc -> NoDup (foldl (fun s x => set_insert x s) acc names) /\
    forall x, x ∈ foldl (fun s x => set_insert x s) acc names <-> x ∈ acc \/ x ∈ names) as Hg.
  { induction names as [|y names IH]; intros acc Hnd; cbn [foldl].
    - split; [done|]. intros x. rewrite elem_of_nil. tauto.
    - destruct (IH (set_insert y acc)) as [H1 H2].
      + unfold set_insert. case_decide; [done|]. apply NoDup_app. split_and!; [done| |apply NoDup_singleton].
        intros z Hz ->%list_elem_of_singleton. done.
      + split; [done|]. intros x. rewrite H2, elem_of_set_insert, elem_of_cons. tauto. }
  destruct (Hg [] (NoDup_nil_2)) as [H1 H2]. split; [done|]. intros x. rewrite H2, elem_of_nil. tauto.
Qed.

Lemma tiles_starts_num from to sl :
  num from -> tiles from to sl -> Forall (fun t => instant (endTime_ t)) sl -> Forall (fun t => num (startTime_ t)) sl.
Proof.
  intros Hf Ht He. revert from Hf Ht. induction He as [|t sl Het He IH]; intros from Hf Ht; [constructor|].
  destruct Ht as (<- & _ & Ht). constructor; [done|]. apply (IH (endTime_ t)); [by apply instant_num|done].
Qed.

(** Not before and not after a slice is inside. *)
Lemma in_slice_cases sl t time :
  tiling sl -> t ∈ sl -> num time ->
  dltb time (startTime_ t) || dleb (endTime_ t) time = negb (in_slice time t).
Proof.
  intros [Ht _ He] Hin Htime. assert (num dninf) as Hn by by vm_compute.
  pose proof (tiles_starts_num _ _ _ Hn Ht He) as Hs.
  rewrite Forall_forall in Hs, He. specialize (Hs t Hin). specialize (He t Hin). apply instant_num in He.
  unfold in_slice. rewrite !dltb_num, !dleb_num by done. zb; lia.
Qed.

(** The client of an edge iterator: [while (it.isValid()) { it.getEdge();
    it.getEdgeData(); it.next(); }]. *)
Fixpoint ei_collect {D} `{LevelDB D} (order : nat -> list nat) (stats : SchemaStats) (fuel : nat) (it : EdgeIterator)
  (st : Store D) : outcome (list (NLEdge * AttributeData) * Store D) :=
  match fuel with
  | O => Undefined
  | S fuel =>
      v ← ei_isValid it;
      if v : bool then
        '(e, st) ← getEdge it st;
        '(d, st) ← getEdgeData it st;
        '(it, st) ← ei_next order stats it st;
        '(rest, st) ← ei_collect order stats fuel it st;
        Ret ((e, d) :: rest, st)
      else Ret ([], st)
  end.

Section Iteration.
Context (s : Schema) (Hdef : defined_schema s) (sl : list TimeSlicedPartitioning) (Htile : tiling sl).
Context (Hparts : parts_ok s sl).
Context {D : Type} `{LevelDB D, !LevelDBOk D}.
Context (order : nat -> list nat) (Horder : forall n, order n ≡ₚ seq 0 n) (stats : SchemaStats).
Context (Hmeasured : Forall (fun t => measured_parts s stats (partitioning_ t)) sl).
Context (A : gmap Z Block) (hist : list (BlockId * Block)).
Context (Hblocks : Forall (fun ib => holds_block s sl A ib.1 ib.2 /\ heads_ok ib.2) hist).
Context (v : VertexId) (start endt : Timestamp) (Hstart : instant start) (Hend : instant endt).
Context (names : list string) (Hnames : names_of_schema s names).

(** The partitions chosen have all attributes of the query. *)
Definition enough (tp : TimeSlicedPartitioning) (indices : list nat) : Prop :=
  tp ∈ sl /\ Forall (fun i => i < length (partitioning_ tp))%nat indices /\
  forall a, a ∈ names -> exists i part, i ∈ indices /\ partitioning_ tp !! i = Some part /\ a ∈ part.

Lemma read_block id b (st : Store D) :
  (id, b) ∈ hist -> rep s sl st A ->
  exists m st' mn mx tp, getBlock id st = Ret (m, st') /\ rep s sl st' A /\ well_stored s sl b /\
    derived (fun _ => no_data s) b m /\ partition_ m = Some (-1) /\
    findMinMaxTimestamps b = Ret (mn, mx) /\ tp ∈ sl /\ in_slice (midpoint mn mx) tp = true /\
    length (subBlocks_ m) = length (partitioning_ tp) /\
    forall i attrs, partitioning_ tp !! i = Some attrs -> exists sid sub, subBlocks_ m !! i = Some sid /\
      A !! sid = Some sub /\ content sub = mapped_content (fun x => projected s attrs (cell (data_ x.2))) b.
Proof.
  intros Hin Hrep. rewrite Forall_forall in Hblocks. destruct (Hblocks _ Hin) as [[Hb (m0 & mn & mx & tp & Hm & Hp & Hc & Hmm & Htp & Hsl & Hlen & Hsubs)] _].
  cbn [fst snd] in *. destruct (getBlock_ok s Hdef sl st A id m0 Hrep Hm) as (m & st' & E & (_ & Hp' & Hs' & Hc') & Hrep' & _).
  exists m, st', mn, mx, tp. rewrite Hp', Hs'. split_and!; try done. apply content_derived. by rewrite Hc'.
Qed.

Lemma same_minmax id b b' : (id, b) ∈ hist -> (id, b') ∈ hist -> findMinMaxTimestamps b = findMinMaxTimestamps b'.
Proof.
  clear Hnames Hstart Hend Hmeasured Horder. intros Hb Hb'. rewrite Forall_forall in Hblocks.
  destruct (Hblocks _ Hb) as [[_ (m & ? & ? & ? & Hm & _ & Hc & _)] _].
  destruct (Hblocks _ Hb') as [[_ (m' & ? & ? & ? & Hm' & _ & Hc' & _)] _]. cbn in *. rewrite Hm in Hm'. injection Hm' as <-.
  by rewrite <- (derived_minmax _ _ _ (proj1 (content_derived _ _ _) Hc)), (derived_minmax _ _ _ (proj1 (content_derived _ _ _) Hc')).
Qed.

Lemma recompute_enough tp :
  tp ∈ sl -> exists indices, recomputePartitionIndices s stats (partitioning_ tp) (name_set names)
    (order (length (partitioning_ tp))) = Ret indices /\ enough tp indices.
Proof.
  intros Htp. destruct (name_set_ok names) as [Hnd Hel]. destruct (parts_ok_in s sl Hparts tp Htp) as (Hcov & _ & _).
  rewrite Forall_forall in Hmeasured.
  destruct (recompute_ok s stats (partitioning_ tp) (name_set names) Hnd (Hmeasured tp Htp) (order (length (partitioning_ tp))))
    as (idx & E & _ & Hlt & Hc); [|done|].
  - intros a Ha%Hel. by apply (covers_query s (partitioning_ tp) names (proj1 Hdef) Hcov Hnames).
  - exists idx. split; [done|]. split_and!; [done|done|]. intros a Ha. apply Hc. by apply Hel.
Qed.

Lemma renew_ok time it (st : Store D) :
  instant time -> time < dinf -> time ∉ endTime_ <$> sl -> queryAttributes_ it = name_set names -> rep s sl st A ->
  exists tp indices st', renew_partitioning order stats time it st =
      Ret (mkEdgeIterator (done_ it) (currentEdgeIndex_ it) (currentNumEdges_ it) tp indices (ei_it_ it) (queryAttributes_ it), st') /\
    rep s sl st' A /\ in_slice time tp = true /\ enough tp indices.
Proof.
  intros Hi Hlt Hno Hq Hrep. destruct (rep_index _ _ _ _ Hrep) as [Hidx Hrem]. unfold renew_partitioning.
  destruct (getTimeSlicedPartitioning_ok _ _ _ Hidx Hi Hlt Hno) as (tp & p & E & Htp & Hin & Hidx' & _). rewrite E.
  cbn [mbind outcome_bind]. rewrite (rep_schema _ _ _ _ Hrep), Hq.
  destruct (recompute_enough tp Htp) as (indices & -> & Hen). cbn [mbind outcome_bind].
  eexists tp, indices, _. split; [reflexivity|]. split; [|done].
  apply rep_index_step; [done..|]. destruct (getTimeSlicedPartitioning_frame _ _ _ _ E) as [-> _]. done.
Qed.

(** *** The lists to come *)

(** The index iterator stands at the first of the lists [ls] of the vertex. *)
Record following (i : Iterator) (ls : list (BlockId * NeighborList)) : Prop := {
  fo_standing : exists others, standing i v start endt ((entry_of v <$> ls) ++ others) /\
    Forall (fun e => ie_vertex e <> v) others /\ Forall entry_ok ((entry_of v <$> ls) ++ others);
  fo_lists : Forall (fun p => exists b, (p.1, b) ∈ hist /\ assoc_find v (neigs_ b) = Some p.2) ls;
  fo_order : sequential ls;
  fo_ends : Forall (fun p => start <= ie_end (entry_of v p)) ls
}.

Lemma following_valid i ls :
  following i ls -> isValid i = Ret (match ls with [] => false | p :: _ => ie_start (entry_of v p) <? endt end).
Proof.
  intros [(others & Hst & Ho & Hok) _ Hseq _]. destruct ls as [|p ls].
  - destruct others as [|o others]; [destruct Hst as (_ & _ & _ & E & _); unfold isValid; by rewrite E|].
    cbn in Hst. rewrite (standing_valid _ _ _ _ _ _ Hst). apply Forall_cons in Ho as [Ho _].
    by rewrite (proj2 (Z.eqb_neq _ _) Ho).
  - cbn in Hst. rewrite (standing_valid _ _ _ _ _ _ Hst). rewrite Z.eqb_refl.
    destruct (sequential_cons p ls Hseq) as (Hne & Hi & _). rewrite Forall_forall in Hi.
    by rewrite instant_dltb by (done || apply Hi; by apply (ends_elem p v)).
Qed.

Lemma following_next i p ls :
  following i (p :: ls) -> ie_start (entry_of v p) < endt -> exists i', next i = Ret i' /\ following i' ls.
Proof.
  intros Hf Hlt. pose proof (following_valid _ _ Hf) as Hval. destruct Hf as [(others & Hst & Ho & Hok) Hl Hseq He].
  destruct (sequential_cons p ls Hseq) as (_ & _ & _ & Hseq' & _).
  apply Forall_cons in Hl as [_ Hl], He as [_ He]. cbn in Hst, Hok. apply Forall_cons in Hok as [_ Hok].
  rewrite (standing_valid _ _ _ _ _ _ Hst), (proj2 (Z.ltb_lt _ _) Hlt) in Hval. injection Hval as Hval.
  destruct (next_standing _ _ _ _ _ _ Hst Hval Hok) as (i' & E & Hst').
  exists i'. split; [done|]. split; [by exists others|done..].
Qed.

(** Reading the list the index iterator stands at. *)
Lemma read_current i p ls (st : Store D) :
  following i (p :: ls) -> rep s sl st A ->
  exists m nl' st' b mn mx tp, get_current_block i st = Ret (m, st') /\ current_list i m = Ret nl' /\ rep s sl st' A /\
    derived_list (fun _ => no_data s) (v, nl') (v, p.2) /\
    (p.1, b) ∈ hist /\ assoc_find v (neigs_ b) = Some p.2 /\ well_stored s sl b /\ derived (fun _ => no_data s) b m /\
    partition_ m = Some (-1) /\ findMinMaxTimestamps b = Ret (mn, mx) /\ tp ∈ sl /\ in_slice (midpoint mn mx) tp = true /\
    length (subBlocks_ m) = length (partitioning_ tp) /\
    forall j attrs, partitioning_ tp !! j = Some attrs -> exists sid sub, subBlocks_ m !! j = Some sid /\
      A !! sid = Some sub /\ content sub = mapped_content (fun x => projected s attrs (cell (data_ x.2))) b.
Proof.
  intros [(others & Hst & _ & _) Hl _ _] Hrep. apply Forall_cons in Hl as [(b & Hb & Hnl) _].
  destruct (read_block p.1 b st Hb Hrep) as (m & st' & mn & mx & tp & E & Hrep' & Hws & Hd & Hp & Hmm & Htp & Hin & Hlen & Hsub).
  destruct (derived_find _ b m v p.2 Hd Hnl) as (nl' & Hnl' & Hdl).
  destruct Hst as (_ & _ & _ & _ & Hcur). cbn in Hcur. specialize (Hcur _ _ eq_refl).
  exists m, nl', st', b, mn, mx, tp. unfold get_current_block, current_list. rewrite Hcur.
  cbn [or_undefined mbind outcome_bind currentBlock_ currentVertex_ to_currents entry_of ie_block ie_vertex].
  rewrite Hnl'. split_and!; try done.
Qed.

(** *** The edges to come *)

(** The iterator stands at the edge [k] of the list [p], before the lists
    [ls]. *)
Record at_edge (it : EdgeIterator) (p : BlockId * NeighborList) (k : nat) (ls : list (BlockId * NeighborList)) : Prop := {
  ae_done : done_ it = false;
  ae_index : currentEdgeIndex_ it = k;
  ae_count : currentNumEdges_ it = length (edges_ p.2);
  ae_query : queryAttributes_ it = name_set names;
  ae_follow : following (ei_it_ it) (p :: ls);
  ae_valid : ie_start (entry_of v p) < endt;
  ae_parts : exists b mn mx, (p.1, b) ∈ hist /\ assoc_find v (neigs_ b) = Some p.2 /\
    findMinMaxTimestamps b = Ret (mn, mx) /\ in_slice (midpoint mn mx) (ei_partitioning_ it) = true /\
    enough (ei_partitioning_ it) (partitionIndices_ it)
}.

(** The iterator will give the edges [l]. *)
Definition produces (it : EdgeIterator) (l : list Position) : Prop :=
  match l with
  | [] => ei_isValid it = Ret false
  | (id, k, e) :: l => exists nl ls, at_edge it (id, nl) k ls /\ edges_ nl !! k = Some e /\ in_range start endt (id, k, e) /\
      l = filter (in_range start endt) (drop (S k) (list_positions (id, nl)) ++ positions ls)
  end.

Definition prior (it : EdgeIterator) : Prop :=
  done_ it = false /\ queryAttributes_ it = name_set names /\
  (partitionIndices_ it = [] \/ enough (ei_partitioning_ it) (partitionIndices_ it)).

(** The partitioning after the first half of [initFromBlock]. *)
Lemma partitioning_ok it time (st : Store D) :
  prior it -> instant time -> time < dinf -> time ∉ endTime_ <$> sl -> rep s sl st A ->
  exists tp indices st', (match partitionIndices_ it with
     | [] => renew_partitioning order stats time it st
     | _ =>
         if dltb time (startTime_ (ei_partitioning_ it)) || dleb (endTime_ (ei_partitioning_ it)) time
         then renew_partitioning order stats time it st
         else Ret (it, st)
     end) = Ret (mkEdgeIterator (done_ it) (currentEdgeIndex_ it) (currentNumEdges_ it) tp indices (ei_it_ it) (queryAttributes_ it), st') /\
    rep s sl st' A /\ in_slice time tp = true /\ enough tp indices.
Proof.
  intros (_ & Hq & Hpr) Hi Hlt Hno Hrep.
  destruct (renew_ok time it st Hi Hlt Hno Hq Hrep) as (tp & indices & st' & E & Hrest).
  destruct (partitionIndices_ it) as [|x l] eqn:Ep; [by exists tp, indices, st'|].
  destruct Hpr as [|Hen]; [done|]. rewrite (in_slice_cases sl _ time Htile (proj1 Hen) (instant_num _ Hi)).
  destruct (in_slice time (ei_partitioning_ it)) eqn:Ein; cbn [negb]; [|by exists tp, indices, st'].
  exists (ei_partitioning_ it), (x :: l), st. split; [|done]. rewrite <- Ep. by destruct it.
Qed.

Lemma first_from_times es es' i : tm_ <$> es = tm_ <$> es' -> first_from start es i = first_from start es' i.
Proof.
  revert es' i. induction es as [|e es IH]; intros [|e' es'] i Ht; try done. cbn in Ht. injection Ht as Et Ht.
  cbn [first_from]. rewrite Et. by rewrite (IH es').
Qed.

Lemma edge_valid it b : isValid (ei_it_ it) = Ret b -> ei_isValid it = Ret (b && negb (done_ it)).
Proof. intros E. unfold ei_isValid. by rewrite E. Qed.

(** The iterator stands at the edge [k] or past the range. *)
Lemma stand_or_stop it p k ls e :
  following (ei_it_ it) (p :: ls) -> ie_start (entry_of v p) < endt -> edges_ p.2 !! k = Some e -> start <= tm_ e ->
  (endt <= tm_ e -> done_ it = true) -> (tm_ e < endt -> at_edge it p k ls) ->
  produces it (filter (in_range start endt) (drop k (list_positions p) ++ positions ls)).
Proof.
  intros Hf Hlt Hk Hlo Hstop Hstand. destruct (Z.lt_ge_cases (tm_ e) endt) as [Hin|Hout].
  - rewrite (drop_positions p k e Hk). cbn [app]. rewrite filter_cons, decide_True by done.
    destruct p as [id nl]. exists nl, ls. split; [by apply Hstand|done].
  - rewrite (past_range start endt p ls k e) by (done || apply (fo_order _ _ Hf)). cbn.
    rewrite (edge_valid _ _ (following_valid _ _ Hf)), Hstop by done. by rewrite andb_false_r.
Qed.

Lemma init_ok it p ls (st : Store D) :
  prior it -> following (ei_it_ it) (p :: ls) -> ie_start (entry_of v p) < endt -> rep s sl st A ->
  exists it' st', initFromBlock order stats it st = Ret (it', st') /\ rep s sl st' A /\
    produces it' (filter (in_range start endt) (positions (p :: ls))).
Proof.
  intros Hpr Hf Hlt Hrep. unfold initFromBlock.
  destruct (read_current (ei_it_ it) p ls st Hf Hrep) as (m & nl' & st1 & b & mn & mx & tp & E1 & E2 & Hrep1 & Hdl & Hb & Hnl &
    Hws & Hd & _ & Hmm & _ & _ & _).
  rewrite E1. cbn [mbind outcome_bind]. destruct (ws_mid _ _ _ Hws) as (mn' & mx' & Hmm' & Hi & Htl & Hno).
  rewrite Hmm in Hmm'. injection Hmm' as <- <-.
  assert (getPartitioningTimestamp m = Ret (midpoint mn mx)) as ->.
  { unfold getPartitioningTimestamp. by rewrite (derived_minmax _ _ _ Hd), Hmm. }
  cbn [mbind outcome_bind].
  destruct (partitioning_ok it (midpoint mn mx) st1 Hpr Hi Htl Hno Hrep1) as (tp' & indices & st2 & -> & Hrep2 & Hin & Hen).
  cbn [mbind outcome_bind ei_it_]. rewrite E2. cbn [mbind outcome_bind].
  pose proof (derived_times _ _ _ Hdl) as Ht. cbn [snd] in Ht.
  destruct (sequential_cons p ls (fo_order _ _ Hf)) as (Hne & Hti & Hs & _ & _).
  pose proof Hf as [(others & Hst & _) _ _ Hends]. pose proof Hst as (_ & Es & Ee & _). rewrite Es, Ee.
  destruct (first_from_ok start (edges_ p.2) 0 Hti Hstart) as (k & e & Ek & Hk & Hlo & Hbefore).
  { apply Forall_cons in Hends as [He _]. pose proof (proj2 (ends_elem p v Hne)) as (e & Ee' & Hine)%list_elem_of_fmap.
    exists e. split; [done|]. lia. }
  rewrite (first_from_times (edges_ nl') (edges_ p.2) 0 Ht), Ek. cbn [Nat.add].
  pose proof (derived_edge _ _ _ k Hdl) as Hek. cbn [snd] in Hek. rewrite Hk in Hek.
  destruct (edges_ nl' !! k) as [e'|] eqn:Ek'; [|done]. destruct Hek as (_ & Etm & _).
  assert (length (edges_ nl') = length (edges_ p.2)) as El by (apply (derived_length _ _ _ Hdl)).
  pose proof (lookup_lt_Some _ _ _ Hk) as Hkl. rewrite El, (proj2 (Nat.ltb_lt _ _) Hkl). cbn [cassert mbind outcome_bind].
  unfold getNthOldestEdge. rewrite Ek'. cbn [or_undefined mbind outcome_bind]. rewrite Etm.
  assert (instant (tm_ e)) as Hie.
  { rewrite Forall_forall in Hti. apply Hti, list_elem_of_fmap_2. by eapply list_elem_of_lookup_2. }
  rewrite instant_dleb by done. destruct Hpr as (Hdone & Hq & _).
  eexists _, st2. split; [reflexivity|]. split; [done|]. rewrite (skip_positions start endt p ls k Hbefore).
  apply (stand_or_stop _ p k ls e); cbn [ei_it_ done_]; try done.
  - intros Hout. by rewrite (proj2 (Z.leb_le _ _) Hout).
  - intros Hino. split; cbn; try done; [by rewrite (proj2 (Z.leb_gt _ _) Hino)|].
    exists b, mn, mx. done.
Qed.

(** Going on with the list the index iterator stands at, if it is valid. *)
Lemma resume_lists it ls (st : Store D) :
  prior it -> following (ei_it_ it) ls -> rep s sl st A ->
  exists it' st', (v ← isValid (ei_it_ it); if v : bool then initFromBlock order stats it st else Ret (it, st)) = Ret (it', st') /\
    rep s sl st' A /\ produces it' (filter (in_range start endt) (positions ls)).
Proof.
  intros Hpr Hf Hrep. pose proof (following_valid _ _ Hf) as Hval. rewrite Hval. cbn [mbind outcome_bind].
  destruct ls as [|p ls].
  - exists it, st. split_and!; [done..|]. cbn. by rewrite (edge_valid _ _ Hval).
  - destruct (Z.ltb_spec (ie_start (entry_of v p)) endt) as [Hlt|Hge]; [by apply init_ok|].
    exists it, st. split_and!; [done..|]. destruct (sequential_cons p ls (fo_order _ _ Hf)) as (Hne & _).
    destruct (edges_ p.2) as [|e es] eqn:Ee; [done|].
    assert (ie_start (entry_of v p) = tm_ e) as Et by (unfold entry_of; cbn; by rewrite Ee). rewrite Et in Hge.
    change (positions (p :: ls)) with (drop 0 (list_positions p) ++ positions ls).
    rewrite (past_range start endt p ls 0 e); [|apply (fo_order _ _ Hf)|by rewrite Ee|done]. cbn.
    by rewrite (edge_valid _ _ Hval).
Qed.

(** *** The current edge and its data *)

Lemma current_edge it id nl k e ls (st : Store D) :
  at_edge it (id, nl) k ls -> edges_ nl !! k = Some e -> rep s sl st A ->
  exists e' st', getEdge it st = Ret (e', st') /\ rep s sl st' A /\ toVertex_ e' = toVertex_ e /\ tm_ e' = tm_ e.
Proof.
  intros [_ Hk _ _ Hf _ _] He Hrep. unfold getEdge.
  destruct (read_current _ _ _ st Hf Hrep) as (m & nl' & st1 & b & mn & mx & tp & -> & E2 & Hrep1 & Hdl & _).
  cbn [mbind outcome_bind]. rewrite E2. cbn [mbind outcome_bind]. unfold getNthOldestEdge. rewrite Hk.
  pose proof (derived_edge _ _ _ k Hdl) as Hek. cbn [snd] in Hek. rewrite He in Hek.
  destruct (edges_ nl' !! k) as [e'|]; [|done]. exists e', st1. cbn. destruct Hek as (? & ? & _). done.
Qed.

(** The fields of the query found in the partitions read so far. *)
Definition collected (tp : TimeSlicedPartitioning) (d0 orig : AttributeData) (l : list nat) (d : AttributeData) : Prop :=
  well_typed d /\ schema_ d = s /\ (fields_ d).*1 = (fields_ d0).*1 /\
  forall i part a j, i ∈ l -> partitioning_ tp !! i = Some part -> a ∈ part -> nameToIndex_ s !! a = Some j ->
    is_Some (assoc_find j (fields_ d0)) -> assoc_find j (fields_ d) = assoc_find j (fields_ orig).

Lemma collected_step tp d0 orig l d i part :
  complete s orig -> partitioning_ tp !! i = Some part -> names_of_schema s part ->
  collected tp d0 orig l d -> collected tp d0 orig (l ++ [i]) (setAttributes d (projected s part orig)).
Proof.
  intros Hc Hi Hn (Hwt & Hs & Hk & Hl).
  destruct (projected_ok s part orig Hdef Hn Hc) as [_ (Hwp & H1 & H2)].
  destruct (setAttributes_spec d (projected s part orig)) as [Hkeys Hfind]; [apply Hwp|].
  assert (schema_ (projected s part orig) = s) as Hsp.
  { destruct (project_ok s part orig Hdef Hn Hc) as (p & E & _ & Hsp & _). unfold projected. by rewrite E. }
  split; [apply setAttributes_typed; [done|done|by rewrite Hs, Hsp]|]. split; [done|]. split; [congruence|].
  intros i' part' a j Hin Hp Ha Hj Hd0. rewrite Hfind.
  assert (is_Some (assoc_find j (fields_ d))) as [w Hw].
  { apply assoc_find_is_Some. rewrite Hk. by apply assoc_find_is_Some. }
  rewrite Hw. destruct (decide (index_in s part j)) as [Hji|Hji].
  - rewrite (H1 j Hji). destruct Hc as (_ & Hso & Hko).
    assert (is_Some (assoc_find j (fields_ orig))) as [x ->]; [|done].
    apply assoc_find_is_Some. rewrite Hko. apply assoc_find_is_Some, newAttributeData_keys.
    destruct (names_sound _ (proj1 Hdef) _ _ Hj) as (n & y & -> & Hy & _). exists y.
    split; [by eapply list_elem_of_lookup_2|by apply (Schema.index_ok _ (proj1 Hdef))].
  - rewrite (H2 j Hji). cbn. apply elem_of_app in Hin as [Hin|Hin%list_elem_of_singleton].
    + rewrite <- Hw. by apply (Hl i' part' a).
    + subst i'. rewrite Hi in Hp. injection Hp as <-. destruct Hji. by exists a.
Qed.

Lemma collected_all tp d0 orig l d :
  enough tp l -> (forall i, is_Some (assoc_find i (fields_ d0)) <-> index_in s names i) ->
  collected tp d0 orig l d -> is_part s names orig d.
Proof.
  intros (_ & _ & Hen) Hd0 (Hwt & _ & Hk & Hl). split; [done|]. split.
  - intros j (a & Ha & Hj). destruct (Hen a Ha) as (i & part & Hi & Hp & Hin).
    apply (Hl i part a j); try done. apply Hd0. by exists a.
  - intros j Hj. apply assoc_find_None. rewrite Hk. intros Hin. apply Hj, Hd0. by apply assoc_find_is_Some.
Qed.

Lemma current_data it id nl k e ls (st : Store D) :
  at_edge it (id, nl) k ls -> edges_ nl !! k = Some e -> rep s sl st A ->
  exists d st', getEdgeData it st = Ret (d, st') /\ rep s sl st' A /\ is_part s names (cell (data_ e)) d.
Proof.
  intros [_ Hk _ Hq Hf _ (b0 & mn0 & mx0 & Hb0 & Hnl0 & Hmm0 & Hin0 & Hen)] He Hrep. unfold getEdgeData.
  rewrite (rep_schema _ _ _ _ Hrep), Hq. destruct (name_set_ok names) as [_ Hset].
  assert (names_of_schema s (name_set names)) as Hns.
  { unfold names_of_schema in *. rewrite Forall_forall in *. intros x Hx. apply Hnames. by apply Hset. }
  destruct (newAttributeData_of_ok s (name_set names) Hdef Hns) as (d0 & -> & Hwt0 & Hs0 & Hd0). cbn [mbind outcome_bind].
  destruct (read_current _ _ _ st Hf Hrep) as (m & nl' & st1 & b & mn & mx & tp & E1 & E2 & Hrep1 & _ & Hb & Hnl & Hws & Hd & Hp &
    Hmm & Htp & Hin & Hlen & Hsubs).
  cbn [fst snd] in *. rewrite E1. cbn [mbind outcome_bind]. rewrite Hp. cbn [or_undefined mbind outcome_bind cassert Z.eqb].
  rewrite (same_minmax id b0 b Hb0 Hb), Hmm in Hmm0. injection Hmm0 as <- <-.
  assert (tp = ei_partitioning_ it) as Etp by (apply (slice_unique sl (midpoint mn mx)); [apply Htile|done|apply Hen|done|done]).
  subst tp.
  destruct (parts_ok_in s sl Hparts _ Htp) as ([Hcn _] & Hne & _).
  rewrite bool_decide_eq_false_2.
  2: { intros E. rewrite E in Hlen. by destruct (partitioning_ (ei_partitioning_ it)). }
  cbn [negb mbind outcome_bind cassert].
  assert ((v, k, e) ∈ edges_of b) as Hedge.
  { apply elem_of_edges_of. exists nl. split; [|done]. by apply assoc_find_Some. }
  pose proof (bw_data _ _ (ws_wf _ _ _ Hws) _ Hedge) as Hcomp. cbn [snd] in Hcomp.
  edestruct (foldM_total (fun l (r : AttributeData * Store D) => rep s sl r.2 A /\
    collected (ei_partitioning_ it) d0 (cell (data_ e)) l r.1)) as ([d st'] & -> & Hrep' & Hcol).
  3: { exists d, st'. split; [done|]. split; [done|]. eapply collected_all; [exact Hen| |exact Hcol].
       intros i. rewrite Hd0. unfold index_in. setoid_rewrite Hset. done. }
  { split; [done|]. split; [done|]. split; [done|]. split; [done|]. intros i part a j []%elem_of_nil. }
  intros l i rest [d st2] El [Hrep2 Hcol]. cbn [fst snd] in *.
  assert (i < length (partitioning_ (ei_partitioning_ it)))%nat as Hi.
  { destruct Hen as (_ & Hlt & _). rewrite Forall_forall in Hlt. apply Hlt. rewrite El. set_solver. }
  rewrite Hlen, (proj2 (Nat.ltb_lt _ _) Hi). cbn [cassert mbind outcome_bind].
  destruct (lookup_lt_is_Some_2 _ _ Hi) as [part Hpart].
  destruct (Hsubs i part Hpart) as (sid & sub & Hsid & Hsub & Hc). rewrite Hsid. cbn [or_undefined mbind outcome_bind].
  destruct (getBlock_ok s Hdef sl st2 A sid sub Hrep2 Hsub) as (sub' & st3 & -> & (_ & _ & _ & Hc') & Hrep3 & _).
  cbn [mbind outcome_bind]. rewrite <- Hc' in Hc. pose proof (proj1 (content_derived _ _ _) Hc) as Hds.
  destruct (derived_find _ b sub' v nl Hds Hnl) as (nl2 & Hnl2 & Hdl2).
  destruct Hf as [(others & (_ & _ & _ & _ & Hcur) & _) _ _ _]. cbn in Hcur. specialize (Hcur _ _ eq_refl).
  unfold current_list. rewrite Hcur. cbn [or_undefined mbind outcome_bind currentVertex_ to_currents entry_of ie_vertex].
  rewrite Hnl2. cbn [or_undefined mbind outcome_bind]. unfold getNthOldestEdge. rewrite Hk.
  pose proof (derived_edge _ _ _ k Hdl2) as Hek. cbn [snd] in Hek. rewrite He in Hek.
  destruct (edges_ nl2 !! k) as [e2|]; [|done]. cbn [or_undefined mbind outcome_bind]. destruct Hek as (_ & _ & ->).
  eexists. split; [reflexivity|]. split; [done|]. cbn [fst snd]. apply collected_step; try done.
  rewrite Forall_lookup in Hcn. by eapply Hcn.
Qed.

(** *** Moving on *)

Lemma ei_next_ok it x l (st : Store D) :
  produces it (x :: l) -> rep s sl st A ->
  exists it' st', ei_next order stats it st = Ret (it', st') /\ rep s sl st' A /\ produces it' l.
Proof.
  intros Hp Hrep. destruct x as [[id k] e]. destruct Hp as (nl & ls & Hat & Hk & [Hlo _] & ->). cbn in Hlo.
  pose proof Hat as [Hdone Hidx Hcnt Hq Hf Hlt (b0 & mn & mx & Hb0 & Hnl0 & Hmm0 & Hin0 & Hen)]. cbn [fst snd] in *.
  unfold ei_next. rewrite (edge_valid _ _ (following_valid _ _ Hf)), (proj2 (Z.ltb_lt _ _) Hlt), Hdone.
  cbn [andb negb cassert mbind outcome_bind currentEdgeIndex_ currentNumEdges_ ei_it_]. rewrite Hidx, Hcnt.
  destruct (Nat.ltb_spec (S k) (length (edges_ nl))) as [Hkl|Hkl].
  - destruct (read_current _ _ _ st Hf Hrep) as (m & nl' & st1 & b & mn1 & mx1 & tp & -> & E2 & Hrep1 & Hdl & _).
    cbn [mbind outcome_bind]. rewrite E2. cbn [mbind outcome_bind fst snd] in *. unfold getNthOldestEdge.
    destruct (lookup_lt_is_Some_2 _ _ Hkl) as [e1 He1]. pose proof (derived_edge _ _ _ (S k) Hdl) as Hek. cbn [snd] in Hek.
    rewrite He1 in Hek. destruct (edges_ nl' !! S k) as [e'|]; [|done]. destruct Hek as (_ & Etm & _).
    cbn [or_undefined mbind outcome_bind]. rewrite Etm. destruct (sequential_cons _ _ (fo_order _ _ Hf)) as (_ & Hti & Hs & _ & _).
    cbn [snd] in *. rewrite Forall_forall in Hti.
    assert (instant (tm_ e1)) as Hi1 by (apply Hti, list_elem_of_fmap_2; by eapply list_elem_of_lookup_2).
    pose proof Hf as [(others & (_ & _ & Ee & _) & _) _ _ _]. rewrite Ee, instant_dleb by done.
    eexists _, st1. split; [reflexivity|]. split; [done|].
    apply (stand_or_stop _ (id, nl) (S k) ls e1); [by destruct (_ <=? _)|done|done| | |].
    + pose proof (sorted_lookup (tm_ <$> edges_ nl) k (S k) (tm_ e) (tm_ e1) Hs) as Hle.
      rewrite !list_lookup_fmap, Hk, He1 in Hle. specialize (Hle eq_refl eq_refl ltac:(lia)). lia.
    + intros Hout. by rewrite (proj2 (Z.leb_le _ _) Hout).
    + intros Hin. rewrite (proj2 (Z.leb_gt _ _) Hin). split; cbn; try done. by exists b0, mn, mx.
  - destruct (following_next _ _ _ Hf Hlt) as (i' & E & Hf'). rewrite E. cbn [mbind outcome_bind].
    rewrite drop_ge by (unfold list_positions; rewrite length_imap; cbn; lia). cbn [app].
    destruct (resume_lists (ei_with_it i' (mkEdgeIterator false (S k) (length (edges_ nl)) (ei_partitioning_ it)
      (partitionIndices_ it) (ei_it_ it) (queryAttributes_ it))) ls st) as (it' & st' & E' & Hrep' & Hpr'); [|done|done|].
    + split; [done|]. split; [done|]. by right.
    + exists it', st'. split; [|done]. exact E'.
Qed.

Lemma newEdgeIterator_ok i ls q (st : Store D) :
  attributeNames_ q = names -> following i ls -> rep s sl st A ->
  exists it st', newEdgeIterator order stats i q st = Ret (it, st') /\ rep s sl st' A /\
    produces it (filter (in_range start endt) (positions ls)).
Proof.
  intros Hq Hf Hrep. unfold newEdgeIterator. rewrite Hq.
  apply (resume_lists (mkEdgeIterator false 0 0 default_slice [] i (name_set names)) ls st); [|done|done].
  split; [done|]. split; [done|]. by left.
Qed.

(** What a client sees of the edge at a position. *)
Definition shows (r : NLEdge * AttributeData) (x : Position) : Prop :=
  toVertex_ r.1 = toVertex_ x.2 /\ tm_ r.1 = tm_ x.2 /\ is_part s names (cell (data_ x.2)) r.2.

Lemma ei_collect_ok l : forall fuel it (st : Store D),
  produces it l -> rep s sl st A -> (length l < fuel)%nat ->
  exists rs st', ei_collect order stats fuel it st = Ret (rs, st') /\ Forall2 shows rs l /\ rep s sl st' A.
Proof.
  induction l as [|[[id k] e] l IH]; intros fuel it st Hp Hrep Hfuel; (destruct fuel as [|fuel]; [lia|]); cbn [ei_collect].
  - rewrite Hp. cbn [mbind outcome_bind]. exists [], st. split_and!; [done|constructor|done].
  - pose proof Hp as (nl & ls & Hat & Hk & _ & _). pose proof Hat as [Hdone _ _ _ Hf Hlt _].
    rewrite (edge_valid _ _ (following_valid _ _ Hf)), (proj2 (Z.ltb_lt _ _) Hlt), Hdone. cbn [andb negb mbind outcome_bind].
    destruct (current_edge it id nl k e ls st Hat Hk Hrep) as (e' & st1 & -> & Hrep1 & Hto & Htm). cbn [mbind outcome_bind].
    destruct (current_data it id nl k e ls st1 Hat Hk Hrep1) as (d & st2 & -> & Hrep2 & Hd). cbn [mbind outcome_bind].
    destruct (ei_next_ok it _ l st2 Hp Hrep2) as (it' & st3 & -> & Hrep3 & Hp'). cbn [mbind outcome_bind].
    destruct (IH fuel it' st3 Hp' Hrep3) as (rs & st4 & -> & Hrs & Hrep4); [cbn in Hfuel; lia|]. cbn [mbind outcome_bind].
    exists ((e', d) :: rs), st4. split_and!; [done|constructor; [done|exact Hrs]|done].
Qed.
End Iteration.

(** ** Properties *)

(** The edges of a vertex in a range of times, in the order of the history. *)
Definition edges_between (v : VertexId) (start endt : Timestamp) (hist : list (BlockId * Block)) : list Position :=
  filter (in_range start endt) (positions (vertex_lists v hist)).

Lemma is_part_names s names names' d p : (forall a, a ∈ names <-> a ∈ names') -> is_part s names d p -> is_part s names' d p.
Proof.
  intros Hn (Hwt & H1 & H2). assert (forall i, index_in s names i <-> index_in s names' i) as Hi.
  { intros i. unfold index_in. by setoid_rewrite Hn. }
  split; [done|]. split; intros i Hx; [apply H1|apply H2]; by rewrite Hi.
Qed.

Lemma history_well_formed s sl {D} `{LevelDB D} {R} `{SpatialIndex R} (g : HistoricalGraph D R) A hist :
  hist_ok s sl g A hist -> Forall (fun ib => heads_ok ib.2 /\ block_ok ib.2) hist.
Proof.
  intros Hg. eapply Forall_impl; [exact (ho_blocks _ _ _ _ _ Hg)|]. intros [id b] [[Hb _] Hh]. split; [done|].
  apply (bw_ok _ _ (ws_wf _ _ _ Hb)).
Qed.

Lemma history_sequential s sl {D} `{LevelDB D} {R} `{SpatialIndex R} (g : HistoricalGraph D R) A hist v :
  hist_ok s sl g A hist -> sequential (vertex_lists v hist).
Proof.
  intros Hg. destruct (ho_order _ _ _ _ _ Hg v) as [Hi Hs]. rewrite vertex_list_times in Hi, Hs. split; [|done].
  apply Forall_forall. intros [id nl] ([id' b] & Hin & E)%list_elem_of_omap. cbn in E.
  destruct (assoc_find v (neigs_ b)) as [nl'|] eqn:Ef; [|done]. injection E as <- <-.
  pose proof (ho_blocks _ _ _ _ _ Hg) as Hb. rewrite Forall_forall in Hb. destruct (Hb _ Hin) as [[Hws _] _].
  destruct (bw_ok _ _ (ws_wf _ _ _ Hws)) as [_ Hne]. rewrite Forall_forall in Hne.
  apply assoc_find_Some in Ef. apply (Hne _ Ef).
Qed.

Lemma lists_located v (hist : list (BlockId * Block)) :
  Forall (fun p => exists b, (p.1, b) ∈ hist /\ assoc_find v (neigs_ b) = Some p.2) (vertex_lists v hist).
Proof.
  apply Forall_forall. intros [id nl] ([id' b] & Hin & E)%list_elem_of_omap. cbn in E.
  destruct (assoc_find v (neigs_ b)) as [nl'|] eqn:Ef; [|done]. injection E as <- <-. by exists b.
Qed.

Lemma query_following s sl {D} `{LevelDB D, !LevelDBOk D} {R} `{SpatialIndex R} (g : HistoricalGraph D R) A hist v start endt :
  hist_ok s sl g A hist -> is_u64 v -> instant start ->
  exists i, FocusedIndex.query (fiqIndex_ g) v start endt = Ret i /\
    following hist v start endt i (filter (fun p => start <= ie_end (entry_of v p)) (vertex_lists v hist)).
Proof.
  intros Hg Hv Hst. pose proof (history_sequential s sl g A hist v Hg) as Hseq.
  destruct (ho_fiq _ _ _ _ _ Hg) as (L & Hix & HL).
  destruct (query_standing (fiqIndex_ g) L v start endt Hix Hv Hst) as (i & E & Hstand & Hok). exists i. split; [done|].
  destruct (from_entry_split L v start _ (ix_sorted _ _ Hix) (indexed_vertex_entries L v hist (ix_sorted _ _ Hix) HL
    (history_well_formed _ _ _ _ _ Hg) Hseq)) as (others & Ef & Ho).
  rewrite filter_fmap in Ef. rewrite Ef in Hstand, Hok. split.
  - by exists others.
  - pose proof (lists_located v hist) as Hl. rewrite Forall_forall in Hl. apply Forall_forall.
    intros p [_ Hp]%list_elem_of_filter. by apply Hl.
  - by apply sequential_filter.
  - apply Forall_forall. intros p [Hp _]%list_elem_of_filter. exact Hp.
Qed.

(** A query starts an iterator over the edges asked for. *)
Lemma focused_query_start {D} `{LevelDB D, !LevelDBOk D} {R} `{SpatialIndex R} (s : Schema)
    (sl : list TimeSlicedPartitioning) (order : nat -> list nat) (stats : SchemaStats) (g : HistoricalGraph D R)
    (A : gmap Z Block) (hist : list (BlockId * Block)) (v : VertexId) (start endt : Timestamp) (names : list string) :
  defined_schema s -> tiling sl -> parts_ok s sl -> (forall n, order n ≡ₚ seq 0 n) ->
  Forall (fun t => measured_parts s stats (partitioning_ t)) sl ->
  hist_ok s sl g A hist -> is_u64 v -> instant start -> instant endt -> names_of_schema s (attributeNames_ (newQuery start endt names)) ->
  exists e g', HistoricalGraph.focusedIntervalQuery order stats (newFocusedIntervalQuery v start endt names) g = Ret (e, g') /\
    hist_ok s sl g' A hist /\
    produces sl hist v start endt (attributeNames_ (newQuery start endt names)) e (edges_between v start endt hist).
Proof.
  intros Hdef Htile Hparts Horder Hm Hg Hv Hst Hen Hnq. set (q := newQuery start endt names) in *.
  destruct (query_following s sl g A hist v start endt Hg Hv Hst) as (i & E & Hf).
  pose proof (ho_rep _ _ _ _ _ Hg) as Hrep. pose proof (ho_blocks _ _ _ _ _ Hg) as Hb.
  destruct (newEdgeIterator_ok s Hdef sl Htile Hparts order Horder stats Hm A hist Hb v start endt Hst Hen
    (attributeNames_ q) Hnq i _ q (hg_store_ g) eq_refl Hf Hrep) as (e & st & E1 & Hrep1 & Hp).
  unfold focusedIntervalQuery, newFocusedIntervalQuery. cbn [fiq_headVertex fiq_query]. fold q.
  change (q_start_ q) with start. change (q_end_ q) with endt. rewrite E.
  cbn [mbind outcome_bind]. rewrite E1. cbn [mbind outcome_bind].
  eexists e, _. split; [reflexivity|]. split; [by destruct Hg; split|]. unfold edges_between.
  by rewrite (positions_from start endt v _ (history_sequential _ _ _ _ _ v Hg)).
Qed.

Lemma query_names_of_schema s start endt names :
  names_of_schema s names -> names_of_schema s (attributeNames_ (newQuery start endt names)).
Proof.
  intros Hn. unfold names_of_schema in *. rewrite Forall_forall in *. intros x Hx. apply Hn. by apply newQuery_names in Hx.
Qed.

(** C7: a focused query gives exactly the edges asked for.  On a graph that
    holds a history, the iterator of the query for the vertex [v], the range
    [start, end) and some attributes of the schema runs to its end and gives
    the edges of [v] with a time in the range, in the order of their times, none
    twice, each with its other end, its time and the values of exactly the
    attributes asked for, although these are spread over the sub blocks of
    differently partitioned blocks; for any iteration order of the sets and
    any statistics with a positive size for the attributes.  The graph holds
    the same history afterwards. *)
Theorem focused_interval_query {D} `{LevelDB D, !LevelDBOk D} {R} `{SpatialIndex R} (s : Schema)
    (sl : list TimeSlicedPartitioning) (order : nat -> list nat) (stats : SchemaStats) (g : HistoricalGraph D R)
    (A : gmap Z Block) (hist : list (BlockId * Block)) (v : VertexId) (start endt : Timestamp) (names : list string) :
  defined_schema s -> tiling sl -> parts_ok s sl -> (forall n, order n ≡ₚ seq 0 n) ->
  Forall (fun t => measured_parts s stats (partitioning_ t)) sl ->
  hist_ok s sl g A hist -> is_u64 v -> instant start -> instant endt -> names_of_schema s names ->
  exists e g', HistoricalGraph.focusedIntervalQuery order stats (newFocusedIntervalQuery v start endt names) g = Ret (e, g') /\
    hist_ok s sl g' A hist /\
    exists rs st', ei_collect order stats (S (length (edges_between v start endt hist))) e (hg_store_ g') = Ret (rs, st') /\
      Forall2 (shows s names) rs (edges_between v start endt hist).
Proof.
  intros Hdef Htile Hparts Horder Hm Hg Hv Hst Hen Hn. pose proof (query_names_of_schema s start endt names Hn) as Hnq.
  destruct (focused_query_start s sl order stats g A hist v start endt names Hdef Htile Hparts Horder Hm Hg Hv Hst Hen Hnq)
    as (e & g' & E & Hg' & Hp). exists e, g'. split; [done|]. split; [done|].
  pose proof (ho_rep _ _ _ _ _ Hg') as Hrep. pose proof (ho_blocks _ _ _ _ _ Hg') as Hb.
  destruct (ei_collect_ok s Hdef sl Htile Hparts order Horder stats Hm A hist Hb v start endt Hst Hen
    _ Hnq _ (S (length (edges_between v start endt hist))) e _ Hp Hrep) as (rs & st' & E2 & Hrs & _); [lia|].
  exists rs, st'. split; [exact E2|]. eapply Forall2_impl; [exact Hrs|].
  intros r x (H1 & H2 & H3). split; [done|]. split; [done|].
  apply (is_part_names s (attributeNames_ (newQuery start endt names))); [|done]. apply newQuery_names.
Qed.

Lemma example_measured_initial :
  Forall (fun t => measured_parts example_schema example_stats (partitioning_ t)) [initial_slice example_schema].
Proof.
  apply Forall_singleton, Forall_singleton. split; [|by vm_compute].
  apply Forall_forall. intros a Ha. apply elem_of_all_names in Ha. cbn in Ha.
  repeat (apply elem_of_cons in Ha as [->|Ha]; [exists 12; split; [vm_compute; reflexivity|lia]|]). by apply elem_of_nil in Ha.
Qed.

(** The graph of the previous example holds one edge of the vertex 2, at time
    30, which a query for [20, 40) finds with its tag. *)
Lemma focused_interval_query_witness :
  exists (g : HistoricalGraph (gmap bytes bytes) (list (bytes * Region * Z))) e g' r st',
    HistoricalGraph.focusedIntervalQuery (seq 0) example_stats
      (newFocusedIntervalQuery 2 (dofZ 20) (dofZ 40) ["tag"]) g = Ret (e, g') /\
    ei_collect (seq 0) example_stats 2 e (hg_store_ g') = Ret ([r], st') /\
    toVertex_ r.1 = 1 /\ tm_ r.1 = dofZ 30 /\ assoc_find 1 (fields_ r.2) = Some (VString "hi").
Proof.
  destruct example_history as (g & A & id & Hg). exists g.
  destruct (focused_interval_query example_schema [initial_slice example_schema] (seq 0) example_stats g A [(id, example_block)]
    2 (dofZ 20) (dofZ 40) ["tag"]) as (e & g' & E & _ & rs & st' & Ec & Hrs).
  - exact example_defined.
  - exact (initial_tiling example_schema example_initial_slice).
  - exact (initial_parts example_schema example_defined example_names).
  - reflexivity.
  - exact example_measured_initial.
  - exact Hg.
  - by vm_compute.
  - by vm_compute.
  - by vm_compute.
  - apply Forall_singleton. vm_compute. eauto.
  - assert (edges_between 2 (dofZ 20) (dofZ 40) [(id, example_block)] = [(id, 0%nat, mkNLEdge 1 (dofZ 30) example_shared)]) as Hb.
    { unfold edges_between.
      change (positions (vertex_lists 2 [(id, example_block)])) with [(id, 0%nat, mkNLEdge 1 (dofZ 30) example_shared)].
      rewrite filter_cons, decide_True by (split; by vm_compute). reflexivity. }
    rewrite Hb in Hrs, Ec. apply Forall2_cons_inv_r in Hrs as (r & rs' & (Hto & Htm & _ & Hpart & _) & Hrs & ->).
    apply Forall2_nil_inv_r in Hrs as ->. exists e, g', r, st'. split; [exact E|]. split; [exact Ec|].
    split; [exact Hto|]. split; [exact Htm|]. rewrite (Hpart 1); [reflexivity|]. exists "tag". split; [left|reflexivity].
Defined.
