(* ===== verification/HistoryVertices.v ===== *)
(** * Interval queries on the historical graph

    The vertex iterator of an interval query gives every vertex with an edge
    in the range exactly once, however many of its lists are in the index. *)

From Stdlib Require Import ZArith Lia Permutation.
From stdpp Require Import base numbers gmap strings list sorting.
From S2P Require Import Prelude.
From S2P Require Import Double.
From S2P Require Import NetworkByteBuffer.
From S2P Require Import LevelDB.
From S2P Require Import Schema.
From S2P Require Import AttributeData.
From S2P Require Import NeighborList.
From S2P Require Import PartitionIndex.
From S2P Require Import Block.
From S2P Require Import BlockContent.
From S2P Require Import BlockManager.
From S2P Require Import IntervalIndex.
From S2P Require Import Conf.
From S2P Require Import HistoricalGraph.
From S2P Require Import DerivedBlocks.
From S2P Require Import HistoryBlocks.
From S2P Require Import HistoryInvariant.

#[local] Arguments be : simpl never.

(** ** Iterating over vertices *)

(** The client of a vertex iterator: [while (it.isValid()) { it.getVertexId();
    it.next(); }]. *)
Fixpoint vi_collect {St} (getBlock : BlockId -> St -> outcome (Block * St)) (fuel : nat) (it : VertexIterator) (s : St)
  : outcome (list VertexId * St) :=
  match fuel with
  | O => Undefined
  | S fuel =>
      if vi_isValid it then
        v ← getVertexId it;
        '(it, s) ← vi_next getBlock it s;
        '(rest, s) ← vi_collect getBlock fuel it s;
        Ret (v :: rest, s)
      else Ret ([], s)
  end.

Section Vertices.
Context {St : Type} (getBlock : BlockId -> St -> outcome (Block * St)).
Context (I : St -> Prop) (times : BlockId -> VertexId -> list Timestamp).
Context (start endt : Timestamp) (Hstart : num start) (Hend : num endt).
Context (Hread : readable_lists getBlock I times).

#[local] Notation hit := (hits times start endt).
#[local] Notation standing_at := (at_hit start endt).
#[local] Notation fine l := (Forall (fun d => interval_ok d /\ located times d) l).

(** A hit of a vertex not in [vertices]. *)
Definition unseen (vertices : gset Z) (d : IntervalData) : bool := hit d && bool_decide (iv_vertex d ∉ vertices).

Lemma seek_unseen vertices l : seek (unseen vertices) (seek hit l) = seek (unseen vertices) l.
Proof.
  induction l as [|d l IH]; [done|]. cbn [seek]. destruct (hit d) eqn:E; [done|].
  assert (unseen vertices d = false) as -> by (unfold unseen; by rewrite E). done.
Qed.

Lemma at_hit_valid it l : standing_at it l -> iq_isValid it = match l with [] => false | _ => true end.
Proof. intros [(_ & _ & Hv) _]. unfold iq_isValid. destruct l; cbn in Hv; [done|by rewrite Hv]. Qed.

Lemma at_hit_vertex it d l : standing_at it (d :: l) -> getVertex it = Ret (iv_vertex d).
Proof. intros [_ Hc]. unfold getVertex. by rewrite (Hc d l eq_refl). Qed.

Lemma skip_seen_ok vertices : forall fuel it s d l,
  standing_at it (d :: l) -> fine l -> I s -> (length l < fuel)%nat ->
  exists it' s', skip_seen getBlock fuel vertices it s = Ret (it', s') /\ I s' /\ standing_at it' (seek (unseen vertices) l).
Proof.
  induction fuel as [|fuel IH]; intros it s d l Hat Hl HI Hf; [lia|]. cbn [skip_seen].
  destruct (iq_next_ok getBlock I times start endt Hstart Hend Hread it s d l Hat Hl HI) as (it1 & s1 & -> & HI1 & Hat1).
  cbn [mbind outcome_bind]. rewrite (at_hit_valid _ _ Hat1), <- seek_unseen.
  pose proof (seek_length hit l) as Hlen. pose proof (seek_Forall _ hit l Hl) as Hl1. pose proof (seek_head hit l) as Hh.
  destruct (seek hit l) as [|d1 l1]; [by exists it1, s1|].
  rewrite (at_hit_vertex _ _ _ Hat1). cbn [mbind outcome_bind seek]. apply Forall_cons in Hl1 as [_ Hl1].
  unfold unseen at 1. rewrite (Hh d1 l1 eq_refl). cbn [andb]. case_decide as Hin.
  - rewrite bool_decide_eq_false_2 by tauto. apply (IH it1 s1 d1 l1); [done..|]. cbn in Hlen. lia.
  - rewrite bool_decide_eq_true_2 by done. by exists it1, s1.
Qed.

(** The iterator stands at the first of [l], whose vertex it has noted. *)
Definition at_vertex (it : VertexIterator) (l : list IntervalData) : Prop :=
  standing_at (vi_it_ it) l /\
  forall d rest, l = d :: rest -> last_ it = Some (iv_vertex d) /\ iv_vertex d ∈ vertices_ it.

Lemma note_ok it l :
  standing_at (vi_it_ it) l ->
  exists it', note_vertex it = Ret it' /\ at_vertex it' l /\
    vertices_ it' = match l with [] => vertices_ it | d :: _ => {[ iv_vertex d ]} ∪ vertices_ it end.
Proof.
  clear Hstart Hend Hread I times getBlock. intros Hat. unfold note_vertex. rewrite (at_hit_valid _ _ Hat). destruct l as [|d l].
  - exists it. split; [done|]. split; [|done]. split; [done|]. by intros ? ? [=].
  - rewrite (at_hit_vertex _ _ _ Hat). cbn [mbind outcome_bind]. eexists. split; [reflexivity|]. split; [|done].
    split; [done|]. intros ? ? [= <- <-]. split; [done|]. cbn. set_solver.
Qed.

Lemma vi_next_ok it s d l :
  at_vertex it (d :: l) -> fine l -> I s ->
  exists it' s', vi_next getBlock it s = Ret (it', s') /\ I s' /\ at_vertex it' (seek (unseen (vertices_ it)) l) /\
    vertices_ it' = match seek (unseen (vertices_ it)) l with [] => vertices_ it | d :: _ => {[ iv_vertex d ]} ∪ vertices_ it end.
Proof.
  intros [Hat _] Hl HI. unfold vi_next, vi_isValid. rewrite (at_hit_valid _ _ Hat). cbn [cassert mbind outcome_bind].
  pose proof (pending_length _ _ _ _ (proj1 Hat)) as Hp. cbn in Hp.
  destruct (skip_seen_ok (vertices_ it) (S (length (pending_ (iidxIter_ (vi_it_ it))))) (vi_it_ it) s d l Hat Hl HI)
    as (i & s' & -> & HI' & Hat'); [lia|].
  cbn [mbind outcome_bind].
  destruct (note_ok (mkVertexIterator (last_ it) (vertices_ it) i) _ Hat') as (it' & -> & H1 & H2).
  cbn [mbind outcome_bind]. by exists it', s'.
Qed.

Lemma seek_split P l d rest : seek P l = d :: rest -> forall x, x ∈ l -> P x = true -> x = d \/ x ∈ rest.
Proof.
  induction l as [|y l IH]; [done|]. cbn [seek]. destruct (P y) eqn:E.
  - intros [= -> ->] x Hx _. by apply elem_of_cons in Hx.
  - intros Hs x [->|Hx]%elem_of_cons Hp; [congruence|]. by apply IH.
Qed.

Lemma seek_none P l : seek P l = [] -> forall x, x ∈ l -> P x = false.
Proof.
  induction l as [|y l IH]; intros Hs x; [by intros ?%elem_of_nil|]. cbn in Hs. destruct (P y) eqn:E; [done|].
  intros [->|Hx]%elem_of_cons; [done|by apply IH].
Qed.

Lemma unseen_true vertices d : unseen vertices d = true <-> hit d = true /\ iv_vertex d ∉ vertices.
Proof. unfold unseen. by rewrite andb_true_iff, bool_decide_eq_true. Qed.

(** The vertices still to come are those of the hits not noted yet. *)
Lemma vi_collect_ok fuel : forall it s d l,
  at_vertex it (d :: l) -> fine l -> I s -> (S (length l) < fuel)%nat ->
  exists vs s', vi_collect getBlock fuel it s = Ret (iv_vertex d :: vs, s') /\ I s' /\ NoDup vs /\
    forall v, v ∈ vs <-> v ∉ vertices_ it /\ exists d', d' ∈ l /\ hit d' = true /\ iv_vertex d' = v.
Proof.
  induction fuel as [|fuel IH]; intros it s d l Hat Hl HI Hf; [lia|]. cbn [vi_collect].
  pose proof Hat as [Hit Hlast]. destruct (Hlast d l eq_refl) as [El Hin].
  unfold vi_isValid, getVertexId. rewrite (at_hit_valid _ _ Hit), El. cbn [or_undefined mbind outcome_bind].
  destruct (vi_next_ok it s d l Hat Hl HI) as (it1 & s1 & -> & HI1 & Hat1 & Hvs). cbn [mbind outcome_bind].
  set (P := unseen (vertices_ it)) in *. pose proof (seek_Forall _ P l Hl) as Hl1. pose proof (seek_length P l) as Hlen.
  pose proof (seek_split P l) as Hsplit. pose proof (seek_none P l) as Hnone. pose proof (seek_head P l) as Hhead.
  pose proof (seek_elem P l) as Helem.
  destruct (seek P l) as [|d1 l1].
  - destruct fuel as [|fuel]; [lia|]. cbn [vi_collect]. unfold vi_isValid. rewrite (at_hit_valid _ _ (proj1 Hat1)).
    cbn [mbind outcome_bind]. exists [], s1. split_and!; [done|done|constructor|]. intros v. split; [by intros ?%elem_of_nil|].
    intros (Hv & d' & Hd' & Hh & <-). specialize (Hnone eq_refl d' Hd'). exfalso.
    assert (P d' = true); [by apply unseen_true|congruence].
  - apply Forall_cons in Hl1 as [_ Hl1]. cbn in Hlen.
    destruct (IH it1 s1 d1 l1 Hat1 Hl1 HI1) as (vs & s2 & -> & HI2 & Hnd & Hel); [lia|]. cbn [mbind outcome_bind].
    destruct (proj1 (unseen_true _ _) (Hhead d1 l1 eq_refl)) as [Hh1 Hn1].
    exists (iv_vertex d1 :: vs), s2. split_and!; [done|done| |].
    + constructor; [|done]. rewrite Hel, Hvs. set_solver.
    + intros v. rewrite elem_of_cons, Hel, Hvs. split.
      * intros [->|(Hv & d' & Hd' & Hh & <-)].
        { split; [done|]. exists d1. split_and!; [apply Helem; left|done|done]. }
        { split; [set_solver|]. exists d'. split_and!; [apply Helem; by right|done|done]. }
      * intros (Hv & d' & Hd' & Hh & <-). destruct (Hsplit d1 l1 eq_refl d' Hd') as [->|Hd1]; [by apply unseen_true|by left|].
        destruct (decide (iv_vertex d' = iv_vertex d1)) as [->|Hne]; [by left|right].
        split; [set_solver|]. by exists d'.
Qed.
End Vertices.

(** ** The stored lists *)

(** The times of the edges of a vertex in a stored block. *)
Definition stored_times (A : gmap Z Block) (id : BlockId) (v : VertexId) : list Timestamp :=
  match A !! id with Some m => vertex_times v [m] | None => [] end.

Lemma block_vertex_times v b : vertex_times v [b] = match assoc_find v (neigs_ b) with Some nl => tm_ <$> edges_ nl | None => [] end.
Proof. unfold vertex_times. cbn. by rewrite app_nil_r. Qed.

Lemma derived_vertex_times F b m v : derived F b m -> vertex_times v [m] = vertex_times v [b].
Proof.
  rewrite !block_vertex_times. unfold derived. induction 1 as [|[h' nl'] [h nl] ns' ns Hp Hns IH]; [done|].
  pose proof (derived_times _ _ _ Hp) as Ht. destruct Hp as [Eh _]. cbn in Eh, Ht |- *. subst h'.
  case_decide; [by rewrite Ht|done].
Qed.

Lemma content_vertex_times b b' v : content b' = content b -> vertex_times v [b'] = vertex_times v [b].
Proof.
  intros Hc. rewrite !block_vertex_times. unfold content in Hc.
  apply (f_equal (assoc_find v)) in Hc.
  rewrite !(assoc_find_fmap (fun nl => edge_content <$> edges_ nl)) in Hc.
  destruct (assoc_find v (neigs_ b')) as [nl'|], (assoc_find v (neigs_ b)) as [nl|]; try done. cbn in Hc. injection Hc as Hc.
  assert (forall es : list NLEdge, tm_ <$> es = (fun x => x.1.2) <$> (edge_content <$> es)) as Htm.
  { intros es. rewrite <- list_fmap_compose. done. }
  by rewrite !Htm, Hc.
Qed.

Section Stored.
Context (s : Schema) (Hdef : defined_schema s) (sl : list TimeSlicedPartitioning).
Context {D : Type} `{LevelDB D, !LevelDBOk D}.

Lemma store_readable A : readable_lists BlockManager.getBlock (fun st : Store D => rep s sl st A) (stored_times A).
Proof.
  intros d st (_ & Hh & _) Hrep. unfold stored_times in *. destruct (A !! iv_id d) as [m|] eqn:Em; [|done].
  destruct (getBlock_ok s Hdef sl st A (iv_id d) m Hrep Em) as (b & st' & E & (_ & _ & _ & Hc) & Hrep' & _).
  pose proof (content_vertex_times m b (iv_vertex d) Hc) as Ht. rewrite (block_vertex_times _ b) in Ht.
  destruct (assoc_find (iv_vertex d) (neigs_ b)) as [nl|] eqn:Enl; [|by rewrite <- Ht in Hh].
  by exists b, st', nl.
Qed.

Lemma holds_times A id b v : holds_block s sl A id b -> stored_times A id v = vertex_times v [b].
Proof.
  intros [_ (m & mn & mx & tp & Hm & _ & Hc & _)]. unfold stored_times. rewrite Hm.
  apply (derived_vertex_times (fun _ => no_data s)). by apply content_derived.
Qed.

(** The interval of a list of a block. *)
Lemma block_interval id b d :
  NoDup (neigs_ b).*1 -> d ∈ omap (list_interval id) (neigs_ b) ->
  iv_id d = id /\ head (vertex_times (iv_vertex d) [b]) = Some (iv_start d) /\ last (vertex_times (iv_vertex d) [b]) = Some (iv_end d).
Proof.
  intros Hnd ([v nl] & Hp & E)%list_elem_of_omap. unfold list_interval in E. cbn [fst snd] in E.
  destruct (head (edges_ nl)) as [o|] eqn:Eo; [|done]. destruct (last (edges_ nl)) as [n|] eqn:En; [|done].
  injection E as <-. cbn [iv_id iv_vertex iv_start iv_end].
  rewrite (block_times b v nl) by done. rewrite fmap_last, En.
  destruct (edges_ nl); [done|]. injection Eo as ->. done.
Qed.

Context {R : Type} `{SpatialIndex R, !SpatialIndexOk R}.

Lemma history_located (g : HistoricalGraph D R) A hist :
  hist_ok s sl g A hist -> Forall (located (stored_times A)) (history_intervals hist).
Proof.
  intros Hg. apply Forall_forall. intros d ([id b] & Hd & Hin)%list_elem_of_bind. cbn [fst snd] in Hd.
  pose proof (ho_blocks _ _ _ _ _ Hg) as Hb. rewrite Forall_forall in Hb. destruct (Hb _ Hin) as [Hhold _]. cbn in Hhold.
  destruct (bw_ok _ _ (ws_wf _ _ _ (hb_stored _ _ _ _ _ Hhold))) as [Hnd _].
  destruct (block_interval id b d Hnd Hd) as (Hid & Hh & Hl). unfold located. rewrite Hid, (holds_times A id b _ Hhold).
  split; [|done]. pose proof (ho_order _ _ _ _ _ Hg) as Hord.
  apply list_elem_of_split in Hin as (l1 & l2 & ->). rewrite fmap_app, fmap_cons in Hord. cbn [snd] in Hord.
  destruct (Hord (iv_vertex d)) as [Hi Hs].
  change (l1.*2 ++ b :: l2.*2) with (l1.*2 ++ [b] ++ l2.*2) in Hi, Hs. rewrite !vertex_times_app in Hi, Hs.
  apply Forall_app in Hi as [_ [Hi _]%Forall_app]. apply StronglySorted_app in Hs as (_ & _ & Hs).
  apply StronglySorted_app in Hs as (_ & Hs & _). by apply strict_ordered.
Qed.

(** A list of the index is hit when its vertex has an edge in the range. *)
Lemma history_hits (g : HistoricalGraph D R) A hist start endt v :
  hist_ok s sl g A hist -> instant start -> instant endt ->
  (exists d, d ∈ history_intervals hist /\ hits (stored_times A) start endt d = true /\ iv_vertex d = v) <->
  exists t, t ∈ vertex_times v hist.*2 /\ start <= t < endt.
Proof.
  intros Hg Hst Hen. pose proof (ho_blocks _ _ _ _ _ Hg) as Hb. rewrite Forall_forall in Hb.
  assert (forall id b d, (id, b) ∈ hist -> d ∈ omap (list_interval id) (neigs_ b) ->
    stored_times A (iv_id d) (iv_vertex d) = vertex_times (iv_vertex d) [b]) as Htimes.
  { intros id b d Hin Hd. destruct (Hb _ Hin) as [Hhold _]. cbn in Hhold.
    destruct (bw_ok _ _ (ws_wf _ _ _ (hb_stored _ _ _ _ _ Hhold))) as [Hnd _].
    destruct (block_interval id b d Hnd Hd) as (-> & _). by apply holds_times. }
  assert (forall t, t ∈ vertex_times v hist.*2 -> within start endt t = true <-> start <= t < endt) as Hw.
  { intros t Ht. destruct (ho_order _ _ _ _ _ Hg v) as [Hi _]. rewrite Forall_forall in Hi.
    unfold within. rewrite andb_true_iff, Z.leb_le, Z.ltb_lt, !instant_key by (done || by apply Hi). done. }
  split.
  - intros (d & ([id b] & Hd & Hin)%list_elem_of_bind & Hh & <-). cbn [fst snd] in Hd. unfold hits in Hh.
    rewrite (Htimes id b d Hin Hd) in Hh. apply existsb_exists in Hh as (t & Ht%list_elem_of_In & Hwt).
    assert (t ∈ vertex_times (iv_vertex d) hist.*2) as Ht' by (apply (vertex_times_elem _ _ b); [by apply (list_elem_of_fmap_2 snd _ (id, b))|done]).
    exists t. split; [done|]. by apply Hw.
  - intros (t & Ht & Hr). pose proof Ht as (b & Htb & ([id b'] & -> & Hin)%list_elem_of_fmap)%list_elem_of_bind. cbn [snd] in Htb.
    destruct (assoc_find v (neigs_ b')) as [nl|] eqn:Enl; [|by apply elem_of_nil in Htb].
    assert (exists d, list_interval id (v, nl) = Some d /\ iv_vertex d = v) as (d & Ed & Hv).
    { unfold list_interval. cbn [fst snd]. destruct (edges_ nl) as [|e es]; [by apply elem_of_nil in Htb|]. cbn [head].
      destruct (last (e :: es)) eqn:E; [by eexists|by apply last_None in E]. }
    exists d. assert (d ∈ omap (list_interval id) (neigs_ b')) as Hd.
    { apply list_elem_of_omap. exists (v, nl). split; [by apply assoc_find_Some|done]. }
    split_and!; [apply list_elem_of_bind; by exists (id, b')| |done].
    unfold hits. rewrite (Htimes id b' d Hin Hd), Hv, block_vertex_times, Enl. apply existsb_exists.
    exists t. split; [by apply list_elem_of_In|]. by apply Hw.
Qed.
End Stored.

(** ** Properties *)

(** The whole iteration. *)
Lemma interval_query_ok {D} `{LevelDB D, !LevelDBOk D} {R} `{SpatialIndex R, !SpatialIndexOk R} (s : Schema)
    (sl : list TimeSlicedPartitioning) (g : HistoricalGraph D R) (A : gmap Z Block) (hist : list (BlockId * Block))
    (start endt : Timestamp) :
  defined_schema s -> hist_ok s sl g A hist -> instant start -> instant endt -> start <= endt ->
  exists it g', HistoricalGraph.intervalQuery start endt g = Ret (it, g') /\ hist_ok s sl g' A hist /\
    exists vs st', vi_collect BlockManager.getBlock (S (S (length (history_intervals hist)))) it (hg_store_ g') = Ret (vs, st') /\
      rep s sl st' A /\ NoDup vs /\ forall v, v ∈ vs <-> exists t, t ∈ vertex_times v hist.*2 /\ start <= t < endt.
Proof.
  intros Hdef Hg Hst Hen Hle. pose proof (store_readable s Hdef sl (D := D) A) as Hread.
  pose proof (history_located s sl g A hist Hg) as Hloc. pose proof (instant_num _ Hst) as Hns. pose proof (instant_num _ Hen) as Hne.
  destruct (iq_query_ok BlockManager.getBlock _ _ start endt Hns Hne Hread (iqIndex_ g) _ (hg_store_ g)
    (ho_iq _ _ _ _ _ Hg) Hloc) as (it & st & l & E & Hrep & Hat & Hl & Hok); [by rewrite !instant_key|apply (ho_rep _ _ _ _ _ Hg)|].
  unfold intervalQuery. rewrite E. cbn [mbind outcome_bind]. unfold newVertexIterator.
  destruct (note_ok start endt (mkVertexIterator None ∅ it) _ Hat) as (vi & -> & Hvi & Hvs). cbn [mbind outcome_bind].
  eexists vi, _. split; [reflexivity|]. split; [by destruct Hg; split|]. cbn [hg_store_].
  setoid_rewrite <- (history_hits s sl g A hist start endt _ Hg Hst Hen).
  assert (forall v, (exists d, d ∈ history_intervals hist /\ hits (stored_times A) start endt d = true /\ iv_vertex d = v) <->
    exists d, d ∈ l /\ hits (stored_times A) start endt d = true /\ iv_vertex d = v) as Hiff.
  { intros v. rewrite Forall_forall in Hloc. split; intros (d & Hd & Hh & Hv); exists d; (split; [|done]).
    - rewrite Hl. apply list_elem_of_filter. split; [|done]. apply (hits_touches (stored_times A)); auto.
    - rewrite Hl in Hd. by apply list_elem_of_filter in Hd as [_ Hd]. }
  setoid_rewrite Hiff. clear Hiff. pose proof (seek_none (hits (stored_times A) start endt) l) as Hnone.
  pose proof (seek_length (hits (stored_times A) start endt) l) as Hlen. pose proof (seek_Forall _ (hits (stored_times A) start endt) l Hok) as Hok'.
  pose proof (seek_split (hits (stored_times A) start endt) l) as Hsplit. pose proof (seek_head (hits (stored_times A) start endt) l) as Hhead.
  pose proof (seek_elem (hits (stored_times A) start endt) l) as Helem.
  assert (length l <= length (history_intervals hist))%nat as Hll by (rewrite Hl; apply length_filter).
  destruct (seek (hits (stored_times A) start endt) l) as [|d l1].
  - cbn [vi_collect]. unfold vi_isValid. rewrite (at_hit_valid _ _ _ _ (proj1 Hvi)). exists [], st.
    split; [done|]. split; [exact Hrep|]. split; [constructor|]. intros v. split; [by intros ?%elem_of_nil|].
    intros (d & Hd & Hh & _). by rewrite (Hnone eq_refl d Hd) in Hh.
  - apply Forall_cons in Hok' as [_ Hok']. cbn in Hlen.
    destruct (vi_collect_ok BlockManager.getBlock _ _ start endt Hns Hne Hread (S (S (length (history_intervals hist)))) vi st d l1
      Hvi Hok' Hrep) as (vs & st' & -> & Hrep' & Hnd & Hel); [lia|].
    exists (iv_vertex d :: vs), st'. rewrite Hvs in Hel. cbn [vertices_] in Hel. split; [done|]. split; [done|]. split.
    + constructor; [|done]. rewrite Hel. set_solver.
    + intros v. rewrite elem_of_cons, Hel. split.
      * intros [->|(_ & d' & Hd' & Hh & Hv)]; [exists d|exists d']; (split; [apply Helem; set_solver|]); [|done].
        split; [by apply (Hhead d l1)|done].
      * intros (d' & Hd' & Hh & <-). destruct (Hsplit d l1 eq_refl d' Hd' Hh) as [->|Hd1]; [by left|].
        destruct (decide (iv_vertex d' = iv_vertex d)) as [->|Hneq]; [by left|right]. split; [set_solver|]. by exists d'.
Qed.

(** C8: an interval query gives every vertex with an edge in the range once.
    On a graph that holds a history, the iterator of the query for [start, end)
    runs to its end and gives the vertices that have an edge with a time in
    the range, each exactly once and no others, although a vertex may have
    many lists in the index, lists may span the range without an edge in it,
    and the R-tree may give them in any order. *)
Theorem interval_query {D} `{LevelDB D, !LevelDBOk D} {R} `{SpatialIndex R, !SpatialIndexOk R} (s : Schema)
    (sl : list TimeSlicedPartitioning) (g : HistoricalGraph D R) (A : gmap Z Block) (hist : list (BlockId * Block))
    (start endt : Timestamp) :
  defined_schema s -> hist_ok s sl g A hist -> instant start -> instant endt -> start <= endt ->
  exists it g', HistoricalGraph.intervalQuery start endt g = Ret (it, g') /\ hist_ok s sl g' A hist /\
    exists vs st', vi_collect BlockManager.getBlock (S (S (length (history_intervals hist)))) it (hg_store_ g') = Ret (vs, st') /\
      NoDup vs /\ forall v, v ∈ vs <-> exists t, t ∈ vertex_times v hist.*2 /\ start <= t < endt.
Proof.
  intros Hdef Hg Hst Hen Hle. destruct (interval_query_ok s sl g A hist start endt Hdef Hg Hst Hen Hle)
    as (it & g' & E & Hg' & vs & st' & Ec & _ & Hvs). exists it, g'. split; [exact E|]. split; [exact Hg'|]. by exists vs, st'.
Qed.

(** The graph with the example block has an edge at time 30 between the
    vertices 1 and 2. *)
Lemma interval_query_witness :
  exists (g : HistoricalGraph (gmap bytes bytes) (list (bytes * Region * Z))) it g' vs st',
    HistoricalGraph.intervalQuery (dofZ 20) (dofZ 40) g = Ret (it, g') /\
    vi_collect BlockManager.getBlock 4 it (hg_store_ g') = Ret (vs, st') /\ NoDup vs /\ 1 ∈ vs /\ 2 ∈ vs /\ 3 ∉ vs.
Proof.
  destruct example_history as (g & A & id & Hg). exists g.
  destruct (interval_query example_schema [initial_slice example_schema] g A [(id, example_block)] (dofZ 20) (dofZ 40))
    as (it & g' & E & _ & vs & st' & Ec & Hnd & Hvs).
  - exact example_defined.
  - exact Hg.
  - by vm_compute.
  - by vm_compute.
  - by vm_compute.
  - exists it, g', vs, st'. split; [exact E|]. split; [exact Ec|]. split; [exact Hnd|]. rewrite !Hvs.
    assert (dofZ 20 <= dofZ 30 < dofZ 40) as Hr by by vm_compute.
    split; [exists (dofZ 30); split; [left|exact Hr]|]. split; [exists (dofZ 30); split; [left|exact Hr]|].
    intros (t & Ht & _). by apply elem_of_nil in Ht.
Defined.
