(* ===== verification/RepartitionInvariant.v ===== *)
(** * Repartitioning keeps the history

    While slices are replaced, each block of the history is stored by the old
    slices or by the new ones; [updateBlocks] takes those of its range from the
    old to the new, and when the replacement is complete the graph holds the
    same history over the new slices. *)

From Stdlib Require Import ZArith Lia Permutation.
From stdpp Require Import base numbers gmap strings list sorting.
From S2P Require Import Prelude.
From S2P Require Import Double.
From S2P Require Import NetworkByteBuffer.
From S2P Require Import LevelDB.
From S2P Require Import Schema.
From S2P Require Import AttributeData.
From S2P Require Import NeighborList.
From S2P Require Import PartitionIndex.
From S2P Require Import Block.
From S2P Require Import BlockContent.
From S2P Require Import BlockStorage.
From S2P Require Import BlockManager.
From S2P Require Import FocusedIndex.
From S2P Require Import IntervalIndex.
From S2P Require Import Conf.
From S2P Require Import HistoricalGraph.
From S2P Require Import DerivedBlocks.
From S2P Require Import HistoryBlocks.
From S2P Require Import HistoryInvariant.
From S2P Require Import HistoryVertices.
From S2P Require Import Slices.
From S2P Require Import Repartition.
From S2P Require Import BlockReplacement.

#[local] Arguments be : simpl never.

(** ** The blocks of an entry of the history *)

Lemma owned_keys A hist : NoDup (owned_ids A hist) -> NoDup hist.*1.
Proof.
  induction hist as [|ib l IH]; intros Hnd; [constructor|].
  unfold owned_ids in Hnd. cbn in Hnd. apply NoDup_cons in Hnd as [Hn Hnd]. apply NoDup_app in Hnd as (_ & _ & Hnd).
  cbn. constructor; [|by apply IH]. intros ([id' b'] & E & Hin)%list_elem_of_fmap. apply Hn. apply elem_of_app. right.
  apply list_elem_of_bind. exists (id', b'). split; [|done]. rewrite E. left.
Qed.

Section Entry.
Context (s : Schema) (sl : list TimeSlicedPartitioning) (Htile : tiling sl).

(** The block [b] is stored under [id] by the slices [sl], in blocks that can
    be read back. *)
Definition entry_ok (A : gmap Z Block) (ib : BlockId * Block) : Prop :=
  (holds_block s sl A ib.1 ib.2 /\ heads_ok ib.2) /\
  forall k blk, k ∈ own_ids A ib.1 -> A !! k = Some blk -> readable s sl blk.

Lemma entry_agree A A' ib : entry_ok A ib -> (forall k, k ∈ own_ids A ib.1 -> A' !! k = A !! k) ->
  entry_ok A' ib /\ own_ids A' ib.1 = own_ids A ib.1.
Proof.
  intros [[[Hb (m & mn & mx & tp & Hm & Hp & Hc & Hmm & Htp & Hin & Hlen & Hsubs)] Hh] Hr] HA.
  assert (own_ids A' ib.1 = own_ids A ib.1) as Hown.
  { unfold own_ids in *. rewrite (HA ib.1); [done|left]. }
  split; [|done]. split; [split; [split; [done|]|done]|].
  - exists m, mn, mx, tp. split_and!; try done; [rewrite HA; [done|left]|].
    intros i attrs Hi. destruct (Hsubs i attrs Hi) as (sid & sub & Hsid & Hsub & Hsc). exists sid, sub. split_and!; try done.
    rewrite HA; [done|]. unfold own_ids. rewrite Hm. right. by eapply list_elem_of_lookup_2.
  - intros k blk Hk Hblk. rewrite Hown in Hk. rewrite HA in Hblk by done. by eapply Hr.
Qed.

(** All of them have the times of [b]. *)
Lemma own_minmax A id b k blk : holds_block s sl A id b -> k ∈ own_ids A id -> A !! k = Some blk ->
  findMinMaxTimestamps blk = findMinMaxTimestamps b.
Proof.
  intros [Hb (m & mn & mx & tp & Hm & Hp & Hc & Hmm & Htp & Hin & Hlen & Hsubs)] Hk Hblk. unfold own_ids in Hk. rewrite Hm in Hk.
  apply elem_of_cons in Hk as [->|[i Hi]%list_elem_of_lookup].
  - rewrite Hm in Hblk. injection Hblk as <-. apply (derived_minmax (fun _ => no_data s)). by apply content_derived.
  - destruct (lookup_lt_is_Some_2 (partitioning_ tp) i) as [attrs Ha]; [rewrite <- Hlen; by eapply lookup_lt_Some|].
    destruct (Hsubs i attrs Ha) as (sid & sub & Hs & Hsub & Hsc). rewrite Hi in Hs. injection Hs as <-.
    rewrite Hblk in Hsub. injection Hsub as ->.
    apply (derived_minmax (fun x => projected s attrs (cell (data_ x.2)))). by apply content_derived.
Qed.

End Entry.

(** The slice of a block of other slices, when it is one of both. *)
Lemma entry_other s sl sl' A ib mn mx : tiling sl' -> entry_ok s sl A ib -> well_stored s sl' ib.2 ->
  findMinMaxTimestamps ib.2 = Ret (mn, mx) ->
  (forall t, t ∈ sl -> in_slice (midpoint mn mx) t = true -> t ∈ sl') -> entry_ok s sl' A ib.
Proof.
  intros Htile [[[Hb (m & mn0 & mx0 & tp & Hm & Hp & Hc & Hmm & Htp & Hin & Hlen & Hsubs)] Hh] Hr] Hb' Hmm' Hsl.
  rewrite Hmm in Hmm'. injection Hmm' as -> ->. split; [split; [split; [done|]|done]|].
  - exists m, mn, mx, tp. split_and!; try done. by apply Hsl.
  - intros k blk Hk Hblk. pose proof (Hr k blk Hk Hblk) as (attrs & i & mn1 & mx1 & Hst & Hmm1 & Hl & Hi & Hlt & Hno & Hpart).
    assert (findMinMaxTimestamps blk = findMinMaxTimestamps ib.2) as Emm.
    { eapply (own_minmax s sl A ib.1); [|done|done]. split; [done|]. by exists m, mn, mx, tp. }
    rewrite Hmm1, Hmm in Emm. injection Emm as -> ->.
    destruct (ws_mid _ _ _ Hb') as (mn2 & mx2 & Hmm2 & _ & _ & Hno2). rewrite Hmm in Hmm2. injection Hmm2 as <- <-.
    exists attrs, i, mn, mx. split_and!; try done. intros Hi1 t Ht Hit.
    assert (t = tp) as -> by (eapply slice_unique; [apply (tiling_tiles _ Htile)|done|by apply Hsl|done|done]). by apply Hpart.
Qed.

(** ** Reading while slices are replaced *)

Section Update.
Context (s : Schema) (Hdef : defined_schema s).
Context (l1 olds news l2 : list TimeSlicedPartitioning).
#[local] Abbreviation sl := (l1 ++ olds ++ l2).
#[local] Abbreviation sl' := (l1 ++ news ++ l2).
Context (Hold : tiling sl) (Hnew : tiling sl') (Hparts : parts_ok s sl) (Hparts' : parts_ok s sl').
Context {D : Type} `{LevelDB D, !LevelDBOk D}.

#[local] Abbreviation look := (old_slice_at l1 olds news l2).
#[local] Abbreviation view := (replacing l1 olds news l2 s).
#[local] Abbreviation held := (kept (D := D) s view).

Lemma view_answers : answers (D := D) look view.
Proof. by apply replacing_answers. Qed.

Lemma look_time b mn mx : well_stored s sl b -> well_stored s sl' b -> findMinMaxTimestamps b = Ret (mn, mx) ->
  exists t, look (midpoint mn mx) t.
Proof.
  intros Hb Hb' Hmm. destruct (ws_mid _ _ _ Hb) as (mn1 & mx1 & Hmm1 & Hi & Hlt & Hno). rewrite Hmm in Hmm1. injection Hmm1 as <- <-.
  destruct (ws_mid _ _ _ Hb') as (mn2 & mx2 & Hmm2 & _ & _ & Hno2). rewrite Hmm in Hmm2. injection Hmm2 as <- <-.
  destruct (tiling_slice sl _ Hold Hi Hlt Hno) as (x1 & t & x2 & E & Hin & _). exists t. unfold old_slice_at. rewrite E in *. set_solver.
Qed.

(** The blocks stored by the old slices can be read. *)
Lemma old_legible A ib k blk : entry_ok s sl A ib -> well_stored s sl' ib.2 -> k ∈ own_ids A ib.1 -> A !! k = Some blk ->
  legible s look blk.
Proof.
  intros [[Hh _] Hr] Hb' Hk Hblk. destruct (Hr k blk Hk Hblk) as (attrs & i & mn & mx & Hst & Hmm & Hl & Hi & Hlt & Hno & Hpart).
  exists attrs, i, mn, mx. split_and!; try done.
  - apply (look_time ib.2); [apply Hh|done|]. by rewrite <- (own_minmax s sl A ib.1 ib.2 k blk).
  - intros Hi1 t (_ & _ & _ & _ & Ht & Hin). by apply Hpart.
Qed.

(** The master blocks can be read whatever slices they are stored by. *)
Lemma master_legible slx A ib m : entry_ok s slx A ib -> well_stored s sl ib.2 -> well_stored s sl' ib.2 -> A !! ib.1 = Some m ->
  legible s look m.
Proof.
  intros [[Hh _] Hr] Hb Hb' Hm. assert (ib.1 ∈ own_ids A ib.1) as Hk by left.
  destruct (Hr ib.1 m Hk Hm) as (attrs & i & mn & mx & Hst & Hmm & Hl & _).
  exists attrs, i, mn, mx. split_and!; try done.
  - apply (look_time ib.2); [done|done|]. by rewrite <- (own_minmax s slx A ib.1 ib.2 ib.1 m).
  - destruct Hh as [_ (m' & _ & _ & _ & Hm' & Hp & _)]. rewrite Hm in Hm'. injection Hm' as <-.
    pose proof (st_partition _ _ _ _ Hst) as Hp'. rewrite Hp in Hp'. by injection Hp' as <-.
Qed.

Lemma kept_with_index (st : Store D) A p h : held st A -> view p -> held (mkStore (bman_ st) p h) A.
Proof. intros [] Hp. by split. Qed.

(** Reading the master block of an entry. *)
Lemma read_master slx st A ib : held st A -> entry_ok s slx A ib -> well_stored s sl ib.2 -> well_stored s sl' ib.2 ->
  exists m0 m st', A !! ib.1 = Some m0 /\ legible s look m0 /\ BlockManager.getBlock ib.1 st = Ret (m, st') /\
    same_block m0 m /\ id_ m = ib.1 /\ held st' A /\ nextBlockId_ (bman_ st') = nextBlockId_ (bman_ st) /\
    content m = mapped_content (fun _ => no_data s) ib.2.
Proof.
  intros Hk He Hb Hb'. pose proof He as [[[_ (m0 & mn & mx & tp & Hm & _ & Hc & _)] _] _].
  pose proof (master_legible slx A ib m0 He Hb Hb' Hm) as Hl.
  destruct (kept_getBlock s look view Hdef view_answers st A ib.1 m0 Hk Hm Hl) as (m & st' & E & Hsame & Hk' & Hn & _).
  exists m0, m, st'. pose proof Hsame as (Hid & _ & _ & Hc'). pose proof (kept_blocks _ _ _ _ Hk _ _ Hm) as (Hid0 & _).
  split_and!; try done; congruence.
Qed.

(** The time its partitioning is chosen by. *)
Lemma derived_midpoint F b m mn mx : content m = mapped_content F b -> findMinMaxTimestamps b = Ret (mn, mx) ->
  getPartitioningTimestamp m = Ret (midpoint mn mx).
Proof. intros Hc Hmm. unfold getPartitioningTimestamp. by rewrite (derived_minmax F b m (proj1 (content_derived _ _ _) Hc)), Hmm. Qed.

(** A block of another time is only read. *)
Lemma repartition_block_out slx st A ib start endt mn mx :
  held st A -> entry_ok s slx A ib -> well_stored s sl ib.2 -> well_stored s sl' ib.2 ->
  findMinMaxTimestamps ib.2 = Ret (mn, mx) -> dltb (midpoint mn mx) start || dleb endt (midpoint mn mx) = true ->
  exists st', repartition_block start endt ib.1 st = Ret st' /\ held st' A /\ nextBlockId_ (bman_ st') = nextBlockId_ (bman_ st).
Proof.
  intros Hk He Hb Hb' Hmm Hout.
  destruct (read_master slx st A ib Hk He Hb Hb') as (m0 & m & st' & _ & _ & E & _ & _ & Hk' & Hn & Hc).
  exists st'. split; [|done]. unfold repartition_block. rewrite E. cbn [mbind outcome_bind].
  rewrite (derived_midpoint _ _ _ _ _ Hc Hmm). cbn [mbind outcome_bind]. by rewrite Hout.
Qed.

(** The recombined block. *)
Lemma recombine_entry st A ib m0 m n : held st A -> entry_ok s sl A ib -> well_stored s sl' ib.2 ->
  A !! ib.1 = Some m0 -> same_block m0 m ->
  exists b' n' st', recombineBlock BlockManager.getBlock s m n st = Ret (b', n', st') /\
    held st' A /\ nextBlockId_ (bman_ st') = nextBlockId_ (bman_ st) /\ content b' = content ib.2.
Proof.
  intros Hk He Hb' Hm (_ & _ & Hs & Hc). pose proof He as [[[Hb (m1 & mn & mx & tp & Hm1 & _ & Hmc & _ & Htp & _ & Hlen & Hsubs)] _] _].
  rewrite Hm in Hm1. injection Hm1 as <-. destruct (parts_ok_in s sl Hparts tp Htp) as (Hcov & Hne & _).
  destruct (recombineBlock_ok s Hdef ib.2 (ws_wf _ _ _ Hb) (partitioning_ tp) Hcov BlockManager.getBlock
    (fun st1 : Store D => held st1 A /\ nextBlockId_ (bman_ st1) = nextBlockId_ (bman_ st)) (subBlocks_ m0) Hlen) with (master := m) (next := n) (st := st)
    as (b' & n' & st' & E & [Hk' Hn'] & Hc' & _); [| |congruence| |done|by exists b', n', st'].
  - intros i id attrs st1 Hid Ha [Hk1 Hn1]. destruct (Hsubs i attrs Ha) as (sid & sub & Hsid & Hsub & Hsc).
    rewrite Hid in Hsid. injection Hsid as <-.
    destruct (kept_getBlock s look view Hdef view_answers st1 A id sub Hk1 Hsub) as (sub' & st2 & E & (_ & _ & _ & Hcs) & Hk2 & Hn2 & _).
    { apply (old_legible A ib id); [done..| |done]. unfold own_ids. rewrite Hm. right. by eapply list_elem_of_lookup_2. }
    exists sub', st2. split_and!; [done|done|congruence|congruence].
  - congruence.
  - intros E. rewrite E in Hlen. by destruct (partitioning_ tp).
Qed.

(** Its new blocks. *)
Lemma partition_entry b b' n (p : PartitionIndex D) mn mx : well_stored s sl' b -> content b' = content b -> view p ->
  findMinMaxTimestamps b = Ret (mn, mx) ->
  exists m2 subs h p' tp, partitionBlock s b' n p = Ret (m2 :: subs, h, p') /\ view p' /\
    tp ∈ sl' /\ in_slice (midpoint mn mx) tp = true /\ partition_ m2 = Some (-1) /\ subBlocks_ m2 = [] /\
    content m2 = mapped_content (fun _ => no_data s) b /\ length subs = length (partitioning_ tp) /\
    forall i attrs, partitioning_ tp !! i = Some attrs -> exists sub, subs !! i = Some sub /\
      partition_ sub = Some (Z.of_nat i) /\ subBlocks_ sub = [] /\
      content sub = mapped_content (fun x => projected s attrs (cell (data_ x.2))) b.
Proof.
  intros Hb Hc (Hidx & Hrem & Hsch) Hmm. pose proof (well_stored_content s sl' b b' Hb Hc) as Hwf'%ws_wf.
  destruct (ws_mid _ _ _ Hb) as (mn1 & mx1 & Hmm1 & Hi & Hlt & Hno). rewrite Hmm in Hmm1. injection Hmm1 as <- <-.
  destruct (getTimeSlicedPartitioning_ok _ _ _ Hidx Hi Hlt Hno) as (tp & p' & Ep & Htp & Hin & Hidx' & _).
  destruct (parts_ok_in s sl' Hparts' tp Htp) as (Hcov & _).
  destruct (master_block_ok s b' Hwf' n) as (m2 & n1 & Em & (_ & Hmp & Hms) & Hmc).
  destruct (sub_blocks_ok s Hdef b' Hwf' (partitioning_ tp) n1 (proj1 Hcov)) as (subs & n2 & Es & Hl & Hsubs).
  exists m2, subs, n2, p', tp. split_and!; try done.
  - unfold partitionBlock. rewrite (derived_midpoint (fun x => cell (data_ x.2)) b b' mn mx) by (by rewrite ?Hc, ?content_mapped).
    cbn [mbind outcome_bind]. rewrite Ep. cbn [mbind outcome_bind]. rewrite Em. cbn [mbind outcome_bind]. by rewrite Es.
  - apply getTimeSlicedPartitioning_frame in Ep as (E1 & E2). unfold replacing. split; [done|]. rewrite E1. split; [done|]. naive_solver.
  - rewrite Hmc. by apply (same_content_mapped (fun _ => no_data s)).
  - intros i attrs Ha. destruct (Hsubs i attrs Ha) as (sub & Hsub & (_ & Hp & Hss) & Hsc). exists sub. split_and!; try done.
    rewrite Hsc. by apply (same_content_mapped (projected s attrs)).
Qed.

(** The new blocks of an entry, under the identifiers [replaceBlocks] gives
    them, hold the entry by the new slices. *)
Lemma replaced_entry A id b mn mx tp m m2 subs (st : Store D) :
  well_stored s sl' b -> heads_ok b -> findMinMaxTimestamps b = Ret (mn, mx) -> tp ∈ sl' -> in_slice (midpoint mn mx) tp = true ->
  partition_ m2 = Some (-1) -> subBlocks_ m2 = [] -> content m2 = mapped_content (fun _ => no_data s) b ->
  length subs = length (partitioning_ tp) ->
  (forall i attrs, partitioning_ tp !! i = Some attrs -> exists sub, subs !! i = Some sub /\
    partition_ sub = Some (Z.of_nat i) /\ subBlocks_ sub = [] /\
    content sub = mapped_content (fun x => projected s attrs (cell (data_ x.2))) b) ->
  id_ m = id -> Forall (fun k => is_u64 k) (id :: new_ids m subs st) ->
  (forall sub n, sub ∈ subs -> is_u64 n -> readable s sl' (with_id n sub)) /\
  readable s sl' (new_master m m2 subs st) /\
  (A !! id = Some (new_master m m2 subs st) ->
   (forall i sub, subs !! i = Some sub -> exists k, new_ids m subs st !! i = Some k /\ A !! k = Some (with_id k sub)) ->
   entry_ok s sl' A (id, b) /\ own_ids A id = id :: new_ids m subs st).
Proof.
  intros Hb Hh Hmm Htp Hin Hp Hs0 Hc Hlen Hsubs Hid [Hu Hus]%Forall_cons.
  destruct (parts_ok_in s sl' Hparts' tp Htp) as (_ & Hne & Hroom).
  destruct (add_ids_ok (with_id (id_ m) m2) (new_ids m subs st)) as (Eid & Ep & Es & En).
  change (add_ids _ _) with (new_master m m2 subs st) in *. cbn [with_id id_ partition_ subBlocks_ neigs_] in *.
  rewrite Hs0 in Es. cbn in Es. assert (content (new_master m m2 subs st) = mapped_content (fun _ => no_data s) b) as Ec.
  { rewrite <- Hc. unfold content. by rewrite En. }
  assert (forall sub n, sub ∈ subs -> is_u64 n -> readable s sl' (with_id n sub)) as Hsr.
  { intros sub n [i Hi]%list_elem_of_lookup Hn. destruct (lookup_lt_is_Some_2 (partitioning_ tp) i) as [attrs Ha].
    { rewrite <- Hlen. by eapply lookup_lt_Some. }
    destruct (Hsubs i attrs Ha) as (sub' & Hi' & Hsp & Hss & Hsc). rewrite Hi in Hi'. injection Hi' as <-.
    by apply (sub_readable s Hdef sl' Hnew Hparts' b mn mx tp i attrs). }
  assert (readable s sl' (new_master m m2 subs st)) as Hmr.
  { apply (master_readable s sl' b); try done; rewrite ?Eid, ?Ep, ?Es, ?Hid; try done.
    - intros E. pose proof (length_new_ids m subs st) as Hl. rewrite E, Hlen in Hl. by destruct (partitioning_ tp).
    - rewrite length_new_ids. lia. }
  split_and!; [done|done|]. intros HA HAs.
  assert (own_ids A id = id :: new_ids m subs st) as Hown by (unfold own_ids; by rewrite HA, Es).
  split; [|done]. split; [split; [split; [done|]|done]|].
  - exists (new_master m m2 subs st), mn, mx, tp. rewrite Ep, Es, length_new_ids. split_and!; try done.
    intros i attrs Ha. destruct (Hsubs i attrs Ha) as (sub & Hi & _ & _ & Hsc). destruct (HAs i sub Hi) as (k & Hk & HAk).
    by exists k, (with_id k sub).
  - cbn [fst]. rewrite Hown. intros k blk Hk Hblk. apply elem_of_cons in Hk as [->|Hk].
    + rewrite HA in Hblk. by injection Hblk as <-.
    + pose proof Hk as [i Hi]%list_elem_of_lookup. destruct (lookup_lt_is_Some_2 subs i) as [sub Hsub].
      { rewrite <- (length_new_ids m subs st). by eapply lookup_lt_Some. }
      destruct (HAs i sub Hsub) as (k' & Hk' & HAk). rewrite Hi in Hk'. injection Hk' as <-. rewrite Hblk in HAk. injection HAk as ->.
      apply Hsr; [by eapply list_elem_of_lookup_2|]. rewrite Forall_forall in Hus. by apply Hus.
Qed.

(** A block of the range is stored by the new slices. *)
Lemma repartition_block_in st A id b start endt mn mx :
  held st A -> entry_ok s sl A (id, b) -> well_stored s sl' b -> NoDup (own_ids A id) ->
  findMinMaxTimestamps b = Ret (mn, mx) -> dltb (midpoint mn mx) start || dleb endt (midpoint mn mx) = false ->
  nextBlockId_ (bman_ st) + 2 ^ 24 < 2 ^ 64 ->
  exists st' A', repartition_block start endt id st = Ret st' /\ held st' A' /\
    nextBlockId_ (bman_ st) <= nextBlockId_ (bman_ st') <= nextBlockId_ (bman_ st) + 2 ^ 24 /\
    entry_ok s sl' A' (id, b) /\ NoDup (own_ids A' id) /\
    (forall k, k ∈ own_ids A' id -> k ∈ own_ids A id \/ nextBlockId_ (bman_ st) <= k) /\
    (forall k, k ∈ own_ids A id -> k ∉ own_ids A' id -> A' !! k = None) /\
    (forall k, k ∉ own_ids A id -> k ∉ own_ids A' id -> A' !! k = A !! k).
Proof.
  intros Hk He Hb' Hnd Hmm Hin Hroom. pose proof He as [[[Hb (m1 & _ & _ & tp0 & Hm1 & _ & _ & _ & _ & _ & Hlen1 & Hsubs1)] Hh] _].
  destruct (read_master sl st A (id, b) Hk He Hb Hb') as (m0 & m & st1 & Hm & Hml & E1 & Hsame & Hid & Hk1 & Hn1 & Hc). cbn [fst snd] in *.
  rewrite Hm in Hm1. injection Hm1 as <-. pose proof Hsame as (_ & _ & Es & _).
  destruct (recombine_entry st1 A (id, b) m0 m (heap_ st1) Hk1 He Hb' Hm Hsame) as (b' & n' & st2 & E2 & Hk2 & Hn2 & Hc').
  destruct (partition_entry b b' (Z.max n' (heap_ st2)) (pidx_ st2) mn mx Hb' Hc' (kept_index _ _ _ _ Hk2) Hmm)
    as (m2 & subs & h & p & tp & E3 & Hp & Htp & Htin & Hmp & Hms & Hmc & Hlen & Hsubs).
  destruct (parts_ok_in s sl' Hparts' tp Htp) as (_ & _ & Hparts24).
  set (st3 := mkStore (bman_ st2) p h). pose proof (kept_with_index st2 A p h Hk2 Hp) as Hk3. fold st3 in Hk3.
  assert (own_ids A id = id_ m :: subBlocks_ m) as Hown by (unfold own_ids; rewrite Hm, Es, Hid; done).
  assert (Hold_ids : forall k, k ∈ subBlocks_ m -> exists blk, A !! k = Some blk /\ legible s look blk).
  { intros k Hks. rewrite Es in Hks. pose proof Hks as [i Hi]%list_elem_of_lookup.
    destruct (lookup_lt_is_Some_2 (partitioning_ tp0) i) as [attrs Ha]; [rewrite <- Hlen1; by eapply lookup_lt_Some|].
    destruct (Hsubs1 i attrs Ha) as (sid & sub & Hsid & Hsub & _). rewrite Hi in Hsid. injection Hsid as <-.
    exists sub. split; [done|]. eapply (old_legible A (id, b)); [done..| |done]. cbn [fst]. rewrite Hown. right. by rewrite Es. }
  rewrite Hown in Hnd. rewrite <- Hid in Hm.
  assert (nextBlockId_ (bman_ st3) = nextBlockId_ (bman_ st)) as Hn3 by (cbn; congruence).
  assert (Forall (fun k => is_u64 k) (id :: new_ids m subs st3)) as Hu.
  { constructor; [rewrite <- Hid; by apply (kept_blocks _ _ _ _ Hk _ _ Hm)|]. apply Forall_forall. intros k Hkn.
    apply new_ids_cases in Hkn as [Hkn%take_ids|Hkn].
    - destruct (Hold_ids k Hkn) as (blk & Hblk & _). by apply (kept_blocks _ _ _ _ Hk _ _ Hblk).
    - pose proof (kept_next _ _ _ _ Hk). rewrite Hn3 in Hkn. lia. }
  destruct (replaced_entry A id b mn mx tp m m2 subs st3) as (Hsr & Hmr & _); try done.
  destruct (replaceBlocks_ok s Hdef look view view_answers m m2 subs st3 A Hk3 m0 Hm Hml Hnd Hold_ids) as (st4 & A' & E4 & Hk4 & Hn4 & HAm & HAs & HAr & HAo).
  { intros. by apply (readable_writable s sl'), Hsr. } { lia. } { by apply (readable_writable s sl'). }
  destruct (replaced_entry A' id b mn mx tp m m2 subs st3) as (_ & _ & Hdone); try done.
  destruct Hdone as [He' Hown']; [by rewrite <- Hid|done|].
  pose proof (new_ids_NoDup s look view m subs st3 A Hk3 m0 Hm Hnd Hold_ids) as Hnd'. rewrite Hid in Hnd'.
  exists st4, A'. rewrite Hown', Hown, Hid. split_and!; try done; try lia.
  - unfold repartition_block. rewrite E1. cbn [mbind outcome_bind]. rewrite (derived_midpoint _ _ _ _ _ Hc Hmm). cbn [mbind outcome_bind].
    rewrite Hin. destruct (kept_index _ _ _ _ Hk1) as (_ & _ & ->). rewrite E2. cbn [mbind outcome_bind].
    rewrite E3. cbn [mbind outcome_bind]. done.
  - intros k [->|Hkn]%elem_of_cons; [left; left|]. apply new_ids_cases in Hkn as [Hkn%take_ids|Hkn]; [left; by right|right; lia].
  - intros k Hk1' Hk2'. apply not_elem_of_cons in Hk2' as [? ?]. apply elem_of_cons in Hk1' as [->|?]; [done|]. by apply HAr.
  - intros k Hk1' Hk2'. apply not_elem_of_cons in Hk1' as [? ?]. apply not_elem_of_cons in Hk2' as [? ?]. apply HAo; congruence.
Qed.

(** ** The loop *)

(** The block's partitioning is chosen by a time in the range. *)
Definition selected (start endt : Timestamp) (b : Block) : Prop :=
  exists mn mx, findMinMaxTimestamps b = Ret (mn, mx) /\ dltb (midpoint mn mx) start || dleb endt (midpoint mn mx) = false.

Section Loop.
(** The history, and the next identifier when the replacement starts. *)
Context (hist : list (BlockId * Block)) (n0 : Z) (Hroom : n0 + 2 ^ 24 * Z.of_nat (length hist) < 2 ^ 64).

(** The blocks [dn] are stored by the new slices, the others by the old ones. *)
Record updating (st : Store D) (A : gmap Z Block) (dn : list BlockId) : Prop := {
  up_held : held st A;
  up_owned : NoDup (owned_ids A hist) /\ forall k, is_Some (A !! k) -> k ∈ owned_ids A hist;
  up_done : NoDup dn /\ dn ⊆ hist.*1;
  up_stored : Forall (fun ib => well_stored s sl ib.2 /\ well_stored s sl' ib.2) hist;
  up_entries : Forall (fun ib => entry_ok s (if decide (ib.1 ∈ dn) then sl' else sl) A ib) hist;
  up_next : nextBlockId_ (bman_ st) <= n0 + 2 ^ 24 * Z.of_nat (length dn)
}.

Lemma own_stored slx A ib k : entry_ok s slx A ib -> k ∈ own_ids A ib.1 -> is_Some (A !! k).
Proof.
  intros [Hb _] Hk. apply (owned_in s slx A [ib]); [by apply Forall_singleton|]. unfold owned_ids. cbn. by rewrite app_nil_r.
Qed.

Lemma updating_keys st A dn : updating st A dn -> NoDup hist.*1.
Proof. intros [_ [Hnd _] _ _ _ _]. by apply (owned_keys A). Qed.

Lemma done_room st A dn ib : updating st A dn -> ib ∈ hist -> ib.1 ∉ dn -> Z.of_nat (length dn) + 1 <= Z.of_nat (length hist).
Proof.
  intros [_ _ [Hnd Hsub] _ _ _] Hin Hn. assert (length (ib.1 :: dn) <= length hist.*1)%nat as Hl.
  { apply submseteq_length, NoDup_submseteq; [by constructor|]. intros k [->|Hk]%elem_of_cons; [by apply list_elem_of_fmap_2|by apply Hsub]. }
  rewrite length_fmap in Hl. cbn in Hl. lia.
Qed.

Lemma updating_entry st A dn ib : updating st A dn -> ib ∈ hist ->
  (well_stored s sl ib.2 /\ well_stored s sl' ib.2) /\ entry_ok s (if decide (ib.1 ∈ dn) then sl' else sl) A ib.
Proof.
  intros [_ _ _ Hs He _] Hin. rewrite Forall_forall in Hs. rewrite Forall_forall in He. split; [by apply Hs|by apply He].
Qed.

Lemma updating_read st st' A dn : updating st A dn -> held st' A -> nextBlockId_ (bman_ st') = nextBlockId_ (bman_ st) -> updating st' A dn.
Proof. intros [] Hk Hn. split; try done. lia. Qed.

(** A block that is not selected. *)
Lemma updating_out st A dn ib start endt : updating st A dn -> ib ∈ hist -> ~ selected start endt ib.2 ->
  exists st', repartition_block start endt ib.1 st = Ret st' /\ updating st' A dn.
Proof.
  intros Hu Hin Hns. destruct (updating_entry _ _ _ _ Hu Hin) as [[Hb Hb'] He]. destruct (ws_mid _ _ _ Hb) as (mn & mx & Hmm & _).
  destruct (repartition_block_out _ st A ib start endt mn mx (up_held _ _ _ Hu) He Hb Hb' Hmm) as (st' & E & Hk & Hn).
  { apply not_false_iff_true. intros Hf. apply Hns. by exists mn, mx. }
  exists st'. split; [done|]. by eapply updating_read.
Qed.

(** The identifiers of the other blocks stay apart. *)
Lemma owned_split A h1 ib h2 : owned_ids A (h1 ++ ib :: h2) = owned_ids A h1 ++ own_ids A ib.1 ++ owned_ids A h2.
Proof. unfold owned_ids. rewrite bind_app. done. Qed.

(** The blocks of the others are as they were. *)
Lemma others_kept A A' h1 ib h2 n :
  NoDup (owned_ids A (h1 ++ ib :: h2)) -> (forall k, is_Some (A !! k) -> k < n) ->
  (forall x, x ∈ h1 ++ h2 -> exists slx, entry_ok s slx A x) ->
  (forall k, k ∈ own_ids A' ib.1 -> k ∈ own_ids A ib.1 \/ n <= k) ->
  (forall k, k ∉ own_ids A ib.1 -> k ∉ own_ids A' ib.1 -> A' !! k = A !! k) ->
  forall x, x ∈ h1 ++ h2 -> own_ids A' x.1 = own_ids A x.1 /\
    (forall slx, entry_ok s slx A x -> entry_ok s slx A' x) /\ forall k, k ∈ own_ids A x.1 -> k ∉ own_ids A' ib.1.
Proof.
  intros Hnd Hlt Hent Hids Hsame x Hx. rewrite owned_split in Hnd. apply NoDup_app in Hnd as (_ & Hd1 & (_ & Hd2 & _)%NoDup_app).
  assert (forall k, k ∈ own_ids A x.1 -> k ∉ own_ids A' ib.1 /\ A' !! k = A !! k) as Hk.
  { intros k Hk. assert (k ∉ own_ids A ib.1) as Hk1.
    { intros Hki. apply elem_of_app in Hx as [Hx|Hx].
      - apply (Hd1 k); [apply list_elem_of_bind; by exists x|set_solver].
      - apply (Hd2 k Hki). apply list_elem_of_bind. by exists x. }
    assert (k ∉ own_ids A' ib.1) as Hk2; [|by split; [|apply Hsame]].
    intros [?|Hge]%Hids; [done|]. destruct (Hent x Hx) as [slx He]. assert (k < n); [|lia]. apply Hlt. by eapply own_stored. }
  destruct (Hent x Hx) as [slx0 He0]. split_and!.
  - apply (entry_agree s slx0 A A' x He0). intros k Hk'. by apply Hk.
  - intros slx He. apply (entry_agree s slx A A' x He). intros k Hk'. by apply Hk.
  - intros k Hk'. by apply Hk.
Qed.

(** A block that is selected for the first time. *)
Lemma updating_in st A dn ib start endt : updating st A dn -> ib ∈ hist -> ib.1 ∉ dn -> selected start endt ib.2 ->
  exists st' A', repartition_block start endt ib.1 st = Ret st' /\ updating st' A' (ib.1 :: dn).
Proof.
  intros Hu Hin Hnd (mn & mx & Hmm & Hsel). pose proof (done_room _ _ _ _ Hu Hin Hnd) as Hleft.
  pose proof (updating_keys _ _ _ Hu) as Hkeys. pose proof (updating_entry st A dn) as Hent.
  destruct (Hent _ Hu Hin) as [[_ Hb'] He]. rewrite decide_False in He by done. pose proof Hu as [Hk [Hno Hdom] [Hdn Hsub] Hst Hes Hnx].
  pose proof Hin as Hin'. destruct ib as [id b]. cbn [fst snd] in *. apply list_elem_of_split in Hin' as (h1 & h2 & Eh).
  assert (NoDup (own_ids A id)) as Hno'.
  { rewrite Eh, owned_split in Hno. by apply NoDup_app in Hno as (_ & _ & (? & _)%NoDup_app). }
  destruct (repartition_block_in st A id b start endt mn mx) as (st' & A' & E & Hk' & Hnx' & He' & Hni' & Hids & Hgone & Hsame); try done; [lia|].
  assert (forall x, x ∈ hist <-> x = (id, b) \/ x ∈ h1 ++ h2) as Hhist by (intros x; rewrite Eh; set_solver).
  pose proof (others_kept A A' h1 (id, b) h2 (nextBlockId_ (bman_ st))) as Hothers. cbn [fst] in Hothers.
  rewrite <- Eh in Hothers. ospecialize (Hothers Hno _ _ Hids Hsame).
  { intros k [blk Hblk]. by apply (kept_blocks _ _ _ _ Hk) in Hblk as (_ & _ & ? & _). }
  { intros x Hx. eexists. apply (Hent x Hu). apply Hhist. by right. }
  assert (owned_ids A' h1 = owned_ids A h1 /\ owned_ids A' h2 = owned_ids A h2) as [Eo1 Eo2].
  { split; apply Forall_bind_ext, Forall_forall; intros x Hx; apply Hothers; set_solver. }
  assert (owned_ids A' hist = owned_ids A h1 ++ own_ids A' id ++ owned_ids A h2) as Eo by (by rewrite Eh, owned_split, Eo1, Eo2).
  assert (Hold_out : forall k, k ∈ owned_ids A h1 ++ owned_ids A h2 -> k ∉ own_ids A' id).
  { intros k Hko. assert (exists x, x ∈ h1 ++ h2 /\ k ∈ own_ids A x.1) as (x & Hx & Hkx); [|by apply (Hothers x Hx)].
    apply elem_of_app in Hko as [(x & ? & ?)%list_elem_of_bind|(x & ? & ?)%list_elem_of_bind]; exists x; set_solver. }
  rewrite Eh, owned_split in Hno. apply NoDup_app in Hno as (Hn1 & Hd1 & (_ & _ & Hn2)%NoDup_app). cbn [fst] in *.
  exists st', A'. split; [done|]. split; [done| | |done| |].
  - rewrite Eo. split.
    + apply NoDup_app. split_and!; [done| |apply NoDup_app; split_and!; [done| |done]].
      * intros k Hk1 [Hk2|Hk2]%elem_of_app; [apply (Hold_out k); [|done]|apply (Hd1 k Hk1)]; apply elem_of_app; [by left|by right].
      * intros k Hk1 Hk2. apply (Hold_out k); [|done]. apply elem_of_app. by right.
    + intros k Hks. rewrite !elem_of_app. destruct (decide (k ∈ own_ids A' id)) as [?|Hkn]; [by right; left|].
      destruct (decide (k ∈ own_ids A id)) as [Hko|Hko]; [rewrite (Hgone k Hko Hkn) in Hks; by destruct Hks|].
      rewrite (Hsame k Hko Hkn) in Hks. apply Hdom in Hks. rewrite Eh, owned_split, !elem_of_app in Hks. cbn [fst] in Hks. tauto.
  - split; [by constructor|]. intros k [->|Hk1]%elem_of_cons; [by apply (list_elem_of_fmap_2 fst _ (id, b))|by apply Hsub].
  - apply Forall_forall. intros x [-> | Hx]%Hhist; [by rewrite decide_True by left|].
    destruct (Hothers x Hx) as (_ & Hx1 & Hx2). assert (x.1 <> id) as Hne by (intros Ex; apply (Hx2 x.1); [left|rewrite Ex; left]).
    destruct (Hent x Hu) as [_ Hex]; [apply Hhist; by right|]. apply Hx1 in Hex.
    destruct (decide (x.1 ∈ dn)); [rewrite decide_True by set_solver|rewrite decide_False by set_solver]; done.
  - cbn [length]. lia.
Qed.

(** The times of the lists of the history. *)
Definition entry_times (id : BlockId) (v : VertexId) : list Timestamp :=
  match assoc_find id hist with Some b => vertex_times v [b] | None => [] end.

Lemma updating_lists A dn : readable_lists BlockManager.getBlock (fun st => updating st A dn) entry_times.
Proof.
  intros d st (_ & Hh & _) Hu. unfold entry_times in *. destruct (assoc_find (iv_id d) hist) as [b|] eqn:Eb; [|done].
  apply assoc_find_Some in Eb. destruct (updating_entry _ _ _ _ Hu Eb) as [[Hb Hb'] He]. cbn [fst snd] in *.
  destruct (read_master _ st A (iv_id d, b) (up_held _ _ _ Hu) He Hb Hb') as (m0 & m & st' & _ & _ & E & _ & _ & Hk & Hn & Hc). cbn [fst snd] in *.
  pose proof (derived_vertex_times _ b m (iv_vertex d) (proj1 (content_derived _ _ _) Hc)) as Ht. rewrite (block_vertex_times _ m) in Ht.
  destruct (assoc_find (iv_vertex d) (neigs_ m)) as [nl|] eqn:Enl; [|by rewrite <- Ht in Hh].
  exists m, st', nl. split_and!; try done. by eapply updating_read.
Qed.

Lemma located_entry d : located entry_times d -> exists b, (iv_id d, b) ∈ hist.
Proof.
  intros (_ & Hh & _). unfold entry_times in Hh. destruct (assoc_find (iv_id d) hist) as [b|] eqn:Eb; [|done].
  exists b. by apply assoc_find_Some.
Qed.

Lemma entry_unique st A dn id b b' : updating st A dn -> (id, b) ∈ hist -> (id, b') ∈ hist -> b = b'.
Proof.
  intros Hk%updating_keys H1 H2. apply (assoc_find_elem id b hist Hk) in H1. apply (assoc_find_elem id b' hist Hk) in H2. congruence.
Qed.

Lemma selected_dec start endt b : well_stored s sl b -> selected start endt b \/ ~ selected start endt b.
Proof.
  intros Hb. destruct (ws_mid _ _ _ Hb) as (mn & mx & Hmm & _).
  destruct (dltb (midpoint mn mx) start || dleb endt (midpoint mn mx)) eqn:E; [right|left; by exists mn, mx].
  intros (mn1 & mx1 & Hmm1 & E1). rewrite Hmm in Hmm1. injection Hmm1 as <- <-. congruence.
Qed.

(** The turn for a block not seen before. *)
Lemma turn_ok st A dn ib start endt (seen : list BlockId) : updating st A dn -> ib ∈ hist -> ib.1 ∉ seen ->
  (forall x, x ∈ hist -> x.1 ∈ dn -> selected start endt x.2 -> x.1 ∈ seen) ->
  exists st' A' dn', repartition_block start endt ib.1 st = Ret st' /\ updating st' A' dn' /\ dn ⊆ dn' /\
    (selected start endt ib.2 -> ib.1 ∈ dn') /\ (forall x, x ∈ hist -> x.1 ∈ dn' -> x.1 ∈ dn \/ (selected start endt x.2 /\ x.1 = ib.1)).
Proof.
  intros Hu Hin Hns Hseen. destruct (updating_entry _ _ _ _ Hu Hin) as [[Hb _] _].
  destruct (selected_dec start endt ib.2 Hb) as [Hs|Hs].
  - destruct (updating_in st A dn ib start endt Hu Hin) as (st' & A' & E & Hu'); [by intros Hd; apply Hns, Hseen|done|].
    exists st', A', (ib.1 :: dn). split_and!; [done|done|set_solver|intros _; left|]. destruct ib as [id b]. intros [id' b'] Hx [Ex|?]%elem_of_cons; [|by left].
    cbn in Ex. subst id'. right. split; [|done]. cbn in *. by rewrite (entry_unique _ _ _ id b' b Hu).
  - destruct (updating_out st A dn ib start endt Hu Hin Hs) as (st' & E & Hu'). exists st', A, dn. split_and!; try done. by left.
Qed.

Section Range.
Context (start endt : Timestamp) (Hstart : num start) (Hend : num endt).
#[local] Abbreviation hit := (hits entry_times start endt).
#[local] Abbreviation standing := (at_hit start endt).

(** The loop takes the selected blocks of the lists it visits to the new
    slices. *)
Lemma update_loop_ok fuel : forall l it st A dn (seen : list BlockId),
  updating st A dn -> standing it (seek hit l) -> Forall (fun d => interval_ok d /\ located entry_times d) l -> (length (seek hit l) < fuel)%nat ->
  (forall x, x ∈ hist -> x.1 ∈ dn -> selected start endt x.2 -> x.1 ∈ seen) ->
  exists st' A' dn', update_loop fuel start endt seen it st = Ret st' /\ updating st' A' dn' /\ dn ⊆ dn' /\
    (forall d b, d ∈ l -> hit d = true -> (iv_id d, b) ∈ hist -> selected start endt b -> iv_id d ∈ seen \/ iv_id d ∈ dn') /\
    (forall x, x ∈ hist -> x.1 ∈ dn' -> x.1 ∈ dn \/ selected start endt x.2).
Proof.
  induction fuel as [|fuel IH]; intros l it st A dn seen Hu Hit Hl Hf Hseen; [lia|]. cbn [update_loop].
  pose proof Hit as [(_ & _ & Hv) Hc]. pose proof (seek_Forall _ hit _ Hl) as Hl'.
  pose proof (seek_split hit l) as Hsplit. pose proof (seek_none hit l) as Hnone.
  destruct (seek hit l) as [|d rest] eqn:Es; cbn in Hv; unfold iq_isValid; rewrite Hv; cbn [valid_].
  { exists st, A, dn. split_and!; [done..| |by left]. intros d b Hd Hh. by rewrite (Hnone eq_refl d Hd) in Hh. }
  unfold getBlockId. rewrite (Hc d rest eq_refl). cbn [or_undefined mbind outcome_bind].
  apply Forall_cons in Hl' as [[_ Hd] Hrest]. pose proof (seek_length hit rest). cbn [length] in Hf.
  destruct (iq_next_ok _ _ _ start endt Hstart Hend (updating_lists A dn) it st d rest Hit Hrest Hu) as (it1 & st1 & -> & Hu1 & Hit1).
  cbn [mbind outcome_bind]. destruct (decide (iv_id d ∈ seen)) as [Hds|Hds].
  { destruct (IH rest it1 st1 A dn seen Hu1 Hit1 Hrest) as (st' & A' & dn' & E & Hu' & Hsub & Hvis & Hgot); [lia|done|].
    exists st', A', dn'. split_and!; try done. intros x b Hx Hh. destruct (Hsplit d rest eq_refl x Hx Hh) as [->|?]; [by left|by apply Hvis]. }
  destruct (located_entry d Hd) as [b Hb].
  destruct (turn_ok st1 A dn (iv_id d, b) start endt seen Hu1 Hb Hds Hseen) as (st2 & A2 & dn2 & E2 & Hu2 & Hsub2 & Hsel2 & Hgot2). cbn [fst snd] in *.
  rewrite E2. cbn [mbind outcome_bind].
  destruct (IH rest it1 st2 A2 dn2 (iv_id d :: seen) Hu2 Hit1 Hrest) as (st' & A' & dn' & E & Hu' & Hsub & Hvis & Hgot); [lia| |].
  { intros x Hx Hxd Hxs. destruct (Hgot2 x Hx Hxd) as [?|[_ ->]]; [right; by apply Hseen|left]. }
  exists st', A', dn'. split_and!; [done|done|by etransitivity| |].
  - intros x bx Hx Hh Hbx Hsx. destruct (Hsplit d rest eq_refl x Hx Hh) as [->|Hxr].
    + right. apply Hsub, Hsel2. by rewrite (entry_unique _ _ _ (iv_id d) b bx Hu1).
    + destruct (Hvis x bx Hxr Hh Hbx Hsx) as [[Ei|?]%elem_of_cons|?]; [|by left|by right].
      right. rewrite Ei in Hbx |- *. apply Hsub, Hsel2. by rewrite (entry_unique _ _ _ (iv_id d) b bx Hu1).
  - intros x Hx Hxd. destruct (Hgot x Hx Hxd) as [Hx2|?]; [|by right]. destruct (Hgot2 x Hx Hx2) as [?|[? _]]; [by left|by right].
Qed.

Context {R : Type} `{SpatialIndex R, !SpatialIndexOk R} (iqIdx : RTreeIntervalIndex R) (L : list IntervalData).
Context (Hix : iq_indexed iqIdx L) (Hloc : Forall (located entry_times) L) (Hle : dkey start <= dkey endt).

(** What [updateBlocks] leaves. *)
Lemma updateBlocks_ok st A dn : updating st A dn -> (forall x, x ∈ hist -> x.1 ∈ dn -> ~ selected start endt x.2) ->
  exists st' A' dn', updateBlocks iqIdx start endt st = Ret st' /\ updating st' A' dn' /\ dn ⊆ dn' /\
    (forall d b, d ∈ L -> hit d = true -> (iv_id d, b) ∈ hist -> selected start endt b -> iv_id d ∈ dn') /\
    (forall x, x ∈ hist -> x.1 ∈ dn' -> x.1 ∈ dn \/ selected start endt x.2).
Proof.
  intros Hu Hdn. destruct (iq_query_ok _ _ _ start endt Hstart Hend (updating_lists A dn) iqIdx L st Hix Hloc Hle Hu) as (it & st1 & l & E & Hu1 & Hit & Hl & Hok).
  destruct (update_loop_ok (find_fuel it) l it st1 A dn [] Hu1 Hit Hok) as (st' & A' & dn' & E' & Hu' & Hsub & Hvis & Hgot).
  { pose proof (pending_length _ _ _ _ (proj1 Hit)). unfold find_fuel. lia. }
  { intros x Hx Hxd Hxs. by destruct (Hdn x Hx Hxd). }
  exists st', A', dn'. split_and!; [|done|done| |done].
  - unfold updateBlocks. rewrite E. done.
  - intros d b Hd Hh Hb Hs. rewrite Forall_forall in Hloc. destruct (Hvis d b) as [[]%elem_of_nil|?]; try done.
    rewrite Hl. apply list_elem_of_filter. split; [|done]. by apply (hits_touches entry_times); [apply Hloc|].
Qed.
End Range.
End Loop.
End Update.
