(* ===== verification/RepartitionHistory.v ===== *)
(** * The history after a replacement

    [replaceTimeSlicedPartitioning] and [replaceTimeSlicedPartitionings] leave
    a graph that holds the same history over the new slices, when every block
    whose time lies in a replaced slice has an edge there; the requests they
    refuse; and a block without such an edge, which they leave behind. *)

From Stdlib Require Import ZArith Lia Permutation.
From stdpp Require Import base numbers gmap strings list sorting.
From S2P Require Import Prelude.
From S2P Require Import Double.
From S2P Require Import NetworkByteBuffer.
From S2P Require Import LevelDB.
From S2P Require Import Schema.
From S2P Require Import AttributeData.
From S2P Require Import NeighborList.
From S2P Require Import PartitionIndex.
From S2P Require Import Block.
From S2P Require Import BlockContent.
From S2P Require Import BlockStorage.
From S2P Require Import BlockManager.
From S2P Require Import FocusedIndex.
From S2P Require Import IntervalIndex.
From S2P Require Import Conf.
From S2P Require Import Query.
From S2P Require Import PartitionChoice.
From S2P Require Import HistoricalGraph.
From S2P Require Import DerivedBlocks.
From S2P Require Import HistoryBlocks.
From S2P Require Import HistoryInvariant.
From S2P Require Import HistoryQuery.
From S2P Require Import HistoryVertices.
From S2P Require Import Slices.
From S2P Require Import Repartition.
From S2P Require Import BlockReplacement.
From S2P Require Import RepartitionInvariant.

#[local] Arguments be : simpl never.

(** ** Ranges that follow each other *)

(** A slice with proper bounds selects the blocks whose time it has. *)
Definition proper_slice (t : TimeSlicedPartitioning) : Prop := num (startTime_ t) /\ num (endTime_ t).

Lemma selected_in_slice t b mn mx : proper_slice t -> instant (midpoint mn mx) -> findMinMaxTimestamps b = Ret (mn, mx) ->
  selected (startTime_ t) (endTime_ t) b <-> in_slice (midpoint mn mx) t = true.
Proof.
  intros [Hs He] Hi%instant_num Hmm. unfold selected, in_slice.
  assert (dltb (midpoint mn mx) (startTime_ t) || dleb (endTime_ t) (midpoint mn mx) =
    negb (dleb (startTime_ t) (midpoint mn mx) && dltb (midpoint mn mx) (endTime_ t))) as Eb.
  { rewrite !dltb_num, !dleb_num by done. rewrite negb_andb, <- Z.ltb_antisym, <- Z.leb_antisym. done. }
  split.
  - intros (mn1 & mx1 & Hmm1 & E). rewrite Hmm in Hmm1. injection Hmm1 as <- <-. rewrite Eb in E. by apply negb_false_iff in E.
  - intros E. exists mn, mx. rewrite Eb, E. done.
Qed.

Lemma tiles_later x y r rest t time : tiles x y (r :: rest) -> t ∈ rest -> in_slice time r = true -> in_slice time t = true -> False.
Proof.
  intros (_ & _ & Ht) Hin H1%in_slice_bounds H2%in_slice_bounds. apply tiles_starts in Ht. rewrite Forall_forall in Ht. specialize (Ht t Hin). lia.
Qed.

Lemma tiling_proper sl : tiling sl -> Forall proper_slice sl.
Proof.
  intros [Ht _ He]. revert Ht. assert (num dninf) as Hn by (by vm_compute). revert Hn. generalize dninf as x.
  induction He as [|t sl Hte He IH]; intros x Hx Ht; constructor; destruct Ht as (Es & _ & Ht).
  - split; [by rewrite Es|by apply instant_num].
  - apply (IH (endTime_ t)); [by apply instant_num|done].
Qed.

(** ** All the ranges *)

Section Update.
Context (s : Schema) (Hdef : defined_schema s).
Context (l1 olds news l2 : list TimeSlicedPartitioning).
#[local] Abbreviation sl := (l1 ++ olds ++ l2).
#[local] Abbreviation sl' := (l1 ++ news ++ l2).
Context (Hold : tiling sl) (Hnew : tiling sl') (Hparts : parts_ok s sl) (Hparts' : parts_ok s sl').
Context {D : Type} `{LevelDB D, !LevelDBOk D} {R : Type} `{SpatialIndex R, !SpatialIndexOk R}.
Context (hist : list (BlockId * Block)) (n0 : Z) (Hroom : n0 + 2 ^ 24 * Z.of_nat (length hist) < 2 ^ 64).
Context (iqIdx : RTreeIntervalIndex R) (L : list IntervalData).
Context (Hix : iq_indexed iqIdx L) (Hloc : Forall (located (entry_times hist)) L).
#[local] Abbreviation updating := (updating (D := D) s l1 olds news l2 hist n0).

Lemma update_all_ok ranges : forall x y st A dn, tiles x y ranges -> Forall proper_slice ranges -> updating st A dn ->
  (forall ib t, ib ∈ hist -> ib.1 ∈ dn -> t ∈ ranges -> ~ selected (startTime_ t) (endTime_ t) ib.2) ->
  exists st' A' dn', update_all iqIdx ranges st = Ret st' /\ updating st' A' dn' /\ dn ⊆ dn' /\
    (forall t d b, t ∈ ranges -> d ∈ L -> hits (entry_times hist) (startTime_ t) (endTime_ t) d = true ->
      (iv_id d, b) ∈ hist -> selected (startTime_ t) (endTime_ t) b -> iv_id d ∈ dn') /\
    (forall ib, ib ∈ hist -> ib.1 ∈ dn' -> ib.1 ∈ dn \/ exists t, t ∈ ranges /\ selected (startTime_ t) (endTime_ t) ib.2).
Proof.
  induction ranges as [|r ranges IH]; intros x y st A dn Ht Hp Hu Hdn.
  { exists st, A, dn. split_and!; [done..| |by left]. intros t d b []%elem_of_nil. }
  pose proof Ht as (Es & Hlt & Ht'). apply Forall_cons in Hp as [Hr Hp]. rewrite <- Es in Hlt. pose proof Hr as [Hrs Hre].
  destruct (updateBlocks_ok s Hdef l1 olds news l2 Hold Hnew Hparts Hparts' hist n0 Hroom (startTime_ r) (endTime_ r) Hrs Hre iqIdx L Hix Hloc)
    with (st := st) (A := A) (dn := dn) as (st1 & A1 & dn1 & E1 & Hu1 & Hsub1 & Hvis1 & Hgot1); [lia|done|..].
  { intros ib Hin Hd. by apply (Hdn ib r Hin Hd); left. }
  destruct (IH (endTime_ r) y st1 A1 dn1 Ht' Hp Hu1) as (st2 & A2 & dn2 & E2 & Hu2 & Hsub2 & Hvis2 & Hgot2).
  { intros ib t Hin Hd Hti Hsel. destruct (Hgot1 ib Hin Hd) as [Hd0|Hsr]; [by apply (Hdn ib t Hin Hd0); [right|]|].
    pose proof (up_stored _ _ _ _ _ _ _ _ _ _ Hu) as Hst. rewrite Forall_forall in Hst. destruct (ws_mid _ _ _ (proj1 (Hst ib Hin))) as (mn & mx & Hmm & Hi & _).
    rewrite Forall_forall in Hp. apply (selected_in_slice _ _ mn mx) in Hsr; [|done..]. apply (selected_in_slice _ _ mn mx) in Hsel; [|by apply Hp|done..].
    by apply (tiles_later x y r ranges t (midpoint mn mx)). }
  exists st2, A2, dn2. unfold update_all in *. cbn [foldM]. rewrite E1. cbn [mbind outcome_bind]. split_and!; [done|done|by etransitivity| |].
  - intros t d b [->|Hti]%elem_of_cons Hd Hh Hin Hsel; [by apply Hsub2, (Hvis1 d b)|by apply (Hvis2 t d b)].
  - intros ib Hin Hd. destruct (Hgot2 ib Hin Hd) as [Hd1|(t & Hti & Hsel)]; [|right; exists t; split; [by right|done]].
    destruct (Hgot1 ib Hin Hd1) as [?|?]; [by left|right; exists r; split; [left|done]].
Qed.
End Update.

(** ** From one history to the other *)

Section Between.
Context (s : Schema) (l1 olds news l2 : list TimeSlicedPartitioning).
#[local] Abbreviation sl := (l1 ++ olds ++ l2).
#[local] Abbreviation sl' := (l1 ++ news ++ l2).
Context {D : Type} `{LevelDB D, !LevelDBOk D} {R : Type} `{SpatialIndex R, !SpatialIndexOk R}.
Context (hist : list (BlockId * Block)) (n0 : Z).
#[local] Abbreviation updating := (updating (D := D) s l1 olds news l2 hist n0).

(** The blocks of the ranges have an edge in the range of their time. *)
Definition edges_in_ranges (ranges : list TimeSlicedPartitioning) : Prop :=
  forall ib t, ib ∈ hist -> t ∈ ranges -> selected (startTime_ t) (endTime_ t) ib.2 ->
    exists v tm, tm ∈ vertex_times v [ib.2] /\ within (startTime_ t) (endTime_ t) tm = true.

Lemma history_times (g : HistoricalGraph D R) A d : hist_ok s sl g A hist -> d ∈ history_intervals hist ->
  stored_times A (iv_id d) (iv_vertex d) = entry_times hist (iv_id d) (iv_vertex d).
Proof.
  intros Hg ([id b] & Hd & Hin)%list_elem_of_bind. cbn [fst snd] in Hd.
  pose proof (ho_blocks _ _ _ _ _ Hg) as Hb. rewrite Forall_forall in Hb. destruct (Hb _ Hin) as [Hhold _]. cbn in Hhold.
  destruct (bw_ok _ _ (ws_wf _ _ _ (hb_stored _ _ _ _ _ Hhold))) as [Hnd _].
  destruct (block_interval id b d Hnd Hd) as (-> & _). rewrite (holds_times s sl A id b _ Hhold).
  unfold entry_times. rewrite (assoc_find_elem id b hist); [done| |done].
  apply (owned_keys A), (ho_owned _ _ _ _ _ Hg).
Qed.

Lemma history_entry_located (g : HistoricalGraph D R) A : hist_ok s sl g A hist -> Forall (located (entry_times hist)) (history_intervals hist).
Proof.
  intros Hg. pose proof (history_located s sl g A hist Hg) as Hl. rewrite Forall_forall in Hl. apply Forall_forall. intros d Hd.
  specialize (Hl d Hd). unfold located in *. by rewrite <- (history_times g A d Hg Hd).
Qed.

(** Such a block is found by its range. *)
Lemma range_finds (g : HistoricalGraph D R) A ib v tm start endt : hist_ok s sl g A hist -> ib ∈ hist ->
  tm ∈ vertex_times v [ib.2] -> within start endt tm = true ->
  exists d, d ∈ history_intervals hist /\ iv_id d = ib.1 /\ hits (entry_times hist) start endt d = true.
Proof.
  intros Hg Hin Htm Hw. destruct ib as [id b]. cbn [fst snd] in *. pose proof Htm as Htb. rewrite block_vertex_times in Htb.
  destruct (assoc_find v (neigs_ b)) as [nl|] eqn:Enl; [|by apply elem_of_nil in Htb].
  assert (exists d, list_interval id (v, nl) = Some d /\ iv_vertex d = v /\ iv_id d = id) as (d & Ed & Hv & Hid).
  { unfold list_interval. cbn [fst snd]. destruct (edges_ nl) as [|e es]; [by apply elem_of_nil in Htb|]. cbn [head].
    destruct (last (e :: es)) eqn:E; [by eexists|by apply last_None in E]. }
  assert (d ∈ history_intervals hist) as Hd.
  { apply list_elem_of_bind. exists (id, b). split; [|done]. apply list_elem_of_omap. exists (v, nl). split; [by apply assoc_find_Some|done]. }
  exists d. split_and!; [done|done|]. unfold hits. rewrite <- (history_times g A d Hg Hd), Hid, Hv.
  pose proof (ho_blocks _ _ _ _ _ Hg) as Hb. rewrite Forall_forall in Hb. destruct (Hb _ Hin) as [Hhold _].
  rewrite (holds_times s sl A id b v Hhold). apply existsb_exists. exists tm. split; [by apply list_elem_of_In|done].
Qed.

Lemma history_updating (g : HistoricalGraph D R) A p : hist_ok s sl g A hist -> nextBlockId_ (bman_ (hg_store_ g)) = n0 ->
  Forall (fun ib => well_stored s sl' ib.2) hist -> replacing l1 olds news l2 s p -> updating (with_index p (hg_store_ g)) A [].
Proof.
  intros Hg Hn Hb' Hp. pose proof (ho_blocks _ _ _ _ _ Hg) as Hb. pose proof (proj1 (rep_kept _ _ _ _) (ho_rep _ _ _ _ _ Hg)) as [[] Hr].
  split.
  - split; try done.
  - apply (ho_owned _ _ _ _ _ Hg).
  - split; [constructor|by intros k []%elem_of_nil].
  - rewrite Forall_forall in Hb, Hb'. apply Forall_forall. intros ib Hin. split; [apply (Hb ib Hin)|by apply Hb'].
  - eapply Forall_impl; [exact Hb|]. intros ib Hib. rewrite decide_False by (intros []%elem_of_nil). split; [done|]. intros k blk _ Hblk. by apply (Hr k).
  - cbn. lia.
Qed.

Lemma updating_history (Hold : tiling sl) (Hnew : tiling sl') st A dn ranges : updating st A dn -> (ranges = olds \/ ranges = news) ->
  (forall ib t, ib ∈ hist -> t ∈ ranges -> selected (startTime_ t) (endTime_ t) ib.2 -> ib.1 ∈ dn) ->
  rep s sl' (with_index (completePartitioningRemovals (pidx_ st)) st) A /\
  Forall (fun ib => holds_block s sl' A ib.1 ib.2 /\ heads_ok ib.2) hist.
Proof.
  intros [Hk [_ Hdom] _ Hst He _] Hranges Hdn. rewrite Forall_forall in Hst. rewrite Forall_forall in He.
  pose proof (tiling_proper _ Hold) as Hpo. pose proof (tiling_proper _ Hnew) as Hpn. rewrite Forall_forall in Hpo. rewrite Forall_forall in Hpn.
  assert (forall ib, ib ∈ hist -> entry_ok s sl' A ib) as He'.
  { intros ib Hin. specialize (He ib Hin). case_decide as Hd; [done|]. destruct (Hst ib Hin) as [Hb Hb'].
    destruct (ws_mid _ _ _ Hb) as (mn & mx & Hmm & Hi & Hlt & Hno). destruct (ws_mid _ _ _ Hb') as (mn' & mx' & Hmm' & _ & _ & Hno').
    rewrite Hmm in Hmm'. injection Hmm' as <- <-. apply (entry_other s sl sl' A ib mn mx Hnew He Hb' Hmm).
    intros t Ht Hit. rewrite !elem_of_app in Ht. destruct Ht as [?|[Hto|?]]; [set_solver| |set_solver]. destruct Hd.
    destruct Hranges as [-> | ->].
    - apply (Hdn ib t Hin Hto). apply (selected_in_slice t ib.2 mn mx); [apply Hpo; set_solver|done..].
    - destruct (middle_time l1 news olds l2 Hnew Hold (midpoint mn mx) t Hi Hlt Hno' Hto Hit) as (t' & Ht' & Hit').
      apply (Hdn ib t' Hin Ht'). apply (selected_in_slice t' ib.2 mn mx); [apply Hpn; set_solver|done..]. }
  split.
  - apply rep_kept. destruct Hk. split; [split; try done; by apply (complete_ok l1 olds news l2 s)|].
    intros k blk Hblk. assert (is_Some (A !! k)) as ([id b] & Hki & Hin)%Hdom%list_elem_of_bind by by exists blk.
    by apply (proj2 (He' (id, b) Hin) k).
  - apply Forall_forall. intros ib Hin. apply (He' ib Hin).
Qed.
End Between.

(** ** What is checked *)

Lemma distinct_ok l : NoDup (foldl (fun seen x => set_insert x seen) [] l) /\ forall x, x ∈ foldl (fun seen x => set_insert x seen) [] l <-> x ∈ l.
Proof.
  assert (forall acc, NoDup acc -> NoDup (foldl (fun seen x => set_insert x seen) acc l) /\
    forall x, x ∈ foldl (fun seen x => set_insert x seen) acc l <-> x ∈ acc \/ x ∈ l) as Hg.
  { induction l as [|y l IH]; intros acc Hacc; cbn [foldl]; [split; [done|]; intros x; rewrite elem_of_nil; tauto|].
    destruct (IH (set_insert y acc)) as [H1 H2].
    - unfold set_insert. case_decide; [done|]. apply NoDup_app. split_and!; [done|set_solver|apply NoDup_singleton].
    - split; [done|]. intros x. rewrite H2, elem_of_set_insert, elem_of_cons. tauto. }
  destruct (Hg []) as [H1 H2]; [constructor|]. split; [done|]. intros x. rewrite H2, elem_of_nil. tauto.
Qed.

(** A partitioning that covers the schema has as many attributes. *)
Lemma covering_count s part : defined_schema s -> NoDup (name_ <$> attributes_ s) -> covers s part ->
  getPartitioningAttributeCount part = length (attributes_ s).
Proof.
  intros [Hs _] Hnd [Hnames Hall]. unfold getPartitioningAttributeCount. destruct (distinct_ok (concat part)) as [H1 H2].
  rewrite <- (length_fmap name_ (attributes_ s)). apply Permutation_length, NoDup_Permutation; [done..|].
  intros x. rewrite H2. split.
  - intros Hx. apply list_elem_of_In, in_concat in Hx as (attrs & Ha%list_elem_of_In & Hx%list_elem_of_In).
    rewrite Forall_forall in Hnames. specialize (Hnames attrs Ha). unfold names_of_schema in Hnames. rewrite Forall_forall in Hnames.
    destruct (Hnames x Hx) as [i Hi]. destruct (names_sound _ Hs _ _ Hi) as (j & a & _ & Hj & <-).
    apply list_elem_of_fmap_2. by eapply list_elem_of_lookup_2.
  - intros (a & -> & Ha)%list_elem_of_fmap. pose proof (unique_name_index s a Hs Hnd Ha) as Hi.
    destruct (Hall (index_ a)) as (attrs & Hp & y & Hy & Hyi).
    { apply newAttributeData_keys. eauto. }
    destruct (names_sound _ Hs _ _ Hyi) as (j & b & Ej & Hj & <-). apply list_elem_of_In, in_concat. exists attrs.
    split; [by apply list_elem_of_In|]. apply list_elem_of_In. apply list_elem_of_lookup in Ha as [k Hk].
    rewrite (Schema.index_ok _ Hs _ _ Hk) in Ej. assert (j = k) as -> by lia. rewrite Hk in Hj. by injection Hj as ->.
Qed.

Lemma covering_present {D} `{LevelDB D} s part (p : PartitionIndex D) : defined_schema s -> NoDup (name_ <$> attributes_ s) -> covers s part ->
  edgeSchema_ p = s -> missing_attributes part p = false.
Proof. intros Hs Hnd Hc <-. unfold missing_attributes. by rewrite (covering_count _ _ Hs Hnd Hc), Nat.eqb_refl. Qed.

Lemma tiles_contiguous sl : forall x y, tiles x y sl -> Forall proper_slice sl -> contiguous sl = true.
Proof.
  induction sl as [|t [|t' sl] IH]; intros x y Ht Hp; [done..|]. destruct Ht as (_ & _ & Ht). apply Forall_cons in Hp as [[_ He] Hp].
  change (contiguous (t :: t' :: sl)) with (deqb (startTime_ t') (endTime_ t) && contiguous (t' :: sl)).
  rewrite (IH _ _ Ht Hp), andb_true_r. pose proof Ht as (-> & _). by apply deqb_refl.
Qed.

Lemma tiles_first x y t sl : tiles x y (t :: sl) -> head (t :: sl) = Some t /\ startTime_ t = x.
Proof. by intros [-> _]. Qed.

Lemma tiles_last x y t sl : tiles x y (t :: sl) -> exists t', last (t :: sl) = Some t' /\ t' ∈ t :: sl /\ endTime_ t' = y.
Proof.
  intros Ht. destruct (exists_last (l := t :: sl) ltac:(done)) as (l & t' & E). rewrite E in *. exists t'. rewrite last_snoc.
  split_and!; [done|set_solver|]. apply tiles_app in Ht as (b & _ & (_ & _ & Hend)). done.
Qed.

(** ** Properties *)

Section Replacement.
Context (s : Schema) (Hdef : defined_schema s) (Hnames : NoDup (name_ <$> attributes_ s)).
Context (l1 olds news l2 : list TimeSlicedPartitioning).
#[local] Abbreviation sl := (l1 ++ olds ++ l2).
#[local] Abbreviation sl' := (l1 ++ news ++ l2).
Context (Hold : tiling sl) (Hnew : tiling sl') (Hparts : parts_ok s sl) (Hparts' : parts_ok s sl').
Context {D : Type} `{LevelDB D, !LevelDBOk D} {R : Type} `{SpatialIndex R, !SpatialIndexOk R}.
Context (g : HistoricalGraph D R) (A : gmap Z Block) (hist : list (BlockId * Block)).
Context (Hg : hist_ok s sl g A hist) (Hb' : Forall (fun ib => well_stored s sl' ib.2) hist).
Context (Hroom : nextBlockId_ (bman_ (hg_store_ g)) + 2 ^ 24 * Z.of_nat (length hist) < 2 ^ 64).

Lemma updating_keeps p ranges : replacing l1 olds news l2 s p -> (ranges = olds \/ ranges = news) -> edges_in_ranges hist ranges ->
  exists st' A', update_all (iqIndex_ g) ranges (with_index p (hg_store_ g)) = Ret st' /\
    hist_ok s sl' (mkHistory (hg_conf_ g) (with_index (completePartitioningRemovals (pidx_ st')) st') (iqIndex_ g) (fiqIndex_ g)) A' hist /\
    nextBlockId_ (bman_ st') <= nextBlockId_ (bman_ (hg_store_ g)) + 2 ^ 24 * Z.of_nat (length hist).
Proof.
  intros Hp Hranges Hfound. pose proof Hg as [Hconf Hrep Hbl Hown Hord Hiq Hfiq].
  pose proof (history_updating s l1 olds news l2 hist _ g A p Hg eq_refl Hb' Hp) as Hu.
  pose proof (tiling_proper _ Hold) as Hpo. pose proof (tiling_proper _ Hnew) as Hpn.
  destruct (middle_tiles l1 olds news l2 Hold Hnew) as (x & y & _ & Ht1 & Ht2 & _).
  assert (tiles x y ranges /\ Forall proper_slice ranges) as [Ht Hpr].
  { destruct Hranges as [-> | ->]; (split; [done|]); apply Forall_app in Hpo as [_ [? _]%Forall_app]; by apply Forall_app in Hpn as [_ [? _]%Forall_app]. }
  destruct (update_all_ok s Hdef l1 olds news l2 Hold Hnew Hparts Hparts' hist _ Hroom (iqIndex_ g) _ Hiq
    (history_entry_located s l1 olds l2 hist g A Hg) ranges x y _ A [] Ht Hpr Hu) as (st' & A' & dn & E & Hu' & _ & Hvis & _).
  { intros ib t _ []%elem_of_nil. }
  destruct (updating_history s l1 olds news l2 hist _ Hold Hnew st' A' dn ranges Hu' Hranges) as [Hrep' Hbl'].
  { intros ib t Hin Hti Hsel. destruct (Hfound ib t Hin Hti Hsel) as (v & tm & Htm & Hw).
    destruct (range_finds s l1 olds l2 hist g A ib v tm _ _ Hg Hin Htm Hw) as (d & Hd & Hid & Hh). rewrite <- Hid.
    apply (Hvis t d ib.2); try done. rewrite Hid. by destruct ib. }
  exists st', A'. split; [done|]. split; [by split; try apply Hu'|].
  pose proof (up_next _ _ _ _ _ _ _ _ _ _ Hu'). destruct (up_done _ _ _ _ _ _ _ _ _ _ Hu') as [Hnd Hsub].
  assert (length dn <= length hist)%nat; [|lia]. rewrite <- (length_fmap fst hist). by apply submseteq_length, NoDup_submseteq.
Qed.
End Replacement.

(** What the requests check holds. *)
Lemma middle_checked {D} `{LevelDB D} s l1 olds news l2 (p : PartitionIndex D) : defined_schema s -> NoDup (name_ <$> attributes_ s) ->
  tiling (l1 ++ olds ++ l2) -> tiling (l1 ++ news ++ l2) -> parts_ok s (l1 ++ news ++ l2) -> edgeSchema_ p = s ->
  olds <> [] \/ news <> [] -> exists fo lo fn ln,
    head olds = Some fo /\ last olds = Some lo /\ head news = Some fn /\ last news = Some ln /\
    deqb (startTime_ fo) (startTime_ fn) = true /\ deqb (endTime_ lo) (endTime_ ln) = true /\
    contiguous olds = true /\ contiguous news = true /\
    Forall (fun t => missing_attributes (partitioning_ t) p = false) news.
Proof.
  intros Hdef Hnames Hold Hnew Hparts Hsch Hne. pose proof (tiling_proper _ Hold) as Hpo. pose proof (tiling_proper _ Hnew) as Hpn.
  destruct (middle_tiles l1 olds news l2 Hold Hnew) as (x & y & _ & Ht1 & Ht2 & _).
  apply Forall_app in Hpo as [_ [Hpo _]%Forall_app]. apply Forall_app in Hpn as [_ [Hpn _]%Forall_app].
  assert (forall z l, tiles x x (z :: l) -> False) as Hloop.
  { intros z l (_ & Hlt & Ht). apply tiles_bounds in Ht as [? _]. lia. }
  destruct olds as [|fo olds], news as [|fn news]; [naive_solver| | |];
    [cbn in Ht1; subst; by destruct (Hloop _ _ Ht2)|cbn in Ht2; subst; by destruct (Hloop _ _ Ht1)|].
  pose proof (tiles_contiguous _ _ _ Ht1 Hpo) as Hc1. pose proof (tiles_contiguous _ _ _ Ht2 Hpn) as Hc2.
  destruct (tiles_last _ _ _ _ Ht1) as (lo & Hlo & Hil & Hel). destruct (tiles_last _ _ _ _ Ht2) as (ln & Hln & _ & Hen).
  exists fo, lo, fn, ln. rewrite Forall_forall in Hpo. split_and!; try done.
  - rewrite (proj2 (tiles_first _ _ _ _ Ht1)), (proj2 (tiles_first _ _ _ _ Ht2)). apply deqb_refl.
    rewrite <- (proj2 (tiles_first _ _ _ _ Ht1)). apply Hpo. left.
  - rewrite Hel, Hen. apply deqb_refl. rewrite <- Hel. by apply Hpo.
  - apply Forall_app in Hparts as [_ [Hparts _]%Forall_app]. eapply Forall_impl; [exact Hparts|]. intros t (Hc & _). by apply (covering_present s).
Qed.

Lemma well_stored_slices s sl sl' b : well_stored s sl b ->
  (forall mn mx, findMinMaxTimestamps b = Ret (mn, mx) -> midpoint mn mx ∉ endTime_ <$> sl') -> well_stored s sl' b.
Proof. intros [Hwf Hl (mn & mx & Hmm & Hi & Hlt & _) Hsz] Hno. split; [done|done| |done]. exists mn, mx. split_and!; try done. by apply Hno. Qed.

Definition with_history_store {D R} (st : Store D) (g : HistoricalGraph D R) : HistoricalGraph D R :=
  mkHistory (hg_conf_ g) st (iqIndex_ g) (fiqIndex_ g).

(** C3: replacing a slice by several, or several by one, keeps the history.
    When one slice is split, every block whose middle time lies in a new slice
    must have an edge in that new slice; when slices are merged, every block
    whose middle time lies in one of the old slices must have an edge in that
    old slice; and no block may have its middle time on a boundary of the new
    slices.  Then, with room for the slices in the cache and for the
    identifiers, [replaceTimeSlicedPartitioning] and
    [replaceTimeSlicedPartitionings] return, and the graph they leave holds the
    same blocks over the new slices, every one stored by the partitioning of
    its time, so that all queries answer as before. *)
Theorem repartition_keeps_history {D} `{LevelDB D, !LevelDBOk D} {R} `{SpatialIndex R, !SpatialIndexOk R} (s : Schema)
  (l1 olds news l2 : list TimeSlicedPartitioning) (g : HistoricalGraph D R) A hist :
  defined_schema s -> NoDup (name_ <$> attributes_ s) ->
  tiling (l1 ++ olds ++ l2) -> tiling (l1 ++ news ++ l2) -> parts_ok s (l1 ++ olds ++ l2) -> parts_ok s (l1 ++ news ++ l2) ->
  hist_ok s (l1 ++ olds ++ l2) g A hist -> edgeSchema_ (pidx_ (hg_store_ g)) = s ->
  Z.of_nat (length (l1 ++ news ++ l2)) <= partitioningBufferSize_ (pidx_ (hg_store_ g)) ->
  nextBlockId_ (bman_ (hg_store_ g)) + 2 ^ 24 * Z.of_nat (length hist) < 2 ^ 64 ->
  Forall (fun ib => forall mn mx, findMinMaxTimestamps ib.2 = Ret (mn, mx) -> midpoint mn mx ∉ endTime_ <$> news) hist ->
  (forall old, olds = [old] -> edges_in_ranges hist news ->
    exists st' A', replaceTimeSlicedPartitioning (iqIndex_ g) old news (hg_store_ g) = Ret st' /\
      hist_ok s (l1 ++ news ++ l2) (with_history_store st' g) A' hist /\
      nextBlockId_ (bman_ st') <= nextBlockId_ (bman_ (hg_store_ g)) + 2 ^ 24 * Z.of_nat (length hist)) /\
  (forall new, news = [new] -> edges_in_ranges hist olds ->
    exists st' A', replaceTimeSlicedPartitionings (iqIndex_ g) olds new (hg_store_ g) = Ret st' /\
      hist_ok s (l1 ++ news ++ l2) (with_history_store st' g) A' hist /\
      nextBlockId_ (bman_ st') <= nextBlockId_ (bman_ (hg_store_ g)) + 2 ^ 24 * Z.of_nat (length hist)).
Proof.
  intros Hdef Hnames Hold Hnew Hparts Hparts' Hg Hsch Hbuf Hroom Hno.
  assert (Forall (fun ib => well_stored s (l1 ++ news ++ l2) ib.2) hist) as Hb'.
  { pose proof (ho_blocks _ _ _ _ _ Hg) as Hbl. rewrite Forall_forall in Hbl. rewrite Forall_forall in Hno. apply Forall_forall. intros ib Hin.
    destruct (Hbl ib Hin) as [[Hb _] _]. apply (well_stored_slices s (l1 ++ olds ++ l2)); [done|]. intros mn mx Hmm.
    destruct (ws_mid _ _ _ Hb) as (mn' & mx' & Hmm' & _ & _ & Hn). rewrite Hmm in Hmm'. injection Hmm' as <- <-.
    specialize (Hno ib Hin mn mx Hmm). rewrite !fmap_app, !elem_of_app in *. tauto. }
  destruct (rep_index _ _ _ _ (ho_rep _ _ _ _ _ Hg)) as [Hidx Hrem].
  destruct (replacement_ok l1 olds news l2 Hnew s _ Hidx Hrem Hsch Hbuf) as (p1 & p2 & E1 & E2 & Hp & _).
  pose proof (updating_keeps s Hdef l1 olds news l2 Hold Hnew Hparts Hparts' g A hist Hg Hb' Hroom p2) as Hkeep.
  pose proof (middle_checked s l1 olds news l2 _ Hdef Hnames Hold Hnew Hparts' Hsch) as Hck.
  split.
  - intros old -> Hfound. destruct Hck as (fo & lo & fn & ln & Hfo & Hlo & Hfn & Hln & Hs & He & _ & Hc & Hm); [by left|].
    injection Hfo as <-. injection Hlo as <-. destruct (Hkeep news Hp) as (st' & A' & E & Hg' & Hn); [by right|done|].
    exists (with_index (completePartitioningRemovals (pidx_ st')) st'), A'. split; [|by split].
    unfold replaceTimeSlicedPartitioning. rewrite Hfn, Hln, Hs, He, Hc. cbn [negb].
    cbn [foldM] in E1. destruct (initiatePartitioningRemoval old (pidx_ (hg_store_ g))) as [p1'| | |]; try done. injection E1 as ->.
    cbn [mbind outcome_bind]. destruct (existsb _ news) eqn:Ex.
    { apply existsb_exists in Ex as (t & Ht%list_elem_of_In & Hmt). rewrite Forall_forall in Hm. by rewrite (Hm t Ht) in Hmt. }
    cbn [mbind outcome_bind]. rewrite E2. cbn [mbind outcome_bind]. by rewrite E.
  - intros new -> Hfound. destruct Hck as (fo & lo & fn & ln & Hfo & Hlo & Hfn & Hln & Hs & He & Hc & _ & Hm); [by right|].
    injection Hfn as <-. injection Hln as <-. destruct (Hkeep olds Hp) as (st' & A' & E & Hg' & Hn); [by left|done|].
    exists (with_index (completePartitioningRemovals (pidx_ st')) st'), A'. split; [|by split].
    unfold replaceTimeSlicedPartitionings. rewrite Hfo, Hlo, Hs, He, Hc. cbn [negb].
    apply Forall_inv in Hm. rewrite Hm, E1. cbn [mbind outcome_bind foldM] in E2 |- *.
    destruct (addPartitioning new p1) as [p2'| | |]; try done. injection E2 as ->. cbn [mbind outcome_bind]. by rewrite E.
Qed.

(** Slices that follow each other from [from] to [to]. *)
Fixpoint chained (from to : Timestamp) (sl : list TimeSlicedPartitioning) : Prop :=
  match sl with
  | [] => dkey from = dkey to
  | t :: sl => dkey (startTime_ t) = dkey from /\ chained (endTime_ t) to sl
  end.

Lemma chained_contiguous t : forall sl u, Forall proper_slice (t :: sl) -> last (t :: sl) = Some u ->
  contiguous (t :: sl) = true -> chained (startTime_ t) (endTime_ u) (t :: sl).
Proof.
  intros sl. revert t. induction sl as [|t' sl IH]; intros t u Hp Hl Hc.
  { injection Hl as <-. done. }
  apply Forall_cons in Hp as [[_ He] Hp]. rewrite last_cons_cons in Hl.
  change (contiguous (t :: t' :: sl)) with (deqb (startTime_ t') (endTime_ t) && contiguous (t' :: sl)) in Hc.
  apply andb_true_iff in Hc as [Hd%deqb_eq Hc]. split; [done|]. destruct (IH t' u Hp Hl Hc) as [_ ?]. split; [done|]. done.
Qed.

Lemma chained_ends from from' to to' sl : dkey from = dkey from' -> dkey to = dkey to' -> chained from to sl -> chained from' to' sl.
Proof. revert from from'. induction sl as [|t sl IH]; cbn; intros from from' H1 H2; [congruence|]. intros [H3 H4]. split; [congruence|by apply (IH (endTime_ t))]. Qed.

(** A partitioning with attributes of the schema passes the count when it has
    them all. *)
Lemma count_covers s part : defined_schema s -> NoDup (name_ <$> attributes_ s) -> Forall (names_of_schema s) part ->
  getPartitioningAttributeCount part = length (attributes_ s) -> covers s part.
Proof.
  intros [Hs _] Hnd Hn Hc. split; [done|]. intros i (a & Ha & <-)%newAttributeData_keys.
  unfold getPartitioningAttributeCount in Hc. destruct (distinct_ok (concat part)) as [H1 H2].
  set (seen := foldl _ [] (concat part)) in *. assert (name_ a ∈ seen) as Hin.
  { assert (seen ⊆+ name_ <$> attributes_ s) as Hsub.
    { apply NoDup_submseteq; [done|]. intros x (attrs & Hat%list_elem_of_In & Hx%list_elem_of_In)%H2%list_elem_of_In%in_concat.
      rewrite Forall_forall in Hn. specialize (Hn attrs Hat). unfold names_of_schema in Hn. rewrite Forall_forall in Hn.
      destruct (Hn x Hx) as [i Hi]. destruct (names_sound _ Hs _ _ Hi) as (j & b & _ & Hj & <-). apply list_elem_of_fmap_2. by eapply list_elem_of_lookup_2. }
    apply submseteq_length_Permutation in Hsub; [|rewrite length_fmap; lia]. rewrite Hsub. by apply list_elem_of_fmap_2. }
  apply H2, list_elem_of_In, in_concat in Hin as (attrs & Hat%list_elem_of_In & Hx%list_elem_of_In).
  exists attrs. split; [done|]. exists (name_ a). split; [done|]. by apply unique_name_index.
Qed.

(** C35: a replacement that names only attributes of the schema is refused with
    an exception when it is empty, when its slices do not follow each other
    from the start to the end of what they replace, or when one of its
    partitionings lacks an attribute of the schema. *)
Theorem replacement_refused {D} `{LevelDB D} {R} `{SpatialIndex R} (s : Schema) (iq : RTreeIntervalIndex R)
  (t : TimeSlicedPartitioning) (ts : list TimeSlicedPartitioning) (st : Store D) :
  defined_schema s -> NoDup (name_ <$> attributes_ s) -> edgeSchema_ (pidx_ st) = s ->
  Forall proper_slice (t :: ts) -> Forall (fun t => Forall (names_of_schema s) (partitioning_ t)) (t :: ts) ->
  (ts = [] \/ ~ (chained (startTime_ t) (endTime_ t) ts /\ Forall (fun t => covers s (partitioning_ t)) ts) ->
    exists description, replaceTimeSlicedPartitioning iq t ts st = Throw (time_sliced_partition_replacement description)) /\
  (ts = [] \/ ~ (chained (startTime_ t) (endTime_ t) ts /\ covers s (partitioning_ t)) ->
    exists description, replaceTimeSlicedPartitionings iq ts t st = Throw (time_sliced_partition_replacement description)).
Proof.
  intros Hdef Hnd Hsch [Ht Hp]%Forall_cons [Hnt Hn]%Forall_cons. unfold replaceTimeSlicedPartitioning, replaceTimeSlicedPartitionings.
  destruct ts as [|f ts]; [split; intros _; eexists; reflexivity|]. cbn [head].
  destruct (last (f :: ts)) as [u|] eqn:Hl; [|by apply last_None in Hl].
  assert (forall t, Forall (names_of_schema s) (partitioning_ t) -> missing_attributes (partitioning_ t) (pidx_ st) = false -> covers s (partitioning_ t)) as Hcov.
  { intros x Hx Hm. apply count_covers; [done..|]. unfold missing_attributes in Hm. rewrite Hsch in Hm.
    by apply negb_false_iff, Nat.eqb_eq in Hm. }
  assert (dkey (startTime_ f) = dkey (startTime_ t) -> dkey (endTime_ u) = dkey (endTime_ t) -> contiguous (f :: ts) = true ->
    chained (startTime_ t) (endTime_ t) (f :: ts)) as Hch.
  { intros Es Ee Hc. by eapply chained_ends; [exact Es|exact Ee|by apply chained_contiguous]. }
  split; intros [|Hno]; try done.
  - destruct (deqb (startTime_ t) (startTime_ f)) eqn:Es; [|eexists; reflexivity]. apply deqb_eq in Es.
    destruct (deqb (endTime_ t) (endTime_ u)) eqn:Ee; [|eexists; reflexivity]. apply deqb_eq in Ee.
    destruct (contiguous (f :: ts)) eqn:Ec; [|eexists; reflexivity]. cbn [negb].
    destruct (existsb _ (f :: ts)) eqn:Ex; [eexists; reflexivity|]. destruct Hno. split; [by apply Hch|].
    rewrite Forall_forall in Hn. apply Forall_forall. intros x Hx. apply Hcov; [by apply Hn|].
    apply not_true_iff_false. intros Hm. apply not_true_iff_false in Ex. apply Ex, existsb_exists. exists x. by split; [apply list_elem_of_In|].
  - destruct (deqb (startTime_ f) (startTime_ t)) eqn:Es; [|eexists; reflexivity]. apply deqb_eq in Es.
    destruct (deqb (endTime_ u) (endTime_ t)) eqn:Ee; [|eexists; reflexivity]. apply deqb_eq in Ee.
    destruct (contiguous (f :: ts)) eqn:Ec; [|eexists; reflexivity]. cbn [negb].
    destruct (missing_attributes (partitioning_ t) (pidx_ st)) eqn:Ex; [eexists; reflexivity|]. destruct Hno. split; [by apply Hch|by apply Hcov].
Qed.

(** *** Examples *)

Lemma example_parts_cover part : Forall (names_of_schema example_schema) part ->
  (exists attrs, attrs ∈ part /\ "weight" ∈ attrs) -> (exists attrs, attrs ∈ part /\ "tag" ∈ attrs) -> covers example_schema part.
Proof.
  intros Hn (aw & Haw & Hw) (at_ & Hat & Ht). split; [done|]. intros i (a & Ha & <-)%newAttributeData_keys.
  apply elem_of_cons in Ha as [->|Ha]; [exists aw; split; [done|]; by exists "weight"|].
  apply elem_of_cons in Ha as [->|Ha%elem_of_nil]; [|done]. exists at_. split; [done|]. by exists "tag".
Qed.

Lemma example_parts : parts_ok example_schema example_slices.
Proof.
  unfold parts_ok, example_slices. repeat (apply Forall_cons_2 || apply Forall_nil_2); (split; [|split; [done|by vm_compute]]).
  all: apply example_parts_cover; cbn; [repeat (apply Forall_cons_2 || apply Forall_nil_2); eexists; reflexivity|..].
  all: repeat (first [exists ["weight"; "tag"]; split; set_solver|exists ["weight"]; split; set_solver|exists ["tag"]; split; set_solver]).
Qed.

Definition example_run : outcome (HistoricalGraph (gmap bytes bytes) (list (bytes * Region * Z))) :=
  g ← newHistoricalGraph example_history_conf 0 true ∅ ∅ ∅ None; HistoricalGraph.addBlock example_block g.

Definition schema_and_room (g : outcome (HistoricalGraph (gmap bytes bytes) (list (bytes * Region * Z)))) : option (Schema * bool * Z) :=
  match g with
  | Ret g => Some (edgeSchema_ (pidx_ (hg_store_ g)), 3 <=? partitioningBufferSize_ (pidx_ (hg_store_ g)), nextBlockId_ (bman_ (hg_store_ g)))
  | _ => None
  end.

Lemma example_run_ok : exists g A id, example_run = Ret g /\
  hist_ok example_schema [initial_slice example_schema] g A [(id, example_block)] /\
  edgeSchema_ (pidx_ (hg_store_ g)) = example_schema /\ 3 <= partitioningBufferSize_ (pidx_ (hg_store_ g)) /\
  nextBlockId_ (bman_ (hg_store_ g)) = 2.
Proof.
  destruct (new_history_ok (D := gmap bytes bytes) (R := list (bytes * Region * Z)) example_schema example_initial_slice
    example_history_conf ∅ ∅ ∅) as (g & E & Hg & Hn); [done|by vm_compute|by vm_compute|done..|].
  destruct (history_addBlock_ok example_schema example_defined _ (initial_tiling _ example_initial_slice)
    (initial_parts _ example_defined example_names) g ∅ [] example_block Hg example_block_stored example_block_heads
    example_block_order) as (g' & A' & id & E' & Hg' & _); [by rewrite Hn|].
  assert (example_run = Ret g') as Er by (unfold example_run; rewrite E; exact E').
  assert (schema_and_room example_run = Some (example_schema, true, 2)) as Es by (by vm_compute). rewrite Er in Es.
  cbn [schema_and_room] in Es. exists g', A', id. split; [exact Er|]. split; [exact Hg'|]. split; [congruence|].
  split; [apply Z.leb_le; congruence|congruence].
Qed.

Lemma example_edges id : edges_in_ranges [(id, example_block)] example_slices.
Proof.
  intros ib t ->%list_elem_of_singleton Ht (mn & mx & Hmm & Hsel). cbn [snd] in Hmm.
  assert (findMinMaxTimestamps example_block = Ret (dofZ 30, dofZ 30)) as E by (by vm_compute). rewrite E in Hmm. injection Hmm as <- <-.
  exists 1, (dofZ 30). split; [left|]. revert Hsel.
  clear id. apply elem_of_cons in Ht as [->|Ht]; [vm_compute; discriminate|]. apply elem_of_cons in Ht as [->|Ht]; [vm_compute; discriminate|].
  apply list_elem_of_singleton in Ht as ->. vm_compute. reflexivity.
Qed.

(** The slice of the example becomes three, and one again. *)
Lemma repartition_keeps_history_witness :
  exists (g : HistoricalGraph (gmap bytes bytes) (list (bytes * Region * Z))) id st' A',
    replaceTimeSlicedPartitioning (iqIndex_ g) (initial_slice example_schema) example_slices (hg_store_ g) = Ret st' /\
    hist_ok example_schema example_slices (with_history_store st' g) A' [(id, example_block)].
Proof.
  destruct example_run_ok as (g & A & id & _ & Hg & Hsch & Hbuf & Hn).
  destruct (repartition_keeps_history example_schema [] [initial_slice example_schema] example_slices [] g A [(id, example_block)]) as [Hone _];
    rewrite ?app_nil_r.
  - exact example_defined.
  - exact example_names.
  - exact (initial_tiling example_schema example_initial_slice).
  - exact example_tiling.
  - exact (initial_parts example_schema example_defined example_names).
  - exact example_parts.
  - exact Hg.
  - exact Hsch.
  - exact Hbuf.
  - rewrite Hn. reflexivity.
  - apply Forall_singleton. intros mn mx Hmm.
    assert (findMinMaxTimestamps example_block = Ret (dofZ 30, dofZ 30)) as E by (by vm_compute). cbn [snd] in Hmm. rewrite E in Hmm. injection Hmm as <- <-.
    apply (bool_decide_unpack _). by vm_compute.
  - destruct (Hone (initial_slice example_schema) eq_refl (example_edges id)) as (st' & A' & E & Hg' & _).
    exists g, id, st', A'. split; [exact E|exact Hg'].
Defined.

(** A replacement that lacks the attribute "weight" is refused. *)
Lemma replacement_refused_witness : exists description,
  replaceTimeSlicedPartitioning (D := gmap bytes bytes) (openOrCreate (R := list (bytes * Region * Z)) None) (initial_slice example_schema)
    [mkSlice dninf dinf [["tag"]]] (mkStore (newBlockManager 1 example_schema ∅ 0) (index_with 3 example_slices) 0) =
  Throw (time_sliced_partition_replacement description).
Proof.
  destruct (replacement_refused example_schema (openOrCreate (R := list (bytes * Region * Z)) None) (initial_slice example_schema)
    [mkSlice dninf dinf [["tag"]]] (mkStore (newBlockManager 1 example_schema (∅ : gmap bytes bytes) 0) (index_with 3 example_slices) 0)) as [Hr _].
  - exact example_defined.
  - exact example_names.
  - reflexivity.
  - repeat (apply Forall_cons_2 || apply Forall_nil_2); split; by vm_compute.
  - repeat (apply Forall_cons_2 || apply Forall_nil_2); eexists; reflexivity.
  - apply Hr. right. intros [_ Hc]. apply Forall_singleton in Hc as [_ Hc].
    destruct (Hc 0) as (attrs & ->%list_elem_of_singleton & a & ->%list_elem_of_singleton & E); [by vm_compute; eauto|discriminate E].
Defined.

(** ** A block without an edge in the slice of its time *)

(** Edges at times 1 and 9, whose middle is 5. *)
Definition gap_block : Block :=
  mkBlock 7 None 100 []
    [(1, mkNeighborList 1 [mkNLEdge 2 (dofZ 1) example_shared; mkNLEdge 2 (dofZ 9) example_shared]);
     (2, mkNeighborList 2 [mkNLEdge 1 (dofZ 1) example_shared; mkNLEdge 1 (dofZ 9) example_shared])].

Definition whole_record : Partitioning := [["weight"; "tag"]].

(** A graph with the block and the slices up to 4, from 4 to 6 and from 6 on. *)
Definition gap_graph : outcome (HistoricalGraph (gmap bytes bytes) (list (bytes * Region * Z))) :=
  g ← newHistoricalGraph example_history_conf 0 true ∅ ∅ ∅ None;
  g ← HistoricalGraph.addBlock gap_block g;
  st ← replaceTimeSlicedPartitioning (iqIndex_ g) (initial_slice example_schema)
    [mkSlice dninf (dofZ 4) whole_record; mkSlice (dofZ 4) (dofZ 6) whole_record; mkSlice (dofZ 6) dinf whole_record] (hg_store_ g);
  Ret (with_history_store st g).

(** The tags of the edges of the vertex 2. *)
Definition read_tags (g : HistoricalGraph (gmap bytes bytes) (list (bytes * Region * Z))) : outcome (list (option Value)) :=
  '(e, g) ← HistoricalGraph.focusedIntervalQuery (seq 0) example_stats (newFocusedIntervalQuery 2 (dofZ 0) (dofZ 40) ["tag"]) g;
  '(rs, _) ← ei_collect (seq 0) example_stats 3 e (hg_store_ g);
  Ret ((fun r => assoc_find 1 (fields_ r.2)) <$> (rs : list (NLEdge * AttributeData))).

(** The hypothesis of [repartition_keeps_history] on the edges of the blocks is
    needed.  The block of this graph belongs to the slice from 4 to 6, where it
    has no edge. [updateBlocks] looks for the blocks of a range by their edges,
    so replacing this slice leaves the block as it is; the next query takes it
    for a block of the new partitioning and an assertion fails. *)
Example block_without_edge_left :
  (g ← gap_graph; read_tags g) = Ret [Some (VString "hi"); Some (VString "hi")] /\
  (g ← gap_graph;
   st ← replaceTimeSlicedPartitioning (iqIndex_ g) (mkSlice (dofZ 4) (dofZ 6) whole_record)
     [mkSlice (dofZ 4) (dofZ 6) [["weight"]; ["tag"]]] (hg_store_ g);
   read_tags (with_history_store st g)) = AssertFailed.
Proof. split; vm_compute; reflexivity. Qed.
