(* ===== verification/Workload.v ===== *)
(** * Query workloads

    common/QuerySummary.h, common/QueryWorkload.h and QueryWorkload.cpp: the
    queries seen, grouped by the attributes they name, with how often each
    group was seen; core/QueryCollector.h and QueryCollector.cpp: a workload
    for each bucket of time.

    A pointer to an attribute is its position in the vector of attributes the
    workload was made from: the pointers that are compared and sorted all point
    into that vector, whose addresses are in the order of the positions.  The
    maps keyed by summaries find by [operator==]: the summaries they hold are
    made by the constructor that computes the hash code. *)

From Stdlib Require Import ZArith Lia SpecFloat.
From stdpp Require Import base numbers gmap strings list sorting pretty.
From S2P Require Import Prelude.
From S2P Require Import Double.
From S2P Require Import Schema.
From S2P Require Import NeighborList.
From S2P Require Import Query.
From S2P Require Import Conf.

(** ** QuerySummary *)

Record QuerySummary := mkSummary { qs_attributes_ : list nat; qs_hash_ : option Z }.

(** [QuerySummary()] leaves the hash code without a value. *)
Definition default_summary : QuerySummary := mkSummary [] None.

(** [pointer_hash] is [std::hash<Attribute const *>]. *)
Definition summary_hash (pointer_hash : nat -> Z) (attributes : list nat) : Z :=
  foldl (fun hval attr => u64 (u64 (hval * 37) + pointer_hash attr)) 17 attributes.

Definition newQuerySummary (pointer_hash : nat -> Z) (attributes : list nat) : QuerySummary :=
  let attributes := merge_sort Nat.le attributes in
  mkSummary attributes (Some (summary_hash pointer_hash attributes)).

Fixpoint pointers_eqb (mine other : list nat) : bool :=
  match mine, other with
  | [], [] => true
  | m :: mine, o :: other => (m =? o)%nat && pointers_eqb mine other
  | _, _ => false
  end.

Definition summary_eqb (s other : QuerySummary) : bool := pointers_eqb (qs_attributes_ s) (qs_attributes_ other).

Definition addAttribute (attribute : nat) (s : QuerySummary) : QuerySummary :=
  mkSummary (qs_attributes_ s ++ [attribute]) (qs_hash_ s).

Definition setAttributes (attributes : list nat) (s : QuerySummary) : QuerySummary := mkSummary attributes (qs_hash_ s).

(** ** QueryWorkload *)

(** The maps keyed by queries and summaries, in iteration order; the keys of
    an entry compare equal by [operator==].  [attributes_] are positions in
    [base_], the vector of attributes. *)
Record QueryWorkload := mkWorkload {
  base_ : list Attribute;
  qw_attributes_ : list nat;
  queries_ : list QuerySummary;
  summaries_ : list (Query * QuerySummary);
  counts_ : list (QuerySummary * double);
  nameToAttribute_ : gmap string nat;
  totalQueries_ : double
}.

(** The loop of the constructor: a later attribute of the same name replaces
    the earlier one. *)
Definition name_attributes (attributes : list Attribute) : gmap string nat :=
  foldl (fun m p => <[name_ p.2 := p.1]> m) ∅ (imap pair attributes).

Definition newQueryWorkload (attributes : list Attribute) : QueryWorkload :=
  mkWorkload attributes (seq 0 (length attributes)) [] [] [] (name_attributes attributes) dzero.

Definition newQueryWorkload_of (attributes : list Attribute) (queries : list QuerySummary) : QueryWorkload :=
  let w := newQueryWorkload attributes in
  mkWorkload (base_ w) (qw_attributes_ w) queries (summaries_ w) (counts_ w) (nameToAttribute_ w) (totalQueries_ w).

Definition addWorkloadAttribute (attribute : nat) (w : QueryWorkload) : QueryWorkload :=
  mkWorkload (base_ w) (qw_attributes_ w ++ [attribute]) (queries_ w) (summaries_ w) (counts_ w) (nameToAttribute_ w) (totalQueries_ w).

(** [*attributes_.at(index)] *)
Definition getAttribute (index : nat) (w : QueryWorkload) : outcome Attribute :=
  i ← or_throw out_of_range (qw_attributes_ w !! index);
  or_undefined (base_ w !! i).

Definition addQuerySummary (query : QuerySummary) (w : QueryWorkload) : QueryWorkload :=
  mkWorkload (base_ w) (qw_attributes_ w) (queries_ w ++ [query]) (summaries_ w) (counts_ w) (nameToAttribute_ w) (totalQueries_ w).

(** [find] by an equality. *)
Definition find_by {K V} (eqb : K -> K -> bool) (k : K) (l : list (K * V)) : option V :=
  p ← list_find (fun p => eqb k p.1 = true) l; Some p.2.2.

(** [emplace]: nothing when the key is there. *)
Definition emplace_by {K V} (eqb : K -> K -> bool) (k : K) (v : V) (l : list (K * V)) : list (K * V) :=
  match find_by eqb k l with Some _ => l | None => l ++ [(k, v)] end.

(** An assignment through the iterator of an entry. *)
Fixpoint assign_by {K V} (eqb : K -> K -> bool) (k : K) (v : V) (l : list (K * V)) : list (K * V) :=
  match l with
  | [] => []
  | (k', v') :: l => if eqb k k' then (k', v) :: l else (k', v') :: assign_by eqb k v l
  end.

Definition with_counts (counts : list (QuerySummary * double)) (w : QueryWorkload) : QueryWorkload :=
  mkWorkload (base_ w) (qw_attributes_ w) (queries_ w) (summaries_ w) counts (nameToAttribute_ w) (totalQueries_ w).

Definition with_total (total : double) (w : QueryWorkload) : QueryWorkload :=
  mkWorkload (base_ w) (qw_attributes_ w) (queries_ w) (summaries_ w) (counts_ w) (nameToAttribute_ w) total.

Section Workload.
Context (pointer_hash : nat -> Z).

Definition addQuery (q : Query) (w : QueryWorkload) : outcome QueryWorkload :=
  let w := with_total (dadd (totalQueries_ w) dunit) w in
  match find_by query_eqb q (summaries_ w) with
  | Some summary =>
      count ← or_undefined (find_by summary_eqb summary (counts_ w));
      let count := dadd count dunit in
      let counts := assign_by summary_eqb summary count (counts_ w) in
      Ret (with_counts (emplace_by summary_eqb summary count counts) w)
  | None =>
      attributes ← foldM (fun attributes name =>
        match nameToAttribute_ w !! name with
        | None => AssertFailed
        | Some a => Ret (attributes ++ [a])
        end) [] (attributeNames_ q);
      let summary := newQuerySummary pointer_hash attributes in
      Ret (mkWorkload (base_ w) (qw_attributes_ w) (queries_ w ++ [summary]) (emplace_by query_eqb q summary (summaries_ w))
             (emplace_by summary_eqb summary dunit (counts_ w)) (nameToAttribute_ w) (totalQueries_ w))
  end.
End Workload.

Definition getFrequency (s : QuerySummary) (w : QueryWorkload) : outcome double :=
  match find_by summary_eqb s (counts_ w) with
  | None => AssertFailed
  | Some count => Ret (ddiv count (totalQueries_ w))
  end.

Definition setFrequency (s : QuerySummary) (f : double) (w : QueryWorkload) : QueryWorkload :=
  with_counts (emplace_by summary_eqb s f (counts_ w)) (with_total dunit w).

(** *** Printing *)

Definition summary_toString (w : QueryWorkload) (s : QuerySummary) : outcome string :=
  match qs_attributes_ s with
  | [] => Ret "[attributes: ]"
  | a :: rest =>
      first ← or_undefined (base_ w !! a);
      str ← foldM (fun str i => attr ← or_undefined (base_ w !! i); Ret (str +:+ "," +:+ pretty (index_ attr)))
        ("[attributes: " +:+ pretty (index_ first)) rest;
      Ret (str +:+ "]")
  end.

(** ** QueryCollector *)

(** [0.0 == fmod(a, n)] *)
Definition fmod_is_zero (a : double) (n : Z) : bool :=
  match to_sf a with
  | S754_zero _ => negb (n =? 0)
  | S754_finite _ m e => negb (n =? 0) && (if 0 <=? e then (Zpos m * 2 ^ e) mod n =? 0 else Zpos m mod (n * 2 ^ (- e)) =? 0)
  | _ => false
  end.

(** [int i = x] *)
Definition int_of_double (x : double) : outcome Z :=
  match to_sf x with
  | S754_infinity _ | S754_nan => Undefined
  | _ => if (- 2 ^ 31 <=? d2Z x) && (d2Z x <? 2 ^ 31) then Ret (d2Z x) else Undefined
  end.

(** [for (int i = firstBucket; i <= lastBucket; i += bucketSize_)]; [None]
    when the fuel ran out. *)
Fixpoint naive_loop (fuel : nat) (i lastBucket bucketSize : Z) : option (outcome (list Z)) :=
  if i <=? lastBucket then
    match fuel with
    | O => None
    | S fuel =>
        if i + bucketSize <? 2 ^ 31 then
          rest ← naive_loop fuel (i + bucketSize) lastBucket bucketSize;
          Some (rest ← rest; Ret (i :: rest))
        else Some Undefined
    end
  else Some (Ret []).

(** With a positive [bucketSize_] the fuel is enough ([naive_loop_ends]). *)
Definition NaiveBucketer_getBuckets (bucketSize : Z) (q : Query) : option (outcome (list Z)) :=
  let bucket t :=
    let b := ddiv t (dofZ bucketSize) in
    int_of_double (if fmod_is_zero t bucketSize then b else dadd b dunit) in
  match firstBucket ← bucket (q_start_ q); lastBucket ← bucket (q_end_ q); Ret (firstBucket, lastBucket) with
  | Ret (firstBucket, lastBucket) => naive_loop (Z.to_nat (lastBucket - firstBucket + 1)) firstBucket lastBucket bucketSize
  | Throw e => Some (Throw e)
  | AssertFailed => Some AssertFailed
  | Undefined => Some Undefined
  end.

Definition OneBucketer_getBuckets (q : Query) : list Z := [0].

Record QueryCollector := mkCollector { qc_conf_ : Conf; workloads_ : gmap Z QueryWorkload }.

Definition newQueryCollector (conf : Conf) : QueryCollector := mkCollector conf ∅.

(** It asserts [false]. *)
Definition collectIntervalQuery (q : Query) (c : QueryCollector) : outcome QueryCollector := AssertFailed.

Definition collectFocusedIntervalQuery (pointer_hash : nat -> Z) (q : Query) (c : QueryCollector) : outcome QueryCollector :=
  foldM (fun c i =>
    workload ← match workloads_ c !! i with
               | Some workload => addQuery pointer_hash q workload
               | None => addQuery pointer_hash q (newQueryWorkload (attributes_ (edgeSchema (qc_conf_ c))))
               end;
    Ret (mkCollector (qc_conf_ c) (<[i := workload]> (workloads_ c)))) c (OneBucketer_getBuckets q).

Definition resetWorkloads (c : QueryCollector) : QueryCollector := mkCollector (qc_conf_ c) ∅.

(** ** Maps keyed up to an equality *)

Section FindBy.
Context {K V T : Type} (eqb : K -> K -> bool) (f : K -> T) `{!EqDecision T}.
Context (Heqb : forall k k', eqb k k' = true <-> f k = f k').

Lemma find_by_cons k k0 (v : V) l : find_by eqb k ((k0, v) :: l) = if decide (f k = f k0) then Some v else find_by eqb k l.
Proof.
  unfold find_by. cbn [list_find fst]. destruct (decide (eqb k k0 = true)) as [Hd|Hd]; rewrite Heqb in Hd.
  - by rewrite decide_True.
  - rewrite decide_False by done. by destruct (list_find _ l) as [[i [k1 v1]]|].
Qed.

Lemma find_by_same k k' (l : list (K * V)) : f k = f k' -> find_by eqb k l = find_by eqb k' l.
Proof. intros E. induction l as [|[k0 v0] l IH]; [done|]. by rewrite !find_by_cons, E, IH. Qed.

Lemma find_by_snoc k k0 (v : V) l :
  find_by eqb k (l ++ [(k0, v)]) =
    match find_by eqb k l with Some x => Some x | None => if decide (f k = f k0) then Some v else None end.
Proof.
  induction l as [|[k1 v1] l IH]; cbn [app].
  - by rewrite find_by_cons.
  - rewrite !find_by_cons, IH. by destruct (decide (f k = f k1)).
Qed.

Lemma find_by_emplace k k0 (v : V) l :
  find_by eqb k (emplace_by eqb k0 v l) =
    match find_by eqb k l with Some x => Some x | None => if decide (f k = f k0) then Some v else None end.
Proof.
  unfold emplace_by. destruct (find_by eqb k0 l) eqn:E; [|apply find_by_snoc].
  destruct (find_by eqb k l) eqn:E'; [done|]. case_decide as Hd; [|done].
  by rewrite (find_by_same k k0 l Hd), E in E'.
Qed.

Lemma find_by_assign k k0 (v : V) l :
  find_by eqb k (assign_by eqb k0 v l) = if decide (f k = f k0) then (fun _ => v) <$> find_by eqb k l else find_by eqb k l.
Proof.
  induction l as [|[k1 v1] l IH]; cbn [assign_by]; [by destruct (decide (f k = f k0))|].
  destruct (eqb k0 k1) eqn:E.
  - apply Heqb in E. rewrite !find_by_cons. repeat case_decide; try done; congruence.
  - assert (f k0 <> f k1) as Hne by (intros Hx; apply Heqb in Hx; congruence).
    rewrite !find_by_cons, IH. repeat case_decide; try done; congruence.
Qed.
End FindBy.

(** ** Names and positions *)

Lemma pointers_eqb_spec l k : pointers_eqb l k = true <-> l = k.
Proof.
  revert k. induction l as [|x l IH]; intros [|y k]; cbn; try done.
  rewrite andb_true_iff, Nat.eqb_eq, IH. split; [by intros [-> ->]|by intros [= -> ->]].
Qed.

Lemma summary_eqb_spec s s' : summary_eqb s s' = true <-> qs_attributes_ s = qs_attributes_ s'.
Proof. apply pointers_eqb_spec. Qed.

Lemma query_eqb_spec q q' : query_eqb q q' = true <-> attributeNames_ q = attributeNames_ q'.
Proof. apply names_eqb_spec. Qed.

Lemma name_attributes_Some attributes name i :
  name_attributes attributes !! name = Some i -> exists a, attributes !! i = Some a /\ name_ a = name.
Proof.
  unfold name_attributes. intros H.
  assert (forall (l : list (nat * Attribute)) (m : gmap string nat), (forall n j, m !! n = Some j -> exists a, attributes !! j = Some a /\ name_ a = n) ->
    (forall p, p ∈ l -> attributes !! p.1 = Some p.2) ->
    foldl (fun m p => <[name_ p.2 := p.1]> m) m l !! name = Some i -> exists a, attributes !! i = Some a /\ name_ a = name) as Hg.
  { induction l as [|[j a] l IH]; intros m Hm Hl E; [by apply Hm|]. cbn [foldl] in E.
    apply (IH (<[name_ a := j]> m)); [|by intros p Hp; apply Hl; right|exact E].
    intros n k [[<- <-]|[_ Hk]]%lookup_insert_Some; [|by apply Hm]. exists a. split; [|done]. apply (Hl (j, a)). left. }
  apply (Hg (imap pair attributes) ∅); [|..|exact H].
  - intros n j Hn. by rewrite lookup_empty in Hn.
  - intros [j a] [k Hk]%list_elem_of_lookup. rewrite list_lookup_imap in Hk.
    destruct (attributes !! k) eqn:E; [|done]. by injection Hk as <- <-.
Qed.

Lemma name_attributes_is_Some attributes a : a ∈ attributes -> is_Some (name_attributes attributes !! name_ a).
Proof.
  intros [k Hk]%list_elem_of_lookup. unfold name_attributes.
  assert ((k, a) ∈ imap pair attributes) as Hin by (apply list_elem_of_lookup; exists k; by rewrite list_lookup_imap, Hk).
  assert (forall (l : list (nat * Attribute)) (m : gmap string nat), (k, a) ∈ l \/ is_Some (m !! name_ a) ->
    is_Some (foldl (fun m p => <[name_ p.2 := p.1]> m) m l !! name_ a)) as Hg; [|by apply Hg; left].
  induction l as [|[j b] l IH]; intros m Hm; cbn [foldl]; [by destruct Hm as [?%elem_of_nil|]|]. apply IH. cbn [fst snd].
  destruct (decide (name_ b = name_ a)) as [->|Hne]; [right; by rewrite lookup_insert_eq|].
  destruct Hm as [[[= -> ->]|]%elem_of_cons|Hm]; [done|by left|right; by rewrite lookup_insert_ne].
Qed.

#[export] Instance string_le_trans : Transitive string_le.
Proof.
  intros s t u H1 H2. unfold string_le in *. apply Is_true_true. apply Is_true_true in H1, H2.
  by apply (transitivity (R := String.le) (y := t)).
Qed.

#[export] Instance string_le_total : Total string_le.
Proof. intros s t. unfold string_le. destruct (String.leb_total s t); [by left|by right]. Qed.

#[export] Instance string_le_antisym : AntiSymm (=) string_le.
Proof. intros s t H1 H2. by apply String.leb_antisym. Qed.

(** ** Counting queries *)

(** [n] increments of a [double] from zero. *)
Definition dcount (n : nat) : double := Nat.iter n (fun x => dadd x dunit) dzero.

Section Frequencies.
Context (pointer_hash : nat -> Z) (attributes : list Attribute).

(** A query on attributes the workload knows. *)
Definition known (q : Query) : Prop :=
  StronglySorted string_le (attributeNames_ q) /\
  Forall (fun name => is_Some (name_attributes attributes !! name)) (attributeNames_ q).

Definition named (q : Query) : list nat := omap (fun name => name_attributes attributes !! name) (attributeNames_ q).
Definition summary_of (q : Query) : QuerySummary := newQuerySummary pointer_hash (named q).

(** How many of the queries name the same attributes. *)
Definition occurrences (q : Query) (qs : list Query) : nat :=
  length (filter (fun q' => attributeNames_ q' = attributeNames_ q) qs).

Lemma resolve_names names :
  Forall (fun name => is_Some (name_attributes attributes !! name)) names ->
  foldM (fun l name => match name_attributes attributes !! name with None => AssertFailed | Some a => Ret (l ++ [a]) end) [] names =
    Ret (omap (fun name => name_attributes attributes !! name) names).
Proof.
  intros Hn. enough (forall l, foldM (fun l name => match name_attributes attributes !! name with
    None => AssertFailed | Some a => Ret (l ++ [a]) end) l names =
    Ret (l ++ omap (fun name => name_attributes attributes !! name) names)) as H by apply H.
  induction Hn as [|x names [i Hi] Hn IH]; intros l; cbn [foldM omap list_omap]; [by rewrite app_nil_r|].
  rewrite Hi. cbn [mbind outcome_bind]. rewrite IH. by rewrite <- app_assoc.
Qed.

(** Different names give different attributes. *)
Lemma summary_inj q q' : known q -> known q' ->
  qs_attributes_ (summary_of q) = qs_attributes_ (summary_of q') -> attributeNames_ q = attributeNames_ q'.
Proof.
  intros [Hs Hk] [Hs' Hk'] E. apply (StronglySorted_unique string_le); [done|done|]. cbn in E.
  assert (named q ≡ₚ named q') as Hp by by rewrite <- (merge_sort_Permutation Nat.le (named q)), E, merge_sort_Permutation.
  set (back := fun i => default ""%string (name_ <$> attributes !! i)).
  assert (forall names, Forall (fun name => is_Some (name_attributes attributes !! name)) names ->
    back <$> omap (fun name => name_attributes attributes !! name) names = names) as Hback.
  { induction 1 as [|x names [i Hi] Hn IH]; [done|]. cbn [omap list_omap]. rewrite Hi, fmap_cons, IH. f_equal.
    destruct (name_attributes_Some _ _ _ Hi) as (a & Ha & <-). unfold back. by rewrite Ha. }
  rewrite <- (Hback (attributeNames_ q)), <- (Hback (attributeNames_ q')) by done. by rewrite Hp.
Qed.

Record counted (l : list Query) (w : QueryWorkload) : Prop := {
  cq_attributes : qw_attributes_ w = seq 0 (length attributes);
  cq_names : nameToAttribute_ w = name_attributes attributes;
  cq_total : totalQueries_ w = dcount (length l);
  cq_summaries q : known q -> find_by query_eqb q (summaries_ w) =
    if decide (occurrences q l = 0%nat) then None else Some (summary_of q);
  cq_counts q : known q -> find_by summary_eqb (summary_of q) (counts_ w) =
    if decide (occurrences q l = 0%nat) then None else Some (dcount (occurrences q l));
  cq_queries : NoDup (qs_attributes_ <$> queries_ w) /\ forall s, s ∈ queries_ w <-> exists q, q ∈ l /\ s = summary_of q
}.

Lemma occurrences_snoc q l q' :
  occurrences q (l ++ [q']) = (occurrences q l + if decide (attributeNames_ q' = attributeNames_ q) then 1 else 0)%nat.
Proof. unfold occurrences. rewrite filter_app, length_app, filter_cons, filter_nil. by case_decide. Qed.

Lemma occurrences_same q q' l : attributeNames_ q = attributeNames_ q' -> occurrences q l = occurrences q' l.
Proof. unfold occurrences. by intros ->. Qed.

Lemma summary_same q q' : attributeNames_ q = attributeNames_ q' -> summary_of q = summary_of q'.
Proof. unfold summary_of, named. by intros ->. Qed.

Lemma occurrences_elem q l : occurrences q l <> 0%nat -> exists q', q' ∈ l /\ attributeNames_ q' = attributeNames_ q.
Proof.
  unfold occurrences. destruct (filter _ l) as [|q' l'] eqn:E; [done|]. intros _.
  assert (q' ∈ filter (fun q' => attributeNames_ q' = attributeNames_ q) l) as Hin by (rewrite E; left).
  apply list_elem_of_filter in Hin as [? ?]. by exists q'.
Qed.

Lemma addQuery_ok l w q : counted l w -> Forall known l -> known q ->
  exists w', addQuery pointer_hash q w = Ret w' /\ counted (l ++ [q]) w'.
Proof.
  intros [Ha Hn Ht Hs Hc [Hnd Hq]] Hl Hk. unfold addQuery. cbn [summaries_ with_total counts_ nameToAttribute_].
  rewrite Hs by done. case_decide as H0.
  - rewrite Hn, resolve_names by apply Hk. cbn [mbind outcome_bind]. fold (named q). fold (summary_of q).
    eexists. split; [reflexivity|]. split; cbn [qw_attributes_ nameToAttribute_ totalQueries_ summaries_ counts_ queries_ with_total].
    + done.
    + done.
    + by rewrite Ht, length_app, Nat.add_1_r.
    + intros q' Hk'. rewrite (find_by_emplace _ _ query_eqb_spec), Hs, occurrences_snoc by done.
      case_decide as H1.
      * rewrite H1. destruct (decide (attributeNames_ q' = attributeNames_ q)) as [E|E].
        { rewrite (decide_True (P := attributeNames_ q = _)) by done. cbn. by rewrite (summary_same q q'). }
        { rewrite (decide_False (P := attributeNames_ q = _)) by congruence. done. }
      * rewrite decide_False by lia. done.
    + intros q' Hk'. rewrite (find_by_emplace _ _ summary_eqb_spec), Hc, occurrences_snoc by done.
      case_decide as H1.
      * rewrite H1. destruct (decide (attributeNames_ q = attributeNames_ q')) as [E|E].
        { rewrite decide_True by by rewrite (summary_same q q'). done. }
        { rewrite decide_False; [done|]. intros E'. apply E. symmetry. by apply summary_inj. }
      * assert (attributeNames_ q <> attributeNames_ q') as Hne.
        { intros E. apply H1. by rewrite (occurrences_same q' q). }
        rewrite (decide_False (P := attributeNames_ q = _)) by done. by rewrite Nat.add_0_r, decide_False.
    + split.
      * rewrite fmap_app. apply NoDup_app. split_and!; [done| |apply NoDup_singleton].
        intros x (s & -> & Hin)%list_elem_of_fmap Hx%list_elem_of_singleton.
        apply Hq in Hin as (q' & Hq' & ->). rewrite Forall_forall in Hl.
        apply summary_inj in Hx; [|by apply Hl|done].
        assert (q' ∈ filter (fun q' => attributeNames_ q' = attributeNames_ q) l) as Hin by by apply list_elem_of_filter.
        unfold occurrences in H0. apply length_zero_iff_nil in H0. rewrite H0 in Hin. by apply elem_of_nil in Hin.
      * intros s. rewrite elem_of_app, list_elem_of_singleton, Hq. setoid_rewrite elem_of_app.
        setoid_rewrite list_elem_of_singleton. naive_solver.
  - rewrite Hc, decide_False by done. cbn [or_undefined mbind outcome_bind]. eexists. split; [reflexivity|].
    split; cbn [qw_attributes_ nameToAttribute_ totalQueries_ summaries_ counts_ queries_ with_total with_counts].
    + done.
    + done.
    + by rewrite Ht, length_app, Nat.add_1_r.
    + intros q' Hk'. rewrite Hs, occurrences_snoc by done.
      destruct (decide (attributeNames_ q = attributeNames_ q')) as [E|E].
      * rewrite <- (occurrences_same q q') by done. by rewrite !decide_False by lia.
      * by rewrite Nat.add_0_r.
    + intros q' Hk'. rewrite (find_by_emplace _ _ summary_eqb_spec), !(find_by_assign _ _ summary_eqb_spec), Hc, occurrences_snoc by done.
      destruct (decide (attributeNames_ q = attributeNames_ q')) as [E|E].
      * rewrite (summary_same q q') by done. rewrite <- (occurrences_same q q') by done.
        rewrite !decide_True, !decide_False by (done || lia). cbn. f_equal. rewrite Nat.add_1_r. done.
      * assert (qs_attributes_ (summary_of q') <> qs_attributes_ (summary_of q)) as Hne.
        { intros E'. apply E. symmetry. by apply summary_inj. }
        rewrite decide_False by done. rewrite Nat.add_0_r. case_decide; [by rewrite decide_False|done].
    + split; [done|]. intros s. rewrite Hq. setoid_rewrite elem_of_app. setoid_rewrite list_elem_of_singleton.
      split; [naive_solver|]. intros (q' & [Hq'| ->] & ->); [eauto|].
      destruct (occurrences_elem q l H0) as (q0 & Hin & E). exists q0. split; [done|]. by apply summary_same.
Qed.

Lemma workload_ok qs : Forall known qs ->
  exists w, foldM (fun w q => addQuery pointer_hash q w) (newQueryWorkload attributes) qs = Ret w /\ counted qs w.
Proof.
  intros Hk. apply (foldM_total (fun l w => counted l w)).
  - split; [done|done|done|done|done|]. cbn. split; [constructor|]. intros x. split; [by intros ?%elem_of_nil|].
    by intros (q & ?%elem_of_nil & _).
  - intros l q rest w El Hw. rewrite El in Hk. apply Forall_app in Hk as [Hl Hk]. apply Forall_cons in Hk as [Hq _].
    by apply addQuery_ok.
Qed.
End Frequencies.

Lemma query_known attributes start endt names :
  (forall x, x ∈ names -> exists a, a ∈ attributes /\ name_ a = x) -> known attributes (newQuery start endt names).
Proof.
  intros Hn. split; [by apply (StronglySorted_merge_sort _)|]. apply Forall_forall. intros x Hx%newQuery_names.
  destruct (Hn x Hx) as (a & Ha & <-). by apply name_attributes_is_Some.
Qed.

(** *** Collecting queries *)

(** The collector has counted the queries so far in its one bucket. *)
Definition collecting (pointer_hash : nat -> Z) (s : Schema) (l : list Query) (c : QueryCollector) : Prop :=
  edgeSchema (qc_conf_ c) = s /\ Forall (known (attributes_ s)) l /\
  match l with
  | [] => workloads_ c = ∅
  | _ => exists w, workloads_ c = {[0 := w]} /\ counted pointer_hash (attributes_ s) l w
  end.

Lemma collect_query_ok pointer_hash s l c q : collecting pointer_hash s l c -> known (attributes_ s) q ->
  exists c', collectFocusedIntervalQuery pointer_hash q c = Ret c' /\ collecting pointer_hash s (l ++ [q]) c'.
Proof.
  intros (Hs & Hl & Hw) Hq. unfold collectFocusedIntervalQuery, OneBucketer_getBuckets. cbn [foldM].
  assert (exists w, (match workloads_ c !! 0 with
    | Some workload => addQuery pointer_hash q workload
    | None => addQuery pointer_hash q (newQueryWorkload (attributes_ (edgeSchema (qc_conf_ c))))
    end) = Ret w /\ counted pointer_hash (attributes_ s) (l ++ [q]) w) as (w & -> & Hcw).
  { destruct l as [|q0 l].
    - rewrite Hw, lookup_empty, Hs. destruct (workload_ok pointer_hash (attributes_ s) [q]) as (w & E & Hcw); [by constructor|].
      exists w. split; [|done]. cbn [foldM] in E. by destruct (addQuery _ _ _).
    - destruct Hw as (w & -> & Hcw). rewrite lookup_singleton_eq. by apply addQuery_ok. }
  cbn [mbind outcome_bind]. eexists. split; [reflexivity|]. split; [done|]. split; [apply Forall_app; split; [done|by constructor]|].
  cbn [workloads_]. destruct l as [|q0 l]; cbn [app].
  - exists w. split; [|done]. by rewrite Hw.
  - destruct Hw as (w0 & -> & _). exists w. split; [|done]. by rewrite insert_singleton_eq.
Qed.

(** *** The claim *)

Lemma dcount_exact n : Z.of_nat n < 2 ^ 53 -> dcount n = dofZ (Z.of_nat n).
Proof.
  induction n as [|n IH]; intros Hn; [by vm_compute|]. change (dcount (S n)) with (dadd (dcount n) dunit).
  rewrite IH by lia. change dunit with (dofZ 1). rewrite dadd_dofZ by lia. f_equal. lia.
Qed.

Lemma occurrences_le q l : (occurrences q l <= length l)%nat.
Proof. apply length_filter. Qed.

Lemma unknown_name pointer_hash attributes q qs w :
  counted pointer_hash attributes qs w -> find_by query_eqb q (summaries_ w) = None ->
  (exists name, name ∈ attributeNames_ q /\ name_attributes attributes !! name = None) ->
  addQuery pointer_hash q w = AssertFailed.
Proof.
  intros Hw Hf (name & Hin & Hn). unfold addQuery. cbn [summaries_ with_total nameToAttribute_].
  rewrite Hf, (cq_names _ _ _ _ Hw). clear Hw Hf. enough (forall l, foldM (fun l name => match name_attributes attributes !! name with
    None => AssertFailed | Some a => Ret (l ++ [a]) end) l (attributeNames_ q) = AssertFailed) as -> by done.
  induction (attributeNames_ q) as [|x names IH]; intros l; [by apply elem_of_nil in Hin|]. cbn [foldM].
  apply elem_of_cons in Hin as [<-|Hin]; [by rewrite Hn|]. destruct (name_attributes attributes !! x); [|done].
  cbn [mbind outcome_bind]. by apply IH.
Qed.

Lemma naive_loop_ends fuel : forall i lastBucket bucketSize, 0 < bucketSize -> lastBucket - i < Z.of_nat fuel ->
  naive_loop fuel i lastBucket bucketSize <> None.
Proof.
  induction fuel as [|fuel IH]; intros i lastBucket bucketSize Hb Hf; cbn [naive_loop].
  - destruct (Z.leb_spec i lastBucket); [lia|done].
  - destruct (Z.leb_spec i lastBucket); [|done]. destruct (_ <? _); [|done].
    specialize (IH (i + bucketSize) lastBucket bucketSize Hb ltac:(lia)). by destruct (naive_loop fuel _ _ _).
Qed.

(** C31: [QueryWorkload] counts its queries exactly: after any fewer than
    [2 ^ 53] queries on known attributes, the frequency of a query's summary is
    the correctly rounded quotient of how many of them named the same attributes
    and how many there were, [queries_] holds one summary for each set of
    attributes named, a query with a name the workload does not know fails its
    assertion unless an equal query was answered from the cache, and so does the
    frequency of attributes never named. *)
Theorem workload_frequencies pointer_hash attributes qs :
  Forall (known attributes) qs -> Z.of_nat (length qs) < 2 ^ 53 ->
  exists w, foldM (fun w q => addQuery pointer_hash q w) (newQueryWorkload attributes) qs = Ret w /\
    (forall q, known attributes q ->
      getFrequency (summary_of pointer_hash attributes q) w =
        if decide (occurrences q qs = 0%nat) then AssertFailed
        else Ret (ddiv (dofZ (Z.of_nat (occurrences q qs))) (dofZ (Z.of_nat (length qs))))) /\
    NoDup (qs_attributes_ <$> queries_ w) /\
    (forall s, s ∈ queries_ w <-> exists q, q ∈ qs /\ s = summary_of pointer_hash attributes q) /\
    (forall q, (exists name, name ∈ attributeNames_ q /\ name_attributes attributes !! name = None) ->
      find_by query_eqb q (summaries_ w) = None -> addQuery pointer_hash q w = AssertFailed).
Proof.
  intros Hk Hlen. destruct (workload_ok pointer_hash attributes qs Hk) as (w & E & Hw). exists w.
  split; [done|]. split; [|split; [apply Hw|split; [apply Hw|]]].
  - intros q Hq. pose proof (occurrences_le q qs). unfold getFrequency. rewrite (cq_counts _ _ _ _ Hw q Hq).
    case_decide; [done|]. by rewrite (cq_total _ _ _ _ Hw), !dcount_exact by lia.
  - intros q Hn Hf. by eapply unknown_name.
Qed.

(** *** A concrete workload *)

Definition two_attributes : list Attribute := attributes_ (new_schema [("a"%string, INT64); ("b"%string, DOUBLE)]).
Definition some_queries : list Query :=
  [newQuery dzero dunit ["b"; "a"]%string; newQuery dunit dtwo ["a"; "b"]%string; newQuery dzero dunit ["b"]%string].

Lemma workload_frequencies_witness :
  exists w, foldM (fun w q => addQuery (fun i => Z.of_nat i) q w) (newQueryWorkload two_attributes) some_queries = Ret w /\
    getFrequency (summary_of (fun i => Z.of_nat i) two_attributes (newQuery dzero dunit ["a"; "b"]%string)) w =
      Ret (ddiv (dofZ 2) (dofZ 3)).
Proof.
  destruct (workload_frequencies (fun i => Z.of_nat i) two_attributes some_queries) as (w & E & Hf & _).
  - repeat (constructor; [split; [repeat constructor|repeat constructor; eexists; reflexivity]|]). constructor.
  - reflexivity.
  - exists w. split; [exact E|].
    apply (Hf (newQuery dzero dunit ["a"; "b"]%string)). split; [repeat constructor|repeat constructor; eexists; reflexivity].
Defined.
