(* ===== verification/Partitions.v ===== *)
(** * Partitions, partitionings and their cost

    common/Partition.h, Partitioning.h and Partitioning.cpp: sets of
    attributes and lists of them, merged and split by the optimizers;
    common/Cost.h and Cost.cpp: the sizes of partitions, the bytes a workload
    reads and the storage overhead.

    A pointer to an attribute is its position in the vector [base], as in the
    workload.  A set of pointers is the list of its elements in the order they
    were inserted; [iter] gives its iteration order, taken to be a function of
    these elements. *)

From Stdlib Require Import ZArith Lia.
From stdpp Require Import base numbers gmap strings list sorting pretty.
From S2P Require Import Prelude.
From S2P Require Import Double.
From S2P Require Import Schema.
From S2P Require Import MetaData.
From S2P Require Import Workload.

(** [insert] of an [unordered_set]. *)
Definition set_add {A} `{EqDecision A} (x : A) (l : list A) : list A := if decide (x ∈ l) then l else l ++ [x].

(** ** Partition *)

Abbreviation Partition := (list nat).

Definition clearAttributes (p : Partition) : Partition := [].
Definition addAttribute (attribute : nat) (p : Partition) : Partition := set_add attribute p.
Definition removeAttribute (attribute : nat) (p : Partition) : Partition := filter (fun a => a <> attribute) p.
Definition numAttributes (p : Partition) : nat := length p.

Definition partition_eqb (p other : Partition) : bool :=
  if negb (length other =? length p)%nat then false
  else forallb (fun attrb => bool_decide (attrb ∈ other)) p.

(** ** Partitioning *)

Abbreviation Partitions := (list (list nat)).

Definition addPartition (p : Partition) (ps : Partitions) : Partitions := ps ++ [p].
Definition numPartitions (ps : Partitions) : nat := length ps.

Fixpoint partitioning_eqb (ps other : Partitions) : bool :=
  match ps, other with
  | [], [] => true
  | p :: ps, o :: other => partition_eqb p o && partitioning_eqb ps other
  | _, _ => false
  end.

(** [std::swap(partitions_[j], *partitions_.rbegin())] *)
Definition swap_last (j : nat) (ps : Partitions) : outcome Partitions :=
  pj ← or_undefined (ps !! j);
  pl ← or_undefined (last ps);
  Ret (<[j := pl]> (<[pred (length ps) := pj]> ps)).

(** The body of [mergePartitions] for [i <= j]. *)
Definition merge_ordered (i j : nat) (ps : Partitions) : outcome Partitions :=
  pj ← or_undefined (ps !! j);
  pi ← or_undefined (ps !! i);
  let ps := <[i := foldl (fun p attrb => addAttribute attrb p) pi pj]> ps in
  ps ← (if (j =? pred (length ps))%nat then Ret ps else swap_last j ps);
  Ret (take (pred (length ps)) ps).

Definition mergePartitions (i j : nat) (ps : Partitions) : outcome Partitions :=
  if (j <? i)%nat then merge_ordered j i ps else merge_ordered i j ps.

Definition split_ordered (i j : nat) (lhs rhs : Partition) (ps : Partitions) : outcome Partitions :=
  part ← or_undefined (ps !! i);
  let part := foldl (fun p attrb => addAttribute attrb p) (clearAttributes part) lhs in
  let ps := addPartition rhs (<[i := part]> ps) in
  if (j =? pred (length ps))%nat then Ret ps else swap_last j ps.

Definition splitPartition (i j : nat) (lhs rhs : Partition) (ps : Partitions) : outcome Partitions :=
  if (j <? i)%nat then split_ordered j i rhs lhs ps else split_ordered i j lhs rhs ps.

Section Attributes.
Context (base : list Attribute) (iter : list nat -> list nat).

(** *** Printing *)

Definition partition_toString (p : Partition) : outcome string :=
  match iter p with
  | [] => Ret "[attributes: ]"
  | a :: rest =>
      first ← or_undefined (base !! a);
      str ← foldM (fun str i => attr ← or_undefined (base !! i); Ret (str +:+ "," +:+ Attribute_toString attr))
        ("[attributes: " +:+ Attribute_toString first) rest;
      Ret (str +:+ "]")
  end.

Definition partitioning_toString (ps : Partitions) : outcome string :=
  match ps with
  | [] => Ret "{partitions: }"
  | p :: rest =>
      first ← partition_toString p;
      str ← foldM (fun str p => s ← partition_toString p; Ret (str +:+ "," +:+ s)) ("{partitions: " +:+ first) rest;
      Ret (str +:+ "}")
  end.

(** The names of the attributes of each partition, as the partition index
    stores them. *)
Definition toStringSet (ps : Partitions) : outcome (list (list string)) :=
  foldM (fun part p =>
    attrSet ← foldM (fun attrSet i => a ← or_undefined (base !! i); Ret (set_add (name_ a) attrSet)) [] (iter p);
    Ret (part ++ [attrSet])) [] ps.

(** ** Cost *)

(** [SystemConstants] *)
Definition edgeIdSize : Z := 8.
Definition timestampSize : Z := 8.
Definition headVertexSize : Z := 8.
Definition numEntriesSize : Z := 4.
Definition numberOfEdgesInABlock : Z := 24.
Definition numberOfNeighborListsInABlock : Z := 8.

Context (stats : SchemaStats).

(** [stats_.getAvgSize(attribute->getIndex())] *)
Definition avg_size (attribute : nat) : outcome double :=
  a ← or_undefined (base !! attribute); MetaData.getAvgSize stats (u32 (index_ a)).

Definition getPartitionSize (p : Partition) : outcome double :=
  attributesSize ← foldM (fun size attribute => x ← avg_size attribute; Ret (dadd size x)) dzero (iter p);
  Ret (dadd (dmul (dofZ numberOfEdgesInABlock) (dadd (dofZ (edgeIdSize + timestampSize)) attributesSize))
         (dofZ (numberOfNeighborListsInABlock * (headVertexSize + numEntriesSize)))).

Section UsedPartitions.
Context (partitions : Partitions).

(** The score of a partition: the part of its size the query still needs. *)
Definition used_score (effectiveAttributes selectedAttributes : list nat) (p : Partition) : outcome double :=
  partitionSize ← getPartitionSize p;
  foldM (fun partitionScore attribute =>
    if decide (attribute ∈ selectedAttributes) then Ret partitionScore
    else if decide (attribute ∉ effectiveAttributes) then Ret partitionScore
    else x ← avg_size attribute; Ret (dadd partitionScore (ddiv (dmul x (dofZ numberOfEdgesInABlock)) partitionSize)))
    dzero (iter p).

(** The loop over [unusedPartitions]; [None] is the null pointer. *)
Definition best_used (effectiveAttributes selectedAttributes : list nat) (unusedPartitions : list nat) : outcome (option nat * double) :=
  foldM (fun '(bestPartition, bestPartitionScore) partition =>
    p ← or_undefined (partitions !! partition);
    partitionScore ← used_score effectiveAttributes selectedAttributes p;
    Ret (if dltb bestPartitionScore partitionScore then (Some partition, partitionScore)
         else (bestPartition, bestPartitionScore)))
    (None, dopp dunit) unusedPartitions.

(** The [while] loop; every turn uses a partition up or fails the assertion,
    so a turn for each of them and one more are enough. *)
Fixpoint use_partitions (fuel : nat) (effectiveAttributes selectedAttributes unusedPartitions usedPartitions : list nat)
  : outcome (list nat) :=
  match fuel with
  | O => Undefined
  | S fuel =>
      if (length selectedAttributes <? length effectiveAttributes)%nat then
        '(best, _) ← best_used effectiveAttributes selectedAttributes unusedPartitions;
        match best with
        | None => AssertFailed
        | Some bestPartition =>
            p ← or_undefined (partitions !! bestPartition);
            use_partitions fuel effectiveAttributes
              (foldl (fun selected attribute => set_add attribute selected) selectedAttributes (iter p))
              (filter (fun i => i <> bestPartition) unusedPartitions) (usedPartitions ++ [bestPartition])
        end
      else Ret usedPartitions
  end.

Definition effective (attributes : list nat) (query : QuerySummary) : list nat :=
  foldl (fun s attribute => if decide (attribute ∈ attributes) then set_add attribute s else s) [] (qs_attributes_ query).

(** The m-function of the paper; the result is the positions of the
    partitions, whose addresses the code returns. *)
Definition getUsedPartitions (attributes : list nat) (query : QuerySummary) : outcome (list nat) :=
  use_partitions (S (length partitions)) (effective attributes query) [] (iter (seq 0 (length partitions))) [].
End UsedPartitions.

Definition getIOCost_of (partitions : Partitions) (workload : QueryWorkload) (attributes : list nat) : outcome double :=
  foldM (fun totalIOCost summary =>
    used ← getUsedPartitions partitions attributes summary;
    partitionIOCost ← foldM (fun cost i => p ← or_undefined (partitions !! i); x ← getPartitionSize p; Ret (dadd cost x)) dzero used;
    f ← getFrequency summary workload;
    Ret (dadd totalIOCost (dmul f partitionIOCost))) dzero (queries_ workload).

Definition attribute_set (workload : QueryWorkload) : list nat :=
  foldl (fun s attribute => set_add attribute s) [] (qw_attributes_ workload).

Definition getIOCost (partitioning : Partitions) (workload : QueryWorkload) : outcome double :=
  getIOCost_of partitioning workload (attribute_set workload).

Definition getStorageOverhead (partitioning : Partitions) (workload : QueryWorkload) : outcome double :=
  blockSize ← getPartitionSize (attribute_set workload);
  totalPartitionSize ← foldM (fun total p => x ← getPartitionSize p; Ret (dadd total x)) dzero partitioning;
  Ret (dsub (ddiv totalPartitionSize blockSize) dunit).
End Attributes.

(** ** Sets as lists *)

Lemma elem_of_set_add {A} `{EqDecision A} (x y : A) l : y ∈ set_add x l <-> y = x \/ y ∈ l.
Proof. unfold set_add. case_decide; [naive_solver|]. rewrite elem_of_app, list_elem_of_singleton. tauto. Qed.

Lemma set_add_NoDup {A} `{EqDecision A} (x : A) l : NoDup l -> NoDup (set_add x l).
Proof.
  intros Hnd. unfold set_add. case_decide; [done|]. apply NoDup_app. split; [done|]. split; [|apply NoDup_singleton].
  intros y Hy ->%list_elem_of_singleton. done.
Qed.

Definition add_all {A} `{EqDecision A} (xs l : list A) : list A := foldl (fun s x => set_add x s) l xs.

Lemma elem_of_add_all {A} `{EqDecision A} (xs : list A) : forall l y, y ∈ add_all xs l <-> y ∈ l \/ y ∈ xs.
Proof.
  induction xs as [|x xs IH]; intros l y; cbn; [rewrite elem_of_nil; tauto|].
  fold (add_all xs (set_add x l)). rewrite IH, elem_of_set_add, elem_of_cons. tauto.
Qed.

Lemma add_all_NoDup {A} `{EqDecision A} (xs : list A) : forall l, NoDup l -> NoDup (add_all xs l).
Proof. induction xs as [|x xs IH]; intros l Hl; [done|]. apply IH. by apply set_add_NoDup. Qed.

Lemma add_all_fresh {A} `{EqDecision A} (xs : list A) : forall l, NoDup (l ++ xs) -> add_all xs l = l ++ xs.
Proof.
  induction xs as [|x xs IH]; intros l Hnd; [by rewrite app_nil_r|]. cbn. fold (add_all xs (set_add x l)).
  assert (set_add x l = l ++ [x]) as ->.
  { unfold set_add. rewrite decide_False; [done|]. intros Hx. apply NoDup_app in Hnd as (_ & Hd & _). apply (Hd x Hx). left. }
  rewrite IH; by rewrite <- app_assoc.
Qed.

(** ** Merging and splitting *)

Definition merged (pi pj : Partition) : Partition := foldl (fun p attrb => addAttribute attrb p) pi pj.

Lemma elem_of_merged pi pj a : a ∈ merged pi pj <-> a ∈ pi \/ a ∈ pj.
Proof. apply elem_of_add_all. Qed.

Lemma merged_NoDup pi pj : NoDup pi -> NoDup (merged pi pj).
Proof. apply add_all_NoDup. Qed.

(** What a merge leaves: the merged partition at [i], and the others. *)
Record merge_of (ps : Partitions) (i j : nat) (pi pj : Partition) (ps' : Partitions) : Prop := {
  mg_length : length ps' = pred (length ps);
  mg_merged : ps' !! i = Some (merged pi pj);
  mg_from p : p ∈ ps' -> p = merged pi pj \/ p ∈ ps;
  mg_others k p : ps !! k = Some p -> k <> i -> k <> j -> p ∈ ps'
}.

Section MergeSplit.
Context (ps : Partitions) (i j : nat) (pi pj : Partition).
Context (Hij : (i < j)%nat) (Hi : ps !! i = Some pi) (Hj : ps !! j = Some pj) (Hnd : NoDup pi).

Lemma refill : foldl (fun p attrb => addAttribute attrb p) [] pi = pi.
Proof. change (add_all pi [] = pi). by rewrite add_all_fresh. Qed.

(** The last partition is merged into another: it is dropped and appended
    again. *)
Lemma merge_split_last : j = pred (length ps) ->
  exists ps', merge_ordered i j ps = Ret ps' /\ merge_of ps i j pi pj ps' /\ split_ordered i j pi pj ps' = Ret ps.
Proof.
  intros Ej. pose proof (lookup_lt_Some _ _ _ Hj) as Hlt. set (ps1 := <[i := merged pi pj]> ps).
  assert (length ps1 = length ps) as Hl1 by apply length_insert.
  assert (forall k, (k < pred (length ps))%nat -> take (pred (length ps)) ps1 !! k = if decide (k = i) then Some (merged pi pj) else ps !! k) as Ht.
  { intros k Hk. rewrite lookup_take_lt by done. unfold ps1. case_decide; [subst; apply list_lookup_insert_eq; lia|by apply list_lookup_insert_ne]. }
  assert (length (take (pred (length ps)) ps1) = pred (length ps)) as Hl by (rewrite length_take, Hl1; lia).
  exists (take (pred (length ps)) ps1). split_and!.
  - unfold merge_ordered. rewrite Hj, Hi. cbn [or_undefined mbind outcome_bind]. fold (merged pi pj). fold ps1.
    rewrite Hl1, (proj2 (Nat.eqb_eq _ _) Ej). cbn [mbind outcome_bind]. by rewrite Hl1.
  - split; [done|by rewrite Ht, decide_True by lia| |].
    + intros p [k Hk]%list_elem_of_lookup. pose proof (lookup_lt_Some _ _ _ Hk) as Hkl. rewrite Hl in Hkl. rewrite Ht in Hk by done.
      case_decide; [left; congruence|right; by eapply list_elem_of_lookup_2].
    + intros k p Hk Hki Hkj. apply list_elem_of_lookup. exists k. pose proof (lookup_lt_Some _ _ _ Hk). by rewrite Ht, decide_False by lia.
  - unfold split_ordered. rewrite Ht, decide_True by lia. cbn [or_undefined mbind outcome_bind]. unfold clearAttributes, addPartition.
    rewrite refill, length_app, length_insert, Hl. cbn [length]. replace (pred (pred (length ps) + 1)) with j by lia. rewrite Nat.eqb_refl. f_equal.
    apply list_eq. intros k. destruct (decide (k < j)%nat).
    + rewrite lookup_app_l by (rewrite length_insert, Hl; lia). destruct (decide (k = i)) as [->|Hki].
      * rewrite list_lookup_insert_eq by (rewrite Hl; lia). done.
      * by rewrite list_lookup_insert_ne, Ht, decide_False by lia.
    + rewrite lookup_app_r by (rewrite length_insert, Hl; lia). rewrite length_insert, Hl, <- Ej. destruct (decide (k = j)) as [->|Hkj].
      * by rewrite Nat.sub_diag.
      * rewrite !lookup_ge_None_2; [done|lia|cbn; lia].
Qed.

(** Otherwise the last partition takes its place, and moves back. *)
Lemma merge_split_middle : j <> pred (length ps) ->
  exists ps', merge_ordered i j ps = Ret ps' /\ merge_of ps i j pi pj ps' /\ split_ordered i j pi pj ps' = Ret ps.
Proof.
  intros Ej. pose proof (lookup_lt_Some _ _ _ Hj) as Hlt. set (n := pred (length ps)) in *.
  destruct (lookup_lt_is_Some_2 ps n) as [pl Hpl]; [lia|]. set (ps1 := <[i := merged pi pj]> ps).
  assert (length ps1 = length ps) as Hl1 by apply length_insert.
  assert (forall k, k <> i -> ps1 !! k = ps !! k) as H1 by (intros k Hk; by apply list_lookup_insert_ne).
  set (ps2 := <[j := pl]> (<[n := pj]> ps1)). assert (length ps2 = length ps) as Hl2 by (unfold ps2; by rewrite !length_insert).
  assert (forall k, (k < n)%nat -> take n ps2 !! k = if decide (k = i) then Some (merged pi pj) else if decide (k = j) then Some pl else ps !! k) as Ht.
  { intros k Hk. rewrite lookup_take_lt by done. unfold ps2. destruct (decide (k = j)) as [->|Hkj].
    - rewrite decide_False by lia. apply list_lookup_insert_eq. rewrite length_insert. lia.
    - rewrite !list_lookup_insert_ne by lia. case_decide; [subst; apply list_lookup_insert_eq; lia|by apply H1]. }
  assert (length (take n ps2) = n) as Hl by (rewrite length_take, Hl2; lia).
  exists (take n ps2). split_and!.
  - unfold merge_ordered. rewrite Hj, Hi. cbn [or_undefined mbind outcome_bind]. fold (merged pi pj). fold ps1.
    rewrite Hl1. fold n. rewrite (proj2 (Nat.eqb_neq _ _) Ej). unfold swap_last. rewrite H1, Hj, last_lookup, Hl1 by lia. fold n.
    rewrite H1, Hpl by lia. cbn [or_undefined mbind outcome_bind]. fold ps2. by rewrite Hl2.
  - split; [done|by rewrite Ht, decide_True by lia| |].
    + intros p [k Hk]%list_elem_of_lookup. pose proof (lookup_lt_Some _ _ _ Hk) as Hkl. rewrite Hl in Hkl. rewrite Ht in Hk by done.
      repeat case_decide; [left; congruence|right; injection Hk as <-; by eapply list_elem_of_lookup_2|right; by eapply list_elem_of_lookup_2].
    + intros k p Hk Hki Hkj. apply list_elem_of_lookup. pose proof (lookup_lt_Some _ _ _ Hk). destruct (decide (k = n)) as [->|Hkn].
      * exists j. rewrite Ht, decide_False, decide_True by lia. congruence.
      * exists k. by rewrite Ht, !decide_False by lia.
  - unfold split_ordered. rewrite Ht, decide_True by lia. cbn [or_undefined mbind outcome_bind]. unfold clearAttributes, addPartition.
    rewrite refill, length_app, length_insert, Hl. cbn [length]. replace (pred (n + 1)) with n by lia. rewrite (proj2 (Nat.eqb_neq _ _) Ej).
    assert (forall k, (k < n)%nat -> (<[i := pi]> (take n ps2) ++ [pj]) !! k = if decide (k = j) then Some pl else ps !! k) as Hs.
    { intros k Hk. rewrite lookup_app_l by (rewrite length_insert, Hl; lia). destruct (decide (k = i)) as [->|Hki].
      - rewrite decide_False, list_lookup_insert_eq by lia. done.
      - by rewrite list_lookup_insert_ne, Ht, decide_False by lia. }
    unfold swap_last. rewrite last_snoc, Hs, decide_True by lia. cbn [or_undefined mbind outcome_bind].
    rewrite length_app, length_insert, Hl. cbn [length]. replace (pred (n + 1)) with n by lia. f_equal.
    assert (length (<[i := pi]> (take n ps2) ++ [pj]) = S n) as Hls by (rewrite length_app, length_insert, Hl; cbn; lia).
    apply list_eq. intros k. destruct (decide (k = j)) as [->|Hkj].
    { rewrite list_lookup_insert_eq by (rewrite length_insert, Hls; lia). done. }
    rewrite list_lookup_insert_ne by done. destruct (decide (k = n)) as [->|Hkn].
    { rewrite list_lookup_insert_eq by (rewrite Hls; lia). done. }
    rewrite list_lookup_insert_ne by done. destruct (decide (k < n)%nat); [by rewrite Hs, decide_False by lia|].
    rewrite !lookup_ge_None_2; [done|lia|rewrite Hls; lia].
Qed.

Lemma merge_split_ok :
  exists ps', mergePartitions i j ps = Ret ps' /\ merge_of ps i j pi pj ps' /\ splitPartition i j pi pj ps' = Ret ps.
Proof.
  unfold mergePartitions, splitPartition. destruct (Nat.ltb_spec j i); [lia|].
  destruct (decide (j = pred (length ps))); [by apply merge_split_last|by apply merge_split_middle].
Qed.
End MergeSplit.

Lemma mergePartitions_comm ps i j : i <> j -> mergePartitions i j ps = mergePartitions j i ps.
Proof. intros Hij. unfold mergePartitions. by destruct (Nat.ltb_spec j i), (Nat.ltb_spec i j); try lia. Qed.

Lemma splitPartition_comm ps i j lhs rhs : i <> j -> splitPartition i j lhs rhs ps = splitPartition j i rhs lhs ps.
Proof. intros Hij. unfold splitPartition. by destruct (Nat.ltb_spec j i), (Nat.ltb_spec i j); try lia. Qed.

(** ** The partitions a query uses *)

Section Used.
Context (base : list Attribute) (iter : list nat -> list nat) (Hiter : forall l, iter l ≡ₚ l) (stats : SchemaStats).

(** The statistics know a finite average size of the attribute, and the size
    of the partition is a positive number. *)
Definition weighed (a : nat) : Prop := exists x, avg_size base stats a = Ret x /\ nonneg x /\ x < dinf.
Definition sized (p : Partition) : Prop := Forall weighed p /\ exists x, getPartitionSize base iter stats p = Ret x /\ finite_pos x.

Lemma used_score_ok eff selected p : sized p ->
  exists x, used_score base iter stats eff selected p = Ret x /\ nonneg x.
Proof.
  intros (Hw & n & En & Hn). unfold used_score. rewrite En. cbn [mbind outcome_bind].
  apply (returns_foldM (fun _ x => nonneg x)); [by apply (nonneg_dofZ 0)|].
  intros l a rest x El Hx. rewrite Forall_forall in Hw. destruct (Hw a) as (k & Ek & Hk & Hf).
  { rewrite <- (Hiter p), El. set_solver. }
  repeat case_decide; [by apply returns_ret..|]. rewrite Ek. cbn [mbind outcome_bind]. apply returns_ret.
  apply nonneg_dadd; [done|]. apply nonneg_ddiv; [|done]. apply nonneg_dmul; [done|by apply (nonneg_dofZ 24)|done|by vm_compute].
Qed.

Lemma above_minus_one_used x : nonneg x -> dltb (dopp dunit) x = true.
Proof.
  intros Hx. rewrite dltb_num by (apply Hx || by vm_compute). apply Z.ltb_lt.
  destruct (nonneg_key x Hx) as [-> H0]. enough (dkey (dopp dunit) < 0) by lia. by vm_compute.
Qed.

Context (partitions : Partitions) (Hsized : Forall sized partitions).

Lemma best_used_ok eff selected unused : unused <> [] -> Forall (fun i => i < length partitions)%nat unused ->
  exists best x, best_used base iter stats partitions eff selected unused = Ret (Some best, x) /\ best ∈ unused.
Proof.
  intros Hne Hin. unfold best_used.
  destruct (returns_foldM (fun l r => if decide (l = []) then r = (None, dopp dunit) else exists i, r.1 = Some i /\ i ∈ l /\ nonneg r.2)
    (fun '(bestPartition, bestPartitionScore) partition =>
      p ← or_undefined (partitions !! partition);
      partitionScore ← used_score base iter stats eff selected p;
      Ret (if dltb bestPartitionScore partitionScore then (Some partition, partitionScore)
           else (bestPartition, bestPartitionScore))) unused (None, dopp dunit)) as ([best x] & -> & Hr).
  - by rewrite decide_True.
  - intros l i rest [b x] El Hr. rewrite Forall_forall in Hin.
    destruct (lookup_lt_is_Some_2 partitions i) as [p Hp]; [apply Hin; rewrite El; set_solver|]. rewrite Hp. cbn [or_undefined mbind outcome_bind].
    rewrite Forall_forall in Hsized. destruct (used_score_ok eff selected p) as (y & -> & Hy); [by apply Hsized; eapply list_elem_of_lookup_2|].
    cbn [mbind outcome_bind]. apply returns_ret. rewrite decide_False by (by destruct l). case_decide as Hl.
    + injection Hr as -> ->. rewrite above_minus_one_used by done. exists i. split; [done|]. split; [set_solver|done].
    + destruct Hr as (j & Hj & Hjl & Hx). cbn in Hj, Hx. case_if; [exists i|exists j]; (split; [done|]); (split; [set_solver|done]).
  - rewrite decide_False in Hr by done. destruct Hr as (i & Ei & Hi & _). cbn in Ei. subst best. by exists i, x.
Qed.

(** What is selected is what the partitions used so far have. *)
Record used_inv (selected unused used : list nat) : Prop := {
  ui_NoDup : NoDup selected;
  ui_selected a : a ∈ selected <-> exists i p, i ∈ used /\ partitions !! i = Some p /\ a ∈ p;
  ui_all : unused ++ used ≡ₚ seq 0 (length partitions)
}.

Lemma used_step selected unused used best p : used_inv selected unused used -> best ∈ unused -> partitions !! best = Some p ->
  used_inv (foldl (fun selected attribute => set_add attribute selected) selected (iter p))
    (filter (fun i => i <> best) unused) (used ++ [best]).
Proof.
  intros [Hnd Hsel Hall] Hb Hp. split.
  - by apply (add_all_NoDup (iter p)).
  - intros a. change (foldl _ selected (iter p)) with (add_all (iter p) selected). rewrite elem_of_add_all, Hsel, (Hiter p).
    setoid_rewrite elem_of_app. setoid_rewrite list_elem_of_singleton. split.
    + intros [(i & q & Hi & Hq & Ha)|Ha]; [exists i, q; tauto|exists best, p; tauto].
    + intros (i & q & [Hi| ->] & Hq & Ha); [left; by exists i, q|right]. rewrite Hp in Hq. by injection Hq as ->.
  - rewrite <- Hall. assert (NoDup unused) as Hnu.
    { pose proof (NoDup_seq 0 (length partitions)) as Hs. rewrite <- Hall in Hs. by apply NoDup_app in Hs as (? & _). }
    by apply filter_move.
Qed.

Lemma missing_attribute (eff selected : list nat) : NoDup eff -> (length selected < length eff)%nat -> exists a, a ∈ eff /\ a ∉ selected.
Proof.
  intros Hnd Hlt. destruct (decide (Forall (fun a => a ∈ selected) eff)) as [Hall|Hnall].
  - rewrite Forall_forall in Hall. assert (length eff <= length selected)%nat; [|lia]. by apply submseteq_length, NoDup_submseteq.
  - apply not_Forall_Exists in Hnall; [|apply _]. by apply Exists_exists in Hnall.
Qed.

Lemma use_partitions_ok eff : NoDup eff -> (forall a, a ∈ eff -> exists p, p ∈ partitions /\ a ∈ p) ->
  forall fuel selected unused used, used_inv selected unused used -> (length unused < fuel)%nat ->
  exists used', use_partitions base iter stats partitions fuel eff selected unused used = Ret used' /\
    exists selected' unused', used_inv selected' unused' used' /\ (length eff <= length selected')%nat.
Proof.
  intros Heff Hcov. induction fuel as [|fuel IH]; intros selected unused used Hinv Hf; [lia|]. cbn [use_partitions].
  destruct (Nat.ltb_spec (length selected) (length eff)) as [Hlt|Hge]; [|eauto 6].
  destruct (missing_attribute eff selected Heff Hlt) as (a & Ha & Hna).
  destruct (Hcov a Ha) as (p & [i Hi]%list_elem_of_lookup & Hin).
  assert (forall x, x ∈ unused ++ used <-> (x < length partitions)%nat) as Hall by (intros x; rewrite (ui_all _ _ _ Hinv), elem_of_seq; lia).
  assert (i ∈ unused) as Hu.
  { assert (i ∈ unused ++ used) as [|Hi']%elem_of_app; [by apply Hall; eapply lookup_lt_Some|done|].
    destruct Hna. apply (ui_selected _ _ _ Hinv). by exists i, p. }
  destruct (best_used_ok eff selected unused) as (best & x & -> & Hbest); [by intros ->; apply elem_of_nil in Hu| |].
  { apply Forall_forall. intros y Hy. apply Hall. apply elem_of_app. by left. }
  cbn [mbind outcome_bind]. destruct (lookup_lt_is_Some_2 partitions best) as [bp Hbp]; [apply Hall, elem_of_app; by left|].
  rewrite Hbp. cbn [or_undefined mbind outcome_bind]. apply IH; [by apply used_step|].
  assert (length (filter (fun i => i <> best) unused) < length unused)%nat; [|lia].
  apply length_filter_lt with best; [done|]. tauto.
Qed.

Lemma effective_ok attributes q : NoDup (effective attributes q) /\
  forall a, a ∈ effective attributes q <-> a ∈ attributes /\ a ∈ qs_attributes_ q.
Proof.
  unfold effective. generalize (qs_attributes_ q). intros l.
  assert (forall acc, NoDup acc -> NoDup (foldl (fun s a => if decide (a ∈ attributes) then set_add a s else s) acc l) /\
    forall a, a ∈ foldl (fun s a => if decide (a ∈ attributes) then set_add a s else s) acc l <-> a ∈ acc \/ (a ∈ attributes /\ a ∈ l)) as Hg.
  { induction l as [|x l IH]; intros acc Hacc; cbn; [split; [done|]; intros a; rewrite elem_of_nil; tauto|].
    destruct (IH (if decide (x ∈ attributes) then set_add x acc else acc)) as [H1 H2]; [case_decide; [by apply set_add_NoDup|done]|].
    split; [done|]. intros a. rewrite H2, elem_of_cons. case_decide; [rewrite elem_of_set_add|]; naive_solver. }
  destruct (Hg [] ltac:(constructor)) as [H1 H2]. split; [done|]. intros a. rewrite H2, elem_of_nil. tauto.
Qed.

Lemma getUsedPartitions_ok attributes q :
  (forall a, a ∈ attributes -> a ∈ qs_attributes_ q -> exists p, p ∈ partitions /\ a ∈ p) ->
  exists used selected, getUsedPartitions base iter stats partitions attributes q = Ret used /\ NoDup used /\
    Forall (fun i => i < length partitions)%nat used /\ NoDup selected /\
    (forall a, a ∈ selected <-> exists i p, i ∈ used /\ partitions !! i = Some p /\ a ∈ p) /\
    (length (effective attributes q) <= length selected)%nat.
Proof.
  intros Hcov. destruct (effective_ok attributes q) as [Hnd Heff]. unfold getUsedPartitions.
  destruct (use_partitions_ok (effective attributes q) Hnd) with (fuel := S (length partitions)) (selected := @nil nat)
    (unused := iter (seq 0 (length partitions))) (used := @nil nat) as (used & E & sel & un & [H1 H2 H3] & Hl).
  - intros a Ha. apply Heff in Ha as [Ha Hq]. by apply Hcov.
  - split; [constructor| |by rewrite app_nil_r, Hiter]. intros a. split; [by intros ?%elem_of_nil|by intros (i & p & ?%elem_of_nil & _)].
  - rewrite (Hiter (seq 0 (length partitions))), length_seq. lia.
  - exists used, sel. pose proof (NoDup_seq 0 (length partitions)) as Hs. rewrite <- H3 in Hs. apply NoDup_app in Hs as (_ & _ & Hs).
    split_and!; try done. apply Forall_forall. intros i Hi. assert (i ∈ un ++ used) as Hx by (apply elem_of_app; by right).
    rewrite H3 in Hx. apply elem_of_seq in Hx. lia.
Qed.
End Used.

(** ** The theorems *)

(** C39: splitting the partitions just merged gives back the partitioning, the
    order of the partitions included, which the optimizer only asserts in a
    comment; the merge itself takes one partition away, puts the union at the
    smaller index and keeps the others. *)
Theorem merge_split_roundtrip ps i j pi pj : i <> j -> ps !! i = Some pi -> ps !! j = Some pj -> Forall (fun p => NoDup p) ps ->
  exists ps' k p, mergePartitions i j ps = Ret ps' /\ splitPartition i j pi pj ps' = Ret ps /\
    length ps' = pred (length ps) /\ k = Nat.min i j /\ ps' !! k = Some p /\ (forall a, a ∈ p <-> a ∈ pi \/ a ∈ pj) /\
    (forall q, q ∈ ps' -> q = p \/ q ∈ ps) /\ (forall l q, ps !! l = Some q -> l <> i -> l <> j -> q ∈ ps').
Proof.
  intros Hij Hi Hj Hnd. rewrite Forall_forall in Hnd. destruct (Nat.lt_ge_cases i j) as [Hlt|Hge].
  - destruct (merge_split_ok ps i j pi pj Hlt Hi Hj) as (ps' & E & [H1 H2 H3 H4] & E'); [by eapply Hnd, list_elem_of_lookup_2|].
    exists ps', (Nat.min i j), (merged pi pj). rewrite Nat.min_l by lia. split_and!; try done. intros a. apply elem_of_merged.
  - destruct (merge_split_ok ps j i pj pi ltac:(lia) Hj Hi) as (ps' & E & [H1 H2 H3 H4] & E'); [by eapply Hnd, list_elem_of_lookup_2|].
    exists ps', (Nat.min i j), (merged pj pi). rewrite Nat.min_r by lia. rewrite mergePartitions_comm, splitPartition_comm by done.
    split_and!; try done; [intros a; rewrite elem_of_merged; tauto|]. intros l q Hl Hli Hlj. by eapply H4.
Qed.

Lemma merge_split_roundtrip_witness :
  exists ps', mergePartitions 2 0 [[0]; [1; 2]; [3]]%nat = Ret ps' /\ splitPartition 2 0 [3]%nat [0]%nat ps' = Ret [[0]; [1; 2]; [3]]%nat.
Proof.
  destruct (merge_split_roundtrip [[0]; [1; 2]; [3]]%nat 2 0 [3]%nat [0]%nat) as (ps' & k & p & E & E' & _).
  - lia.
  - reflexivity.
  - reflexivity.
  - repeat constructor; set_solver.
  - exists ps'. split; [exact E|exact E'].
Defined.

(** C30: the partitions chosen for a query: when every attribute to cover is in
    a partition and the sizes are known, the greedy choice ends with distinct
    partitions that have at least as many attributes as there are to cover.
    The loop counts the attributes of the partitions, needed or not: the choice
    covers the query when the partitions hold only attributes it needs. *)
Theorem used_partitions base iter stats partitions attributes q :
  (forall l, iter l ≡ₚ l) -> Forall (sized base iter stats) partitions ->
  (forall a, a ∈ attributes -> a ∈ qs_attributes_ q -> exists p, p ∈ partitions /\ a ∈ p) ->
  exists used selected, getUsedPartitions base iter stats partitions attributes q = Ret used /\
    NoDup used /\ Forall (fun i => i < length partitions)%nat used /\
    NoDup selected /\ (forall a, a ∈ selected <-> exists i p, i ∈ used /\ partitions !! i = Some p /\ a ∈ p) /\
    (length (effective attributes q) <= length selected)%nat /\
    ((forall p a, p ∈ partitions -> a ∈ p -> a ∈ effective attributes q) -> selected ≡ₚ effective attributes q).
Proof.
  intros Hiter Hs Hcov. destruct (getUsedPartitions_ok base iter Hiter stats partitions Hs attributes q Hcov) as (used & sel & E & H1 & H2 & H3 & H4 & H5).
  exists used, sel. split_and!; try done. intros Hin. destruct (effective_ok attributes q) as [Hnd _].
  apply submseteq_length_Permutation; [|done]. apply NoDup_submseteq; [done|]. intros a (i & p & _ & Hp & Ha)%H4.
  eapply Hin; [by eapply list_elem_of_lookup_2|done].
Qed.

(** *** Concrete partitions *)

Definition abc_attributes : list Attribute := attributes_ (new_schema [("a", INT64); ("b", INT64); ("c", INT64)]%string).
Definition abc_stats : SchemaStats := [(0, (2, dofZ 64)); (1, (2, dofZ 16)); (2, (2, dofZ 16))].

(** Computes the value [x] of a closed call. *)
Ltac compute_ret :=
  match goal with |- exists x, ?f = Ret x /\ _ =>
    let v := eval vm_compute in f in match v with Ret ?b => exists b; split; [vm_compute; reflexivity|] end end.

Lemma abc_sized : Forall (sized abc_attributes id abc_stats) [[0]; [1]]%nat.
Proof.
  assert (forall a, (a < 3)%nat -> weighed abc_attributes abc_stats a) as Hw.
  { intros a Ha. destruct a as [|[|[|a]]]; [| | |lia]; unfold weighed; compute_ret; repeat split; by vm_compute. }
  apply Forall_cons. split; [|apply Forall_singleton].
  all: split; [apply Forall_singleton, Hw; lia|]; compute_ret; eexists _, _; vm_compute; reflexivity.
Qed.

Lemma used_partitions_witness :
  exists used, getUsedPartitions abc_attributes id abc_stats [[0]; [1]]%nat [0; 1]%nat (mkSummary [0; 1]%nat None) = Ret used /\ NoDup used.
Proof.
  destruct (used_partitions abc_attributes id abc_stats [[0]; [1]]%nat [0; 1]%nat (mkSummary [0; 1]%nat None)) as (used & sel & E & Hnd & _).
  - intros l. reflexivity.
  - apply abc_sized.
  - intros a [->|[->|[]%elem_of_nil]%elem_of_cons]%elem_of_cons _; [exists [0%nat]|exists [1%nat]]; split; repeat constructor.
  - exists used. split; [exact E|exact Hnd].
Defined.

(** A query on [a] and [b], where [c] is stored with [a]: having [a] and [c]
    counts as having both, and the partition of [b] is not used. *)
Example used_partitions_miss :
  getUsedPartitions abc_attributes id abc_stats [[0; 2]; [1]]%nat [0; 1; 2]%nat (mkSummary [0; 1]%nat None) = Ret [0%nat].
Proof. vm_compute. reflexivity. Qed.
