(* ===== verification/Heuristics.v ===== *)
(** * The heuristic optimizers

    liboptimizer: MinCostSolution.h, SinglePartition.cpp,
    PartitionPerAttribute.cpp, HeuristicNonOverlapping.cpp and
    HeuristicOverlapping.cpp, which choose the partitioning of the attributes
    for a workload. *)

From Stdlib Require Import ZArith Lia.
From stdpp Require Import base numbers gmap strings list sorting.
From S2P Require Import Prelude.
From S2P Require Import Double.
From S2P Require Import Schema.
From S2P Require Import MetaData.
From S2P Require Import Query.
From S2P Require Import Workload.
From S2P Require Import Partitions.

(** ** MinCostSolution *)

Record MinCostSolution (T : Type) := mkMinCost { inited_ : bool; bestSolution_ : T; minCost_ : double }.
Arguments mkMinCost {T}.
Arguments inited_ {T}.
Arguments bestSolution_ {T}.
Arguments minCost_ {T}.

(** [init] is what [bestSolution_] holds before the first [push]. *)
Definition newMinCost {T} (init : T) : MinCostSolution T := mkMinCost false init dmax.

Definition push {T} (solution : T) (cost : double) (m : MinCostSolution T) : MinCostSolution T :=
  if negb (inited_ m) || dleb cost (minCost_ m) then mkMinCost true solution cost else m.

(** ** SinglePartition and PartitionPerAttribute *)

Definition SinglePartition_solve (workload : QueryWorkload) : Partitions :=
  addPartition (foldl (fun p attribute => addAttribute attribute p) [] (qw_attributes_ workload)) [].

Definition PartitionPerAttribute_solve (workload : QueryWorkload) : Partitions :=
  foldl (fun ps attribute => addPartition (addAttribute attribute (clearAttributes [])) ps) [] (qw_attributes_ workload).

Section Heuristics.
(** [sort_by] is [std::sort] with a comparator. *)
Context (base : list Attribute) (iter : list nat -> list nat) (sort_by : (nat -> nat -> bool) -> list nat -> list nat).
Context (stats : SchemaStats) (workload : QueryWorkload).

(** ** HeuristicNonOverlapping *)

(** The loop over the partitions: [attrb] is tried in each. *)
Definition try_partition (attrb : nat) (usedAttributes : list nat)
  (st : Partitions * MinCostSolution (option nat)) (k : nat) : outcome (Partitions * MinCostSolution (option nat)) :=
  let '(partitions, minCostPart) := st in
  part ← or_undefined (partitions !! k);
  let partitions := <[k := addAttribute attrb part]> partitions in
  cost ← getIOCost_of base iter stats partitions workload usedAttributes;
  let minCostPart := push (Some k) cost minCostPart in
  part ← or_undefined (partitions !! k);
  Ret (<[k := removeAttribute attrb part]> partitions, minCostPart).

(** The body of the loop over the attributes. *)
Definition place_attribute (st : list nat * Partitions) (attrb : nat) : outcome (list nat * Partitions) :=
  let '(usedAttributes, partitions) := st in
  let usedAttributes := set_add attrb usedAttributes in
  '(partitions, minCostPart) ← foldM (try_partition attrb usedAttributes) (partitions, newMinCost None) (seq 0 (length partitions));
  bestPart ← or_undefined (bestSolution_ minCostPart);
  part ← or_undefined (partitions !! bestPart);
  Ret (usedAttributes, <[bestPart := addAttribute attrb part]> partitions).

Definition attrbFreq : gmap nat Z :=
  foldl (fun m attrb => <[attrb := default 0 (m !! attrb) + 1]> m)
    (foldl (fun m attrb => <[attrb := 0]> m) ∅ (qw_attributes_ workload))
    (concat (qs_attributes_ <$> queries_ workload)).

Definition more_frequent (lhs rhs : nat) : bool := default 0 (attrbFreq !! rhs) <? default 0 (attrbFreq !! lhs).

Definition solve_count (numPartitions : nat) : outcome Partitions :=
  let partitions := replicate numPartitions [] in
  '(_, partitions) ← foldM place_attribute ([], partitions) (sort_by more_frequent (qw_attributes_ workload));
  Ret (foldl (fun ps p => if (0 <? length p)%nat then addPartition p ps else ps) [] partitions).

(** The [for] loop over the number of partitions, with its [break]. *)
Fixpoint try_counts (storageThreshold : double) (counts : list nat) (minCostPart : MinCostSolution Partitions)
  : outcome (MinCostSolution Partitions) :=
  match counts with
  | [] => Ret minCostPart
  | numPartitions :: counts =>
      partitioning ← solve_count numPartitions;
      overhead ← getStorageOverhead base iter stats partitioning workload;
      if dltb storageThreshold overhead then Ret minCostPart
      else
        cost ← getIOCost base iter stats partitioning workload;
        try_counts storageThreshold counts (push partitioning cost minCostPart)
  end.

Definition query_attributes : list nat :=
  foldl (fun s attribute => set_add attribute s) [] (concat (qs_attributes_ <$> queries_ workload)).

Definition HeuristicNonOverlapping_solve (storageThreshold : double) : outcome Partitions :=
  let most := Nat.min (length query_attributes + 1) (length (qw_attributes_ workload)) in
  minCostPart ← try_counts storageThreshold (seq 1 most) (newMinCost []);
  _ ← cassert (inited_ minCostPart);
  Ret (bestSolution_ minCostPart).

(** ** HeuristicOverlapping *)

(** The partition of a query, and the attributes it leaves missing. *)
Definition add_query (st : Partitions * list nat) (query : QuerySummary) : Partitions * list nat :=
  let '(partition, missingAttributes) :=
    foldl (fun '(partition, missing) attrb =>
      (addAttribute attrb partition, if decide (attrb ∈ missing) then filter (fun a => a <> attrb) missing else missing))
      ([], st.2) (qs_attributes_ query) in
  (addPartition partition st.1, missingAttributes).

Definition initial_partitioning : Partitions :=
  let '(partitioning, missingAttributes) := foldl add_query ([], attribute_set workload) (queries_ workload) in
  if (0 <? length missingAttributes)%nat
  then addPartition (foldl (fun p attrb => addAttribute attrb p) [] (iter missingAttributes)) partitioning
  else partitioning.

(** The body of the loops over [i] and [j]: the partitions are merged, the
    gain is measured, and they are split again. *)
Definition try_merge (oldCost : double) (st : Partitions * MinCostSolution (nat * nat)) (ij : nat * nat)
  : outcome (Partitions * MinCostSolution (nat * nat)) :=
  let '(partitioning, minCostSolution) := st in
  let '(i, j) := ij in
  lhsP ← or_undefined (partitioning !! i);
  rhsP ← or_undefined (partitioning !! j);
  lhsSize ← getPartitionSize base iter stats lhsP;
  rhsSize ← getPartitionSize base iter stats rhsP;
  let oldSize := dadd lhsSize rhsSize in
  partitioning ← mergePartitions i j partitioning;
  newCost ← getIOCost base iter stats partitioning workload;
  newP ← or_undefined (partitioning !! i);
  newSize ← getPartitionSize base iter stats newP;
  let cost := ddiv (dsub newCost oldCost) (dsub oldSize newSize) in
  partitioning ← splitPartition i j lhsP rhsP partitioning;
  Ret (partitioning, push (i, j) cost minCostSolution).

Definition index_pairs (iu : nat) : list (nat * nat) :=
  seq 0 (pred iu) ≫= fun i => pair i <$> seq (S i) (iu - S i).

(** The [while] loop; [None] when the fuel ran out.  [std::pair<int, int>]
    starts as (0, 0). *)
Fixpoint merge_while (fuel : nat) (storageThreshold : double) (partitioning : Partitions) : option (outcome Partitions) :=
  match getStorageOverhead base iter stats partitioning workload with
  | Ret overhead =>
      if dltb storageThreshold overhead then
        match fuel with
        | O => None
        | S fuel =>
            match
              (oldCost ← getIOCost base iter stats partitioning workload;
               '(partitioning, minCostSolution) ← foldM (try_merge oldCost) (partitioning, newMinCost (0%nat, 0%nat))
                 (index_pairs (length partitioning));
               let '(i, j) := bestSolution_ minCostSolution in
               mergePartitions i j partitioning)
            with
            | Ret partitioning => merge_while fuel storageThreshold partitioning
            | Throw e => Some (Throw e)
            | AssertFailed => Some AssertFailed
            | Undefined => Some Undefined
            end
        end
      else Some (Ret partitioning)
  | Throw e => Some (Throw e)
  | AssertFailed => Some AssertFailed
  | Undefined => Some Undefined
  end.

(** Every turn merges two partitions ([heuristic_overlapping]). *)
Definition HeuristicOverlapping_solve (storageThreshold : double) : option (outcome Partitions) :=
  merge_while (length initial_partitioning) storageThreshold initial_partitioning.
End Heuristics.

(** ** The heuristics give partitionings of the attributes *)

Section Correct.
Context (base : list Attribute) (iter : list nat -> list nat) (stats : SchemaStats) (workload : QueryWorkload).
Context (Hiter : forall l, iter l ≡ₚ l).
#[local] Abbreviation attrs := (qw_attributes_ workload).

(** A workload on distinct attributes, whose queries were counted and name
    only these attributes; partitions of them have sizes. *)
Record workload_fits : Prop := {
  wf_NoDup : NoDup attrs;
  wf_some : attrs <> [];
  wf_queries q : q ∈ queries_ workload -> is_Some (find_by summary_eqb q (counts_ workload)) /\ forall a, a ∈ qs_attributes_ q -> a ∈ attrs;
  wf_sized p : NoDup p -> p ⊆ attrs -> sized base iter stats p
}.
Context (Hw : workload_fits).

(** Partitions of the attributes. *)
Definition partitions_ok (ps : Partitions) : Prop := Forall (fun p => NoDup p /\ p ⊆ attrs) ps.
Definition covering (l : list nat) (ps : Partitions) : Prop := forall a, a ∈ l -> exists p, p ∈ ps /\ a ∈ p.

Lemma partitions_sized ps : partitions_ok ps -> Forall (sized base iter stats) ps.
Proof. intros Hps. eapply Forall_impl; [exact Hps|]. intros p [Hnd Hsub]. by apply (wf_sized Hw). Qed.

Lemma attribute_set_eq : attribute_set workload = attrs.
Proof. unfold attribute_set. change (add_all attrs [] = attrs). rewrite add_all_fresh; [done|apply (wf_NoDup Hw)]. Qed.

Lemma cost_total ps used : partitions_ok ps -> covering used ps ->
  exists c, getIOCost_of base iter stats ps workload used = Ret c.
Proof.
  intros Hps Hcov. pose proof (partitions_sized ps Hps) as Hs. unfold getIOCost_of.
  destruct (returns_foldM (fun (_ : list QuerySummary) (_ : double) => True)
    (fun totalIOCost summary =>
      used ← getUsedPartitions base iter stats ps used summary;
      partitionIOCost ← foldM (fun cost i => p ← or_undefined (ps !! i); x ← getPartitionSize base iter stats p; Ret (dadd cost x)) dzero used;
      f ← getFrequency summary workload;
      Ret (dadd totalIOCost (dmul f partitionIOCost))) (queries_ workload) dzero) as (c & E & _); [done| |by exists c].
  intros l q rest c El _. destruct (wf_queries Hw q) as [[n Hn] _]; [rewrite El; set_solver|].
  destruct (getUsedPartitions_ok base iter Hiter stats ps Hs used q) as (ups & sel & -> & _ & Hlt & _); [intros a Ha _; by apply Hcov|].
  cbn [mbind outcome_bind].
  destruct (returns_foldM (fun (_ : list nat) (_ : double) => True) (fun cost i => p ← or_undefined (ps !! i); x ← getPartitionSize base iter stats p; Ret (dadd cost x))
    ups dzero) as (pc & -> & _); [done| |].
  - intros l' i rest' x El' _. rewrite Forall_forall in Hlt. rewrite Forall_forall in Hs. destruct (lookup_lt_is_Some_2 ps i) as [p Hp]; [apply Hlt; rewrite El'; set_solver|].
    rewrite Hp. cbn [or_undefined mbind outcome_bind]. destruct (Hs p) as (_ & y & -> & _); [by eapply list_elem_of_lookup_2|]. by apply returns_ret.
  - cbn [mbind outcome_bind]. unfold getFrequency. rewrite Hn. by apply returns_ret.
Qed.

Lemma cost_all_total ps : partitions_ok ps -> covering attrs ps -> exists c, getIOCost base iter stats ps workload = Ret c.
Proof. intros Hps Hcov. unfold getIOCost. rewrite attribute_set_eq. by apply cost_total. Qed.

Lemma size_total p : NoDup p -> p ⊆ attrs -> exists x, getPartitionSize base iter stats p = Ret x.
Proof. intros Hnd Hsub. destruct (wf_sized Hw p Hnd Hsub) as (_ & x & E & _). by exists x. Qed.

Lemma overhead_total ps : partitions_ok ps -> exists x, getStorageOverhead base iter stats ps workload = Ret x.
Proof.
  intros Hps. pose proof (partitions_sized ps Hps) as Hs. unfold getStorageOverhead. rewrite attribute_set_eq.
  destruct (size_total attrs (wf_NoDup Hw)) as [b ->]; [done|]. cbn [mbind outcome_bind].
  destruct (returns_foldM (fun (_ : Partitions) (_ : double) => True) (fun total p => x ← getPartitionSize base iter stats p; Ret (dadd total x)) ps dzero)
    as (t & -> & _); [done| |by eexists].
  intros l p rest x El _. rewrite Forall_forall in Hs. destruct (Hs p) as (_ & y & -> & _); [rewrite El; set_solver|]. by apply returns_ret.
Qed.

(** *** HeuristicOverlapping *)

Definition good_partitioning (ps : Partitions) : Prop := partitions_ok ps /\ covering attrs ps.

Lemma merge_good ps i j pi pj ps' : (i < j)%nat -> ps !! i = Some pi -> ps !! j = Some pj ->
  merge_of ps i j pi pj ps' -> good_partitioning ps -> good_partitioning ps'.
Proof.
  intros Hij Hi Hj [Hlen Hmg Hfrom Hoth] [Hok Hcov]. unfold partitions_ok in *. rewrite Forall_forall in Hok.
  destruct (Hok pi) as [Hni Hsi]; [by eapply list_elem_of_lookup_2|]. destruct (Hok pj) as [Hnj Hsj]; [by eapply list_elem_of_lookup_2|]. split.
  - apply Forall_forall. intros p Hp. destruct (Hfrom p Hp) as [->|Hp']; [|by apply Hok].
    split; [by apply merged_NoDup|]. intros a Ha. apply elem_of_merged in Ha as [Ha|Ha]; auto.
  - intros a Ha. destruct (Hcov a Ha) as (p & [k Hk]%list_elem_of_lookup & Hap).
    assert (merged pi pj ∈ ps') as Hm by (by eapply list_elem_of_lookup_2).
    destruct (decide (k = i)) as [->|Hki]; [exists (merged pi pj); split; [done|]; apply elem_of_merged; left; congruence|].
    destruct (decide (k = j)) as [->|Hkj]; [exists (merged pi pj); split; [done|]; apply elem_of_merged; right; congruence|].
    exists p. split; [by eapply Hoth|done].
Qed.

Lemma elem_of_index_pairs n i j : (i, j) ∈ index_pairs n <-> (i < j < n)%nat.
Proof.
  unfold index_pairs. rewrite list_elem_of_bind. split.
  - intros (i' & Hp & Hi'%elem_of_seq). apply list_elem_of_fmap in Hp as (j' & [= -> ->] & Hj'%elem_of_seq). lia.
  - intros Hij. exists i. split; [|apply elem_of_seq; lia]. apply list_elem_of_fmap_2, elem_of_seq. lia.
Qed.

(** Trying a merge leaves the partitioning as it was. *)
Lemma try_merge_ok oldCost ps m i j : good_partitioning ps -> (i < j < length ps)%nat ->
  exists m', try_merge base iter stats workload oldCost (ps, m) (i, j) = Ret (ps, m') /\ inited_ m' = true /\
    (bestSolution_ m' = (i, j) \/ (inited_ m = true /\ bestSolution_ m' = bestSolution_ m)).
Proof.
  intros Hg Hij. pose proof Hg as [Hok Hcov]. destruct (lookup_lt_is_Some_2 ps i) as [pi Hi]; [lia|]. destruct (lookup_lt_is_Some_2 ps j) as [pj Hj]; [lia|].
  unfold partitions_ok in Hok. rewrite Forall_forall in Hok. destruct (Hok pi) as [Hni Hsi]; [by eapply list_elem_of_lookup_2|].
  destruct (Hok pj) as [Hnj Hsj]; [by eapply list_elem_of_lookup_2|].
  destruct (size_total pi Hni Hsi) as [xi Exi], (size_total pj Hnj Hsj) as [xj Exj].
  destruct (merge_split_ok ps i j pi pj ltac:(lia) Hi Hj Hni) as (ps' & Em & Hmg & Es).
  pose proof (merge_good ps i j pi pj ps' ltac:(lia) Hi Hj Hmg Hg) as [Hok' Hcov'].
  destruct (cost_all_total ps' Hok' Hcov') as [c Ec].
  unfold partitions_ok in Hok'. rewrite Forall_forall in Hok'. destruct (Hok' (merged pi pj)) as [Hnm Hsm].
  { eapply list_elem_of_lookup_2. apply (mg_merged _ _ _ _ _ _ Hmg). }
  destruct (size_total _ Hnm Hsm) as [xm Exm].
  unfold try_merge. rewrite Hi, Hj. cbn [or_undefined mbind outcome_bind]. rewrite Exi, Exj. cbn [mbind outcome_bind]. rewrite Em.
  cbn [mbind outcome_bind]. rewrite Ec, (mg_merged _ _ _ _ _ _ Hmg). cbn [or_undefined mbind outcome_bind]. rewrite Exm. cbn [mbind outcome_bind].
  rewrite Es. cbn [mbind outcome_bind]. eexists. split; [reflexivity|]. unfold push. destruct (inited_ m) eqn:E; cbn [negb orb].
  - destruct (dleb _ _); [by split; [|left]|]. split; [done|]. by right.
  - by split; [|left].
Qed.

Lemma try_merges_ok oldCost ps : good_partitioning ps -> (2 <= length ps)%nat ->
  exists m i j, foldM (try_merge base iter stats workload oldCost) (ps, newMinCost (0%nat, 0%nat)) (index_pairs (length ps)) = Ret (ps, m) /\
    bestSolution_ m = (i, j) /\ (i < j < length ps)%nat.
Proof.
  intros Hg Hlen.
  destruct (foldM_total (fun l st => st.1 = ps /\ if decide (l = []) then inited_ st.2 = false
      else inited_ st.2 = true /\ bestSolution_ st.2 ∈ index_pairs (length ps))
    (try_merge base iter stats workload oldCost) (index_pairs (length ps)) (ps, newMinCost (0%nat, 0%nat))) as ([ps' m] & E & Eps & Hr).
  - done.
  - intros l [i j] rest [ps' m] El [Eps Hr]. cbn in Eps. subst ps'.
    assert ((i, j) ∈ index_pairs (length ps)) as Hin by (rewrite El; set_solver). pose proof Hin as Hij%elem_of_index_pairs.
    destruct (try_merge_ok oldCost ps m i j Hg Hij) as (m' & -> & Hi' & Hb). exists (ps, m'). split; [done|]. split; [done|].
    rewrite decide_False by (by destruct l). split; [done|]. cbn [snd]. destruct Hb as [->|[Hi ->]]; [done|].
    case_decide; cbn [snd] in Hr; [congruence|apply Hr].
  - cbn [fst snd] in *. subst ps'. rewrite decide_False in Hr.
    + destruct Hr as [_ Hb]. destruct (bestSolution_ m) as [i j] eqn:Eb. exists m, i, j. split; [done|]. split; [done|]. by apply elem_of_index_pairs.
    + intros E0. assert ((0%nat, 1%nat) ∈ index_pairs (length ps)) as Hin by (apply elem_of_index_pairs; lia). rewrite E0 in Hin. by apply elem_of_nil in Hin.
Qed.

Lemma add_query_attributes l : forall p missing, NoDup p -> NoDup missing ->
  exists p' missing', foldl (fun '(partition, missing) attrb =>
      (addAttribute attrb partition, if decide (attrb ∈ missing) then filter (fun a => a <> attrb) missing else missing)) (p, missing) l = (p', missing') /\
    NoDup p' /\ NoDup missing' /\ (forall a, a ∈ p' <-> a ∈ p \/ a ∈ l) /\ (forall a, a ∈ missing' <-> a ∈ missing /\ a ∉ l).
Proof.
  induction l as [|x l IH]; intros p missing Hp Hm; cbn [foldl].
  { exists p, missing. split_and!; [done..| |]; intros a; rewrite elem_of_nil; tauto. }
  assert (exists m1, (if decide (x ∈ missing) then filter (fun a => a <> x) missing else missing) = m1 /\ NoDup m1 /\
    forall a, a ∈ m1 <-> a ∈ missing /\ a <> x) as (m1 & -> & Hm1 & Ha).
  { eexists. split; [reflexivity|]. case_decide as Hx.
    - split; [by apply NoDup_filter|]. intros a. rewrite list_elem_of_filter. tauto.
    - split; [done|]. intros a. split; [|tauto]. intros Ha. split; [done|]. by intros ->. }
  destruct (IH (addAttribute x p) m1) as (p' & missing' & E & H1 & H2 & H3 & H4); [by apply set_add_NoDup|done|].
  exists p', missing'. split_and!; [done..| |].
  - intros a. rewrite H3, elem_of_cons. unfold addAttribute. rewrite elem_of_set_add. tauto.
  - intros a. rewrite H4, Ha, elem_of_cons. tauto.
Qed.

Lemma initial_good : good_partitioning (initial_partitioning iter workload) /\
  (length (initial_partitioning iter workload) <= S (length (queries_ workload)))%nat.
Proof.
  unfold initial_partitioning. rewrite attribute_set_eq.
  assert (forall qs st, (forall q, q ∈ qs -> q ∈ queries_ workload) -> partitions_ok st.1 -> NoDup st.2 -> st.2 ⊆ attrs ->
    (forall a, a ∈ attrs -> a ∈ st.2 \/ exists p, p ∈ st.1 /\ a ∈ p) ->
    let st' := foldl add_query st qs in partitions_ok st'.1 /\ NoDup st'.2 /\ st'.2 ⊆ attrs /\
      (forall a, a ∈ attrs -> a ∈ st'.2 \/ exists p, p ∈ st'.1 /\ a ∈ p) /\ length st'.1 = (length st.1 + length qs)%nat) as Hg.
  { induction qs as [|q qs IH]; intros [ps missing] Hqs Hok Hnd Hsub Hcov; cbn [foldl]; [split_and!; try done; cbn; lia|].
    cbn [fst snd] in *.
    destruct (add_query_attributes (qs_attributes_ q) [] missing ltac:(constructor) Hnd) as (p & m & E & Hp & Hm & Hpa & Hma).
    assert (add_query (ps, missing) q = (addPartition p ps, m)) as -> by (unfold add_query; cbn [fst snd]; by rewrite E).
    destruct (wf_queries Hw q) as [_ Hqa]; [apply Hqs; left|].
    destruct (IH (addPartition p ps, m)) as (H1 & H2 & H3 & H4 & H5); cbn [fst snd].
    - intros q' Hq'. apply Hqs. by right.
    - unfold addPartition, partitions_ok. apply Forall_app. split; [done|]. apply Forall_singleton. split; [done|].
      intros a Ha. apply Hpa in Ha as [?%elem_of_nil|Ha]; [done|by apply Hqa].
    - done.
    - intros a [Ha _]%Hma. by apply Hsub.
    - intros a Ha. destruct (Hcov a Ha) as [Hm'|(p0 & Hp0 & Hap)].
      + destruct (decide (a ∈ qs_attributes_ q)) as [Haq|Haq]; [right|left; by apply Hma].
        exists p. split; [unfold addPartition; set_solver|]. apply Hpa. by right.
      + right. exists p0. split; [unfold addPartition; set_solver|done].
    - split_and!; try done. rewrite H5. unfold addPartition. cbn [fst length]. rewrite length_app. cbn. lia. }
  destruct (Hg (queries_ workload) ([], attrs)) as (H1 & H2 & H3 & H4 & H5); [done|constructor|apply (wf_NoDup Hw)|done|by left|].
  destruct (foldl add_query ([], attrs) (queries_ workload)) as [ps missing]. cbn [fst snd length] in *.
  destruct (Nat.ltb_spec 0 (length missing)) as [Hlt|Hge].
  - change (foldl (fun p attrb => addAttribute attrb p) [] (iter missing)) with (add_all (iter missing) []). split; [split|].
    + unfold addPartition, partitions_ok. apply Forall_app. split; [done|]. apply Forall_singleton. split; [apply add_all_NoDup; constructor|].
      intros a Ha. apply elem_of_add_all in Ha as [?%elem_of_nil|Ha]; [done|]. rewrite (Hiter missing) in Ha. by apply H3.
    + intros a Ha. destruct (H4 a Ha) as [Hm|(p & Hp & Hap)].
      * exists (add_all (iter missing) []). split; [unfold addPartition; set_solver|]. apply elem_of_add_all. right. by rewrite (Hiter missing).
      * exists p. split; [unfold addPartition; set_solver|done].
    + unfold addPartition. rewrite length_app. cbn. lia.
  - split; [split; [done|]|lia]. intros a Ha. destruct (H4 a Ha) as [Hm|Hp]; [|done]. destruct missing; [by apply elem_of_nil in Hm|cbn in Hge; lia].
Qed.

Lemma covering_nonempty ps : covering attrs ps -> (1 <= length ps)%nat.
Proof.
  intros Hcov. destruct attrs as [|a l] eqn:E; [by destruct (wf_some Hw)|]. destruct (Hcov a ltac:(left)) as (p & Hp & _).
  destruct ps; [by apply elem_of_nil in Hp|cbn; lia].
Qed.

Context (storageThreshold : double).
(** The partitioning with one partition is within the threshold. *)
Context (Hsingle : forall p, p ≡ₚ attrs -> exists x, getStorageOverhead base iter stats [p] workload = Ret x /\ dltb storageThreshold x = false).

Lemma merge_while_ok fuel : forall ps, good_partitioning ps -> (length ps <= fuel)%nat ->
  exists ps' x, merge_while base iter stats workload fuel storageThreshold ps = Some (Ret ps') /\ good_partitioning ps' /\
    (length ps' <= length ps)%nat /\ getStorageOverhead base iter stats ps' workload = Ret x /\ dltb storageThreshold x = false.
Proof.
  induction fuel as [|fuel IH]; intros ps Hg Hf; pose proof Hg as [Hok Hcov]; pose proof (covering_nonempty ps Hcov) as H1; [lia|].
  destruct (overhead_total ps Hok) as [x Ex]. cbn [merge_while]. rewrite Ex. destruct (dltb storageThreshold x) eqn:Et.
  2: { exists ps, x. split_and!; done. }
  destruct (decide (length ps = 1%nat)) as [Hl1|Hl1].
  { destruct ps as [|p [|]]; [done| |done]. unfold partitions_ok in Hok. apply Forall_singleton in Hok as [Hnd Hsub].
    assert (p ≡ₚ attrs) as Hp.
    { apply NoDup_Permutation; [done|apply (wf_NoDup Hw)|]. intros a. split; [apply Hsub|]. intros Ha.
      destruct (Hcov a Ha) as (p' & ->%list_elem_of_singleton & Hap). done. }
    destruct (Hsingle p Hp) as (y & Ey & Hy). congruence. }
  destruct (cost_all_total ps Hok Hcov) as [c ->]. cbn [mbind outcome_bind].
  destruct (try_merges_ok c ps Hg ltac:(lia)) as (m & i & j & -> & Eb & Hij). cbn [mbind outcome_bind]. rewrite Eb.
  destruct (lookup_lt_is_Some_2 ps i) as [pi Hi]; [lia|]. destruct (lookup_lt_is_Some_2 ps j) as [pj Hj]; [lia|].
  pose proof Hok as Hok2. unfold partitions_ok in Hok2. rewrite Forall_forall in Hok2. destruct (Hok2 pi) as [Hni _]; [by eapply list_elem_of_lookup_2|].
  destruct (merge_split_ok ps i j pi pj ltac:(lia) Hi Hj Hni) as (ps' & -> & Hmg & _).
  pose proof (merge_good ps i j pi pj ps' ltac:(lia) Hi Hj Hmg Hg) as Hg'. pose proof (mg_length _ _ _ _ _ _ Hmg) as Hl.
  destruct (IH ps' Hg') as (ps2 & y & E & Hg2 & Hl2 & Ey & Hy); [lia|]. exists ps2, y. split_and!; [done..|lia|done|done].
Qed.

(** *** HeuristicNonOverlapping *)

Context (sort_by : (nat -> nat -> bool) -> list nat -> list nat) (Hsort : forall c l, sort_by c l ≡ₚ l).

(** Every attribute placed so far is in exactly one of the partitions. *)
Definition placed (l : list nat) (ps : Partitions) : Prop := concat ps ≡ₚ l.

Lemma placed_ok l ps : placed l ps -> NoDup l -> l ⊆ attrs -> partitions_ok ps /\ covering l ps.
Proof.
  unfold placed. intros Hp Hnd Hsub. rewrite <- Hp in Hnd. split.
  - apply Forall_forall. intros p Hin. apply list_elem_of_split in Hin as (l1 & l2 & ->). rewrite concat_app in Hnd, Hp. cbn in Hnd, Hp. split.
    + apply NoDup_app in Hnd as (_ & _ & Hnd). by apply NoDup_app in Hnd as (? & _).
    + intros a Ha. apply Hsub. rewrite <- Hp. set_solver.
  - intros a Ha. rewrite <- Hp, list_elem_of_In, in_concat in Ha. destruct Ha as (p & Hp1 & Ha). exists p. by rewrite !list_elem_of_In.
Qed.

Lemma placed_insert l ps k p a : placed l ps -> ps !! k = Some p -> a ∉ l -> placed (a :: l) (<[k := addAttribute a p]> ps).
Proof.
  unfold placed. intros Hp Hk Ha. rewrite insert_take_drop by (by eapply lookup_lt_Some).
  rewrite <- (take_drop_middle ps k p Hk) in Hp. rewrite concat_app in *. cbn [concat] in *.
  assert (addAttribute a p = p ++ [a]) as ->.
  { unfold addAttribute, set_add. rewrite decide_False; [done|]. intros Hin. apply Ha. rewrite <- Hp. set_solver. }
  rewrite <- Hp. rewrite <- (app_assoc p [a]). cbn. rewrite <- !Permutation_middle. done.
Qed.

Lemma try_partition_ok l ps a used m k : placed l ps -> NoDup (a :: l) -> (a :: l) ⊆ attrs -> (forall x, x ∈ used <-> x ∈ a :: l) -> (k < length ps)%nat ->
  exists m', try_partition base iter stats workload a used (ps, m) k = Ret (ps, m') /\ inited_ m' = true /\
    (bestSolution_ m' = Some k \/ (inited_ m = true /\ bestSolution_ m' = bestSolution_ m)).
Proof.
  intros Hp Hnd Hsub Hused Hk. destruct (lookup_lt_is_Some_2 ps k Hk) as [p Hpk]. pose proof Hnd as [Ha Hndl]%NoDup_cons.
  pose proof (placed_insert l ps k p a Hp Hpk Ha) as Hp1. destruct (placed_ok _ _ Hp1 Hnd Hsub) as [Hok Hcov].
  destruct (cost_total _ used Hok) as [c Ec]; [intros x Hx; apply Hcov; by apply Hused|].
  unfold try_partition. rewrite Hpk. cbn [or_undefined mbind outcome_bind]. rewrite Ec, list_lookup_insert_eq by done. cbn [or_undefined mbind outcome_bind].
  assert (a ∉ p) as Hap.
  { intros Hin. apply Ha. unfold placed in Hp. rewrite <- Hp, list_elem_of_In, in_concat. exists p. rewrite <- !list_elem_of_In.
    split; [by eapply list_elem_of_lookup_2|done]. }
  assert (removeAttribute a (addAttribute a p) = p) as ->.
  { unfold removeAttribute, addAttribute, set_add. rewrite decide_False, filter_app, filter_cons, decide_False, filter_nil, app_nil_r by tauto.
    apply filter_all, Forall_forall. by intros x Hx ->. }
  rewrite list_insert_insert_eq, list_insert_id by done. eexists. split; [reflexivity|]. unfold push. destruct (inited_ m) eqn:E; cbn [negb orb].
  - destruct (dleb _ _); [by split; [|left]|]. split; [done|]. by right.
  - by split; [|left].
Qed.

Lemma place_attribute_ok l ps used a : placed l ps -> NoDup (a :: l) -> (a :: l) ⊆ attrs -> (forall x, x ∈ used <-> x ∈ l) -> (0 < length ps)%nat ->
  exists used' ps', place_attribute base iter stats workload (used, ps) a = Ret (used', ps') /\ placed (a :: l) ps' /\
    (forall x, x ∈ used' <-> x ∈ a :: l) /\ length ps' = length ps.
Proof.
  intros Hp Hnd Hsub Hused Hlen. unfold place_attribute. pose proof Hnd as [Ha _]%NoDup_cons.
  assert (forall x, x ∈ set_add a used <-> x ∈ a :: l) as Hu by (intros x; rewrite elem_of_set_add, Hused, elem_of_cons; tauto).
  destruct (foldM_total (fun ks st => st.1 = ps /\ if decide (ks = []) then inited_ st.2 = false
      else inited_ st.2 = true /\ exists k, bestSolution_ st.2 = Some k /\ (k < length ps)%nat)
    (try_partition base iter stats workload a (set_add a used)) (seq 0 (length ps)) (ps, newMinCost None)) as ([ps1 m] & -> & Eps & Hr).
  - done.
  - intros ks k rest [ps1 m] El [Eps Hr]. cbn [fst snd] in *. subst ps1.
    assert (k < length ps)%nat as Hk by (assert (k ∈ seq 0 (length ps)) as Hx%elem_of_seq by (rewrite El; set_solver); lia).
    destruct (try_partition_ok l ps a (set_add a used) m k Hp Hnd Hsub Hu Hk) as (m' & -> & Hi & Hb). exists (ps, m'). split; [done|]. split; [done|].
    rewrite decide_False by (by destruct ks). split; [done|]. cbn [snd]. destruct Hb as [->|[Hi' ->]]; [by exists k|].
    case_decide; [congruence|apply Hr].
  - cbn [fst snd] in *. subst ps1. rewrite decide_False in Hr by (destruct ps; [cbn in Hlen; lia|done]). destruct Hr as (_ & k & Eb & Hk).
    cbn [mbind outcome_bind]. rewrite Eb. cbn [or_undefined mbind outcome_bind]. destruct (lookup_lt_is_Some_2 ps k Hk) as [p Hpk]. rewrite Hpk.
    cbn [or_undefined mbind outcome_bind]. eexists _, _. split; [reflexivity|]. split; [by apply placed_insert|]. split; [done|apply length_insert].
Qed.

Lemma nonempty_partitions ps : foldl (fun ps p => if (0 <? length p)%nat then addPartition p ps else ps) [] ps = filter (fun p => p <> []) ps.
Proof.
  assert (forall acc, foldl (fun ps p => if (0 <? length p)%nat then addPartition p ps else ps) acc ps = acc ++ filter (fun p => p <> []) ps) as Hg; [|apply Hg].
  clear. induction ps as [|p ps IH]; intros acc; cbn [foldl]; [by rewrite app_nil_r|]. rewrite IH, filter_cons.
  destruct p as [|x p]; [by rewrite decide_False by tauto|]. rewrite decide_True by done. cbn. unfold addPartition. by rewrite <- app_assoc.
Qed.

Lemma concat_nonempty (ps : Partitions) : concat (filter (fun p => p <> []) ps) = concat ps.
Proof. clear. induction ps as [|p ps IH]; [done|]. rewrite filter_cons. destruct (decide (p <> [])) as [|Hn]; cbn; rewrite IH; [done|]. by destruct p; [|destruct Hn]. Qed.

Lemma solve_count_ok n : (0 < n)%nat ->
  exists ps, solve_count base iter sort_by stats workload n = Ret ps /\ placed attrs ps /\ Forall (fun p => p <> []) ps /\ (length ps <= n)%nat.
Proof.
  intros Hn. unfold solve_count. set (order := sort_by _ _). assert (order ≡ₚ attrs) as Ho by apply Hsort.
  assert (NoDup order) as Hnd by (rewrite Ho; apply (wf_NoDup Hw)).
  destruct (foldM_total (fun l st => placed l st.2 /\ (forall x, x ∈ st.1 <-> x ∈ l) /\ length st.2 = n) (place_attribute base iter stats workload) order
    ([], replicate n [])) as ([used ps] & -> & Hp & _ & Hl).
  - cbn [fst snd]. split; [|split; [done|apply length_replicate]]. unfold placed. clear. induction n; [done|]. cbn. done.
  - intros l a rest [used ps] El (Hp & Hu & Hl). cbn [fst snd] in *. rewrite El in Hnd. assert (l ++ a :: rest ≡ₚ a :: l ++ rest) as Hperm by (by rewrite Permutation_middle).
    destruct (place_attribute_ok l ps used a Hp) as (used' & ps' & -> & Hp' & Hu' & Hl'); [| |done|lia|].
    + rewrite Hperm in Hnd. change (a :: l ++ rest) with ((a :: l) ++ rest) in Hnd. by apply NoDup_app in Hnd as (? & _).
    + intros x Hx. rewrite <- Ho, El, Hperm. set_solver.
    + exists (used', ps'). split; [done|]. cbn [fst snd]. split; [unfold placed in *; rewrite Hp'; apply Permutation_cons_append|].
      split; [intros x; rewrite Hu'; set_solver|lia].
  - cbn [mbind outcome_bind fst snd] in *. rewrite nonempty_partitions. exists (filter (fun p => p <> []) ps). split; [done|]. unfold placed in *.
    split; [by rewrite concat_nonempty, Hp|]. split; [apply Forall_forall; by intros p [? _]%list_elem_of_filter|].
    etransitivity; [apply length_filter|lia].
Qed.

Lemma solved_good ps : placed attrs ps -> good_partitioning ps.
Proof. intros Hp. by apply (placed_ok attrs ps Hp (wf_NoDup Hw)). Qed.

(** A partitioning the search may return. *)
Definition candidate_ok (most : nat) (ps : Partitions) : Prop :=
  placed attrs ps /\ Forall (fun p => p <> []) ps /\ (length ps <= most)%nat /\
  exists x, getStorageOverhead base iter stats ps workload = Ret x /\ dltb storageThreshold x = false.

Lemma try_counts_ok most counts : forall m, (forall n, n ∈ counts -> (0 < n <= most)%nat) -> (inited_ m = true -> candidate_ok most (bestSolution_ m)) ->
  exists m', try_counts base iter sort_by stats workload storageThreshold counts m = Ret m' /\
    (inited_ m' = true -> candidate_ok most (bestSolution_ m')) /\ (inited_ m = true -> inited_ m' = true) /\ (head counts = Some 1%nat -> inited_ m' = true).
Proof.
  induction counts as [|n counts IH]; intros m Hc Hm; cbn [try_counts]; [by exists m|].
  destruct (Hc n ltac:(left)) as [Hn Hle]. destruct (solve_count_ok n Hn) as (ps & -> & Hp & Hne & Hl). cbn [mbind outcome_bind].
  destruct (solved_good ps Hp) as [Hok Hcov]. destruct (overhead_total ps Hok) as [x Ex]. rewrite Ex. cbn [mbind outcome_bind].
  destruct (dltb storageThreshold x) eqn:Et.
  - exists m. split_and!; [done..|]. intros [= ->].
    destruct ps as [|p [|]]; [|destruct (Hsingle p) as (y & Ey & Hy); [unfold placed in Hp; cbn in Hp; by rewrite app_nil_r in Hp|congruence]|cbn in Hl; lia].
    unfold placed in Hp. cbn in Hp. apply Permutation_nil_l in Hp. by destruct (wf_some Hw).
  - destruct (cost_all_total ps Hok Hcov) as [c ->]. cbn [mbind outcome_bind].
    assert (inited_ (push ps c m) = true /\ candidate_ok most (bestSolution_ (push ps c m))) as [Hi Hb].
    { unfold push. destruct (inited_ m) eqn:E; cbn [negb orb]; [destruct (dleb _ _); [|by split; [|apply Hm]]|].
      all: split; [done|]; split; [done|]; split; [done|]; split; [cbn; lia|by exists x]. }
    destruct (IH (push ps c m)) as (m' & E & H1 & H2 & _); [intros k Hk; apply Hc; by right|done|]. exists m'. split_and!; [done|done|by intros _; apply H2|by intros _; apply H2].
Qed.

Lemma nonoverlapping_ok : exists ps, HeuristicNonOverlapping_solve base iter sort_by stats workload storageThreshold = Ret ps /\
  candidate_ok (Nat.min (length (query_attributes workload) + 1) (length attrs)) ps.
Proof.
  unfold HeuristicNonOverlapping_solve. set (most := Nat.min _ _). assert (1 <= most)%nat as Hmost.
  { unfold most. destruct attrs eqn:E; [by destruct (wf_some Hw)|]. cbn [length]. lia. }
  destruct (try_counts_ok most (seq 1 most) (newMinCost [])) as (m & -> & H1 & _ & H2); [intros n ?%elem_of_seq; lia|done|].
  cbn [mbind outcome_bind]. assert (inited_ m = true) as Hi by (apply H2; destruct most; [lia|done]). rewrite Hi. cbn [cassert mbind outcome_bind].
  exists (bestSolution_ m). split; [done|]. by apply H1.
Qed.
End Correct.

(** ** Workloads that were counted *)

Lemma name_attributes_lt attributes name i : name_attributes attributes !! name = Some i -> (i < length attributes)%nat.
Proof. intros (a & Ha & _)%name_attributes_Some. by eapply lookup_lt_Some. Qed.

Lemma counted_fits pointer_hash attributes iter stats qs w :
  attributes <> [] -> Forall (known attributes) qs ->
  foldM (fun w q => addQuery pointer_hash q w) (newQueryWorkload attributes) qs = Ret w ->
  (forall p, NoDup p -> p ⊆ seq 0 (length attributes) -> sized attributes iter stats p) ->
  qw_attributes_ w = seq 0 (length attributes) /\ workload_fits attributes iter stats w.
Proof.
  intros Hne Hk Ew Hsized. destruct (workload_ok pointer_hash attributes qs Hk) as (w' & E & Hw).
  rewrite Ew in E. injection E as <-. pose proof (cq_attributes _ _ _ _ Hw) as Ha. split; [done|]. split.
  - rewrite Ha. apply NoDup_seq.
  - rewrite Ha. by destruct attributes.
  - intros s (q & Hq & ->)%(proj2 (cq_queries _ _ _ _ Hw)). rewrite Forall_forall in Hk. pose proof (Hk q Hq) as Hkq. split.
    + rewrite (cq_counts _ _ _ _ Hw q Hkq). case_decide as H0; [|by eexists].
      assert (q ∈ filter (fun q' => attributeNames_ q' = attributeNames_ q) qs) as Hin by by apply list_elem_of_filter.
      unfold occurrences in H0. apply length_zero_iff_nil in H0. rewrite H0 in Hin. by apply elem_of_nil in Hin.
    + intros a. cbn. rewrite (merge_sort_Permutation Nat.le (named attributes q)). unfold named.
      intros (name & _ & Hi)%list_elem_of_omap. rewrite Ha. apply elem_of_seq. apply name_attributes_lt in Hi. lia.
  - rewrite Ha. done.
Qed.

(** The two simple solvers. *)
Lemma simple_solvers workload : NoDup (qw_attributes_ workload) ->
  SinglePartition_solve workload = [qw_attributes_ workload] /\
  PartitionPerAttribute_solve workload = (fun a => [a]) <$> qw_attributes_ workload.
Proof.
  intros Hnd. split.
  - unfold SinglePartition_solve, addPartition. change (foldl _ [] (qw_attributes_ workload)) with (add_all (qw_attributes_ workload) []).
    by rewrite add_all_fresh.
  - unfold PartitionPerAttribute_solve. clear Hnd. induction (qw_attributes_ workload) as [|a l IH] using rev_ind; [done|].
    rewrite foldl_app, fmap_app, IH. done.
Qed.

(** ** The theorems *)

(** C18: the greedy merging, on the workload of any queries on known attributes,
    when every partition has a size and the single partition of all attributes
    is within the threshold: it ends with partitions of the attributes, at most
    one for each summary and one more, that cover the attributes and are within
    the threshold.  The condition on the single partition is needed:
    [overlapping_drops_last] has a workload and a threshold it is not within,
    and there the solver returns no partition at all. *)
Theorem heuristic_overlapping pointer_hash attributes iter stats qs w storageThreshold :
  (forall l, iter l ≡ₚ l) -> attributes <> [] -> Forall (known attributes) qs ->
  foldM (fun w q => addQuery pointer_hash q w) (newQueryWorkload attributes) qs = Ret w ->
  (forall p, NoDup p -> p ⊆ seq 0 (length attributes) -> sized attributes iter stats p) ->
  (forall p, p ≡ₚ seq 0 (length attributes) ->
    exists x, getStorageOverhead attributes iter stats [p] w = Ret x /\ dltb storageThreshold x = false) ->
  exists ps x, HeuristicOverlapping_solve attributes iter stats w storageThreshold = Some (Ret ps) /\
    getStorageOverhead attributes iter stats ps w = Ret x /\ dltb storageThreshold x = false /\
    (forall a, (a < length attributes)%nat <-> exists p, p ∈ ps /\ a ∈ p) /\ Forall (fun p => NoDup p) ps /\
    (1 <= length ps <= S (length (queries_ w)))%nat.
Proof.
  intros Hiter Hne Hk Ew Hsized Hsingle. destruct (counted_fits pointer_hash attributes iter stats qs w Hne Hk Ew Hsized) as [Ha Hw].
  destruct (initial_good attributes iter stats w Hiter Hw) as [Hg Hl].
  destruct (merge_while_ok attributes iter stats w Hiter Hw storageThreshold) with (fuel := length (initial_partitioning iter w))
    (ps := initial_partitioning iter w) as (ps & x & E & [Hok Hcov] & Hl' & Ex & Hx); [by rewrite Ha|done|done|].
  exists ps, x. unfold partitions_ok in Hok. rewrite Forall_forall in Hok. rewrite Ha in Hok, Hcov. split_and!; [done..| | | |lia].
  - intros a. split; [intros Hlt; apply Hcov, elem_of_seq; lia|]. intros (p & Hp & Hin). destruct (Hok p Hp) as [_ Hs].
    apply Hs, elem_of_seq in Hin. lia.
  - apply Forall_forall. intros p Hp. by apply Hok.
  - apply (covering_nonempty attributes iter stats w Hw). by rewrite Ha.
Qed.

(** C19: the search over the number of partitions, on the workload of any queries
    on known attributes, when every partition has a size and the single
    partition of all attributes, the first candidate, is within the threshold:
    it ends with a partition of the attributes in the mathematical sense:
    nonempty disjoint parts that cover them, no more parts than attributes or
    than the attributes queried and one more, within the threshold.  The
    condition on the single partition is needed: [nonoverlapping_asserts] has a
    workload where no candidate is within the threshold, and the assertion of
    the solver fails. *)
Theorem heuristic_nonoverlapping pointer_hash attributes iter sort_by stats qs w storageThreshold :
  (forall l, iter l ≡ₚ l) -> (forall c l, sort_by c l ≡ₚ l) -> attributes <> [] -> Forall (known attributes) qs ->
  foldM (fun w q => addQuery pointer_hash q w) (newQueryWorkload attributes) qs = Ret w ->
  (forall p, NoDup p -> p ⊆ seq 0 (length attributes) -> sized attributes iter stats p) ->
  (forall p, p ≡ₚ seq 0 (length attributes) ->
    exists x, getStorageOverhead attributes iter stats [p] w = Ret x /\ dltb storageThreshold x = false) ->
  exists ps x, HeuristicNonOverlapping_solve attributes iter sort_by stats w storageThreshold = Ret ps /\
    getStorageOverhead attributes iter stats ps w = Ret x /\ dltb storageThreshold x = false /\
    concat ps ≡ₚ seq 0 (length attributes) /\ Forall (fun p => p <> []) ps /\
    (length ps <= Nat.min (length (query_attributes w) + 1) (length attributes))%nat.
Proof.
  intros Hiter Hsort Hne Hk Ew Hsized Hsingle. destruct (counted_fits pointer_hash attributes iter stats qs w Hne Hk Ew Hsized) as [Ha Hw].
  destruct (nonoverlapping_ok attributes iter stats w Hiter Hw storageThreshold) with (sort_by := sort_by)
    as (ps & E & Hp & Hn & Hl & x & Ex & Hx); [by rewrite Ha|done|].
  exists ps, x. unfold placed in Hp. rewrite Ha in Hp, Hl. rewrite length_seq in Hl. by split_and!.
Qed.

(** *** A concrete workload *)

Definition two_stats : SchemaStats := [(0, (3, dofZ 24)); (1, (3, dofZ 40))].

Lemma two_subsets p : NoDup p -> p ⊆ seq 0 2 -> p ∈ [[]; [0]; [1]; [0; 1]; [1; 0]]%nat.
Proof.
  intros Hnd Hsub. assert (Forall (fun a => a = 0 \/ a = 1)%nat p) as Hp.
  { apply Forall_forall. intros a Ha. apply Hsub, elem_of_seq in Ha. lia. }
  destruct p as [|a [|b p]]; [set_solver| |].
  - apply Forall_cons in Hp as [[->| ->] _]; set_solver.
  - apply Forall_cons in Hp as [Ha [Hb Hp]%Forall_cons]. apply NoDup_cons in Hnd as [Hab Hnd]. apply NoDup_cons in Hnd as [Hbp _].
    destruct p as [|c p]; [destruct Ha as [->| ->], Hb as [->| ->]; set_solver|].
    apply Forall_cons in Hp as [Hc _]. rewrite !not_elem_of_cons in *. lia.
Qed.

Lemma two_weighed a : (a < 2)%nat -> weighed two_attributes two_stats a.
Proof.
  intros Ha. destruct a as [|[|a]]; [| |lia]; unfold weighed; compute_ret; repeat split; by vm_compute.
Qed.

Lemma two_sized p : NoDup p -> p ⊆ seq 0 (length two_attributes) -> sized two_attributes id two_stats p.
Proof.
  change (length two_attributes) with 2%nat. intros Hnd Hsub. split.
  - apply Forall_forall. intros a Ha. apply two_weighed. apply Hsub, elem_of_seq in Ha. lia.
  - pose proof (two_subsets p Hnd Hsub) as Hp. rewrite !elem_of_cons, elem_of_nil in Hp.
    destruct Hp as [->|[->|[->|[->|[->|[]]]]]]; compute_ret; eexists _, _; vm_compute; reflexivity.
Qed.

Definition two_workload : QueryWorkload :=
  match foldM (fun w q => addQuery Z.of_nat q w) (newQueryWorkload two_attributes) some_queries with
  | Ret w => w
  | _ => newQueryWorkload []
  end.

Lemma some_queries_known : Forall (known two_attributes) some_queries.
Proof. repeat (constructor; [split; [repeat constructor|repeat constructor; eexists; reflexivity]|]). constructor. Qed.

Lemma two_single p : p ≡ₚ seq 0 (length two_attributes) ->
  exists x, getStorageOverhead two_attributes id two_stats [p] two_workload = Ret x /\ dltb dunit x = false.
Proof.
  intros Hp. symmetry in Hp. apply (Permutation_length_2_inv (a1 := 0%nat) (a2 := 1%nat)) in Hp as [->| ->]; compute_ret; vm_compute; reflexivity.
Qed.

Lemma heuristic_overlapping_witness :
  exists ps x, HeuristicOverlapping_solve two_attributes id two_stats two_workload dunit = Some (Ret ps) /\
    getStorageOverhead two_attributes id two_stats ps two_workload = Ret x /\ (1 <= length ps <= 3)%nat.
Proof.
  destruct (heuristic_overlapping Z.of_nat two_attributes id two_stats some_queries two_workload dunit) as (ps & x & E & Ex & _ & _ & _ & Hl).
  - intros l. reflexivity.
  - intros [=].
  - apply some_queries_known.
  - vm_compute. reflexivity.
  - apply two_sized.
  - apply two_single.
  - exists ps, x. split; [exact E|]. split; [exact Ex|exact Hl].
Defined.

Definition sort_with (c : nat -> nat -> bool) (l : list nat) : list nat :=
  @merge_sort nat (fun a b => c a b = true) (fun a b => decide (c a b = true)) l.

Lemma heuristic_nonoverlapping_witness :
  exists ps, HeuristicNonOverlapping_solve two_attributes id sort_with two_stats two_workload dunit = Ret ps /\
    concat ps ≡ₚ [0; 1]%nat.
Proof.
  destruct (heuristic_nonoverlapping Z.of_nat two_attributes id sort_with two_stats some_queries two_workload dunit)
    as (ps & x & E & _ & _ & Hc & _).
  - intros l. reflexivity.
  - intros c l. apply merge_sort_Permutation.
  - intros [=].
  - apply some_queries_known.
  - vm_compute. reflexivity.
  - apply two_sized.
  - apply two_single.
  - exists ps. split; [exact E|exact Hc].
Defined.

(** What the two find: the queries name both attributes twice and the second
    one once. *)
Example two_overlapping :
  HeuristicOverlapping_solve two_attributes id two_stats two_workload dunit = Some (Ret [[0; 1]; [1]]%nat).
Proof. vm_compute. reflexivity. Qed.

Example two_nonoverlapping :
  HeuristicNonOverlapping_solve two_attributes id sort_with two_stats two_workload dunit =
    Ret [[1; 0]]%nat.
Proof. vm_compute. reflexivity. Qed.

(** Averages of 8, 20 / 3 and 59 / 7 bytes: the size of the single partition is
    rounded above the size of the block, the threshold is never met, and the
    last turn merges the only partition with itself and drops it. *)
Example overlapping_drops_last :
  let attributes := attributes_ (new_schema [("a", INT64); ("b", STRING); ("c", STRING)])%string in
  let stats := [(0, (1, dofZ 8)); (1, (3, dofZ 20)); (2, (7, dofZ 59))] in
  (w ← addQuery Z.of_nat (newQuery dzero dunit ["a"; "c"]%string) (newQueryWorkload attributes);
   getStorageOverhead attributes id stats [[0; 2; 1]%nat] w) = Ret 0x3CB0000000000000 /\
  (w ← addQuery Z.of_nat (newQuery dzero dunit ["a"; "c"]%string) (newQueryWorkload attributes);
   or_undefined (HeuristicOverlapping_solve attributes id stats w dzero)) = Ret (Ret []).
Proof. vm_compute. split; reflexivity. Qed.

(** No candidate of the other solver is within that threshold. *)
Example nonoverlapping_asserts :
  let attributes := attributes_ (new_schema [("a", INT64); ("b", STRING); ("c", STRING)])%string in
  let stats := [(0, (1, dofZ 8)); (1, (3, dofZ 20)); (2, (7, dofZ 59))] in
  (w ← addQuery Z.of_nat (newQuery dzero dunit ["a"; "c"]%string) (newQueryWorkload attributes);
   HeuristicNonOverlapping_solve attributes id (fun _ l => match l with [0; 1; 2] => [0; 2; 1] | _ => l end)%nat stats w dzero) = AssertFailed.
Proof. vm_compute. reflexivity. Qed.
