(* ===== verification/Optimal.v ===== *)
(** * The ILP optimizers

    liboptimizer: OptimalCommon.h and OptimalCommon.cpp,
    OptimalOverlapping.cpp and OptimalNonOverlapping.cpp.  They state the
    choice of a partitioning as a 0/1 program, hand it to the Gurobi library
    and read the partitioning off the solution.

    The library is a type class of the calls the program makes: each returns
    an error code and the state of the environment and the model.  The arrays
    [ind] and [val] of [gurobi_ctx] have room for [num_vars] entries; a row is
    the list of the entries written to them, in that order. *)

From Stdlib Require Import ZArith Lia.
From stdpp Require Import base numbers gmap strings list sorting pretty.
From S2P Require Import Prelude.
From S2P Require Import Double.
From S2P Require Import Schema.
From S2P Require Import MetaData.
From S2P Require Import Workload.
From S2P Require Import Partitions.

(** ** The solver library *)

Inductive Sense := GRB_EQUAL | GRB_GREATER_EQUAL | GRB_LESS_EQUAL.
Inductive Status := GRB_OPTIMAL | GRB_INF_OR_UNBD | GRB_OTHER (status : Z).

Record Row := mkRow { row_terms : list (Z * double); row_sense : Sense; row_rhs : double }.

Class Gurobi (M : Type) := {
  GRBnewmodel : Z * M;
  GRBaddvars : list (double * string) -> M -> Z * M;
  GRBsetminimize : M -> Z * M;
  GRBupdatemodel : M -> Z * M;
  GRBaddconstr : Row -> M -> Z * M;
  GRBoptimize : M -> Z * M;
  GRBgetstatus : M -> Z * Status;
  GRBgetobjval : M -> Z * double;
  GRBgetsol : Z -> M -> Z * list double;
  GRBgeterrormsg : M -> string
}.

(** ** The variables *)

Record var_env := mkEnv {
  num_vars : Z; x_offset : Z; y_offset : Z; z_offset : Z; u_offset : Z; env_A : Z; env_P : Z; env_Q : Z
}.

(** The counts are [int]; every index computed from them is less than
    [num_vars] ([index_bounds]), so nothing overflows when this does not. *)
Definition create_env (workload : QueryWorkload) : outcome var_env :=
  let P := Z.of_nat (length (qw_attributes_ workload)) in
  let Q := Z.of_nat (length (queries_ workload)) in
  let A := Z.of_nat (length (qw_attributes_ workload)) in
  let num := A * P + P * Q + A * P * Q + P in
  let y := A * P in
  let z := y + P * Q in
  let u := z + A * P * Q in
  if (Q <? 2 ^ 31) && (num <? 2 ^ 31) then Ret (mkEnv num 0 y z u A P Q) else Undefined.

Definition x (e : var_env) (a p : Z) : Z := x_offset e + (a * env_P e + p).
Definition y (e : var_env) (p q : Z) : Z := y_offset e + (p * env_Q e + q).
Definition z (e : var_env) (a p q : Z) : Z := z_offset e + ((q * env_A e * env_P e) + (a * env_P e) + p).
Definition u (e : var_env) (p : Z) : Z := u_offset e + p.

Definition c_e : Z := numberOfEdgesInABlock.
Definition c_n : Z := numberOfNeighborListsInABlock.
Definition K : double := dofZ 1000.

(** [for (int i = 0; i < n; ++i)] *)
Definition upto (n : Z) : list Z := seqZ 0 n.

Definition sub_name (i : Z) : string := pretty (i + 1).

(** The names are given in the order of the loops, not by index. *)
Definition name_variables (e : var_env) : outcome (list string) :=
  let xs := a ← upto (env_A e); p ← upto (env_P e); ["x_a" +:+ sub_name a +:+ "_p" +:+ sub_name p] in
  let ys := p ← upto (env_P e); q ← upto (env_Q e); ["y_p" +:+ sub_name p +:+ "_q" +:+ sub_name q] in
  let zs := a ← upto (env_A e); p ← upto (env_P e); q ← upto (env_Q e);
    ["z_a" +:+ sub_name a +:+ "_p" +:+ sub_name p +:+ "_q" +:+ sub_name q] in
  let us := p ← upto (env_P e); ["u_p" +:+ sub_name p] in
  let vname := xs ++ ys ++ zs ++ us in
  _ ← cassert (num_vars e =? Z.of_nat (length vname));
  Ret vname.

Section Program.
Context (base : list Attribute) (iter : list nat -> list nat) (stats : SchemaStats) (workload : QueryWorkload).

(** [stats.getAvgSize(workload->getAttribute(a).getIndex())] *)
Definition attribute_avg (a : Z) : outcome double :=
  attribute ← or_throw out_of_range (qw_attributes_ workload !! Z.to_nat a);
  avg_size base stats attribute.

(** [workload->getFrequency(queries[q])] *)
Definition frequency (q : Z) : outcome double :=
  query ← or_undefined (queries_ workload !! Z.to_nat q);
  getFrequency query workload.

(** The sum of the sizes of the attributes. *)
Definition s (attributes : list nat) : outcome double :=
  foldM (fun sum attribute => v ← avg_size base stats attribute; Ret (dadd sum v)) dzero attributes.

(** It compares the index of the attribute with a position of the workload. *)
Fixpoint accesses_in (attributes : list nat) (a : Z) : outcome Z :=
  match attributes with
  | [] => Ret 0
  | attribute :: attributes =>
      attr ← or_undefined (base !! attribute);
      if index_ attr =? a then Ret 1 else accesses_in attributes a
  end.

Definition accesses (q a : Z) : outcome Z :=
  query ← or_undefined (queries_ workload !! Z.to_nat q);
  accesses_in (qs_attributes_ query) a.

(** ** The objective *)

(** The bytes of a block without the attributes. *)
Definition block_overhead : double := dofZ ((edgeIdSize + timestampSize) * c_e + (headVertexSize + numEntriesSize) * c_n).

(** The values collected by nested loops. *)
Definition collect {T} (l : list Z) (f : Z -> outcome (list T)) : outcome (list T) :=
  foldM (fun acc i => r ← f i; Ret (acc ++ r)) [] l.

(** The assignments to the array [obj], in order. *)
Definition objective_writes (e : var_env) : outcome (list (Z * double)) :=
  xs ← collect (upto (env_A e)) (fun a => collect (upto (env_P e)) (fun p => Ret [(x e a p, dzero)]));
  yzs ← collect (upto (env_Q e)) (fun q =>
    ys ← collect (upto (env_P e)) (fun p => f ← frequency q; Ret [(y e p q, dmul block_overhead f)]);
    zs ← collect (upto (env_A e)) (fun a => collect (upto (env_P e)) (fun p =>
      v ← attribute_avg a; f ← frequency q; Ret [(z e a p q, dmul (dmul v (dofZ c_e)) f)]));
    Ret (ys ++ zs));
  us ← collect (upto (env_P e)) (fun p => Ret [(u e p, dzero)]);
  Ret (xs ++ yzs ++ us).

(** An array of [new double[n]]: a cell never written has no value. *)
Definition write_cell (arr : list (option double)) (w : Z * double) : outcome (list (option double)) :=
  if (0 <=? w.1) && (w.1 <? Z.of_nat (length arr)) then Ret (<[Z.to_nat w.1 := Some w.2]> arr) else Undefined.

Definition objective (e : var_env) : outcome (list double) :=
  writes ← objective_writes e;
  obj ← foldM write_cell (replicate (Z.to_nat (num_vars e)) None) writes;
  foldM (fun l v => v ← or_undefined v; Ret (l ++ [v])) [] obj.

(** ** The constraints *)

(** A row of [numnz] entries, which were written to [ind] and [val]. *)
Definition row (e : var_env) (numnz : Z) (entries : list (Z * double)) (sense : Sense) (rhs : double) : outcome (list Row) :=
  if (Z.of_nat (length entries) <=? num_vars e) && (numnz =? Z.of_nat (length entries)) then Ret [mkRow entries sense rhs] else Undefined.

Definition one : double := dunit.
Definition minus_one : double := dopp dunit.

(** The whole set of attributes as one partition. *)
Definition whole : Partition := foldl (fun part attr => addAttribute attr part) [] (qw_attributes_ workload).

(** [OptimalOverlapping::constraints] *)
Definition overlapping_rows (storageThreshold : double) (e : var_env) : outcome (list Row) :=
  let A := env_A e in let P := env_P e in let Q := env_Q e in
  first ← collect (upto A) (fun a => row e P ((fun p => (x e a p, one)) <$> upto P) GRB_GREATER_EQUAL one);
  second ← collect (upto A) (fun a => collect (upto Q) (fun q =>
    acc ← accesses q a; row e P ((fun p => (z e a p q, one)) <$> upto P) GRB_GREATER_EQUAL (dofZ acc)));
  third ← collect (upto A) (fun a => collect (upto P) (fun p => collect (upto Q) (fun q =>
    row e 2 [(x e a p, one); (z e a p q, minus_one)] GRB_GREATER_EQUAL dzero)));
  fourth ← collect (upto P) (fun p => collect (upto Q) (fun q =>
    row e (A + 1) (((fun a => (z e a p q, one)) <$> upto A) ++ [(y e p q, minus_one)]) GRB_GREATER_EQUAL dzero));
  fifth ← collect (upto P) (fun p => collect (upto Q) (fun q =>
    row e (A + 1) ((y e p q, K) :: ((fun a => (z e a p q, minus_one)) <$> upto A)) GRB_GREATER_EQUAL dzero));
  sixth ← collect (upto A) (fun a => collect (upto P) (fun p => collect (upto Q) (fun q =>
    row e 3 [(z e a p q, one); (x e a p, minus_one); (y e p q, minus_one)] GRB_GREATER_EQUAL minus_one)));
  seventh ← collect (upto P) (fun p =>
    row e (A + 1) (((fun a => (x e a p, one)) <$> upto A) ++ [(u e p, minus_one)]) GRB_GREATER_EQUAL dzero);
  eighth ← collect (upto P) (fun p =>
    row e (A + 1) ((u e p, K) :: ((fun a => (x e a p, minus_one)) <$> upto A)) GRB_GREATER_EQUAL dzero);
  size ← getPartitionSize base iter stats whole;
  let limit := dmul size (dadd dunit storageThreshold) in
  sizes ← collect (upto P) (fun p => collect (upto A) (fun a =>
    v ← attribute_avg a; Ret [(x e a p, dmul v (dofZ c_e))]));
  ninth ← row e (P + P * A) (((fun p => (u e p, block_overhead)) <$> upto P) ++ sizes) GRB_LESS_EQUAL limit;
  Ret (first ++ second ++ third ++ fourth ++ fifth ++ sixth ++ seventh ++ eighth ++ ninth).

(** [OptimalNonOverlapping::constraints] *)
Definition nonoverlapping_rows (storageThreshold : double) (e : var_env) : outcome (list Row) :=
  let A := env_A e in let P := env_P e in let Q := env_Q e in
  first ← collect (upto A) (fun a => row e P ((fun p => (x e a p, one)) <$> upto P) GRB_EQUAL one);
  second ← collect (upto P) (fun p => collect (upto Q) (fun q =>
    xs ← collect (upto A) (fun a => acc ← accesses q a; Ret [(x e a p, dofZ acc)]);
    row e (A + 1) (xs ++ [(y e p q, minus_one)]) GRB_GREATER_EQUAL dzero));
  third ← collect (upto P) (fun p => collect (upto Q) (fun q =>
    xs ← collect (upto A) (fun a => acc ← accesses q a; Ret [(x e a p, dofZ (- acc))]);
    row e (A + 1) ((y e p q, K) :: xs) GRB_GREATER_EQUAL dzero));
  fourth ← collect (upto A) (fun a => collect (upto P) (fun p => collect (upto Q) (fun q =>
    row e 3 [(z e a p q, one); (x e a p, minus_one); (y e p q, minus_one)] GRB_GREATER_EQUAL minus_one)));
  fifth ← collect (upto P) (fun p =>
    row e (A + 1) (((fun a => (x e a p, one)) <$> upto A) ++ [(u e p, minus_one)]) GRB_GREATER_EQUAL dzero);
  sixth ← collect (upto P) (fun p =>
    row e (A + 1) ((u e p, K) :: ((fun a => (x e a p, minus_one)) <$> upto A)) GRB_GREATER_EQUAL dzero);
  total ← s (qw_attributes_ workload);
  size ← getPartitionSize base iter stats whole;
  let limit := dadd dunit (ddiv storageThreshold (dsub dunit (ddiv (dmul total (dofZ c_e)) size))) in
  seventh ← row e P ((fun p => (u e p, dunit)) <$> upto P) GRB_LESS_EQUAL limit;
  Ret (first ++ second ++ third ++ fourth ++ fifth ++ sixth ++ seventh).

(** ** Solving *)

Context {M : Type} `{Gurobi M}.

(** [if (error) goto QUIT] *)
Definition checked (r : Z * M) : outcome M :=
  if r.1 =? 0 then Ret r.2 else Throw (runtime_error (GRBgeterrormsg r.2)).

Definition checked_read {T} (r : Z * T) (m : M) : outcome T :=
  if r.1 =? 0 then Ret r.2 else Throw (runtime_error (GRBgeterrormsg m)).

Definition solve_model (e : var_env) (m : M) : outcome (list double) :=
  m ← checked (GRBoptimize m);
  status ← checked_read (GRBgetstatus m) m;
  match status with
  | GRB_OPTIMAL =>
      objval ← checked_read (GRBgetobjval m) m;
      checked_read (GRBgetsol (num_vars e) m) m
  | _ => Throw (runtime_error (GRBgeterrormsg m))
  end.

(** The partitioning of a solution. *)
Definition read_partition (e : var_env) (sol : list double) (p : Z) : outcome Partition :=
  foldM (fun partition a =>
    v ← or_undefined (sol !! Z.to_nat (x e a p));
    if deqb v dunit then
      attribute ← or_throw out_of_range (qw_attributes_ workload !! Z.to_nat a);
      Ret (addAttribute attribute partition)
    else Ret partition) [] (upto (env_A e)).

Definition read_partitioning (e : var_env) (sol : list double) : outcome Partitions :=
  foldM (fun partitioning p =>
    partition ← read_partition e sol p;
    Ret (if (0 <? numAttributes partition)%nat then addPartition partition partitioning else partitioning)) [] (upto (env_P e)).

(** The model is built, with the constraints of the solver, and solved.  The
    code adds each row when it has written it; here the rows are computed
    before the first is added, which is the same unless both fail. *)
Definition solve_rows (constraints : var_env -> outcome (list Row)) : outcome (var_env * list double) :=
  e ← create_env workload;
  m ← checked GRBnewmodel;
  vname ← name_variables e;
  obj ← objective e;
  m ← checked (GRBaddvars (zip obj vname) m);
  m ← checked (GRBsetminimize m);
  m ← checked (GRBupdatemodel m);
  rows ← constraints e;
  m ← foldM (fun m r => checked (GRBaddconstr r m)) m rows;
  m ← checked (GRBupdatemodel m);
  sol ← solve_model e m;
  Ret (e, sol).

Definition solve (constraints : var_env -> outcome (list Row)) : outcome Partitions :=
  '(e, sol) ← solve_rows constraints;
  read_partitioning e sol.

Definition OptimalOverlapping_solve (storageThreshold : double) : outcome Partitions := solve (overlapping_rows storageThreshold).
Definition OptimalNonOverlapping_solve (storageThreshold : double) : outcome Partitions := solve (nonoverlapping_rows storageThreshold).
End Program.
