(* ===== verification/OptimalEncoding.v ===== *)
(** * The 0/1 programs of the ILP optimizers

    What the rows and the objective of Optimal.v say of a 0/1 assignment: the
    places of the variables, the rows of the two solvers as conditions on the
    attributes of each partition and the partitions each query reads, the
    objective as the bytes read, and the partitioning read off a solution.

    The value of a double is taken exactly, as a multiple of 2^-1074. *)

From Stdlib Require Import ZArith Lia SpecFloat.
From stdpp Require Import base numbers gmap strings list sorting pretty.
From S2P Require Import Prelude.
From S2P Require Import Double.
From S2P Require Import Schema.
From S2P Require Import MetaData.
From S2P Require Import Workload.
From S2P Require Import Partitions.
From S2P Require Import Optimal.

(** ** Sums *)

Definition zsum (l : list Z) : Z := foldr Z.add 0 l.
Definition total {T} (f : T -> Z) (l : list T) : Z := zsum (f <$> l).

Lemma total_nil {T} (f : T -> Z) : total f [] = 0.
Proof. done. Qed.

Lemma total_cons {T} (f : T -> Z) i l : total f (i :: l) = f i + total f l.
Proof. done. Qed.

Lemma total_app {T} (f : T -> Z) l k : total f (l ++ k) = total f l + total f k.
Proof. induction l as [|i l IH]; [done|]. cbn [app]. rewrite !total_cons, IH. lia. Qed.

Lemma total_ext {T} (f g : T -> Z) l : (forall i, i ∈ l -> f i = g i) -> total f l = total g l.
Proof. induction l as [|i l IH]; intros H; [done|]. rewrite !total_cons, IH, (H i) by set_solver. done. Qed.

Lemma total_fmap {T S} (f : S -> Z) (g : T -> S) l : total f (g <$> l) = total (fun i => f (g i)) l.
Proof. unfold total. by rewrite <- list_fmap_compose. Qed.

Lemma total_bind {T S} (f : S -> Z) (g : T -> list S) l : total f (l ≫= g) = total (fun i => total f (g i)) l.
Proof. induction l as [|i l IH]; [done|]. cbn [mbind list_bind]. rewrite total_app, total_cons. by f_equal. Qed.

Lemma total_mul {T} k (f : T -> Z) l : total (fun i => k * f i) l = k * total f l.
Proof. induction l as [|i l IH]; [unfold total; cbn; lia|]. rewrite !total_cons, IH. lia. Qed.

Lemma total_zero {T} (f : T -> Z) l : (forall i, i ∈ l -> f i = 0) -> total f l = 0.
Proof. induction l as [|i l IH]; intros H; [done|]. rewrite total_cons, IH, (H i) by set_solver. done. Qed.

Lemma total_le {T} (f g : T -> Z) l : (forall i, i ∈ l -> f i <= g i) -> total f l <= total g l.
Proof.
  induction l as [|i l IH]; intros H; [done|]. rewrite !total_cons.
  assert (f i <= g i) by (apply H; left). assert (total f l <= total g l) by (apply IH; set_solver). lia.
Qed.

Lemma total_add {T} (f g : T -> Z) l : total (fun i => f i + g i) l = total f l + total g l.
Proof. induction l as [|i l IH]; [done|]. rewrite !total_cons, IH. lia. Qed.

Lemma total_swap {T S} (f : T -> S -> Z) l k : total (fun i => total (f i) k) l = total (fun j => total (fun i => f i j) l) k.
Proof. induction l as [|i l IH]; [symmetry; by apply total_zero|]. rewrite total_cons, IH. by rewrite <- total_add. Qed.

(** Sums of zeros and ones. *)
Definition bit (b : bool) : Z := if b then 1 else 0.

Lemma bits_nonneg {T} (b : T -> bool) l : 0 <= total (fun i => bit (b i)) l.
Proof. induction l as [|i l IH]; [done|]. rewrite total_cons. unfold bit at 1. destruct (b i); lia. Qed.

Lemma bits_some {T} (b : T -> bool) l : 1 <= total (fun i => bit (b i)) l <-> exists i, i ∈ l /\ b i = true.
Proof.
  induction l as [|i l IH].
  - split; [unfold total; cbn; lia|]. intros (i & []%elem_of_nil & _).
  - rewrite total_cons. pose proof (bits_nonneg b l). split.
    + intros Hs. destruct (b i) eqn:E; [exists i; split; [left|done]|]. cbn in Hs. destruct IH as [IH _].
      destruct IH as (j & ? & ?); [lia|]. exists j. split; [by right|done].
    + intros (j & [->|Hj]%elem_of_cons & Hb); [rewrite Hb; cbn; lia|].
      assert (1 <= total (fun i => bit (b i)) l) by (apply IH; by exists j). unfold bit at 1. destruct (b i); lia.
Qed.

Lemma bits_length {T} (b : T -> bool) l : total (fun i => bit (b i)) l <= Z.of_nat (length l).
Proof. induction l as [|i l IH]; [done|]. rewrite total_cons. cbn [length]. unfold bit at 1. destruct (b i); lia. Qed.

Lemma bits_count {T} (b : T -> bool) l : total (fun i => bit (b i)) l = Z.of_nat (length (filter (fun i => b i = true) l)).
Proof.
  induction l as [|i l IH]; [done|]. rewrite total_cons, filter_cons, IH. destruct (b i); cbn [bit].
  - rewrite decide_True by done. cbn [length]. lia.
  - by rewrite decide_False.
Qed.

Lemma bits_exactly_one {T} (b : T -> bool) l : NoDup l ->
  total (fun i => bit (b i)) l = 1 <-> exists i, i ∈ l /\ b i = true /\ forall j, j ∈ l -> b j = true -> j = i.
Proof.
  intros Hnd. rewrite bits_count. assert (forall j, j ∈ filter (fun i => b i = true) l <-> b j = true /\ j ∈ l) as Hf by (intros j; by rewrite list_elem_of_filter).
  pose proof (NoDup_filter (fun i => b i = true) _ Hnd) as Hnf. destruct (filter _ l) as [|i [|j k]].
  - split; [done|]. intros (i & Hi & Hb & _). assert (i ∈ []) as []%elem_of_nil by by apply Hf.
  - split; [|done]. intros _. destruct (proj1 (Hf i)) as [Hb Hi]; [left|]. exists i. split_and!; [done..|].
    intros j Hj Hbj. assert (j ∈ [i]) as ->%list_elem_of_singleton by by apply Hf. done.
  - split; [cbn [length]; lia|]. intros (i' & _ & _ & Hu). destruct (proj1 (Hf i)) as [Hb Hi]; [left|]. destruct (proj1 (Hf j)) as [Hbj Hj]; [right; left|].
    apply NoDup_cons in Hnf as [Hn _]. destruct Hn. rewrite (Hu i Hi Hb), <- (Hu j Hj Hbj). left.
Qed.

(** A sum of selected values is the sum over the selection. *)
Lemma bits_filter {T} (b : T -> bool) (f : T -> Z) l : total (fun i => f i * bit (b i)) l = total f (filter (fun i => b i = true) l).
Proof.
  induction l as [|i l IH]; [done|]. rewrite total_cons, filter_cons, IH. destruct (b i) eqn:E; cbn.
  - rewrite decide_True by done. rewrite total_cons. lia.
  - rewrite decide_False by done. lia.
Qed.

(** ** Loops *)

Lemma bind_Ret {T U} (o : outcome T) (f : T -> outcome U) v : (w ← o; f w) = Ret v -> exists w, o = Ret w /\ f w = Ret v.
Proof. destruct o as [w| | |]; cbn; try done. by exists w. Qed.

Lemma elem_of_upto i n : i ∈ upto n <-> 0 <= i < n.
Proof. unfold upto. rewrite elem_of_seqZ. lia. Qed.

Lemma length_upto n : 0 <= n -> Z.of_nat (length (upto n)) = n.
Proof. intros Hn. unfold upto. rewrite length_seqZ. lia. Qed.

Lemma collect_loop {T} l (f : Z -> outcome (list T)) g : (forall i, i ∈ l -> f i = Ret (g i)) -> collect l f = Ret (l ≫= g).
Proof.
  unfold collect. intros H. assert (forall acc, foldM (fun acc i => r ← f i; Ret (acc ++ r)) acc l = Ret (acc ++ l ≫= g)) as Hg; [|apply (Hg [])].
  induction l as [|i l IH]; intros acc; cbn [foldM]; [by rewrite app_nil_r|].
  rewrite (H i) by left. cbn [mbind outcome_bind list_bind]. rewrite IH by (intros; apply H; by right). by rewrite <- app_assoc.
Qed.

(** The offsets of a grid, row by row. *)
Lemma grid n m o : 0 <= n -> 0 <= m -> seqZ o (n * m) = upto n ≫= fun i => (fun j => o + (i * m + j)) <$> upto m.
Proof.
  intros Hn Hm. revert Hn. revert n. apply natlike_ind; [done|]. intros n Hn IH.
  unfold upto in *. rewrite Z.mul_succ_l, seqZ_app, IH by lia. rewrite <- Z.add_1_r, seqZ_app, bind_app by lia. f_equal.
  change (seqZ (0 + n) 1) with [0 + n]. cbn [mbind list_bind]. rewrite app_nil_r. apply list_eq. intros k.
  rewrite list_lookup_fmap. destruct (decide (Z.of_nat k < m)).
  - rewrite !lookup_seqZ_lt by lia. cbn. f_equal. lia.
  - by rewrite !lookup_seqZ_ge by lia.
Qed.

Lemma total_grid (f : Z -> Z) n m o : 0 <= n -> 0 <= m ->
  total f (seqZ o (n * m)) = total (fun i => total (fun j => f (o + (i * m + j))) (upto m)) (upto n).
Proof. intros Hn Hm. rewrite grid, total_bind by done. apply total_ext. intros i _. apply total_fmap. Qed.

(** ** The places of the variables *)

Inductive Var := VX (a p : Z) | VY (p q : Z) | VZ (a p q : Z) | VU (p : Z).

Section Places.
Context (A P Q : Z).

Definition env_of : var_env :=
  mkEnv (A * P + P * Q + A * P * Q + P) 0 (A * P) (A * P + P * Q) (A * P + P * Q + A * P * Q) A P Q.

Definition valid_var (v : Var) : Prop :=
  match v with
  | VX a p => 0 <= a < A /\ 0 <= p < P
  | VY p q => 0 <= p < P /\ 0 <= q < Q
  | VZ a p q => 0 <= a < A /\ 0 <= p < P /\ 0 <= q < Q
  | VU p => 0 <= p < P
  end.

Definition place (v : Var) : Z :=
  match v with
  | VX a p => x env_of a p
  | VY p q => y env_of p q
  | VZ a p q => z env_of a p q
  | VU p => u env_of p
  end.

Definition var_of (i : Z) : Var :=
  if i <? A * P then VX (i / P) (i mod P)
  else if i <? A * P + P * Q then VY ((i - A * P) / Q) ((i - A * P) mod Q)
  else if i <? A * P + P * Q + A * P * Q then
    let j := i - (A * P + P * Q) in VZ ((j mod (A * P)) / P) ((j mod (A * P)) mod P) (j / (A * P))
  else VU (i - (A * P + P * Q + A * P * Q)).

Lemma pair_bound i j n m : 0 <= i < n -> 0 <= j < m -> 0 <= i * m + j < n * m.
Proof.
  intros Hi Hj. pose proof (Z.mul_nonneg_nonneg i m ltac:(lia) ltac:(lia)).
  pose proof (Z.mul_nonneg_nonneg (n - i - 1) m ltac:(lia) ltac:(lia)). lia.
Qed.

Lemma pair_parts i j m : 0 <= j < m -> (i * m + j) / m = i /\ (i * m + j) mod m = j.
Proof. intros Hj. split; symmetry; [apply Z.div_unique with j|apply Z.mod_unique with i]; lia. Qed.

Lemma parts_pair k n m : 0 <= n -> 0 <= k < n * m -> 0 <= k / m < n /\ 0 <= k mod m < m /\ (k / m) * m + k mod m = k.
Proof.
  intros Hn Hk. assert (0 < m) by (destruct (Z.lt_trichotomy m 0) as [?|[->|?]]; [nia|lia|done]). pose proof (Z.div_mod k m ltac:(lia)). pose proof (Z.mod_pos_bound k m ltac:(lia)).
  split; [|lia]. split; [apply Z.div_pos; lia|]. apply Z.div_lt_upper_bound; nia.
Qed.

Context (HA : 0 <= A) (HP : 0 <= P) (HQ : 0 <= Q).

Lemma counts_nonneg : 0 <= A * P /\ 0 <= P * Q /\ 0 <= A * P * Q.
Proof. pose proof (Z.mul_nonneg_nonneg A P HA HP). split_and!; [done|by apply Z.mul_nonneg_nonneg|by apply Z.mul_nonneg_nonneg]. Qed.

#[local] Ltac offsets := unfold x, y, z, u; cbn [x_offset y_offset z_offset u_offset env_A env_P env_Q env_of num_vars].

(** Every variable has a place of its own, in the range of the arrays. *)
Lemma var_of_place v : valid_var v -> var_of (place v) = v /\ 0 <= place v < num_vars env_of.
Proof.
  pose proof counts_nonneg as (H1 & H2 & H3). destruct v as [a p|p q|a p q|p]; cbn [valid_var place]; offsets; unfold var_of.
  - intros [Ha Hp]. pose proof (pair_bound a p A P Ha Hp). rewrite Z.add_0_l.
    rewrite (proj2 (Z.ltb_lt _ _)) by lia. destruct (pair_parts a p P Hp) as [-> ->]. split; [done|lia].
  - intros [Hp Hq]. pose proof (pair_bound p q P Q Hp Hq).
    rewrite (proj2 (Z.ltb_ge _ _)), (proj2 (Z.ltb_lt _ _)) by lia.
    replace (A * P + (p * Q + q) - A * P) with (p * Q + q) by lia. destruct (pair_parts p q Q Hq) as [-> ->]. split; [done|lia].
  - intros (Ha & Hp & Hq). pose proof (pair_bound a p A P Ha Hp) as Hap. pose proof (pair_bound q (a * P + p) Q (A * P) Hq Hap) as Hqap.
    rewrite (proj2 (Z.ltb_ge _ (A * P))), (proj2 (Z.ltb_ge _ (A * P + P * Q))), (proj2 (Z.ltb_lt _ _)) by nia. cbv zeta.
    replace (A * P + P * Q + (q * A * P + a * P + p) - (A * P + P * Q)) with (q * (A * P) + (a * P + p)) by lia.
    destruct (pair_parts q (a * P + p) (A * P) Hap) as [-> ->]. destruct (pair_parts a p P Hp) as [-> ->]. split; [done|nia].
  - intros Hp. rewrite !(proj2 (Z.ltb_ge _ _)) by lia. split; [f_equal; lia|lia].
Qed.

(** Every place is that of a variable. *)
Lemma place_var_of i : 0 <= i < num_vars env_of -> valid_var (var_of i) /\ place (var_of i) = i.
Proof.
  cbn [num_vars env_of]. intros Hi. unfold var_of.
  destruct (Z.ltb_spec i (A * P)) as [H1|H1]; [|destruct (Z.ltb_spec i (A * P + P * Q)) as [H2|H2];
    [|destruct (Z.ltb_spec i (A * P + P * Q + A * P * Q)) as [H3|H3]]]; cbn [valid_var place]; offsets.
  - destruct (parts_pair i A P) as (? & ? & ?); [lia|lia|]. split; [done|lia].
  - destruct (parts_pair (i - A * P) P Q) as (? & ? & ?); [lia|lia|]. split; [done|lia].
  - cbv zeta. set (j := i - (A * P + P * Q)). assert (i = A * P + P * Q + j) as Ei by (unfold j; lia). clearbody j.
    destruct (parts_pair j Q (A * P)) as (Hq & Hr & E1); [lia|lia|]. destruct (parts_pair (j mod (A * P)) A P) as (? & ? & E2); [lia|lia|]. split; [done|].
    rewrite Ei. rewrite <- E1 at 4. rewrite <- E2 at 3. lia.
  - split; lia.
Qed.

Lemma index_bounds v : valid_var v -> 0 <= place v < num_vars env_of.
Proof. apply var_of_place. Qed.

Lemma place_inj v v' : valid_var v -> valid_var v' -> place v = place v' -> v = v'.
Proof. intros [E _]%var_of_place [E' _]%var_of_place Ep. congruence. Qed.
End Places.

(** ** Values *)

(** One, in units of 2^-1074. *)
Definition unity : Z := 2 ^ 1074.

Definition exact_value (d : double) : Z :=
  match to_sf d with
  | S754_finite s m e => (if s then - 1 else 1) * (Zpos m * 2 ^ (e + 1074))
  | _ => 0
  end.

#[global] Opaque unity exact_value.

Lemma unity_pos : 0 < unity.
Proof. by vm_compute. Qed.

Lemma exact_one : exact_value one = unity.
Proof. by vm_compute. Qed.
Lemma exact_minus_one : exact_value minus_one = - unity.
Proof. by vm_compute. Qed.
Lemma exact_zero : exact_value dzero = 0.
Proof. by vm_compute. Qed.
Lemma exact_K : exact_value K = 1000 * unity.
Proof. by vm_compute. Qed.
Lemma exact_bit (b : bool) : exact_value (dofZ (bit b)) = bit b * unity.
Proof. destruct b; by vm_compute. Qed.
Lemma exact_minus_bit (b : bool) : exact_value (dofZ (- bit b)) = - bit b * unity.
Proof. destruct b; by vm_compute. Qed.

#[export] Hint Rewrite exact_one exact_minus_one exact_zero exact_K exact_bit exact_minus_bit : railway.

Lemma exact_nonneg d : nonneg d -> 0 <= exact_value d.
Proof.
  intros Hd%nonneg_sf. Transparent exact_value. unfold exact_value. Opaque exact_value. destruct (to_sf d) as [| | |s m e]; try lia.
  destruct Hd as [-> _]. pose proof (Z.pow_nonneg 2 (e + 1074) ltac:(lia)). lia.
Qed.

(** ** What rows say of an assignment *)

Definition entry_value (b : Z -> bool) (t : Z * double) : Z := exact_value t.2 * bit (b t.1).

Definition row_value (b : Z -> bool) (r : Row) : Z := total (entry_value b) (row_terms r).

(** The row holds within the tolerance [tol]. *)
Definition holds (tol : Z) (b : Z -> bool) (r : Row) : Prop :=
  match row_sense r with
  | GRB_EQUAL => exact_value (row_rhs r) - tol <= row_value b r <= exact_value (row_rhs r) + tol
  | GRB_GREATER_EQUAL => exact_value (row_rhs r) - tol <= row_value b r
  | GRB_LESS_EQUAL => row_value b r <= exact_value (row_rhs r) + tol
  end.

(** The value of the objective. *)
Definition objective_value (b : Z -> bool) (obj : list double) : Z :=
  total (entry_value b) (zip (upto (Z.of_nat (length obj))) obj).

(** Within a tolerance below one, sums of units compare as integers. *)
Lemma units_ge tol k n : 0 <= tol < unity -> k * unity - tol <= n * unity <-> k <= n.
Proof. intros Ht. split; nia. Qed.

Lemma units_le tol k n : 0 <= tol < unity -> n * unity <= k * unity + tol <-> n <= k.
Proof. intros Ht. split; nia. Qed.

Lemma entries_units (b : Z -> bool) (f : Z -> Z) (d : double) k l : exact_value d = k * unity ->
  total (entry_value b) ((fun i => (f i, d)) <$> l) = k * total (fun i => bit (b (f i))) l * unity.
Proof.
  intros E. rewrite total_fmap. rewrite <- total_mul, Z.mul_comm, <- total_mul. apply total_ext. intros i _. unfold entry_value. cbn. rewrite E. lia.
Qed.

Section Patterns.
Context (tol : Z) (Htol : 0 <= tol < unity) (b : Z -> bool).

(** Entries that count the selected variables. *)
Lemma entries_count (sgn : Z) (f : Z -> Z) (d : Z -> double) (g : Z -> bool) l :
  (forall i, i ∈ l -> exact_value (d i) = sgn * bit (g i) * unity) ->
  total (entry_value b) ((fun i => (f i, d i)) <$> l) = sgn * total (fun i => bit (g i && b (f i))) l * unity.
Proof.
  intros E. rewrite total_fmap. rewrite <- total_mul, Z.mul_comm, <- total_mul. apply total_ext. intros i Hi.
  unfold entry_value. cbn. rewrite E by done. destruct (g i), (b (f i)); cbn; lia.
Qed.

Lemma at_least (f : Z -> Z) l (k : bool) :
  holds tol b (mkRow ((fun i => (f i, one)) <$> l) GRB_GREATER_EQUAL (dofZ (bit k))) <-> (k = true -> exists i, i ∈ l /\ b (f i) = true).
Proof.
  unfold holds, row_value. cbn [row_sense row_rhs row_terms]. rewrite (entries_count 1 f (fun _ => one) (fun _ => true)) by (intros; rewrite exact_one; cbn; lia).
  rewrite exact_bit, units_ge, Z.mul_1_l by done. cbn [andb]. pose proof (bits_some (fun i => b (f i)) l) as Hs. pose proof (bits_nonneg (fun i => b (f i)) l).
  destruct k; cbn [bit].
  - rewrite Hs. tauto.
  - split; [done|lia].
Qed.

Lemma at_least_one (f : Z -> Z) l : holds tol b (mkRow ((fun i => (f i, one)) <$> l) GRB_GREATER_EQUAL one) <-> exists i, i ∈ l /\ b (f i) = true.
Proof. change one with (dofZ (bit true)) at 2. rewrite at_least. split; [intros H; by apply H|done]. Qed.

Lemma exactly_one (f : Z -> Z) l : NoDup l ->
  holds tol b (mkRow ((fun i => (f i, one)) <$> l) GRB_EQUAL one) <-> exists i, i ∈ l /\ b (f i) = true /\ forall j, j ∈ l -> b (f j) = true -> j = i.
Proof.
  intros Hnd. unfold holds, row_value. cbn [row_sense row_rhs row_terms].
  rewrite (entries_count 1 f (fun _ => one) (fun _ => true)) by (intros; rewrite exact_one; cbn; lia). rewrite exact_one, Z.mul_1_l. cbn [andb].
  set (n := total _ l). assert (unity - tol <= n * unity <= unity + tol <-> n = 1) as ->.
  { rewrite <- (Z.mul_1_l unity) at 1 4. rewrite units_ge, units_le by done. lia. }
  unfold n. by apply bits_exactly_one.
Qed.

(** An upper bound on a variable by a count. *)
Lemma counted_above (f : Z -> Z) (d : Z -> double) (g : Z -> bool) j l : (forall i, i ∈ l -> exact_value (d i) = bit (g i) * unity) ->
  holds tol b (mkRow (((fun i => (f i, d i)) <$> l) ++ [(j, minus_one)]) GRB_GREATER_EQUAL dzero) <->
  (b j = true -> exists i, i ∈ l /\ g i = true /\ b (f i) = true).
Proof.
  intros E. unfold holds, row_value. cbn [row_sense row_rhs row_terms]. rewrite total_app, (entries_count 1 f d g) by (intros i Hi; rewrite (E i Hi); lia).
  rewrite total_cons, total_nil. unfold entry_value. cbn [fst snd]. rewrite exact_minus_one, exact_zero, Z.mul_1_l.
  set (n := total _ l). assert (0 - tol <= n * unity + (- unity * bit (b j) + 0) <-> bit (b j) <= n) as ->.
  { rewrite <- (units_ge tol (bit (b j)) n) by done. lia. }
  unfold n. pose proof (bits_some (fun i => g i && b (f i)) l) as Hs. pose proof (bits_nonneg (fun i => g i && b (f i)) l).
  setoid_rewrite andb_true_iff in Hs. destruct (b j); cbn [bit]; [rewrite Hs; tauto|split; [done|lia]].
Qed.

(** A lower bound, for at most as many as [K]. *)
Lemma counted_below (f : Z -> Z) (d : Z -> double) (g : Z -> bool) j l : (forall i, i ∈ l -> exact_value (d i) = - bit (g i) * unity) ->
  Z.of_nat (length l) <= 1000 ->
  holds tol b (mkRow ((j, K) :: ((fun i => (f i, d i)) <$> l)) GRB_GREATER_EQUAL dzero) <->
  (forall i, i ∈ l -> g i = true -> b (f i) = true -> b j = true).
Proof.
  intros E Hlen. unfold holds, row_value. cbn [row_sense row_rhs row_terms].
  rewrite total_cons, (entries_count (-1) f d g) by (intros i Hi; rewrite (E i Hi); lia). unfold entry_value. cbn [fst snd]. rewrite exact_K, exact_zero.
  set (n := total _ l). assert (0 - tol <= 1000 * unity * bit (b j) + -1 * n * unity <-> n <= 1000 * bit (b j)) as ->.
  { rewrite <- (units_ge tol n (1000 * bit (b j))) by done. lia. }
  unfold n. pose proof (bits_some (fun i => g i && b (f i)) l) as Hs. pose proof (bits_nonneg (fun i => g i && b (f i)) l).
  pose proof (bits_length (fun i => g i && b (f i)) l). setoid_rewrite andb_true_iff in Hs. destruct (b j); cbn [bit]; [split; [done|lia]|]. split.
  - intros Hn i Hi Hg Hb. assert (1 <= 0); [|lia]. etransitivity; [apply Hs; by exists i|]. lia.
  - intros Hno. destruct (Z.le_gt_cases (total (fun i => bit (g i && b (f i))) l) 0) as [?|Hpos]; [lia|].
    destruct (proj1 Hs) as (i & Hi & Hg & Hb); [lia|]. by specialize (Hno i Hi Hg Hb).
Qed.

Lemma implies i j : holds tol b (mkRow [(i, one); (j, minus_one)] GRB_GREATER_EQUAL dzero) <-> (b j = true -> b i = true).
Proof.
  unfold holds, row_value. cbn [row_sense row_rhs row_terms]. rewrite !total_cons, total_nil. unfold entry_value. cbn [fst snd].
  rewrite exact_one, exact_minus_one, exact_zero. pose proof unity_pos. destruct (b i), (b j); cbn [bit]; split; intros; try done; try lia.
Qed.

Lemma both i j k : holds tol b (mkRow [(k, one); (i, minus_one); (j, minus_one)] GRB_GREATER_EQUAL minus_one) <->
  (b i = true -> b j = true -> b k = true).
Proof.
  unfold holds, row_value. cbn [row_sense row_rhs row_terms]. rewrite !total_cons, total_nil. unfold entry_value. cbn [fst snd].
  rewrite exact_one, exact_minus_one. pose proof unity_pos. destruct (b i), (b j), (b k); cbn [bit]; split; intros; try done; try lia.
Qed.
End Patterns.

(** ** What the constraints say *)

(** The rows are computed, and say [Says] of every assignment. *)
Definition means (rows : outcome (list Row)) (Says : Z -> (Z -> bool) -> Prop) : Prop :=
  exists r, rows = Ret r /\ forall tol b, 0 <= tol < unity -> Forall (holds tol b) r <-> Says tol b.

Lemma means_row e numnz entries sense rhs (Says : Z -> (Z -> bool) -> Prop) :
  Z.of_nat (length entries) <= num_vars e -> numnz = Z.of_nat (length entries) ->
  (forall tol b, 0 <= tol < unity -> holds tol b (mkRow entries sense rhs) <-> Says tol b) -> means (row e numnz entries sense rhs) Says.
Proof.
  intros Hl -> Hs. exists [mkRow entries sense rhs]. split; [unfold row; by rewrite (proj2 (Z.leb_le _ _) Hl), Z.eqb_refl|].
  intros tol b Ht. rewrite Forall_singleton. by apply Hs.
Qed.

Lemma means_collect n f (Says : Z -> Z -> (Z -> bool) -> Prop) : (forall i, 0 <= i < n -> means (f i) (Says i)) ->
  means (collect (upto n) f) (fun tol b => forall i, 0 <= i < n -> Says i tol b).
Proof.
  intros Hf. assert (forall l, (forall i, i ∈ l -> means (f i) (Says i)) -> means (collect l f) (fun tol b => forall i, i ∈ l -> Says i tol b)) as Hg.
  { clear Hf. intros l Hl. unfold collect. assert (forall acc, exists r, foldM (fun acc i => r ← f i; Ret (acc ++ r)) acc l = Ret (acc ++ r) /\
      forall tol b, 0 <= tol < unity -> Forall (holds tol b) r <-> forall i, i ∈ l -> Says i tol b) as Hg; [|destruct (Hg []) as (r & E & Hr); by exists r].
    induction l as [|i l IH]; intros acc; cbn [foldM].
    - exists []. rewrite app_nil_r. split; [done|]. intros tol b _. split; [by intros _ i []%elem_of_nil|constructor].
    - destruct (Hl i) as (r & -> & Hr); [left|]. cbn [mbind outcome_bind]. destruct IH with (acc := acc ++ r) as (r' & -> & Hr'); [intros; apply Hl; by right|].
      exists (r ++ r'). rewrite <- app_assoc. split; [done|]. intros tol b Ht. rewrite Forall_app, Hr, Hr' by done. split.
      + intros [H1 H2] j [->|Hj]%elem_of_cons; [done|by apply H2].
      + intros H. split; [apply H; left|intros j Hj; apply H; by right]. }
  destruct (Hg (upto n)) as (r & E & Hr); [intros i Hi%elem_of_upto; by apply Hf|]. exists r. split; [done|]. intros tol b Ht. rewrite Hr by done.
  split; intros H i Hi; apply H; by apply elem_of_upto.
Qed.

Lemma means_bind {T} (o : outcome T) v f Says : o = Ret v -> means (f v) Says -> means (v ← o; f v) Says.
Proof. intros ->. done. Qed.

(** Writing all the cells of an array. *)
Lemma write_cells (f : Z -> double) writes : forall arr : list (option double),
  Forall (fun w => 0 <= w.1 < Z.of_nat (length arr) /\ w.2 = f w.1) writes ->
  exists arr', foldM write_cell arr writes = Ret arr' /\ length arr' = length arr /\
    forall i : nat, (i < length arr)%nat -> arr' !! i = if decide (Z.of_nat i ∈ writes.*1) then Some (Some (f (Z.of_nat i))) else arr !! i.
Proof.
  induction writes as [|[i v] writes IH]; intros arr Hw; cbn [foldM].
  { exists arr. split_and!; [done|done|]. intros i Hi. by rewrite decide_False by (intros []%elem_of_nil). }
  apply Forall_cons in Hw as [[Hi Hv] Hw]. cbn [fst snd] in *.
  assert (write_cell arr (i, v) = Ret (<[Z.to_nat i := Some v]> arr)) as ->.
  { unfold write_cell. cbn [fst snd]. by rewrite (proj2 (Z.leb_le _ _)), (proj2 (Z.ltb_lt _ _)) by lia. }
  cbn [mbind outcome_bind].
  destruct (IH (<[Z.to_nat i := Some v]> arr)) as (arr' & E & Hl & Hall); [by rewrite length_insert|]. rewrite length_insert in Hl, Hall.
  exists arr'. split_and!; [done|done|]. intros k Hk. rewrite Hall by done. rewrite fmap_cons. cbn [fst].
  destruct (decide (Z.of_nat k ∈ writes.*1)) as [Hin|Hin]; [by rewrite decide_True by by right|].
  destruct (decide (Z.of_nat k = i)) as [<-|Hne].
  - rewrite decide_True by left. rewrite Nat2Z.id, list_lookup_insert_eq by done. by rewrite Hv.
  - rewrite decide_False by (rewrite elem_of_cons; tauto). rewrite list_lookup_insert_ne by lia. done.
Qed.

Section Programs.
Context (base : list Attribute) (iter : list nat -> list nat) (stats : SchemaStats) (workload : QueryWorkload).
Context (A Q : Z) (HA : 1 <= A <= 1000) (HQ : 0 <= Q).
#[local] Abbreviation e := (env_of A A Q).
(** The averages of the attributes, the frequencies of the queries, and which
    attributes they access. *)
Context (avg freq : Z -> double) (acc : Z -> Z -> bool).
Context (Havg : forall a, 0 <= a < A -> attribute_avg base stats workload a = Ret (avg a)).
Context (Hfreq : forall q, 0 <= q < Q -> frequency workload q = Ret (freq q)).
Context (Hacc : forall q a, 0 <= q < Q -> 0 <= a < A -> accesses base workload q a = Ret (bit (acc q a))).

(** The bytes an attribute adds to a block. *)
Definition attribute_bytes (a : Z) : double := dmul (avg a) (dofZ c_e).

Definition storage_value (b : Z -> bool) : Z :=
  total (fun p => exact_value block_overhead * bit (b (u e p))) (upto A) +
  total (fun p => total (fun a => exact_value (attribute_bytes a) * bit (b (x e a p))) (upto A)) (upto A).

Record overlapping_says (limit : double) (tol : Z) (b : Z -> bool) : Prop := {
  os_cover a : 0 <= a < A -> exists p, 0 <= p < A /\ b (x e a p) = true;
  os_read a q : 0 <= a < A -> 0 <= q < Q -> acc q a = true -> exists p, 0 <= p < A /\ b (z e a p q) = true;
  os_zx a p q : 0 <= a < A -> 0 <= p < A -> 0 <= q < Q -> b (z e a p q) = true -> b (x e a p) = true;
  os_yz p q : 0 <= p < A -> 0 <= q < Q -> b (y e p q) = true -> exists a, 0 <= a < A /\ b (z e a p q) = true;
  os_zy a p q : 0 <= a < A -> 0 <= p < A -> 0 <= q < Q -> b (z e a p q) = true -> b (y e p q) = true;
  os_xyz a p q : 0 <= a < A -> 0 <= p < A -> 0 <= q < Q -> b (x e a p) = true -> b (y e p q) = true -> b (z e a p q) = true;
  os_ux p : 0 <= p < A -> b (u e p) = true -> exists a, 0 <= a < A /\ b (x e a p) = true;
  os_xu a p : 0 <= a < A -> 0 <= p < A -> b (x e a p) = true -> b (u e p) = true;
  os_storage : storage_value b <= exact_value limit + tol
}.

Lemma num_vars_room : A + A * A <= num_vars e /\ A <= num_vars e /\ A + 1 <= num_vars e /\ (1 <= Q -> 4 <= num_vars e).
Proof. cbn [num_vars env_of]. split_and!; [| | |intros]; nia. Qed.

Lemma in_upto (P : Z -> Prop) n : (exists i, i ∈ upto n /\ P i) <-> exists i, 0 <= i < n /\ P i.
Proof. split; intros (i & Hi & HP); exists i; (split; [by apply elem_of_upto|done]). Qed.

#[local] Ltac row_counts := pose proof num_vars_room; cbn [length app]; rewrite ?length_app, ?length_fmap; cbn [length];
  pose proof (length_upto A ltac:(lia)); lia.

Lemma one_counts (l : list Z) : forall i, i ∈ l -> exact_value one = bit true * unity.
Proof. intros. by rewrite exact_one, Z.mul_1_l. Qed.

Lemma minus_one_counts (l : list Z) : forall i, i ∈ l -> exact_value minus_one = - bit true * unity.
Proof. intros. rewrite exact_minus_one. cbn [bit]. lia. Qed.

(** The rows that both solvers have. *)
Lemma used_rows p : 0 <= p < A -> means (row e (A + 1) (((fun a => (x e a p, one)) <$> upto A) ++ [(u e p, minus_one)]) GRB_GREATER_EQUAL dzero)
  (fun tol b => b (u e p) = true -> exists a, 0 <= a < A /\ b (x e a p) = true).
Proof.
  intros Hp. apply means_row; [row_counts..|]. intros tol b Ht.
  rewrite (counted_above tol Ht b (fun a => x e a p) (fun _ => one) (fun _ => true)) by apply one_counts. rewrite in_upto. naive_solver.
Qed.

Lemma used_rows_below p : 0 <= p < A -> means (row e (A + 1) ((u e p, K) :: ((fun a => (x e a p, minus_one)) <$> upto A)) GRB_GREATER_EQUAL dzero)
  (fun tol b => forall a, 0 <= a < A -> b (x e a p) = true -> b (u e p) = true).
Proof.
  intros Hp. apply means_row; [row_counts..|]. intros tol b Ht.
  rewrite (counted_below tol Ht b (fun a => x e a p) (fun _ => minus_one) (fun _ => true)); [|apply minus_one_counts|rewrite length_upto; lia].
  setoid_rewrite elem_of_upto. naive_solver.
Qed.

Lemma both_rows : means (collect (upto A) (fun a => collect (upto A) (fun p => collect (upto Q) (fun q =>
    row e 3 [(z e a p q, one); (x e a p, minus_one); (y e p q, minus_one)] GRB_GREATER_EQUAL minus_one))))
  (fun tol b => forall a, 0 <= a < A -> forall p, 0 <= p < A -> forall q, 0 <= q < Q -> b (x e a p) = true -> b (y e p q) = true -> b (z e a p q) = true).
Proof.
  apply means_collect. intros a Ha. apply means_collect. intros p Hp. apply means_collect. intros q Hq.
  apply means_row; [row_counts..|]. intros tol b Ht. by apply both.
Qed.

Lemma limited_sizes : collect (upto A) (fun p => collect (upto A) (fun a => v ← attribute_avg base stats workload a; Ret [(x e a p, dmul v (dofZ c_e))])) =
  Ret (upto A ≫= fun p => upto A ≫= fun a => [(x e a p, attribute_bytes a)]).
Proof.
  apply collect_loop. intros p _. apply collect_loop. intros a Ha%elem_of_upto. by rewrite Havg.
Qed.

(** The sets of [OptimalOverlapping]. *)
Lemma cover_rows : means (collect (upto A) (fun a => row e A ((fun p => (x e a p, one)) <$> upto A) GRB_GREATER_EQUAL one))
  (fun tol b => forall a, 0 <= a < A -> exists p, 0 <= p < A /\ b (x e a p) = true).
Proof.
  apply means_collect. intros a Ha. apply means_row; [row_counts..|]. intros tol b Ht. rewrite at_least_one by done.
  apply (in_upto (fun p => b (x e a p) = true)).
Qed.

Lemma read_rows : means (collect (upto A) (fun a => collect (upto Q) (fun q =>
    acc ← accesses base workload q a; row e A ((fun p => (z e a p q, one)) <$> upto A) GRB_GREATER_EQUAL (dofZ acc))))
  (fun tol b => forall a, 0 <= a < A -> forall q, 0 <= q < Q -> acc q a = true -> exists p, 0 <= p < A /\ b (z e a p q) = true).
Proof.
  apply means_collect. intros a Ha. apply means_collect. intros q Hq. eapply means_bind; [by apply Hacc|]. apply means_row; [row_counts..|].
  intros tol b Ht. rewrite at_least by done. by rewrite (in_upto (fun p => b (z e a p q) = true)).
Qed.

Lemma part_rows : means (collect (upto A) (fun a => collect (upto A) (fun p => collect (upto Q) (fun q =>
    row e 2 [(x e a p, one); (z e a p q, minus_one)] GRB_GREATER_EQUAL dzero))))
  (fun tol b => forall a, 0 <= a < A -> forall p, 0 <= p < A -> forall q, 0 <= q < Q -> b (z e a p q) = true -> b (x e a p) = true).
Proof.
  apply means_collect. intros a Ha. apply means_collect. intros p Hp. apply means_collect. intros q Hq. apply means_row; [row_counts..|].
  intros tol b Ht. by apply implies.
Qed.

Lemma some_rows : means (collect (upto A) (fun p => collect (upto Q) (fun q =>
    row e (A + 1) (((fun a => (z e a p q, one)) <$> upto A) ++ [(y e p q, minus_one)]) GRB_GREATER_EQUAL dzero)))
  (fun tol b => forall p, 0 <= p < A -> forall q, 0 <= q < Q -> b (y e p q) = true -> exists a, 0 <= a < A /\ b (z e a p q) = true).
Proof.
  apply means_collect. intros p Hp. apply means_collect. intros q Hq. apply means_row; [row_counts..|]. intros tol b Ht.
  rewrite (counted_above tol Ht b (fun a => z e a p q) (fun _ => one) (fun _ => true)) by apply one_counts. rewrite in_upto. naive_solver.
Qed.

Lemma whole_rows : means (collect (upto A) (fun p => collect (upto Q) (fun q =>
    row e (A + 1) ((y e p q, K) :: ((fun a => (z e a p q, minus_one)) <$> upto A)) GRB_GREATER_EQUAL dzero)))
  (fun tol b => forall p, 0 <= p < A -> forall q, 0 <= q < Q -> forall a, 0 <= a < A -> b (z e a p q) = true -> b (y e p q) = true).
Proof.
  apply means_collect. intros p Hp. apply means_collect. intros q Hq. apply means_row; [row_counts..|]. intros tol b Ht.
  rewrite (counted_below tol Ht b (fun a => z e a p q) (fun _ => minus_one) (fun _ => true)); [|apply minus_one_counts|rewrite length_upto; lia].
  setoid_rewrite elem_of_upto. naive_solver.
Qed.

Lemma storage_row limit : means (row e (A + A * A)
    (((fun p => (u e p, block_overhead)) <$> upto A) ++ (upto A ≫= fun p => upto A ≫= fun a => [(x e a p, attribute_bytes a)])) GRB_LESS_EQUAL limit)
  (fun tol b => storage_value b <= exact_value limit + tol).
Proof.
  assert (Z.of_nat (length (upto A ≫= fun p => upto A ≫= fun a => [(x e a p, attribute_bytes a)])) = A * A) as Hl.
  { assert (forall k p, length (k ≫= fun a => [(x e a p, attribute_bytes a)]) = length k) as Hk.
    { intros k p. induction k as [|a k IHk]; [done|]. cbn. by rewrite <- IHk. }
    assert (forall l, length (l ≫= fun p => upto A ≫= fun a => [(x e a p, attribute_bytes a)]) = (length l * length (upto A))%nat) as ->.
    - induction l as [|p l IH]; [done|]. cbn [mbind list_bind length]. rewrite length_app, IH, Hk. done.
    - rewrite Nat2Z.inj_mul, length_upto by lia. done. }
  apply means_row; [rewrite length_app, length_fmap, Nat2Z.inj_add, Hl, length_upto by lia; apply num_vars_room| |].
  { rewrite length_app, length_fmap, Nat2Z.inj_add, Hl, length_upto by lia. done. }
  intros tol b Ht. unfold holds, row_value, storage_value. cbn [row_sense row_rhs row_terms].
  rewrite total_app, total_fmap, total_bind. assert (forall k m m' n : Z, m = m' -> k + m <= n <-> k + m' <= n) as Hc by (intros; lia).
  apply Hc. apply total_ext. intros p _. rewrite total_bind. apply total_ext. intros a _. rewrite total_cons, total_nil. unfold entry_value. cbn. lia.
Qed.

Lemma overlapping_rows_ok storageThreshold size : getPartitionSize base iter stats (whole workload) = Ret size ->
  means (overlapping_rows base iter stats workload storageThreshold e) (overlapping_says (dmul size (dadd dunit storageThreshold))).
Proof.
  intros Esize. unfold overlapping_rows. cbn [env_A env_P env_Q env_of].
  destruct cover_rows as (r1 & -> & H1). destruct read_rows as (r2 & E2 & H2). destruct part_rows as (r3 & E3 & H3).
  destruct some_rows as (r4 & E4 & H4). destruct whole_rows as (r5 & E5 & H5). destruct both_rows as (r6 & E6 & H6).
  destruct (means_collect A _ _ used_rows) as (r7 & E7 & H7). destruct (means_collect A _ _ used_rows_below) as (r8 & E8 & H8).
  destruct (storage_row (dmul size (dadd dunit storageThreshold))) as (r9 & E9 & H9).
  cbn [mbind outcome_bind]. rewrite E2. cbn [mbind outcome_bind]. rewrite E3. cbn [mbind outcome_bind]. rewrite E4. cbn [mbind outcome_bind].
  rewrite E5. cbn [mbind outcome_bind]. rewrite E6. cbn [mbind outcome_bind]. rewrite E7. cbn [mbind outcome_bind]. rewrite E8. cbn [mbind outcome_bind].
  rewrite Esize. cbn [mbind outcome_bind]. rewrite limited_sizes. cbn [mbind outcome_bind]. rewrite E9. cbn [mbind outcome_bind].
  eexists. split; [reflexivity|]. intros tol b Ht. rewrite !Forall_app, H1, H2, H3, H4, H5, H6, H7, H8, H9 by done. split.
  - intros (? & ? & ? & ? & ? & ? & ? & ? & ?). split; eauto.
  - intros []. split_and!; eauto.
Qed.

(** *** The sets of [OptimalNonOverlapping] *)

Record nonoverlapping_says (limit : double) (tol : Z) (b : Z -> bool) : Prop := {
  ns_one a : 0 <= a < A -> exists p, 0 <= p < A /\ b (x e a p) = true /\ forall p', 0 <= p' < A -> b (x e a p') = true -> p' = p;
  ns_ya p q : 0 <= p < A -> 0 <= q < Q -> b (y e p q) = true -> exists a, 0 <= a < A /\ acc q a = true /\ b (x e a p) = true;
  ns_ay a p q : 0 <= a < A -> 0 <= p < A -> 0 <= q < Q -> acc q a = true -> b (x e a p) = true -> b (y e p q) = true;
  ns_xyz a p q : 0 <= a < A -> 0 <= p < A -> 0 <= q < Q -> b (x e a p) = true -> b (y e p q) = true -> b (z e a p q) = true;
  ns_ux p : 0 <= p < A -> b (u e p) = true -> exists a, 0 <= a < A /\ b (x e a p) = true;
  ns_xu a p : 0 <= a < A -> 0 <= p < A -> b (x e a p) = true -> b (u e p) = true;
  ns_count : total (fun p => bit (b (u e p))) (upto A) * unity <= exact_value limit + tol
}.

Lemma one_rows : means (collect (upto A) (fun a => row e A ((fun p => (x e a p, one)) <$> upto A) GRB_EQUAL one))
  (fun tol b => forall a, 0 <= a < A -> exists p, 0 <= p < A /\ b (x e a p) = true /\ forall p', 0 <= p' < A -> b (x e a p') = true -> p' = p).
Proof.
  apply means_collect. intros a Ha. apply means_row; [row_counts..|]. intros tol b Ht. rewrite exactly_one by (done || apply NoDup_seqZ).
  split; intros (p & Hp & Hb & Hu); exists p; (split; [by apply elem_of_upto|split; [done|]]); intros p' Hp'; apply Hu; by apply elem_of_upto.
Qed.

Lemma accessed_entries (c : Z -> Z) p q : 0 <= q < Q ->
  collect (upto A) (fun a => acc ← accesses base workload q a; Ret [(x e a p, dofZ (c acc))]) =
    Ret ((fun a => (x e a p, dofZ (c (bit (acc q a))))) <$> upto A).
Proof.
  intros Hq. rewrite (collect_loop _ _ (fun a => [(x e a p, dofZ (c (bit (acc q a))))])).
  - done.
  - intros a Ha%elem_of_upto. by rewrite Hacc.
Qed.

Lemma accessed_rows : means (collect (upto A) (fun p => collect (upto Q) (fun q =>
    xs ← collect (upto A) (fun a => acc ← accesses base workload q a; Ret [(x e a p, dofZ acc)]);
    row e (A + 1) (xs ++ [(y e p q, minus_one)]) GRB_GREATER_EQUAL dzero)))
  (fun tol b => forall p, 0 <= p < A -> forall q, 0 <= q < Q -> b (y e p q) = true -> exists a, 0 <= a < A /\ acc q a = true /\ b (x e a p) = true).
Proof.
  apply means_collect. intros p Hp. apply means_collect. intros q Hq. eapply means_bind; [apply (accessed_entries (fun k => k) p q Hq)|].
  apply means_row; [row_counts..|]. intros tol b Ht.
  rewrite (counted_above tol Ht b (fun a => x e a p) (fun a => dofZ (bit (acc q a))) (acc q)) by (intros; apply exact_bit).
  by rewrite (in_upto (fun a => acc q a = true /\ b (x e a p) = true)).
Qed.

Lemma accessed_rows_below : means (collect (upto A) (fun p => collect (upto Q) (fun q =>
    xs ← collect (upto A) (fun a => acc ← accesses base workload q a; Ret [(x e a p, dofZ (- acc))]);
    row e (A + 1) ((y e p q, K) :: xs) GRB_GREATER_EQUAL dzero)))
  (fun tol b => forall p, 0 <= p < A -> forall q, 0 <= q < Q -> forall a, 0 <= a < A -> acc q a = true -> b (x e a p) = true -> b (y e p q) = true).
Proof.
  apply means_collect. intros p Hp. apply means_collect. intros q Hq. eapply means_bind; [apply (accessed_entries Z.opp p q Hq)|].
  apply means_row; [row_counts..|]. intros tol b Ht.
  rewrite (counted_below tol Ht b (fun a => x e a p) (fun a => dofZ (- bit (acc q a))) (acc q));
    [|intros; apply exact_minus_bit|rewrite length_upto; lia].
  setoid_rewrite elem_of_upto. naive_solver.
Qed.

Lemma count_row limit : means (row e A ((fun p => (u e p, dunit)) <$> upto A) GRB_LESS_EQUAL limit)
  (fun tol b => total (fun p => bit (b (u e p))) (upto A) * unity <= exact_value limit + tol).
Proof.
  apply means_row; [row_counts..|]. intros tol b Ht. unfold holds, row_value. cbn [row_sense row_rhs row_terms].
  rewrite (entries_count b 1 (u e) (fun _ => dunit) (fun _ => true)) by (intros; change dunit with one; rewrite exact_one; cbn; lia).
  cbn [andb]. by rewrite Z.mul_1_l.
Qed.

Lemma nonoverlapping_rows_ok storageThreshold size sum : s base stats (qw_attributes_ workload) = Ret sum ->
  getPartitionSize base iter stats (whole workload) = Ret size ->
  means (nonoverlapping_rows base iter stats workload storageThreshold e)
    (nonoverlapping_says (dadd dunit (ddiv storageThreshold (dsub dunit (ddiv (dmul sum (dofZ c_e)) size))))).
Proof.
  intros Esum Esize. unfold nonoverlapping_rows. cbn [env_A env_P env_Q env_of].
  destruct one_rows as (r1 & -> & H1). destruct accessed_rows as (r2 & E2 & H2). destruct accessed_rows_below as (r3 & E3 & H3).
  destruct both_rows as (r4 & E4 & H4). destruct (means_collect A _ _ used_rows) as (r5 & E5 & H5).
  destruct (means_collect A _ _ used_rows_below) as (r6 & E6 & H6).
  destruct (count_row (dadd dunit (ddiv storageThreshold (dsub dunit (ddiv (dmul sum (dofZ c_e)) size))))) as (r7 & E7 & H7).
  cbn [mbind outcome_bind]. rewrite E2. cbn [mbind outcome_bind]. rewrite E3. cbn [mbind outcome_bind]. rewrite E4. cbn [mbind outcome_bind].
  rewrite E5. cbn [mbind outcome_bind]. rewrite E6. cbn [mbind outcome_bind]. rewrite Esum. cbn [mbind outcome_bind].
  rewrite Esize. cbn [mbind outcome_bind]. rewrite E7. cbn [mbind outcome_bind].
  eexists. split; [reflexivity|]. intros tol b Ht. rewrite !Forall_app, H1, H2, H3, H4, H5, H6, H7 by done. split.
  - intros (? & ? & ? & ? & ? & ? & ?). split; eauto.
  - intros []. split_and!; eauto.
Qed.

(** *** The objective *)

Definition read_bytes (q : Z) : double := dmul block_overhead (freq q).
Definition read_attribute_bytes (a q : Z) : double := dmul (attribute_bytes a) (freq q).

Definition coefficient (i : Z) : double :=
  match var_of A A Q i with
  | VY p q => read_bytes q
  | VZ a p q => read_attribute_bytes a q
  | _ => dzero
  end.

Lemma coefficient_place v : valid_var A A Q v -> coefficient (place A A Q v) =
  match v with VY p q => read_bytes q | VZ a p q => read_attribute_bytes a q | _ => dzero end.
Proof. intros Hv. unfold coefficient. destruct (var_of_place A A Q ltac:(lia) ltac:(lia) HQ v Hv) as [-> _]. done. Qed.

(** The assignments of the objective write every cell its coefficient. *)
Lemma objective_writes_ok : exists writes, objective_writes base stats workload e = Ret writes /\
  Forall (fun w => 0 <= w.1 < num_vars e /\ w.2 = coefficient w.1) writes /\ forall i, 0 <= i < num_vars e -> i ∈ writes.*1.
Proof.
  unfold objective_writes. cbn [env_A env_P env_Q env_of].
  rewrite (collect_loop (upto A) (fun a => collect (upto A) (fun p => Ret [(x e a p, dzero)])) (fun a => upto A ≫= fun p => [(x e a p, dzero)])) by (intros; by apply collect_loop).
  cbn [mbind outcome_bind].
  rewrite (collect_loop (upto Q) _ (fun q => (upto A ≫= fun p => [(y e p q, read_bytes q)]) ++
    (upto A ≫= fun a => upto A ≫= fun p => [(z e a p q, read_attribute_bytes a q)]))).
  2:{ intros q Hq%elem_of_upto. rewrite (collect_loop (upto A) (fun p => f ← frequency workload q; Ret [(y e p q, dmul block_overhead f)]) (fun p => [(y e p q, read_bytes q)])) by (intros; by rewrite Hfreq).
      cbn [mbind outcome_bind]. rewrite (collect_loop (upto A) _ (fun a => upto A ≫= fun p => [(z e a p q, read_attribute_bytes a q)])); [done|].
      intros a Ha%elem_of_upto. apply collect_loop. intros p _. rewrite Havg by done. cbn [mbind outcome_bind]. by rewrite Hfreq. }
  cbn [mbind outcome_bind]. rewrite (collect_loop (upto A) _ (fun p => [(u e p, dzero)])) by done. cbn [mbind outcome_bind].
  eexists. split; [reflexivity|]. split.
  - assert (forall v c, valid_var A A Q v -> c = coefficient (place A A Q v) -> 0 <= place A A Q v < num_vars e /\ c = coefficient (place A A Q v)) as Hin.
    { intros v c Hv Hc. split; [by apply index_bounds; [lia..|]|done]. }
    apply Forall_forall. intros w Hw. rewrite !elem_of_app in Hw. destruct Hw as [Hw|[Hw|Hw]].
    + apply list_elem_of_bind in Hw as (a & Hw & Ha%elem_of_upto). apply list_elem_of_bind in Hw as (p & ->%list_elem_of_singleton & Hp%elem_of_upto).
      apply (Hin (VX a p)); [done|]. by rewrite coefficient_place.
    + apply list_elem_of_bind in Hw as (q & Hw & Hq%elem_of_upto). apply elem_of_app in Hw as [Hw|Hw].
      * apply list_elem_of_bind in Hw as (p & ->%list_elem_of_singleton & Hp%elem_of_upto). apply (Hin (VY p q)); [done|]. by rewrite coefficient_place.
      * apply list_elem_of_bind in Hw as (a & Hw & Ha%elem_of_upto). apply list_elem_of_bind in Hw as (p & ->%list_elem_of_singleton & Hp%elem_of_upto).
        apply (Hin (VZ a p q)); [done|]. by rewrite coefficient_place.
    + apply list_elem_of_bind in Hw as (p & ->%list_elem_of_singleton & Hp%elem_of_upto). apply (Hin (VU p)); [done|]. by rewrite coefficient_place.
  - intros i Hi. destruct (place_var_of A A Q ltac:(lia) ltac:(lia) HQ i Hi) as [Hv Ei]. rewrite <- Ei. clear Ei Hi.
    rewrite !fmap_app, !elem_of_app. destruct (var_of A A Q i) as [a p|p q|a p q|p]; cbn [valid_var place] in *.
    + left. apply (list_elem_of_fmap_2 fst _ (x e a p, dzero)). apply list_elem_of_bind. exists a. split; [|apply elem_of_upto; lia].
      apply list_elem_of_bind. exists p. split; [left|apply elem_of_upto; lia].
    + right; left. apply (list_elem_of_fmap_2 fst _ (y e p q, read_bytes q)). apply list_elem_of_bind. exists q. split; [|apply elem_of_upto; lia].
      apply elem_of_app. left. apply list_elem_of_bind. exists p. split; [left|apply elem_of_upto; lia].
    + right; left. apply (list_elem_of_fmap_2 fst _ (z e a p q, read_attribute_bytes a q)). apply list_elem_of_bind. exists q. split; [|apply elem_of_upto; lia].
      apply elem_of_app. right. apply list_elem_of_bind. exists a. split; [|apply elem_of_upto; lia].
      apply list_elem_of_bind. exists p. split; [left|apply elem_of_upto; lia].
    + right; right. apply (list_elem_of_fmap_2 fst _ (u e p, dzero)). apply list_elem_of_bind. exists p. split; [left|apply elem_of_upto; lia].
Qed.

Lemma num_vars_nonneg : 0 <= num_vars e.
Proof. pose proof num_vars_room. lia. Qed.

(** Every cell of the array is written before it is read. *)
Lemma objective_ok : objective base stats workload e = Ret (coefficient <$> upto (num_vars e)).
Proof.
  pose proof num_vars_nonneg as Hn. destruct objective_writes_ok as (writes & E & Hw & Hall). unfold objective. rewrite E. cbn [mbind outcome_bind].
  destruct (write_cells coefficient writes (replicate (Z.to_nat (num_vars e)) None)) as (arr & -> & Hl & Harr).
  { eapply Forall_impl; [exact Hw|]. intros w [? ?]. rewrite length_replicate, Z2Nat.id by lia. done. }
  rewrite length_replicate in Hl, Harr. assert (arr = (fun i => Some (coefficient i)) <$> upto (num_vars e)) as ->.
  { apply list_eq. intros k. rewrite list_lookup_fmap. destruct (decide (k < Z.to_nat (num_vars e))%nat) as [Hk|Hk].
    - rewrite Harr, decide_True by (done || (apply Hall; lia)). unfold upto. rewrite lookup_seqZ_lt by lia. done.
    - rewrite lookup_ge_None_2 by lia. unfold upto. by rewrite lookup_seqZ_ge by lia. }
  cbn [mbind outcome_bind]. clear. generalize (upto (num_vars e)). intros l.
  assert (forall acc, foldM (fun l v => v ← or_undefined v; Ret (l ++ [v])) acc ((fun i => Some (coefficient i)) <$> l) = Ret (acc ++ (coefficient <$> l))) as Hg; [|apply (Hg [])].
  induction l as [|i l IH]; intros acc; cbn [fmap list_fmap foldM]; [by rewrite app_nil_r|]. cbn [or_undefined mbind outcome_bind]. rewrite IH. by rewrite <- app_assoc.
Qed.

(** The value of the objective: the bytes of the blocks read, and of the
    attributes in them. *)
Lemma objective_value_ok b : objective_value b (coefficient <$> upto (num_vars e)) =
  total (fun q => total (fun p => exact_value (read_bytes q) * bit (b (y e p q)) +
    total (fun a => exact_value (read_attribute_bytes a q) * bit (b (z e a p q))) (upto A)) (upto A)) (upto Q).
Proof.
  pose proof num_vars_nonneg as Hn. unfold objective_value. rewrite length_fmap, length_upto by done.
  assert (zip (upto (num_vars e)) (coefficient <$> upto (num_vars e)) = (fun i => (i, coefficient i)) <$> upto (num_vars e)) as ->.
  { generalize (upto (num_vars e)). intros l. induction l as [|i l IH]; [done|]. cbn. by f_equal. }
  rewrite total_fmap. unfold entry_value. cbn [fst snd]. set (f := fun i => exact_value (coefficient i) * bit (b i)).
  destruct (counts_nonneg A A Q ltac:(lia) ltac:(lia) HQ) as (H1 & H2 & H3).
  unfold upto at 1. cbn [num_vars env_of]. rewrite !seqZ_app, !total_app by lia. rewrite !Z.add_0_l.
  rewrite (total_grid f A A 0), (total_grid f A Q (A * A)) by lia. replace (A * A * Q) with (Q * (A * A)) by lia.
  rewrite (total_grid f Q (A * A) (A * A + A * Q)) by lia.
  assert (forall v, valid_var A A Q v -> f (place A A Q v) = exact_value match v with VY p q => read_bytes q | VZ a p q => read_attribute_bytes a q | _ => dzero end * bit (b (place A A Q v))) as Hf.
  { intros v Hv. unfold f. by rewrite coefficient_place. }
  rewrite (total_zero _ (upto A)).
  2:{ intros a Ha%elem_of_upto. apply total_zero. intros p Hp%elem_of_upto. etransitivity; [by apply (Hf (VX a p))|]. rewrite exact_zero. lia. }
  rewrite (total_zero f (seqZ _ A)).
  2:{ intros i Hi%elem_of_seqZ. replace i with (place A A Q (VU (i - (A * A + A * Q + Q * (A * A))))) by (cbn [place]; unfold u; cbn [u_offset env_of]; lia).
      rewrite Hf by (cbn [valid_var]; lia). rewrite exact_zero. lia. }
  rewrite Z.add_0_l, Z.add_0_r, (total_swap _ (upto A)), <- total_add. apply total_ext. intros q Hq%elem_of_upto. rewrite total_add. f_equal.
  - apply total_ext. intros p Hp%elem_of_upto. apply (Hf (VY p q)). done.
  - change (upto (A * A)) with (seqZ 0 (A * A)). rewrite (total_grid (fun j => f (A * A + A * Q + (q * (A * A) + j))) A A 0) by lia.
    rewrite total_swap. apply total_ext. intros p Hp%elem_of_upto. apply total_ext. intros a Ha%elem_of_upto.
    etransitivity; [|by apply (Hf (VZ a p q))]. f_equal. cbn [place]. unfold z. cbn [z_offset env_A env_P env_of]. lia.
Qed.

Lemma length_loop {T} (f : Z -> list T) n k : 0 <= n -> (forall i, i ∈ upto n -> Z.of_nat (length (f i)) = k) -> Z.of_nat (length (upto n ≫= f)) = n * k.
Proof.
  intros Hn Hf. rewrite <- (length_upto n Hn) at 2. revert Hf. generalize (upto n). intros l Hf. induction l as [|i l IH]; [done|].
  cbn [mbind list_bind length]. rewrite length_app, Nat2Z.inj_add, IH, Hf by (intros; try apply Hf; set_solver). lia.
Qed.

(** As many names as variables. *)
Lemma name_variables_ok : exists vname, name_variables e = Ret vname /\ Z.of_nat (length vname) = num_vars e.
Proof.
  unfold name_variables. cbn [env_A env_P env_Q env_of]. set (vname := _ ++ _ ++ _ ++ _). assert (Z.of_nat (length vname) = num_vars e) as Hl.
  { unfold vname. rewrite !length_app, !Nat2Z.inj_add. cbn [num_vars env_of].
    rewrite (length_loop _ A A) by (lia || (intros; by rewrite (length_loop _ A 1) by (lia || done); lia)).
    rewrite (length_loop _ A Q) by (lia || (intros; by rewrite (length_loop _ Q 1) by (lia || done); lia)).
    rewrite (length_loop _ A (A * Q)) by (lia || (intros; rewrite (length_loop _ A Q) by (lia || (intros; rewrite (length_loop _ Q 1) by (lia || done); lia)); lia)).
    rewrite (length_loop _ A 1) by (lia || done). lia. }
  exists vname. split; [|done]. rewrite Hl, Z.eqb_refl. done.
Qed.
End Programs.

(** ** Reading the solution *)

(** The assignment of a solution. *)
Definition bits_of (sol : list double) (i : Z) : bool :=
  match sol !! Z.to_nat i with Some v => deqb v dunit | None => false end.

(** The attributes of the [p]-th partition. *)
Definition slot (A Q : Z) (b : Z -> bool) (p : Z) : Partition := Z.to_nat <$> filter (fun a => b (x (env_of A A Q) a p) = true) (upto A).

Definition nonempty (ps : Partitions) : Partitions := filter (fun part => part <> []) ps.

Section Reading.
Context (workload : QueryWorkload) (A Q : Z) (HA : 1 <= A) (HQ : 0 <= Q).
#[local] Abbreviation e := (env_of A A Q).
Context (Hattrs : qw_attributes_ workload = seq 0 (Z.to_nat A)).
Context (sol : list double) (Hsol : Z.of_nat (length sol) = num_vars e).
#[local] Abbreviation b := (bits_of sol).

Lemma slot_NoDup p : NoDup (slot A Q b p).
Proof.
  unfold slot. apply NoDup_fmap_2_strong; [|apply NoDup_filter, NoDup_seqZ]. intros i j Hi Hj E.
  rewrite list_elem_of_filter, elem_of_upto in Hi. rewrite list_elem_of_filter, elem_of_upto in Hj. lia.
Qed.

Lemma elem_of_slot p a : a ∈ slot A Q b p <-> (a < Z.to_nat A)%nat /\ b (x e (Z.of_nat a) p) = true.
Proof.
  unfold slot. rewrite list_elem_of_fmap. setoid_rewrite list_elem_of_filter. setoid_rewrite elem_of_upto. split.
  - intros (i & -> & Hb & Hi). rewrite Z2Nat.id by lia. split; [lia|done].
  - intros [Hl Hb]. exists (Z.of_nat a). split; [by rewrite Nat2Z.id|]. split; [done|lia].
Qed.

Lemma read_partition_ok p : 0 <= p < A -> read_partition workload e sol p = Ret (slot A Q b p).
Proof.
  intros Hp. unfold read_partition, slot. cbn [env_A env_of].
  assert (forall l acc, (forall a, a ∈ l -> 0 <= a < A) -> NoDup (acc ++ (Z.to_nat <$> l)) ->
    foldM (fun partition a => v ← or_undefined (sol !! Z.to_nat (x e a p));
      if deqb v dunit then attribute ← or_throw out_of_range (qw_attributes_ workload !! Z.to_nat a); Ret (addAttribute attribute partition)
      else Ret partition) acc l = Ret (acc ++ (Z.to_nat <$> filter (fun a => b (x e a p) = true) l))) as Hg.
  { induction l as [|a l IH]; intros acc Hl Hnd; cbn [foldM]; [by rewrite app_nil_r|]. assert (0 <= a < A) as Ha by (apply Hl; left).
    pose proof (index_bounds A A Q ltac:(lia) ltac:(lia) HQ (VX a p) (conj Ha Hp)) as Hi. cbn [place] in Hi.
    destruct (lookup_lt_is_Some_2 sol (Z.to_nat (x e a p))) as [v Hv]; [lia|]. rewrite Hv. cbn [or_undefined mbind outcome_bind].
    rewrite filter_cons. assert (b (x e a p) = deqb v dunit) as -> by (unfold bits_of; by rewrite Hv).
    cbn [fmap list_fmap] in Hnd. destruct (deqb v dunit) eqn:Ed.
    - rewrite decide_True by done. assert (qw_attributes_ workload !! Z.to_nat a = Some (Z.to_nat a)) as -> by (rewrite Hattrs; apply lookup_seq_lt; lia).
      cbn [or_throw mbind outcome_bind fmap list_fmap].
      assert (addAttribute (Z.to_nat a) acc = acc ++ [Z.to_nat a]) as ->.
      { unfold addAttribute, set_add. rewrite decide_False; [done|]. intros Hin. apply NoDup_app in Hnd as (_ & Hd & _). apply (Hd _ Hin). left. }
      rewrite IH; [by rewrite <- app_assoc|intros; apply Hl; by right|by rewrite <- app_assoc].
    - rewrite decide_False by done. apply IH; [intros; apply Hl; by right|].
      apply NoDup_app in Hnd as (H1 & H2 & [_ H3]%NoDup_cons). apply NoDup_app. split_and!; [done| |done]. intros k Hk1 Hk2. apply (H2 k Hk1). by right. }
  apply (Hg _ []); [by intros a Ha%elem_of_upto|]. cbn [app]. apply NoDup_fmap_2_strong; [|apply NoDup_seqZ].
  intros i j Hi%elem_of_upto Hj%elem_of_upto E. lia.
Qed.

Lemma read_partitioning_ok : read_partitioning workload e sol = Ret (nonempty (slot A Q b <$> upto A)).
Proof.
  unfold read_partitioning, nonempty. cbn [env_P env_of].
  assert (forall l acc, (forall p, p ∈ l -> 0 <= p < A) ->
    foldM (fun partitioning p => partition ← read_partition workload e sol p;
      Ret (if (0 <? numAttributes partition)%nat then addPartition partition partitioning else partitioning)) acc l =
    Ret (acc ++ filter (fun part => part <> []) (slot A Q b <$> l))) as Hg; [|apply (Hg _ []); by intros p Hp%elem_of_upto].
  induction l as [|p l IH]; intros acc Hl; cbn [foldM]; [by rewrite app_nil_r|].
  rewrite read_partition_ok by (apply Hl; left). cbn [mbind outcome_bind fmap list_fmap]. rewrite IH by (intros; apply Hl; by right).
  rewrite filter_cons. unfold numAttributes. destruct (slot A Q b p) as [|a part] eqn:E.
  - rewrite decide_False by (intros Hn; by apply Hn). done.
  - rewrite decide_True by done. cbn [length Nat.ltb Nat.leb]. unfold addPartition. by rewrite <- app_assoc.
Qed.
End Reading.
