(* ===== verification/OptimalPartitions.v ===== *)
(** * The ILP optimizers and partitionings

    The 0/1 assignments of Optimal.v and the partitionings they stand for: the
    storage and the objective of an assignment in terms of its partitions,
    and the assignment of a given partitioning. *)

From Stdlib Require Import ZArith Lia.
From stdpp Require Import base numbers gmap strings list sorting pretty.
From S2P Require Import Prelude.
From S2P Require Import Double.
From S2P Require Import Schema.
From S2P Require Import MetaData.
From S2P Require Import Workload.
From S2P Require Import Partitions.
From S2P Require Import Optimal.
From S2P Require Import OptimalEncoding.

Lemma total_Permutation {T} (f : T -> Z) l k : l ≡ₚ k -> total f l = total f k.
Proof. induction 1 as [|i l k _ IH|i j l|l1 l2 l3 _ IH1 _ IH2]; [done| | |by rewrite IH1]; rewrite !total_cons; [by rewrite IH|lia]. Qed.

Lemma total_filter_zero {T} (f : T -> Z) (Pr : T -> Prop) `{forall i, Decision (Pr i)} l :
  (forall i, i ∈ l -> ~ Pr i -> f i = 0) -> total f (filter Pr l) = total f l.
Proof.
  induction l as [|i l IH]; intros Hz; [done|]. rewrite filter_cons, total_cons. assert (total f (filter Pr l) = total f l) as E by (apply IH; intros j Hj; apply Hz; by right).
  case_decide; [by rewrite total_cons, E|]. rewrite E, (Hz i); [done|left|done].
Qed.

(** The elements of a list by position. *)
Lemma total_nth {T} (f : Z -> T -> Z) d (l : list T) : total (fun p => f p (nth (Z.to_nat p) l d)) (upto (Z.of_nat (length l))) = total (fun ip => f (Z.of_nat ip.1) ip.2) (imap pair l).
Proof.
  induction l as [|v l IH] using rev_ind; [done|]. rewrite length_app, Nat2Z.inj_add. cbn [length]. unfold upto in *. rewrite seqZ_app, total_app by lia.
  rewrite imap_app, total_app. f_equal.
  - rewrite <- IH. apply total_ext. intros p Hp%elem_of_seqZ. by rewrite app_nth1 by lia.
  - change (seqZ (0 + Z.of_nat (length l)) (Z.of_nat 1)) with [0 + Z.of_nat (length l)]. cbn [imap]. rewrite !total_cons, !total_nil. cbn [fst snd].
    rewrite Z.add_0_l, Nat2Z.id, Nat.add_0_r. by rewrite app_nth2, Nat.sub_diag by lia.
Qed.

Lemma finite_choice {T} (Rel : Z -> T -> Prop) (d : T) (l : list Z) : (forall i, i ∈ l -> exists t, Rel i t) -> exists f, forall i, i ∈ l -> Rel i (f i).
Proof.
  induction l as [|i l IH]; intros Hl; [exists (fun _ => d); by intros i []%elem_of_nil|].
  destruct IH as [f Hf]; [intros j Hj; apply Hl; by right|]. destruct (Hl i) as [t Ht]; [left|].
  exists (fun j => if decide (j = i) then t else f j). intros j Hj. case_decide as Hd; [by subst|]. apply Hf. by apply elem_of_cons in Hj as [?|?].
Qed.

Lemma filter_ext_in {T} (P1 P2 : T -> Prop) `{forall i, Decision (P1 i)} `{forall i, Decision (P2 i)} (l : list T) :
  (forall i, i ∈ l -> P1 i <-> P2 i) -> filter P1 l = filter P2 l.
Proof.
  induction l as [|i l IH]; intros Hl; [done|]. rewrite !filter_cons, IH by (intros; apply Hl; by right). assert (P1 i <-> P2 i) as Hi by (apply Hl; left).
  destruct (decide (P1 i)), (decide (P2 i)); tauto.
Qed.

Lemma concat_unique {T} (ls : list (list T)) i j l k v : NoDup (concat ls) -> ls !! i = Some l -> ls !! j = Some k -> v ∈ l -> v ∈ k -> i = j.
Proof.
  revert i j. induction ls as [|l0 ls IH]; intros i j Hnd Hi Hj Hvl Hvk; [done|]. cbn in Hnd. apply NoDup_app in Hnd as (_ & Hd & Hnd).
  assert (forall n m, ls !! n = Some m -> v ∈ m -> v ∈ concat ls) as Hin.
  { intros n m Hm Hv. apply list_elem_of_In, in_concat. exists m. split; apply list_elem_of_In; [by eapply list_elem_of_lookup_2|done]. }
  destruct i as [|i], j as [|j]; cbn in Hi, Hj; [done| | |f_equal; by apply IH].
  - injection Hi as <-. destruct (Hd v Hvl). by eapply Hin.
  - injection Hj as <-. destruct (Hd v Hvk). by eapply Hin.
Qed.

(** A selection of the elements of a list. *)
Definition selection {T} (m : nat -> bool) (l : list T) : list T := snd <$> filter (fun ip => m ip.1 = true) (imap pair l).

Lemma selection_cons {T} (m : nat -> bool) (v : T) l :
  selection m (v :: l) = if m 0%nat then v :: selection (fun i => m (S i)) l else selection (fun i => m (S i)) l.
Proof.
  unfold selection. cbn [imap]. rewrite filter_cons. cbn [fst].
  assert (snd <$> filter (fun ip => m ip.1 = true) (imap (pair ∘ S) l) = snd <$> filter (fun ip => m (S ip.1) = true) (imap pair l)) as E.
  { assert (imap (pair ∘ S) l = (fun ip : nat * T => (S ip.1, ip.2)) <$> imap pair l) as ->.
    { apply list_eq. intros k. rewrite list_lookup_fmap, !list_lookup_imap. by destruct (l !! k). }
    generalize (imap pair l). intros k. induction k as [|[i w] k IH]; [done|]. cbn [fmap list_fmap]. rewrite !filter_cons. cbn [fst].
    case_decide; [cbn; by f_equal|done]. }
  destruct (m 0%nat).
  - rewrite decide_True by done. cbn [fmap list_fmap snd]. f_equal. exact E.
  - rewrite decide_False by done. exact E.
Qed.

Lemma sublist_selection {T} (l k : list T) : l `sublist_of` k -> exists m, l = selection m k.
Proof.
  induction 1 as [|v l k _ [m ->]|v l k _ [m ->]]; [by exists (fun _ => false)| |].
  - exists (fun i => match i with O => true | S i => m i end). by rewrite selection_cons.
  - exists (fun i => match i with O => false | S i => m i end). by rewrite selection_cons.
Qed.

Lemma total_selection {T} (f : T -> Z) m l : total (fun ip => f ip.2 * bit (m ip.1)) (imap pair l) = total f (selection m l).
Proof. unfold selection. rewrite total_fmap. apply (bits_filter (fun ip : nat * T => m ip.1) (fun ip => f ip.2)). Qed.

Section Partitionings.
Context (A Q : Z) (HA : 1 <= A) (HQ : 0 <= Q).
#[local] Abbreviation e := (env_of A A Q).
Context (avg freq : Z -> double) (acc : Z -> Z -> bool).

(** ** The bytes of a partition *)

(** In a block, and read by a query as often as it is seen. *)
Definition part_storage (part : Partition) : Z :=
  exact_value block_overhead + total (fun a => exact_value (attribute_bytes avg (Z.of_nat a))) part.

Definition part_cost (q : Z) (part : Partition) : Z :=
  exact_value (read_bytes freq q) + total (fun a => exact_value (read_attribute_bytes avg freq (Z.of_nat a) q)) part.

Definition storage_of (ps : Partitions) : Z := total part_storage ps.
Definition read_cost (reads : Z -> Partitions) : Z := total (fun q => total (part_cost q) (reads q)) (upto Q).

Section Assignment.
Context (b : Z -> bool).
#[local] Abbreviation part := (slot A Q b).

Lemma total_slot (f : Z -> Z) p : total (fun a => f a * bit (b (x e a p))) (upto A) = total (fun a => f (Z.of_nat a)) (part p).
Proof.
  rewrite (bits_filter (fun a => b (x e a p)) f). unfold slot. rewrite total_fmap. apply total_ext. intros a Ha.
  rewrite list_elem_of_filter, elem_of_upto in Ha. by rewrite Z2Nat.id by lia.
Qed.

Lemma slot_empty p : part p = [] <-> forall a, 0 <= a < A -> b (x e a p) = false.
Proof.
  unfold slot. split.
  - intros E a Ha. destruct (b (x e a p)) eqn:Eb; [|done].
    assert (a ∈ filter (fun a => b (x e a p) = true) (upto A)) as Hin by (rewrite list_elem_of_filter, elem_of_upto; done).
    apply (list_elem_of_fmap_2 Z.to_nat) in Hin. rewrite E in Hin. by apply elem_of_nil in Hin.
  - intros Hno. assert (filter (fun a => b (x e a p) = true) (upto A) = []) as ->; [|done].
    destruct (filter _ (upto A)) as [|a l] eqn:E; [done|]. assert (a ∈ filter (fun a => b (x e a p) = true) (upto A)) as Hin by (rewrite E; left).
    rewrite list_elem_of_filter, elem_of_upto in Hin. destruct Hin as [Hb Ha]. by rewrite Hno in Hb.
Qed.

(** The variables [u] mark the partitions that have attributes. *)
Lemma used_slot : (forall p, 0 <= p < A -> b (u e p) = true -> exists a, 0 <= a < A /\ b (x e a p) = true) ->
  (forall a p, 0 <= a < A -> 0 <= p < A -> b (x e a p) = true -> b (u e p) = true) ->
  forall p, 0 <= p < A -> b (u e p) = negb (bool_decide (part p = [])).
Proof.
  intros Hux Hxu p Hp. case_bool_decide as Hd; cbn.
  - rewrite slot_empty in Hd. apply not_true_iff_false. intros Hu. destruct (Hux p Hp Hu) as (a & Ha & Hb). by rewrite Hd in Hb.
  - destruct (b (u e p)) eqn:Eu; [done|]. destruct Hd. apply slot_empty. intros a Ha. apply not_true_iff_false. intros Hb. by rewrite (Hxu a p Ha Hp Hb) in Eu.
Qed.

Lemma storage_slots : (forall p, 0 <= p < A -> b (u e p) = negb (bool_decide (part p = []))) ->
  storage_value A Q avg b = storage_of (nonempty (part <$> upto A)).
Proof.
  intros Hu. unfold storage_value, storage_of, nonempty. rewrite <- total_add.
  transitivity (total (fun ps => if bool_decide (ps = []) then 0 else part_storage ps) (part <$> upto A)).
  - rewrite total_fmap. apply total_ext. intros p Hp%elem_of_upto. rewrite (Hu p Hp), (total_slot (fun a => exact_value (attribute_bytes avg a))).
    case_bool_decide as Hd; [rewrite Hd; unfold total; cbn; lia|]. cbn [negb bit]. unfold part_storage. lia.
  - generalize (part <$> upto A). intros l. induction l as [|ps l IH]; [done|]. rewrite total_cons, filter_cons, IH.
    case_bool_decide as Hd; [rewrite decide_False by tauto|rewrite decide_True by done; rewrite total_cons]; lia.
Qed.

(** The partitions a query reads. *)
Definition reads_of (q : Z) : Partitions := part <$> filter (fun p => b (y e p q) = true) (upto A).

Lemma objective_slots : (forall a p q, 0 <= a < A -> 0 <= p < A -> 0 <= q < Q -> b (z e a p q) = b (x e a p) && b (y e p q)) ->
  total (fun q => total (fun p => exact_value (read_bytes freq q) * bit (b (y e p q)) +
    total (fun a => exact_value (read_attribute_bytes avg freq a q) * bit (b (z e a p q))) (upto A)) (upto A)) (upto Q) = read_cost reads_of.
Proof.
  intros Hz. apply total_ext. intros q Hq%elem_of_upto. unfold reads_of. rewrite total_fmap, <- (bits_filter (fun p => b (y e p q)) (fun p => part_cost q (part p))).
  apply total_ext. intros p Hp%elem_of_upto. unfold part_cost. rewrite <- (total_slot (fun a => exact_value (read_attribute_bytes avg freq a q))).
  assert (total (fun a => exact_value (read_attribute_bytes avg freq a q) * bit (b (z e a p q))) (upto A) =
    bit (b (y e p q)) * total (fun a => exact_value (read_attribute_bytes avg freq a q) * bit (b (x e a p))) (upto A)) as ->; [|lia].
  rewrite <- total_mul. apply total_ext. intros a Ha%elem_of_upto. rewrite Hz by done. destruct (b (x e a p)), (b (y e p q)); cbn; lia.
Qed.

(** When a variable [z] may be more than the others ask for, the objective is
    at least this cost. *)
Lemma objective_slots_le : (forall a p q, 0 <= a < A -> 0 <= p < A -> 0 <= q < Q -> b (x e a p) = true -> b (y e p q) = true -> b (z e a p q) = true) ->
  (forall a q, 0 <= a < A -> 0 <= q < Q -> 0 <= exact_value (read_attribute_bytes avg freq a q)) ->
  read_cost reads_of <= total (fun q => total (fun p => exact_value (read_bytes freq q) * bit (b (y e p q)) +
    total (fun a => exact_value (read_attribute_bytes avg freq a q) * bit (b (z e a p q))) (upto A)) (upto A)) (upto Q).
Proof.
  intros Hz Hpos. apply total_le. intros q Hq%elem_of_upto. unfold reads_of. rewrite total_fmap, <- (bits_filter (fun p => b (y e p q)) (fun p => part_cost q (part p))).
  apply total_le. intros p Hp%elem_of_upto. unfold part_cost. rewrite <- (total_slot (fun a => exact_value (read_attribute_bytes avg freq a q))).
  assert (bit (b (y e p q)) * total (fun a => exact_value (read_attribute_bytes avg freq a q) * bit (b (x e a p))) (upto A) <=
    total (fun a => exact_value (read_attribute_bytes avg freq a q) * bit (b (z e a p q))) (upto A)); [|lia].
  rewrite <- total_mul. apply total_le. intros a Ha%elem_of_upto. specialize (Hpos a q Ha Hq). specialize (Hz a p q Ha Hp Hq).
  destruct (b (x e a p)), (b (y e p q)), (b (z e a p q)); cbn [bit]; lia.
Qed.
End Assignment.

(** ** The assignment of a partitioning *)

Section Candidate.
(** The partitions, at most as many as attributes, and the ones each query
    reads. *)
Context (ps : Partitions) (read : Z -> nat -> bool) (Hlen : Z.of_nat (length ps) <= A).
Context (Hps : Forall (fun part => part <> [] /\ NoDup part /\ part ⊆ seq 0 (Z.to_nat A)) ps).

Definition part_at (p : Z) : Partition := nth (Z.to_nat p) ps [].

Definition assignment (i : Z) : bool :=
  match var_of A A Q i with
  | VX a p => bool_decide (Z.to_nat a ∈ part_at p)
  | VY p q => (Z.to_nat p <? length ps)%nat && read q (Z.to_nat p)
  | VZ a p q => bool_decide (Z.to_nat a ∈ part_at p) && ((Z.to_nat p <? length ps)%nat && read q (Z.to_nat p))
  | VU p => negb (bool_decide (part_at p = []))
  end.

Lemma assignment_x a p : 0 <= a < A -> 0 <= p < A -> assignment (x e a p) = bool_decide (Z.to_nat a ∈ part_at p).
Proof.
  intros Ha Hp. change (x e a p) with (place A A Q (VX a p)). unfold assignment.
  by destruct (var_of_place A A Q ltac:(lia) ltac:(lia) HQ (VX a p) (conj Ha Hp)) as [-> _].
Qed.
Lemma assignment_y p q : 0 <= p < A -> 0 <= q < Q -> assignment (y e p q) = (Z.to_nat p <? length ps)%nat && read q (Z.to_nat p).
Proof.
  intros Hp Hq. change (y e p q) with (place A A Q (VY p q)). unfold assignment.
  by destruct (var_of_place A A Q ltac:(lia) ltac:(lia) HQ (VY p q) (conj Hp Hq)) as [-> _].
Qed.
Lemma assignment_z a p q : 0 <= a < A -> 0 <= p < A -> 0 <= q < Q -> assignment (z e a p q) = assignment (x e a p) && assignment (y e p q).
Proof.
  intros Ha Hp Hq. rewrite assignment_x, assignment_y by done. change (z e a p q) with (place A A Q (VZ a p q)). unfold assignment.
  by destruct (var_of_place A A Q ltac:(lia) ltac:(lia) HQ (VZ a p q) (conj Ha (conj Hp Hq))) as [-> _].
Qed.
Lemma assignment_u p : 0 <= p < A -> assignment (u e p) = negb (bool_decide (part_at p = [])).
Proof.
  intros Hp. change (u e p) with (place A A Q (VU p)). unfold assignment.
  by destruct (var_of_place A A Q ltac:(lia) ltac:(lia) HQ (VU p) Hp) as [-> _].
Qed.

Lemma part_at_ok p : 0 <= p -> NoDup (part_at p) /\ part_at p ⊆ seq 0 (Z.to_nat A).
Proof.
  intros Hp. unfold part_at. destruct (nth_in_or_default (Z.to_nat p) ps []) as [Hin| ->]; [|split; [constructor|by intros a []%elem_of_nil]].
  rewrite Forall_forall in Hps. by apply Hps, list_elem_of_In.
Qed.

Lemma slot_assignment p : 0 <= p < A -> slot A Q assignment p ≡ₚ part_at p.
Proof.
  intros Hp. destruct (part_at_ok p ltac:(lia)) as [Hnd Hsub]. apply NoDup_Permutation; [|done|].
  - unfold slot. apply NoDup_fmap_2_strong; [|apply NoDup_filter, NoDup_seqZ]. intros i j Hi Hj E.
    rewrite list_elem_of_filter, elem_of_upto in Hi. rewrite list_elem_of_filter, elem_of_upto in Hj. lia.
  - intros a. unfold slot. rewrite list_elem_of_fmap. setoid_rewrite list_elem_of_filter. setoid_rewrite elem_of_upto. split.
    + intros (i & -> & Hb & Hi). rewrite assignment_x in Hb by done. by apply bool_decide_eq_true in Hb.
    + intros Ha. pose proof (Hsub a Ha) as Hr. rewrite elem_of_seq in Hr. exists (Z.of_nat a). rewrite assignment_x by lia. rewrite Nat2Z.id.
      split; [done|]. split; [by apply bool_decide_eq_true|lia].
Qed.

Lemma assignment_used p : 0 <= p < A -> assignment (u e p) = negb (bool_decide (slot A Q assignment p = [])).
Proof.
  intros Hp. rewrite assignment_u by done. f_equal. apply bool_decide_ext. pose proof (slot_assignment p Hp) as Hs. split; intros E.
  - rewrite E in Hs. by apply Permutation_nil_r in Hs.
  - rewrite E in Hs. by apply Permutation_nil_l in Hs.
Qed.

(** Sums over the places are sums over the partitions. *)
Lemma total_parts (f : Partition -> Z) (m : nat -> bool) : (forall l k, l ≡ₚ k -> f l = f k) ->
  total f (slot A Q assignment <$> filter (fun p => (Z.to_nat p <? length ps)%nat && m (Z.to_nat p) = true) (upto A)) = total f (selection m ps).
Proof.
  intros Hf. rewrite total_fmap, <- (bits_filter (fun p => (Z.to_nat p <? length ps)%nat && m (Z.to_nat p)) (fun p => f (slot A Q assignment p))), <- total_selection.
  transitivity (total (fun p => f (nth (Z.to_nat p) ps []) * bit (m (Z.to_nat p))) (upto (Z.of_nat (length ps)))).
  - assert (upto A = upto (Z.of_nat (length ps)) ++ seqZ (0 + Z.of_nat (length ps)) (A - Z.of_nat (length ps))) as ->.
    { unfold upto. rewrite <- seqZ_app by lia. f_equal. lia. }
    rewrite total_app, (total_zero _ (seqZ (0 + _) _)).
    + rewrite Z.add_0_r. apply total_ext. intros p Hp%elem_of_upto. rewrite (proj2 (Nat.ltb_lt _ _)) by lia. cbn [andb].
      by rewrite (Hf _ _ (slot_assignment p ltac:(lia))).
    + intros p Hp%elem_of_seqZ. rewrite (proj2 (Nat.ltb_ge _ _)) by lia. cbn. lia.
  - rewrite (total_nth (fun p part => f part * bit (m (Z.to_nat p))) []). apply total_ext. intros ip _. by rewrite Nat2Z.id.
Qed.

Lemma total_all (f : Partition -> Z) : (forall l k, l ≡ₚ k -> f l = f k) -> f [] = 0 -> total f (slot A Q assignment <$> upto A) = total f ps.
Proof.
  intros Hf H0. rewrite total_fmap. transitivity (total (fun p => f (nth (Z.to_nat p) ps [])) (upto (Z.of_nat (length ps)))).
  - assert (upto A = upto (Z.of_nat (length ps)) ++ seqZ (0 + Z.of_nat (length ps)) (A - Z.of_nat (length ps))) as ->.
    { unfold upto. rewrite <- seqZ_app by lia. f_equal. lia. }
    rewrite total_app, (total_zero _ (seqZ (0 + _) _)).
    + rewrite Z.add_0_r. apply total_ext. intros p Hp%elem_of_upto. apply Hf, slot_assignment. lia.
    + intros p Hp%elem_of_seqZ. rewrite (Hf _ _ (slot_assignment p ltac:(lia))). unfold part_at. by rewrite nth_overflow by lia.
  - rewrite (total_nth (fun _ part => f part) []), <- total_fmap. f_equal. apply list_eq. intros k.
    rewrite list_lookup_fmap, list_lookup_imap. by destruct (ps !! k).
Qed.

Lemma storage_perm l k : l ≡ₚ k -> part_storage l = part_storage k.
Proof. intros Hp. unfold part_storage. by rewrite (total_Permutation _ _ _ Hp). Qed.

Lemma cost_perm q l k : l ≡ₚ k -> part_cost q l = part_cost q k.
Proof. intros Hp. unfold part_cost. by rewrite (total_Permutation _ _ _ Hp). Qed.

(** Its cost is that of the partitions it reads. *)
Lemma assignment_cost : read_cost (reads_of assignment) = read_cost (fun q => selection (read q) ps).
Proof.
  unfold read_cost. apply total_ext. intros q Hq%elem_of_upto. rewrite <- (total_parts (part_cost q) (read q) (cost_perm q)). unfold reads_of. do 2 f_equal.
  apply filter_ext_in. intros p Hp%elem_of_upto. by rewrite assignment_y.
Qed.

Lemma assignment_storage : storage_value A Q avg assignment = storage_of ps.
Proof.
  rewrite storage_slots by apply assignment_used. unfold storage_of, nonempty.
  transitivity (total (fun part => if bool_decide (part = []) then 0 else part_storage part) (slot A Q assignment <$> upto A)).
  - generalize (slot A Q assignment <$> upto A). intros l. induction l as [|part l IH]; [done|]. rewrite total_cons, filter_cons, <- IH.
    case_bool_decide as Hd; [rewrite decide_False by tauto|rewrite decide_True by done; rewrite total_cons]; lia.
  - rewrite total_all; [|intros l k Hp|done].
    + apply total_ext. intros part Hin. rewrite Forall_forall in Hps. destruct (Hps part Hin) as (Hne & _). by rewrite bool_decide_eq_false_2.
    + rewrite (storage_perm _ _ Hp). assert (l = [] <-> k = []) as Hlk by (split; intros ->; [by apply Permutation_nil_l in Hp|by apply Permutation_nil_r in Hp]).
      by rewrite (bool_decide_ext _ _ Hlk).
Qed.

Lemma assignment_count : total (fun p => bit (assignment (u e p))) (upto A) = Z.of_nat (length ps).
Proof.
  transitivity (total (fun part => bit (negb (bool_decide (part = [])))) (slot A Q assignment <$> upto A)).
  - rewrite total_fmap. apply total_ext. intros p Hp%elem_of_upto. by rewrite assignment_used.
  - rewrite total_all; [|intros l k Hp|done].
    + assert (Forall (fun part => part <> []) ps) as Hne by (eapply Forall_impl; [exact Hps|by intros part (? & _)]). revert Hne. clear. induction 1 as [|part l Hne _ IH]; [done|].
      rewrite total_cons, IH. assert (bool_decide (part = []) = false) as -> by by apply bool_decide_eq_false_2. cbn [negb bit length]. lia.
    + do 2 f_equal. apply bool_decide_ext. split; intros ->; [by apply Permutation_nil_l in Hp|by apply Permutation_nil_r in Hp].
Qed.

(** The partition at a place. *)
Lemma part_at_lookup p part : 0 <= p -> ps !! Z.to_nat p = Some part -> part_at p = part.
Proof. intros Hp Hl. unfold part_at. by apply nth_lookup_Some. Qed.

Lemma place_of_part i part : ps !! i = Some part -> 0 <= Z.of_nat i < A /\ part_at (Z.of_nat i) = part.
Proof. intros Hl. pose proof (lookup_lt_Some _ _ _ Hl). split; [lia|]. apply part_at_lookup; [lia|by rewrite Nat2Z.id]. Qed.

Lemma assignment_y_part p q : 0 <= p < A -> 0 <= q < Q -> assignment (y e p q) = true ->
  exists part, ps !! Z.to_nat p = Some part /\ part_at p = part /\ read q (Z.to_nat p) = true.
Proof.
  intros Hp Hq. rewrite assignment_y by done. intros [Hl%Nat.ltb_lt Hr]%andb_true_iff. destruct (lookup_lt_is_Some_2 _ _ Hl) as [part Hpart].
  exists part. split_and!; [done|by apply part_at_lookup; [lia|]|done].
Qed.

Lemma assignment_ux p : 0 <= p < A -> assignment (u e p) = true -> exists a, 0 <= a < A /\ assignment (x e a p) = true.
Proof.
  intros Hp Hu. rewrite assignment_used in Hu by done. apply negb_true_iff, bool_decide_eq_false in Hu.
  destruct (slot A Q assignment p) as [|a l] eqn:E; [done|]. assert (a ∈ slot A Q assignment p) as Hin by (rewrite E; left).
  unfold slot in Hin. apply list_elem_of_fmap in Hin as (i & _ & Hi). rewrite list_elem_of_filter, elem_of_upto in Hi. destruct Hi as [Hb Hi]. by exists i.
Qed.

Lemma assignment_xu a p : 0 <= a < A -> 0 <= p < A -> assignment (x e a p) = true -> assignment (u e p) = true.
Proof.
  intros Ha Hp Hb. rewrite assignment_x in Hb by done. rewrite assignment_u by done. apply bool_decide_eq_true in Hb.
  apply negb_true_iff, bool_decide_eq_false. intros E. rewrite E in Hb. by apply elem_of_nil in Hb.
Qed.

(** A covering partitioning with enough of it read for every query, within the
    limit. *)
Lemma assignment_overlapping limit :
  (forall a, 0 <= a < A -> exists part, part ∈ ps /\ Z.to_nat a ∈ part) ->
  (forall q a, 0 <= q < Q -> 0 <= a < A -> acc q a = true -> exists part, part ∈ selection (read q) ps /\ Z.to_nat a ∈ part) ->
  storage_of ps <= exact_value limit -> overlapping_says A Q avg acc limit 0 assignment.
Proof.
  intros Hcov Hread Hlim. split.
  - intros a Ha. destruct (Hcov a Ha) as (part & [i Hi]%list_elem_of_lookup & Hin). destruct (place_of_part i part Hi) as [Hp Ep].
    exists (Z.of_nat i). split; [done|]. rewrite assignment_x by done. apply bool_decide_eq_true. by rewrite Ep.
  - intros a q Ha Hq Hacc. destruct (Hread q a Hq Ha Hacc) as (part & Hsel & Hin). unfold selection in Hsel.
    apply list_elem_of_fmap in Hsel as ([i part'] & -> & Hsel). rewrite list_elem_of_filter in Hsel. destruct Hsel as [Hr Hi]. cbn [fst snd] in *.
    apply elem_of_lookup_imap in Hi as (k & part & [= -> ->] & Hk). destruct (place_of_part k part Hk) as [Hp Ep].
    exists (Z.of_nat k). split; [done|]. rewrite assignment_z, assignment_x, assignment_y by done. rewrite Ep, Nat2Z.id, Hr.
    rewrite bool_decide_eq_true_2 by done. rewrite (proj2 (Nat.ltb_lt _ _)) by (by eapply lookup_lt_Some). done.
  - intros a p q Ha Hp Hq. rewrite assignment_z by done. by intros [? _]%andb_true_iff.
  - intros p q Hp Hq Hy. destruct (assignment_y_part p q Hp Hq Hy) as (part & Hl & Ep & _).
    rewrite Forall_forall in Hps. destruct (Hps part) as (Hne & _ & Hsub); [by eapply list_elem_of_lookup_2|]. destruct part as [|a part]; [done|].
    assert (a ∈ seq 0 (Z.to_nat A)) as Ha%elem_of_seq by (apply Hsub; left). exists (Z.of_nat a). split; [lia|].
    rewrite assignment_z, Hy, assignment_x by lia. rewrite Ep, Nat2Z.id, bool_decide_eq_true_2 by left. done.
  - intros a p q Ha Hp Hq. rewrite assignment_z by done. by intros [_ ?]%andb_true_iff.
  - intros a p q Ha Hp Hq Hx Hy. by rewrite assignment_z, Hx, Hy by done.
  - apply assignment_ux.
  - apply assignment_xu.
  - rewrite assignment_storage. lia.
Qed.

(** A partition of the attributes of which every query reads the parts it
    needs. *)
Lemma assignment_nonoverlapping limit :
  concat ps ≡ₚ seq 0 (Z.to_nat A) ->
  (forall q i part, 0 <= q < Q -> ps !! i = Some part -> read q i = true <-> exists a, a ∈ part /\ acc q (Z.of_nat a) = true) ->
  Z.of_nat (length ps) * unity <= exact_value limit -> nonoverlapping_says A Q acc limit 0 assignment.
Proof.
  intros Hcat Hread Hlim. split.
  - intros a Ha. assert (Z.to_nat a ∈ concat ps) as Hin by (rewrite Hcat, elem_of_seq; lia).
    apply list_elem_of_In, in_concat in Hin as (part & Hin%list_elem_of_In & Hap%list_elem_of_In). apply list_elem_of_lookup in Hin as [i Hi].
    destruct (place_of_part i part Hi) as [Hp Ep]. exists (Z.of_nat i). split; [done|]. split.
    { rewrite assignment_x by done. apply bool_decide_eq_true. by rewrite Ep. }
    intros p' Hp' Hb. rewrite assignment_x in Hb by done. apply bool_decide_eq_true in Hb. unfold part_at in Hb.
    destruct (ps !! Z.to_nat p') as [part'|] eqn:El; [|apply lookup_ge_None in El; rewrite nth_overflow in Hb by lia; by apply elem_of_nil in Hb].
    rewrite (nth_lookup_Some _ _ _ _ El) in Hb. enough (i = Z.to_nat p') by lia.
    apply (concat_unique ps i (Z.to_nat p') part part' (Z.to_nat a)); [rewrite Hcat; apply NoDup_seq|done..].
  - intros p q Hp Hq Hy. destruct (assignment_y_part p q Hp Hq Hy) as (part & Hl & Ep & Hr).
    apply (Hread q _ part Hq Hl) in Hr as (a & Ha & Hacc).
    assert (a ∈ seq 0 (Z.to_nat A)) as Hr%elem_of_seq. { rewrite Forall_forall in Hps. apply (Hps part); [by eapply list_elem_of_lookup_2|done]. }
    exists (Z.of_nat a). split; [lia|]. split; [done|]. rewrite assignment_x by lia. rewrite Ep, Nat2Z.id. by apply bool_decide_eq_true.
  - intros a p q Ha Hp Hq Hacc Hx. rewrite assignment_x in Hx by done. apply bool_decide_eq_true in Hx. rewrite assignment_y by done. unfold part_at in Hx.
    destruct (ps !! Z.to_nat p) as [part|] eqn:El; [|apply lookup_ge_None in El; rewrite nth_overflow in Hx by lia; by apply elem_of_nil in Hx].
    rewrite (nth_lookup_Some _ _ _ _ El) in Hx. rewrite (proj2 (Nat.ltb_lt _ _)) by (by eapply lookup_lt_Some).
    apply (Hread q _ part Hq El). exists (Z.to_nat a). by rewrite Z2Nat.id by lia.
  - intros a p q Ha Hp Hq Hx Hy. by rewrite assignment_z, Hx, Hy by done.
  - apply assignment_ux.
  - apply assignment_xu.
  - rewrite assignment_count. lia.
Qed.
End Candidate.
End Partitionings.
