(* ===== verification/OptimalRows.v ===== *)
(** * The arrays of the ILP optimizers

    Every index written to the array [ind] is that of a variable, so the rows
    of both solvers stay within the [num_vars] entries of the model. *)

From Stdlib Require Import ZArith Lia.
From stdpp Require Import base numbers gmap strings list sorting pretty.
From S2P Require Import Prelude.
From S2P Require Import Double.
From S2P Require Import Schema.
From S2P Require Import MetaData.
From S2P Require Import Workload.
From S2P Require Import Partitions.
From S2P Require Import Optimal.
From S2P Require Import OptimalEncoding.

Definition within (n : Z) (r : Row) : Prop := Forall (fun t => 0 <= t.1 < n) (row_terms r).

Lemma collect_Forall {T} (Pr : T -> Prop) n f (r : list T) : collect (upto n) f = Ret r ->
  (forall i r', 0 <= i < n -> f i = Ret r' -> Forall Pr r') -> Forall Pr r.
Proof.
  unfold collect. intros E Hf. assert (forall i r', i ∈ upto n -> f i = Ret r' -> Forall Pr r') as Hl by (intros i r' Hi%elem_of_upto; by apply Hf). clear Hf.
  assert (Forall Pr []) as Hacc by constructor. revert E Hl Hacc. generalize (@nil T). generalize (upto n). intros l. induction l as [|i l IH]; intros acc E Hl Hacc; cbn [foldM] in E.
  - by injection E as <-.
  - destruct (f i) as [r'| | |] eqn:Ei; try done. cbn [mbind outcome_bind] in E. apply IH in E; [done|intros; eapply Hl; [by right|done]|].
    apply Forall_app. split; [done|]. by apply (Hl i); [left|].
Qed.

Section Within.
Context (A Q : Z) (HA : 0 <= A) (HQ : 0 <= Q).
#[local] Abbreviation e := (env_of A A Q).
#[local] Abbreviation fits := (Forall (fun t : Z * double => 0 <= t.1 < num_vars e)).

Lemma row_within numnz entries sense rhs r : row e numnz entries sense rhs = Ret r -> fits entries -> Forall (within (num_vars e)) r.
Proof. unfold row. case_match; [|done]. intros [= <-] Hf. by constructor. Qed.

Lemma x_within a p : 0 <= a < A -> 0 <= p < A -> 0 <= x e a p < num_vars e.
Proof. intros Ha Hp. by apply (index_bounds A A Q HA HA HQ (VX a p)). Qed.
Lemma y_within p q : 0 <= p < A -> 0 <= q < Q -> 0 <= y e p q < num_vars e.
Proof. intros Hp Hq. by apply (index_bounds A A Q HA HA HQ (VY p q)). Qed.
Lemma z_within a p q : 0 <= a < A -> 0 <= p < A -> 0 <= q < Q -> 0 <= z e a p q < num_vars e.
Proof. intros Ha Hp Hq. by apply (index_bounds A A Q HA HA HQ (VZ a p q)). Qed.
Lemma u_within p : 0 <= p < A -> 0 <= u e p < num_vars e.
Proof. intros Hp. by apply (index_bounds A A Q HA HA HQ (VU p)). Qed.

Lemma fits_loop (f : Z -> Z * double) : (forall i, 0 <= i < A -> 0 <= (f i).1 < num_vars e) -> fits (f <$> upto A).
Proof. intros Hf. apply Forall_fmap, Forall_forall. intros i Hi%elem_of_upto. by apply Hf. Qed.

#[local] Hint Resolve x_within y_within z_within u_within : within.
#[local] Ltac entries_fit := repeat first
  [ apply Forall_nil_2 | apply Forall_app_2 | apply Forall_cons_2 | apply fits_loop; intros ]; cbn [fst snd] in *; eauto with within.
#[local] Ltac rows_fit := repeat match goal with
  | E : collect (upto _) _ = Ret ?r |- Forall _ ?r => apply (collect_Forall _ _ _ _ E); clear E; intros
  | E : row _ _ _ _ _ = Ret ?r |- Forall _ ?r => apply (row_within _ _ _ _ _ E); clear E
  | E : Ret _ = Ret ?r |- Forall _ ?r => injection E as <-
  | E : mbind _ _ = Ret ?r |- Forall _ ?r => apply bind_Ret in E as (? & ? & E)
  | |- Forall _ _ => entries_fit
  end.

Lemma overlapping_rows_within base iter stats workload storageThreshold rows :
  overlapping_rows base iter stats workload storageThreshold e = Ret rows -> Forall (within (num_vars e)) rows.
Proof.
  unfold overlapping_rows. cbn [env_A env_P env_Q env_of]. intros E.
  repeat (apply bind_Ret in E as (? & ? & E)). injection E as <-. repeat apply Forall_app_2; rows_fit.
Qed.

Lemma nonoverlapping_rows_within base iter stats workload storageThreshold rows :
  nonoverlapping_rows base iter stats workload storageThreshold e = Ret rows -> Forall (within (num_vars e)) rows.
Proof.
  unfold nonoverlapping_rows. cbn [env_A env_P env_Q env_of]. intros E.
  repeat (apply bind_Ret in E as (? & ? & E)). injection E as <-. repeat apply Forall_app_2; rows_fit.
Qed.
End Within.

