(* ===== verification/OptimalSolve.v ===== *)
(** * What the ILP optimizers return

    The laws of the solver library, and the partitionings the two optimizers
    read off its solutions: they cover the attributes, stay within the storage
    limit, and no admissible partitioning is read with fewer bytes, up to the
    gap the library allows. *)

From Stdlib Require Import ZArith Lia SpecFloat.
From stdpp Require Import base numbers gmap strings list sorting pretty.
From S2P Require Import Prelude.
From S2P Require Import Double.
From S2P Require Import Schema.
From S2P Require Import MetaData.
From S2P Require Import Query.
From S2P Require Import Workload.
From S2P Require Import Partitions.
From S2P Require Import Heuristics.
From S2P Require Import Optimal.
From S2P Require Import OptimalEncoding.
From S2P Require Import OptimalPartitions.
From S2P Require Import OptimalRows.

(** ** The solver *)

Record Program := mkProgram { pg_objective : list double; pg_rows : list Row }.

(** The values are exactly zeros and ones, as the comparison of the code
    expects them. *)
Definition zero_or_one (sol : list double) : Prop := Forall (fun v => deqb v dzero = true \/ deqb v dunit = true) sol.

(** A call that returned no error had its effect on the program of the model.
    A solution of a model with the status [GRB_OPTIMAL] satisfies the rows
    within the feasibility tolerance, which is less than one, and no
    assignment that satisfies them has a smaller objective, up to the gap at
    which the search stops. *)
Class GurobiOk (M : Type) `{Gurobi M} := {
  grb_program : M -> Program;
  grb_tolerance : Z;
  grb_gap : Program -> Z;
  grb_tolerance_ok : 0 <= grb_tolerance < unity;
  grb_new_ok m : GRBnewmodel = (0, m) -> grb_program m = mkProgram [] [];
  grb_addvars_ok vars m m' : GRBaddvars vars m = (0, m') ->
    grb_program m' = mkProgram (pg_objective (grb_program m) ++ vars.*1) (pg_rows (grb_program m));
  grb_minimize_ok m m' : GRBsetminimize m = (0, m') -> grb_program m' = grb_program m;
  grb_update_ok m m' : GRBupdatemodel m = (0, m') -> grb_program m' = grb_program m;
  grb_addconstr_ok r m m' : GRBaddconstr r m = (0, m') ->
    grb_program m' = mkProgram (pg_objective (grb_program m)) (pg_rows (grb_program m) ++ [r]);
  grb_optimize_ok m m' : GRBoptimize m = (0, m') -> grb_program m' = grb_program m;
  grb_solution_ok m sol : GRBgetstatus m = (0, GRB_OPTIMAL) ->
    GRBgetsol (Z.of_nat (length (pg_objective (grb_program m)))) m = (0, sol) ->
    length sol = length (pg_objective (grb_program m)) /\
    (zero_or_one sol -> Forall (holds grb_tolerance (bits_of sol)) (pg_rows (grb_program m)) /\
      forall b, Forall (holds 0 b) (pg_rows (grb_program m)) ->
        objective_value (bits_of sol) (pg_objective (grb_program m)) <= objective_value b (pg_objective (grb_program m)) + grb_gap (grb_program m))
}.

(** A library that works: no call fails, unless an index of a row is not that
    of a variable, and a program with a solution is solved. *)
Record reliable (M : Type) `{GurobiOk M} : Prop := {
  rl_new : fst (GRBnewmodel (M := M)) = 0;
  rl_addvars vars (m : M) : fst (GRBaddvars vars m) = 0;
  rl_minimize (m : M) : fst (GRBsetminimize m) = 0;
  rl_update (m : M) : fst (GRBupdatemodel m) = 0;
  rl_addconstr r (m : M) : within (Z.of_nat (length (pg_objective (grb_program m)))) r -> fst (GRBaddconstr r m) = 0;
  rl_optimize (m : M) : fst (GRBoptimize m) = 0;
  rl_status (m m' : M) b : Forall (within (Z.of_nat (length (pg_objective (grb_program m))))) (pg_rows (grb_program m)) ->
    Forall (holds 0 b) (pg_rows (grb_program m)) -> GRBoptimize m = (0, m') -> GRBgetstatus m' = (0, GRB_OPTIMAL);
  rl_objval (m : M) : fst (GRBgetobjval m) = 0;
  rl_sol n (m : M) : fst (GRBgetsol n m) = 0
}.

Section Solve.
Context {M : Type} `{Gurobi M, !GurobiOk M}.

Lemma checked_Ret (r : Z * M) m : checked r = Ret m <-> r = (0, m).
Proof. unfold checked. destruct r as [k m']. cbn. destruct (Z.eqb_spec k 0) as [->|Hk]; split; congruence. Qed.

Lemma checked_read_Ret {T} (r : Z * T) (m : M) v : checked_read r m = Ret v <-> r = (0, v).
Proof. unfold checked_read. destruct r as [k v']. cbn. destruct (Z.eqb_spec k 0) as [->|Hk]; split; congruence. Qed.

Lemma checked_reliable (r : Z * M) : r.1 = 0 -> exists m, checked r = Ret m /\ r = (0, m).
Proof. destruct r as [k m]. cbn. intros ->. by exists m. Qed.

Lemma add_rows_ok rows : forall m m' : M, foldM (fun m r => checked (GRBaddconstr r m)) m rows = Ret m' ->
  grb_program m' = mkProgram (pg_objective (grb_program m)) (pg_rows (grb_program m) ++ rows).
Proof.
  induction rows as [|r rows IH]; intros m m' E; cbn [foldM] in E.
  - injection E as <-. rewrite app_nil_r. by destruct (grb_program m).
  - apply bind_Ret in E as (m1 & E1%checked_Ret & E2). apply IH in E2. rewrite (grb_addconstr_ok _ _ _ E1) in E2. rewrite E2. cbn. by rewrite <- app_assoc.
Qed.

Lemma add_rows_reliable (Hr : reliable M) rows : forall m : M, Forall (within (Z.of_nat (length (pg_objective (grb_program m))))) rows ->
  exists m', foldM (fun m r => checked (GRBaddconstr r m)) m rows = Ret m'.
Proof.
  induction rows as [|r rows IH]; intros m Hw; cbn [foldM]; [by exists m|]. apply Forall_cons in Hw as [Hw Hws].
  destruct (checked_reliable _ (rl_addconstr _ Hr r m Hw)) as (m1 & -> & E%grb_addconstr_ok). apply IH. by rewrite E.
Qed.

Section Built.
Context (base : list Attribute) (stats : SchemaStats) (workload : QueryWorkload).
Context (e : var_env) (obj : list double) (vname : list string) (constraints : var_env -> outcome (list Row)) (rows : list Row).
Context (Ee : create_env workload = Ret e) (Eobj : objective base stats workload e = Ret obj) (Hobj : Z.of_nat (length obj) = num_vars e).
Context (Ename : name_variables e = Ret vname) (Hname : Z.of_nat (length vname) = num_vars e) (Erows : constraints e = Ret rows).
#[local] Abbreviation built := (mkProgram obj rows).

Lemma zip_objective : (zip obj vname).*1 = obj.
Proof. apply fst_zip. lia. Qed.

(** The program is the one built, and the solution is one of it. *)
Lemma solve_rows_ok e' sol : solve_rows (M := M) base stats workload constraints = Ret (e', sol) ->
  e' = e /\ Z.of_nat (length sol) = num_vars e /\
  (zero_or_one sol -> Forall (holds grb_tolerance (bits_of sol)) rows /\
    forall b, Forall (holds 0 b) rows -> objective_value (bits_of sol) obj <= objective_value b obj + grb_gap built).
Proof.
  unfold solve_rows. rewrite Ee. cbn [mbind outcome_bind]. intros E.
  apply bind_Ret in E as (m1 & E1%checked_Ret & E). rewrite Ename, Eobj in E. cbn [mbind outcome_bind] in E.
  apply bind_Ret in E as (m2 & E2%checked_Ret & E). apply bind_Ret in E as (m3 & E3%checked_Ret & E). apply bind_Ret in E as (m4 & E4%checked_Ret & E).
  rewrite Erows in E. cbn [mbind outcome_bind] in E. apply bind_Ret in E as (m5 & E5%add_rows_ok & E). apply bind_Ret in E as (m6 & E6%checked_Ret & E).
  unfold solve_model in E. apply bind_Ret in E as (sol' & E & [= <- <-]).
  apply bind_Ret in E as (m7 & E7%checked_Ret & E). apply bind_Ret in E as (st & E8%checked_read_Ret & E). destruct st as [| |k]; try done.
  apply bind_Ret in E as (ov & _ & E9%checked_read_Ret).
  assert (grb_program m7 = built) as Ep.
  { rewrite (grb_optimize_ok _ _ E7), (grb_update_ok _ _ E6), E5, (grb_update_ok _ _ E4), (grb_minimize_ok _ _ E3), (grb_addvars_ok _ _ _ E2), (grb_new_ok _ E1).
    cbn. by rewrite zip_objective. }
  pose proof (grb_solution_ok m7 sol' E8) as Hsol. rewrite Ep in Hsol. cbn [pg_objective pg_rows] in Hsol. rewrite Hobj in Hsol.
  destruct (Hsol E9) as [Hlen Hbits]. split; [done|]. split; [lia|]. done.
Qed.

(** A library that works gives one, when there is one. *)
Lemma solve_rows_returns (Hr : reliable M) b : Forall (within (num_vars e)) rows -> Forall (holds 0 b) rows ->
  exists sol, solve_rows (M := M) base stats workload constraints = Ret (e, sol).
Proof.
  intros Hw Hb. unfold solve_rows. rewrite Ee. cbn [mbind outcome_bind].
  destruct (checked_reliable _ (rl_new _ Hr)) as (m1 & -> & E1). cbn [mbind outcome_bind]. rewrite Ename, Eobj. cbn [mbind outcome_bind].
  destruct (checked_reliable _ (rl_addvars _ Hr (zip obj vname) m1)) as (m2 & -> & E2). cbn [mbind outcome_bind].
  destruct (checked_reliable _ (rl_minimize _ Hr m2)) as (m3 & -> & E3). cbn [mbind outcome_bind].
  destruct (checked_reliable _ (rl_update _ Hr m3)) as (m4 & -> & E4). cbn [mbind outcome_bind]. rewrite Erows. cbn [mbind outcome_bind].
  assert (grb_program m4 = mkProgram obj []) as E0.
  { rewrite (grb_update_ok _ _ E4), (grb_minimize_ok _ _ E3), (grb_addvars_ok _ _ _ E2), (grb_new_ok _ E1). cbn. by rewrite zip_objective. }
  destruct (add_rows_reliable Hr rows m4) as (m5 & E5); [rewrite E0; cbn [pg_objective]; by rewrite Hobj|]. rewrite E5. cbn [mbind outcome_bind]. apply add_rows_ok in E5.
  destruct (checked_reliable _ (rl_update _ Hr m5)) as (m6 & -> & E6). cbn [mbind outcome_bind]. unfold solve_model.
  destruct (checked_reliable _ (rl_optimize _ Hr m6)) as (m7 & -> & E7). cbn [mbind outcome_bind].
  assert (grb_program m6 = built) as Ep.
  { by rewrite (grb_update_ok _ _ E6), E5, E0. }
  assert (GRBgetstatus m7 = (0, GRB_OPTIMAL)) as -> by (apply (rl_status _ Hr m6 m7 b); [rewrite Ep; cbn [pg_objective]; by rewrite Hobj|by rewrite Ep|done]).
  cbn [checked_read fst snd Z.eqb mbind outcome_bind].
  pose proof (rl_objval _ Hr m7) as Ho. pose proof (rl_sol _ Hr (num_vars e) m7) as Hs.
  destruct (GRBgetobjval m7) as [k ov]. destruct (GRBgetsol (num_vars e) m7) as [k' sol]. cbn in Ho, Hs. subst k k'. by exists sol.
Qed.
End Built.
End Solve.

(** *** Values that are not negative *)

Lemma exact_finite d s m e : 0 <= exact_value d -> to_sf d = S754_finite s m e -> s = false.
Proof.
  Transparent exact_value. unfold exact_value. Opaque exact_value. intros Hv E. rewrite E in Hv. destruct s; [|done]. assert (-1074 <= e) as He.
  { unfold to_sf in E. pose proof (Z.mod_pos_bound (d / 2 ^ 52) (2 ^ 11) ltac:(lia)) as Hm. destruct (Z.eqb_spec ((d / 2 ^ 52) mod 2 ^ 11) 2047) as [_|_]; [by case_match|].
    destruct (Z.eqb_spec ((d / 2 ^ 52) mod 2 ^ 11) 0); case_match; try done; injection E as _ _ <-; lia. }
  pose proof (Z.pow_pos_nonneg 2 (e + 1074) ltac:(lia) ltac:(lia)). lia.
Qed.

Lemma exact_of_sf x : (forall s m e, x = S754_finite s m e -> sf_signed false x) -> 0 <= exact_value (of_sf x).
Proof.
  intros Hx. destruct x as [[]|[]| |s m e]; [by vm_compute..|]. by apply exact_nonneg, of_sf_nonneg, (Hx s m e).
Qed.

Lemma exact_dmul a b : 0 <= exact_value a -> 0 <= exact_value b -> 0 <= exact_value (dmul a b).
Proof.
  intros Ha Hb. apply exact_of_sf. intros s m e. unfold SFmul.
  destruct (to_sf a) as [| | |sa ma ea] eqn:Ea, (to_sf b) as [| | |sb mb eb] eqn:Eb; try done.
  rewrite (exact_finite _ _ _ _ Ha Ea), (exact_finite _ _ _ _ Hb Eb). intros _. by apply round_aux_signed.
Qed.

Lemma exact_ddiv a b : 0 <= exact_value a -> 0 <= exact_value b -> 0 <= exact_value (ddiv a b).
Proof.
  intros Ha Hb. apply exact_of_sf. intros s m e. unfold SFdiv.
  destruct (to_sf a) as [| | |sa ma ea] eqn:Ea, (to_sf b) as [| | |sb mb eb] eqn:Eb; try done.
  rewrite (exact_finite _ _ _ _ Ha Ea), (exact_finite _ _ _ _ Hb Eb). unfold SFdiv_core_binary. set (q := match _ with Z0 => _ | Zpos _ => _ | Zneg _ => _ end).
  assert (0 <= q) as Hq by (unfold q; destruct (ea - eb - _); [lia| |lia]; apply Z.shiftl_nonneg; lia).
  pose proof (Z_div_nonneg_nonneg q (Zpos mb) Hq ltac:(lia)) as Hd. unfold Z.div in Hd.
  destruct (Z.div_eucl q (Zpos mb)) as [q' r]. intros _. by apply round_aux_signed.
Qed.

(** ** The workload *)

Record program_input (attributes : list Attribute) (iter : list nat -> list nat) (stats : SchemaStats) (w : QueryWorkload) : Prop := {
  pi_attrs : qw_attributes_ w = seq 0 (length attributes);
  pi_index i a : attributes !! i = Some a -> index_ a = Z.of_nat i;
  pi_some : attributes <> [];
  pi_few : Z.of_nat (length attributes) <= 1000;
  pi_fits : workload_fits attributes iter stats w;
  pi_counts : 0 <= exact_value (totalQueries_ w) /\
    forall query c, find_by summary_eqb query (counts_ w) = Some c -> query ∈ queries_ w -> 0 <= exact_value c
}.

Section Input.
Context (attributes : list Attribute) (iter : list nat -> list nat) (stats : SchemaStats) (w : QueryWorkload).
Context (Hin : program_input attributes iter stats w).
#[local] Abbreviation A := (Z.of_nat (length attributes)).
#[local] Abbreviation Q := (Z.of_nat (length (queries_ w))).

Definition avg_at (a : Z) : double := match attribute_avg attributes stats w a with Ret v => v | _ => dzero end.
Definition freq_at (q : Z) : double := match frequency w q with Ret f => f | _ => dzero end.
Definition acc_at (q a : Z) : bool :=
  match queries_ w !! Z.to_nat q with Some query => bool_decide (Z.to_nat a ∈ qs_attributes_ query) | None => false end.

Lemma count_attributes : 1 <= A <= 1000.
Proof. pose proof (pi_some _ _ _ _ Hin). pose proof (pi_few _ _ _ _ Hin). destruct attributes; [done|]. cbn [length] in *. lia. Qed.

Lemma single_weighed a : 0 <= a < A -> weighed attributes stats (Z.to_nat a).
Proof.
  intros Ha. destruct (wf_sized _ _ _ _ (pi_fits _ _ _ _ Hin) [Z.to_nat a]) as [Hs _].
  - apply NoDup_singleton.
  - rewrite (pi_attrs _ _ _ _ Hin). intros i ->%list_elem_of_singleton. apply elem_of_seq. lia.
  - by apply Forall_inv in Hs.
Qed.

Lemma avg_at_ok a : 0 <= a < A -> attribute_avg attributes stats w a = Ret (avg_at a).
Proof.
  intros Ha. unfold avg_at, attribute_avg. rewrite (pi_attrs _ _ _ _ Hin), lookup_seq_lt by lia. cbn [or_throw mbind outcome_bind Nat.add].
  by destruct (single_weighed a Ha) as (v & -> & _).
Qed.

Lemma freq_at_ok q : 0 <= q < Q -> frequency w q = Ret (freq_at q).
Proof.
  intros Hq. unfold freq_at, frequency. destruct (lookup_lt_is_Some_2 (queries_ w) (Z.to_nat q)) as [query Hl]; [lia|]. rewrite Hl. cbn [or_undefined mbind outcome_bind].
  destruct (wf_queries _ _ _ _ (pi_fits _ _ _ _ Hin) query) as [[v Hv] _]; [by eapply list_elem_of_lookup_2|]. unfold getFrequency. by rewrite Hv.
Qed.

Lemma acc_at_ok q a : 0 <= q < Q -> 0 <= a < A -> accesses attributes w q a = Ret (bit (acc_at q a)).
Proof.
  intros Hq Ha. unfold acc_at, accesses. destruct (lookup_lt_is_Some_2 (queries_ w) (Z.to_nat q)) as [query Hl]; [lia|]. rewrite Hl. cbn [or_undefined mbind outcome_bind].
  destruct (wf_queries _ _ _ _ (pi_fits _ _ _ _ Hin) query) as [_ Hsub]; [by eapply list_elem_of_lookup_2|]. rewrite (pi_attrs _ _ _ _ Hin) in Hsub. revert Hsub.
  generalize (qs_attributes_ query). intros l. induction l as [|i l IH]; intros Hsub; [done|]. cbn [accesses_in].
  assert (i ∈ seq 0 (length attributes)) as Hi%elem_of_seq by (apply Hsub; left). destruct (lookup_lt_is_Some_2 attributes i) as [at_ Hat]; [lia|].
  rewrite Hat. cbn [or_undefined mbind outcome_bind]. rewrite (pi_index _ _ _ _ Hin _ _ Hat). destruct (Z.eqb_spec (Z.of_nat i) a) as [<-|Hne].
  - rewrite Nat2Z.id, bool_decide_eq_true_2 by left. done.
  - rewrite IH by (intros; apply Hsub; by right). do 2 f_equal. apply bool_decide_ext. rewrite elem_of_cons. split; [by right|]. intros [E|?]; [lia|done].
Qed.

Lemma whole_size : exists size, getPartitionSize attributes iter stats (whole w) = Ret size.
Proof.
  destruct (wf_sized _ _ _ _ (pi_fits _ _ _ _ Hin) (whole w)) as [_ (size & E & _)]; [| |by exists size].
  - apply (add_all_NoDup (qw_attributes_ w) []). constructor.
  - intros a Ha. apply (elem_of_add_all (qw_attributes_ w) []) in Ha as [[]%elem_of_nil|?]. done.
Qed.

Lemma sizes_sum : exists sum, Optimal.s attributes stats (qw_attributes_ w) = Ret sum.
Proof.
  unfold Optimal.s. rewrite (pi_attrs _ _ _ _ Hin).
  assert (forall l acc, (forall a, a ∈ l -> (a < length attributes)%nat) ->
    exists sum, foldM (fun sum attribute => v ← avg_size attributes stats attribute; Ret (dadd sum v)) acc l = Ret sum) as Hg.
  { induction l as [|a l IH]; intros acc Hl; cbn [foldM]; [by exists acc|]. assert (a < length attributes)%nat as Ha by (apply Hl; left).
    destruct (single_weighed (Z.of_nat a) ltac:(lia)) as (v & Ev & _). rewrite Nat2Z.id in Ev. rewrite Ev. cbn [mbind outcome_bind]. apply IH. intros; apply Hl; by right. }
  apply Hg. intros a Ha%elem_of_seq. lia.
Qed.

(** The variables of the program. *)
Context (e : var_env) (Ee : create_env w = Ret e).

Lemma env_ok : e = env_of A A Q.
Proof.
  unfold create_env in Ee. rewrite (pi_attrs _ _ _ _ Hin), length_seq in Ee. case_match; [|done]. by injection Ee as <-.
Qed.

(** ** Partitionings *)

Definition parts_of (ps : Partitions) : Prop := Forall (fun part => part <> [] /\ NoDup part /\ part ⊆ seq 0 (length attributes)) ps.
Definition covers_all (ps : Partitions) : Prop := forall a, (a < length attributes)%nat -> exists part, part ∈ ps /\ a ∈ part.

(** Each query reads partitions that have its attributes. *)
Definition reads_enough (ps : Partitions) (reads : Z -> Partitions) : Prop := forall q query, queries_ w !! q = Some query ->
  reads (Z.of_nat q) `sublist_of` ps /\ forall a, a ∈ qs_attributes_ query -> exists part, part ∈ reads (Z.of_nat q) /\ a ∈ part.

#[local] Abbreviation storage := (storage_of avg_at).
#[local] Abbreviation cost := (read_cost Q avg_at freq_at).

Lemma query_at q : 0 <= q < Q -> exists query, queries_ w !! Z.to_nat q = Some query /\
  (forall a, acc_at q a = bool_decide (Z.to_nat a ∈ qs_attributes_ query)) /\ forall a, a ∈ qs_attributes_ query -> (a < length attributes)%nat.
Proof.
  intros Hq. destruct (lookup_lt_is_Some_2 (queries_ w) (Z.to_nat q)) as [query Hl]; [lia|]. exists query. split; [done|]. split.
  - intros a. unfold acc_at. by rewrite Hl.
  - intros a Ha. destruct (wf_queries _ _ _ _ (pi_fits _ _ _ _ Hin) query) as [_ Hsub]; [by eapply list_elem_of_lookup_2|].
    apply Hsub in Ha. rewrite (pi_attrs _ _ _ _ Hin), elem_of_seq in Ha. lia.
Qed.

Lemma slots_parts b : parts_of (nonempty (slot A Q b <$> upto A)).
Proof.
  pose proof count_attributes. apply Forall_forall. intros part Hpart. unfold nonempty in Hpart. rewrite list_elem_of_filter in Hpart.
  destruct Hpart as [Hne (p & -> & Hp%elem_of_upto)%list_elem_of_fmap]. split; [done|]. split.
  - unfold slot. apply NoDup_fmap_2_strong; [|apply NoDup_filter, NoDup_seqZ]. intros i j Hi Hj E.
    rewrite list_elem_of_filter, elem_of_upto in Hi. rewrite list_elem_of_filter, elem_of_upto in Hj. lia.
  - intros a Ha. unfold slot in Ha. apply list_elem_of_fmap in Ha as (i & -> & Hi). rewrite list_elem_of_filter, elem_of_upto in Hi. apply elem_of_seq. lia.
Qed.

Lemma in_slot b p a : 0 <= a < A -> b (x (env_of A A Q) a p) = true -> Z.to_nat a ∈ slot A Q b p.
Proof. intros Ha Hb. unfold slot. apply list_elem_of_fmap_2. rewrite list_elem_of_filter, elem_of_upto. done. Qed.

Lemma slot_in b p a : a ∈ slot A Q b p -> (a < length attributes)%nat /\ b (x (env_of A A Q) (Z.of_nat a) p) = true.
Proof.
  unfold slot. intros (i & -> & Hi)%list_elem_of_fmap. rewrite list_elem_of_filter, elem_of_upto in Hi. destruct Hi as [Hb Hi]. rewrite Z2Nat.id by lia. split; [lia|done].
Qed.

Lemma nonempty_slot b p a : 0 <= p < A -> a ∈ slot A Q b p -> slot A Q b p ∈ nonempty (slot A Q b <$> upto A).
Proof.
  intros Hp Ha. unfold nonempty. rewrite list_elem_of_filter. split; [intros E; rewrite E in Ha; by apply elem_of_nil in Ha|].
  apply list_elem_of_fmap_2, elem_of_upto. done.
Qed.

(** ** Overlapping partitions *)

Definition reads_needed (b : Z -> bool) : Z -> Partitions := reads_of A Q b.

Record admissible (limit : double) (ps : Partitions) : Prop := {
  ad_parts : parts_of ps;
  ad_covers : covers_all ps;
  ad_few : Z.of_nat (length ps) <= A;
  ad_storage : storage ps <= exact_value limit
}.

Lemma parts_bounded ps : parts_of ps -> Forall (fun part => part <> [] /\ NoDup part /\ part ⊆ seq 0 (Z.to_nat A)) ps.
Proof. by rewrite Nat2Z.id. Qed.

(** The partitions a query reads are among those of the partitioning. *)
Lemma reads_sublist b q : (forall p, 0 <= p < A -> b (y (env_of A A Q) p q) = true -> slot A Q b p <> []) ->
  reads_of A Q b q `sublist_of` nonempty (slot A Q b <$> upto A).
Proof.
  intros Hne. unfold reads_of, nonempty. assert (forall p, p ∈ upto A -> b (y (env_of A A Q) p q) = true -> slot A Q b p <> []) as Hl by (intros p Hp%elem_of_upto; by apply Hne).
  revert Hl. generalize (upto A). intros l Hl. induction l as [|p l IH]; [done|]. cbn [fmap list_fmap]. rewrite !filter_cons.
  assert ((slot A Q b <$> filter (fun p => b (y (env_of A A Q) p q) = true) l) `sublist_of` filter (fun part => part <> []) (slot A Q b <$> l)) as Hs by (apply IH; intros; apply Hl; [by right|done]).
  case_decide as Hb.
  - rewrite decide_True by (apply Hl; [left|done]). by apply sublist_skip.
  - case_decide; [by apply sublist_cons|done].
Qed.

Lemma overlapping_partitioning limit tol b : overlapping_says A Q avg_at acc_at limit tol b ->
  let ps := nonempty (slot A Q b <$> upto A) in
  parts_of ps /\ covers_all ps /\ storage ps <= exact_value limit + tol /\ reads_enough ps (reads_of A Q b).
Proof.
  intros Hs ps. pose proof count_attributes as HA. split_and!.
  - apply slots_parts.
  - intros a Ha. destruct (os_cover _ _ _ _ _ _ _ Hs (Z.of_nat a)) as (p & Hp & Hb); [lia|]. apply in_slot in Hb; [|lia]. rewrite Nat2Z.id in Hb.
    exists (slot A Q b p). split; [by apply (nonempty_slot b p a)|done].
  - unfold ps. rewrite <- (storage_slots A Q avg_at freq_at acc_at); [by apply (os_storage _ _ _ _ _ _ _ Hs)|]. apply used_slot; [apply (os_ux _ _ _ _ _ _ _ Hs)|apply (os_xu _ _ _ _ _ _ _ Hs)].
  - intros q query Hq. pose proof (lookup_lt_Some _ _ _ Hq) as Hlt. split.
    + apply reads_sublist. intros p Hp Hy. destruct (os_yz _ _ _ _ _ _ _ Hs p (Z.of_nat q)) as (a & Ha & Hz); [done|lia|done|].
      apply (os_zx _ _ _ _ _ _ _ Hs) in Hz; [|lia..]. apply in_slot in Hz; [|lia]. intros E. rewrite E in Hz. by apply elem_of_nil in Hz.
    + intros a Ha. destruct (query_at (Z.of_nat q)) as (query' & Hl & Hacc & Hin'); [lia|]. rewrite Nat2Z.id, Hq in Hl. injection Hl as <-.
      pose proof (Hin' a Ha) as Hla. destruct (os_read _ _ _ _ _ _ _ Hs (Z.of_nat a) (Z.of_nat q)) as (p & Hp & Hz); [lia|lia|rewrite Hacc, Nat2Z.id; by apply bool_decide_eq_true|].
      exists (slot A Q b p). split.
      * apply list_elem_of_fmap_2. rewrite list_elem_of_filter, elem_of_upto. split; [|done]. by apply (os_zy _ _ _ _ _ _ _ Hs (Z.of_nat a)); [lia..|].
      * rewrite <- (Nat2Z.id a). apply in_slot; [lia|]. by apply (os_zx _ _ _ _ _ _ _ Hs (Z.of_nat a) p (Z.of_nat q)); [lia..|].
Qed.

(** The objective of an assignment in which [z] is the conjunction. *)
Lemma overlapping_objective limit tol b : overlapping_says A Q avg_at acc_at limit tol b ->
  objective_value b (coefficient A Q avg_at freq_at <$> upto (num_vars (env_of A A Q))) = cost (reads_of A Q b).
Proof.
  intros Hs. pose proof count_attributes. rewrite objective_value_ok by lia. apply objective_slots. intros a p q Ha Hp Hq.
  pose proof (os_zx _ _ _ _ _ _ _ Hs a p q Ha Hp Hq). pose proof (os_zy _ _ _ _ _ _ _ Hs a p q Ha Hp Hq). pose proof (os_xyz _ _ _ _ _ _ _ Hs a p q Ha Hp Hq).
  destruct (b (x _ a p)), (b (y _ p q)), (b (z _ a p q)); cbn; intuition.
Qed.

(** An admissible partitioning and what is read of it are an assignment. *)
Lemma overlapping_candidate limit ps reads : admissible limit ps -> reads_enough ps reads ->
  exists b, overlapping_says A Q avg_at acc_at limit 0 b /\ cost (reads_of A Q b) = cost reads.
Proof.
  intros [Hparts Hcov Hfew Hlim] Hreads. pose proof count_attributes as HA. apply parts_bounded in Hparts.
  destruct (finite_choice (fun q m => reads q = selection m ps) (fun _ => false) (upto Q)) as [m Hm].
  { intros q Hq%elem_of_upto. destruct (query_at q Hq) as (query & Hl & _). destruct (Hreads _ _ Hl) as [Hsub _]. rewrite Z2Nat.id in Hsub by lia. by apply sublist_selection. }
  exists (assignment A Q ps m). split.
  - apply (assignment_overlapping A Q ltac:(lia) ltac:(lia) avg_at freq_at acc_at ps m Hfew Hparts); [| |done].
    + intros a Ha. apply Hcov. lia.
    + intros q a Hq Ha Hacc. destruct (query_at q Hq) as (query & Hl & Hacc' & _). destruct (Hreads _ _ Hl) as [_ Hall]. rewrite Z2Nat.id in Hall by lia.
      rewrite <- Hm by by apply elem_of_upto. apply Hall. rewrite Hacc' in Hacc. by apply bool_decide_eq_true in Hacc.
  - rewrite assignment_cost by (done || lia). unfold read_cost. apply total_ext. intros q Hq. by rewrite (Hm q Hq).
Qed.

(** ** Disjoint partitions *)

(** The partitions with an attribute of the query. *)
Definition accessed (ps : Partitions) (q : Z) : Partitions := filter (fun part => Exists (fun a => acc_at q (Z.of_nat a) = true) part) ps.

Record partition_of (limit : double) (ps : Partitions) : Prop := {
  po_parts : Forall (fun part => part <> []) ps;
  po_concat : concat ps ≡ₚ seq 0 (length attributes);
  po_count : Z.of_nat (length ps) * unity <= exact_value limit
}.

Lemma concat_parts ps : Forall (fun part => part <> []) ps -> concat ps ≡ₚ seq 0 (length attributes) -> parts_of ps /\ Z.of_nat (length ps) <= A.
Proof.
  intros Hne Hc. assert (NoDup (concat ps)) as Hnd by (rewrite Hc; apply NoDup_seq). split.
  - apply Forall_forall. intros part Hpart. rewrite Forall_forall in Hne. split; [by apply Hne|]. apply list_elem_of_split in Hpart as (l & k & ->).
    rewrite concat_app in Hc, Hnd. cbn [concat] in Hc, Hnd. split.
    + by apply NoDup_app in Hnd as (_ & _ & [? _]%NoDup_app).
    + intros a Ha. rewrite <- Hc, !elem_of_app. tauto.
  - apply Permutation_length in Hc. rewrite length_seq in Hc. rewrite <- Hc. clear Hc Hnd. induction Hne as [|part ps Hp _ IH]; [done|].
    cbn [concat length]. rewrite length_app. destruct part; [done|]. cbn [length]. lia.
Qed.

Lemma selection_filter {T} (Pr : T -> Prop) `{forall v, Decision (Pr v)} (l : list T) : forall m,
  (forall i v, l !! i = Some v -> m i = true <-> Pr v) -> selection m l = filter Pr l.
Proof.
  induction l as [|v l IH]; intros m Hm; [done|]. rewrite selection_cons, filter_cons, (IH (fun i => m (S i))) by (intros i; apply (Hm (S i))).
  pose proof (Hm 0%nat v eq_refl) as Hv. destruct (m 0%nat); [by rewrite decide_True by by apply Hv|rewrite decide_False; [done|]]. by intros ?%Hv.
Qed.

Lemma slots_concat b (l : list Z) : concat (nonempty (slot A Q b <$> l)) = concat (slot A Q b <$> l).
Proof.
  unfold nonempty. induction l as [|p l IH]; [done|]. cbn [fmap list_fmap concat]. rewrite filter_cons. case_decide as Hd; cbn [concat]; rewrite IH; [done|].
  by rewrite Hd.
Qed.

Lemma elem_of_concat {T} (v : T) (ls : list (list T)) : v ∈ concat ls <-> exists l, l ∈ ls /\ v ∈ l.
Proof. rewrite list_elem_of_In, in_concat. by setoid_rewrite list_elem_of_In. Qed.

(** Attributes of one partition each. *)
Lemma slots_partition b : (forall a, 0 <= a < A -> exists p, 0 <= p < A /\ b (x (env_of A A Q) a p) = true /\ forall p', 0 <= p' < A -> b (x (env_of A A Q) a p') = true -> p' = p) ->
  concat (nonempty (slot A Q b <$> upto A)) ≡ₚ seq 0 (length attributes).
Proof.
  intros Hone. rewrite slots_concat. apply NoDup_Permutation; [|apply NoDup_seq|].
  - assert (forall p, p ∈ upto A -> 0 <= p < A) as Hr by (intros p; apply elem_of_upto). assert (NoDup (upto A)) as Hnd by apply NoDup_seqZ. revert Hr Hnd. generalize (upto A). intros l Hr.
    induction 1 as [|p l Hp _ IH]; [constructor|]. cbn [fmap list_fmap concat]. apply NoDup_app. split_and!.
    + unfold slot. apply NoDup_fmap_2_strong; [|apply NoDup_filter, NoDup_seqZ]. intros i j Hi Hj E.
      rewrite list_elem_of_filter, elem_of_upto in Hi. rewrite list_elem_of_filter, elem_of_upto in Hj. lia.
    + intros a [Ha Hb]%slot_in (part & (p' & -> & Hp')%list_elem_of_fmap & [_ Hb']%slot_in)%elem_of_concat.
      destruct (Hone (Z.of_nat a)) as (p0 & _ & _ & Hu); [lia|]. destruct Hp. rewrite (Hu p), <- (Hu p'); [done|apply Hr; by right|done|apply Hr; left|done].
    + apply IH. intros; apply Hr. by right.
  - intros a. rewrite elem_of_concat, elem_of_seq. split.
    + intros (part & (p & -> & _)%list_elem_of_fmap & [Ha _]%slot_in). lia.
    + intros [_ Ha]. destruct (Hone (Z.of_nat a)) as (p & Hp & Hb & _); [lia|]. exists (slot A Q b p). split; [by apply list_elem_of_fmap_2, elem_of_upto|].
      rewrite <- (Nat2Z.id a). by apply in_slot; [lia|].
Qed.

Lemma slot_accessed limit tol b : nonoverlapping_says A Q acc_at limit tol b -> forall p q, 0 <= p < A -> 0 <= q < Q ->
  b (y (env_of A A Q) p q) = true <-> Exists (fun a => acc_at q (Z.of_nat a) = true) (slot A Q b p).
Proof.
  intros Hs p q Hp Hq. pose proof count_attributes. rewrite Exists_exists. split.
  - intros Hy. destruct (ns_ya _ _ _ _ _ _ Hs p q Hp Hq Hy) as (a & Ha & Hacc & Hx). exists (Z.to_nat a).
    split; [by apply in_slot|]. by rewrite Z2Nat.id by lia.
  - intros (a & Hslot & Hacc). apply slot_in in Hslot as [Ha Hx]. by apply (ns_ay _ _ _ _ _ _ Hs (Z.of_nat a)); [lia..| |].
Qed.

Lemma nonoverlapping_partitioning limit tol b : nonoverlapping_says A Q acc_at limit tol b ->
  let ps := nonempty (slot A Q b <$> upto A) in
  Forall (fun part => part <> []) ps /\ concat ps ≡ₚ seq 0 (length attributes) /\
  Z.of_nat (length ps) * unity <= exact_value limit + tol /\ forall q, 0 <= q < Q -> reads_of A Q b q = accessed ps q.
Proof.
  intros Hs ps. pose proof count_attributes as HA. split_and!.
  - apply Forall_forall. intros part. unfold ps, nonempty. rewrite list_elem_of_filter. by intros [? _].
  - apply slots_partition, (ns_one _ _ _ _ _ _ Hs).
  - pose proof (used_slot A Q b (ns_ux _ _ _ _ _ _ Hs) (ns_xu _ _ _ _ _ _ Hs)) as Hu. pose proof (ns_count _ _ _ _ _ _ Hs) as Hc.
    enough (Z.of_nat (length ps) = total (fun p => bit (b (u (env_of A A Q) p))) (upto A)) as -> by done.
    unfold ps, nonempty. rewrite bits_count. f_equal. assert (forall p, p ∈ upto A -> 0 <= p < A) as Hr by (intros p; apply elem_of_upto). revert Hr. generalize (upto A). intros l Hr.
    induction l as [|p l IH]; [done|]. cbn [fmap list_fmap]. rewrite !filter_cons. assert (0 <= p < A) as Hp by (apply Hr; left). specialize (IH (fun p Hp => Hr p (list_elem_of_further _ _ _ Hp))).
    rewrite (Hu p Hp). case_decide as Hd.
    + rewrite decide_True by by apply negb_true_iff, bool_decide_eq_false. cbn [length]. by rewrite IH.
    + rewrite decide_False; [done|]. by intros ?%negb_true_iff%bool_decide_eq_false.
  - intros q Hq. unfold reads_of, accessed, ps, nonempty. assert (forall p, p ∈ upto A -> 0 <= p < A) as Hr by (intros p; apply elem_of_upto). revert Hr. generalize (upto A). intros l Hr.
    induction l as [|p l IH]; [done|]. cbn [fmap list_fmap]. rewrite !filter_cons. assert (0 <= p < A) as Hp by (apply Hr; left). specialize (IH (fun p Hp => Hr p (list_elem_of_further _ _ _ Hp))).
    pose proof (slot_accessed limit tol b Hs p q Hp Hq) as Hy.
    destruct (b (y _ p q)).
    + pose proof (proj1 Hy eq_refl) as He. rewrite decide_True by done. rewrite decide_True by (intros E; rewrite E in He; by apply Exists_nil in He).
      rewrite filter_cons, decide_True by done. cbn [fmap list_fmap]. by f_equal.
    + rewrite decide_False by done. case_decide; [|done]. rewrite filter_cons, decide_False; [done|]. intros He. by apply Hy in He.
Qed.

(** The coefficients are not negative. *)
Lemma coefficients_nonneg a q : 0 <= a < A -> 0 <= q < Q -> 0 <= exact_value (read_attribute_bytes avg_at freq_at a q).
Proof.
  intros Ha Hq. unfold read_attribute_bytes, attribute_bytes. apply exact_dmul; [apply exact_dmul|].
  - destruct (single_weighed a Ha) as (v & Ev & Hv & _). pose proof (avg_at_ok a Ha) as E. unfold attribute_avg in E.
    rewrite (pi_attrs _ _ _ _ Hin), lookup_seq_lt in E by lia. cbn [or_throw mbind outcome_bind Nat.add] in E. rewrite Ev in E. injection E as <-. by apply exact_nonneg.
  - apply exact_nonneg, nonneg_dofZ. by vm_compute.
  - destruct (pi_counts _ _ _ _ Hin) as [Ht Hc]. destruct (query_at q Hq) as (query & Hl & _). unfold freq_at, frequency. rewrite Hl. cbn [or_undefined mbind outcome_bind].
    unfold getFrequency. destruct (find_by summary_eqb query (counts_ w)) as [c|] eqn:Ec; [|by rewrite exact_zero].
    apply exact_ddiv; [|done]. apply (Hc query); [done|by eapply list_elem_of_lookup_2].
Qed.

(** The objective of an assignment is at least what is read. *)
Lemma nonoverlapping_objective limit tol b : nonoverlapping_says A Q acc_at limit tol b ->
  cost (accessed (nonempty (slot A Q b <$> upto A))) <= objective_value b (coefficient A Q avg_at freq_at <$> upto (num_vars (env_of A A Q))).
Proof.
  intros Hs. pose proof count_attributes. destruct (nonoverlapping_partitioning limit tol b Hs) as (_ & _ & _ & Hr). rewrite objective_value_ok by lia.
  etransitivity; [|apply objective_slots_le; [apply (ns_xyz _ _ _ _ _ _ Hs)|apply coefficients_nonneg]].
  apply Z.eq_le_incl, total_ext. intros q Hq%elem_of_upto. by rewrite Hr.
Qed.

Lemma nonoverlapping_candidate limit ps : partition_of limit ps ->
  exists b, nonoverlapping_says A Q acc_at limit 0 b /\
    objective_value b (coefficient A Q avg_at freq_at <$> upto (num_vars (env_of A A Q))) = cost (accessed ps).
Proof.
  intros [Hne Hc Hcount]. pose proof count_attributes as HA. destruct (concat_parts ps Hne Hc) as [Hparts%parts_bounded Hfew].
  set (m := fun (q : Z) (i : nat) => match ps !! i with Some part => bool_decide (Exists (fun a => acc_at q (Z.of_nat a) = true) part) | None => false end).
  exists (assignment A Q ps m). split.
  - apply (assignment_nonoverlapping A Q ltac:(lia) ltac:(lia) acc_at ps m Hfew Hparts); [by rewrite Nat2Z.id| |done].
    intros q i part _ Hl. unfold m. rewrite Hl. by rewrite bool_decide_eq_true, Exists_exists.
  - rewrite objective_value_ok by lia. rewrite objective_slots by (intros; apply assignment_z; by try lia). rewrite assignment_cost by (done || lia).
    apply total_ext. intros q _. f_equal. apply selection_filter. intros i part Hl. unfold m. rewrite Hl. apply bool_decide_eq_true.
Qed.
End Input.
