(* ===== verification/OptimalResults.v ===== *)
(** * The partitionings of the ILP optimizers

    What [OptimalOverlapping::solve] and [OptimalNonOverlapping::solve]
    return for a workload counted by [QueryWorkload], given the laws of the
    solver library, and a library that searches all assignments. *)

From Stdlib Require Import ZArith Lia.
From stdpp Require Import base numbers gmap strings list sorting pretty.
From S2P Require Import Prelude.
From S2P Require Import Double.
From S2P Require Import Schema.
From S2P Require Import MetaData.
From S2P Require Import Query.
From S2P Require Import Workload.
From S2P Require Import Partitions.
From S2P Require Import Heuristics.
From S2P Require Import Optimal.
From S2P Require Import OptimalEncoding.
From S2P Require Import OptimalPartitions.
From S2P Require Import OptimalRows.
From S2P Require Import OptimalSolve.

(** What the optimizers are given: a schema of at most a thousand attributes,
    the limit of the constant [K], numbered in order, and a workload that has
    counted queries on known attributes. *)
Record solver_input (pointer_hash : nat -> Z) (attributes : list Attribute) (iter : list nat -> list nat) (stats : SchemaStats)
    (qs : list Query) (w : QueryWorkload) (e : var_env) : Prop := {
  si_some : attributes <> [];
  si_few : Z.of_nat (length attributes) <= 1000;
  si_index i a : attributes !! i = Some a -> index_ a = Z.of_nat i;
  si_known : Forall (known attributes) qs;
  si_counted : foldM (fun w q => addQuery pointer_hash q w) (newQueryWorkload attributes) qs = Ret w;
  si_sized p : NoDup p -> p ⊆ seq 0 (length attributes) -> sized attributes iter stats p;
  si_env : create_env w = Ret e
}.

Lemma dcount_nonneg n : 0 <= exact_value (dcount n).
Proof. apply exact_nonneg. induction n as [|n IH]; [by apply (nonneg_dofZ 0)|]. cbn. apply nonneg_dadd; [done|by apply (nonneg_dofZ 1)]. Qed.

Lemma input_ok pointer_hash attributes iter stats qs w e : solver_input pointer_hash attributes iter stats qs w e -> program_input attributes iter stats w.
Proof.
  intros [Hsome Hfew Hindex Hk Ew Hsized _]. destruct (counted_fits pointer_hash attributes iter stats qs w Hsome Hk Ew Hsized) as [Ha Hw].
  destruct (workload_ok pointer_hash attributes qs Hk) as (w' & E & Hc). rewrite Ew in E. injection E as <-. split; [done..|]. split.
  - rewrite (cq_total _ _ _ _ Hc). apply dcount_nonneg.
  - intros s c Hs (q & Hq & ->)%(proj2 (cq_queries _ _ _ _ Hc)). rewrite Forall_forall in Hk. rewrite (cq_counts _ _ _ _ Hc q (Hk q Hq)) in Hs.
    case_decide; [done|]. injection Hs as <-. apply dcount_nonneg.
Qed.

(** The program built for the constraints of a solver. *)
Definition program_of (base : list Attribute) (stats : SchemaStats) (workload : QueryWorkload) (constraints : var_env -> outcome (list Row)) : outcome Program :=
  e ← create_env workload; obj ← objective base stats workload e; rows ← constraints e; Ret (mkProgram obj rows).

Section Results.
Context {M : Type} `{Gurobi M, !GurobiOk M}.
Context (pointer_hash : nat -> Z) (attributes : list Attribute) (iter : list nat -> list nat) (stats : SchemaStats).
Context (qs : list Query) (w : QueryWorkload) (e : var_env) (Hsi : solver_input pointer_hash attributes iter stats qs w e).
#[local] Abbreviation A := (Z.of_nat (length attributes)).
#[local] Abbreviation Q := (Z.of_nat (length (queries_ w))).
#[local] Abbreviation obj := (coefficient A Q (avg_at attributes stats w) (freq_at w) <$> upto (num_vars (env_of A A Q))).

(** A feasible program is built and solved. *)
Lemma solve_ok constraints rows b : constraints (env_of A A Q) = Ret rows -> reliable M -> Forall (within (num_vars (env_of A A Q))) rows -> Forall (holds 0 b) rows ->
  program_of attributes stats w constraints = Ret (mkProgram obj rows) /\
  exists sol, solve_rows (M := M) attributes stats w constraints = Ret (e, sol) /\
    (zero_or_one sol -> Forall (holds grb_tolerance (bits_of sol)) rows /\
      solve (M := M) attributes stats w constraints = Ret (nonempty (slot A Q (bits_of sol) <$> upto A)) /\
      forall b, Forall (holds 0 b) rows -> objective_value (bits_of sol) obj <= objective_value b obj + grb_gap (mkProgram obj rows)).
Proof.
  intros Er Hrel Hw Hb. pose proof (input_ok _ _ _ _ _ _ _ Hsi) as Hin. pose proof (si_env _ _ _ _ _ _ _ Hsi) as Ee.
  pose proof (count_attributes _ _ _ _ Hin) as HA. pose proof (env_ok _ _ _ _ Hin e Ee) as He.
  assert (objective attributes stats w e = Ret obj) as Eobj.
  { rewrite He. apply objective_ok; [lia|lia|by apply (avg_at_ok attributes iter)|by apply (freq_at_ok attributes iter stats)]. }
  destruct (name_variables_ok attributes stats w A Q ltac:(lia) ltac:(lia) (avg_at attributes stats w) (freq_at w) (acc_at w)
    (avg_at_ok _ _ _ _ Hin) (freq_at_ok _ _ _ _ Hin) (acc_at_ok _ _ _ _ Hin)) as (vname & Ename & Hname).
  rewrite <- He in Er, Ename, Hname, Hw. assert (Z.of_nat (length obj) = num_vars e) as Hobj.
  { rewrite He, length_fmap, length_upto; [done|]. apply num_vars_nonneg; lia. }
  split; [unfold program_of; by rewrite Ee; cbn [mbind outcome_bind]; rewrite Eobj; cbn [mbind outcome_bind]; rewrite Er|].
  destruct (solve_rows_returns attributes stats w e obj vname constraints rows Ee Eobj Hobj Ename Hname Er Hrel b Hw Hb) as [sol E].
  exists sol. split; [done|]. intros Hsol.
  destruct (solve_rows_ok attributes stats w e obj vname constraints rows Ee Eobj Hobj Ename Hname Er e sol E) as (_ & Hlen & Hopt).
  destruct (Hopt Hsol) as [Hrows Hmin]. split; [done|]. split; [|done]. unfold solve. rewrite E. cbn [mbind outcome_bind]. rewrite He.
  apply read_partitioning_ok; [lia|lia|rewrite Nat2Z.id; apply (pi_attrs _ _ _ _ Hin)|by rewrite <- He].
Qed.
End Results.

(** The storage limit of [OptimalOverlapping], and the bound of
    [OptimalNonOverlapping] on the number of partitions. *)
Definition storage_limit (size storageThreshold : double) : double := dmul size (dadd dunit storageThreshold).
Definition count_limit (size sum storageThreshold : double) : double :=
  dadd dunit (ddiv storageThreshold (dsub dunit (ddiv (dmul sum (dofZ c_e)) size))).

(** C16: [OptimalOverlapping::solve] with a library that works, when some
    covering partitioning is within the storage limit: the program is built and
    solved, and if its values are zeros and ones the partitioning returned has
    nonempty partitions of the attributes, covers them, is within the limit up
    to the tolerance of the library, has for each query partitions with all the
    attributes of the query, and no other admissible partitioning, whatever
    partitions each query reads of it, is read with fewer bytes, up to the gap
    of the library. *)
Theorem optimal_overlapping {M} `{Gurobi M, !GurobiOk M} pointer_hash attributes iter stats qs w e storageThreshold size ps0 :
  solver_input pointer_hash attributes iter stats qs w e -> reliable M ->
  getPartitionSize attributes iter stats (whole w) = Ret size ->
  let limit := storage_limit size storageThreshold in
  let constraints := overlapping_rows attributes iter stats w storageThreshold in
  let cost := read_cost (Z.of_nat (length (queries_ w))) (avg_at attributes stats w) (freq_at w) in
  admissible attributes stats w limit ps0 ->
  exists sol, solve_rows (M := M) attributes stats w constraints = Ret (e, sol) /\
    (zero_or_one sol -> exists ps reads pg,
      OptimalOverlapping_solve (M := M) attributes iter stats w storageThreshold = Ret ps /\
      program_of attributes stats w constraints = Ret pg /\
      parts_of attributes ps /\ covers_all attributes ps /\
      storage_of (avg_at attributes stats w) ps <= exact_value limit + grb_tolerance /\
      reads_enough w ps reads /\
      forall ps' reads', admissible attributes stats w limit ps' -> reads_enough w ps' reads' -> cost reads <= cost reads' + grb_gap pg).
Proof.
  intros Hsi Hrel Esize limit constraints cost Hps0. pose proof (input_ok _ _ _ _ _ _ _ Hsi) as Hin. pose proof (count_attributes _ _ _ _ Hin) as HA.
  destruct (overlapping_rows_ok attributes iter stats w _ _ HA (Nat2Z.is_nonneg (length (queries_ w))) _ _
    (avg_at_ok _ _ _ _ Hin) (acc_at_ok _ _ _ _ Hin) storageThreshold size Esize) as (rows & Er & Hrows).
  pose proof grb_tolerance_ok as Htol. pose proof unity_pos as H1.
  destruct (overlapping_candidate attributes iter stats w Hin limit ps0 (fun _ => ps0) Hps0) as (b0 & Hb0 & _).
  { intros q query Hq. split; [done|]. intros a Ha. apply (ad_covers _ _ _ _ _ Hps0).
    destruct (query_at attributes iter stats w Hin (Z.of_nat q)) as (query' & Hl & _ & Hlt); [apply lookup_lt_Some in Hq; lia|].
    rewrite Nat2Z.id, Hq in Hl. injection Hl as <-. by apply Hlt. }
  destruct (solve_ok pointer_hash attributes iter stats qs w e Hsi constraints rows b0 Er Hrel) as (Epg & sol & Esol & Hsol);
    [by eapply overlapping_rows_within; [lia..|]|apply Hrows; [lia|done]|].
  exists sol. split; [done|]. intros Hz. destruct (Hsol Hz) as (Hsays & Esolve & Hmin). apply Hrows in Hsays; [|done].
  destruct (overlapping_partitioning attributes iter stats w Hin limit _ _ Hsays) as (Hparts & Hcov & Hstore & Hreads).
  eexists _, _, _. split_and!; [exact Esolve|exact Epg|exact Hparts|exact Hcov|exact Hstore|exact Hreads|].
  intros ps' reads' Hadm Hreads'. destruct (overlapping_candidate attributes iter stats w Hin limit ps' reads' Hadm Hreads') as (b & Hb & Hcost).
  unfold cost. rewrite <- Hcost, <- (overlapping_objective attributes iter stats w Hin limit _ _ Hsays), <- (overlapping_objective attributes iter stats w Hin limit _ _ Hb).
  apply Hmin, Hrows; [lia|done].
Qed.

(** C17: [OptimalNonOverlapping::solve] with a library that works, when some
    partition of the attributes has no more parts than the limit: it returns,
    if the values of the solution are zeros and ones, disjoint nonempty
    partitions that together are the attributes, within the limit on their
    number up to the tolerance of the library, and no other such partition of
    the attributes makes the queries read fewer bytes, up to the gap. *)
Theorem optimal_nonoverlapping {M} `{Gurobi M, !GurobiOk M} pointer_hash attributes iter stats qs w e storageThreshold size sum ps0 :
  solver_input pointer_hash attributes iter stats qs w e -> reliable M ->
  getPartitionSize attributes iter stats (whole w) = Ret size -> Optimal.s attributes stats (qw_attributes_ w) = Ret sum ->
  let limit := count_limit size sum storageThreshold in
  let constraints := nonoverlapping_rows attributes iter stats w storageThreshold in
  let cost ps := read_cost (Z.of_nat (length (queries_ w))) (avg_at attributes stats w) (freq_at w) (accessed w ps) in
  partition_of attributes limit ps0 ->
  exists sol, solve_rows (M := M) attributes stats w constraints = Ret (e, sol) /\
    (zero_or_one sol -> exists ps pg,
      OptimalNonOverlapping_solve (M := M) attributes iter stats w storageThreshold = Ret ps /\
      program_of attributes stats w constraints = Ret pg /\
      Forall (fun part => part <> []) ps /\ concat ps ≡ₚ seq 0 (length attributes) /\
      Z.of_nat (length ps) * unity <= exact_value limit + grb_tolerance /\
      forall ps', partition_of attributes limit ps' -> cost ps <= cost ps' + grb_gap pg).
Proof.
  intros Hsi Hrel Esize Esum limit constraints cost Hps0. pose proof (input_ok _ _ _ _ _ _ _ Hsi) as Hin. pose proof (count_attributes _ _ _ _ Hin) as HA.
  destruct (nonoverlapping_rows_ok attributes iter stats w _ _ HA (Nat2Z.is_nonneg (length (queries_ w))) _
    (acc_at_ok _ _ _ _ Hin) storageThreshold size sum Esum Esize) as (rows & Er & Hrows).
  pose proof grb_tolerance_ok as Htol. pose proof unity_pos as H1.
  destruct (nonoverlapping_candidate attributes iter stats w Hin limit ps0 Hps0) as (b0 & Hb0 & _).
  destruct (solve_ok pointer_hash attributes iter stats qs w e Hsi constraints rows b0 Er Hrel) as (Epg & sol & Esol & Hsol);
    [by eapply nonoverlapping_rows_within; [lia..|]|apply Hrows; [lia|done]|].
  exists sol. split; [done|]. intros Hz. destruct (Hsol Hz) as (Hsays & Esolve & Hmin). apply Hrows in Hsays; [|done].
  destruct (nonoverlapping_partitioning attributes iter stats w Hin limit _ _ Hsays) as (Hne & Hcat & Hcount & _).
  eexists _, _. split_and!; [exact Esolve|exact Epg|exact Hne|exact Hcat|exact Hcount|].
  intros ps' Hps'. destruct (nonoverlapping_candidate attributes iter stats w Hin limit ps' Hps') as (b & Hb & Hcost).
  unfold cost. rewrite <- Hcost. etransitivity; [by apply (nonoverlapping_objective attributes iter stats w Hin limit _ _ Hsays)|].
  apply Hmin, Hrows; [lia|done].
Qed.
