(* ===== verification/OptimalSearch.v ===== *)
(** * A solver library that searches every assignment

    An instance of the library of Optimal.v, which meets the laws of
    OptimalSolve.v: it keeps the program and tries every assignment. The
    results of the optimizers at concrete inputs, with it and with a library
    that returns a value within its tolerance of one. *)

From Stdlib Require Import ZArith Lia.
From stdpp Require Import base numbers gmap strings list sorting pretty.
From S2P Require Import Prelude.
From S2P Require Import Double.
From S2P Require Import Schema.
From S2P Require Import MetaData.
From S2P Require Import Query.
From S2P Require Import Workload.
From S2P Require Import Partitions.
From S2P Require Import Heuristics.
From S2P Require Import Optimal.
From S2P Require Import OptimalEncoding.
From S2P Require Import OptimalPartitions.
From S2P Require Import OptimalRows.
From S2P Require Import OptimalSolve.
From S2P Require Import OptimalResults.

(** ** The search *)

Fixpoint vectors (n : nat) : list (list bool) :=
  match n with
  | O => [[]]
  | S n => v ← vectors n; [true :: v; false :: v]
  end.

Lemma elem_of_vectors n v : v ∈ vectors n <-> length v = n.
Proof.
  revert v. induction n as [|n IH]; intros v; cbn [vectors].
  - rewrite list_elem_of_singleton. by destruct v.
  - rewrite list_elem_of_bind. split.
    + intros (v' & Hv & <-%IH). rewrite !elem_of_cons, elem_of_nil in Hv. by destruct Hv as [->|[->|[]]].
    + destruct v as [|b v]; [done|]. intros [= Hl%IH]. exists v. split; [|done]. destruct b; [left|right; left].
Qed.

Definition values (v : list bool) : list double := (fun b : bool => if b then dunit else dzero) <$> v.

Fixpoint least {T} (f : T -> Z) (l : list T) : option T :=
  match l with
  | [] => None
  | v :: l =>
      match least f l with
      | None => Some v
      | Some v' => Some (if f v <=? f v' then v else v')
      end
  end.

Lemma least_ok {T} (f : T -> Z) l : match least f l with None => l = [] | Some v => v ∈ l /\ forall v', v' ∈ l -> f v <= f v' end.
Proof.
  induction l as [|v l IH]; [done|]. cbn [least]. destruct (least f l) as [v'|].
  - destruct IH as [Hin Hl]. destruct (Z.leb_spec (f v) (f v')).
    + split; [left|]. intros v'' [->|Hv]%elem_of_cons; [done|]. specialize (Hl v'' Hv). lia.
    + split; [by right|]. intros v'' [->|Hv]%elem_of_cons; [lia|by apply Hl].
  - subst l. split; [left|]. by intros v'' ->%list_elem_of_singleton.
Qed.

#[export] Instance holds_dec tol b r : Decision (holds tol b r).
Proof. unfold holds. destruct (row_sense r); apply _. Defined.

#[export] Instance within_dec n r : Decision (within n r).
Proof. unfold within. apply _. Defined.

Definition optimum (p : Program) : option (list bool) :=
  least (fun v => objective_value (bits_of (values v)) (pg_objective p))
    (filter (fun v => Forall (holds 0 (bits_of (values v))) (pg_rows p)) (vectors (length (pg_objective p)))).

Definition range (p : Program) : Z := Z.of_nat (length (pg_objective p)).

#[export] Instance search : Gurobi Program := {
  GRBnewmodel := (0, mkProgram [] []);
  GRBaddvars vars p := (0, mkProgram (pg_objective p ++ vars.*1) (pg_rows p));
  GRBsetminimize p := (0, p);
  GRBupdatemodel p := (0, p);
  GRBaddconstr r p := if decide (within (range p) r) then (0, mkProgram (pg_objective p) (pg_rows p ++ [r])) else (10006, p);
  GRBoptimize p := (0, p);
  GRBgetstatus p :=
    (0, if decide (Forall (within (range p)) (pg_rows p)) then match optimum p with Some _ => GRB_OPTIMAL | None => GRB_INF_OR_UNBD end else GRB_OTHER 1);
  GRBgetobjval p := (0, match optimum p with Some v => foldr dadd dzero (fst <$> filter (fun cb => cb.2 = true) (zip (pg_objective p) v)) | None => dzero end);
  GRBgetsol n p := (0, match optimum p with Some v => values v | None => [] end);
  GRBgeterrormsg p := "Index is not valid"%string
}.

(** The rows and the objective only depend on the variables they mention. *)
Lemma bits_values v i : 0 <= i < Z.of_nat (length v) -> bits_of (values v) i = nth (Z.to_nat i) v false.
Proof.
  intros Hi. unfold bits_of, values. rewrite list_lookup_fmap. destruct (lookup_lt_is_Some_2 v (Z.to_nat i)) as [b Hb]; [lia|].
  rewrite Hb, (nth_lookup_Some _ _ _ _ Hb). by destruct b; vm_compute.
Qed.

Lemma row_value_ext n b b' r : within n r -> (forall i, 0 <= i < n -> b i = b' i) -> row_value b r = row_value b' r.
Proof. intros Hw Hb. unfold row_value. apply total_ext. intros t Ht. unfold within in Hw. rewrite Forall_forall in Hw. unfold entry_value. by rewrite Hb by by apply Hw. Qed.

Lemma holds_ext n tol b b' r : within n r -> (forall i, 0 <= i < n -> b i = b' i) -> holds tol b r <-> holds tol b' r.
Proof. intros Hw Hb. unfold holds. by rewrite (row_value_ext n b b' r). Qed.

Lemma objective_ext b b' obj : (forall i, 0 <= i < Z.of_nat (length obj) -> b i = b' i) -> objective_value b obj = objective_value b' obj.
Proof.
  intros Hb. apply total_ext. intros [i c] Hin. unfold entry_value. cbn [fst snd].
  apply elem_of_zip_l in Hin as Hi. rewrite elem_of_upto in Hi. by rewrite Hb.
Qed.

(** Every assignment is that of a vector. *)
Definition vector_of (n : nat) (b : Z -> bool) : list bool := b <$> upto (Z.of_nat n).

Lemma vector_length n b : length (vector_of n b) = n.
Proof. unfold vector_of, upto. rewrite length_fmap, length_seqZ. lia. Qed.

Lemma vector_bits n b i : 0 <= i < Z.of_nat n -> bits_of (values (vector_of n b)) i = b i.
Proof.
  intros Hi. rewrite bits_values by (rewrite vector_length; lia). apply nth_lookup_Some. unfold vector_of, upto.
  rewrite list_lookup_fmap, lookup_seqZ_lt by lia. cbn. f_equal. f_equal. lia.
Qed.

Lemma optimum_ok p : Forall (within (range p)) (pg_rows p) ->
  match optimum p with
  | None => forall b, ~ Forall (holds 0 b) (pg_rows p)
  | Some v => length v = length (pg_objective p) /\ Forall (holds 0 (bits_of (values v))) (pg_rows p) /\
      forall b, Forall (holds 0 b) (pg_rows p) -> objective_value (bits_of (values v)) (pg_objective p) <= objective_value b (pg_objective p)
  end.
Proof.
  intros Hw. set (n := length (pg_objective p)).
  assert (forall b, Forall (holds 0 b) (pg_rows p) -> vector_of n b ∈ filter (fun v => Forall (holds 0 (bits_of (values v))) (pg_rows p)) (vectors n)) as Hb.
  { intros b Hb. apply list_elem_of_filter. split; [|apply elem_of_vectors, vector_length]. rewrite Forall_forall in Hb, Hw. apply Forall_forall. intros r Hr.
    apply (holds_ext (range p) 0 b); [by apply Hw|intros i Hi; by rewrite vector_bits|by apply Hb]. }
  pose proof (least_ok (fun v => objective_value (bits_of (values v)) (pg_objective p)) (filter (fun v => Forall (holds 0 (bits_of (values v))) (pg_rows p)) (vectors n))) as Hl.
  unfold optimum. fold n. destruct (least _ _) as [v|].
  - destruct Hl as [Hin Hl]. rewrite list_elem_of_filter, elem_of_vectors in Hin. destruct Hin as [Hv Hlen]. split_and!; [done|done|]. intros b Hfb.
    specialize (Hl _ (Hb b Hfb)). cbn beta in Hl. rewrite (objective_ext (bits_of (values (vector_of n b))) b) in Hl; [done|]. intros i Hi. by apply vector_bits.
  - intros b Hfb. specialize (Hb b Hfb). rewrite Hl in Hb. by apply elem_of_nil in Hb.
Qed.

#[export] Program Instance search_ok : GurobiOk Program := {
  grb_program p := p;
  grb_tolerance := 0;
  grb_gap p := 0
}.
Next Obligation. split; [lia|apply unity_pos]. Qed.
Next Obligation. by intros m [= <-]. Qed.
Next Obligation. by intros vars m m' [= <-]. Qed.
Next Obligation. by intros m m' [= <-]. Qed.
Next Obligation. by intros m m' [= <-]. Qed.
Next Obligation. intros r m m'. cbn. case_decide; by intros [= <-]. Qed.
Next Obligation. by intros m m' [= <-]. Qed.
Next Obligation.
  intros p sol. cbn. case_decide as Hw; [|done]. pose proof (optimum_ok p Hw) as Ho. destruct (optimum p) as [v|]; [|done].
  intros _ [= <-]. destruct Ho as (Hl & Hr & Hm). unfold values at 1. rewrite length_fmap. split; [done|]. intros _. split; [done|].
  intros b Hb. specialize (Hm b Hb). lia.
Qed.

Lemma search_reliable : reliable Program.
Proof.
  split; try done.
  - intros r p Hw. cbn. by rewrite decide_True.
  - intros p p' b Hw Hb [= <-]. cbn. rewrite decide_True by done. pose proof (optimum_ok p Hw) as Ho. destruct (optimum p); [done|]. by destruct (Ho b).
Qed.

Lemma search_zero_or_one n p sol : GRBgetsol n p = (0, sol) -> zero_or_one sol.
Proof.
  intros [= <-]. destruct (optimum p) as [v|]; [|constructor]. apply Forall_fmap, Forall_forall. intros [] _; [right|left]; by vm_compute.
Qed.

Lemma search_solves base stats w constraints e sol : solve_rows base stats w constraints = Ret (e, sol) -> zero_or_one sol.
Proof.
  unfold solve_rows, solve_model. intros E. repeat (apply bind_Ret in E as (? & ? & E)). injection E as <- <-.
  repeat match goal with H : mbind _ _ = Ret _ |- _ => apply bind_Ret in H as (? & ? & H) end. case_match; try done.
  repeat match goal with H : mbind _ _ = Ret _ |- _ => apply bind_Ret in H as (? & ? & H) end.
  match goal with H : checked_read (GRBgetsol _ _) _ = Ret _ |- _ => apply checked_read_Ret in H end. by eapply search_zero_or_one.
Qed.

(** ** A concrete workload *)

Definition two_env : var_env := env_of 2 2 2.

Lemma two_input : solver_input Z.of_nat two_attributes id two_stats some_queries two_workload two_env.
Proof.
  split.
  - done.
  - by vm_compute.
  - intros [|[|i]] a Ha; vm_compute in Ha; [injection Ha as <-; by vm_compute..|done].
  - apply some_queries_known.
  - vm_compute. reflexivity.
  - apply two_sized.
  - vm_compute. reflexivity.
Qed.

Definition two_size : double := match getPartitionSize two_attributes id two_stats (whole two_workload) with Ret v => v | _ => dzero end.
Definition two_sum : double := match Optimal.s two_attributes two_stats (qw_attributes_ two_workload) with Ret v => v | _ => dzero end.

Lemma two_admissible : admissible two_attributes two_stats two_workload (storage_limit two_size dunit) [[0; 1]%nat].
Proof.
  split.
  - apply Forall_singleton. split_and!; [done|apply (NoDup_seq 0 2)|by intros a].
  - intros a Ha. change (length two_attributes) with 2%nat in Ha. exists [0; 1]%nat. split; [left|]. rewrite !elem_of_cons. lia.
  - by vm_compute.
  - vm_compute. discriminate.
Qed.

Lemma optimal_overlapping_witness : exists ps,
  OptimalOverlapping_solve (M := Program) two_attributes id two_stats two_workload dunit = Ret ps /\ covers_all two_attributes ps.
Proof.
  destruct (optimal_overlapping (M := Program) Z.of_nat two_attributes id two_stats some_queries two_workload two_env dunit two_size [[0; 1]%nat]) as (sol & E & Hsol).
  - apply two_input.
  - apply search_reliable.
  - vm_compute. reflexivity.
  - apply two_admissible.
  - destruct (Hsol (search_solves _ _ _ _ _ _ E)) as (ps & reads & pg & Eps & _ & _ & Hcov & _). exists ps. split; [exact Eps|exact Hcov].
Defined.

Lemma two_partition : partition_of two_attributes (count_limit two_size two_sum dunit) [[0; 1]%nat].
Proof.
  split.
  - by repeat constructor.
  - reflexivity.
  - vm_compute. discriminate.
Qed.

Lemma optimal_nonoverlapping_witness : exists ps,
  OptimalNonOverlapping_solve (M := Program) two_attributes id two_stats two_workload dunit = Ret ps /\ concat ps ≡ₚ [0; 1]%nat.
Proof.
  destruct (optimal_nonoverlapping (M := Program) Z.of_nat two_attributes id two_stats some_queries two_workload two_env dunit two_size two_sum [[0; 1]%nat]) as (sol & E & Hsol).
  - apply two_input.
  - apply search_reliable.
  - vm_compute. reflexivity.
  - vm_compute. reflexivity.
  - apply two_partition.
  - destruct (Hsol (search_solves _ _ _ _ _ _ E)) as (ps & pg & Eps & _ & _ & Hcat & _). exists ps. split; [exact Eps|exact Hcat].
Defined.

(** One attribute and one query: the search returns its partition, and with a
    threshold that admits none the solver throws. *)
Definition one_attributes : list Attribute := attributes_ (new_schema [("a"%string, INT64)]).
Definition one_stats : SchemaStats := [(0, (3, dofZ 24))].
Definition one_workload : QueryWorkload :=
  match addQuery Z.of_nat (newQuery dzero dunit ["a"]%string) (newQueryWorkload one_attributes) with
  | Ret w => w
  | _ => newQueryWorkload []
  end.

Example one_overlapping :
  OptimalOverlapping_solve (M := Program) one_attributes id one_stats one_workload dunit = Ret [[0]]%nat /\
  OptimalNonOverlapping_solve (M := Program) one_attributes id one_stats one_workload dunit = Ret [[0]]%nat /\
  OptimalOverlapping_solve (M := Program) one_attributes id one_stats one_workload (dopp dunit) = Throw (runtime_error "Index is not valid").
Proof. vm_compute. split_and!; reflexivity. Qed.

(** ** Values near one *)

(** A library that returns a given solution. *)
Definition fixed (sol : list double) : Gurobi unit := {|
  GRBnewmodel := (0, tt); GRBaddvars _ m := (0, m); GRBsetminimize m := (0, m); GRBupdatemodel m := (0, m);
  GRBaddconstr _ m := (0, m); GRBoptimize m := (0, m); GRBgetstatus _ := (0, GRB_OPTIMAL); GRBgetobjval _ := (0, dzero);
  GRBgetsol _ _ := (0, sol); GRBgeterrormsg _ := ""%string
|}.

(** 1 - 2^-30, within the integrality tolerance 10^-5 of the library. *)
Definition near_one : double := dsub dunit (ddiv dunit (dofZ (2 ^ 30))).

(** [ctx.sol[j] == 1] takes a value that is not exactly one for zero: of a
    solution whose four variables are within the tolerance of one, no partition
    is read, and the partitioning without its only attribute is returned. *)
Example near_one_lost :
  OptimalOverlapping_solve (H := fixed (replicate 4 dunit)) one_attributes id one_stats one_workload dunit = Ret [[0]]%nat /\
  OptimalOverlapping_solve (H := fixed (replicate 4 near_one)) one_attributes id one_stats one_workload dunit = Ret [].
Proof. vm_compute. split; reflexivity. Qed.

(** The names of the variables [z] are listed with the query innermost, and
    the indices have the attribute and the partition innermost. *)
Example names_of_z : exists names, name_variables two_env = Ret names /\
  names !! Z.to_nat (z two_env 0 1 0) = Some "z_a1_p1_q2"%string.
Proof. eexists. split; [vm_compute; reflexivity|]. vm_compute. reflexivity. Qed.
