(* ===== verification/StreamHistory.v ===== *)
(** * Streams into the historical graph

    The blocks the in-memory graph writes for a stream of edges are blocks the
    historical graph can store, in an order in which the edges of every vertex
    follow each other; a graph fed with them holds them as its history. *)

From Stdlib Require Import ZArith Lia Permutation.
From stdpp Require Import base numbers gmap strings list sorting.
From S2P Require Import Prelude.
From S2P Require Import Double.
From S2P Require Import NetworkByteBuffer.
From S2P Require Import LevelDB.
From S2P Require Import Schema.
From S2P Require Import AttributeData.
From S2P Require Import MetaData.
From S2P Require Import NeighborList.
From S2P Require Import PartitionIndex.
From S2P Require Import Block.
From S2P Require Import BlockContent.
From S2P Require Import BlockStorage.
From S2P Require Import BlockManager.
From S2P Require Import IntervalIndex.
From S2P Require Import Conf.
From S2P Require ExpirationMap.
From S2P Require Import ExpiredLists.
From S2P Require Import CandidateCounts.
From S2P Require Import BlockLayout.
From S2P Require Import SmartLayout.
From S2P Require Import ExpirationFlow.
From S2P Require InMemoryGraph.
From S2P Require Import GraphFlow.
From S2P Require Import HistoricalGraph.
From S2P Require Import DerivedBlocks.
From S2P Require Import HistoryBlocks.
From S2P Require Import HistoryInvariant.

(** The historical graph is the sink of the expiration map's blocks. *)
#[export] Instance history_sink {D} `{LevelDB D} {R} `{SpatialIndex R} : ExpirationMap.BlockSink (HistoricalGraph D R) :=
  fun b g => HistoricalGraph.addBlock b g.

(** ** Sums of integers *)

Definition sumZ {T} (f : T -> Z) (l : list T) : Z := foldr (fun x n => f x + n) 0 l.

Lemma sumZ_app {T} (f : T -> Z) l k : sumZ f (l ++ k) = sumZ f l + sumZ f k.
Proof. unfold sumZ in *. induction l as [|x l IH]; [done|]. cbn. lia. Qed.

Lemma sumZ_perm {T} (f : T -> Z) l k : l ≡ₚ k -> sumZ f l = sumZ f k.
Proof. unfold sumZ. induction 1; cbn; lia. Qed.

Lemma sumZ_fmap {S T} (f : T -> Z) (g : S -> T) l : sumZ f (g <$> l) = sumZ (fun x => f (g x)) l.
Proof. unfold sumZ in *. induction l as [|x l IH]; [done|]. cbn. lia. Qed.

Lemma sumZ_nonneg {T} (f : T -> Z) l : (forall x, 0 <= f x) -> 0 <= sumZ f l.
Proof. intros Hf. unfold sumZ in *. induction l as [|x l IH]; [done|]. specialize (Hf x). cbn. lia. Qed.

Lemma sumZ_submseteq {T} (f : T -> Z) l k : (forall x, 0 <= f x) -> l ⊆+ k -> sumZ f l <= sumZ f k.
Proof.
  intros Hf [l' Hp]%submseteq_Permutation. rewrite (sumZ_perm f _ _ Hp), sumZ_app.
  pose proof (sumZ_nonneg f l' Hf). lia.
Qed.

Lemma sumZ_bound {T} (f : T -> Z) l B : (forall x, x ∈ l -> f x <= B) -> sumZ f l <= Z.of_nat (length l) * B.
Proof.
  induction l as [|x l IH]; intros Hb; [done|]. pose proof (Hb x ltac:(left)).
  cbn [sumZ foldr length]. change (foldr _ 0 l) with (sumZ f l). rewrite Nat2Z.inj_succ.
  specialize (IH ltac:(intros y Hy; apply Hb; by right)). lia.
Qed.

(** ** The data of the edges of a block *)

Lemma data_total_sum dsize T : data_total dsize T = sumZ dsize (elements (set_map und_key T : gset Key)).
Proof. done. Qed.

(** At most two entries share the data of an edge. *)
Lemma data_total_twice dsize (K : list Key) : (forall x, 0 <= dsize x) -> NoDup K ->
  sumZ (fun x => dsize (und_key x)) K <= 2 * data_total dsize (list_to_set K).
Proof.
  intros Hd Hnd. rewrite data_total_sum. set (U := elements _).
  assert (forall (P : Key -> Prop) `{!forall x, Decision (P x)}, (forall x y, P x -> P y -> und_key x = und_key y -> x = y) ->
    sumZ (fun x => dsize (und_key x)) (filter P K) <= sumZ dsize U) as Hhalf.
  { intros P ? Hinj. rewrite <- sumZ_fmap. apply sumZ_submseteq; [done|]. apply NoDup_submseteq.
    - apply NoDup_fmap_2_strong; [|by apply NoDup_filter].
      intros x y [Hx _]%list_elem_of_filter [Hy _]%list_elem_of_filter. by apply Hinj.
    - intros x (y & -> & [_ Hy]%list_elem_of_filter)%list_elem_of_fmap. unfold U. apply elem_of_elements, elem_of_map.
      exists y. split; [done|]. by apply elem_of_list_to_set. }
  set (P := fun x : Key => x.1.1 <= x.1.2).
  assert (forall x, Decision (P x)) by (intros x; unfold P; apply _).
  rewrite <- (sumZ_perm _ _ _ (filter_app_complement P K)), sumZ_app.
  pose proof (Hhalf P _) as H1. pose proof (Hhalf (fun x => ~ P x) _) as H2. unfold P in H1, H2.
  enough (forall x y, x.1.1 <= x.1.2 -> y.1.1 <= y.1.2 -> und_key x = und_key y -> x = y) as Hle; [|
    intros [[a b] t] [[a' b'] t'] H3 H4; cbn in *; intros [= E1 E2 ->]; f_equal; f_equal; lia].
  enough (forall x y : Key, ~ x.1.1 <= x.1.2 -> ~ y.1.1 <= y.1.2 -> und_key x = und_key y -> x = y) as Hgt; [|
    intros [[a b] t] [[a' b'] t'] H3 H4; cbn in *; intros [= E1 E2 ->]; f_equal; f_equal; lia].
  specialize (H1 Hle). specialize (H2 Hgt). unfold P. lia.
Qed.

Lemma data_total_bound dsize (K : list Key) B : (forall x, 0 <= dsize x <= B) -> NoDup K ->
  0 <= data_total dsize (list_to_set K) <= Z.of_nat (length K) * B.
Proof.
  intros Hd Hnd. rewrite data_total_sum. split; [apply sumZ_nonneg, Hd|].
  rewrite <- (length_fmap und_key K). transitivity (sumZ dsize (und_key <$> K)); [|by apply sumZ_bound; intros; apply Hd].
  apply sumZ_submseteq; [apply Hd|]. apply NoDup_submseteq; [apply NoDup_elements|].
  intros x (y & -> & Hy%elem_of_list_to_set)%elem_of_elements%elem_of_map. by apply list_elem_of_fmap_2.
Qed.

(** ** Streams that can be stored *)

Definition edge_size (e : StreamEdge) : Z := Z.of_nat (length (enc_data (cell (se_data e)))).
Definition edge_key (e : StreamEdge) : Key := und_key (se_v e, se_u e, dkey (se_tm e)).

(** Edges between distinct vertices at increasing times, each with a value for
    every attribute of the schema and small enough for the edges a block starts
    with; the middle of two times does not overflow. *)
Record storable_stream (s : Schema) (conf : Conf) (es : list StreamEdge) : Prop := {
  ss_edges e : e ∈ es -> (is_u64 (se_v e)) /\ (is_u64 (se_u e)) /\ se_v e <> se_u e /\ instant (se_tm e) /\
    complete s (cell (se_data e)) /\ edge_room conf (edge_size e);
  ss_layout : layout_ok conf;
  ss_sorted : StronglySorted (fun a b => se_tm a < se_tm b) es;
  ss_middle e e' : e ∈ es -> e' ∈ es -> instant (midpoint (se_tm e) (se_tm e')) /\ midpoint (se_tm e) (se_tm e') < dinf;
  ss_block : 8 < blockSize conf <= 2 ^ 29;
  ss_length : Z.of_nat (length es) < 2 ^ 32 /\ Z.of_nat (length es) * blockSize conf <= 2 ^ 52
}.

Section Stream.
Context (s : Schema) (conf : Conf) (es : list StreamEdge) (Hss : storable_stream s conf es).

Lemma stream_edge_fits e : e ∈ es -> 36 + edge_size e <= blockSize conf.
Proof.
  intros He. apply edge_room_fits; [apply (ss_layout _ _ _ Hss)|unfold edge_size; lia|]. apply (ss_edges _ _ _ Hss e He).
Qed.

(** The size of the data of an edge, by its key. *)
Definition stream_size (k : Key) : Z :=
  match list_find (fun e => edge_key e = k) es with Some (_, e) => edge_size e | None => 0 end.

Lemma same_time e e' : e ∈ es -> e' ∈ es -> se_tm e = se_tm e' -> e = e'.
Proof.
  intros He He' Ht. pose proof (ss_sorted _ _ _ Hss) as Hs. clear Hss. induction Hs as [|x l Hs IH Hx]; [by apply elem_of_nil in He|].
  rewrite Forall_forall in Hx. apply elem_of_cons in He as [->|He], He' as [->|He']; [done| | |by apply IH].
  - specialize (Hx _ He'). lia.
  - specialize (Hx _ He). lia.
Qed.

Lemma stream_size_ok e : e ∈ es -> stream_size (edge_key e) = edge_size e.
Proof.
  intros He. unfold stream_size. destruct (list_find_elem_of (fun e' => edge_key e' = edge_key e) es e He eq_refl) as [[i e'] E].
  rewrite E. apply list_find_Some in E as (Hi & Hk & _). apply list_elem_of_lookup_2 in Hi. f_equal. apply same_time; [done..|].
  injection Hk as _ _ Ht. destruct (ss_edges _ _ _ Hss e He) as (_ & _ & _ & Hi1 & _), (ss_edges _ _ _ Hss e' Hi) as (_ & _ & _ & Hi2 & _).
  by rewrite !instant_key in Ht.
Qed.

Lemma stream_size_bound k : 0 <= stream_size k <= blockSize conf.
Proof.
  unfold stream_size. pose proof (ss_block _ _ _ Hss). destruct (list_find _ es) as [[i e]|] eqn:E; [|lia].
  apply list_find_Some in E as (Hi%list_elem_of_lookup_2 & _). pose proof (stream_edge_fits e Hi).
  unfold edge_size in *. lia.
Qed.

Lemma stream_data_size e : e ∈ es -> getSerializedSizeOf (cell (se_data e)) = Ret (edge_size e).
Proof.
  intros He. destruct (ss_edges _ _ _ Hss e He) as (_ & _ & _ & _ & Hc & _). pose proof (ss_block _ _ _ Hss) as Hb.
  pose proof (stream_edge_fits e He).
  rewrite getSerializedSizeOf_ok by apply Hc. unfold edge_size in *. rewrite u64_id by lia. done.
Qed.

Lemma storable_stream_ok : stream_ok stream_size es.
Proof.
  split.
  - apply Forall_forall. intros e He. destruct (ss_edges _ _ _ Hss e He) as (_ & _ & Hne & Hi & Hc & _).
    split; [done|]. split; [by apply instant_num|]. split; [apply Hc|]. rewrite stream_data_size by done.
    f_equal. symmetry. by apply stream_size_ok.
  - pose proof (ss_sorted _ _ _ Hss) as Hs. pose proof (fun e H => proj1 (proj2 (proj2 (proj2 (ss_edges _ _ _ Hss e H))))) as Hi.
    clear Hss. induction Hs as [|x l Hs IH Hx]; constructor; [apply IH; intros; apply Hi; by right|].
    rewrite Forall_forall in *. intros y Hy. rewrite !instant_key by (apply Hi; set_solver). by apply Hx.
Qed.

Lemma storable_stream_fits : stream_fits stream_size conf es.
Proof.
  apply Forall_forall. intros e He. change (und_key _) with (edge_key e). rewrite stream_size_ok by done.
  apply (ss_edges _ _ _ Hss e He).
Qed.

(** ** The entries of the vertices *)

Lemma incident_cons w e l : incident w (e :: l) = new_entries (se_v e) (se_u e) (se_tm e) (se_data e) w ++ incident w l.
Proof. done. Qed.

Lemma incident_edge w e' : e' ∈ incident w es -> exists e, e ∈ es /\ tm_ e' = se_tm e /\ data_ e' = se_data e /\
  ((w = se_v e /\ toVertex_ e' = se_u e) \/ (w = se_u e /\ toVertex_ e' = se_v e)).
Proof.
  clear Hss. unfold incident. rewrite list_elem_of_In, in_concat. intros (l & Hin & Hl).
  apply list_elem_of_In in Hin, Hl. apply list_elem_of_fmap in Hin as (e & -> & He). exists e.
  unfold new_entries in Hl. repeat case_decide; apply list_elem_of_singleton in Hl || set_solver; subst; tauto.
Qed.

Lemma incident_order w : Forall instant (tm_ <$> incident w es) /\ StronglySorted Z.lt (tm_ <$> incident w es).
Proof.
  pose proof (ss_sorted _ _ _ Hss) as Hs. pose proof (fun e H => proj1 (proj2 (proj2 (proj2 (ss_edges _ _ _ Hss e H))))) as Hi.
  clear Hss. induction Hs as [|x l Hs IH Hx]; [split; constructor|].
  destruct IH as [IH1 IH2]; [intros; apply Hi; by right|]. rewrite incident_cons, fmap_app.
  assert (instant (se_tm x)) as Hix by (apply Hi; left). assert (Forall (Z.lt (se_tm x)) (tm_ <$> incident w l)) as Hlt.
  { apply Forall_forall. intros t (e' & -> & He')%list_elem_of_fmap. apply incident_elem in He' as (e & He & ->).
    rewrite Forall_forall in Hx. by apply Hx. }
  unfold new_entries. repeat case_decide; cbn; (split; [try constructor; done|try constructor; done]).
Qed.

Lemma vertex_times_blocks v bs : vertex_times v bs = tm_ <$> block_lists v bs.
Proof.
  clear Hss. unfold vertex_times, block_lists. induction bs as [|b bs IH]; [done|]. cbn. rewrite IH, fmap_app. f_equal.
  unfold block_list. by destruct (assoc_find v (neigs_ b)).
Qed.
End Stream.

(** ** Written blocks can be stored *)

(** The keys of the entries of a block, list by list. *)
Definition block_keys (b : Block) : list Key := neigs_ b ≫= fun p => ekey p.1 <$> edges_ p.2.

Lemma block_entries_keys b : block_entries b = list_to_set (block_keys b).
Proof. done. Qed.

Lemma good_block_list dsize conf b v nl : good_block dsize conf b -> (v, nl) ∈ neigs_ b ->
  headVertex_ nl = v /\ edges_ nl <> [] /\ edges_ nl = block_list v b.
Proof.
  intros (L & cnt & HL & Hp & _) Hin. pose proof (pb_NoDup _ _ _ Hp) as Hnd.
  pose proof (assoc_find_elem v nl _ Hnd Hin) as Hf. unfold block_list. rewrite Hf.
  rewrite (pb_lists _ _ _ Hp) in Hf. case_decide as Hd; [done|]. injection Hf as <-. split; [done|]. split; [|done]. cbn.
  pose proof (pb_range _ _ _ Hp v). intros E%(f_equal length). rewrite length_take in E. cbn in E. lia.
Qed.

Lemma good_block_NoDup dsize conf b : good_block dsize conf b -> NoDup (neigs_ b).*1.
Proof. intros (L & cnt & _ & Hp & _). apply (pb_NoDup _ _ _ Hp). Qed.

Lemma good_block_heads dsize conf b : good_block dsize conf b -> heads_ok b.
Proof. intros Hg. apply Forall_forall. intros [v nl] Hin. by apply (good_block_list dsize conf b). Qed.

Lemma sumZ_indicator (a : VertexId) ws : NoDup ws -> sumZ (fun w => if decide (w = a) then 1 else 0) ws <= 1.
Proof.
  intros Hnd. induction Hnd as [|w ws Hw Hnd IH]; [done|]. cbn [sumZ foldr]. change (foldr _ 0 ws) with (sumZ (fun w => if decide (w = a) then 1 else 0) ws).
  case_decide; [|lia]. subst w. pose proof (sumZ_bound (fun w => if decide (w = a) then 1 else 0) ws 0) as Hb.
  rewrite Z.mul_0_r in Hb. specialize (Hb ltac:(intros x Hx; rewrite decide_False; [done|by intros ->])). lia.
Qed.

Lemma sumZ_add {T} (f g : T -> Z) l : sumZ (fun x => f x + g x) l = sumZ f l + sumZ g l.
Proof. unfold sumZ. induction l as [|x l IH]; [done|]. cbn. lia. Qed.

Lemma sumZ_mono {T} (f g : T -> Z) l : (forall x, f x <= g x) -> sumZ f l <= sumZ g l.
Proof. intros H. unfold sumZ. induction l as [|x l IH]; [done|]. specialize (H x). cbn. lia. Qed.

(** The two ends of every edge of the stream have an entry each. *)
Lemma incident_total (ws : list VertexId) es : NoDup ws ->
  sumZ (fun w => Z.of_nat (length (incident w es))) ws <= 2 * Z.of_nat (length es).
Proof.
  intros Hnd. induction es as [|e es IH].
  { pose proof (sumZ_bound (fun w => Z.of_nat (length (incident w []))) ws 0 ltac:(done)). cbn [length]. lia. }
  pose proof (sumZ_indicator (se_v e) ws Hnd) as Hv. pose proof (sumZ_indicator (se_u e) ws Hnd) as Hu.
  assert (sumZ (fun w => Z.of_nat (length (incident w (e :: es)))) ws <=
    sumZ (fun w => ((if decide (w = se_v e) then 1 else 0) + (if decide (w = se_u e) then 1 else 0)) + Z.of_nat (length (incident w es))) ws) as Hle.
  { apply sumZ_mono. intros w. rewrite incident_cons, length_app. unfold new_entries. repeat case_decide; cbn; lia. }
  rewrite !sumZ_add in Hle. cbn [length]. lia.
Qed.

Section Written.
Context (s : Schema) (conf : Conf) (es : list StreamEdge) (Hss : storable_stream s conf es).
Context (bs : list Block) (Hbs : forall w, block_lists w bs = incident w es).
Context (b : Block) (Hin : b ∈ bs) (Hgood : good_block (stream_size es) conf b).

Lemma block_entry v nl e : (v, nl) ∈ neigs_ b -> e ∈ edges_ nl -> e ∈ incident v es.
Proof.
  intros Hp He. destruct (good_block_list _ _ b v nl Hgood Hp) as (_ & _ & E). rewrite <- Hbs. unfold block_lists.
  rewrite list_elem_of_In, in_concat. exists (edges_ nl). rewrite <- !list_elem_of_In. split; [|done].
  rewrite E. by apply list_elem_of_fmap_2.
Qed.

Lemma block_edge v nl e : (v, nl) ∈ neigs_ b -> e ∈ edges_ nl -> exists se, se ∈ es /\ tm_ e = se_tm se /\ data_ e = se_data se /\
  und_key (ekey v e) = edge_key se /\ is_u64 v /\ is_u64 (toVertex_ e).
Proof.
  intros Hp He. destruct (incident_edge es v e (block_entry v nl e Hp He)) as (se & Hse & Ht & Hd & Hends). exists se.
  destruct (ss_edges _ _ _ Hss se Hse) as (Hv & Hu & _). split; [done|]. split; [done|]. split; [done|].
  unfold edge_key, ekey. cbn. rewrite Ht. destruct Hends as [[-> ->]|[-> ->]]; (split; [|done]); [done|].
  by rewrite Z.min_comm, Z.max_comm.
Qed.

Lemma sublist_order v nl : (v, nl) ∈ neigs_ b -> Forall instant (tm_ <$> edges_ nl) /\ StronglySorted Z.lt (tm_ <$> edges_ nl).
Proof.
  intros Hp. destruct (good_block_list _ _ b v nl Hgood Hp) as (_ & _ & ->). destruct (incident_order s conf es Hss v) as [Hi Hs].
  rewrite <- Hbs in Hi, Hs. apply list_elem_of_split in Hin as (l1 & l2 & ->).
  change (l1 ++ b :: l2) with (l1 ++ [b] ++ l2) in Hi, Hs. rewrite !block_lists_app, !fmap_app in Hi, Hs.
  apply Forall_app in Hi as [_ [Hi _]%Forall_app]. apply StronglySorted_app in Hs as (_ & _ & (_ & Hs & _)%StronglySorted_app).
  unfold block_lists in Hi, Hs. cbn in Hi, Hs. by rewrite app_nil_r in Hi, Hs.
Qed.

Lemma block_keys_NoDup : NoDup (block_keys b).
Proof.
  apply NoDup_bind.
  - intros [v nl] [v' nl'] y Hp Hp' (e & -> & _)%list_elem_of_fmap (e' & Ek & _)%list_elem_of_fmap. cbn in Ek.
    injection Ek as <- _ _. pose proof (good_block_NoDup _ _ _ Hgood) as Hnd.
    pose proof (assoc_find_elem v nl _ Hnd Hp) as E1. pose proof (assoc_find_elem v nl' _ Hnd Hp') as E2. congruence.
  - intros [v nl] Hp. destruct (sublist_order v nl Hp) as [Hi Hs]. cbn [fst snd]. clear Hgood Hin. revert Hi Hs.
    generalize (edges_ nl). clear Hp. intros l. induction l as [|e l IH]; intros Hi Hs; [constructor|].
    apply Forall_cons in Hi as [Hie Hi]. apply StronglySorted_inv in Hs as [Hs He]. cbn [fmap list_fmap]. constructor; [|by apply IH].
    intros (e' & Ek & He')%list_elem_of_fmap. injection Ek as _ Hk. rewrite Forall_forall in *.
    pose proof (list_elem_of_fmap_2 tm_ _ _ He') as Ht. specialize (He _ Ht). rewrite !instant_key in Hk by auto. lia.
  - by apply (NoDup_fmap_1 fst), (good_block_NoDup _ _ _ Hgood).
Qed.

Lemma length_block_keys : Z.of_nat (length (block_keys b)) <= 2 * Z.of_nat (length es).
Proof.
  etransitivity; [|apply (incident_total (neigs_ b).*1 es), (good_block_NoDup _ _ _ Hgood)].
  rewrite sumZ_fmap. pose proof (good_block_list (stream_size es) conf b) as Hl. unfold block_keys.
  assert (forall ns, (forall v nl, (v, nl) ∈ ns -> (v, nl) ∈ neigs_ b) ->
    Z.of_nat (length (ns ≫= fun p => ekey p.1 <$> edges_ p.2)) <= sumZ (fun p => Z.of_nat (length (incident p.1 es))) ns) as Hg.
  { induction ns as [|[v nl] ns IH]; intros Hsub; [done|].
    specialize (IH ltac:(intros; apply Hsub; by right)). rewrite bind_cons. cbn [sumZ foldr fst snd].
    rewrite length_app, length_fmap. change (foldr _ 0 ns) with (sumZ (fun p => Z.of_nat (length (incident p.1 es))) ns).
    assert (length (edges_ nl) <= length (incident v es))%nat; [|lia].
    destruct (Hl v nl Hgood ltac:(apply Hsub; left)) as (_ & _ & ->). rewrite <- Hbs. unfold block_lists.
    pose proof Hin as Hin'. apply list_elem_of_split in Hin' as (l1 & l2 & ->). rewrite fmap_app, fmap_cons, concat_app. cbn [concat].
    rewrite !length_app. lia. }
  by apply Hg.
Qed.

(** The bytes of the lists of a block. *)
Lemma block_bytes_sum :
  Z.of_nat (block_bytes b) = 12 * Z.of_nat (length (neigs_ b)) + 16 * Z.of_nat (length (block_keys b)) +
    sumZ (fun x => stream_size es (und_key x)) (block_keys b).
Proof.
  assert (forall v nl e, (v, nl) ∈ neigs_ b -> e ∈ edges_ nl ->
    Z.of_nat (length (enc_data (cell (data_ e)))) = stream_size es (und_key (ekey v e))) as Hd.
  { intros v nl e Hp He. destruct (block_edge v nl e Hp He) as (se & Hse & _ & -> & -> & _).
    by rewrite (stream_size_ok s conf es Hss). }
  unfold block_bytes, block_keys. revert Hd. generalize (neigs_ b) as ns. intros ns. clear Hin Hgood.
  induction ns as [|[v nl] ns IH]; intros Hd; [done|]. rewrite bind_cons. cbn [sum_list_with length fst snd].
  rewrite !length_app, !length_fmap, sumZ_app, sumZ_fmap.
  specialize (IH ltac:(intros v' nl' e Hp; apply (Hd v' nl' e); by right)).
  assert (Z.of_nat (list_bytes (v, nl)) = 12 + 16 * Z.of_nat (length (edges_ nl)) +
    sumZ (fun e => stream_size es (und_key (ekey v e))) (edges_ nl)) as Hl; [|lia].
  unfold list_bytes. cbn [snd]. pose proof (fun e => Hd v nl e ltac:(left)) as Hd1. clear IH Hd. revert Hd1. generalize (edges_ nl). intros l Hd.
  induction l as [|e l IH]; [done|]. cbn [sum_list_with length sumZ foldr]. unfold edge_bytes at 1.
  change (foldr _ 0 l) with (sumZ (fun e => stream_size es (und_key (ekey v e))) l).
  specialize (IH ltac:(intros e' He'; apply Hd; by right)). pose proof (Hd e ltac:(left)) as He. lia.
Qed.

Lemma length_lists : (length (neigs_ b) <= length (block_keys b))%nat.
Proof.
  pose proof (good_block_list (stream_size es) conf b) as Hl. unfold block_keys.
  assert (forall ns, (forall v nl, (v, nl) ∈ ns -> (v, nl) ∈ neigs_ b) ->
    (length ns <= length (ns ≫= fun p => ekey p.1 <$> edges_ p.2))%nat) as Hg; [|by apply Hg].
  induction ns as [|[v nl] ns IH]; intros Hsub; [done|]. specialize (IH ltac:(intros; apply Hsub; by right)).
  rewrite bind_cons. cbn [length fst snd]. rewrite length_app, length_fmap.
  destruct (Hl v nl Hgood ltac:(apply Hsub; left)) as (_ & Hne & _). destruct (edges_ nl); [done|]. cbn. lia.
Qed.

(** The size of a block bounds what is stored of it. *)
Lemma written_bytes : Z.of_nat (block_bytes b) <= 2 ^ 30 /\ Z.of_nat (length (block_keys b)) <= 2 ^ 25.
Proof.
  pose proof (good_block_size _ _ _ Hgood) as Hs. unfold content_size, block_size in Hs. rewrite block_entries_keys in Hs.
  pose proof block_keys_NoDup as Hnd. rewrite size_list_to_set in Hs by done. rewrite block_bytes_sum.
  pose proof (ss_block _ _ _ Hss) as Hb. pose proof (ss_length _ _ _ Hss) as Hlen. pose proof length_block_keys as Hk.
  pose proof length_lists as Hn. pose proof (stream_size_bound s conf es Hss) as Hsz.
  pose proof (data_total_bound (stream_size es) (block_keys b) (blockSize conf) Hsz Hnd) as [Ht0 Ht].
  pose proof (data_total_twice (stream_size es) (block_keys b) ltac:(intros; apply Hsz) Hnd) as H2.
  assert (Z.of_nat (length (block_keys b)) * blockSize conf <= 2 ^ 34 * 2 ^ 29) by (apply Z.mul_le_mono_nonneg; lia).
  rewrite u64_id in Hs by lia. lia.
Qed.
Lemma written_wf : block_wf s b.
Proof.
  split.
  - split; [apply (good_block_NoDup _ _ _ Hgood)|]. apply Forall_forall. intros [v nl] Hp.
    by destruct (good_block_list _ _ b v nl Hgood Hp) as (_ & ? & _).
  - intros [[h k] e] (nl & Hp & He%list_elem_of_lookup_2)%elem_of_edges_of. cbn [snd].
    destruct (block_edge h nl e Hp He) as (se & Hse & -> & _). destruct (ss_edges _ _ _ Hss se Hse) as (_ & _ & _ & Hi & _).
    by apply instant_num.
  - intros [[h k] e] [[h' k'] e'] (nl & Hp & He%list_elem_of_lookup_2)%elem_of_edges_of
      (nl' & Hp' & He'%list_elem_of_lookup_2)%elem_of_edges_of Ht. cbn [snd].
    destruct (block_edge h nl e Hp He) as (se & Hse & Et & -> & _), (block_edge h' nl' e' Hp' He') as (se' & Hse' & Et' & -> & _).
    unfold triplet_eqb, edge_triplet in Ht. cbn in Ht. apply andb_true_iff in Ht as [_ Ht]. rewrite Et, Et' in Ht.
    apply deqb_eq in Ht. destruct (ss_edges _ _ _ Hss se Hse) as (_ & _ & _ & Hi & _), (ss_edges _ _ _ Hss se' Hse') as (_ & _ & _ & Hi' & _).
    rewrite !instant_key in Ht by done. by rewrite (same_time s conf es Hss se se').
  - intros [[h k] e] (nl & Hp & He%list_elem_of_lookup_2)%elem_of_edges_of. cbn [snd].
    destruct (block_edge h nl e Hp He) as (se & Hse & _ & -> & _). by destruct (ss_edges _ _ _ Hss se Hse) as (_ & _ & _ & _ & Hc & _).
Qed.

Lemma written_lists : Forall list_storable (neigs_ b).
Proof.
  apply Forall_forall. intros [v nl] Hp. destruct (good_block_list _ _ b v nl Hgood Hp) as (_ & Hne & _).
  assert (forall e, e ∈ edges_ nl -> is_u64 v /\ edge_storable e) as He.
  { intros e He. destruct (block_edge v nl e Hp He) as (se & Hse & Et & Ed & _ & Hv & Hu). split; [done|].
    destruct (ss_edges _ _ _ Hss se Hse) as (_ & _ & _ & Hi & [Hwt _] & _).
    split; [done|]. split; [rewrite Et; by apply instant_double|by rewrite Ed]. }
  split; [|split].
  - destruct (edges_ nl) as [|e es'] eqn:E; [done|]. apply (He e). left.
  - destruct written_bytes as [_ Hk]. cbn [snd].
    assert (length (edges_ nl) <= length (block_keys b))%nat as Hle; [|lia].
    clear He Hk Hne. unfold block_keys. revert Hp. generalize (neigs_ b). clear. intros l. induction l as [|p l IH]; intros Hp; [by apply elem_of_nil in Hp|].
    rewrite bind_cons, length_app, length_fmap. apply elem_of_cons in Hp as [<-|Hp]; [cbn; lia|specialize (IH Hp); lia].
  - apply Forall_forall. intros e H. by apply He.
Qed.

(** The middle of the times of a block, or of an empty block, is finite. *)
Lemma written_middle : exists mn mx, findMinMaxTimestamps b = Ret (mn, mx) /\ instant (midpoint mn mx) /\ midpoint mn mx < dinf.
Proof.
  assert (forall e, e ∈ es -> instant (se_tm e) /\ se_tm e <= dmax) as Htime.
  { intros e He. destruct (ss_edges _ _ _ Hss e He) as (_ & _ & _ & Hi & _). split; [done|].
    destruct (ss_middle _ _ _ Hss e e He He) as [_ Hm]. unfold instant in Hi.
    destruct (Z.eq_dec (se_tm e) dinf) as [E|E]; [rewrite E in Hm; by vm_compute in Hm|].
    change dmax with (dinf - 1). lia. }
  set (fine := fun acc : Timestamp * Timestamp => acc = (dmax, dzero) \/
    exists e e', e ∈ es /\ e' ∈ es /\ acc = (se_tm e, se_tm e')).
  enough (exists acc, findMinMaxTimestamps b = Ret acc /\ fine acc) as ([mn mx] & -> & [E|(e & e' & He & He' & E)]).
  { injection E as -> ->. exists dmax, dzero. split; [done|]. by vm_compute. }
  { injection E as -> ->. eexists _, _. split; [done|]. by apply (ss_middle _ _ _ Hss). }
  unfold findMinMaxTimestamps. apply (foldM_total (fun _ => fine)); [by left|].
  intros l [v nl] rest [mn mx] El Hacc.
  assert ((v, nl) ∈ neigs_ b) as Hp by (rewrite El; set_solver).
  destruct (good_block_list _ _ b v nl Hgood Hp) as (_ & Hne & _). unfold getOldestEdge, getNewestEdge. cbn [snd].
  destruct (head (edges_ nl)) as [o|] eqn:Eo; [|by destruct (edges_ nl)].
  destruct (last (edges_ nl)) as [n|] eqn:En; [|by apply last_None in En]. cbn [or_undefined mbind outcome_bind].
  eexists. split; [reflexivity|].
  assert (o ∈ edges_ nl) as Ho by (destruct (edges_ nl); [done|]; injection Eo as ->; left).
  apply last_Some_elem_of in En.
  destruct (block_edge v nl o Hp Ho) as (se & Hse & -> & _), (block_edge v nl n Hp En) as (se' & Hse' & -> & _).
  destruct (Htime _ Hse) as [Hi Hm], (Htime _ Hse') as [Hi' Hm'].
  right. destruct Hacc as [E|(e & e' & He & He' & E)]; injection E as -> ->.
  - assert (dzero = 0) as -> by done. assert (instant 0 /\ instant dmax) as [H0 H1] by by vm_compute. rewrite !instant_dltb by done.
    exists se, se'. split; [done|]. split; [done|]. unfold instant in Hi, Hi'.
    f_equal; [destruct (Z.ltb_spec (se_tm se) dmax); lia|destruct (Z.ltb_spec 0 (se_tm se')); lia].
  - exists (if dltb (se_tm se) (se_tm e) then se else e), (if dltb (se_tm e') (se_tm se') then se' else e').
    repeat case_match; done.
Qed.

Lemma written_stored (sl : list TimeSlicedPartitioning) :
  (forall t, t ∈ sl -> endTime_ t = dinf) -> well_stored s sl b.
Proof.
  intros Hsl. destruct written_middle as (mn & mx & E & Hi & Hlt). destruct written_bytes as [Hb _]. split.
  - apply written_wf.
  - apply written_lists.
  - exists mn, mx. split; [done|]. split; [done|]. split; [done|]. intros (t & Em & Ht)%list_elem_of_fmap. rewrite Em, Hsl in Hlt by done. lia.
  - lia.
Qed.
End Written.

(** ** Feeding the blocks to a graph *)

Section Sink.
Context (s : Schema) (Hdef : defined_schema s) (sl : list TimeSlicedPartitioning) (Htile : tiling sl) (Hparts : parts_ok s sl).
Context {D : Type} `{LevelDB D, !LevelDBOk D} {R : Type} `{SpatialIndex R, !SpatialIndexOk R}.

Lemma in_order_prefix bs bs' : in_order (bs ++ bs') -> in_order bs.
Proof.
  intros Hord v. destruct (Hord v) as [Hi Hs]. rewrite vertex_times_app in Hi, Hs.
  apply Forall_app in Hi as [? _]. by apply StronglySorted_app in Hs as (_ & ? & _).
Qed.

Lemma sink_history bs : forall (g : HistoricalGraph D R) A hist,
  hist_ok s sl g A hist -> Forall (fun b => well_stored s sl b /\ heads_ok b) bs -> in_order (hist.*2 ++ bs) ->
  nextBlockId_ (bman_ (hg_store_ g)) + Z.of_nat (length bs) * 2 ^ 24 < 2 ^ 64 ->
  exists g' A' hist', sink_all bs g = Ret g' /\ hist_ok s sl g' A' hist' /\ hist'.*2 = hist.*2 ++ bs /\
    nextBlockId_ (bman_ (hg_store_ g')) <= nextBlockId_ (bman_ (hg_store_ g)) + Z.of_nat (length bs) * 2 ^ 24.
Proof.
  induction bs as [|b bs IH]; intros g A hist Hg Hbs Hord Hroom.
  { exists g, A, hist. rewrite app_nil_r. split_and!; try done. cbn. lia. }
  apply Forall_cons in Hbs as [[Hb Hh] Hbs]. cbn [length] in Hroom. rewrite Nat2Z.inj_succ in Hroom.
  assert (in_order (hist.*2 ++ [b])) as Hord1 by (apply (in_order_prefix _ bs); by rewrite <- app_assoc).
  destruct (history_addBlock_ok s Hdef sl Htile Hparts g A hist b Hg Hb Hh Hord1) as (g1 & A1 & id & E1 & Hg1 & Hn1); [lia|].
  destruct (IH g1 A1 (hist ++ [(id, b)]) Hg1 Hbs) as (g2 & A2 & hist2 & E2 & Hg2 & Hh2 & Hn2).
  - rewrite fmap_app, <- app_assoc. exact Hord.
  - lia.
  - exists g2, A2, hist2. split_and!; [|done| |cbn [length]; lia].
    + unfold sink_all in *. cbn [foldM]. change (ExpirationMap.sink_block b g) with (HistoricalGraph.addBlock b g). by rewrite E1.
    + by rewrite Hh2, fmap_app, <- app_assoc.
Qed.
End Sink.

(** The blocks of a stream in the order they are written. *)
Lemma written_in_order s conf es bs : storable_stream s conf es -> (forall w, block_lists w bs = incident w es) -> in_order bs.
Proof. intros Hss Hbs v. rewrite vertex_times_blocks, Hbs. by apply (incident_order s conf). Qed.

Lemma written_blocks s conf es bs sl : storable_stream s conf es -> (forall w, block_lists w bs = incident w es) ->
  Forall (good_block (stream_size es) conf) bs -> (forall t, t ∈ sl -> endTime_ t = dinf) ->
  Forall (fun b => well_stored s sl b /\ heads_ok b) bs.
Proof.
  intros Hss Hbs Hg Hsl. rewrite Forall_forall in *. intros b Hb. split.
  - by apply (written_stored s conf es Hss bs Hbs b Hb (Hg b Hb)).
  - by apply (good_block_heads (stream_size es) conf), Hg.
Qed.
