(* ===== verification/InteractionGraph.v ===== *)
(** * The interaction graph

    core/InteractionGraph.h and InteractionGraph.cpp: the class a client uses.
    It owns the vertex manager, the metadata, the historical graph, the
    in-memory graph and the query collector, and composes their operations. *)

From Stdlib Require Import ZArith Lia.
From stdpp Require Import base numbers gmap strings list sorting.
From S2P Require Import Prelude.
From S2P Require Import Double.
From S2P Require Import LevelDB.
From S2P Require Import Schema.
From S2P Require Import AttributeData.
From S2P Require Import MetaData.
From S2P Require Import NeighborList.
From S2P Require Import Block.
From S2P Require Import BlockManager.
From S2P Require Import IntervalIndex.
From S2P Require Import Query.
From S2P Require Import Conf.
From S2P Require Import ExpirationMap.
From S2P Require Import InMemoryGraph.
From S2P Require Import VertexManager.
From S2P Require Import HistoricalGraph.
From S2P Require Import Workload.
From S2P Require Import StreamHistory.

Section InteractionGraph.
Context {D : Type} `{LevelDB D} {R : Type} `{SpatialIndex R}.

(** [meta_] is shared: the block manager counts [nextBlockId_] and the
    in-memory graph the statistics, through references into it (see [meta_]
    below). *)
Record InteractionGraph := mkIG {
  ig_conf_ : Conf;
  vman_ : VertexManager D;
  hisg_ : HistoricalGraph D R;
  memg_ : InMemoryGraph;
  qcol_ : QueryCollector;
  lastTime_ : Timestamp
}.

(** What is found at the storage directory: the metadata file, the databases
    and the tree; [files_new] says that the partition database was created. *)
Record Files := mkFiles {
  meta_file : File;
  meta_open : bool;
  files_new : bool;
  vertex_db : D;
  partition_db : D;
  block_db : D;
  focused_db : D;
  tree_file : option R
}.

Definition meta_path (conf : Conf) : string := storageDir conf +:+ "/schemastats_data".

Definition meta_ (g : InteractionGraph) : MetaDataManager :=
  mkMeta (nextBlockId_ (bman_ (hg_store_ (hisg_ g)))) (img_stats_ (memg_ g)).

Definition newInteractionGraph (conf : Conf) (files : Files) : outcome InteractionGraph :=
  let vman := newVertexManager (vertexDataBufferSize conf) (vertexSchema conf) (vertex_db files) in
  meta ← newMetaDataManager (meta_file files) (meta_open files) (meta_path conf);
  hisg ← newHistoricalGraph conf (MetaData.nextBlockId_ meta) (files_new files) (partition_db files) (block_db files)
    (focused_db files) (tree_file files);
  memg ← newInMemoryGraph conf (schemaStats_ meta);
  Ret (mkIG conf vman hisg memg (newQueryCollector conf) dzero).

(** [AttributeCollector]: the arguments become the attributes in order. *)
Fixpoint collect_attributes (data : AttributeData) (index : Z) (values : list Value) : AttributeData :=
  match values with
  | [] => data
  | t :: tn => collect_attributes (setAttribute data index t) (index + 1) tn
  end.

Definition ig_getVertexData (id : VertexId) (g : InteractionGraph) : outcome (AttributeData * InteractionGraph) :=
  '(data, vman) ← getVertexData id (vman_ g);
  Ret (data, mkIG (ig_conf_ g) vman (hisg_ g) (memg_ g) (qcol_ g) (lastTime_ g)).

Definition createVertex (id : VertexId) (vertexData : list Value) (g : InteractionGraph) : outcome InteractionGraph :=
  let data := collect_attributes (newAttributeData (vertexSchema (ig_conf_ g))) 0 vertexData in
  vman ← addVertex id data (vman_ g);
  Ret (mkIG (ig_conf_ g) vman (hisg_ g) (memg_ g) (qcol_ g) (lastTime_ g)).

(** [address] is where the allocator puts the data. *)
Definition addEdge (rand : nat -> Z) (address : Z) (v u : VertexId) (time : Timestamp) (edgeData : list Value)
  (g : InteractionGraph) : outcome InteractionGraph :=
  _ ← cassert (negb (v =? u));
  _ ← cassert (dltb (lastTime_ g) time);
  let g := mkIG (ig_conf_ g) (vman_ g) (hisg_ g) (memg_ g) (qcol_ g) time in
  '(_, g) ← ig_getVertexData v g;
  '(_, g) ← ig_getVertexData u g;
  let schema := edgeSchema (ig_conf_ g) in
  let data := newAttributeData schema in
  if negb (length edgeData =? length (attributes_ schema))%nat
  then Throw (runtime_error "Edge does not have the correct data for the schema.")
  else
    let data := collect_attributes data 0 edgeData in
    '(memg, hisg) ← InMemoryGraph.addEdge rand v u time (mkShared address data) (memg_ g) (hisg_ g);
    Ret (mkIG (ig_conf_ g) (vman_ g) hisg memg (qcol_ g) (lastTime_ g)).

(** The new content of the metadata file comes with the graph; [fuel] bounds
    the blocks the flush writes. *)
Definition flush (rand : nat -> Z) (fuel : nat) (is_open : bool) (g : InteractionGraph)
  : option (outcome (list Z * InteractionGraph)) :=
  r ← InMemoryGraph.flush rand fuel (memg_ g) (hisg_ g);
  Some (
    '(memg, hisg) ← r;
    let g := mkIG (ig_conf_ g) (vman_ g) hisg memg (qcol_ g) (lastTime_ g) in
    content ← store (meta_ g) is_open (meta_path (ig_conf_ g));
    Ret (content, g)).

(** ** Queries *)

Definition processIntervalQuery (q : Query) (g : InteractionGraph) : outcome (VertexIterator * InteractionGraph) :=
  '(it, hisg) ← intervalQuery (q_start_ q) (q_end_ q) (hisg_ g);
  Ret (it, mkIG (ig_conf_ g) (vman_ g) hisg (memg_ g) (qcol_ g) (lastTime_ g)).

Definition processIntervalQueryBatch (q : Query) (g : InteractionGraph) : outcome (list VertexId) :=
  intervalQueryBatch (q_start_ q) (q_end_ q) (hisg_ g).

(** [pointer_hash] and [order] are parameters of the collector and of the
    historical graph. *)
Definition processFocusedIntervalQuery (pointer_hash : nat -> Z) (order : nat -> list nat) (q : FocusedIntervalQuery)
  (g : InteractionGraph) : outcome (EdgeIterator * InteractionGraph) :=
  qcol ← collectFocusedIntervalQuery pointer_hash (fiq_query q) (qcol_ g);
  '(it, hisg) ← focusedIntervalQuery order (schemaStats_ (meta_ g)) q (hisg_ g);
  Ret (it, mkIG (ig_conf_ g) (vman_ g) hisg (memg_ g) qcol (lastTime_ g)).

(** *** The iterators *)

(** [InteractionGraph::VertexIterator] forwards to the iterator of the
    historical graph; its data comes from the vertex manager. *)
Definition vit_getVertexData (it : VertexIterator) (g : InteractionGraph) : outcome (AttributeData * InteractionGraph) :=
  id ← getVertexId it; ig_getVertexData id g.

Definition with_store (st : Store D) (g : InteractionGraph) : InteractionGraph :=
  mkIG (ig_conf_ g) (vman_ g) (mkHistory (hg_conf_ (hisg_ g)) st (iqIndex_ (hisg_ g)) (fiqIndex_ (hisg_ g)))
    (memg_ g) (qcol_ g) (lastTime_ g).

(** An operation of an inner iterator in the graph that owns the store. *)
Definition in_graph {A} (f : Store D -> outcome (A * Store D)) (g : InteractionGraph) : outcome (A * InteractionGraph) :=
  '(a, st) ← f (hg_store_ (hisg_ g)); Ret (a, with_store st g).

Definition vit_next (it : VertexIterator) (g : InteractionGraph) : outcome (VertexIterator * InteractionGraph) :=
  in_graph (vi_next BlockManager.getBlock it) g.

Definition eit_next (order : nat -> list nat) (it : EdgeIterator) (g : InteractionGraph) : outcome (EdgeIterator * InteractionGraph) :=
  in_graph (ei_next order (schemaStats_ (meta_ g)) it) g.

Definition eit_getToVertex (it : EdgeIterator) (g : InteractionGraph) : outcome (VertexId * InteractionGraph) :=
  '(e, g) ← in_graph (getEdge it) g; Ret (toVertex_ e, g).

Definition eit_getTime (it : EdgeIterator) (g : InteractionGraph) : outcome (Timestamp * InteractionGraph) :=
  '(e, g) ← in_graph (getEdge it) g; Ret (tm_ e, g).

Definition eit_getEdgeData (it : EdgeIterator) (g : InteractionGraph) : outcome (AttributeData * InteractionGraph) :=
  in_graph (getEdgeData it) g.

(** ** The other operations *)

Definition ig_clearBlockBuffer (g : InteractionGraph) : InteractionGraph :=
  mkIG (ig_conf_ g) (vman_ g) (clearBlockBuffer (hisg_ g)) (memg_ g) (qcol_ g) (lastTime_ g).

Definition ig_getBlockStats (g : InteractionGraph) : BlockStats := stats_ (expm_ (memg_ g)).

Definition ig_resetWorkloads (g : InteractionGraph) : InteractionGraph :=
  mkIG (ig_conf_ g) (vman_ g) (hisg_ g) (memg_ g) (resetWorkloads (qcol_ g)) (lastTime_ g).

Definition ig_getEdgeIOCount (g : InteractionGraph) : Z := getEdgeIOCount (hisg_ g).
Definition ig_getEdgeReadIOCount (g : InteractionGraph) : Z := getEdgeReadIOCount (hisg_ g).
Definition ig_getEdgeWriteIOCount (g : InteractionGraph) : Z := getEdgeWriteIOCount (hisg_ g).
End InteractionGraph.
Arguments InteractionGraph D R : clear implicits.
Arguments Files D R : clear implicits.
