(* ===== verification/StreamAnswers.v ===== *)
(** * What the interaction graph answers

    From the constructor to the answers of the queries: vertices are created,
    edges added and the graph flushed; then both kinds of queries answer from
    exactly the edges that were added. *)

From Stdlib Require Import ZArith Lia Permutation.
From stdpp Require Import base numbers gmap strings list sorting.
From S2P Require Import Prelude.
From S2P Require Import Double.
From S2P Require Import NetworkByteBuffer.
From S2P Require Import LevelDB.
From S2P Require Import Schema.
From S2P Require Import AttributeData.
From S2P Require Import MetaData.
From S2P Require Import NeighborList.
From S2P Require Import PartitionIndex.
From S2P Require Import Block.
From S2P Require Import BlockContent.
From S2P Require Import BlockManager.
From S2P Require Import IntervalIndex.
From S2P Require Import Query.
From S2P Require Import Conf.
From S2P Require ExpirationMap.
From S2P Require Import SmartLayout.
From S2P Require Import ExpirationFlow.
From S2P Require InMemoryGraph.
From S2P Require Import GraphFlow.
From S2P Require Import VertexManager.
From S2P Require Import HistoricalGraph.
From S2P Require Import PartitionChoice.
From S2P Require Import DerivedBlocks.
From S2P Require Import HistoryBlocks.
From S2P Require Import HistoryInvariant.
From S2P Require Import HistoryQuery.
From S2P Require Import HistoryVertices.
From S2P Require Import Workload.
From S2P Require Import StreamHistory.
From S2P Require Import InteractionGraph.

#[local] Arguments be : simpl never.

(** ** The data a client passes *)

(** One value of the right type for every attribute. *)
Definition values_for (s : Schema) (values : list Value) : Prop :=
  Forall2 (fun a v => has_type (type_ a) v) (attributes_ s) values.

Definition data_of (s : Schema) (values : list Value) : AttributeData :=
  collect_attributes (newAttributeData s) 0 values.

Lemma collect_ok s (Hdef : defined_schema s) values : forall d k,
  complete s d -> Forall2 (fun a v => has_type (type_ a) v) (drop k (attributes_ s)) values ->
  complete s (collect_attributes d (Z.of_nat k) values) /\
  forall i, assoc_find i (fields_ (collect_attributes d (Z.of_nat k) values)) =
    match (if Z.of_nat k <=? i then values !! Z.to_nat (i - Z.of_nat k) else None) with
    | Some v => Some v | None => assoc_find i (fields_ d) end.
Proof.
  induction values as [|v values IH]; intros d k Hd Hv.
  { split; [done|]. intros i. cbn. by destruct (_ <=? i). }
  apply Forall2_cons_inv_r in Hv as (a & l & Ha & Hv & El). cbn [collect_attributes].
  assert (attributes_ s !! k = Some a) as Hk by (rewrite <- (Nat.add_0_r k), <- lookup_drop, El; done).
  assert (l = drop (S k) (attributes_ s)) as -> by (rewrite (drop_S _ _ _ Hk) in El; by injection El).
  destruct Hd as (Hwt & Hs & Hkeys). assert (is_Some (assoc_find (Z.of_nat k) (fields_ d))) as Hf.
  { apply assoc_find_is_Some. rewrite Hkeys. apply assoc_find_is_Some, newAttributeData_keys. exists a.
    split; [by eapply list_elem_of_lookup_2|by apply (Schema.index_ok _ (proj1 Hdef))]. }
  assert (complete s (setAttribute d (Z.of_nat k) v)) as Hd'.
  { split; [|split; [done|]].
    - apply setAttribute_typed; [done|]. rewrite Hs. exists a. split; [cbn [fst]; by rewrite attribute_at_lookup, Hk|done].
    - cbn. rewrite assoc_set_keys; [done|]. by apply assoc_find_is_Some. }
  replace (Z.of_nat k + 1) with (Z.of_nat (S k)) by lia. destruct (IH _ (S k) Hd' Hv) as [Hc Hfind]. split; [exact Hc|].
  intros i. rewrite Hfind. cbn [setAttribute with_fields fields_]. rewrite assoc_find_set.
  destruct (Z.leb_spec (Z.of_nat (S k)) i), (Z.leb_spec (Z.of_nat k) i); [|lia| |].
  - replace (Z.to_nat (i - Z.of_nat k)) with (S (Z.to_nat (i - Z.of_nat (S k)))) by lia. cbn.
    by rewrite decide_False by lia.
  - assert (i = Z.of_nat k) as -> by lia. by rewrite Z.sub_diag, decide_True.
  - by rewrite decide_False by lia.
Qed.

Lemma data_of_ok s values : defined_schema s -> values_for s values ->
  complete s (data_of s values) /\ forall i v, values !! i = Some v -> assoc_find (Z.of_nat i) (fields_ (data_of s values)) = Some v.
Proof.
  intros Hdef Hv. destruct (collect_ok s Hdef values (newAttributeData s) 0) as [Hc Hf]; [|exact Hv|].
  - split; [by apply newAttributeData_typed|done].
  - split; [exact Hc|]. intros i v Hi. unfold data_of. change 0 with (Z.of_nat 0). rewrite (Hf (Z.of_nat i)).
    destruct (Z.leb_spec (Z.of_nat 0) (Z.of_nat i)); [|lia]. replace (Z.to_nat (Z.of_nat i - Z.of_nat 0)) with i by lia. by rewrite Hi.
Qed.

(** An integral time is an instant. *)
Lemma instant_dofZ n : 0 <= n < 2 ^ 53 -> instant (dofZ n).
Proof.
  intros Hn. destruct (Z.eq_dec n (2 ^ 53 - 1)) as [->|Hne]; [by vm_compute|].
  pose proof (dofZ_lt n (2 ^ 53 - 1) ltac:(lia) ltac:(lia) ltac:(lia)) as Hlt. assert (dofZ (2 ^ 53 - 1) < dinf) by (by vm_compute).
  destruct (is_double_dofZ n Hn). unfold instant. lia.
Qed.

(** ** The statistics of a stream *)

(** Exact totals. *)
Record exact_stats (s : Schema) (n : Z) (stats : SchemaStats) : Prop := {
  es_keys : NoDup stats.*1;
  es_entries i c t : (i, (c, t)) ∈ stats -> (exists a, a ∈ attributes_ s /\ index_ a = i) /\ is_u32 c /\ exists k, 0 <= k <= n /\ t = dofZ k
}.

Lemma incr_exact s n stats i k : exact_stats s n stats -> (exists a, a ∈ attributes_ s /\ index_ a = i) -> 0 <= k -> 0 <= n -> n + k < 2 ^ 53 ->
  exact_stats s (n + k) (incrCountAndBytes stats i (dofZ k)).
Proof.
  intros [Hnd He] Hi Hk Hn Hb. split; [by apply incr_NoDup|]. intros j c t Hin.
  apply (assoc_find_elem j (c, t)) in Hin; [|by apply incr_NoDup]. rewrite incr_find in Hin.
  case_decide as Hj; [subst j; split; [done|]|].
  - destruct (assoc_find i stats) as [[c0 t0]|] eqn:E; injection Hin as <- <-.
    + apply assoc_find_Some in E. destruct (He _ _ _ E) as (_ & _ & k0 & Hk0 & ->). split; [by apply Z.mod_pos_bound|].
      exists (k0 + k). split; [lia|]. by rewrite dadd_dofZ by lia.
    + split; [lia|]. exists k. split; [lia|done].
  - apply assoc_find_Some in Hin. destruct (He _ _ _ Hin) as (H1 & H2 & k0 & Hk0 & ->). split; [done|]. split; [done|].
    exists k0. split; [lia|done].
Qed.

Lemma recorded_exact s n stats e : complete s (cell (se_data e)) -> exact_stats s n stats -> 0 <= n -> n + edge_size e < 2 ^ 53 ->
  exact_stats s (n + edge_size e) (recorded stats e).
Proof.
  intros (Hwt & Hs & Hk) Hst Hn. unfold recorded, record_all, edge_size, enc_data.
  assert (forall p, p ∈ fields_ (cell (se_data e)) -> exists a, a ∈ attributes_ s /\ index_ a = p.1) as Hp.
  { intros p Hp. apply newAttributeData_keys, assoc_find_is_Some. rewrite <- Hk. by apply list_elem_of_fmap_2. }
  revert n stats Hst Hn Hp. generalize (fields_ (cell (se_data e))). intros l. induction l as [|p l IH]; intros n stats Hst Hn Hp Hb.
  { cbn. by rewrite Z.add_0_r. }
  cbn [fmap list_fmap concat foldl fst snd] in *. rewrite length_app in *.
  replace (n + Z.of_nat (length (enc_value p.2) + length (concat (enc_value <$> l.*2)))) with
    (n + Z.of_nat (length (enc_value p.2)) + Z.of_nat (length (concat (enc_value <$> l.*2)))) by lia.
  apply IH; [|lia|intros q Hq; apply Hp; by right|lia]. apply incr_exact; [done|by apply Hp; left|lia|done|lia].
Qed.

Lemma exact_stats_ok s n stats next : defined_schema s -> exact_stats s n stats -> 0 <= n < 2 ^ 53 ->
  Z.of_nat (length (attributes_ s)) < 2 ^ 27 -> is_u64 next -> meta_ok (mkMeta next stats).
Proof.
  intros [Hok _] [Hnd He] Hn Hlen Hnext.
  assert (forall a, a ∈ attributes_ s -> exists j, (j < length (attributes_ s))%nat /\ index_ a = Z.of_nat j) as Hidx.
  { intros a [j Hj]%list_elem_of_lookup. exists j. split; [by eapply lookup_lt_Some|by apply (Schema.index_ok _ Hok)]. }
  split; [done|]. cbn [schemaStats_]. split; [split; [done|]|].
  - apply Forall_forall. intros [i [c t]] Hin. destruct (He i c t Hin) as ((a & Ha & <-) & Hc & k & Hk & ->).
    destruct (Hidx a Ha) as (j & Hj & ->). split; [cbn; lia|]. split; [done|]. apply is_double_dofZ. lia.
  - assert (length stats.*1 <= length (Z.of_nat <$> seq 0 (length (attributes_ s))))%nat as Hle.
    { apply submseteq_length, NoDup_submseteq; [done|].
      intros i ([i' [c t]] & -> & Hin)%list_elem_of_fmap. destruct (He i' c t Hin) as ((a & Ha & <-) & _).
      destruct (Hidx a Ha) as (j & Hj & ->). apply list_elem_of_fmap. exists j. split; [done|]. apply elem_of_seq. lia. }
    rewrite !length_fmap, length_seq in Hle. lia.
Qed.

(** ** Creating the vertices and adding the edges *)

Section Client.
Context {D : Type} `{LevelDB D, !LevelDBOk D} {R : Type} `{SpatialIndex R, !SpatialIndexOk R}.

Definition create_all (vertices : list (VertexId * list Value)) (g : InteractionGraph D R) : outcome (InteractionGraph D R) :=
  foldM (fun g p => createVertex p.1 p.2 g) g vertices.

(** An edge as a client passes it, with the address its data gets. *)
Record Input := mkInput { in_address : Z; in_v : VertexId; in_u : VertexId; in_time : Timestamp; in_values : list Value }.

Definition add_all (rand : nat -> Z) (inputs : list Input) (g : InteractionGraph D R) : outcome (InteractionGraph D R) :=
  foldM (fun g i => addEdge rand (in_address i) (in_v i) (in_u i) (in_time i) (in_values i) g) g inputs.

Definition stream_edge (s : Schema) (i : Input) : StreamEdge :=
  mkStreamEdge (in_v i) (in_u i) (in_time i) (mkShared (in_address i) (data_of s (in_values i))).

Definition with_vman (vman : VertexManager D) (g : InteractionGraph D R) : InteractionGraph D R :=
  mkIG (ig_conf_ g) vman (hisg_ g) (memg_ g) (qcol_ g) (lastTime_ g).

(** Vertices of their own with storable data. *)
Definition vertices_ok (sv : Schema) (vertices : list (VertexId * list Value)) : Prop :=
  NoDup vertices.*1 /\ Forall (fun p => is_u64 p.1 /\ values_for sv p.2 /\ Z.of_nat (length (enc_data (data_of sv p.2))) <= 2 ^ 32) vertices.

Lemma create_all_ok sv (Hdef : defined_schema sv) vertices : forall g A,
  vertexSchema (ig_conf_ g) = sv -> vm_rep sv (vman_ g) A -> vertices_ok sv vertices ->
  (forall id, id ∈ vertices.*1 -> A !! id = None) ->
  exists vman A', create_all vertices g = Ret (with_vman vman g) /\ vm_rep sv vman A' /\
    (forall id values, (id, values) ∈ vertices -> A' !! id = Some (data_of sv values)) /\
    (forall id, id ∉ vertices.*1 -> A' !! id = A !! id).
Proof.
  induction vertices as [|[id values] vertices IH]; intros g A Hs Hrep [Hnd Hok] Hfresh.
  { exists (vman_ g), A. split_and!; [by destruct g|done|by intros ? ? ?%elem_of_nil|done]. }
  cbn in Hnd. apply NoDup_cons in Hnd as [Hni Hnd]. apply Forall_cons in Hok as [(Hu & Hv & Hlen) Hok]. cbn [fst snd] in Hu, Hv, Hlen.
  destruct (data_of_ok sv values Hdef Hv) as [(Hwt & Hsd & Hk) _].
  destruct (addVertex_ok sv (vman_ g) A id (data_of sv values) Hrep) as (m1 & E1 & Hrep1); [apply Hfresh; left|done|done|].
  destruct (IH (with_vman m1 g) (<[id := data_of sv values]> A)) as (vman & A' & E2 & Hrep2 & Hin & Hout); [done|done|done| |].
  - intros id' Hid'. rewrite lookup_insert_ne by (intros ->; done). apply Hfresh. by right.
  - exists vman, A'. split_and!; [|done| |].
    + assert (createVertex id values g = Ret (with_vman m1 g)) as E.
      { unfold createVertex. rewrite Hs. fold (data_of sv values). by rewrite E1. }
      unfold create_all in *. cbn [foldM fst snd]. rewrite E. exact E2.
    + intros id' values' [[= -> ->]|Hin']%elem_of_cons; [|by apply Hin]. rewrite Hout by done. apply lookup_insert_eq.
    + intros id' Hn. cbn in Hn. apply not_elem_of_cons in Hn as [Hne Hn]. rewrite Hout by done. by apply lookup_insert_ne.
Qed.

(** Edges at increasing times between vertices that exist. *)
Definition addable_inputs (s : Schema) (A : gmap Z AttributeData) (last : Timestamp) (inputs : list Input) : Prop :=
  Forall (fun i => is_Some (A !! in_v i) /\ is_Some (A !! in_u i) /\ in_v i <> in_u i /\ values_for s (in_values i) /\ instant (in_time i)) inputs /\
  StronglySorted (fun a b => a < b) (last :: (in_time <$> inputs)).

Lemma add_all_ok (rand : nat -> Z) s sv inputs : forall (g : InteractionGraph D R) A m' h',
  edgeSchema (ig_conf_ g) = s -> vm_rep sv (vman_ g) A -> instant (lastTime_ g) -> addable_inputs s A (lastTime_ g) inputs ->
  add_stream rand (stream_edge s <$> inputs) (memg_ g, hisg_ g) = Ret (m', h') ->
  exists vman last, add_all rand inputs g = Ret (mkIG (ig_conf_ g) vman h' m' (qcol_ g) last) /\ vm_rep sv vman A.
Proof.
  induction inputs as [|i inputs IH]; intros g A m' h' Hs Hrep Hlast [Hin Hsort] E.
  { injection E as <- <-. exists (vman_ g), (lastTime_ g). split; [by destruct g|done]. }
  apply Forall_cons in Hin as [([dv Hv] & [du Hu] & Hne & Hvals & Hi) Hin]. cbn [fmap list_fmap] in Hsort, E.
  apply StronglySorted_inv in Hsort as [Hsort Hlt]. apply Forall_cons in Hlt as [Hlt _].
  unfold add_stream in E. cbn [foldM] in E. apply bind_ret in E as ([m1 h1] & E1 & E). unfold add_to in E1. cbn [fst snd stream_edge se_v se_u se_tm se_data] in E1.
  destruct (getVertexData_ok sv (vman_ g) A _ _ Hrep Hv) as (v1 & Ev & Hrep1 & _).
  destruct (getVertexData_ok sv v1 A _ _ Hrep1 Hu) as (v2 & Eu & Hrep2 & _).
  destruct (IH (mkIG (ig_conf_ g) v2 h1 m1 (qcol_ g) (in_time i)) A m' h') as (vman & last & E2 & Hrep'); [done|done|done|split; done|exact E|].
  exists vman, last. split; [|done]. unfold add_all in *. cbn [foldM].
  enough (addEdge rand (in_address i) (in_v i) (in_u i) (in_time i) (in_values i) g =
    Ret (mkIG (ig_conf_ g) v2 h1 m1 (qcol_ g) (in_time i))) as -> by exact E2. unfold addEdge. rewrite (proj2 (Z.eqb_neq _ _) Hne), instant_dltb, (proj2 (Z.ltb_lt _ _) Hlt) by done. cbn [negb cassert mbind outcome_bind].
  unfold ig_getVertexData. cbn [vman_]. rewrite Ev. cbn [mbind outcome_bind vman_ ig_conf_]. rewrite Eu. cbn [mbind outcome_bind ig_conf_ memg_ hisg_].
  rewrite Hs, <- (Forall2_length _ _ _ Hvals), Nat.eqb_refl. cbn [negb]. fold (data_of s (in_values i)). rewrite E1. done.
Qed.
End Client.

(** ** Reading the answers *)

Section Reading.
Context {D : Type} `{LevelDB D} {R : Type} `{SpatialIndex R}.

(** [for (; it.isValid(); it.next()) read(it.getToVertex(), it.getTime(),
    it.getEdgeData())] *)
Fixpoint read_edges (order : nat -> list nat) (fuel : nat) (it : EdgeIterator) (g : InteractionGraph D R)
  : outcome (list (VertexId * Timestamp * AttributeData) * InteractionGraph D R) :=
  match fuel with
  | O => Undefined
  | S fuel =>
      v ← ei_isValid it;
      if v : bool then
        '(u, g) ← eit_getToVertex it g;
        '(t, g) ← eit_getTime it g;
        '(d, g) ← eit_getEdgeData it g;
        '(it, g) ← eit_next order it g;
        '(rest, g) ← read_edges order fuel it g;
        Ret ((u, t, d) :: rest, g)
      else Ret ([], g)
  end.

(** [for (; it.isValid(); it.next()) read(it.getVertexId(),
    it.getVertexData())] *)
Fixpoint read_vertices (fuel : nat) (it : VertexIterator) (g : InteractionGraph D R)
  : outcome (list (VertexId * AttributeData) * InteractionGraph D R) :=
  match fuel with
  | O => Undefined
  | S fuel =>
      if vi_isValid it then
        id ← getVertexId it;
        '(d, g) ← vit_getVertexData it g;
        '(it, g) ← vit_next it g;
        '(rest, g) ← read_vertices fuel it g;
        Ret ((id, d) :: rest, g)
      else Ret ([], g)
  end.
End Reading.

(** ** The state after a flush *)

Section Serving.
Context {D : Type} `{LevelDB D, !LevelDBOk D} {R : Type} `{SpatialIndex R, !SpatialIndexOk R}.
Context (pointer_hash : nat -> Z).

(** A configuration the theorems cover. *)
Record conf_ok (conf : Conf) : Prop := {
  ck_vertex : defined_schema (vertexSchema conf);
  ck_edge : defined_schema (edgeSchema conf);
  ck_names : NoDup (name_ <$> attributes_ (edgeSchema conf));
  ck_slice : slice_valid (initial_slice (edgeSchema conf));
  ck_length : Z.of_nat (length (attributes_ (edgeSchema conf))) < 2 ^ 27;
  ck_buffers : 1 <= partitioningBufferSize conf /\ 0 < blockBufferSize conf /\ 2 <= vertexDataBufferSize conf;
  ck_window : 0 <= windowSize conf
}.

(** An empty storage directory. *)
Definition empty_files (files : Files D R) : Prop :=
  meta_file files = None /\ files_new files = true /\ contents (vertex_db files) = ∅ /\ contents (partition_db files) = ∅ /\
  contents (block_db files) = ∅ /\ contents (focused_db files) = ∅ /\ tree_file files = None.

(** The graph holds the data of the vertices and the edges, all of them in the
    historical graph, and has answered the queries [qs]. *)
Record serves (s sv : Schema) (A : gmap Z AttributeData) (es : list StreamEdge) (qs : list Query) (g : InteractionGraph D R) : Prop := {
  sv_vertices : vm_rep sv (vman_ g) A;
  sv_ends e : e ∈ es -> is_Some (A !! se_v e) /\ is_Some (A !! se_u e);
  sv_history : exists B hist, hist_ok s [initial_slice s] (hisg_ g) B hist /\ forall w, block_lists w hist.*2 = incident w es;
  sv_stats : schemaStats_ (meta_ g) = foldl recorded [] es;
  sv_queries : collecting pointer_hash s qs (qcol_ g)
}.

(** The edges a client passes. *)
Record inputs_ok (conf : Conf) (vertices : list (VertexId * list Value)) (inputs : list Input) : Prop := {
  ik_ends i : i ∈ inputs -> in_v i ∈ vertices.*1 /\ in_u i ∈ vertices.*1;
  ik_values i : i ∈ inputs -> values_for (edgeSchema conf) (in_values i) /\ 0 < in_time i;
  ik_stream : storable_stream (edgeSchema conf) conf (stream_edge (edgeSchema conf) <$> inputs)
}.

Lemma inputs_addable conf vertices inputs A : inputs_ok conf vertices inputs ->
  (forall id, id ∈ vertices.*1 -> is_Some (A !! id)) -> addable_inputs (edgeSchema conf) A dzero inputs.
Proof.
  intros [He Hv Hs] HA. set (f := stream_edge (edgeSchema conf)) in *. split.
  - apply Forall_forall. intros i Hi. destruct (He i Hi), (Hv i Hi). split; [by apply HA|]. split; [by apply HA|].
    destruct (ss_edges _ _ _ Hs (f i)) as (_ & _ & Hne & Hin & _); [by apply list_elem_of_fmap_2|]. done.
  - constructor.
    + pose proof (ss_sorted _ _ _ Hs) as Hsort. clear He Hv Hs. revert Hsort. induction inputs as [|i inputs IH]; intros Hsort; [constructor|].
      cbn [fmap list_fmap] in *. apply StronglySorted_inv in Hsort as [Hsort Hx]. constructor; [by apply IH|].
      apply Forall_fmap, Forall_forall. intros j Hj. rewrite Forall_forall in Hx. apply (Hx (f j)). by apply list_elem_of_fmap_2.
    + apply Forall_fmap, Forall_forall. intros i Hi. cbn. destruct (Hv i Hi) as [_ Ht]. change dzero with 0. lia.
Qed.

Lemma stream_exact s conf es : storable_stream s conf es -> exact_stats s (sumZ edge_size es) (foldl recorded [] es) /\
  0 <= sumZ edge_size es < 2 ^ 53.
Proof.
  intros Hss. destruct (ss_length _ _ _ Hss) as [_ Hb]. pose proof (ss_edges _ _ _ Hss) as He.
  assert (forall e, 0 <= edge_size e) as Hpos by (intros e; unfold edge_size; lia).
  assert (sumZ edge_size es <= Z.of_nat (length es) * blockSize conf) as Hle.
  { apply sumZ_bound. intros e Hin. pose proof (stream_edge_fits s conf es Hss e Hin). lia. }
  pose proof (sumZ_nonneg edge_size es Hpos) as Hn. split; [|lia].
  assert (forall e, e ∈ es -> complete s (cell (se_data e))) as Hc by (intros e Hin; by destruct (He e Hin) as (_ & _ & _ & _ & ? & _)).
  assert (forall l n stats, (forall e, e ∈ l -> e ∈ es) -> exact_stats s n stats -> 0 <= n -> n + sumZ edge_size l < 2 ^ 53 ->
    exact_stats s (n + sumZ edge_size l) (foldl recorded stats l)) as Hg.
  { induction l as [|e l IH]; intros n stats Hin Hst Hn0 Hlt; [cbn; by rewrite Z.add_0_r|].
    cbn [foldl sumZ foldr] in *. change (foldr _ 0 l) with (sumZ edge_size l) in *. rewrite Z.add_assoc.
    pose proof (sumZ_nonneg edge_size l Hpos). pose proof (Hpos e).
    apply IH; [intros x Hx; apply Hin; by right| |lia|lia]. apply recorded_exact; [apply Hc, Hin; left|done|done|lia]. }
  apply (Hg es 0 []); [done| |lia|lia]. split; [constructor|]. by intros i c t ?%elem_of_nil.
Qed.

(** From the constructor to the flush. *)
Lemma ingest_ok (rand : nat -> Z) (Hrand : forall n, 0 <= rand n < 2 ^ 31) conf files vertices inputs fuel :
  conf_ok conf -> empty_files files -> vertices_ok (vertexSchema conf) vertices -> inputs_ok conf vertices inputs ->
  (2 * length inputs <= fuel)%nat ->
  exists g0 g1 g2 g A,
    newInteractionGraph conf files = Ret g0 /\ create_all vertices g0 = Ret g1 /\ add_all rand inputs g1 = Ret g2 /\
    flush rand fuel true g2 = Some (Ret (enc_meta (meta_ g), g)) /\ meta_ok (meta_ g) /\
    (forall id values, (id, values) ∈ vertices -> A !! id = Some (data_of (vertexSchema conf) values)) /\
    (forall id, id ∉ vertices.*1 -> A !! id = None) /\
    serves (edgeSchema conf) (vertexSchema conf) A (stream_edge (edgeSchema conf) <$> inputs) [] g.
Proof.
  intros [Hsv Hse Hnames Hslice Hlen (Hpb & Hbb & Hvb) Hws] (Em & En & Hv & Hp & Hb & Hf & Et) Hvs Hin Hfuel.
  set (s := edgeSchema conf) in *. set (sv := vertexSchema conf) in *. set (es := stream_edge s <$> inputs).
  pose proof (ik_stream _ _ _ Hin) as Hss. fold s es in Hss. destruct (ss_length _ _ _ Hss) as [Hl32 _].
  destruct (new_history_ok (D := D) (R := R) s Hslice conf (partition_db files) (block_db files) (focused_db files) eq_refl Hpb Hbb Hp Hb Hf)
    as (h0 & Eh0 & Hh0 & Hn0).
  pose proof (ss_layout _ _ _ Hss) as Hlay. pose proof (storable_stream_fits s conf es Hss) as Hfit.
  destruct (newInMemoryGraph_ok (stream_size es) conf Hlay []) as (m0 & Em0 & Hfl0 & Hst0).
  pose proof (storable_stream_ok s conf es Hss) as Hso. assert (2 * Z.of_nat (length es) < 2 ^ 53) as Hsm by lia.
  destruct (add_stream_ok rand Hrand (stream_size es) conf Hlay es m0 Hfl0 Hso Hfit Hsm Hws) as (ex & win & bs & m1 & E1 & Hfl & _ & Hst1).
  destruct (graph_flush_ok rand (stream_size es) conf es ex win bs m1 fuel Hrand Hlay Hfl Hso Hfit Hsm Hws)
    as (bs' & m2 & E2 & Hinc & Hgood & _ & _ & Hnum & Hst2); [unfold es; by rewrite length_fmap|].
  assert (Forall (fun b => well_stored s [initial_slice s] b /\ heads_ok b) (bs ++ bs')) as Hblocks.
  { apply (written_blocks s conf es); [done..|]. by intros t ->%list_elem_of_singleton. }
  pose proof (written_in_order s conf es _ Hss Hinc) as Hord.
  destruct (sink_history s Hse _ (initial_tiling s Hslice) (initial_parts s Hse Hnames) (bs ++ bs') h0 ∅ [] Hh0 Hblocks Hord)
    as (h2 & B & hist & E3 & Hh2 & Hhist & Hn2); [rewrite Hn0; lia|].
  rewrite sink_all_app in E3. apply bind_ret in E3 as (h1 & E3 & E4).
  set (g0 := mkIG conf (newVertexManager (vertexDataBufferSize conf) sv (vertex_db files)) h0 m0 (newQueryCollector conf) dzero).
  destruct (create_all_ok sv Hsv vertices g0 ∅) as (vm1 & A & Ec & Hvm1 & HA1 & HA2); [done|by apply vm_rep_new|done|done|].
  assert (forall id, id ∈ vertices.*1 -> is_Some (A !! id)) as HA.
  { intros id ([id' values] & -> & Hid)%list_elem_of_fmap. eexists. by apply HA1. }
  destruct (add_all_ok rand s sv inputs (with_vman vm1 g0) A m1 h1) as (vm2 & last & Ea & Hvm2);
    [done|done|by vm_compute|by apply (inputs_addable conf vertices)|cbn [memg_ hisg_ with_vman g0]; fold es; rewrite E1, E3; done|].
  set (g := mkIG conf vm2 h2 m2 (newQueryCollector conf) last).
  assert (schemaStats_ (meta_ g) = foldl recorded [] es) as Hst by (cbn; by rewrite Hst2, Hst1, Hst0).
  destruct (stream_exact s conf es Hss) as [Hex Hrange].
  assert (meta_ok (meta_ g)) as Hmeta.
  { unfold meta_. rewrite <- Hst in Hex. apply (exact_stats_ok s (sumZ edge_size es)); try done.
    apply (rep_next _ _ _ _ (ho_rep _ _ _ _ _ Hh2)). }
  exists g0, (with_vman vm1 g0), (mkIG conf vm2 h1 m1 (newQueryCollector conf) last), g, A. split_and!.
  - unfold newInteractionGraph, newMetaDataManager, MetaData.load. rewrite Em, En, Et. cbn [mbind outcome_bind MetaData.nextBlockId_ schemaStats_].
    fold s in Eh0. rewrite Eh0. cbn [mbind outcome_bind]. by rewrite Em0.
  - exact Ec.
  - exact Ea.
  - unfold flush. cbn [memg_ hisg_]. rewrite E2. cbn [mbind option_bind]. rewrite E4. cbn [mbind outcome_bind ig_conf_ vman_ qcol_ lastTime_].
    fold g. rewrite store_ok by done. done.
  - done.
  - exact HA1.
  - intros id Hid. by rewrite HA2, lookup_empty.
  - split; cbn [vman_ hisg_ qcol_ g].
    + done.
    + intros e (i & -> & Hi)%list_elem_of_fmap. destruct (ik_ends _ _ _ Hin i Hi). split; by apply HA.
    + exists B, hist. split; [done|]. intros w. by rewrite Hhist.
    + done.
    + done.
Qed.

(** *** Queries on such a graph *)

Lemma hist_ok_store s sl (h : HistoricalGraph D R) B hist st : hist_ok s sl h B hist -> rep s sl st B ->
  hist_ok s sl (mkHistory (hg_conf_ h) st (iqIndex_ h) (fiqIndex_ h)) B hist.
Proof. intros [] Hst. by split. Qed.

Lemma positions_edges v hist : snd <$> positions (vertex_lists v hist) = block_lists v hist.*2.
Proof.
  unfold positions, vertex_lists, block_lists, block_list. induction hist as [|[id b] hist IH]; [done|]. cbn [fmap list_fmap concat omap list_omap snd fst].
  rewrite <- IH. destruct (assoc_find v (neigs_ b)) as [nl|]; [|done]. cbn [mbind option_bind]. rewrite bind_cons, fmap_app. f_equal.
  unfold list_positions. cbn [fst snd]. apply list_eq. intros k. rewrite list_lookup_fmap, list_lookup_imap. by destruct (edges_ nl !! k).
Qed.

Lemma edges_between_entries v start endt hist :
  snd <$> edges_between v start endt hist = filter (fun e => start <= tm_ e < endt) (block_lists v hist.*2).
Proof.
  rewrite <- positions_edges. unfold edges_between. generalize (positions (vertex_lists v hist)). intros l.
  induction l as [|x l IH]; [done|]. rewrite fmap_cons, !filter_cons. unfold in_range in *.
  destruct (decide (start <= tm_ x.2 < endt)); [rewrite fmap_cons|]; by rewrite IH.
Qed.

(** What a client gets of an edge. *)
Definition answers (s : Schema) (names : list string) (r : VertexId * Timestamp * AttributeData) (e : NLEdge) : Prop :=
  r.1.1 = toVertex_ e /\ r.1.2 = tm_ e /\ is_part s names (cell (data_ e)) r.2.

Section Edges.
Context (s sv : Schema) (Hdef : defined_schema s) (Hnames : NoDup (name_ <$> attributes_ s)) (Hslice : slice_valid (initial_slice s)).
Context (order : nat -> list nat) (Horder : forall n, order n ≡ₚ seq 0 n).
Context (A : gmap Z AttributeData) (es : list StreamEdge).
Context (Hmeasured : measured_parts s (foldl recorded [] es) (partitioning_ (initial_slice s))).

Lemma facade_edges_read B hist v start endt names l : forall fuel it (g : InteractionGraph D R),
  instant start -> instant endt -> names_of_schema s names ->
  Forall (fun ib => holds_block s [initial_slice s] B ib.1 ib.2 /\ heads_ok ib.2) hist ->
  produces [initial_slice s] hist v start endt names it l ->
  rep s [initial_slice s] (hg_store_ (hisg_ g)) B -> schemaStats_ (meta_ g) = foldl recorded [] es -> (length l < fuel)%nat ->
  exists rs st, read_edges order fuel it g = Ret (rs, with_store st g) /\ Forall2 (answers s names) rs (snd <$> l) /\
    rep s [initial_slice s] st B.
Proof.
  pose proof (initial_tiling s Hslice) as Htile. pose proof (initial_parts s Hdef Hnames) as Hparts.
  pose proof (proj2 (Forall_singleton (fun t => measured_parts s (foldl recorded [] es) (partitioning_ t)) (initial_slice s)) Hmeasured) as Hm.
  induction l as [|[[id k] e] l IH]; intros fuel it g Hst Hen Hn Hb Hp Hrep Hstats Hfuel; (destruct fuel as [|fuel]; [lia|]); cbn [read_edges].
  { cbn in Hp. rewrite Hp. cbn [mbind outcome_bind]. exists [], (hg_store_ (hisg_ g)).
    split; [by destruct g as [? ? [] ? ? ?]|]. split; [constructor|done]. }
  pose proof Hp as (nl & ls & Hat & Hk & _ & _). pose proof Hat as [Hdone _ _ _ Hf Hlt _].
  assert (ei_isValid it = Ret true) as ->.
  { by rewrite (edge_valid _ _ (following_valid _ _ _ _ Hen _ _ Hf)), (proj2 (Z.ltb_lt _ _) Hlt), Hdone. }
  destruct (current_edge s Hdef [initial_slice s] B hist Hb v start endt names it id nl k e ls _ Hat Hk Hrep) as (e1 & st1 & E1 & Hrep1 & Hto & _).
  destruct (current_edge s Hdef [initial_slice s] B hist Hb v start endt names it id nl k e ls st1 Hat Hk Hrep1) as (e2 & st2 & E2 & Hrep2 & _ & Htm).
  destruct (current_data s Hdef [initial_slice s] Htile Hparts order Horder _ Hm B hist Hb v start endt Hst Hen names Hn it id nl k e ls st2 Hat Hk Hrep2)
    as (d & st3 & E3 & Hrep3 & Hd).
  destruct (ei_next_ok s Hdef [initial_slice s] Htile Hparts order Horder _ Hm B hist Hb v start endt Hst Hen names Hn it _ l st3 Hp Hrep3)
    as (it' & st4 & E4 & Hrep4 & Hp').
  destruct (IH fuel it' (with_store st4 g) Hst Hen Hn Hb Hp' Hrep4 Hstats) as (rs & st5 & E5 & Hrs & Hrep5); [cbn in Hfuel; lia|].
  exists ((toVertex_ e1, tm_ e2, d) :: rs), st5. split; [|split; [constructor; [done|exact Hrs]|done]].
  unfold eit_getToVertex, eit_getTime, eit_getEdgeData, eit_next, in_graph. cbn [mbind outcome_bind]. rewrite E1.
  cbn [mbind outcome_bind with_store hisg_ hg_store_]. rewrite E2. cbn [mbind outcome_bind with_store hisg_ hg_store_]. rewrite E3.
  cbn [mbind outcome_bind with_store hisg_ hg_store_]. unfold with_store, meta_. cbn [hisg_ hg_store_ memg_ schemaStats_ hg_conf_ iqIndex_ fiqIndex_ ig_conf_ vman_ qcol_ lastTime_].
  change (InMemoryGraph.img_stats_ (memg_ g)) with (schemaStats_ (meta_ g)). rewrite Hstats, E4. cbn [mbind outcome_bind]. unfold with_store in E5. cbn in E5. by rewrite E5.
Qed.

(** A focused query gives the edges asked for. *)
Lemma focused_answers qs (g : InteractionGraph D R) v start endt names :
  serves s sv A es qs g -> is_u64 v -> instant start -> instant endt -> names_of_schema s names ->
  exists it g1 rs g2,
    processFocusedIntervalQuery pointer_hash order (newFocusedIntervalQuery v start endt names) g = Ret (it, g1) /\
    read_edges order (S (length (filter (fun e => start <= tm_ e < endt) (incident v es)))) it g1 = Ret (rs, g2) /\
    Forall2 (answers s names) rs (filter (fun e => start <= tm_ e < endt) (incident v es)) /\
    serves s sv A es (qs ++ [newQuery start endt names]) g2.
Proof.
  intros [Hvm Hends (B & hist & Hh & Hinc) Hstats Hq] Hv Hst Hen Hn. set (q := newQuery start endt names).
  pose proof (query_names_of_schema s start endt names Hn) as Hnq.
  destruct (collect_query_ok pointer_hash s qs (qcol_ g) q Hq) as (c & Ec & Hc).
  { apply query_known. intros x Hx. unfold names_of_schema in Hn. rewrite Forall_forall in Hn. destruct (Hn x Hx) as [i Hi].
    destruct (names_sound _ (proj1 Hdef) _ _ Hi) as (j & a & _ & Ha & <-). exists a. split; [by eapply list_elem_of_lookup_2|done]. }
  destruct (focused_query_start s [initial_slice s] order (foldl recorded [] es) (hisg_ g) B hist v start endt names Hdef
    (initial_tiling s Hslice) (initial_parts s Hdef Hnames) Horder ltac:(by apply Forall_singleton) Hh Hv Hst Hen Hnq) as (it & h1 & E1 & Hh1 & Hp).
  set (g1 := mkIG (ig_conf_ g) (vman_ g) h1 (memg_ g) c (lastTime_ g)).
  pose proof (edges_between_entries v start endt hist) as Heb. rewrite Hinc in Heb.
  destruct (facade_edges_read B hist v start endt _ _ (S (length (edges_between v start endt hist))) it g1 Hst Hen Hnq (ho_blocks _ _ _ _ _ Hh1) Hp
    (ho_rep _ _ _ _ _ Hh1) Hstats) as (rs & st & E2 & Hrs & Hrep); [lia|].
  exists it, g1, rs, (with_store st g1). split_and!.
  - unfold processFocusedIntervalQuery. cbn [newFocusedIntervalQuery fiq_query]. fold q. rewrite Ec. cbn [mbind outcome_bind].
    rewrite Hstats. by rewrite E1.
  - by rewrite <- Heb, length_fmap.
  - rewrite <- Heb. eapply Forall2_impl; [exact Hrs|]. intros r e (H1 & H2 & H3). split; [done|]. split; [done|].
    apply (is_part_names s (attributeNames_ q)); [|done]. apply newQuery_names.
  - split; cbn [vman_ hisg_ qcol_ with_store g1]; try done. exists B, hist. split; [by apply hist_ok_store|done].
Qed.
End Edges.

Section Vertices.
Context (s sv : Schema) (Hdef : defined_schema s).
Context (A : gmap Z AttributeData) (es : list StreamEdge).

(** Reading the data of the vertices does not disturb the iteration. *)
Lemma read_vertices_ok fuel : forall it (g : InteractionGraph D R) vs st,
  vi_collect BlockManager.getBlock fuel it (hg_store_ (hisg_ g)) = Ret (vs, st) -> vm_rep sv (vman_ g) A ->
  (forall v, v ∈ vs -> is_Some (A !! v)) ->
  exists rs vman, read_vertices fuel it g = Ret (rs, with_store st (with_vman vman g)) /\ vm_rep sv vman A /\
    rs.*1 = vs /\ forall id d, (id, d) ∈ rs -> A !! id = Some d.
Proof.
  induction fuel as [|fuel IH]; intros it g vs st E Hvm HA; [done|]. cbn [vi_collect read_vertices] in *.
  destruct (vi_isValid it).
  - apply bind_ret in E as (v & Ev & E). apply bind_ret in E as ([it1 st1] & E1 & E). apply bind_ret in E as ([rest st2] & E2 & E).
    injection E as <- <-. destruct (HA v ltac:(left)) as [d Hd].
    destruct (getVertexData_ok sv (vman_ g) A v d Hvm Hd) as (vm1 & Evd & Hvm1 & _).
    destruct (IH it1 (with_store st1 (with_vman vm1 g)) rest st2) as (rs & vm2 & E3 & Hvm2 & Hrs & Hdata);
      [exact E2|exact Hvm1|intros; apply HA; by right|].
    exists ((v, d) :: rs), vm2. split_and!; [|done|by rewrite fmap_cons, Hrs|].
    + rewrite Ev. cbn [mbind outcome_bind]. unfold vit_getVertexData. rewrite Ev. cbn [mbind outcome_bind]. unfold ig_getVertexData. rewrite Evd.
      cbn [mbind outcome_bind]. unfold vit_next, in_graph. cbn [hisg_]. rewrite E1. cbn [mbind outcome_bind].
      unfold with_vman in *. unfold with_store in *. cbn in *. rewrite E3. done.
    + intros id d' [[= -> ->]|Hin]%elem_of_cons; [done|by apply Hdata].
  - injection E as <- <-. exists [], (vman_ g). split_and!; [by destruct g as [? ? [] ? ? ?]|done|done|by intros ? ? ?%elem_of_nil].
Qed.

Lemma incident_times v (P : Timestamp -> Prop) :
  (exists t, t ∈ tm_ <$> incident v es /\ P t) <-> exists e, e ∈ incident v es /\ P (tm_ e).
Proof. setoid_rewrite list_elem_of_fmap. naive_solver. Qed.

(** An interval query gives the vertices with an edge in the range. *)
Lemma interval_answers qs (g : InteractionGraph D R) start endt :
  serves s sv A es qs g -> instant start -> instant endt -> start <= endt ->
  exists it g1 fuel rs g2,
    processIntervalQuery (IntervalQuery start endt) g = Ret (it, g1) /\
    read_vertices fuel it g1 = Ret (rs, g2) /\ NoDup rs.*1 /\
    (forall id d, (id, d) ∈ rs <-> A !! id = Some d /\ exists e, e ∈ incident id es /\ start <= tm_ e < endt) /\
    serves s sv A es qs g2.
Proof.
  intros [Hvm Hends (B & hist & Hh & Hinc) Hstats Hq] Hst Hen Hle.
  destruct (interval_query_ok s [initial_slice s] (hisg_ g) B hist start endt Hdef Hh Hst Hen Hle) as (it & h1 & E1 & Hh1 & vs & st & E2 & Hrep & Hnd & Hvs).
  set (g1 := mkIG (ig_conf_ g) (vman_ g) h1 (memg_ g) (qcol_ g) (lastTime_ g)).
  setoid_rewrite (vertex_times_blocks _ hist.*2) in Hvs. setoid_rewrite Hinc in Hvs.
  destruct (read_vertices_ok _ it g1 vs st E2 Hvm) as (rs & vman & E3 & Hvm' & Hrs & Hdata).
  { intros v (t & Ht & _)%Hvs. apply list_elem_of_fmap in Ht as (e & _ & He). apply incident_edge in He as (se & Hse & _ & _ & Hw).
    destruct (Hends se Hse). by destruct Hw as [[-> _]|[-> _]]. }
  eexists it, g1, _, rs, _. split_and!; [|exact E3|by rewrite Hrs| |].
  - unfold processIntervalQuery, IntervalQuery. cbn [newQuery q_start_ q_end_]. by rewrite E1.
  - intros id d. rewrite <- (incident_times id (fun t => start <= t < endt)), <- Hvs, <- Hrs. split.
    + intros Hin. split; [by apply Hdata|]. by apply (list_elem_of_fmap_2 fst _ (id, d)).
    + intros [Hd ([id' d'] & -> & Hin)%list_elem_of_fmap]. cbn [fst] in *. by rewrite (Hdata _ _ Hin) in Hd; injection Hd as ->.
  - split; cbn [vman_ hisg_ qcol_ with_store with_vman g1]; try done. exists B, hist. split; [by apply hist_ok_store|done].
Qed.
End Vertices.
End Serving.

(** ** Properties *)

(** C2: from an empty directory to a served graph, under each of the layouts.
    With a configuration whose buffers have room, whose schemas give every
    attribute a type, the edge attributes being fewer than 2^27 with distinct
    names that the index of partitionings can store, and whose block size is at
    most 2^29 bytes, the constructor succeeds on an empty storage directory;
    creating distinct vertices with a value for every attribute, of at most
    2^32 bytes, succeeds; adding edges between two different ones of them
    succeeds, at strictly increasing positive times whose sums are finite, each
    with a value for every attribute and of a size that a block has room for a
    list of one such edge ([seedEdgeCount] edges under the smart layout), as
    long as the number of edges is below 2^32 and its product with the block
    size at most 2^52; and flushing ends and succeeds, whatever [rand] returns.
    Then every vertex has its data, the historical graph holds exactly the edges
    of every vertex in order, so nothing is left in memory that a query would
    miss, the statistics are those of the edges, and the metadata file has what
    the constructor of the next run reads. *)
Theorem graph_ingests {D} `{LevelDB D, !LevelDBOk D} {R} `{SpatialIndex R, !SpatialIndexOk R}
    (pointer_hash : nat -> Z) (rand : nat -> Z) (conf : Conf) (files : Files D R)
    (vertices : list (VertexId * list Value)) (inputs : list Input) (fuel : nat) :
  (forall n, 0 <= rand n < 2 ^ 31) -> conf_ok conf -> empty_files files ->
  vertices_ok (vertexSchema conf) vertices -> inputs_ok conf vertices inputs -> (2 * length inputs <= fuel)%nat ->
  exists g0 g1 g2 content g A,
    newInteractionGraph conf files = Ret g0 /\ create_all vertices g0 = Ret g1 /\ add_all rand inputs g1 = Ret g2 /\
    flush rand fuel true g2 = Some (Ret (content, g)) /\
    newMetaDataManager (Some content) true (meta_path conf) = Ret (meta_ g) /\
    (forall id values, (id, values) ∈ vertices -> A !! id = Some (data_of (vertexSchema conf) values)) /\
    (forall id, id ∉ vertices.*1 -> A !! id = None) /\
    serves pointer_hash (edgeSchema conf) (vertexSchema conf) A (stream_edge (edgeSchema conf) <$> inputs) [] g.
Proof.
  intros Hrand Hc Hf Hv Hi Hfuel.
  destruct (ingest_ok pointer_hash rand Hrand conf files vertices inputs fuel Hc Hf Hv Hi Hfuel)
    as (g0 & g1 & g2 & g & A & E0 & E1 & E2 & E3 & Hm & H1 & H2 & Hs).
  exists g0, g1, g2, (enc_meta (meta_ g)), g, A. split_and!; try done. by apply load_ok.
Qed.

(** C1: a served graph answers from exactly its edges, again and again.  The
    iterator of a focused query for a vertex, a range of times and attributes
    of the schema ends and gives the edges of the vertex with a time in the
    range, oldest first, each with its other end, its time and exactly the
    values asked for; that of an interval query ends and gives every vertex
    with an edge in the range once, with its data.  Asking for a vertex gives
    its data and for an unknown one raises [vertex_not_found].  After reading
    the answers the graph is served as before, and the collector has counted
    the focused query. *)
Theorem graph_answers {D} `{LevelDB D, !LevelDBOk D} {R} `{SpatialIndex R, !SpatialIndexOk R}
    (pointer_hash : nat -> Z) (order : nat -> list nat) (s sv : Schema) (A : gmap Z AttributeData) (es : list StreamEdge)
    (qs : list Query) (g : InteractionGraph D R) :
  defined_schema s -> NoDup (name_ <$> attributes_ s) -> slice_valid (initial_slice s) -> (forall n, order n ≡ₚ seq 0 n) ->
  measured_parts s (foldl recorded [] es) (partitioning_ (initial_slice s)) ->
  serves pointer_hash s sv A es qs g ->
  (forall v start endt names, is_u64 v -> instant start -> instant endt -> names_of_schema s names ->
    exists it g1 rs g2,
      processFocusedIntervalQuery pointer_hash order (newFocusedIntervalQuery v start endt names) g = Ret (it, g1) /\
      read_edges order (S (length (filter (fun e => start <= tm_ e < endt) (incident v es)))) it g1 = Ret (rs, g2) /\
      Forall2 (answers s names) rs (filter (fun e => start <= tm_ e < endt) (incident v es)) /\
      serves pointer_hash s sv A es (qs ++ [newQuery start endt names]) g2) /\
  (forall start endt, instant start -> instant endt -> start <= endt ->
    exists it g1 fuel rs g2,
      processIntervalQuery (IntervalQuery start endt) g = Ret (it, g1) /\
      read_vertices fuel it g1 = Ret (rs, g2) /\ NoDup rs.*1 /\
      (forall id d, (id, d) ∈ rs <-> A !! id = Some d /\ exists e, e ∈ incident id es /\ start <= tm_ e < endt) /\
      serves pointer_hash s sv A es qs g2) /\
  (forall id d, A !! id = Some d -> exists g1, ig_getVertexData id g = Ret (d, g1) /\ serves pointer_hash s sv A es qs g1) /\
  (forall id, A !! id = None -> is_u64 id -> ig_getVertexData id g = Throw (vertex_not_found id)).
Proof.
  intros Hdef Hnames Hslice Horder Hm Hg. split_and!.
  - intros v start endt names. by apply focused_answers.
  - intros start endt. by apply interval_answers.
  - intros id d Hd. destruct (getVertexData_ok sv _ A id d (sv_vertices _ _ _ _ _ _ _ Hg) Hd) as (vm & E & Hvm & _).
    unfold ig_getVertexData. rewrite E. eexists. split; [reflexivity|]. by destruct Hg; split.
  - intros id Hd Hu. unfold ig_getVertexData. by rewrite (getVertexData_missing sv _ A id (sv_vertices _ _ _ _ _ _ _ Hg) Hd Hu).
Qed.

(** *** A concrete graph *)

Definition client_conf : Conf :=
  newConf "db" "/tmp" [("name", STRING)] [("weight", INT64); ("tag", STRING)].

Definition client_files : Files (gmap bytes bytes) (list (bytes * Region * Z)) := mkFiles None true true ∅ ∅ ∅ ∅ None.

Definition client_vertices : list (VertexId * list Value) := [(1, [VString "a"]); (2, [VString "b"]); (3, [VString "c"])].

Definition client_inputs : list Input :=
  [mkInput 100 1 2 (dofZ 3) [VInt 7; VString "x"]; mkInput 101 3 1 (dofZ 5) [VInt 8; VString "yy"];
   mkInput 102 2 3 (dofZ 8) [VInt (-9); VString ""]].

Lemma client_values_for vs : values_for (edgeSchema client_conf) vs -> complete (edgeSchema client_conf) (data_of (edgeSchema client_conf) vs).
Proof. intros Hv. apply data_of_ok; [|done]. split; [apply new_schema_ok|]. repeat constructor; discriminate. Qed.

Lemma client_conf_ok : conf_ok client_conf.
Proof.
  split.
  - split; [apply new_schema_ok|]. repeat constructor; discriminate.
  - split; [apply new_schema_ok|]. repeat constructor; discriminate.
  - exact example_names.
  - exact example_initial_slice.
  - by vm_compute.
  - split; [by vm_compute|]. split; by vm_compute.
  - by vm_compute.
Qed.

Lemma client_conf_layout : layout_ok client_conf.
Proof. split; [by vm_compute|]. intros _. split; [by vm_compute|]. split; [by vm_compute|discriminate]. Qed.

Lemma client_vertices_ok : vertices_ok (vertexSchema client_conf) client_vertices.
Proof.
  split; [by apply (bool_decide_unpack _); vm_compute|].
  repeat (apply Forall_cons_2 || apply Forall_nil_2); (split; [cbn; lia|]; split; [|by vm_compute]).
  all: unfold values_for; cbn [snd]; constructor; [cbn; lia|constructor].
Qed.

Lemma client_edge_ok i : i ∈ client_inputs -> values_for (edgeSchema client_conf) (in_values i) /\ 0 < in_time i.
Proof.
  intros Hi. unfold client_inputs in Hi. repeat (apply elem_of_cons in Hi as [->|Hi]); [..|by apply elem_of_nil in Hi].
  all: split; [|by vm_compute]; unfold values_for; cbn [in_values]; repeat (constructor; [cbn; lia|]); constructor.
Qed.

Lemma client_inputs_ok : inputs_ok client_conf client_vertices client_inputs.
Proof.
  split.
  - intros i Hi. unfold client_inputs in Hi. repeat (apply elem_of_cons in Hi as [->|Hi]); [..|by apply elem_of_nil in Hi].
    all: cbn; set_solver.
  - exact client_edge_ok.
  - split.
    + intros e (i & -> & Hi)%list_elem_of_fmap. pose proof (client_edge_ok i Hi) as [Hv _]. pose proof (client_values_for _ Hv) as Hc.
      clear Hv. unfold client_inputs in Hi. repeat (apply elem_of_cons in Hi as [->|Hi]); [..|by apply elem_of_nil in Hi].
      all: split; [cbn; lia|]; split; [cbn; lia|]; split; [cbn; lia|]; split; [by vm_compute|]; split; [exact Hc|by vm_compute].
    + exact client_conf_layout.
    + repeat (apply SSorted_cons || apply SSorted_nil || apply Forall_cons_2 || apply Forall_nil_2); by vm_compute.
    + intros e e' (i & -> & Hi)%list_elem_of_fmap (i' & -> & Hi')%list_elem_of_fmap. unfold client_inputs in Hi, Hi'.
      repeat (apply elem_of_cons in Hi as [->|Hi]); [..|by apply elem_of_nil in Hi];
        (repeat (apply elem_of_cons in Hi' as [->|Hi']); [..|by apply elem_of_nil in Hi']); by vm_compute.
    + by vm_compute.
    + by vm_compute.
Qed.

Lemma client_empty : empty_files client_files.
Proof. done. Qed.

Lemma graph_ingests_witness :
  exists g0 g1 g2 content g A,
    newInteractionGraph client_conf client_files = Ret g0 /\ create_all client_vertices g0 = Ret g1 /\
    add_all (fun _ => 7) client_inputs g1 = Ret g2 /\ flush (fun _ => 7) 6 true g2 = Some (Ret (content, g)) /\
    serves (fun i => Z.of_nat i) (edgeSchema client_conf) (vertexSchema client_conf) A
      (stream_edge (edgeSchema client_conf) <$> client_inputs) [] g.
Proof.
  destruct (graph_ingests (fun i => Z.of_nat i) (fun _ => 7) client_conf client_files client_vertices client_inputs 6)
    as (g0 & g1 & g2 & content & g & A & E0 & E1 & E2 & E3 & _ & _ & _ & Hs).
  - intros _. lia.
  - exact client_conf_ok.
  - exact client_empty.
  - exact client_vertices_ok.
  - exact client_inputs_ok.
  - cbn. lia.
  - exists g0, g1, g2, content, g, A. split; [exact E0|]. split; [exact E1|]. split; [exact E2|]. split; [exact E3|exact Hs].
Defined.

(** The graph of the client, served. *)
Lemma client_served :
  exists (g : InteractionGraph (gmap bytes bytes) (list (bytes * Region * Z))) A,
    serves (fun i => Z.of_nat i) (edgeSchema client_conf) (vertexSchema client_conf) A
      (stream_edge (edgeSchema client_conf) <$> client_inputs) [] g.
Proof.
  destruct (ingest_ok (fun i => Z.of_nat i) (fun _ => 7) ltac:(lia) client_conf client_files client_vertices client_inputs 6
    client_conf_ok client_empty client_vertices_ok client_inputs_ok ltac:(cbn; lia)) as (_ & _ & _ & g & A & _ & _ & _ & _ & _ & _ & _ & Hs).
  by exists g, A.
Qed.

Lemma client_measured : measured_parts (edgeSchema client_conf) (foldl recorded [] (stream_edge (edgeSchema client_conf) <$> client_inputs))
  (partitioning_ (initial_slice (edgeSchema client_conf))).
Proof.
  apply Forall_singleton. split; [|by vm_compute].
  apply Forall_forall. intros a Ha. apply elem_of_all_names in Ha. cbn in Ha.
  repeat (apply elem_of_cons in Ha as [->|Ha]; [eexists; split; [vm_compute; reflexivity|lia]|]). by apply elem_of_nil in Ha.
Qed.

(** The edges of the vertex 1 from time 4 on, with their tag: one, at time 5. *)
Lemma graph_answers_witness :
  exists (g : InteractionGraph (gmap bytes bytes) (list (bytes * Region * Z))) it g1 r g2,
    processFocusedIntervalQuery (fun i => Z.of_nat i) (seq 0) (newFocusedIntervalQuery 1 (dofZ 4) (dofZ 9) ["tag"]) g = Ret (it, g1) /\
    read_edges (seq 0) 2 it g1 = Ret ([r], g2) /\ r.1 = (3, dofZ 5) /\ assoc_find 1 (fields_ r.2) = Some (VString "yy").
Proof.
  destruct client_served as (g & A & Hg). exists g.
  destruct (graph_answers (fun i => Z.of_nat i) (seq 0) (edgeSchema client_conf) (vertexSchema client_conf) A
    (stream_edge (edgeSchema client_conf) <$> client_inputs) [] g) as (Hq & _).
  - exact (ck_edge _ client_conf_ok).
  - exact (ck_names _ client_conf_ok).
  - exact (ck_slice _ client_conf_ok).
  - reflexivity.
  - exact client_measured.
  - exact Hg.
  - destruct (Hq 1 (dofZ 4) (dofZ 9) ["tag"]) as (it & g1 & rs & g2 & E1 & E2 & Hrs & _).
    + by vm_compute.
    + by vm_compute.
    + by vm_compute.
    + apply Forall_singleton. vm_compute. eauto.
    + set (es := filter _ _) in *.
      assert (es = [mkNLEdge 3 (dofZ 5) (mkShared 101 (data_of (edgeSchema client_conf) [VInt 8; VString "yy"]))]) as Ees by (vm_compute; reflexivity).
      rewrite Ees in Hrs, E2. apply Forall2_cons_inv_r in Hrs as (r & rs' & (Hto & Htm & _ & Hpart & _) & Hrs & ->).
      apply Forall2_nil_inv_r in Hrs as ->. exists it, g1, r, g2. split; [exact E1|]. split; [exact E2|].
      split; [destruct r as [[u t] d]; cbn in Hto, Htm |- *; congruence|].
      rewrite (Hpart 1); [reflexivity|]. exists "tag". split; [left|reflexivity].
Defined.
