(* ===== verification/Searches.v ===== *)
(** * Workloads and searches

    simulation/ExpSetupHelper.cpp: running a workload of focused queries, and
    the depth-first and breadth-first searches, on the graph facade.  The
    timers only measure; what the functions compute otherwise is here.  A
    [count] is an [int] that must not overflow; [sizes] is an [int] to which a
    [size_t] is added, which wraps. *)

From Stdlib Require Import ZArith Lia.
From stdpp Require Import base numbers gmap strings list.
From S2P Require Import Prelude.
From S2P Require Import LevelDB.
From S2P Require Import AttributeData.
From S2P Require Import NeighborList.
From S2P Require Import IntervalIndex.
From S2P Require Import Query.
From S2P Require Import HistoricalGraph.
From S2P Require Import InteractionGraph.

Section Searches.
Context {D : Type} `{LevelDB D} {R : Type} `{SpatialIndex R}.
Context (pointer_hash : nat -> Z) (order : nat -> list nat).

(** [count++] and [sizes += getFields().size()]. *)
Definition increment (count : Z) : outcome Z := if count <? 2 ^ 31 - 1 then Ret (count + 1) else Undefined.
Definition add_size (sizes : Z) (d : AttributeData) : Z := to_signed 32 (sizes + Z.of_nat (length (fields_ d))).

(** [for (auto iqIt = ...; iqIt.isValid(); iqIt.next()) body] *)
Fixpoint edge_loop {S} (body : EdgeIterator -> S -> InteractionGraph D R -> outcome (S * InteractionGraph D R))
    (fuel : nat) (it : EdgeIterator) (s : S) (g : InteractionGraph D R) : outcome (S * InteractionGraph D R) :=
  match fuel with
  | O => Undefined
  | S fuel =>
      v ← ei_isValid it;
      if v : bool then
        '(s, g) ← body it s g;
        '(it, g) ← eit_next order it g;
        edge_loop body fuel it s g
      else Ret (s, g)
  end.

(** ** Workloads *)

Definition count_edge (it : EdgeIterator) (s : Z * Z) (g : InteractionGraph D R) : outcome (Z * Z * InteractionGraph D R) :=
  let '(count, sizes) := s in
  '(d, g) ← eit_getEdgeData it g;
  count ← increment count;
  Ret ((count, add_size sizes d), g).

Definition workload_query (fuel : nat) (r : Z * Z * InteractionGraph D R) (q : FocusedIntervalQuery) : outcome (Z * Z * InteractionGraph D R) :=
  let '(s, g) := r in
  let g := ig_clearBlockBuffer g in
  '(it, g) ← processFocusedIntervalQuery pointer_hash order q g;
  edge_loop count_edge fuel it s g.

Definition runWorkload (fuel : nat) (queries : list FocusedIntervalQuery) (g : InteractionGraph D R) : outcome (InteractionGraph D R) :=
  '(s, g) ← foldM (workload_query fuel) ((0, 0), g) queries;
  let '(count, sizes) := s in
  _ ← cassert (negb (count =? 0));
  _ ← cassert (negb (sizes =? 0));
  Ret g.

(** ** Searches *)

(** The query for another vertex. *)
Definition query_of (query : FocusedIntervalQuery) (u : VertexId) : FocusedIntervalQuery :=
  newFocusedIntervalQuery u (q_start_ (fiq_query query)) (q_end_ (fiq_query query)) (attributeNames_ (fiq_query query)).

(** The body of the loop of [dfs]: [visited.find(u) != visited.end()] holds
    for the vertices visited before. *)
Definition dfs_edge (search : FocusedIntervalQuery -> gset Z -> InteractionGraph D R -> outcome (gset Z * InteractionGraph D R))
    (query : FocusedIntervalQuery) (it : EdgeIterator) (s : Z * Z * gset Z) (g : InteractionGraph D R)
  : outcome (Z * Z * gset Z * InteractionGraph D R) :=
  let '(count, sizes, visited) := s in
  '(u, g) ← eit_getToVertex it g;
  '(d, g) ← eit_getEdgeData it g;
  let sizes := add_size sizes d in
  count ← increment count;
  if decide (u ∈ visited) then
    '(visited, g) ← search (query_of query u) visited g;
    Ret ((count, sizes, visited), g)
  else Ret ((count, sizes, visited), g).

Fixpoint dfs (fuel : nat) (query : FocusedIntervalQuery) (visited : gset Z) (g : InteractionGraph D R)
  : outcome (gset Z * InteractionGraph D R) :=
  match fuel with
  | O => Undefined
  | S fuel =>
      let visited := {[ fiq_headVertex query ]} ∪ visited in
      '(it, g) ← processFocusedIntervalQuery pointer_hash order query g;
      '(s, g) ← edge_loop (dfs_edge (dfs fuel) query) fuel it (0, 0, visited) g;
      Ret (s.2, g)
  end.

Definition bfs_edge (it : EdgeIterator) (s : Z * Z * gset Z * list VertexId) (g : InteractionGraph D R)
  : outcome (Z * Z * gset Z * list VertexId * InteractionGraph D R) :=
  let '(count, sizes, visited, q) := s in
  '(d, g) ← eit_getEdgeData it g;
  let sizes := add_size sizes d in
  count ← increment count;
  '(t, g) ← eit_getToVertex it g;
  if decide (t ∈ visited) then Ret ((count, sizes, {[ t ]} ∪ visited, q ++ [t]), g)
  else Ret ((count, sizes, visited, q), g).

(** [next] is made and not used. *)
Fixpoint bfs_loop (fuel : nat) (query : FocusedIntervalQuery) (s : Z * Z * gset Z * list VertexId) (g : InteractionGraph D R)
  : outcome (InteractionGraph D R) :=
  match fuel with
  | O => Undefined
  | S fuel =>
      let '(count, sizes, visited, q) := s in
      match q with
      | [] => Ret g
      | u :: q =>
          '(it, g) ← processFocusedIntervalQuery pointer_hash order query g;
          '(s, g) ← edge_loop bfs_edge fuel it (count, sizes, visited, q) g;
          bfs_loop fuel query s g
      end
  end.

Definition bfs (fuel : nat) (query : FocusedIntervalQuery) (g : InteractionGraph D R) : outcome (InteractionGraph D R) :=
  bfs_loop fuel query (0, 0, {[ fiq_headVertex query ]}, [fiq_headVertex query]) g.

Definition runDFS (fuel : nat) (queries : list FocusedIntervalQuery) (g : InteractionGraph D R) : outcome (InteractionGraph D R) :=
  foldM (fun g q => '(_, g) ← dfs fuel q ∅ (ig_clearBlockBuffer g); Ret g) g queries.

Definition runBFS (fuel : nat) (queries : list FocusedIntervalQuery) (g : InteractionGraph D R) : outcome (InteractionGraph D R) :=
  foldM (fun g q => bfs fuel q (ig_clearBlockBuffer g)) g queries.
End Searches.
