(* ===== verification/SearchAnswers.v ===== *)
(** * What the searches of the simulation do

    Workloads and searches of Searches.v on a graph that has been filled and
    flushed: a workload reads every edge its queries ask for, and a search asks
    one query and never leaves the vertex it starts from. *)

From Stdlib Require Import ZArith Lia Permutation.
From stdpp Require Import base numbers gmap strings list sorting.
From S2P Require Import Prelude.
From S2P Require Import Double.
From S2P Require Import NetworkByteBuffer.
From S2P Require Import LevelDB.
From S2P Require Import Schema.
From S2P Require Import AttributeData.
From S2P Require Import MetaData.
From S2P Require Import NeighborList.
From S2P Require Import PartitionIndex.
From S2P Require Import Block.
From S2P Require Import BlockContent.
From S2P Require Import BlockManager.
From S2P Require Import IntervalIndex.
From S2P Require Import Query.
From S2P Require Import Conf.
From S2P Require ExpirationMap.
From S2P Require Import ExpirationFlow.
From S2P Require InMemoryGraph.
From S2P Require Import GraphFlow.
From S2P Require Import VertexManager.
From S2P Require Import HistoricalGraph.
From S2P Require Import PartitionChoice.
From S2P Require Import DerivedBlocks.
From S2P Require Import HistoryBlocks.
From S2P Require Import HistoryInvariant.
From S2P Require Import HistoryQuery.
From S2P Require Import HistoryVertices.
From S2P Require Import Workload.
From S2P Require Import StreamHistory.
From S2P Require Import InteractionGraph.
From S2P Require Import StreamAnswers.
From S2P Require Import Searches.

(** ** Loops over edges *)

Section Loops.
Context {D : Type} `{LevelDB D, !LevelDBOk D} {R : Type} `{SpatialIndex R, !SpatialIndexOk R}.
Context (pointer_hash : nat -> Z) (s sv : Schema) (Hdef : defined_schema s) (Hnames : NoDup (name_ <$> attributes_ s)).
Context (Hslice : slice_valid (initial_slice s)) (order : nat -> list nat) (Horder : forall n, order n ≡ₚ seq 0 n).
Context (A : gmap Z AttributeData) (es : list StreamEdge).
Context (Hmeasured : measured_parts s (foldl recorded [] es) (partitioning_ (initial_slice s))).

Section Iterator.
Context (B : gmap Z Block) (hist : list (BlockId * Block)) (v : VertexId) (start endt : Timestamp) (names : list string).
Context (Hst : instant start) (Hen : instant endt) (Hn : names_of_schema s names).
Context (Hb : Forall (fun ib => holds_block s [initial_slice s] B ib.1 ib.2 /\ heads_ok ib.2) hist).

(** The store and the statistics an iterator works with. *)
Definition iterable (g : InteractionGraph D R) : Prop :=
  rep s [initial_slice s] (hg_store_ (hisg_ g)) B /\ schemaStats_ (meta_ g) = foldl recorded [] es.

#[local] Abbreviation produces := (produces [initial_slice s] hist v start endt names).

Lemma with_store_iterable st g : schemaStats_ (meta_ g) = foldl recorded [] es -> rep s [initial_slice s] st B -> iterable (with_store st g).
Proof. intros Hs Hr. by split. Qed.

Lemma with_store_twice st st' (g : InteractionGraph D R) : with_store st' (with_store st g) = with_store st' g.
Proof. done. Qed.

Lemma with_own_store (g : InteractionGraph D R) : with_store (hg_store_ (hisg_ g)) g = g.
Proof. by destruct g as [? ? [] ? ? ?]. Qed.

Lemma produces_valid it x l : produces it (x :: l) -> ei_isValid it = Ret true.
Proof.
  destruct x as [[id k] e]. intros (nl & ls & Hat & _). pose proof Hat as [Hdone _ _ _ Hf Hlt _].
  by rewrite (edge_valid _ _ (following_valid _ _ _ _ Hen _ _ Hf)), (proj2 (Z.ltb_lt _ _) Hlt), Hdone.
Qed.

Lemma produces_to it x l g : produces it (x :: l) -> iterable g -> exists st, eit_getToVertex it g = Ret (toVertex_ x.2, with_store st g) /\ rep s [initial_slice s] st B.
Proof.
  destruct x as [[id k] e]. intros (nl & ls & Hat & Hk & _) [Hrep _].
  destruct (current_edge s Hdef [initial_slice s] B hist Hb v start endt names it id nl k e ls _ Hat Hk Hrep) as (e1 & st & E & Hrep' & Hto & _).
  exists st. split; [|done]. unfold eit_getToVertex, in_graph. rewrite E. cbn [mbind outcome_bind snd]. by rewrite Hto.
Qed.

Lemma produces_data it x l g : produces it (x :: l) -> iterable g -> exists d st,
  eit_getEdgeData it g = Ret (d, with_store st g) /\ rep s [initial_slice s] st B /\ is_part s names (cell (data_ x.2)) d.
Proof.
  destruct x as [[id k] e]. intros (nl & ls & Hat & Hk & _) [Hrep _].
  destruct (current_data s Hdef [initial_slice s] (initial_tiling s Hslice) (initial_parts s Hdef Hnames) order Horder _
    ltac:(by apply Forall_singleton) B hist Hb v start endt Hst Hen names Hn it id nl k e ls _ Hat Hk Hrep) as (d & st & E & Hrep' & Hd).
  exists d, st. split; [|done]. unfold eit_getEdgeData, in_graph. by rewrite E.
Qed.

Lemma produces_next it x l g : produces it (x :: l) -> iterable g -> exists it' st,
  eit_next order it g = Ret (it', with_store st g) /\ rep s [initial_slice s] st B /\ produces it' l.
Proof.
  intros Hp [Hrep Hstats].
  destruct (ei_next_ok s Hdef [initial_slice s] (initial_tiling s Hslice) (initial_parts s Hdef Hnames) order Horder _
    ltac:(by apply Forall_singleton) B hist Hb v start endt Hst Hen names Hn it _ l _ Hp Hrep) as (it' & st & E & Hrep' & Hp').
  exists it', st. split; [|done]. unfold eit_next, in_graph. rewrite Hstats, E. done.
Qed.

(** A loop whose body only reads runs through the edges in order, and keeps an
    invariant that counts the edges left. *)
Lemma edge_loop_ok {S} (Inv : list NLEdge -> S -> Prop) body l :
  (forall it x k u g, produces it (x :: k) -> iterable g -> x ∈ l -> Inv (snd <$> x :: k) u ->
    exists u' st, body it u g = Ret (u', with_store st g) /\ rep s [initial_slice s] st B /\ Inv (snd <$> k) u') ->
  forall fuel it u g, produces it l -> iterable g -> (length l < fuel)%nat -> Inv (snd <$> l) u ->
  exists u' st, edge_loop order body fuel it u g = Ret (u', with_store st g) /\ rep s [initial_slice s] st B /\ Inv [] u'.
Proof.
  induction l as [|x l IH]; intros Hbody fuel it u g Hp Hg Hfuel Hinv; (destruct fuel as [|fuel]; [lia|]); cbn [edge_loop].
  { cbn in Hp. rewrite Hp. cbn [mbind outcome_bind]. exists u, (hg_store_ (hisg_ g)). rewrite with_own_store. split; [done|]. split; [apply Hg|done]. }
  rewrite (produces_valid it x l Hp). cbn [mbind outcome_bind]. pose proof Hg as [_ Hstats].
  destruct (Hbody it x l u g Hp Hg) as (u1 & st1 & -> & Hrep1 & Hinv1); [left|done|]. cbn [mbind outcome_bind].
  destruct (produces_next it x l (with_store st1 g) Hp (with_store_iterable st1 g Hstats Hrep1)) as (it' & st2 & -> & Hrep2 & Hp'). cbn [mbind outcome_bind].
  rewrite with_store_twice.
  destruct (IH ltac:(intros ? y ? ? ? Hy ? ? ?; apply (Hbody _ y); [exact Hy|done|by right|done]) fuel it' u1 (with_store st2 g) Hp' (with_store_iterable st2 g Hstats Hrep2)) as (u' & st3 & E & Hrep3 & Hs);
    [cbn in Hfuel; lia|done|]. rewrite E, with_store_twice. by exists u', st3.
Qed.
End Iterator.

(** ** Queries *)

(** A query the graph can answer. *)
Definition answerable (q : FocusedIntervalQuery) : Prop :=
  is_u64 (fiq_headVertex q) /\ instant (q_start_ (fiq_query q)) /\ instant (q_end_ (fiq_query q)) /\
  names_of_schema s (attributeNames_ (fiq_query q)) /\ exists names, fiq_query q = newQuery (q_start_ (fiq_query q)) (q_end_ (fiq_query q)) names.

(** The edges it asks for. *)
Definition asked (q : FocusedIntervalQuery) : list NLEdge :=
  filter (fun e => q_start_ (fiq_query q) <= tm_ e < q_end_ (fiq_query q)) (incident (fiq_headVertex q) es).

Lemma loop_start qs (g : InteractionGraph D R) q : serves pointer_hash s sv A es qs g -> answerable q ->
  exists it g1 B hist l,
    processFocusedIntervalQuery pointer_hash order q g = Ret (it, g1) /\
    produces [initial_slice s] hist (fiq_headVertex q) (q_start_ (fiq_query q)) (q_end_ (fiq_query q)) (attributeNames_ (fiq_query q)) it l /\
    snd <$> l = asked q /\ iterable B g1 /\
    Forall (fun ib => holds_block s [initial_slice s] B ib.1 ib.2 /\ heads_ok ib.2) hist /\
    forall st, rep s [initial_slice s] st B -> serves pointer_hash s sv A es (qs ++ [fiq_query q]) (with_store st g1).
Proof.
  intros [Hvm Hends (B & hist & Hh & Hinc) Hstats Hq] (Hv & Hst & Hen & Hn & names & Eq).
  destruct q as [q v]. cbn [fiq_query fiq_headVertex] in *. set (start := q_start_ q) in *. set (endt := q_end_ q) in *.
  destruct (collect_query_ok pointer_hash s qs (qcol_ g) q Hq) as (c & Ec & Hc).
  { rewrite Eq. apply query_known. intros x Hx. rewrite <- (newQuery_names start endt names), <- Eq in Hx.
    unfold names_of_schema in Hn. rewrite Forall_forall in Hn. destruct (Hn x Hx) as [i Hi].
    destruct (names_sound _ (proj1 Hdef) _ _ Hi) as (j & a & _ & Ha & <-). exists a. split; [by eapply list_elem_of_lookup_2|done]. }
  destruct (focused_query_start s [initial_slice s] order (foldl recorded [] es) (hisg_ g) B hist v start endt names Hdef
    (initial_tiling s Hslice) (initial_parts s Hdef Hnames) Horder ltac:(by apply Forall_singleton) Hh Hv Hst Hen ltac:(by rewrite <- Eq)) as (it & h1 & E1 & Hh1 & Hp).
  unfold newFocusedIntervalQuery in E1. rewrite <- Eq in E1, Hp.
  exists it, (mkIG (ig_conf_ g) (vman_ g) h1 (memg_ g) c (lastTime_ g)), B, hist, (edges_between v start endt hist). split_and!.
  - unfold processFocusedIntervalQuery. cbn [fiq_query]. rewrite Ec. cbn [mbind outcome_bind]. rewrite Hstats. by rewrite E1.
  - exact Hp.
  - by rewrite edges_between_entries, Hinc.
  - split; [apply (ho_rep _ _ _ _ _ Hh1)|exact Hstats].
  - apply (ho_blocks _ _ _ _ _ Hh1).
  - intros st Hrep. split; cbn [vman_ hisg_ qcol_ with_store]; try done. exists B, hist. split; [by apply hist_ok_store|done].
Qed.

(** Clearing the buffer of blocks changes no content. *)
Lemma clear_rep B (st : Store D) : rep s [initial_slice s] st B -> rep s [initial_slice s] (mkStore (clear (bman_ st)) (pidx_ st) (heap_ st)) B.
Proof.
  intros [H1 H2 H3 H4 _ _ H7 H8]. split; try done; cbn.
  - split; [constructor|]. intros id. rewrite lookup_empty. split; [by intros ?%elem_of_nil|by intros []].
  - lia.
Qed.

Lemma clear_serves qs (g : InteractionGraph D R) : serves pointer_hash s sv A es qs g -> serves pointer_hash s sv A es qs (ig_clearBlockBuffer g).
Proof.
  intros [Hvm Hends (B & hist & Hh & Hinc) Hstats Hq]. split; try done. exists B, hist. split; [|done].
  cbn [ig_clearBlockBuffer hisg_]. unfold clearBlockBuffer. apply hist_ok_store; [done|]. apply clear_rep, (ho_rep _ _ _ _ _ Hh).
Qed.

(** Running a loop over the edges of a query. *)
Lemma query_loop {S} (Inv : list NLEdge -> S -> Prop) body q qs (g : InteractionGraph D R) u fuel :
  serves pointer_hash s sv A es qs g -> answerable q -> (length (asked q) < fuel)%nat ->
  (forall B hist it x k u g,
    Forall (fun ib => holds_block s [initial_slice s] B ib.1 ib.2 /\ heads_ok ib.2) hist ->
    produces [initial_slice s] hist (fiq_headVertex q) (q_start_ (fiq_query q)) (q_end_ (fiq_query q)) (attributeNames_ (fiq_query q)) it (x :: k) ->
    iterable B g -> x.2 ∈ asked q -> Inv (snd <$> x :: k) u ->
    exists u' st, body it u g = Ret (u', with_store st g) /\ rep s [initial_slice s] st B /\ Inv (snd <$> k) u') ->
  Inv (asked q) u ->
  exists it g1 u' g2,
    processFocusedIntervalQuery pointer_hash order q g = Ret (it, g1) /\ edge_loop order body fuel it u g1 = Ret (u', g2) /\
    Inv [] u' /\ serves pointer_hash s sv A es (qs ++ [fiq_query q]) g2.
Proof.
  intros Hg Hq Hfuel Hbody Hinv. destruct (loop_start qs g q Hg Hq) as (it & g1 & B & hist & l & E1 & Hp & El & Hit & Hb & Hserve).
  pose proof Hq as (Hv & Hst & Hen & Hn & _).
  destruct (edge_loop_ok B hist (fiq_headVertex q) _ _ _ Hst Hen Hn Hb Inv body l) with (fuel := fuel) (it := it) (u := u) (g := g1) as (u' & st & E2 & Hrep & Hs);
    [|done|done|by rewrite <- El, length_fmap in Hfuel|by rewrite El|].
  - intros it' x k u' g' Hp' Hg' Hx. apply (Hbody B hist it' x k u' g' Hb Hp' Hg'). rewrite <- El. by apply list_elem_of_fmap_2.
  - exists it, g1, u', (with_store st g1). split; [done|]. split; [done|]. split; [done|by apply Hserve].
Qed.

(** ** Workloads *)

(** Edges between different vertices with a value for every attribute. *)
Context (Hes : Forall (fun e => se_v e <> se_u e /\ complete s (cell (se_data e))) es).

Lemma asked_edge q e : e ∈ asked q -> toVertex_ e <> fiq_headVertex q /\ complete s (cell (data_ e)).
Proof.
  unfold asked. rewrite list_elem_of_filter. intros [_ (se & Hse & _ & -> & Hends)%incident_edge]. rewrite Forall_forall in Hes. destruct (Hes se Hse) as [Hne Hc].
  split; [|done]. destruct Hends as [[-> ->]|[-> ->]]; congruence.
Qed.

(** The data read have a field for each name asked for. *)
Lemma part_fields names d p : names_of_schema s names -> complete s d -> is_part s names d p -> length (fields_ p) = length (remove_dups names).
Proof.
  intros Hn (_ & _ & Hk) ([Hnd _] & Hin & Hout). rewrite <- (length_fmap fst (fields_ p)).
  set (ix := fun a => default 0 (nameToIndex_ s !! a)).
  assert (forall a, a ∈ names -> nameToIndex_ s !! a = Some (ix a)) as Hix.
  { intros a Ha. unfold names_of_schema in Hn. rewrite Forall_forall in Hn. destruct (Hn a Ha) as [i Hi]. unfold ix. by rewrite Hi. }
  rewrite <- (length_fmap ix (remove_dups names)). apply Permutation_length, NoDup_Permutation; [done| |].
  - apply NoDup_fmap_2_strong; [|apply NoDup_remove_dups]. intros a a' Ha Ha' E. rewrite elem_of_remove_dups in Ha. rewrite elem_of_remove_dups in Ha'.
    apply Hix in Ha, Ha'. rewrite E in Ha. by apply (index_name s a a' (ix a') (proj1 Hdef)).
  - intros i. rewrite <- assoc_find_is_Some, list_elem_of_fmap. split.
    + intros Hi. destruct (decide (index_in s names i)) as [(a & Ha & Hi')|Hno]; [|rewrite (Hout i Hno) in Hi; by destruct Hi].
      exists a. split; [|by rewrite elem_of_remove_dups]. apply Hix in Ha. congruence.
    + intros (a & -> & Ha). rewrite elem_of_remove_dups in Ha. pose proof (Hix a Ha) as Hi. rewrite Hin by (by exists a).
      destruct (schema_index_attribute s a (ix a) (proj1 Hdef) Hi) as (at_ & _ & Hat & Hai).
      apply assoc_find_is_Some. rewrite Hk. apply assoc_find_is_Some, newAttributeData_keys. by exists at_.
Qed.

(** What a workload counts. *)
Definition edges_asked (queries : list FocusedIntervalQuery) : Z := sumZ (fun q => Z.of_nat (length (asked q))) queries.
Definition fields_asked (queries : list FocusedIntervalQuery) : Z :=
  sumZ (fun q => Z.of_nat (length (asked q) * length (remove_dups (attributeNames_ (fiq_query q))))) queries.

Lemma workload_loop q qs (g : InteractionGraph D R) count sizes fuel :
  serves pointer_hash s sv A es qs g -> answerable q -> (length (asked q) < fuel)%nat ->
  0 <= count -> count + edges_asked [q] < 2 ^ 31 -> 0 <= sizes -> sizes + fields_asked [q] < 2 ^ 31 ->
  exists it g1 g2, processFocusedIntervalQuery pointer_hash order q g = Ret (it, g1) /\
    edge_loop order count_edge fuel it (count, sizes) g1 = Ret ((count + edges_asked [q], sizes + fields_asked [q]), g2) /\
    serves pointer_hash s sv A es (qs ++ [fiq_query q]) g2.
Proof.
  intros Hg Hq Hfuel Hc0 Hc Hz0 Hz. pose proof Hq as (_ & Hst & Hen & Hn & _). unfold edges_asked, fields_asked, sumZ in *. cbn [foldr] in *. rewrite !Z.add_0_r in *.
  set (w := length (remove_dups (attributeNames_ (fiq_query q)))) in *.
  destruct (query_loop (fun k (u : Z * Z) => u.1 = count + Z.of_nat (length (asked q)) - Z.of_nat (length k) /\
    u.2 = sizes + Z.of_nat (length (asked q) * w) - Z.of_nat (length k * w) /\ (length k <= length (asked q))%nat) count_edge q qs g (count, sizes) fuel Hg Hq Hfuel)
    as (it & g1 & [c z] & g2 & E1 & E2 & (Ec & Ez & _) & Hg2).
  - intros B hist it x k [c z] g' Hb Hp Hg' Hx (Ec & Ez & Hle). cbn [fmap list_fmap length fst snd] in *. unfold count_edge.
    destruct (produces_data B hist _ _ _ _ Hst Hen Hn Hb it x k g' Hp Hg') as (d & st & -> & Hrep & Hd). cbn [mbind outcome_bind].
    unfold increment. rewrite (proj2 (Z.ltb_lt _ _)) by lia. cbn [mbind outcome_bind]. eexists _, st. split; [reflexivity|]. split; [done|]. cbn [fst snd].
    unfold add_size. rewrite (part_fields _ _ _ Hn (proj2 (asked_edge q _ Hx)) Hd). fold w. rewrite to_signed_id by nia. split_and!; lia.
  - cbn [fst snd]. split_and!; lia.
  - cbn [fst snd length] in *. exists it, g1, g2. split; [done|]. split; [|done]. rewrite E2. repeat f_equal; lia.
Qed.

Lemma workload_loops queries fuel : Forall (fun q => answerable q /\ (length (asked q) < fuel)%nat) queries ->
  forall qs (g : InteractionGraph D R) count sizes, serves pointer_hash s sv A es qs g ->
  0 <= count -> count + edges_asked queries < 2 ^ 31 -> 0 <= sizes -> sizes + fields_asked queries < 2 ^ 31 ->
  exists g', foldM (workload_query pointer_hash order fuel) ((count, sizes), g) queries = Ret ((count + edges_asked queries, sizes + fields_asked queries), g') /\
    serves pointer_hash s sv A es (qs ++ (fiq_query <$> queries)) g'.
Proof.
  induction 1 as [|q queries [Hq Hfuel] _ IH]; intros qs g count sizes Hg Hc0 Hc Hz0 Hz; cbn [foldM].
  { exists g. rewrite app_nil_r. split; [|done]. unfold edges_asked, fields_asked, sumZ. cbn. by rewrite !Z.add_0_r. }
  assert (edges_asked (q :: queries) = edges_asked [q] + edges_asked queries) as Ee by (unfold edges_asked, sumZ; cbn; lia).
  assert (fields_asked (q :: queries) = fields_asked [q] + fields_asked queries) as Ef by (unfold fields_asked, sumZ; cbn; lia).
  assert (forall l, 0 <= edges_asked l /\ 0 <= fields_asked l) as Hpos by (intros l; split; apply sumZ_nonneg; lia).
  pose proof (Hpos [q]) as [He1 Hf1]. pose proof (Hpos queries) as [He2 Hf2]. rewrite Ee, Ef in *.
  destruct (workload_loop q qs (ig_clearBlockBuffer g) count sizes fuel (clear_serves qs g Hg) Hq Hfuel) as (it & g1 & g2 & E1 & E2 & Hg2); [lia..|].
  assert (workload_query pointer_hash order fuel (count, sizes, g) q = Ret (count + edges_asked [q], sizes + fields_asked [q], g2)) as ->
    by (unfold workload_query; cbv zeta iota; rewrite E1; exact E2). cbn [mbind outcome_bind].
  destruct (IH (qs ++ [fiq_query q]) g2 (count + edges_asked [q]) (sizes + fields_asked [q]) Hg2) as (g' & E & Hg'); [lia..|].
  exists g'. rewrite E. split; [by rewrite !Z.add_assoc|]. by rewrite <- app_assoc in Hg'.
Qed.

(** What a loop stands at: a body that notes the other end and the data at
    every turn. *)
Definition note_edge (it : EdgeIterator) (noted : list (VertexId * AttributeData)) (g : InteractionGraph D R)
  : outcome (list (VertexId * AttributeData) * InteractionGraph D R) :=
  '(u, g) ← eit_getToVertex it g;
  '(d, g) ← eit_getEdgeData it g;
  Ret (noted ++ [(u, d)], g).

Definition note_of (names : list string) (n : VertexId * AttributeData) (e : NLEdge) : Prop :=
  n.1 = toVertex_ e /\ is_part s names (cell (data_ e)) n.2.

Lemma note_loop q qs (g : InteractionGraph D R) fuel :
  serves pointer_hash s sv A es qs g -> answerable q -> (length (asked q) < fuel)%nat ->
  exists it g1 g2 noted, processFocusedIntervalQuery pointer_hash order q g = Ret (it, g1) /\
    edge_loop order note_edge fuel it [] g1 = Ret (noted, g2) /\
    Forall2 (note_of (attributeNames_ (fiq_query q))) noted (asked q).
Proof.
  intros Hg Hq Hfuel. pose proof Hq as (_ & Hst & Hen & Hn & _).
  destruct (query_loop (fun k noted => exists seen, asked q = seen ++ k /\ Forall2 (note_of (attributeNames_ (fiq_query q))) noted seen)
    note_edge q qs g [] fuel Hg Hq Hfuel) as (it & g1 & noted & g2 & E1 & E2 & (seen & Es & Hs) & _).
  - intros B hist it x k noted g' Hb Hp Hg' Hx (seen & Es & Hs). cbn [fmap list_fmap] in Es. unfold note_edge.
    destruct (produces_to B hist _ _ _ _ Hb it x k g' Hp Hg') as (st & -> & Hrep). cbn [mbind outcome_bind].
    destruct (produces_data B hist _ _ _ _ Hst Hen Hn Hb it x k (with_store st g') Hp) as (d & st' & -> & Hrep' & Hd); [split; [done|apply Hg']|].
    cbn [mbind outcome_bind]. rewrite with_store_twice. eexists _, st'. split; [reflexivity|]. split; [done|].
    exists (seen ++ [x.2]). split; [by rewrite <- app_assoc|]. apply Forall2_app; [done|]. apply Forall2_cons_2; [by split|apply Forall2_nil_2].
  - exists []. split; [done|constructor].
  - exists it, g1, g2, noted. rewrite Es, app_nil_r. by split_and!.
Qed.

(** ** Searches *)

(** No edge of the head vertex leads to a vertex visited before. *)
Lemma dfs_stops q qs (g : InteractionGraph D R) fuel :
  serves pointer_hash s sv A es qs g -> answerable q -> (S (length (asked q)) < fuel)%nat -> Z.of_nat (length (asked q)) < 2 ^ 31 ->
  exists g', dfs pointer_hash order fuel q ∅ g = Ret ({[ fiq_headVertex q ]}, g') /\ serves pointer_hash s sv A es (qs ++ [fiq_query q]) g'.
Proof.
  intros Hg Hq Hfuel Hlen. pose proof Hq as (_ & Hst & Hen & Hn & _). destruct fuel as [|fuel]; [lia|]. cbn [dfs].
  destruct (query_loop (fun k (u : Z * Z * gset Z) => 0 <= u.1.1 /\ u.1.1 + Z.of_nat (length k) < 2 ^ 31 /\ u.2 = {[ fiq_headVertex q ]})
    (dfs_edge (dfs pointer_hash order fuel) q) q qs g (0, 0, {[ fiq_headVertex q ]} ∪ ∅) fuel Hg Hq)
    as (it & g1 & [[c z] vis] & g2 & E1 & E2 & (_ & _ & Ev) & Hg2); [lia| | |].
  - intros B hist it x k [[c z] vis] g' Hb Hp Hg' Hx (Hc0 & Hc & Ev). cbn [fmap list_fmap length fst snd] in *. subst vis. unfold dfs_edge.
    destruct (produces_to B hist _ _ _ _ Hb it x k g' Hp Hg') as (st & -> & Hrep). cbn [mbind outcome_bind].
    destruct (produces_data B hist _ _ _ _ Hst Hen Hn Hb it x k (with_store st g') Hp) as (d & st' & -> & Hrep' & Hd); [split; [done|apply Hg']|].
    cbn [mbind outcome_bind]. unfold increment. rewrite (proj2 (Z.ltb_lt _ _)) by lia. cbn [mbind outcome_bind].
    rewrite decide_False by (rewrite elem_of_singleton; apply (asked_edge q _ Hx)). rewrite with_store_twice.
    eexists _, st'. split; [reflexivity|]. split; [done|]. cbn [fst snd]. split_and!; [lia|lia|done].
  - cbn [fst snd]. split_and!; [lia|lia|]. by rewrite union_empty_r_L.
  - exists g2. rewrite E1. cbn [mbind outcome_bind]. rewrite E2. cbn [mbind outcome_bind snd] in *. by rewrite Ev.
Qed.

Lemma bfs_stops q qs (g : InteractionGraph D R) fuel :
  serves pointer_hash s sv A es qs g -> answerable q -> (S (length (asked q)) < fuel)%nat -> Z.of_nat (length (asked q)) < 2 ^ 31 ->
  exists g', bfs pointer_hash order fuel q g = Ret g' /\ serves pointer_hash s sv A es (qs ++ [fiq_query q]) g'.
Proof.
  intros Hg Hq Hfuel Hlen. pose proof Hq as (_ & Hst & Hen & Hn & _). destruct fuel as [|fuel]; [lia|]. unfold bfs. cbn [bfs_loop].
  destruct (query_loop (fun k (u : Z * Z * gset Z * list VertexId) => 0 <= u.1.1.1 /\ u.1.1.1 + Z.of_nat (length k) < 2 ^ 31 /\
      u.1.2 = {[ fiq_headVertex q ]} /\ u.2 = []) bfs_edge q qs g (0, 0, {[ fiq_headVertex q ]}, []) fuel Hg Hq)
    as (it & g1 & [[[c z] vis] queue] & g2 & E1 & E2 & (_ & _ & _ & Eq) & Hg2); [lia| | |].
  - intros B hist it x k [[[c z] vis] queue] g' Hb Hp Hg' Hx (Hc0 & Hc & Ev & Eq). cbn [fmap list_fmap length fst snd] in *. subst vis queue. unfold bfs_edge.
    destruct (produces_data B hist _ _ _ _ Hst Hen Hn Hb it x k g' Hp Hg') as (d & st & -> & Hrep & Hd).
    cbn [mbind outcome_bind]. unfold increment. rewrite (proj2 (Z.ltb_lt _ _)) by lia. cbn [mbind outcome_bind].
    destruct (produces_to B hist _ _ _ _ Hb it x k (with_store st g') Hp) as (st' & -> & Hrep'); [split; [done|apply Hg']|]. cbn [mbind outcome_bind].
    rewrite decide_False by (rewrite elem_of_singleton; apply (asked_edge q _ Hx)). rewrite with_store_twice.
    eexists _, st'. split; [reflexivity|]. split; [done|]. cbn [fst snd]. split_and!; [lia|lia|done|done].
  - cbn [fst snd]. split_and!; [lia|lia|done|done].
  - exists g2. rewrite E1. cbn [mbind outcome_bind]. rewrite E2. cbn [mbind outcome_bind snd] in *. subst queue. destruct fuel; [lia|]. done.
Qed.

(** A search for each query, on a graph that answers it with one query. *)
Lemma searches_ok (run : FocusedIntervalQuery -> InteractionGraph D R -> outcome (InteractionGraph D R)) queries :
  (forall q qs g, q ∈ queries -> serves pointer_hash s sv A es qs g -> exists g', run q g = Ret g' /\ serves pointer_hash s sv A es (qs ++ [fiq_query q]) g') ->
  forall qs g, serves pointer_hash s sv A es qs g ->
  exists g', foldM (fun g q => run q (ig_clearBlockBuffer g)) g queries = Ret g' /\ serves pointer_hash s sv A es (qs ++ (fiq_query <$> queries)) g'.
Proof.
  induction queries as [|q queries IH]; intros Hrun qs g Hg; cbn [foldM].
  { exists g. by rewrite app_nil_r. }
  destruct (Hrun q qs (ig_clearBlockBuffer g)) as (g1 & -> & Hg1); [left|by apply clear_serves|]. cbn [mbind outcome_bind].
  destruct (IH ltac:(intros; apply Hrun; [by right|done]) (qs ++ [fiq_query q]) g1 Hg1) as (g' & -> & Hg'). exists g'. split; [done|]. by rewrite <- app_assoc in Hg'.
Qed.
End Loops.

(** ** Properties *)

(** C13: running a workload on a served graph, the edges and the fields asked
    for being fewer than 2^31 in all.  The loop of each query stands
    at exactly the edges the query asks for, one after the other and in order:
    a body that notes the other end and the data at every turn notes just
    these, with the values of the attributes named.  So the body of
    [runWorkload], which counts an edge and the fields of its data at every
    turn, ends with exactly the number of edges asked for by all queries and,
    for each of them, as many fields as its query names attributes; its
    assertions fail exactly when one of the two totals is zero.  The graph
    serves as before, and the collector has counted every query. *)
Theorem workload_runs {D} `{LevelDB D, !LevelDBOk D} {R} `{SpatialIndex R, !SpatialIndexOk R}
    (pointer_hash : nat -> Z) (order : nat -> list nat) (s sv : Schema) (A : gmap Z AttributeData) (es : list StreamEdge)
    (qs : list Query) (g : InteractionGraph D R) (queries : list FocusedIntervalQuery) (fuel : nat) :
  defined_schema s -> NoDup (name_ <$> attributes_ s) -> slice_valid (initial_slice s) -> (forall n, order n ≡ₚ seq 0 n) ->
  measured_parts s (foldl recorded [] es) (partitioning_ (initial_slice s)) ->
  Forall (fun e => se_v e <> se_u e /\ complete s (cell (se_data e))) es ->
  serves pointer_hash s sv A es qs g ->
  Forall (fun q => answerable s q /\ (length (asked es q) < fuel)%nat) queries ->
  edges_asked es queries < 2 ^ 31 -> fields_asked es queries < 2 ^ 31 ->
  (forall q, q ∈ queries -> exists it g1 g2 noted,
     processFocusedIntervalQuery pointer_hash order q (ig_clearBlockBuffer g) = Ret (it, g1) /\
     edge_loop order note_edge fuel it [] g1 = Ret (noted, g2) /\
     Forall2 (note_of s (attributeNames_ (fiq_query q))) noted (asked es q)) /\
  exists g',
    foldM (workload_query pointer_hash order fuel) ((0, 0), g) queries = Ret ((edges_asked es queries, fields_asked es queries), g') /\
    runWorkload pointer_hash order fuel queries g =
      (if (edges_asked es queries =? 0) || (fields_asked es queries =? 0) then AssertFailed else Ret g') /\
    serves pointer_hash s sv A es (qs ++ (fiq_query <$> queries)) g'.
Proof.
  intros Hdef Hnames Hslice Horder Hm Hes Hg Hq He Hf. split.
  - intros q Hin. rewrite Forall_forall in Hq. destruct (Hq q Hin) as [Ha Hfuel].
    apply (note_loop pointer_hash s sv Hdef Hnames Hslice order Horder A es Hm q qs); [by apply clear_serves|done|done].
  - destruct (workload_loops pointer_hash s sv Hdef Hnames Hslice order Horder A es Hm Hes queries fuel Hq qs g 0 0 Hg) as (g' & E & Hg'); [lia..|].
    rewrite !Z.add_0_l in E. exists g'. split; [done|]. split; [|done]. unfold runWorkload. rewrite E. cbn [mbind outcome_bind].
    destruct (edges_asked es queries =? 0), (fields_asked es queries =? 0); done.
Qed.

(** C15: the searches do not search.  [dfs] and [bfs] go on to a vertex when it
    has been visited before, which no neighbor of the first vertex has: on a
    served graph each of them ends after the one query for the vertex it
    starts from, [dfs] has visited only that vertex, and running a list of
    searches has asked the graph exactly the queries of the list. *)
Theorem searches_stop {D} `{LevelDB D, !LevelDBOk D} {R} `{SpatialIndex R, !SpatialIndexOk R}
    (pointer_hash : nat -> Z) (order : nat -> list nat) (s sv : Schema) (A : gmap Z AttributeData) (es : list StreamEdge)
    (qs : list Query) (g : InteractionGraph D R) (queries : list FocusedIntervalQuery) (fuel : nat) :
  defined_schema s -> NoDup (name_ <$> attributes_ s) -> slice_valid (initial_slice s) -> (forall n, order n ≡ₚ seq 0 n) ->
  measured_parts s (foldl recorded [] es) (partitioning_ (initial_slice s)) ->
  Forall (fun e => se_v e <> se_u e /\ complete s (cell (se_data e))) es ->
  serves pointer_hash s sv A es qs g ->
  Forall (fun q => answerable s q /\ (S (length (asked es q)) < fuel)%nat /\ Z.of_nat (length (asked es q)) < 2 ^ 31) queries ->
  (forall q, q ∈ queries -> exists g', dfs pointer_hash order fuel q ∅ g = Ret ({[ fiq_headVertex q ]}, g')) /\
  (exists g', runDFS pointer_hash order fuel queries g = Ret g' /\ serves pointer_hash s sv A es (qs ++ (fiq_query <$> queries)) g') /\
  (exists g', runBFS pointer_hash order fuel queries g = Ret g' /\ serves pointer_hash s sv A es (qs ++ (fiq_query <$> queries)) g').
Proof.
  intros Hdef Hnames Hslice Horder Hm Hes Hg Hq. rewrite Forall_forall in Hq. split_and!.
  - intros q Hin. destruct (Hq q Hin) as (Ha & Hfuel & Hl).
    destruct (dfs_stops pointer_hash s sv Hdef Hnames Hslice order Horder A es Hm Hes q qs g fuel Hg Ha Hfuel Hl) as (g' & E & _). by exists g'.
  - apply (searches_ok pointer_hash s sv A es (fun q g => '(_, g) ← dfs pointer_hash order fuel q ∅ g; Ret g)); [|done].
    intros q qs' g' Hin Hg'. destruct (Hq q Hin) as (Ha & Hfuel & Hl).
    destruct (dfs_stops pointer_hash s sv Hdef Hnames Hslice order Horder A es Hm Hes q qs' g' fuel Hg' Ha Hfuel Hl) as (g2 & E & Hg2).
    exists g2. by rewrite E.
  - apply (searches_ok pointer_hash s sv A es (fun q g => bfs pointer_hash order fuel q g)); [|done].
    intros q qs' g' Hin Hg'. destruct (Hq q Hin) as (Ha & Hfuel & Hl).
    by apply (bfs_stops pointer_hash s sv Hdef Hnames Hslice order Horder A es Hm Hes q qs' g' fuel).
Qed.

(** *** The graph of the client *)

Definition client_stream : list StreamEdge := stream_edge (edgeSchema client_conf) <$> client_inputs.
Definition client_query : FocusedIntervalQuery := newFocusedIntervalQuery 1 (dofZ 0) (dofZ 9) ["weight"; "tag"]%string.

Lemma client_edges : Forall (fun e => se_v e <> se_u e /\ complete (edgeSchema client_conf) (cell (se_data e))) client_stream.
Proof.
  apply Forall_forall. intros e (i & -> & Hi)%list_elem_of_fmap. pose proof (client_edge_ok i Hi) as [Hv _]. split; [|by apply client_values_for].
  clear Hv. unfold client_inputs in Hi. repeat (apply elem_of_cons in Hi as [->|Hi]); [done..|by apply elem_of_nil in Hi].
Qed.

Lemma client_answerable : answerable (edgeSchema client_conf) client_query.
Proof.
  split; [by vm_compute|]. split; [by vm_compute|]. split; [by vm_compute|]. split.
  - apply Forall_forall. intros x Hx. vm_compute in Hx. repeat (apply elem_of_cons in Hx as [->|Hx]; [vm_compute; by eexists|]). by apply elem_of_nil in Hx.
  - by exists ["weight"; "tag"]%string.
Qed.

(** The vertex 1 has two edges, of two attributes each. *)
Lemma workload_runs_witness :
  exists (g g' : InteractionGraph (gmap bytes bytes) (list (bytes * Region * Z))),
    runWorkload (fun i => Z.of_nat i) (seq 0) 3 [client_query] g = Ret g' /\ edges_asked client_stream [client_query] = 2 /\
    fields_asked client_stream [client_query] = 4.
Proof.
  destruct client_served as (g & A & Hg). exists g.
  destruct (workload_runs (fun i => Z.of_nat i) (seq 0) (edgeSchema client_conf) (vertexSchema client_conf) A client_stream [] g [client_query] 3) as (_ & g' & _ & E & _).
  - exact (ck_edge _ client_conf_ok).
  - exact (ck_names _ client_conf_ok).
  - exact (ck_slice _ client_conf_ok).
  - reflexivity.
  - exact client_measured.
  - exact client_edges.
  - exact Hg.
  - apply Forall_singleton. split; [exact client_answerable|]. vm_compute. reflexivity.
  - vm_compute. reflexivity.
  - vm_compute. reflexivity.
  - exists g'. split; [exact E|]. split; vm_compute; reflexivity.
Defined.

(** The vertices 2 and 3 are its neighbors, and are not visited. *)
Lemma searches_stop_witness :
  exists (g g' : InteractionGraph (gmap bytes bytes) (list (bytes * Region * Z))),
    dfs (fun i => Z.of_nat i) (seq 0) 4 client_query ∅ g = Ret ({[ 1 ]}, g') /\
    (toVertex_ <$> asked client_stream client_query) = [2; 3].
Proof.
  destruct client_served as (g & A & Hg). exists g.
  destruct (searches_stop (fun i => Z.of_nat i) (seq 0) (edgeSchema client_conf) (vertexSchema client_conf) A client_stream [] g [client_query] 4) as (Hdfs & _).
  - exact (ck_edge _ client_conf_ok).
  - exact (ck_names _ client_conf_ok).
  - exact (ck_slice _ client_conf_ok).
  - reflexivity.
  - exact client_measured.
  - exact client_edges.
  - exact Hg.
  - apply Forall_singleton. split; [exact client_answerable|]. vm_compute. split; [lia|reflexivity].
  - destruct (Hdfs client_query) as (g' & E); [left|]. exists g'. split; [exact E|]. vm_compute. reflexivity.
Defined.
