(* ===== verification/Tweets.v ===== *)
(** * Filling graphs from tweets

    simulation/ExpSetupHelper.cpp: the configuration of the experiments, the
    parser of a line of a tweet file, the scan of a directory of such files and
    the graphs filled from it.

    [boost::lexical_cast], the dates of boost, the file system and the order of
    an [unordered_set] are parameters. The positions of a string are [size_t]:
    [npos + 1] is 0. *)

From Stdlib Require Import ZArith Lia Ascii.
From stdpp Require Import base numbers gmap strings list sorting.
From S2P Require Import Prelude.
From S2P Require Import Double.
From S2P Require Import LevelDB.
From S2P Require Import Schema.
From S2P Require Import AttributeData.
From S2P Require Import NeighborList.
From S2P Require Import IntervalIndex.
From S2P Require Import Query.
From S2P Require Import Conf.
From S2P Require Import HistoricalGraph.
From S2P Require Import InteractionGraph.
From S2P Require Import Searches.

Record Tweet := mkTweet {
  tweet_time : string;
  tweetId : string;
  userId : string;
  retweetId : string;
  inReplyToStatusId : string;
  isTruncated : string;
  mentionedUsers : string;
  hashTags : string;
  text : string
}.

(** [expDir] is the path [dbDirPath / expName]. *)
Definition createGraphConf (expDir : string) : Conf :=
  newConf "exp" expDir [("v", INT64)]
    [("dir", STRING); ("time", STRING); ("tweetId", STRING); ("userId", STRING); ("retweetId", STRING);
     ("inReplyToStatusId", STRING); ("isTruncated", STRING); ("mentionedUsers", STRING); ("hashTags", STRING); ("text", STRING)].

(** ** Strings *)

Definition npos : Z := 2 ^ 64 - 1.

(** The position [i] is that of the first character of [s]. *)
Fixpoint find_from (c : Ascii.ascii) (s : string) (i pos : Z) : Z :=
  match s with
  | EmptyString => npos
  | String a s => if (pos <=? i) && Ascii.eqb a c then i else find_from c s (i + 1) pos
  end.

Definition find (c : Ascii.ascii) (s : string) (pos : Z) : Z := find_from c s 0 pos.

Definition substr (s : string) (pos n : Z) : outcome string :=
  let size := Z.of_nat (String.length s) in
  if size <? pos then Throw out_of_range
  else Ret (String.substring (Z.to_nat pos) (Z.to_nat (Z.min n (size - pos))) s).

(** [e = line.find('|', s = e + 1); line.substr(s, e - s)] *)
Definition next_field (line : string) (e : Z) : outcome (string * Z) :=
  let s := u64 (e + 1) in
  let e := find "|"%char line s in
  field ← substr line s (u64 (e - s));
  Ret (field, e).

(** [getline] until the end of the file: a line more than there are ends of
    lines. *)
Fixpoint lines_of (line content : string) : list string :=
  match content with
  | EmptyString => [line]
  | String c content => if Ascii.eqb c "010"%char then line :: lines_of "" content else lines_of (line +:+ String c "") content
  end.

Section Tweets.
Context (lexical_cast_long lexical_cast_int : string -> outcome Z).
(** The seconds from 1970 to the start of a day, and those of a time. *)
Context (day_seconds : Z -> Z -> Z -> outcome Z) (time_seconds : Z -> Z -> Z -> Z).

(** ** A line *)

(** The loop over the tokens of [mentionedUsers]; [s] grows each turn. *)
Fixpoint mention_loop (fuel : nat) (mentioned : string) (s e : Z) (tos : list Z) : outcome (list Z) :=
  match fuel with
  | O => Undefined
  | S fuel =>
      if e =? npos then Ret tos
      else
        let e := find ","%char mentioned s in
        token ← (if e =? npos then substr mentioned s npos else substr mentioned s (e - s));
        tos ← (match token with
               | EmptyString => Ret tos
               | _ => to ← lexical_cast_long token; Ret (tos ++ [to])
               end);
        mention_loop fuel mentioned (u64 (e + 1)) e tos
  end.

(** The negation of the least [int64_t] overflows. *)
Definition negate (from : Z) : outcome Z := if from =? - 2 ^ 63 then Undefined else Ret (- from).

Definition parseTweet (line : string) : outcome (option (Z * list Z * Tweet)) :=
  let e := find "|"%char line 0 in
  if e =? npos then Ret None
  else
    time ← substr line 0 e;
    '(id, e) ← next_field line e;
    '(user, e) ← next_field line e;
    from ← lexical_cast_long user;
    '(retweet, e) ← next_field line e;
    '(reply, e) ← next_field line e;
    '(truncated, e) ← next_field line e;
    '(mentioned, e) ← next_field line e;
    '(hash, e) ← next_field line e;
    text ← substr line (u64 (e + 1)) npos;
    own ← negate from;
    tos ← mention_loop (S (S (String.length mentioned))) mentioned 0 e [own];
    Ret (Some (from, tos, mkTweet time id user retweet reply truncated mentioned hash text)).

(** ** Times *)

Definition getDayStartTime (dt : string) : outcome Z :=
  year ← (t ← substr dt 0 4; lexical_cast_int t);
  month ← (t ← substr dt 4 2; lexical_cast_int t);
  day ← (t ← substr dt 6 2; lexical_cast_int t);
  n ← day_seconds year month day;
  Ret (u64 n).

(** In milliseconds: the product is a [double]. *)
Definition getTweetTimestamp (td : string) (dayStart : Z) : outcome Z :=
  hour ← (t ← substr td 0 2; lexical_cast_int t);
  min ← (t ← substr td 3 2; lexical_cast_int t);
  sec ← (t ← substr td 6 2; lexical_cast_int t);
  to_size (dmul (dofZ (u64 (dayStart + time_seconds hour min sec))) (dofZ 1000)).

(** ** Scanning a directory *)

Section Scan.
Context {T : Type} (visitor : Z -> Z -> list Z -> Tweet -> T -> outcome T).

(** [repeat], [pts], [tsStart], [tsEnd] and what the visitor refers to. *)
Record ScanState := mkScan { sc_repeat : Z; sc_pts : Z; sc_start : Z; sc_end : Z; sc_user : T }.

Definition visit_tweet (ts from : Z) (tos : list Z) (tweet : Tweet) (st : ScanState) : outcome ScanState :=
  let '(repeat, pts) := if negb (ts =? u64 (sc_pts st)) then (0, to_signed 64 ts) else (sc_repeat st, sc_pts st) in
  let tsStart := if ts <=? sc_start st then ts else sc_start st in
  let tsEnd := if sc_end st <=? ts then ts else sc_end st in
  user ← visitor (u64 (ts + repeat)) from tos tweet (sc_user st);
  Ret (mkScan (u64 (repeat + Z.of_nat (length tos))) pts tsStart tsEnd user).

Definition scan_line (dayTime : Z) (st : ScanState) (line : string) : outcome ScanState :=
  r ← parseTweet line;
  match r with
  | None => Ret st
  | Some (from, tos, tweet) =>
      ts ← getTweetTimestamp (tweet_time tweet) dayTime;
      visit_tweet ts from tos tweet st
  end.

(** The directory lists paths; [filename] is the last component of a path. *)
Context (filename : string -> string) (content : string -> string).

Definition scan_file (st : ScanState) (fileName : string) : outcome ScanState :=
  let date := filename fileName in
  date ← substr date (u64 (find "_"%char date 0 + 1)) 8;
  dayTime ← getDayStartTime date;
  foldM (scan_line dayTime) st (lines_of "" (content fileName)).

Definition scanTweets (directory : list string) (user : T) : outcome (Z * Z * T) :=
  st ← foldM scan_file (mkScan 0 (-1) (2 ^ 64 - 1) 0 user) (merge_sort string_le directory);
  Ret (sc_start st, sc_end st, sc_user st).
End Scan.

(** ** Filling graphs *)

Section Populate.
Context {D : Type} `{LevelDB D} {R : Type} `{SpatialIndex R}.
Context (filename : string -> string) (content : string -> string).
(** The order of the [unordered_set], the random numbers of the expiration
    maps, and the address of the data of the [n]-th edge in the [k]-th graph. *)
Context (iter : gset Z -> list Z) (rand : nat -> Z) (alloc : nat -> nat -> Z).

Definition note_vertices (time from : Z) (tos : list Z) (tweet : Tweet) (vertices : gset Z) : outcome (gset Z) :=
  Ret (foldl (fun vertices v => {[ v ]} ∪ vertices) ({[ from ]} ∪ vertices) tos).

(** The loop over the graphs. *)
Definition each {T} (f : nat -> InteractionGraph D R -> outcome T) (graphs : list (InteractionGraph D R)) : outcome (list T) :=
  foldM (fun done kg => g ← f kg.1 kg.2; Ret (done ++ [g])) [] (imap pair graphs).

(** The attributes of an edge. *)
Definition tweet_values (from to : Z) (tweet : Tweet) : list Value :=
  [VString (if to <? from then "l" else "s"); VString (tweet_time tweet); VString (tweetId tweet); VString (userId tweet);
   VString (retweetId tweet); VString (inReplyToStatusId tweet); VString (isTruncated tweet);
   VString (mentionedUsers tweet); VString (hashTags tweet); VString (text tweet)].

(** [i], [lastTimestamp], the number of edges added and the graphs. *)
Definition AddState : Type := Z * Timestamp * nat * list (InteractionGraph D R).

Definition add_mention (timestamp from : Z) (tweet : Tweet) (st : AddState) (to : Z) : outcome AddState :=
  let '(i, lastTimestamp, n, graphs) := st in
  if from =? to then Ret st
  else
    graphs ← each (fun k g => addEdge rand (alloc k n) (u64 from) (u64 to) (dofZ (u64 (timestamp + i))) (tweet_values from to tweet) g) graphs;
    i ← increment i;
    Ret (i, lastTimestamp, S n, graphs).

Definition add_tweet (timestamp from : Z) (tos : list Z) (tweet : Tweet) (st : AddState) : outcome AddState :=
  let '(i, lastTimestamp, n, graphs) := st in
  let '(i, lastTimestamp) := if negb (deqb (dofZ timestamp) lastTimestamp) then (0, dofZ timestamp) else (i, lastTimestamp) in
  foldM (add_mention timestamp from tweet) (i, lastTimestamp, n, graphs) tos.

(** The directory may be read in another order the second time. [fuel] is for
    the flush. *)
Definition populateGraphFromTweets (fuel : nat) (directory directory' : list string) (graphs : list (InteractionGraph D R)) (vertices : gset Z)
  : outcome (Z * Z * gset Z * list (list Z * InteractionGraph D R)) :=
  '(_, _, vertices) ← scanTweets note_vertices filename content directory vertices;
  graphs ← foldM (fun graphs v => each (fun _ g => createVertex (u64 v) [VInt v] g) graphs) graphs (iter vertices);
  '(tsStart, tsEnd, st) ← scanTweets add_tweet filename content directory' (0, dzero, 0%nat, graphs);
  let '(_, _, _, graphs) := st in
  flushed ← each (fun _ g => match flush rand fuel true g with Some r => r | None => Undefined end) graphs;
  Ret (tsStart, tsEnd, vertices, flushed).
End Populate.
End Tweets.
