(* ===== verification/TweetStream.v ===== *)
(** * The stream of a directory of tweets

    What a scan of Tweets.v reads, whatever the visitor does with it: the tweets
    of the files in order, each visited at its own time, which is the second it
    was sent at moved past the mentions of the tweets of the same second.  The
    graphs filled from them hold the mentions as edges, at increasing times. *)

From Stdlib Require Import ZArith Lia Ascii Permutation.
From stdpp Require Import base numbers gmap strings list sorting.
From S2P Require Import Prelude.
From S2P Require Import Double.
From S2P Require Import NetworkByteBuffer.
From S2P Require Import LevelDB.
From S2P Require Import Schema.
From S2P Require Import AttributeData.
From S2P Require Import MetaData.
From S2P Require Import NeighborList.
From S2P Require Import PartitionIndex.
From S2P Require Import Block.
From S2P Require Import IntervalIndex.
From S2P Require Import Query.
From S2P Require Import Conf.
From S2P Require Import SmartLayout.
From S2P Require Import ExpirationFlow.
From S2P Require Import GraphFlow.
From S2P Require Import VertexManager.
From S2P Require Import HistoricalGraph.
From S2P Require Import DerivedBlocks.
From S2P Require Import HistoryBlocks.
From S2P Require Import Workload.
From S2P Require Import StreamHistory.
From S2P Require Import InteractionGraph.
From S2P Require Import StreamAnswers.
From S2P Require Import Searches.
From S2P Require Import Tweets.

(** ** What is read *)

(** A tweet: its time in milliseconds, its author, the mentions, its fields. *)
Record Sent := mkSent { sent_ts : Z; sent_from : Z; sent_tos : list Z; sent_tweet : Tweet }.

Section Reading.
Context (lexical_cast_long lexical_cast_int : string -> outcome Z).
Context (day_seconds : Z -> Z -> Z -> outcome Z) (time_seconds : Z -> Z -> Z -> Z).
Context (filename : string -> string) (content : string -> string).

Definition read_line (dayTime : Z) (line : string) : outcome (list Sent) :=
  r ← parseTweet lexical_cast_long line;
  match r with
  | None => Ret []
  | Some (from, tos, tweet) =>
      ts ← getTweetTimestamp lexical_cast_int time_seconds (tweet_time tweet) dayTime;
      Ret [mkSent ts from tos tweet]
  end.

Definition read_file (fileName : string) : outcome (list Sent) :=
  date ← substr (filename fileName) (u64 (find "_"%char (filename fileName) 0 + 1)) 8;
  dayTime ← getDayStartTime lexical_cast_int day_seconds date;
  foldM (fun l line => k ← read_line dayTime line; Ret (l ++ k)) [] (lines_of "" (content fileName)).

Definition read_tweets (directory : list string) : outcome (list Sent) :=
  foldM (fun l fileName => k ← read_file fileName; Ret (l ++ k)) [] (merge_sort string_le directory).

(** A scan visits them in turn. *)
Section Visits.
Context {T : Type} (visitor : Z -> Z -> list Z -> Tweet -> T -> outcome T).

Definition visit (st : ScanState) (x : Sent) : outcome ScanState :=
  visit_tweet visitor (sent_ts x) (sent_from x) (sent_tos x) (sent_tweet x) st.

(** A loop that scans piece by piece, when each piece has been read. *)
Lemma scan_pieces {P} (scan : ScanState -> P -> outcome ScanState) (read : P -> outcome (list Sent)) pieces :
  (forall st p l, read p = Ret l -> scan st p = foldM visit st l) ->
  forall acc l, foldM (fun l p => k ← read p; Ret (l ++ k)) acc pieces = Ret l ->
  exists k, l = acc ++ k /\ forall st, foldM scan st pieces = foldM visit st k.
Proof.
  intros Hscan. induction pieces as [|p pieces IH]; intros acc l E; cbn [foldM] in *.
  { injection E as <-. exists []. by rewrite app_nil_r. }
  apply bind_ret in E as (acc' & E1 & E). apply bind_ret in E1 as (k & Er & E1). injection E1 as <-.
  destruct (IH _ _ E) as (k' & -> & Hk). exists (k ++ k'). split; [by rewrite app_assoc|]. intros st.
  rewrite (Hscan st p k Er), foldM_app. destruct (foldM visit st k); cbn [mbind outcome_bind]; [apply Hk|done..].
Qed.

Lemma scan_line_read dayTime st line l : read_line dayTime line = Ret l ->
  scan_line lexical_cast_long lexical_cast_int time_seconds visitor dayTime st line = foldM visit st l.
Proof.
  unfold read_line, scan_line. intros E. apply bind_ret in E as (r & -> & E). cbn [mbind outcome_bind].
  destruct r as [[[from tos] tweet]|]; [|injection E as <-; done]. apply bind_ret in E as (ts & -> & E). injection E as <-.
  cbn [mbind outcome_bind foldM]. unfold visit. cbn. by destruct (visit_tweet visitor _ _ _ _ _).
Qed.

Lemma scan_file_read st fileName l : read_file fileName = Ret l ->
  scan_file lexical_cast_long lexical_cast_int day_seconds time_seconds visitor filename content st fileName = foldM visit st l.
Proof.
  unfold read_file, scan_file. intros E. apply bind_ret in E as (date & -> & E). cbn [mbind outcome_bind].
  apply bind_ret in E as (dayTime & -> & E). cbn [mbind outcome_bind].
  destruct (scan_pieces (scan_line lexical_cast_long lexical_cast_int time_seconds visitor dayTime) (read_line dayTime) _
    ltac:(intros; by apply scan_line_read) _ _ E) as (k & -> & Hk). apply Hk.
Qed.

Lemma scan_read directory l u : read_tweets directory = Ret l ->
  scanTweets lexical_cast_long lexical_cast_int day_seconds time_seconds visitor filename content directory u =
  (st ← foldM visit (mkScan 0 (-1) (2 ^ 64 - 1) 0 u) l; Ret (sc_start st, sc_end st, sc_user st)).
Proof.
  intros E. destruct (scan_pieces (scan_file lexical_cast_long lexical_cast_int day_seconds time_seconds visitor filename content) read_file _
    ltac:(intros; by apply scan_file_read) _ _ E) as (k & -> & Hk). unfold scanTweets. by rewrite Hk.
Qed.
End Visits.

(** The order of the directory does not matter. *)
Lemma read_any_order directory directory' : directory ≡ₚ directory' -> read_tweets directory' = read_tweets directory.
Proof.
  intros Hp. unfold read_tweets. enough (merge_sort string_le directory = merge_sort string_le directory') as -> by done.
  apply (StronglySorted_unique string_le); [apply (StronglySorted_merge_sort _)..|]. by rewrite !merge_sort_Permutation.
Qed.

(** *** A parsed tweet *)

(** [boost::lexical_cast] gives what fits in an [int64_t]. *)
Context (Hlong : forall t n, lexical_cast_long t = Ret n -> - 2 ^ 63 <= n < 2 ^ 63).

Definition i64_id (v : Z) : Prop := - 2 ^ 63 <= v < 2 ^ 63.

(** The first of the mentions is the negated author; all are identifiers. *)
Definition mentions_ok (x : Sent) : Prop :=
  i64_id (sent_from x) /\ sent_tos x <> [] /\ Forall i64_id (sent_tos x).

Lemma mention_loop_ids fuel mentioned : forall s e tos l, mention_loop lexical_cast_long fuel mentioned s e tos = Ret l ->
  tos <> [] -> Forall i64_id tos -> l <> [] /\ Forall i64_id l.
Proof.
  induction fuel as [|fuel IH]; intros s e tos l E Hne Htos; [done|]. cbn [mention_loop] in E.
  destruct (e =? npos); [by injection E as <-|]. cbv zeta in E. apply bind_ret in E as (token & _ & E).
  apply bind_ret in E as (tos' & E1 & E). apply (IH _ _ _ _ E).
  - destruct token; [by injection E1 as <-|]. apply bind_ret in E1 as (to & _ & E1). injection E1 as <-. by destruct tos.
  - destruct token; [by injection E1 as <-|]. apply bind_ret in E1 as (to & Et & E1). injection E1 as <-.
    apply Forall_app. split; [done|]. apply Forall_singleton. by apply (Hlong _ _ Et).
Qed.

Lemma find_from_bounds c s : forall i pos, 0 <= i -> i + Z.of_nat (String.length s) < npos ->
  find_from c s i pos = npos \/ (pos <= find_from c s i pos < i + Z.of_nat (String.length s)).
Proof.
  induction s as [|a s IH]; intros i pos Hi Hlen; cbn [find_from String.length] in *; [by left|].
  destruct (Z.leb_spec pos i), (Ascii.eqb a c); cbn [andb]; [right; lia|..].
  all: destruct (IH (i + 1) pos) as [E|E]; [lia|lia|by left|right; lia].
Qed.

(** The loop over the mentions ends: its fuel does not matter. *)
Lemma mention_loop_fuel fuel mentioned : forall fuel' s e tos, Z.of_nat (String.length mentioned) < npos ->
  0 <= s -> (e <> npos -> s <= Z.of_nat (String.length mentioned)) ->
  (if e =? npos then 1 else Z.of_nat (String.length mentioned) - s + 2) <= Z.of_nat fuel -> (fuel <= fuel')%nat ->
  mention_loop lexical_cast_long fuel' mentioned s e tos = mention_loop lexical_cast_long fuel mentioned s e tos.
Proof.
  induction fuel as [|fuel IH]; intros fuel' s e tos Hlen Hs Hse Hf Hle.
  { destruct (Z.eqb_spec e npos); lia. }
  destruct fuel' as [|fuel']; [lia|]. cbn [mention_loop]. destruct (Z.eqb_spec e npos) as [He|He]; [done|]. specialize (Hse He).
  cbv zeta. destruct (find_from_bounds ","%char mentioned 0 s) as [E|E]; [lia|lia|..].
  - unfold find. rewrite E. destruct (npos =? npos) eqn:En; [|done]. destruct (substr mentioned s npos) as [token| | |]; cbn [mbind outcome_bind]; [|done..].
    destruct (match token with EmptyString => _ | _ => _ end) as [tos'| | |]; cbn [mbind outcome_bind]; [|done..]. apply IH; [done|apply u64_range|done| |lia].
    rewrite En. lia.
  - unfold find. set (e' := find_from _ _ _ _) in *. assert (e' <> npos) as Hne by lia. rewrite (proj2 (Z.eqb_neq _ _) Hne).
    destruct (substr mentioned s (e' - s)) as [token| | |]; cbn [mbind outcome_bind]; [|done..].
    destruct (match token with EmptyString => _ | _ => _ end) as [tos'| | |]; cbn [mbind outcome_bind]; [|done..].
    unfold npos in *. rewrite (u64_id (e' + 1)) by lia. apply IH; [done|lia|lia| |lia]. unfold npos. rewrite (proj2 (Z.eqb_neq _ _) Hne). lia.
Qed.

Lemma read_line_ids dayTime line l : read_line dayTime line = Ret l -> Forall mentions_ok l.
Proof.
  unfold read_line. intros E. apply bind_ret in E as (r & E1 & E). destruct r as [[[from tos] tweet]|]; [|by injection E as <-].
  apply bind_ret in E as (ts & _ & E). injection E as <-. apply Forall_singleton. unfold mentions_ok. cbn.
  unfold parseTweet in E1. destruct (_ =? npos); [done|].
  repeat match type of E1 with
  | (_ ← lexical_cast_long _; _) = _ => let H := fresh "Hfrom" in apply bind_ret in E1 as (? & H & E1)
  | (_ ← negate _; _) = _ => let H := fresh "Hown" in apply bind_ret in E1 as (? & H & E1)
  | (_ ← mention_loop _ _ _ _ _ _; _) = _ => let H := fresh "Hloop" in apply bind_ret in E1 as (? & H & E1)
  | (_ ← _; _) = _ => let x := fresh in apply bind_ret in E1 as (x & _ & E1); try (destruct x as [? ?])
  end.
  injection E1 as -> -> _. split; [by apply (Hlong _ _ Hfrom)|]. pose proof (Hlong _ _ Hfrom) as Hr. unfold negate in Hown.
  destruct (Z.eqb_spec from (- 2 ^ 63)); [done|]. injection Hown as <-. apply (mention_loop_ids _ _ _ _ _ _ Hloop); [done|].
  apply Forall_singleton. unfold i64_id. lia.
Qed.

Lemma pieces_forall {P} (read : P -> outcome (list Sent)) (Q : Sent -> Prop) pieces : (forall p l, read p = Ret l -> Forall Q l) ->
  forall acc l, foldM (fun l p => k ← read p; Ret (l ++ k)) acc pieces = Ret l -> Forall Q acc -> Forall Q l.
Proof.
  intros Hread. induction pieces as [|p pieces IH]; intros acc l E Hacc; cbn [foldM] in E; [by injection E as <-|].
  apply bind_ret in E as (acc' & E1 & E). apply bind_ret in E1 as (k & Er & E1). injection E1 as <-.
  apply (IH _ _ E). apply Forall_app. split; [done|by apply (Hread p)].
Qed.

Lemma read_ids directory l : read_tweets directory = Ret l -> Forall mentions_ok l.
Proof.
  intros E. refine (pieces_forall read_file mentions_ok _ _ _ _ E (Forall_nil_2 _)). intros p k Ek. unfold read_file in Ek.
  apply bind_ret in Ek as (? & _ & Ek). apply bind_ret in Ek as (dayTime & _ & Ek).
  refine (pieces_forall (read_line dayTime) mentions_ok _ _ _ _ Ek (Forall_nil_2 _)). apply read_line_ids.
Qed.
End Reading.

(** ** The times of the visits *)

(** The mentions sent at a time. *)
Definition busy (t : Z) (l : list Sent) : Z :=
  sumZ (fun x => Z.of_nat (length (sent_tos x))) (filter (fun x => sent_ts x = t) l).

(** A tweet is visited after the mentions sent before it in the same second. *)
Fixpoint visits_of (before l : list Sent) : list Sent :=
  match l with
  | [] => []
  | x :: l => mkSent (sent_ts x + busy (sent_ts x) before) (sent_from x) (sent_tos x) (sent_tweet x) :: visits_of (before ++ [x]) l
  end.

(** Tweets in the order of their times, with room for the mentions of a second
    before the next one. *)
Record orderly (l : list Sent) : Prop := {
  od_times x : x ∈ l -> 0 < sent_ts x /\ sent_ts x + busy (sent_ts x) l <= 2 ^ 52;
  od_sorted : StronglySorted (fun x y => sent_ts x <= sent_ts y) l;
  od_room x y : x ∈ l -> y ∈ l -> sent_ts x < sent_ts y -> sent_ts x + busy (sent_ts x) l <= sent_ts y;
  od_mentions x : x ∈ l -> Z.of_nat (length (sent_tos x)) < 2 ^ 31
}.

Lemma busy_app t l k : busy t (l ++ k) = busy t l + busy t k.
Proof. unfold busy. by rewrite filter_app, sumZ_app. Qed.

Lemma busy_nonneg t l : 0 <= busy t l.
Proof. apply sumZ_nonneg. lia. Qed.

Lemma busy_one x : busy (sent_ts x) [x] = Z.of_nat (length (sent_tos x)).
Proof. unfold busy. rewrite filter_cons_True by done. cbn. lia. Qed.

Lemma busy_none t l : (forall x, x ∈ l -> sent_ts x <> t) -> busy t l = 0.
Proof.
  intros Hne. unfold busy. enough (filter (fun x => sent_ts x = t) l = []) as -> by done.
  induction l as [|x l IH]; [done|]. rewrite filter_cons_False by (apply Hne; left). apply IH. intros y Hy. apply Hne. by right.
Qed.

Lemma orderly_prefix l k : orderly (l ++ k) -> orderly l.
Proof.
  intros [Ht Hs Hr Hm]. pose proof (fun x => busy_app (sent_ts x) l k) as Hb. pose proof (fun x => busy_nonneg (sent_ts x) k) as Hn.
  assert (forall x, x ∈ l -> x ∈ l ++ k) as Hin by (intros; apply elem_of_app; by left). split.
  - intros x Hx. specialize (Hb x). specialize (Hn x). destruct (Ht x (Hin x Hx)). lia.
  - by apply StronglySorted_app in Hs as (_ & ? & _).
  - intros x y Hx Hy Hlt. specialize (Hr x y (Hin x Hx) (Hin y Hy) Hlt). specialize (Hb x). specialize (Hn x). lia.
  - intros x Hx. apply Hm, Hin, Hx.
Qed.

Section Scan.
Context {T : Type} (visitor : Z -> Z -> list Z -> Tweet -> T -> outcome T).

(** The state of a scan after some tweets. *)
Definition scanned (before : list Sent) (u : T) : ScanState :=
  mkScan (match last before with Some x => busy (sent_ts x) before | None => 0 end)
    (match last before with Some x => sent_ts x | None => -1 end)
    (foldl Z.min (2 ^ 64 - 1) (sent_ts <$> before)) (foldl Z.max 0 (sent_ts <$> before)) u.

(** A visit at the time of the tweet itself. *)
Definition visit_at (u : T) (x : Sent) : outcome T := visitor (sent_ts x) (sent_from x) (sent_tos x) (sent_tweet x) u.

Lemma visit_step before x u : orderly (before ++ [x]) ->
  visit visitor (scanned before u) x =
  (u' ← visit_at u (mkSent (sent_ts x + busy (sent_ts x) before) (sent_from x) (sent_tos x) (sent_tweet x)); Ret (scanned (before ++ [x]) u')).
Proof.
  intros [Ht Hs _ _]. assert (x ∈ before ++ [x]) as Hx by (apply elem_of_app; right; left). destruct (Ht x Hx) as [Hpos Hb].
  rewrite busy_app, busy_one in Hb. pose proof (busy_nonneg (sent_ts x) before) as Hn.
  assert ((if negb (sent_ts x =? u64 (sc_pts (scanned before u))) then (0, to_signed 64 (sent_ts x)) else (sc_repeat (scanned before u), sc_pts (scanned before u)))
    = (busy (sent_ts x) before, sent_ts x)) as E.
  { unfold scanned. cbn [sc_pts sc_repeat]. destruct (last before) as [y|] eqn:El.
    - apply last_Some in El as [l' ->]. assert (y ∈ (l' ++ [y]) ++ [x]) as Hy by set_solver. destruct (Ht y Hy) as [Hy0 Hyb].
      pose proof (busy_nonneg (sent_ts y) ((l' ++ [y]) ++ [x])). rewrite u64_id by lia.
      destruct (Z.eqb_spec (sent_ts x) (sent_ts y)) as [E|E]; cbn [negb]; [by rewrite E|]. rewrite to_signed_id by lia.
      rewrite busy_none; [done|]. intros z Hz Ez. apply StronglySorted_app in Hs as (Hlt & Hs & _).
      assert (sent_ts y <= sent_ts x) by (apply Hlt; [set_solver|left]). apply StronglySorted_app in Hs as (Hlt' & _ & _).
      apply elem_of_app in Hz as [Hz| ->%list_elem_of_singleton]; [|lia]. assert (sent_ts z <= sent_ts y) by (apply Hlt'; [done|left]). lia.
    - apply last_None in El as ->. change (u64 (-1)) with (2 ^ 64 - 1). destruct (Z.eqb_spec (sent_ts x) (2 ^ 64 - 1)); [lia|].
      cbn [negb]. rewrite to_signed_id by lia. done. }
  unfold visit, visit_tweet. rewrite E. unfold visit_at. cbn [sent_ts sent_from sent_tos sent_tweet sc_user scanned]. rewrite !u64_id by lia.
  destruct (visitor _ _ _ _ u) as [u'| | |]; cbn [mbind outcome_bind]; [|done..]. unfold scanned. rewrite last_snoc, busy_app, busy_one, fmap_app, !foldl_app.
  cbn [fmap list_fmap foldl sc_start sc_end]. f_equal. f_equal.
  - destruct (Z.leb_spec (sent_ts x) (foldl Z.min (2 ^ 64 - 1) (sent_ts <$> before))); lia.
  - destruct (Z.leb_spec (foldl Z.max 0 (sent_ts <$> before)) (sent_ts x)); lia.
Qed.

Lemma scan_visits l : forall before u, orderly (before ++ l) ->
  foldM (visit visitor) (scanned before u) l = (u' ← foldM visit_at u (visits_of before l); Ret (scanned (before ++ l) u')).
Proof.
  induction l as [|x l IH]; intros before u Ho; cbn [foldM visits_of]; [by rewrite app_nil_r|].
  rewrite cons_middle, app_assoc in Ho. rewrite visit_step by (by apply orderly_prefix in Ho).
  destruct (visit_at u _) as [u'| | |]; cbn [mbind outcome_bind]; [|done..]. rewrite IH by done. by rewrite <- app_assoc.
Qed.
End Scan.

(** A visit later in the list is at its tweet's time or after, past what was
    sent before. *)
Lemma visits_elem l : forall before y, y ∈ visits_of before l -> exists l1 x l2,
  l = l1 ++ x :: l2 /\ y = mkSent (sent_ts x + busy (sent_ts x) (before ++ l1)) (sent_from x) (sent_tos x) (sent_tweet x).
Proof.
  induction l as [|x l IH]; intros before y Hy; cbn [visits_of] in Hy; [by apply elem_of_nil in Hy|].
  apply elem_of_cons in Hy as [->|Hy]; [exists [], x, l; by rewrite app_nil_r|].
  destruct (IH _ _ Hy) as (l1 & z & l2 & -> & ->). exists (x :: l1), z, l2. split; [done|]. by rewrite <- app_assoc.
Qed.

(** The mentions of a visit are over before the next visit. *)
Lemma visits_spaced l : forall before, orderly (before ++ l) ->
  StronglySorted (fun x y => sent_ts x + Z.of_nat (length (sent_tos x)) <= sent_ts y) (visits_of before l).
Proof.
  induction l as [|x l IH]; intros before Ho; cbn [visits_of]; constructor.
  { apply IH. by rewrite <- app_assoc. }
  apply Forall_forall. intros y Hy. destruct (visits_elem _ _ _ Hy) as (l1 & z & l2 & -> & ->). cbn [sent_ts sent_tos].
  destruct Ho as [_ Hs Hr _]. apply StronglySorted_app in Hs as (_ & _ & Hs). apply StronglySorted_inv in Hs as [_ Hs].
  rewrite Forall_forall in Hs. specialize (Hs z ltac:(set_solver)). rewrite !busy_app.
  pose proof (busy_nonneg (sent_ts z) before). pose proof (busy_nonneg (sent_ts z) l1).
  destruct (Z.eq_dec (sent_ts x) (sent_ts z)) as [E|Hne].
  - rewrite <- !E, busy_one in *. lia.
  - specialize (Hr x z ltac:(set_solver) ltac:(set_solver) ltac:(lia)). rewrite cons_middle, !busy_app, busy_one in Hr.
    pose proof (busy_nonneg (sent_ts z) [x]). pose proof (busy_nonneg (sent_ts x) l1). pose proof (busy_nonneg (sent_ts x) (z :: l2)). lia.
Qed.

Lemma visits_times l x : orderly l -> x ∈ visits_of [] l ->
  0 < sent_ts x /\ sent_ts x + Z.of_nat (length (sent_tos x)) <= 2 ^ 52 /\ Z.of_nat (length (sent_tos x)) < 2 ^ 31.
Proof.
  intros [Ht _ _ Hm] Hx. destruct (visits_elem _ _ _ Hx) as (l1 & z & l2 & -> & ->). cbn [sent_ts sent_tos app].
  assert (z ∈ l1 ++ z :: l2) as Hz by set_solver. destruct (Ht z Hz) as [Hpos Hb]. rewrite cons_middle, !busy_app, busy_one in Hb.
  pose proof (busy_nonneg (sent_ts z) l1). pose proof (busy_nonneg (sent_ts z) l2). split; [lia|]. split; [lia|by apply Hm].
Qed.

Lemma visits_ids l x : Forall mentions_ok l -> x ∈ visits_of [] l -> mentions_ok x.
Proof.
  intros Hl Hx. destruct (visits_elem _ _ _ Hx) as (l1 & z & l2 & -> & ->). rewrite Forall_forall in Hl. apply (Hl z). set_solver.
Qed.

(** ** The edges *)

(** A mention of another vertex than the author, and the time of its edge. *)
Record Mention := mkMention { m_from : Z; m_to : Z; m_time : Z; m_tweet : Tweet }.

Fixpoint mentions_from (ts from : Z) (tweet : Tweet) (tos : list Z) : list Mention :=
  match tos with
  | [] => []
  | to :: tos => if from =? to then mentions_from ts from tweet tos else mkMention from to ts tweet :: mentions_from (ts + 1) from tweet tos
  end.

Definition mentions (l : list Sent) : list Mention :=
  visits_of [] l ≫= fun x => mentions_from (sent_ts x) (sent_from x) (sent_tweet x) (sent_tos x).

Lemma mentions_from_elem from tweet tos : forall ts m, m ∈ mentions_from ts from tweet tos ->
  m_from m = from /\ m_to m ∈ tos /\ m_to m <> from /\ ts <= m_time m < ts + Z.of_nat (length tos).
Proof.
  induction tos as [|to tos IH]; intros ts m Hm; cbn [mentions_from length] in *; [by apply elem_of_nil in Hm|].
  destruct (Z.eqb_spec from to) as [E|E].
  - destruct (IH ts m Hm) as (H1 & H2 & H3 & H4). split; [done|]. split; [by right|]. split; [done|lia].
  - apply elem_of_cons in Hm as [->|Hm]; cbn [m_from m_to m_time].
    + split; [done|]. split; [by left|]. split; [congruence|lia].
    + destruct (IH (ts + 1) m Hm) as (H1 & H2 & H3 & H4). split; [done|]. split; [by right|]. split; [done|lia].
Qed.

Lemma mentions_from_sorted from tweet tos : forall ts, StronglySorted (fun a b => m_time a < m_time b) (mentions_from ts from tweet tos).
Proof.
  induction tos as [|to tos IH]; intros ts; cbn [mentions_from]; [constructor|]. destruct (from =? to); [apply IH|]. constructor; [apply IH|].
  apply Forall_forall. intros m Hm. apply mentions_from_elem in Hm as (_ & _ & _ & Ht). cbn. lia.
Qed.

Lemma mentions_elem l m : m ∈ mentions l -> exists x, x ∈ visits_of [] l /\ m_from m = sent_from x /\ m_to m ∈ sent_tos x /\
  m_to m <> m_from m /\ sent_ts x <= m_time m < sent_ts x + Z.of_nat (length (sent_tos x)).
Proof.
  unfold mentions. intros Hm. apply list_elem_of_bind in Hm as (x & Hm & Hx). apply mentions_from_elem in Hm as (H1 & H2 & H3 & H4).
  exists x. rewrite H1 in *. done.
Qed.

Lemma mentions_sorted l : orderly l -> StronglySorted (fun a b => m_time a < m_time b) (mentions l).
Proof.
  intros Ho. pose proof (visits_spaced l [] Ho) as Hs. unfold mentions. clear Ho. induction Hs as [|x vs Hs IH Hx]; [constructor|].
  rewrite bind_cons. apply StronglySorted_app_2; [|apply mentions_from_sorted|exact IH]. intros a b Ha Hb.
  apply mentions_from_elem in Ha as (_ & _ & _ & Ha). apply list_elem_of_bind in Hb as (y & Hb & Hy).
  apply mentions_from_elem in Hb as (_ & _ & _ & Hb). rewrite Forall_forall in Hx. specialize (Hx y Hy). lia.
Qed.

(** The edges a graph is given, with the addresses their data get. *)
Definition numbered (n : nat) (ms : list Mention) : list (nat * Mention) := zip (seq n (length ms)) ms.

Definition mention_input (alloc : nat -> Z) (nm : nat * Mention) : Input :=
  mkInput (alloc nm.1) (u64 (m_from nm.2)) (u64 (m_to nm.2)) (dofZ (m_time nm.2)) (tweet_values (m_from nm.2) (m_to nm.2) (m_tweet nm.2)).

Definition tweet_inputs (alloc : nat -> Z) (l : list Sent) : list Input := mention_input alloc <$> numbered 0 (mentions l).

Lemma numbered_app n l k : numbered n (l ++ k) = numbered n l ++ numbered (n + length l) k.
Proof. unfold numbered. rewrite length_app, seq_app, zip_with_app by (by rewrite length_seq). done. Qed.

(** ** Several graphs at once *)

Section Graphs.
Context {D : Type} `{LevelDB D, !LevelDBOk D} {R : Type} `{SpatialIndex R, !SpatialIndexOk R}.

Lemma each_ok {T} (f : nat -> InteractionGraph D R -> outcome T) graphs outs : length graphs = length outs ->
  (forall k g o, graphs !! k = Some g -> outs !! k = Some o -> f k g = Ret o) -> each f graphs = Ret outs.
Proof.
  unfold each. intros Hlen Hf.
  enough (forall outs n acc, length graphs = length outs -> (forall k g o, graphs !! k = Some g -> outs !! k = Some o -> f (n + k)%nat g = Ret o) ->
    foldM (fun done kg => g ← f kg.1 kg.2; Ret (done ++ [g])) acc (imap (fun k g => ((n + k)%nat, g)) graphs) = Ret (acc ++ outs)) as Hg
    by (apply (Hg outs 0%nat []); [done|exact Hf]).
  clear outs Hlen Hf. induction graphs as [|g graphs IH]; intros outs n acc Hlen Hf; (destruct outs as [|o outs]; try done); [by rewrite app_nil_r|].
  rewrite imap_cons. cbn [foldM fst snd]. rewrite (Hf 0%nat g o) by done. cbn [mbind outcome_bind].
  rewrite (imap_ext _ (fun k g => ((S n + k)%nat, g))) by (intros; cbn; f_equal; lia).
  rewrite (IH outs (S n)); [by rewrite <- app_assoc|by injection Hlen|].
  intros k g' o' Hg Ho. replace (S n + k)%nat with (n + S k)%nat by lia. by apply Hf.
Qed.

(** Each graph goes its own way. *)
Lemma each_fold {E} (f : E -> nat -> InteractionGraph D R -> outcome (InteractionGraph D R)) evs : forall graphs outs, length graphs = length outs ->
  (forall k g o, graphs !! k = Some g -> outs !! k = Some o -> foldM (fun g e => f e k g) g evs = Ret o) ->
  foldM (fun gs e => each (f e) gs) graphs evs = Ret outs.
Proof.
  induction evs as [|e evs IH]; intros graphs outs Hlen Hf; cbn [foldM].
  { f_equal. apply list_eq_same_length with (length outs); [done..|]. intros k g o _ Hg Ho. by specialize (Hf k g o Hg Ho) as [= ->]. }
  set (mid := imap (fun k g => match f e k g with Ret g' => g' | _ => g end) graphs).
  assert (length mid = length outs) as Hm by (unfold mid; by rewrite length_imap).
  assert (forall k g o, graphs !! k = Some g -> outs !! k = Some o -> exists g', f e k g = Ret g' /\ mid !! k = Some g' /\ foldM (fun g e => f e k g) g' evs = Ret o) as Hmid.
  { intros k g o Hg Ho. pose proof (Hf k g o Hg Ho) as E1. cbn [foldM] in E1. apply bind_ret in E1 as (g' & E1 & E2). exists g'.
    split; [done|]. split; [|done]. unfold mid. by rewrite list_lookup_imap, Hg; cbn; rewrite E1. }
  rewrite (each_ok (f e) graphs mid); [|by rewrite Hm|].
  - cbn [mbind outcome_bind]. apply IH; [done|]. intros k g' o Hg' Ho.
    destruct (lookup_lt_is_Some_2 graphs k) as [g Hg]; [rewrite Hlen; by eapply lookup_lt_Some|].
    destruct (Hmid k g o Hg Ho) as (g'' & _ & E2 & E3). by rewrite E2 in Hg'; injection Hg' as <-.
  - intros k g m Hg Hk. destruct (lookup_lt_is_Some_2 outs k) as [o Ho]; [rewrite <- Hm; by eapply lookup_lt_Some|].
    destruct (Hmid k g o Hg Ho) as (g'' & E1 & E2 & _). rewrite E2 in Hk. by injection Hk as <-.
Qed.

(** *** Adding the mentions *)

Context (rand : nat -> Z) (alloc : nat -> nat -> Z).

Definition add_one (nm : nat * Mention) (k : nat) (g : InteractionGraph D R) : outcome (InteractionGraph D R) :=
  add_all rand [mention_input (alloc k) nm] g.

Definition add_numbered (n : nat) (ms : list Mention) (graphs : list (InteractionGraph D R)) : outcome (list (InteractionGraph D R)) :=
  foldM (fun gs nm => each (add_one nm) gs) graphs (numbered n ms).

Lemma bind_ret_id {T} (m : outcome T) : (x ← m; Ret x) = m.
Proof. by destruct m. Qed.

Lemma add_mention_eq ts from tweet i last n (graphs : list (InteractionGraph D R)) to :
  add_mention rand alloc ts from tweet (i, last, n, graphs) to =
  if from =? to then Ret (i, last, n, graphs)
  else
    graphs ← each (fun k g => addEdge rand (alloc k n) (u64 from) (u64 to) (dofZ (u64 (ts + i))) (tweet_values from to tweet) g) graphs;
    i ← increment i;
    Ret (i, last, S n, graphs).
Proof. done. Qed.

Lemma visit_tweet_eq x i last n (graphs : list (InteractionGraph D R)) :
  visit_at (add_tweet rand alloc) (i, last, n, graphs) x =
  foldM (add_mention rand alloc (sent_ts x) (sent_from x) (sent_tweet x))
    (if negb (deqb (dofZ (sent_ts x)) last) then (0, dofZ (sent_ts x), n, graphs) else (i, last, n, graphs)) (sent_tos x).
Proof. unfold visit_at, add_tweet. by destruct (negb _). Qed.

Lemma add_tos ts from tweet tos : forall i n graphs graphs' last,
  0 <= ts -> ts + Z.of_nat (i + length tos) < 2 ^ 53 -> Z.of_nat (i + length tos) < 2 ^ 31 ->
  add_numbered n (mentions_from (ts + Z.of_nat i) from tweet tos) graphs = Ret graphs' ->
  exists i', foldM (add_mention rand alloc ts from tweet) (Z.of_nat i, last, n, graphs) tos =
    Ret (i', last, (n + length (mentions_from (ts + Z.of_nat i) from tweet tos))%nat, graphs').
Proof.
  induction tos as [|to tos IH]; intros i n graphs graphs' last Hts Hsum Hi E; cbn [foldM mentions_from length] in *.
  { injection E as ->. exists (Z.of_nat i). by rewrite Nat.add_0_r. }
  rewrite add_mention_eq. destruct (Z.eqb_spec from to) as [Eft|Eft].
  { cbn [mbind outcome_bind]. apply IH; [done|lia|lia|done]. }
  unfold add_numbered, numbered in E. cbn [length seq zip_with foldM] in E. apply bind_ret in E as (g1 & E1 & E).
  rewrite (u64_id (ts + Z.of_nat i)) by lia.
  assert (each (fun k g => addEdge rand (alloc k n) (u64 from) (u64 to) (dofZ (ts + Z.of_nat i)) (tweet_values from to tweet) g) graphs = Ret g1) as ->.
  { rewrite <- E1. unfold each. apply foldM_ext. intros l [k g]. unfold add_one, add_all, mention_input. cbn [foldM fst snd in_address in_v in_u in_time in_values m_from m_to m_time m_tweet].
    by rewrite bind_ret_id. }
  cbn [mbind outcome_bind]. unfold increment. rewrite (proj2 (Z.ltb_lt _ _)) by lia. cbn [mbind outcome_bind].
  replace (Z.of_nat i + 1) with (Z.of_nat (S i)) by lia. replace (ts + Z.of_nat i + 1) with (ts + Z.of_nat (S i)) in * by lia.
  destruct (IH (S i) (S n) g1 graphs' last Hts ltac:(lia) ltac:(lia) E) as (i' & E'). exists i'. rewrite E'. cbn [length]. by rewrite Nat.add_succ_r.
Qed.

(** The visits of a scan add the mentions, each at its time. *)
Lemma add_visits vs : forall i last n graphs graphs',
  StronglySorted (fun x y => sent_ts x + Z.of_nat (length (sent_tos x)) <= sent_ts y) vs ->
  Forall (fun x => 0 < sent_ts x /\ sent_ts x + Z.of_nat (length (sent_tos x)) <= 2 ^ 52 /\ Z.of_nat (length (sent_tos x)) < 2 ^ 31 /\ sent_tos x <> []) vs ->
  Forall (fun x => exists t, last = dofZ t /\ 0 <= t < sent_ts x) vs ->
  add_numbered n (vs ≫= fun x => mentions_from (sent_ts x) (sent_from x) (sent_tweet x) (sent_tos x)) graphs = Ret graphs' ->
  exists i' last' n', foldM (visit_at (add_tweet rand alloc)) (i, last, n, graphs) vs = Ret (i', last', n', graphs').
Proof.
  induction vs as [|x vs IH]; intros i last n graphs graphs' Hs Hok Hlast E; cbn [foldM].
  { injection E as ->. by exists i, last, n. }
  apply StronglySorted_inv in Hs as [Hs Hx]. apply Forall_cons in Hok as [(Hpos & Hmax & Hmen & Hne) Hok]. apply Forall_cons in Hlast as [(t & -> & Ht) _].
  rewrite visit_tweet_eq, deqb_num by (apply num_dofZ; lia). rewrite !instant_key by (apply instant_dofZ; lia).
  pose proof (dofZ_lt t (sent_ts x) ltac:(lia) ltac:(lia) ltac:(lia)) as Hlt. rewrite (proj2 (Z.eqb_neq _ _)) by lia. cbn [negb].
  rewrite bind_cons in E. unfold add_numbered in E. rewrite numbered_app, foldM_app in E. apply bind_ret in E as (g1 & E1 & E2).
  change 0 with (Z.of_nat 0). destruct (add_tos (sent_ts x) (sent_from x) (sent_tweet x) (sent_tos x) 0 n graphs g1 (dofZ (sent_ts x))) as (i1 & ->);
    [lia|lia|lia|by rewrite Z.add_0_r|]. rewrite Z.add_0_r. cbn [mbind outcome_bind].
  apply IH; [done|done| |exact E2]. apply Forall_forall. intros y Hy. exists (sent_ts x). split; [done|].
  rewrite Forall_forall in Hx. specialize (Hx y Hy). assert (0 < length (sent_tos x))%nat by (destruct (sent_tos x); [done|cbn; lia]). lia.
Qed.
End Graphs.

(** ** The edges can be stored *)

Definition user_schema : Schema := vertexSchema (createGraphConf "").
Definition tweet_schema : Schema := edgeSchema (createGraphConf "").

Lemma tweet_types : type_ <$> attributes_ tweet_schema = repeat STRING 10.
Proof. vm_compute. reflexivity. Qed.

Lemma tweet_defined : defined_schema tweet_schema.
Proof.
  split; [apply new_schema_ok|]. apply Forall_forall. intros a Ha%(list_elem_of_fmap_2 type_). rewrite tweet_types in Ha.
  apply list_elem_of_In, repeat_spec in Ha. by rewrite Ha.
Qed.

Lemma tweet_fields_in_order from to tw : (fields_ (data_of tweet_schema (tweet_values from to tw))).*2 = tweet_values from to tw.
Proof. destruct tw. vm_compute. reflexivity. Qed.

(** The bytes of the data of an edge: the direction and the fields of the tweet,
    each after its length. *)
Definition tweet_texts (tw : Tweet) : list string :=
  [tweet_time tw; tweetId tw; userId tw; retweetId tw; inReplyToStatusId tw; isTruncated tw; mentionedUsers tw; hashTags tw; text tw].
Definition tweet_bytes (tw : Tweet) : Z := 41 + sumZ (fun t => Z.of_nat (String.length t)) (tweet_texts tw).

Lemma string_bytes t : Z.of_nat (length (enc_value (VString t))) = 4 + Z.of_nat (String.length t).
Proof. cbn. rewrite length_str_bytes. lia. Qed.

Lemma mention_bytes alloc nm : edge_size (stream_edge tweet_schema (mention_input alloc nm)) = tweet_bytes (m_tweet nm.2).
Proof.
  unfold edge_size, stream_edge, mention_input. cbn [se_data cell in_values]. unfold enc_data. rewrite tweet_fields_in_order.
  unfold tweet_values, tweet_bytes, tweet_texts. cbn [fmap list_fmap concat sumZ foldr]. rewrite !length_app, !Nat2Z.inj_add, !string_bytes.
  destruct (_ <? _); cbn; lia.
Qed.

(** Tweets whose mentions fit into the blocks of a graph. *)
Record tweets_fit (conf : Conf) (l : list Sent) : Prop := {
  tf_schemas : vertexSchema conf = user_schema /\ edgeSchema conf = tweet_schema;
  tf_layout : layout_ok conf;
  tf_block : 8 < blockSize conf <= 2 ^ 29;
  tf_edges m : m ∈ mentions l -> edge_room conf (tweet_bytes (m_tweet m));
  tf_total : Z.of_nat (length (mentions l)) < 2 ^ 32 /\ Z.of_nat (length (mentions l)) * blockSize conf <= 2 ^ 52
}.

Lemma mention_fits conf l m : tweets_fit conf l -> m ∈ mentions l -> tweet_bytes (m_tweet m) < 2 ^ 32.
Proof.
  intros Ht Hm. pose proof (tf_block _ _ Ht). pose proof (tf_edges _ _ Ht m Hm) as He.
  apply edge_room_fits in He; [lia|apply (tf_layout _ _ Ht)|]. pose proof (mention_bytes (fun _ => 0) (0%nat, m)) as E. cbn [snd] in E. rewrite <- E. unfold edge_size. lia.
Qed.

(** The vertices created for the identifiers. *)
Definition user_vertices (ids : list Z) : list (VertexId * list Value) := (fun v => (u64 v, [VInt v])) <$> ids.

Lemma u64_inj v w : i64_id v -> i64_id w -> u64 v = u64 w -> v = w.
Proof.
  unfold i64_id, u64. intros Hv Hw E. pose proof (Z.div_mod v (2 ^ 64) ltac:(done)). pose proof (Z.div_mod w (2 ^ 64) ltac:(done)). lia.
Qed.

Lemma tweet_bytes_text tw t : t ∈ tweet_texts tw -> Z.of_nat (String.length t) <= tweet_bytes tw.
Proof.
  intros Ht. unfold tweet_bytes. enough (Z.of_nat (String.length t) <= sumZ (fun t => Z.of_nat (String.length t)) (tweet_texts tw)) by lia.
  transitivity (sumZ (fun t => Z.of_nat (String.length t)) [t]); [cbn; lia|]. apply sumZ_submseteq; [lia|]. by apply singleton_submseteq_l.
Qed.

Lemma tweet_values_for from to tw : tweet_bytes tw < 2 ^ 32 -> values_for tweet_schema (tweet_values from to tw).
Proof.
  intros Hb. assert (forall t, t ∈ tweet_texts tw -> has_type STRING (VString t)) as Ht.
  { intros t Hin. pose proof (tweet_bytes_text tw t Hin). cbn. lia. }
  apply (Forall2_fmap_1 type_ id has_type). rewrite tweet_types, list_fmap_id. unfold tweet_values. cbn [repeat].
  repeat apply Forall2_cons_2; [|apply Ht; unfold tweet_texts; set_solver..|apply Forall2_nil_2]. by destruct (_ <? _).
Qed.

Lemma user_vertices_ok ids : NoDup ids -> Forall i64_id ids -> vertices_ok user_schema (user_vertices ids).
Proof.
  intros Hnd Hids. rewrite Forall_forall in Hids. split.
  - unfold user_vertices. rewrite <- list_fmap_compose. apply NoDup_fmap_2_strong; [|done].
    intros v w Hv Hw. apply u64_inj; by apply Hids.
  - apply Forall_fmap, Forall_forall. intros v Hv. cbn [fst snd]. split; [apply u64_range|]. split; [|by vm_compute].
    constructor; [|constructor]. apply (Hids v Hv).
Qed.

Lemma numbered_elem n ms nm : nm ∈ numbered n ms -> nm.2 ∈ ms.
Proof. intros Hin. destruct nm as [k m]. unfold numbered in Hin. by apply elem_of_zip_r in Hin. Qed.

(** The identifiers of the tweets. *)
Definition mentioned_in (l : list Sent) (v : Z) : Prop := exists x, x ∈ l /\ (v = sent_from x \/ v ∈ sent_tos x).

Lemma mentions_facts l m : orderly l -> Forall mentions_ok l -> m ∈ mentions l ->
  (i64_id (m_from m) /\ mentioned_in l (m_from m)) /\ (i64_id (m_to m) /\ mentioned_in l (m_to m)) /\ m_to m <> m_from m /\ 0 < m_time m < 2 ^ 52.
Proof.
  intros Ho Hids Hm. destruct (mentions_elem l m Hm) as (x & Hx & Hf & Ht & Hne & Htime).
  destruct (visits_times l x Ho Hx) as (Hpos & Hmax & _). destruct (visits_ids l x Hids Hx) as (Hi & _ & Hi').
  destruct (visits_elem _ _ _ Hx) as (l1 & z & l2 & -> & ->). cbn [sent_from sent_tos sent_ts] in *. rewrite Forall_forall in Hi'.
  rewrite Hf in *. split; [|split; [|split; [done|lia]]].
  - split; [done|]. exists z. split; [set_solver|by left].
  - split; [by apply Hi'|]. exists z. split; [set_solver|by right].
Qed.

Lemma sorted_numbered alloc ms : forall n, StronglySorted (fun a b => m_time a < m_time b) ms -> Forall (fun m => 0 < m_time m < 2 ^ 52) ms ->
  StronglySorted (fun a b => se_tm a < se_tm b) (stream_edge tweet_schema <$> (mention_input alloc <$> numbered n ms)).
Proof.
  induction ms as [|m ms IH]; intros n Hs Ht; [constructor|]. apply StronglySorted_inv in Hs as [Hs Hm]. apply Forall_cons in Ht as [Htm Ht].
  change (numbered n (m :: ms)) with ((n, m) :: numbered (S n) ms). cbn [fmap list_fmap]. constructor; [by apply IH|].
  apply Forall_forall. intros e (i & -> & (nm & -> & Hnm)%list_elem_of_fmap)%list_elem_of_fmap. apply numbered_elem in Hnm.
  rewrite Forall_forall in Hm, Ht. specialize (Hm _ Hnm). specialize (Ht _ Hnm). cbn. apply dofZ_lt; lia.
Qed.

Lemma tweet_inputs_ok conf l alloc ids : tweets_fit conf l -> orderly l -> Forall mentions_ok l -> (forall v, mentioned_in l v -> v ∈ ids) ->
  inputs_ok conf (user_vertices ids) (tweet_inputs alloc l).
Proof.
  intros Hfit Ho Hids Hin. pose proof Hfit as [[Hsv Hse] Hlay Hblock Hsize Htotal].
  assert (forall i, i ∈ tweet_inputs alloc l -> exists n m, i = mention_input alloc (n, m) /\ m ∈ mentions l) as Hi.
  { intros i ([n m] & -> & Hnm)%list_elem_of_fmap. exists n, m. split; [done|]. by apply numbered_elem in Hnm. }
  assert (forall v, v ∈ ids -> u64 v ∈ (user_vertices ids).*1) as Hv.
  { intros v Hv. unfold user_vertices. rewrite <- list_fmap_compose. apply list_elem_of_fmap. by exists v. }
  assert (forall m, m ∈ mentions l -> instant (dofZ (m_time m)) /\ 0 < dofZ (m_time m)) as Htime.
  { intros m (_ & _ & _ & Ht)%mentions_facts; [|done..]. split; [apply instant_dofZ; lia|]. apply (dofZ_lt 0); lia. }
  split.
  - intros i (n & m & -> & Hm)%Hi. destruct (mentions_facts l m Ho Hids Hm) as ((_ & H1) & (_ & H2) & _). split; apply Hv; by apply Hin.
  - intros i (n & m & -> & Hm)%Hi. rewrite Hse. cbn. split; [|by apply Htime]. apply tweet_values_for. by apply (mention_fits conf l).
  - rewrite Hse. split; [|done| | |done|].
    + intros e (i & -> & (n & m & -> & Hm)%Hi)%list_elem_of_fmap. destruct (mentions_facts l m Ho Hids Hm) as ((H1 & _) & (H2 & _) & Hne & Ht).
      split; [apply u64_range|]. split; [apply u64_range|]. split; [cbn; intros E%u64_inj; congruence|]. split; [by apply Htime|].
      rewrite mention_bytes. split; [|by apply Hsize]. apply data_of_ok; [exact tweet_defined|].
      apply (tweet_values_for (m_from m) (m_to m) (m_tweet m)). by apply (mention_fits conf l).
    + apply sorted_numbered; [by apply mentions_sorted|]. apply Forall_forall. intros m Hm. apply (mentions_facts l m Ho Hids Hm).
    + intros e e' (i & -> & (n & m & -> & Hm)%Hi)%list_elem_of_fmap (i' & -> & (n' & m' & -> & Hm')%Hi)%list_elem_of_fmap.
      destruct (mentions_facts l m Ho Hids Hm) as (_ & _ & _ & Ht). destruct (mentions_facts l m' Ho Hids Hm') as (_ & _ & _ & Ht').
      cbn. unfold midpoint. rewrite dadd_dofZ by lia. destruct (half_dofZ (m_time m + m_time m')) as [H1 H2]; [lia|]. unfold instant. lia.
    + unfold tweet_inputs. rewrite !length_fmap. unfold numbered. rewrite length_zip_with, length_seq, Nat.min_id. done.
Qed.

(** ** Properties *)

Lemma collect_witnesses {A B} (P : nat -> A -> B -> Prop) l : (forall k a, l !! k = Some a -> exists b, P k a b) ->
  exists bs, length bs = length l /\ forall k a b, l !! k = Some a -> bs !! k = Some b -> P k a b.
Proof.
  induction l as [|a l IH] using rev_ind; intros HP; [by exists []|].
  destruct IH as (bs & Hlen & Hbs); [intros k x Hk; apply HP; by apply lookup_app_l_Some|].
  destruct (HP (length l) a) as [b Hb]; [by apply list_lookup_middle|]. exists (bs ++ [b]). split; [rewrite !length_app, Hlen; done|].
  intros k x y Hx Hy. apply lookup_snoc_Some in Hx as [[Hk Hx]|[-> ->]].
  - rewrite lookup_app_l in Hy by lia. by apply (Hbs k).
  - rewrite <- Hlen, lookup_app_r, Nat.sub_diag in Hy by lia. by injection Hy as <-.
Qed.

Lemma ids_collected vs : forall V, exists V', foldM (visit_at note_vertices) V vs = Ret V' /\ forall v, v ∈ V' <-> v ∈ V \/ mentioned_in vs v.
Proof.
  induction vs as [|x vs IH]; intros V; cbn [foldM].
  { exists V. split; [done|]. intros v. split; [by left|]. intros [?|(x & Hx & _)]; [done|by apply elem_of_nil in Hx]. }
  set (V1 := foldl (fun W t => {[ t ]} ∪ W) ({[ sent_from x ]} ∪ V) (sent_tos x)).
  change (visit_at note_vertices V x) with (Ret V1). cbn [mbind outcome_bind]. destruct (IH V1) as (V' & E & HV). exists V'. split; [exact E|].
  assert (forall tos (W : gset Z) v, v ∈ foldl (fun W t => {[ t ]} ∪ W) W tos <-> v ∈ W \/ v ∈ tos) as Hfold.
  { induction tos as [|t tos IHt]; intros W v; cbn [foldl]; [set_solver|]. rewrite IHt. set_solver. }
  intros v. rewrite HV. unfold V1. rewrite Hfold. unfold mentioned_in. setoid_rewrite elem_of_cons. set_solver.
Qed.

Lemma mentioned_visits l : forall before v, mentioned_in (visits_of before l) v <-> mentioned_in l v.
Proof.
  induction l as [|x l IH]; intros before v; [done|]. cbn [visits_of]. specialize (IH (before ++ [x]) v). unfold mentioned_in in *.
  setoid_rewrite elem_of_cons. split; intros (y & [->|Hy] & Hv).
  - exists x. split; [by left|exact Hv].
  - destruct (proj1 IH) as (z & Hz & Hv'); [by exists y|]. exists z. split; [by right|done].
  - eexists. split; [by left|exact Hv].
  - destruct (proj2 IH) as (z & Hz & Hv'); [by exists y|]. exists z. split; [by right|done].
Qed.

Lemma empty_scan {T} (u : T) : mkScan 0 (-1) (2 ^ 64 - 1) 0 u = scanned [] u.
Proof. done. Qed.

(** The three passes over the graphs, each graph on its own. *)
Lemma populate_runs {D} `{LevelDB D, !LevelDBOk D} {R} `{SpatialIndex R, !SpatialIndexOk R}
    (lexical_cast_long lexical_cast_int : string -> outcome Z) (day_seconds : Z -> Z -> Z -> outcome Z) (time_seconds : Z -> Z -> Z -> Z)
    (filename content : string -> string) (iter : gset Z -> list Z) (rand : nat -> Z) (alloc : nat -> nat -> Z)
    (directory directory' : list string) (l : list Sent) (vertices V : gset Z) (fuel : nat)
    (graphs created added : list (InteractionGraph D R)) (results : list (list Z * InteractionGraph D R)) :
  directory ≡ₚ directory' ->
  read_tweets lexical_cast_long lexical_cast_int day_seconds time_seconds filename content directory = Ret l ->
  orderly l -> Forall mentions_ok l -> foldM (visit_at note_vertices) vertices (visits_of [] l) = Ret V ->
  length graphs = length created -> length created = length added -> length added = length results ->
  (forall k g g', graphs !! k = Some g -> created !! k = Some g' -> create_all (user_vertices (iter V)) g = Ret g') ->
  (forall k g g', created !! k = Some g -> added !! k = Some g' -> add_all rand (tweet_inputs (alloc k) l) g = Ret g') ->
  (forall k g r, added !! k = Some g -> results !! k = Some r -> flush rand fuel true g = Some (Ret r)) ->
  populateGraphFromTweets lexical_cast_long lexical_cast_int day_seconds time_seconds filename content iter rand alloc fuel
    directory directory' graphs vertices =
  Ret (foldl Z.min (2 ^ 64 - 1) (sent_ts <$> l), foldl Z.max 0 (sent_ts <$> l), V, results).
Proof.
  intros Hdir Hread Ho Hids EV Hl1 Hl2 Hl3 Hcreate Hadd Hflush. unfold populateGraphFromTweets.
  rewrite (scan_read _ _ _ _ _ _ note_vertices _ _ vertices Hread), empty_scan, scan_visits, EV by done. cbn [mbind outcome_bind scanned sc_user].
  rewrite (each_fold (fun v _ g => createVertex (u64 v) [VInt v] g) (iter V) graphs created Hl1).
  2: { intros k g g' Hg Hg'. rewrite <- (Hcreate k g g' Hg Hg'). unfold create_all, user_vertices. by rewrite foldM_fmap. }
  cbn [mbind outcome_bind]. pose proof Hread as Hread'. rewrite <- (read_any_order _ _ _ _ _ _ _ _ Hdir) in Hread'.
  rewrite (scan_read _ _ _ _ _ _ (add_tweet rand alloc) _ _ _ Hread'), empty_scan, scan_visits by done.
  destruct (add_visits rand alloc (visits_of [] l) 0 (dofZ 0) 0 created added) as (i & last & n & E).
  - by apply visits_spaced.
  - apply Forall_forall. intros x Hx. destruct (visits_times l x Ho Hx) as (H1 & H2 & H3). by destruct (visits_ids l x Hids Hx) as (_ & H4 & _).
  - apply Forall_forall. intros x Hx. exists 0. split; [done|]. destruct (visits_times l x Ho Hx). lia.
  - apply (each_fold (add_one rand alloc)); [done|]. intros k g g' Hg Hg'. rewrite <- (Hadd k g g' Hg Hg').
    unfold add_one, tweet_inputs, add_all. rewrite foldM_fmap. apply foldM_ext. intros ? ?. cbn [foldM]. by rewrite bind_ret_id.
  - change dzero with (dofZ 0). rewrite E. cbn [mbind outcome_bind scanned sc_user sc_start sc_end app].
    rewrite (each_ok _ added results Hl3); [done|]. intros k g r Hg Hr. by rewrite (Hflush k g r Hg Hr).
Qed.

(** What happens to one graph. *)
Record filled {D} `{LevelDB D} {R} `{SpatialIndex R} (pointer_hash rand alloc : nat -> Z) (fuel : nat) (l : list Sent) (ids : list Z)
    (store : Conf * Files D R) (graph created added : InteractionGraph D R) (result : list Z * InteractionGraph D R) : Prop := {
  fl_new : newInteractionGraph store.1 store.2 = Ret graph;
  fl_created : create_all (user_vertices ids) graph = Ret created;
  fl_added : add_all rand (tweet_inputs alloc l) created = Ret added;
  fl_flushed : flush rand fuel true added = Some (Ret result);
  fl_serves : exists A, (forall v, v ∈ ids -> A !! u64 v = Some (data_of user_schema [VInt v])) /\
    serves pointer_hash tweet_schema user_schema A (stream_edge tweet_schema <$> tweet_inputs alloc l) [] result.2
}.

Lemma store_filled {D} `{LevelDB D, !LevelDBOk D} {R} `{SpatialIndex R, !SpatialIndexOk R} (pointer_hash rand alloc : nat -> Z)
    (Hrand : forall n, 0 <= rand n < 2 ^ 31) (fuel : nat) (l : list Sent) (ids : list Z) (store : Conf * Files D R) :
  conf_ok store.1 -> empty_files store.2 -> tweets_fit store.1 l -> orderly l -> Forall mentions_ok l ->
  NoDup ids -> Forall i64_id ids -> (forall v, mentioned_in l v -> v ∈ ids) -> (2 * length (mentions l) <= fuel)%nat ->
  exists g0 g1 g2 r, filled pointer_hash rand alloc fuel l ids store g0 g1 g2 r.
Proof.
  intros Hc Hf Ht Ho Hids Hnd Hi Hin Hfuel. pose proof (tf_schemas _ _ Ht) as [Esv Ese].
  destruct (ingest_ok pointer_hash rand Hrand store.1 store.2 (user_vertices ids) (tweet_inputs alloc l) fuel) as (g0 & g1 & g2 & g & A & E0 & E1 & E2 & E3 & _ & HA & _ & Hs);
    [done|done|rewrite Esv; by apply user_vertices_ok|by apply tweet_inputs_ok| |].
  - unfold tweet_inputs, numbered. by rewrite length_fmap, length_zip_with, length_seq, Nat.min_id.
  - exists g0, g1, g2, (enc_meta (meta_ g), g). rewrite Esv, Ese in *. split; [done..|]. exists A. split; [|done].
    intros v Hv. apply HA. unfold user_vertices. apply list_elem_of_fmap. by exists v.
Qed.

(** C4: graphs filled from a directory of tweets, with the configuration of the
    experiments among others.  Let the files be readable, and read in the order
    of the directory let their tweets be in the order of their times, after 0
    and before 2^52, and the mentions in the tweets of one time be few enough to
    get a millisecond each before the next time; let there be room for each
    mention in a block, under whatever layout, and the number of mentions times
    the size of a block be at most 2^52; let the identifiers fit 64 bits.  Then
    filling freshly constructed graphs ends and succeeds, whatever order the
    directory is listed in, the vertices are created in, and the random numbers
    are: the vertices are the authors, the mentioned and those given before;
    the time range is that of the tweets; and each graph, whose buffers need
    room for a few entries and whose window can be of any size, serves exactly
    the mentions as edges from the author at increasing times with the fields
    of the tweet, an author being mentioned once in each of his tweets by the
    negation of his identifier. *)
Theorem tweets_served {D} `{LevelDB D, !LevelDBOk D} {R} `{SpatialIndex R, !SpatialIndexOk R}
    (lexical_cast_long lexical_cast_int : string -> outcome Z) (day_seconds : Z -> Z -> Z -> outcome Z) (time_seconds : Z -> Z -> Z -> Z)
    (filename content : string -> string) (iter : gset Z -> list Z) (rand : nat -> Z) (alloc : nat -> nat -> Z) (pointer_hash : nat -> Z)
    (stores : list (Conf * Files D R)) (directory directory' : list string) (l : list Sent) (vertices : gset Z) (fuel : nat) :
  (forall t n, lexical_cast_long t = Ret n -> - 2 ^ 63 <= n < 2 ^ 63) -> (forall X, iter X ≡ₚ elements X) -> (forall n, 0 <= rand n < 2 ^ 31) ->
  directory ≡ₚ directory' ->
  read_tweets lexical_cast_long lexical_cast_int day_seconds time_seconds filename content directory = Ret l -> orderly l ->
  (forall v, v ∈ vertices -> i64_id v) ->
  Forall (fun cf => conf_ok cf.1 /\ empty_files cf.2 /\ tweets_fit cf.1 l) stores ->
  (2 * length (mentions l) <= fuel)%nat ->
  exists graphs V results,
    Forall2 (fun cf g => newInteractionGraph cf.1 cf.2 = Ret g) stores graphs /\
    populateGraphFromTweets lexical_cast_long lexical_cast_int day_seconds time_seconds filename content iter rand alloc fuel
      directory directory' graphs vertices =
      Ret (foldl Z.min (2 ^ 64 - 1) (sent_ts <$> l), foldl Z.max 0 (sent_ts <$> l), V, results) /\
    (forall v, v ∈ V <-> v ∈ vertices \/ mentioned_in l v) /\
    length results = length stores /\
    forall k written g, results !! k = Some (written, g) -> exists A,
      (forall v, v ∈ V -> A !! u64 v = Some (data_of user_schema [VInt v])) /\
      serves pointer_hash tweet_schema user_schema A (stream_edge tweet_schema <$> tweet_inputs (alloc k) l) [] g.
Proof.
  intros Hlong Hiter Hrand Hdir Hread Ho Hvs Hstores Hfuel. rewrite Forall_forall in Hstores.
  pose proof (read_ids _ _ _ _ _ _ Hlong _ _ Hread) as Hids.
  destruct (ids_collected (visits_of [] l) vertices) as (V & EV & HV). setoid_rewrite mentioned_visits in HV.
  assert (forall v, v ∈ V -> i64_id v) as HVi.
  { intros v [Hv|(x & Hx & Hv)]%HV; [by apply Hvs|]. rewrite Forall_forall in Hids. destruct (Hids x Hx) as (H1 & _ & H2).
    rewrite Forall_forall in H2. destruct Hv as [->|Hv]; [done|by apply H2]. }
  assert (forall v, v ∈ iter V <-> v ∈ V) as Hiv by (intros v; rewrite (Hiter V); apply elem_of_elements).
  destruct (collect_witnesses (fun k store (r : InteractionGraph D R * InteractionGraph D R * InteractionGraph D R * (list Z * InteractionGraph D R)) =>
    filled pointer_hash rand (alloc k) fuel l (iter V) store r.1.1.1 r.1.1.2 r.1.2 r.2) stores) as (rs & Hlen & Hrs).
  { intros k store Hk%list_elem_of_lookup_2. destruct (Hstores _ Hk) as (Hc & Hf & Ht).
    destruct (store_filled pointer_hash rand (alloc k) Hrand fuel l (iter V) store Hc Hf Ht Ho Hids) as (g0 & g1 & g2 & r & Hr); [..|by exists (g0, g1, g2, r)].
    - rewrite (Hiter V). apply NoDup_elements.
    - apply Forall_forall. intros v Hv%Hiv. by apply HVi.
    - intros v Hv. apply Hiv, HV. by right.
    - done. }
  assert (forall {T} (f : _ -> T) k r, (f <$> rs) !! k = Some r -> exists store x, stores !! k = Some store /\ rs !! k = Some x /\ r = f x) as Hmap.
  { intros T f k r Hr. rewrite list_lookup_fmap in Hr. destruct (rs !! k) as [x|] eqn:Ex; [|done]. injection Hr as <-.
    destruct (lookup_lt_is_Some_2 stores k) as [cf Hcf]; [rewrite <- Hlen; by eapply lookup_lt_Some|]. by exists cf, x. }
  exists ((fun r => r.1.1.1) <$> rs), V, (snd <$> rs). split; [|split; [|split; [exact HV|split; [by rewrite length_fmap|]]]].
  - apply Forall2_same_length_lookup. split; [by rewrite length_fmap|]. intros k cf g Hcf Hg.
    destruct (Hmap _ _ _ _ Hg) as (cf' & x & Hcf' & Hx & ->). rewrite Hcf in Hcf'. injection Hcf' as <-. apply (fl_new _ _ _ _ _ _ _ _ _ _ _ (Hrs k cf x Hcf Hx)).
  - apply (populate_runs _ _ _ _ _ _ _ _ _ _ _ l _ _ _ _ ((fun r => r.1.1.2) <$> rs) ((fun r => r.1.2) <$> rs)); try done; try by rewrite !length_fmap.
    all: intros k g g' (cf & x & Hcf & Hx & ->)%Hmap Hg'; rewrite list_lookup_fmap, Hx in Hg'; injection Hg' as <-; destruct (Hrs k cf x Hcf Hx); done.
  - intros k written g Hk. destruct (Hmap _ _ _ _ Hk) as (cf & x & Hcf & Hx & E). destruct (Hrs k cf x Hcf Hx) as [_ _ _ _ (A & HA & Hs)].
    rewrite <- E in Hs. exists A. split; [intros v Hv; by apply HA, Hiv|exact Hs].
Qed.

(** *** Two days of tweets *)

(** Digits, as [lexical_cast] reads them. *)
Fixpoint decimal (s : string) (n : Z) : outcome Z :=
  match s with
  | EmptyString => Ret n
  | String c s =>
      let d := Z.of_nat (nat_of_ascii c) - 48 in
      if (0 <=? d) && (d <=? 9) && (n <? 10 ^ 17) then decimal s (10 * n + d) else Throw (runtime_error "bad lexical cast")
  end.

(** The days from 1970 of a date of the Gregorian calendar. *)
Definition days (year month day : Z) : Z :=
  let y := if month <=? 2 then year - 1 else year in
  let of_era := y - (y / 400) * 400 in
  let of_year := (153 * (if 2 <? month then month - 3 else month + 9) + 2) / 5 + day - 1 in
  (y / 400) * 146097 + of_era * 365 + of_era / 4 - of_era / 100 + of_year - 719468.

Definition sample_name (path : string) : string := String.substring 6 (String.length path - 6) path.
Definition newline : string := String "010" EmptyString.
Definition sample_content (path : string) : string :=
  if bool_decide (path = "/data/tweets_20130101") then
    "10:00:00|1|17|0|0|f|23,42|h|hello" +:+ newline +:+ "no tweet" +:+ newline +:+ "10:00:00|2|42|0|0|f|17|h|again" +:+ newline
  else "08:30:00|3|23|0|0|f|17,|h|next day".

Definition sample_cast (s : string) : outcome Z := decimal s 0.
Definition sample_directory : list string := ["/data/tweets_20130102"; "/data/tweets_20130101"].
Definition sample_read : outcome (list Sent) :=
  read_tweets sample_cast sample_cast (fun y m d => Ret (86400 * days y m d)) (fun h m s => 3600 * h + 60 * m + s) sample_name sample_content sample_directory.
Definition sample_tweets : list Sent := match sample_read with Ret l => l | _ => [] end.

Definition sample_conf : Conf := createGraphConf "/tmp/exp".

Lemma decimal_range s : forall n m, 0 <= n < 10 ^ 18 -> decimal s n = Ret m -> 0 <= m < 10 ^ 18.
Proof.
  induction s as [|c s IH]; intros n m Hn E; cbn [decimal] in E; [by injection E as <-|].
  destruct (Z.leb_spec 0 (Z.of_nat (nat_of_ascii c) - 48)), (Z.leb_spec (Z.of_nat (nat_of_ascii c) - 48) 9), (Z.ltb_spec n (10 ^ 17)); try done.
  refine (IH _ _ _ E). lia.
Qed.

Lemma sample_conf_ok : conf_ok sample_conf.
Proof.
  split.
  - split; [apply new_schema_ok|]. repeat constructor; discriminate.
  - exact tweet_defined.
  - by apply (bool_decide_unpack _); vm_compute.
  - split; [by vm_compute|by vm_compute| | |by vm_compute].
    + cbn. repeat (split || constructor); by vm_compute.
    + apply Forall_singleton. by apply (bool_decide_unpack _); vm_compute.
  - by vm_compute.
  - split; [by vm_compute|]. split; by vm_compute.
  - by vm_compute.
Qed.

Lemma sample_orderly : orderly sample_tweets.
Proof.
  set (l := sample_tweets). vm_compute in l. split.
  - apply Forall_forall. subst l. repeat (apply Forall_cons_2 || apply Forall_nil_2); by vm_compute.
  - subst l. repeat (apply SSorted_cons || apply SSorted_nil || apply Forall_cons_2 || apply Forall_nil_2); by vm_compute.
  - intros x y Hx Hy. subst l. repeat (apply elem_of_cons in Hx as [->|Hx]); [..|by apply elem_of_nil in Hx];
      (repeat (apply elem_of_cons in Hy as [->|Hy]); [..|by apply elem_of_nil in Hy]); by vm_compute.
  - apply Forall_forall. subst l. repeat (apply Forall_cons_2 || apply Forall_nil_2); by vm_compute.
Qed.

Lemma sample_fits : tweets_fit sample_conf sample_tweets.
Proof.
  split.
  - split; reflexivity.
  - split; [by vm_compute|]. intros _. split; [by vm_compute|]. split; [by vm_compute|discriminate].
  - by vm_compute.
  - apply Forall_forall. set (l := mentions sample_tweets). vm_compute in l. subst l. repeat (apply Forall_cons_2 || apply Forall_nil_2); by vm_compute.
  - split; by vm_compute.
Qed.

Definition sample_graphs : list (InteractionGraph (gmap bytes bytes) (list (bytes * Region * Z))) :=
  match newInteractionGraph sample_conf client_files with Ret g => [g] | _ => [] end.

(** The second listing of the directory is in another order. *)
Definition sample_populate :=
  populateGraphFromTweets sample_cast sample_cast (fun y m d => Ret (86400 * days y m d)) (fun h m s => 3600 * h + 60 * m + s)
    sample_name sample_content elements (fun _ => 7) (fun _ n => Z.of_nat n) 14 sample_directory (reverse sample_directory) sample_graphs ∅.

(** Three tweets with a mention of their author and four of others: seven
    edges, those of the second tweet of ten o'clock after the three mentions of
    the first. *)
Lemma tweets_served_witness :
  exists (V : gset Z) written (g : InteractionGraph (gmap bytes bytes) (list (bytes * Region * Z))) A,
    sample_populate = Ret (1357034400000, 1357115400000, V, [(written, g)]) /\
    (forall v, v ∈ V <-> mentioned_in sample_tweets v) /\
    serves (fun i => Z.of_nat i) tweet_schema user_schema A (stream_edge tweet_schema <$> tweet_inputs (fun n => Z.of_nat n) sample_tweets) [] g /\
    (m_time <$> mentions sample_tweets) =
      [1357034400000; 1357034400001; 1357034400002; 1357034400003; 1357034400004; 1357115400000; 1357115400001].
Proof.
  destruct (tweets_served (D := gmap bytes bytes) (R := list (bytes * Region * Z)) sample_cast sample_cast
    (fun y m d => Ret (86400 * days y m d)) (fun h m s => 3600 * h + 60 * m + s) sample_name sample_content elements (fun _ => 7)
    (fun _ n => Z.of_nat n) (fun i => Z.of_nat i) [(sample_conf, client_files)] sample_directory (reverse sample_directory) sample_tweets ∅ 14)
    as (graphs & V & results & Hnew & E & HV & Hlen & Hserve).
  - intros t n Et. pose proof (decimal_range t 0 n ltac:(lia) Et). lia.
  - intros X. reflexivity.
  - intros _. lia.
  - symmetry. apply reverse_Permutation.
  - vm_compute. reflexivity.
  - exact sample_orderly.
  - intros v Hv. by apply elem_of_empty in Hv.
  - apply Forall_singleton. split; [exact sample_conf_ok|]. split; [exact client_empty|exact sample_fits].
  - vm_compute. lia.
  - destruct results as [|[written g] [|]]; [discriminate| |discriminate]. destruct (Hserve 0%nat written g eq_refl) as (A & _ & Hs).
    apply Forall2_cons_inv_l in Hnew as (g0 & graphs' & Eg & Hnil & ->). apply Forall2_nil_inv_l in Hnil as ->.
    assert (sample_graphs = [g0]) as Hg0 by (unfold sample_graphs; cbn [fst snd] in Eg; rewrite Eg; reflexivity).
    exists V, written, g, A. split; [unfold sample_populate; rewrite Hg0, E; vm_compute; reflexivity|]. split.
    + intros v. destruct (HV v) as [Hv Hv']. split; [|exact (fun H => Hv' (or_intror H))].
      intros [He|Hm]%Hv; [exact (False_ind _ (not_elem_of_empty v He))|exact Hm].
    + split; [exact Hs|vm_compute; reflexivity].
Defined.
