(* ===== verification/Sampling.v ===== *)
(** * Random choices of the simulation

    util/ZipfRand.cpp, the templates of simulation/SimulationConf.cpp and the
    search queries of simulation/ExpSetupHelper.cpp.

    The numbers a generator gives are a sequence, [rand n] the [n]-th; [pow] of
    the C library is a parameter. *)

From Stdlib Require Import ZArith Lia Permutation.
From stdpp Require Import base numbers gmap strings list sorting.
From S2P Require Import Prelude.
From S2P Require Import Double.
From S2P Require Import NetworkByteBuffer.
From S2P Require Import LevelDB.
From S2P Require Import Schema.
From S2P Require Import AttributeData.
From S2P Require Import MetaData.
From S2P Require Import NeighborList.
From S2P Require Import PartitionIndex.
From S2P Require Import Block.
From S2P Require Import BlockContent.
From S2P Require Import BlockManager.
From S2P Require Import IntervalIndex.
From S2P Require Import Query.
From S2P Require Import Conf.
From S2P Require Import ExpirationFlow.
From S2P Require Import GraphFlow.
From S2P Require Import VertexManager.
From S2P Require Import HistoricalGraph.
From S2P Require Import PartitionChoice.
From S2P Require Import DerivedBlocks.
From S2P Require Import HistoryBlocks.
From S2P Require Import HistoryInvariant.
From S2P Require Import HistoryQuery.
From S2P Require Import HistoryVertices.
From S2P Require Import Workload.
From S2P Require Import StreamHistory.
From S2P Require Import InteractionGraph.
From S2P Require Import StreamAnswers.
From S2P Require Import Searches.
From S2P Require Import SearchAnswers.

(** [uniform_int_distribution(a, b)]: undefined unless [a <= b]; [r] is what the
    generator gives. *)
Definition uniform (a b r : Z) : outcome Z := if a <=? b then Ret (a + r mod (b - a + 1)) else Undefined.

(** ** Zipf distribution *)

Section Zipf.
Context (pow : double -> double -> double).

Record ZipfRand := mkZipf { zr_n_ : Z; zr_m_ : Z; zr_p_ : list double }.

(** [p_[i] = p_[i] + p_[i-1]] for each [i] from 1 on. *)
Fixpoint accumulate (previous : double) (p : list double) : list double :=
  match p with
  | [] => []
  | x :: p => dadd x previous :: accumulate (dadd x previous) p
  end.

(** At most 16384 items are computed exactly. *)
Definition newZipfRand (zipfParam : double) (numItems : Z) : ZipfRand :=
  let m := Z.min numItems 16384 in
  let terms := (fun i => ddiv dunit (pow (dadd (dofZ i) dunit) zipfParam)) <$> seqZ 0 numItems in
  let sum := foldl dadd dzero terms in
  let p := (fun x => ddiv x sum) <$> take (Z.to_nat m) terms in
  mkZipf numItems m (match p with [] => [] | x :: p => x :: accumulate x p end).

(** The position of the first element above the value. *)
Fixpoint upper_bound (p : list double) (v : double) : Z :=
  match p with
  | [] => 0
  | x :: p => if dltb v x then 0 else 1 + upper_bound p v
  end.

(** [v] is the next number from [[0, 1)]. *)
Definition getRandomValue (z : ZipfRand) (v : double) : outcome Z :=
  match last (zr_p_ z) with
  | None => Undefined
  | Some pm =>
      if dltb v pm then Ret (upper_bound (zr_p_ z) v)
      else
        let diff := dsub v pm in
        k ← to_size (dmul (dofZ (u64 (zr_n_ z - zr_m_ z))) (ddiv diff (dsub dunit pm)));
        Ret (u64 (zr_m_ z + k))
  end.

Definition item (p : list double) (x : Z) : outcome double :=
  match p !! Z.to_nat x with Some y => Ret y | None => Undefined end.

Definition getItemFrequency (z : ZipfRand) (x : Z) : outcome double :=
  if x =? 0 then item (zr_p_ z) x
  else if x <? zr_m_ z then a ← item (zr_p_ z) x; b ← item (zr_p_ z) (x - 1); Ret (dsub a b)
  else pm ← item (zr_p_ z) (zr_m_ z - 1); Ret (ddiv (dsub dunit pm) (dofZ (u64 (zr_n_ z - zr_m_ z)))).
End Zipf.

(** ** Templates *)

Section Templates.
Context (rand : nat -> Z).

(** [swap(attributeIndices[i], attributeIndices[j])] *)
Definition swap (i j : nat) (l : list nat) : outcome (list nat) :=
  match l !! i, l !! j with
  | Some x, Some y => Ret (<[j := x]> (<[i := y]> l))
  | _, _ => Undefined
  end.

(** The names chosen, [attributeIndices] and the numbers used. *)
Definition PickState : Type := list string * list nat * nat.

Definition pick (attributes : list Attribute) (st : PickState) (j : nat) : outcome PickState :=
  let '(names, indices, c) := st in
  k ← uniform 0 (Z.of_nat (length attributes) - Z.of_nat j - 1) (rand c);
  match indices !! Z.to_nat k with
  | None => Undefined
  | Some i =>
      match attributes !! i with
      | None => Undefined
      | Some a =>
          indices ← swap (Z.to_nat k) (length attributes - j - 1) indices;
          Ret (names ++ [name_ a], indices, S c)
      end
  end.

(** [len] is the number of [queryLengthGen_]. *)
Definition template_step (attributes : list Attribute) (st : list (list string) * list nat * nat) (len : double)
  : outcome (list (list string) * list nat * nat) :=
  let '(templates, indices, c) := st in
  n ← to_size len;
  let queryLength := Z.min n (Z.of_nat (length attributes)) in
  '(names, indices, c) ← foldM (pick attributes) ([], indices, c) (seq 0 (Z.to_nat queryLength));
  Ret (templates ++ [names], indices, c).

(** One number for the length of each template. *)
Definition getQueryTemplates (attributes : list Attribute) (lengths : list double) : outcome (list (list string)) :=
  '(templates, _, _) ← foldM (template_step attributes) ([], seq 0 (length attributes), 0%nat) lengths;
  Ret templates.
End Templates.

(** ** Search queries *)

Section Queries.
Context {D : Type} `{LevelDB D} {R : Type} `{SpatialIndex R}.
Context (pointer_hash : nat -> Z) (order : nat -> list nat).
Context (rand : nat -> Z) (zipf_rand : nat -> double).

(** The draws of a start time until a vertex has interactions in the range.
    [c] counts the numbers used. *)
Fixpoint draw_range (fuel : nat) (tsStart tsEnd duration : Z) (g : InteractionGraph D R) (c : nat) : outcome (Z * Z * list VertexId * nat) :=
  match fuel with
  | O => Undefined
  | S fuel =>
      startTime ← uniform tsStart (u64 (tsEnd - duration)) (rand c);
      let endTime := u64 (startTime + duration) in
      vertices ← processIntervalQueryBatch (IntervalQuery (dofZ startTime) (dofZ endTime)) g;
      match vertices with
      | [] => draw_range fuel tsStart tsEnd duration g (S c)
      | _ => Ret (startTime, endTime, vertices, S c)
      end
  end.

Definition count_one (_ : EdgeIterator) (count : Z) (g : InteractionGraph D R) : outcome (Z * InteractionGraph D R) := Ret (u64 (count + 1), g).

(** [maxOccurances], [mostProlificVertex] when it has been assigned. *)
Definition note_prolific (fuel : nat) (startTime endTime : Z) (template : list string)
    (st : Z * option VertexId * InteractionGraph D R) (vertex : VertexId) : outcome (Z * option VertexId * InteractionGraph D R) :=
  let '(maxOccurances, mostProlificVertex, g) := st in
  '(it, g) ← processFocusedIntervalQuery pointer_hash order (newFocusedIntervalQuery vertex (dofZ startTime) (dofZ endTime) template) g;
  '(count, g) ← edge_loop order count_one fuel it 0 g;
  if maxOccurances <? count then Ret (count, Some vertex, g) else Ret (maxOccurances, mostProlificVertex, g).

Definition nth_template (templates : list (list string)) (i : Z) : outcome (list string) :=
  if i <? 0 then Undefined else match templates !! Z.to_nat i with Some t => Ret t | None => Undefined end.

Definition search_query (templates : list (list string)) (queryGen : ZipfRand) (startTime endTime : Z) (vertexList : list VertexId)
    (useMostProlificVertex : bool) (mostProlificVertex : option VertexId) (c : nat)
    (queries : list FocusedIntervalQuery) (i : nat) : outcome (list FocusedIntervalQuery) :=
  templateIndex ← (if 1 <? to_signed 32 (Z.of_nat (length templates)) then k ← getRandomValue queryGen (zipf_rand i); Ret (to_signed 32 k) else Ret 0);
  vertexIndex ← uniform 0 (to_signed 32 (u64 (Z.of_nat (length vertexList) - 1))) (rand (c + i));
  vi ← (if useMostProlificVertex
        then match mostProlificVertex with Some v => Ret v | None => Undefined end
        else match vertexList !! Z.to_nat vertexIndex with Some v => Ret v | None => Throw out_of_range end);
  template ← nth_template templates templateIndex;
  Ret (queries ++ [newFocusedIntervalQuery vi (dofZ startTime) (dofZ endTime) template]).

(** [fuel] is for the draws and for the edges of a vertex. *)
Definition genSearchQueries (fuel : nat) (pow : double -> double -> double) (templates : list (list string)) (queryZipfParam : double)
    (numQueries tsStart tsEnd : Z) (delta : double) (g : InteractionGraph D R) (useMostProlificVertex : bool)
  : outcome (list FocusedIntervalQuery * InteractionGraph D R) :=
  let queryGen := newZipfRand pow queryZipfParam (u64 (to_signed 32 (Z.of_nat (length templates)))) in
  duration ← to_size (dmul delta (dofZ (u64 (tsEnd - tsStart))));
  '(startTime, endTime, vertices, c) ← draw_range fuel tsStart tsEnd duration g 0;
  let vertexList := filter (fun v => 0 <= to_signed 64 v) vertices in
  '(mostProlificVertex, g) ← (if useMostProlificVertex
    then
      '(_, v, g) ← foldM (fun st vertex => template ← nth_template templates 0; note_prolific fuel startTime endTime template st vertex) (0, None, g) vertexList;
      Ret (v, g)
    else Ret (None, g));
  _ ← uniform 0 (to_signed 32 (u64 (Z.of_nat (length vertexList) - 1))) 0;
  queries ← foldM (search_query templates queryGen startTime endTime vertexList useMostProlificVertex mostProlificVertex c) [] (seq 0 (Z.to_nat numQueries));
  Ret (queries, g).
End Queries.

(** ** Draws *)

Lemma uniform_ok a b r : a <= b -> exists x, uniform a b r = Ret x /\ a <= x <= b.
Proof.
  intros Hab. unfold uniform. rewrite (proj2 (Z.leb_le _ _) Hab). eexists. split; [reflexivity|].
  pose proof (Z.mod_pos_bound r (b - a + 1) ltac:(lia)). lia.
Qed.

Lemma upper_bound_last p v pm : last p = Some pm -> dltb v pm = true -> 0 <= upper_bound p v < Z.of_nat (length p).
Proof.
  intros Hl Hv. induction p as [|x p IH]; [done|]. cbn [upper_bound length]. destruct (dltb v x) eqn:E; [lia|].
  destruct p as [|y p]; [injection Hl as ->; congruence|]. specialize (IH Hl). lia.
Qed.

Lemma length_accumulate x p : length (accumulate x p) = length p.
Proof. revert x. induction p as [|y p IH]; intros x; [done|]. cbn. by rewrite IH. Qed.

Lemma length_zipf pow z n : 0 <= n -> length (zr_p_ (newZipfRand pow z n)) = Z.to_nat (Z.min n 16384).
Proof.
  intros Hn. cbn [newZipfRand zr_p_]. set (p := (fun x => ddiv x _) <$> take _ _).
  assert (length p = Z.to_nat (Z.min n 16384)) as <- by (unfold p; rewrite length_fmap, length_take, length_fmap, length_seqZ; lia).
  destruct p as [|x p]; [done|]. cbn [length]. by rewrite length_accumulate.
Qed.

(** Below the last of the sums an item is drawn. *)
Lemma zipf_draws z v pm : last (zr_p_ z) = Some pm -> dltb v pm = true ->
  exists k, getRandomValue z v = Ret k /\ 0 <= k < Z.of_nat (length (zr_p_ z)).
Proof.
  intros Hl Hv. unfold getRandomValue. rewrite Hl, Hv. eexists. split; [reflexivity|]. by apply (upper_bound_last _ _ pm).
Qed.

(** With equal probabilities for seven items the sums end below 1, and the
    largest number below 1 draws an item past the last one: an index past the
    sizes of the attributes of the simulation. *)
Lemma zipf_past_last : getRandomValue (newZipfRand (fun _ _ => dunit) dzero 7) 0x3FEFFFFFFFFFFFFF = Ret 7.
Proof. vm_compute. reflexivity. Qed.

(** *** Templates *)

Lemma swap_last k j (l : list nat) x : (k <= j)%nat -> (j < length l)%nat -> l !! k = Some x ->
  exists l', swap k j l = Ret l' /\ l' ≡ₚ l /\ drop j l' = x :: drop (S j) l.
Proof.
  intros Hkj Hj Hk. destruct (lookup_lt_is_Some_2 l j Hj) as [y Hy]. unfold swap. rewrite Hk, Hy. eexists. split; [reflexivity|].
  assert (drop j (<[j := x]> (<[k := y]> l)) = x :: drop (S j) l) as Hd.
  { rewrite (drop_S _ x) by (apply list_lookup_insert_eq; by rewrite length_insert). f_equal.
    by rewrite !drop_insert_lt by lia. }
  split; [by apply Permutation_insert_swap|done].
Qed.

(** After [j] picks the last [j] indices are those picked, the last one first. *)
Definition picked (attributes : list Attribute) (j : nat) (names : list string) (indices : list nat) : Prop :=
  indices ≡ₚ seq 0 (length attributes) /\
  Forall2 (fun i name => name_ <$> attributes !! i = Some name) (reverse (drop (length attributes - j) indices)) names.

Lemma pick_ok rand attributes j names indices c : (j < length attributes)%nat -> picked attributes j names indices ->
  exists names' indices', pick rand attributes (names, indices, c) j = Ret (names', indices', S c) /\ picked attributes (S j) names' indices'.
Proof.
  intros Hj [Hp Hnames]. assert (length indices = length attributes) as Hlen by (by rewrite Hp, length_seq).
  unfold pick. destruct (uniform_ok 0 (Z.of_nat (length attributes) - Z.of_nat j - 1) (rand c)) as (k & -> & Hk); [lia|]. cbn [mbind outcome_bind].
  destruct (lookup_lt_is_Some_2 indices (Z.to_nat k)) as [i Hi]; [lia|]. rewrite Hi.
  assert (i < length attributes)%nat as Hia by (apply list_elem_of_lookup_2 in Hi; rewrite Hp, elem_of_seq in Hi; lia).
  destruct (lookup_lt_is_Some_2 attributes i Hia) as [a Ha]. rewrite Ha.
  destruct (swap_last (Z.to_nat k) (length attributes - j - 1) indices i) as (indices' & -> & Hp' & Hd); [lia|lia|done|].
  cbn [mbind outcome_bind]. eexists _, _. split; [reflexivity|]. split; [by rewrite Hp'|].
  replace (length attributes - S j)%nat with (length attributes - j - 1)%nat by lia. rewrite Hd, reverse_cons.
  replace (S (length attributes - j - 1)) with (length attributes - j)%nat by lia. apply Forall2_app; [done|].
  constructor; [by rewrite Ha|constructor].
Qed.

Lemma picks_ok rand attributes c indices n : indices ≡ₚ seq 0 (length attributes) -> (n <= length attributes)%nat ->
  exists names indices' c', foldM (pick rand attributes) ([], indices, c) (seq 0 n) = Ret (names, indices', c') /\ picked attributes n names indices'.
Proof.
  intros Hp. induction n as [|n IH]; intros Hn.
  { exists [], indices, c. split; [done|]. split; [done|]. rewrite drop_ge by (rewrite Hp, length_seq; lia). constructor. }
  destruct IH as (names & indices' & c' & E & Hpick); [lia|]. rewrite seq_S, foldM_app, E. cbn [mbind outcome_bind foldM].
  destruct (pick_ok rand attributes n names indices' c' ltac:(lia) Hpick) as (names' & indices'' & E' & Hpick').
  rewrite Nat.add_0_l, E'. by exists names', indices'', (S c').
Qed.

(** The names picked are distinct names of attributes. *)
Lemma picked_names attributes n names indices : NoDup (name_ <$> attributes) -> (n <= length attributes)%nat -> picked attributes n names indices ->
  NoDup names /\ length names = n /\ Forall (fun x => x ∈ name_ <$> attributes) names.
Proof.
  intros Hnd Hn [Hp Hnames]. assert (length indices = length attributes) as Hlen by (by rewrite Hp, length_seq).
  assert (NoDup (reverse (drop (length attributes - n) indices))) as Hi.
  { rewrite reverse_Permutation. assert (NoDup indices) as H by (rewrite Hp; apply NoDup_seq). rewrite <- (take_drop (length attributes - n) indices) in H.
    by apply NoDup_app in H as (_ & _ & ?). }
  split; [|split].
  - revert Hi. induction Hnames as [|i x l names Hix Hl IH]; intros Hi; [constructor|]. apply NoDup_cons in Hi as [Hni Hi]. constructor; [|by apply IH].
    intros Hx. apply Hni. clear IH Hni.
    apply list_elem_of_lookup in Hx as [k Hk]. destruct (Forall2_lookup_r _ _ _ _ _ Hl Hk) as (i' & Hi' & Hx').
    enough (i = i') as -> by by eapply list_elem_of_lookup_2. apply (NoDup_lookup (name_ <$> attributes) i i' x Hnd); rewrite list_lookup_fmap; done.
  - rewrite <- (Forall2_length _ _ _ Hnames), length_reverse, length_drop. lia.
  - apply Forall_forall. intros x [k Hk]%list_elem_of_lookup. destruct (Forall2_lookup_r _ _ _ _ _ Hnames Hk) as (i & _ & Hx).
    apply list_elem_of_lookup. exists i. by rewrite list_lookup_fmap.
Qed.

(** What a template for a length is. *)
Definition template_for (attributes : list Attribute) (len : double) (template : list string) : Prop :=
  NoDup template /\ Forall (fun x => x ∈ name_ <$> attributes) template /\
  exists n, to_size len = Ret n /\ Z.of_nat (length template) = Z.min n (Z.of_nat (length attributes)).

Lemma to_size_nonneg x n : to_size x = Ret n -> 0 <= n.
Proof.
  unfold to_size. destruct (to_sf x) as [| | |]; intros E; try done; [by injection E as <-|].
  destruct (Z.ltb_spec (-1) (d2Z x)), (d2Z x <? 2 ^ 64); try done. injection E as <-. lia.
Qed.

Lemma templates_loop rand attributes lengths : NoDup (name_ <$> attributes) -> Forall (fun len => exists n, to_size len = Ret n) lengths ->
  forall done indices c, indices ≡ₚ seq 0 (length attributes) ->
  exists templates indices' c', foldM (template_step rand attributes) (done, indices, c) lengths = Ret (done ++ templates, indices', c') /\
    Forall2 (template_for attributes) lengths templates.
Proof.
  intros Hnd Hlens. induction Hlens as [|len lengths [n Hn] _ IH]; intros acc indices c Hp; cbn [foldM].
  { exists [], indices, c. rewrite app_nil_r. by split; [|constructor]. }
  pose proof (to_size_nonneg _ _ Hn) as H0.
  set (k := Z.to_nat (Z.min n (Z.of_nat (length attributes)))).
  destruct (picks_ok rand attributes c indices k Hp ltac:(unfold k; lia)) as (names & indices' & c' & E1 & Hpick).
  assert (template_step rand attributes (acc, indices, c) len = Ret (acc ++ [names], indices', c')) as ->
    by (unfold template_step; rewrite Hn; cbn [mbind outcome_bind]; fold k; by rewrite E1). cbn [mbind outcome_bind].
  destruct (picked_names attributes k names indices' Hnd ltac:(unfold k; lia) Hpick) as (H1 & H2 & H3).
  destruct (IH (acc ++ [names]) indices' c' (proj1 Hpick)) as (templates & indices'' & c'' & E & Ht).
  exists (names :: templates), indices'', c''. rewrite E, <- app_assoc. split; [done|]. constructor; [|done].
  split; [done|]. split; [done|]. exists n. split; [done|]. rewrite H2. unfold k. lia.
Qed.

(** The templates of the simulation.  For each length that
    [queryLengthGen_] gives, whatever the random numbers are, the template is a
    list of distinct names of attributes, as many as the length asks for or as
    there are attributes; shuffling the indices never reads past them. *)
Theorem templates_distinct (rand : nat -> Z) (attributes : list Attribute) (lengths : list double) :
  NoDup (name_ <$> attributes) -> Forall (fun len => exists n, to_size len = Ret n) lengths ->
  exists templates, getQueryTemplates rand attributes lengths = Ret templates /\ Forall2 (template_for attributes) lengths templates.
Proof.
  intros Hnd Hlens. destruct (templates_loop rand attributes lengths Hnd Hlens [] (seq 0 (length attributes)) 0 ltac:(done)) as (ts & idx & c & E & Ht).
  exists ts. unfold getQueryTemplates. by rewrite E.
Qed.

(** ** The search queries *)

Section Served.
Context {D : Type} `{LevelDB D, !LevelDBOk D} {R : Type} `{SpatialIndex R, !SpatialIndexOk R}.
Context (pointer_hash : nat -> Z) (order : nat -> list nat) (rand : nat -> Z) (zipf_rand : nat -> double).
Context (s sv : Schema) (Hdef : defined_schema s) (Hnames : NoDup (name_ <$> attributes_ s)).
Context (Hslice : slice_valid (initial_slice s)) (Horder : forall n, order n ≡ₚ seq 0 n).
Context (A : gmap Z AttributeData) (es : list StreamEdge).
Context (Hmeasured : measured_parts s (foldl recorded [] es) (partitioning_ (initial_slice s))).

(** The batch query of a served graph: vertices with edges, among them all that
    have one in the range. *)
Lemma batch_serves qs (g : InteractionGraph D R) start endt :
  serves pointer_hash s sv A es qs g -> instant start -> instant endt -> start <= endt ->
  exists vs, processIntervalQueryBatch (IntervalQuery start endt) g = Ret vs /\ NoDup vs /\
    (forall v, v ∈ vs -> is_u64 v /\ incident v es <> []) /\
    (forall v e, e ∈ incident v es -> start <= tm_ e < endt -> v ∈ vs).
Proof.
  intros [_ _ (B & hist & Hh & Hinc) _ _] Hst Hen Hle. pose proof (ho_iq _ _ _ _ _ Hh) as Hiq.
  destruct (batch_ok (iqIndex_ (hisg_ g)) (history_intervals hist) start endt Hiq (instant_num _ Hst) (instant_num _ Hen)) as (vs & E & Hndup & Hvs);
    [by rewrite !instant_key|].
  exists vs. split; [exact E|]. split; [exact Hndup|]. pose proof (history_located s _ _ _ _ Hh) as Hloc. rewrite Forall_forall in Hloc. split.
  - intros v (d & Hd & <- & _)%Hvs. split.
    + destruct Hiq as [_ Hok]. rewrite Forall_forall in Hok. apply (io_vertex _ (Hok d Hd)).
    + rewrite <- Hinc. intros Hnil. apply list_elem_of_bind in Hd as ([id b] & Hd & Hin). cbn [fst snd] in Hd.
      pose proof (ho_blocks _ _ _ _ _ Hh) as Hb. rewrite Forall_forall in Hb. destruct (Hb _ Hin) as [Hhold _].
      destruct (bw_ok _ _ (ws_wf _ _ _ (hb_stored _ _ _ _ _ Hhold))) as [Hnd _].
      destruct (block_interval id b d Hnd Hd) as (_ & Hhead & _). apply head_Some_elem_of in Hhead.
      apply (vertex_times_elem _ hist.*2) in Hhead; [|by apply (list_elem_of_fmap_2 snd _ (id, b))].
      rewrite vertex_times_blocks, Hnil in Hhead. by apply elem_of_nil in Hhead.
  - intros v e He Ht. apply Hvs. destruct (proj2 (history_hits s _ _ _ _ start endt v Hh Hst Hen)) as (d & Hd & Hhit & Hv).
    + exists (tm_ e). split; [|done]. rewrite vertex_times_blocks, Hinc. by apply list_elem_of_fmap_2.
    + exists d. split; [done|]. split; [done|]. apply (hits_touches (stored_times B)); [by apply Hloc|done].
Qed.

Section Range.
Context (tsStart tsEnd duration : Z) (Hts : 0 <= tsStart) (Hd : 0 <= duration) (Hrange : tsStart + duration <= tsEnd) (Hend : tsEnd < 2 ^ 53).

(** A start time that may be drawn, and one that is. *)
Definition start_time (st : Z) : Prop := tsStart <= st <= tsEnd - duration.
Definition drawn (st : Z) : Prop := start_time st /\ exists c, uniform tsStart (tsEnd - duration) (rand c) = Ret st.

Lemma start_instants st : start_time st -> instant (dofZ st) /\ instant (dofZ (st + duration)) /\ dofZ st <= dofZ (st + duration).
Proof.
  unfold start_time. intros Hst. split; [apply instant_dofZ; lia|]. split; [apply instant_dofZ; lia|].
  destruct (Z.eq_dec duration 0) as [->|]; [by rewrite Z.add_0_r|]. pose proof (dofZ_lt st (st + duration)). lia.
Qed.

(** The draws end when one of them hits a range with an edge. *)
Lemma draw_range_ok qs (g : InteractionGraph D R) fuel : serves pointer_hash s sv A es qs g -> forall c c' st v e,
  (c <= c' < c + fuel)%nat -> uniform tsStart (tsEnd - duration) (rand c') = Ret st -> e ∈ incident v es ->
  dofZ st <= tm_ e < dofZ (st + duration) ->
  exists start vs n, draw_range rand fuel tsStart tsEnd duration g c = Ret (start, start + duration, vs, n) /\ drawn start /\ NoDup vs /\
    (forall v, v ∈ vs -> is_u64 v /\ incident v es <> []) /\
    (forall v e, e ∈ incident v es -> dofZ start <= tm_ e < dofZ (start + duration) -> v ∈ vs).
Proof.
  intros Hg. induction fuel as [|fuel IH]; intros c c' st v e Hc Est He Ht; [lia|]. cbn [draw_range]. rewrite (u64_id (tsEnd - duration)) by lia.
  destruct (uniform_ok tsStart (tsEnd - duration) (rand c)) as (start & Estart & Hstart); [lia|]. rewrite Estart. cbn [mbind outcome_bind].
  rewrite (u64_id (start + duration)) by lia. destruct (start_instants start Hstart) as (H1 & H2 & H3).
  destruct (batch_serves qs g _ _ Hg H1 H2 H3) as (vs & -> & Hndup & Hvs & Hall). cbn [mbind outcome_bind]. destruct vs as [|w vs].
  - apply (IH (S c) c' st v e); [|done..]. destruct (decide (c' = c)) as [->|]; [|lia]. rewrite Estart in Est. injection Est as ->.
    specialize (Hall v e He Ht). by apply elem_of_nil in Hall.
  - exists start, (w :: vs), (S c). split; [done|]. split; [split; [done|by exists c]|done].
Qed.

(** ** The most prolific vertex *)

Definition asked_at (start : Z) (template : list string) (v : VertexId) : list NLEdge :=
  asked es (newFocusedIntervalQuery v (dofZ start) (dofZ (start + duration)) template).

Lemma query_answerable start template v : start_time start -> is_u64 v -> names_of_schema s template ->
  answerable s (newFocusedIntervalQuery v (dofZ start) (dofZ (start + duration)) template).
Proof.
  intros (H1 & H2 & _)%start_instants Hv Hn. unfold answerable. cbn [newFocusedIntervalQuery fiq_headVertex fiq_query newQuery q_start_ q_end_ attributeNames_].
  split; [done|]. split; [done|]. split; [done|]. split; [by apply (query_names_of_schema s (dofZ start) (dofZ (start + duration)))|].
  exists template. done.
Qed.

Lemma note_prolific_ok start template qs (g : InteractionGraph D R) fuel max best v :
  serves pointer_hash s sv A es qs g -> start_time start -> is_u64 v -> names_of_schema s template ->
  (length (asked_at start template v) < fuel)%nat -> Z.of_nat (length (asked_at start template v)) < 2 ^ 64 ->
  exists g', note_prolific pointer_hash order fuel start (start + duration) template (max, best, g) v =
    Ret (if max <? Z.of_nat (length (asked_at start template v)) then (Z.of_nat (length (asked_at start template v)), Some v, g') else (max, best, g')) /\
    exists q, serves pointer_hash s sv A es (qs ++ [q]) g'.
Proof.
  intros Hg Hst Hv Hn Hfuel Hlen. pose proof (query_answerable start template v Hst Hv Hn) as Hq.
  set (q := newFocusedIntervalQuery v (dofZ start) (dofZ (start + duration)) template) in *. unfold asked_at in *. fold q in Hfuel, Hlen |- *.
  destruct (query_loop pointer_hash s sv Hdef Hnames Hslice order Horder A es Hmeasured
    (fun k (u : Z) => u = Z.of_nat (length (asked es q)) - Z.of_nat (length k) /\ (length k <= length (asked es q))%nat) count_one q qs g 0 fuel Hg Hq Hfuel)
    as (it & g1 & u & g2 & E1 & E2 & (Hu & _) & Hg2).
  - intros B hist it x k u g' _ _ Hg' _ (Hu & Hk). cbn [fmap list_fmap length] in *. exists (u + 1), (hg_store_ (hisg_ g')).
    unfold count_one. rewrite with_own_store, u64_id by lia. split; [done|]. split; [apply Hg'|]. split; lia.
  - split; lia.
  - cbn [length] in Hu. unfold note_prolific. fold q. rewrite E1. cbn [mbind outcome_bind]. rewrite E2. cbn [mbind outcome_bind].
    exists g2. replace u with (Z.of_nat (length (asked es q))) by lia. split; [by destruct (_ <? _)|]. by exists (fiq_query q).
Qed.

(** A vertex with the most edges of the range among some. *)
Definition most_prolific (start : Z) (template : list string) (vs : list VertexId) (v : VertexId) : Prop :=
  v ∈ vs /\ forall w, w ∈ vs -> (length (asked_at start template w) <= length (asked_at start template v))%nat.

Lemma prolific_loop start template fuel vs :
  start_time start -> names_of_schema s template ->
  (forall v, v ∈ vs -> is_u64 v /\ (length (asked_at start template v) < fuel)%nat /\ Z.of_nat (length (asked_at start template v)) < 2 ^ 64) ->
  forall seen best max qs (g : InteractionGraph D R), serves pointer_hash s sv A es qs g -> 0 <= max ->
  (forall w, w ∈ seen -> Z.of_nat (length (asked_at start template w)) <= max) ->
  match best with Some v => v ∈ seen /\ Z.of_nat (length (asked_at start template v)) = max /\ 0 < max | None => max = 0 end ->
  exists max' best' g', foldM (note_prolific pointer_hash order fuel start (start + duration) template) (max, best, g) vs = Ret (max', best', g') /\ (exists qs', serves pointer_hash s sv A es (qs ++ qs') g') /\ 0 <= max' /\
    (forall w, w ∈ seen ++ vs -> Z.of_nat (length (asked_at start template w)) <= max') /\
    match best' with Some v => v ∈ seen ++ vs /\ Z.of_nat (length (asked_at start template v)) = max' /\ 0 < max' | None => max' = 0 end.
Proof.
  intros Hst Hn. induction vs as [|v vs IH]; intros Hvs seen best max qs g Hg Hmax0 Hmax Hbest; cbn [foldM].
  { exists max, best, g. rewrite app_nil_r. split; [done|]. split; [|done]. exists []. by rewrite app_nil_r. }
  destruct (Hvs v ltac:(left)) as (Hv & Hfuel & Hlen).
  destruct (note_prolific_ok start template qs g fuel max best v Hg Hst Hv Hn Hfuel Hlen) as (g1 & E & q & Hg1).
  rewrite E. cbn [mbind outcome_bind]. rewrite cons_middle, app_assoc.
  set (k := Z.of_nat (length (asked_at start template v))) in *.
  assert (forall w, w ∈ seen ++ [v] -> Z.of_nat (length (asked_at start template w)) <= Z.max max k) as Hmax'.
  { intros w [Hw| ->%list_elem_of_singleton]%elem_of_app; [specialize (Hmax w Hw); lia|unfold k; lia]. }
  destruct (Z.ltb_spec max k) as [Hlt|Hge]; cbn [outcome_bind].
  - rewrite Z.max_r in Hmax' by lia.
    destruct (IH ltac:(intros; apply Hvs; by right) (seen ++ [v]) (Some v) k (qs ++ [q]) g1 Hg1 ltac:(lia) Hmax') as (m & b & g2 & -> & (qs' & Hg2) & Hres);
      [split_and!; [set_solver|done|lia]|]. exists m, b, g2. split; [done|]. split; [|done]. exists ([q] ++ qs'). by rewrite app_assoc.
  - rewrite Z.max_l in Hmax' by lia.
    destruct (IH ltac:(intros; apply Hvs; by right) (seen ++ [v]) best max (qs ++ [q]) g1 Hg1 ltac:(lia) Hmax') as (m & b & g2 & -> & (qs' & Hg2) & Hres);
      [destruct best; [split; [set_solver|apply Hbest]|done]|]. exists m, b, g2. split; [done|]. split; [|done]. exists ([q] ++ qs'). by rewrite app_assoc.
Qed.

(** ** Drawing the queries *)

Definition candidates (vs : list VertexId) : list VertexId := filter (fun v => 0 <= to_signed 64 v) vs.

Lemma signed_nonneg v : is_u64 v -> 0 <= to_signed 64 v <-> v < 2 ^ 63.
Proof.
  intros Hv. unfold to_signed. rewrite Z.mod_small by lia. change (2 ^ (64 - 1)) with (2 ^ 63). destruct (Z.ltb_spec v (2 ^ 63)); lia.
Qed.

(** A query on one of the vertices, for the range and one of the templates. *)
Definition search_for (start : Z) (templates : list (list string)) (vs : list VertexId) (q : FocusedIntervalQuery) : Prop :=
  answerable s q /\ fiq_headVertex q ∈ vs /\
  exists template, template ∈ templates /\ fiq_query q = newQuery (dofZ start) (dofZ (start + duration)) template.

Lemma nth_template_first templates template : templates !! 0%nat = Some template -> nth_template templates 0 = Ret template.
Proof. intros E. unfold nth_template. destruct (Z.ltb_spec 0 0); [lia|]. change (Z.to_nat 0) with 0%nat. by rewrite E. Qed.

(** The numbers of the template and of the vertex. *)
Lemma template_drawn (templates : list (list string)) gen i :
  templates <> [] -> Z.of_nat (length templates) < 2 ^ 31 ->
  (forall pm, last (zr_p_ gen) = Some pm -> dltb (zipf_rand i) pm = true) ->
  (1 < length templates -> zr_p_ gen <> [] /\ length (zr_p_ gen) <= length templates)%nat ->
  exists k, (if 1 <? to_signed 32 (Z.of_nat (length templates)) then k ← getRandomValue gen (zipf_rand i); Ret (to_signed 32 k) else Ret 0) = Ret k /\
    0 <= k < Z.of_nat (length templates).
Proof.
  intros Hne Hlt Hz Hgen. assert (0 < length templates)%nat by (destruct templates; [done|cbn; lia]).
  rewrite (to_signed_id 32 (Z.of_nat (length templates))) by lia.
  destruct (Z.ltb_spec 1 (Z.of_nat (length templates))); [|exists 0; split; [done|lia]]. destruct Hgen as [Hp Hpl]; [lia|].
  destruct (last (zr_p_ gen)) as [pm|] eqn:El; [|by apply last_None in El].
  destruct (zipf_draws gen (zipf_rand i) pm El (Hz pm eq_refl)) as (k & -> & Hk). exists k. cbn [mbind outcome_bind].
  rewrite to_signed_id by lia. split; [done|lia].
Qed.

Lemma vertex_drawn (vs : list VertexId) r : vs <> [] -> Z.of_nat (length vs) < 2 ^ 31 ->
  exists j, uniform 0 (to_signed 32 (u64 (Z.of_nat (length vs) - 1))) r = Ret j /\ exists w, vs !! Z.to_nat j = Some w.
Proof.
  intros Hvs Hlv. assert (0 < length vs)%nat by (destruct vs; [done|cbn; lia]).
  rewrite (u64_id (Z.of_nat (length vs) - 1)), to_signed_id by lia.
  destruct (uniform_ok 0 (Z.of_nat (length vs) - 1) r) as (j & -> & Hj); [lia|]. exists j. split; [done|].
  destruct (lookup_lt_is_Some_2 vs (Z.to_nat j)) as [w Hw]; [lia|]. by exists w.
Qed.

Lemma search_query_ok start templates gen vs most (best : option VertexId) c queries i :
  start_time start -> templates <> [] -> Z.of_nat (length templates) < 2 ^ 31 -> Forall (names_of_schema s) templates ->
  (forall pm, last (zr_p_ gen) = Some pm -> dltb (zipf_rand i) pm = true) ->
  (1 < length templates -> zr_p_ gen <> [] /\ length (zr_p_ gen) <= length templates)%nat ->
  vs <> [] -> Z.of_nat (length vs) < 2 ^ 31 -> (forall v, v ∈ vs -> is_u64 v) ->
  (if most : bool then exists v, best = Some v /\ v ∈ vs else True) ->
  exists q, search_query rand zipf_rand templates gen start (start + duration) vs most best c queries i = Ret (queries ++ [q]) /\
    search_for start templates vs q /\ (most = true -> best = Some (fiq_headVertex q)).
Proof.
  intros Hst Hne Hlt Hnt Hz Hgen Hvs Hlv Hu Hbest. unfold search_query.
  destruct (template_drawn templates gen i Hne Hlt Hz Hgen) as (k & Ek & Hk). rewrite Ek. cbn [mbind outcome_bind].
  destruct (vertex_drawn vs (rand (c + i)) Hvs Hlv) as (j & -> & w & Hw). cbn [mbind outcome_bind]. rewrite Hw.
  assert (exists v, (if most then match best with Some v => Ret v | None => Undefined end else Ret w) = Ret v /\ v ∈ vs /\ (most = true -> best = Some v)) as (v & -> & Hv & Hb).
  { destruct most; [destruct Hbest as (v & -> & Hv); by exists v|]. exists w. split; [done|]. split; [by eapply list_elem_of_lookup_2|done]. }
  cbn [mbind outcome_bind]. destruct (lookup_lt_is_Some_2 templates (Z.to_nat k)) as [template Ht]; [lia|].
  unfold nth_template. destruct (Z.ltb_spec k 0); [lia|]. rewrite Ht. cbn [mbind outcome_bind]. eexists. split; [reflexivity|].
  apply list_elem_of_lookup_2 in Ht. split; [|exact Hb]. rewrite Forall_forall in Hnt.
  split; [apply query_answerable; [done|by apply Hu|by apply Hnt]|]. split; [done|]. by exists template.
Qed.

(** [mostProlificVertex] read unassigned. *)
Lemma search_query_unassigned start templates gen vs c queries i :
  templates <> [] -> Z.of_nat (length templates) < 2 ^ 31 ->
  (forall pm, last (zr_p_ gen) = Some pm -> dltb (zipf_rand i) pm = true) ->
  (1 < length templates -> zr_p_ gen <> [] /\ length (zr_p_ gen) <= length templates)%nat ->
  vs <> [] -> Z.of_nat (length vs) < 2 ^ 31 ->
  search_query rand zipf_rand templates gen start (start + duration) vs true None c queries i = Undefined.
Proof.
  intros Hne Hlt Hz Hgen Hvs Hlv. unfold search_query.
  destruct (template_drawn templates gen i Hne Hlt Hz Hgen) as (k & Ek & _). rewrite Ek. cbn [mbind outcome_bind].
  by destruct (vertex_drawn vs (rand (c + i)) Hvs Hlv) as (j & -> & _).
Qed.

Lemma search_loop start templates gen vs most (best : option VertexId) c n :
  start_time start -> templates <> [] -> Z.of_nat (length templates) < 2 ^ 31 -> Forall (names_of_schema s) templates ->
  (forall i pm, last (zr_p_ gen) = Some pm -> dltb (zipf_rand i) pm = true) ->
  (1 < length templates -> zr_p_ gen <> [] /\ length (zr_p_ gen) <= length templates)%nat ->
  vs <> [] -> Z.of_nat (length vs) < 2 ^ 31 -> (forall v, v ∈ vs -> is_u64 v) ->
  (if most : bool then exists v, best = Some v /\ v ∈ vs else True) ->
  exists queries, foldM (search_query rand zipf_rand templates gen start (start + duration) vs most best c) [] (seq 0 n) = Ret queries /\
    length queries = n /\ Forall (search_for start templates vs) queries /\ (most = true -> Forall (fun q => best = Some (fiq_headVertex q)) queries).
Proof.
  intros Hst Hne Hlt Hnt Hz Hgen Hvs Hlv Hu Hbest. induction n as [|n (queries & E & Hlen & Hq & Hm)].
  { exists []. split; [done|]. split; [done|]. split; [constructor|intros _; constructor]. }
  rewrite seq_S, foldM_app, E. cbn [mbind outcome_bind foldM]. rewrite Nat.add_0_l.
  destruct (search_query_ok start templates gen vs most best c queries n) as (q & -> & Hs & Hb); try done; [by apply Hz|].
  exists (queries ++ [q]). split; [done|]. rewrite length_app, Hlen, Nat.add_1_r. split; [done|]. split.
  - apply Forall_app. split; [done|by apply Forall_singleton].
  - intros Emost. apply Forall_app. split; [by apply Hm|]. apply Forall_singleton. by apply Hb.
Qed.

Lemma vertices_bound vs : NoDup vs -> (forall v, v ∈ vs -> incident v es <> []) -> Z.of_nat (length vs) <= 2 * Z.of_nat (length es).
Proof.
  intros Hnd Hvs. etransitivity; [|by apply (incident_total vs es Hnd)]. clear Hnd. induction vs as [|v vs IH]; [done|].
  cbn [sumZ foldr length]. change (foldr _ 0 vs) with (sumZ (fun w => Z.of_nat (length (incident w es))) vs).
  specialize (IH ltac:(intros; apply Hvs; by right)). pose proof (Hvs v ltac:(left)). destruct (incident v es); [done|cbn [length]; lia].
Qed.

Lemma asked_bound start template v : (length (asked_at start template v) <= 2 * length es)%nat.
Proof.
  unfold asked_at, asked. etransitivity; [apply length_filter|]. cbn [newFocusedIntervalQuery fiq_headVertex].
  pose proof (incident_total [v] es (NoDup_singleton v)) as Hb. cbn in Hb. lia.
Qed.

(** The most prolific vertex among the candidates, when one of them has an
    edge in the range. *)
Lemma find_prolific start template fuel vs qs (g : InteractionGraph D R) :
  serves pointer_hash s sv A es qs g -> start_time start -> names_of_schema s template ->
  (forall v, v ∈ vs -> is_u64 v) -> (2 * length es < fuel)%nat -> 2 * Z.of_nat (length es) < 2 ^ 31 ->
  exists m best g', foldM (note_prolific pointer_hash order fuel start (start + duration) template) (0, None, g) vs = Ret (m, best, g') /\
    (exists qs', serves pointer_hash s sv A es (qs ++ qs') g') /\
    ((exists v, v ∈ vs /\ asked_at start template v <> []) -> exists v, best = Some v /\ most_prolific start template vs v) /\
    ((forall v, v ∈ vs -> asked_at start template v = []) -> best = None).
Proof.
  intros Hg Hst Hn Hvs Hfuel Hes. destruct (prolific_loop start template fuel vs Hst Hn) with (seen := @nil VertexId) (best := @None VertexId) (max := 0) (qs := qs) (g := g)
    as (m & best & g' & E & Hg' & Hm0 & Hmax & Hbest); [|done|done|by intros w ?%elem_of_nil|done|].
  { intros v Hv. pose proof (asked_bound start template v). split; [by apply Hvs|]. lia. }
  exists m, best, g'. split; [done|]. split; [done|]. cbn [app] in Hmax, Hbest. split.
  2:{ intros Hnone. destruct best as [b|]; [|done]. destruct Hbest as (Hb & Em & Hpos). rewrite (Hnone b Hb) in Em. cbn in Em. lia. }
  intros (v & Hv & Hne).
  pose proof (Hmax v Hv) as H1. assert (0 < length (asked_at start template v))%nat by (destruct (asked_at start template v); [done|cbn; lia]).
  destruct best as [b|]; [|lia]. exists b. split; [done|]. destruct Hbest as (Hb & Em & _). split; [done|]. intros w Hw. specialize (Hmax w Hw). lia.
Qed.

(** The queries for the candidates. *)
Lemma gen_queries pow templates template z n delta fuel qs (g : InteractionGraph D R) most c st v e :
  serves pointer_hash s sv A es qs g ->
  templates !! 0%nat = Some template -> Z.of_nat (length templates) < 2 ^ 31 -> Forall (names_of_schema s) templates ->
  (forall i pm, last (zr_p_ (newZipfRand pow z (Z.of_nat (length templates)))) = Some pm -> dltb (zipf_rand i) pm = true) ->
  to_size (dmul delta (dofZ (tsEnd - tsStart))) = Ret duration -> 2 * Z.of_nat (length es) < 2 ^ 31 -> (2 * length es < fuel)%nat ->
  (c < fuel)%nat -> uniform tsStart (tsEnd - duration) (rand c) = Ret st -> e ∈ incident v es -> dofZ st <= tm_ e < dofZ (st + duration) ->
  exists start vs, drawn start /\
    (forall v, v ∈ vs -> is_u64 v /\ v < 2 ^ 63 /\ incident v es <> []) /\
    (forall v e, e ∈ incident v es -> v < 2 ^ 63 -> dofZ start <= tm_ e < dofZ (start + duration) -> v ∈ vs) /\
    let result := genSearchQueries pointer_hash order rand zipf_rand fuel pow templates z n tsStart tsEnd delta g most in
    (vs = [] -> result = Undefined) /\
    (most = true -> 0 < n -> (forall v, v ∈ vs -> asked_at start template v = []) -> result = Undefined) /\
    (vs <> [] -> (most = true -> exists v, v ∈ vs /\ asked_at start template v <> []) ->
      exists queries g', result = Ret (queries, g') /\ length queries = Z.to_nat n /\ Forall (search_for start templates vs) queries /\
        (most = true -> exists v, most_prolific start template vs v /\ Forall (fun q => fiq_headVertex q = v) queries) /\
        exists qs', serves pointer_hash s sv A es (qs ++ qs') g').
Proof.
  intros Hg Htemp Hlt Hnt Hz Hdur Hes Hfuel Hc Est He Ht.
  destruct (draw_range_ok qs g fuel Hg 0%nat c st v e ltac:(lia) Est He Ht) as (start & vs & k & E & Hdrawn & Hnd & Hvs & Hall).
  exists start, (candidates vs). split; [done|]. destruct Hdrawn as [Hst _].
  assert (forall v, v ∈ candidates vs -> is_u64 v /\ v < 2 ^ 63 /\ incident v es <> []) as Hcand.
  { intros w [H1 H2]%list_elem_of_filter. destruct (Hvs w H2) as [H3 H4]. split; [done|]. split; [by apply signed_nonneg|done]. }
  split; [exact Hcand|]. split.
  { intros w e' He' Hw Ht'. pose proof (Hall w e' He' Ht') as Hin. apply list_elem_of_filter. split; [|done]. apply signed_nonneg; [by apply Hvs|done]. }
  assert (templates <> [] /\ 0 < length templates)%nat as [Hne Hpos] by (destruct templates; [done|split; [done|cbn; lia]]).
  assert (names_of_schema s template) as Hn by (rewrite Forall_forall in Hnt; apply Hnt; by eapply list_elem_of_lookup_2).
  pose proof (vertices_bound (candidates vs) ltac:(by apply NoDup_filter) (fun w Hw => proj2 (proj2 (Hcand w Hw)))) as Hlv.
  cbv zeta. unfold genSearchQueries. rewrite (to_signed_id 32 (Z.of_nat (length templates))), (u64_id (Z.of_nat (length templates))), (u64_id (tsEnd - tsStart)), Hdur by lia.
  cbn [mbind outcome_bind]. rewrite E. cbn [mbind outcome_bind]. fold (candidates vs).
  rewrite (foldM_ext _ (note_prolific pointer_hash order fuel start (start + duration) template)) by (intros; by rewrite (nth_template_first _ _ Htemp)).
  destruct (find_prolific start template fuel (candidates vs) qs g Hg Hst Hn (fun w Hw => proj1 (Hcand w Hw)) Hfuel Hes) as (m & best & g' & E2 & Hg' & Hbest & Hunassigned).
  set (gen := newZipfRand pow z (Z.of_nat (length templates))) in *.
  assert (1 < length templates -> zr_p_ gen <> [] /\ length (zr_p_ gen) <= length templates)%nat as Hgen.
  { intros _. split.
    + intros Hp%(f_equal length). unfold gen in Hp. rewrite length_zipf in Hp by lia. cbn [length] in Hp. lia.
    + unfold gen. rewrite length_zipf by lia. lia. }
  assert (candidates vs = [] -> uniform 0 (to_signed 32 (u64 (Z.of_nat (length (candidates vs)) - 1))) 0 = Undefined) as Hnone by (by intros ->).
  split; [intros Hnil; destruct most; [rewrite E2|]; cbn [mbind outcome_bind]; by rewrite Hnone|].
  split.
  - intros -> Hn0 Hall0. rewrite E2. cbn [mbind outcome_bind]. destruct (decide (candidates vs = [])) as [Hnil|Hcne]; [by rewrite Hnone|].
    assert (0 < length (candidates vs))%nat as Hlc by (destruct (candidates vs); [done|cbn; lia]).
    destruct (vertex_drawn (candidates vs) 0 Hcne ltac:(lia)) as (j & -> & _). cbn [mbind outcome_bind].
    destruct (Z.to_nat n) as [|n'] eqn:En; [lia|]. cbn [seq foldM]. rewrite (Hunassigned Hall0).
    by rewrite (search_query_unassigned start templates gen (candidates vs) k [] 0 Hne Hlt (Hz 0%nat) Hgen Hcne ltac:(lia)).
  - intros Hcne Hmost. assert (0 < length (candidates vs))%nat as Hlc by (destruct (candidates vs); [done|cbn; lia]).
    assert (forall b, (if most then exists v, b = Some v /\ v ∈ candidates vs else True) -> exists queries,
      (_ ← uniform 0 (to_signed 32 (u64 (Z.of_nat (length (candidates vs)) - 1))) 0;
       foldM (search_query rand zipf_rand templates gen start (start + duration) (candidates vs) most b k) [] (seq 0 (Z.to_nat n))) = Ret queries /\
      length queries = Z.to_nat n /\ Forall (search_for start templates (candidates vs)) queries /\
      (most = true -> Forall (fun q => b = Some (fiq_headVertex q)) queries)) as Hqueries.
    { intros b Hb. destruct (search_loop start templates gen (candidates vs) most b k (Z.to_nat n)) as (queries & E3 & H1 & H2 & H3); try done.
      - lia.
      - intros w Hw. by apply Hcand.
      - exists queries. rewrite u64_id, to_signed_id by lia. destruct (uniform_ok 0 (Z.of_nat (length (candidates vs)) - 1) 0) as (x & -> & _); [lia|].
        cbn [mbind outcome_bind]. done. }
    destruct most.
    + destruct (Hbest (Hmost eq_refl)) as (b & -> & Hb). destruct (Hqueries (Some b)) as (queries & E3 & H1 & H2 & H3); [exists b; split; [done|apply Hb]|].
      exists queries, g'. rewrite E2. cbn [mbind outcome_bind]. apply bind_ret in E3 as (x & -> & E3). cbn [mbind outcome_bind]. rewrite E3.
      split; [done|]. split; [done|]. split; [done|]. split; [|done]. intros _. exists b. split; [done|].
      eapply Forall_impl; [by apply H3|]. intros q [= ->]. done.
    + destruct (Hqueries None) as (queries & E3 & H1 & H2 & _); [done|]. exists queries, g. cbn [mbind outcome_bind].
      apply bind_ret in E3 as (x & -> & E3). cbn [mbind outcome_bind]. rewrite E3. split; [done|]. split; [done|]. split; [done|].
      split; [done|]. exists []. by rewrite app_nil_r.
Qed.
End Range.
End Served.

(** ** Properties *)

(** C14: the search queries of the simulation.  On a served graph with
    templates of known attributes, when the numbers the Zipf distribution draws
    from are below the last of its sums and one of the start times drawn has an
    edge in its range, the draws end at one of them within the limits, with the
    vertices of the batch query that are not negative as [int64_t]; each of
    these has some edge, not always one in the range, and all vertices with an
    edge in the range are among them.  When none is left the behaviour is
    undefined (a distribution from 0 to -1); so it is with
    [useMostProlificVertex] when none of them has an edge in the range and a
    query is asked for (the most prolific vertex is read unassigned).
    Otherwise the queries asked for are drawn, each of which the graph can
    answer, on one of the vertices, for the range and one of the templates;
    with [useMostProlificVertex] they are all on one vertex, which has the most
    edges in the range.  The graph serves as before. *)
Theorem search_queries {D} `{LevelDB D, !LevelDBOk D} {R} `{SpatialIndex R, !SpatialIndexOk R}
    (pointer_hash : nat -> Z) (order : nat -> list nat) (rand : nat -> Z) (zipf_rand : nat -> double) (pow : double -> double -> double)
    (s sv : Schema) (A : gmap Z AttributeData) (es : list StreamEdge) (qs : list Query) (g : InteractionGraph D R)
    (templates : list (list string)) (template : list string) (z : double) (n tsStart tsEnd duration : Z) (delta : double) (most : bool) (fuel : nat) :
  defined_schema s -> NoDup (name_ <$> attributes_ s) -> slice_valid (initial_slice s) -> (forall n, order n ≡ₚ seq 0 n) ->
  measured_parts s (foldl recorded [] es) (partitioning_ (initial_slice s)) ->
  serves pointer_hash s sv A es qs g ->
  templates !! 0%nat = Some template -> Z.of_nat (length templates) < 2 ^ 31 -> Forall (names_of_schema s) templates ->
  (forall i pm, last (zr_p_ (newZipfRand pow z (Z.of_nat (length templates)))) = Some pm -> dltb (zipf_rand i) pm = true) ->
  0 <= tsStart -> 0 <= duration -> tsStart + duration <= tsEnd -> tsEnd < 2 ^ 53 ->
  to_size (dmul delta (dofZ (tsEnd - tsStart))) = Ret duration -> 2 * Z.of_nat (length es) < 2 ^ 31 -> (2 * length es < fuel)%nat ->
  (exists c st v e, (c < fuel)%nat /\ uniform tsStart (tsEnd - duration) (rand c) = Ret st /\ e ∈ incident v es /\ dofZ st <= tm_ e < dofZ (st + duration)) ->
  exists start vs, drawn rand tsStart tsEnd duration start /\
    (forall v, v ∈ vs -> is_u64 v /\ v < 2 ^ 63 /\ incident v es <> []) /\
    (forall v e, e ∈ incident v es -> v < 2 ^ 63 -> dofZ start <= tm_ e < dofZ (start + duration) -> v ∈ vs) /\
    let result := genSearchQueries pointer_hash order rand zipf_rand fuel pow templates z n tsStart tsEnd delta g most in
    (vs = [] -> result = Undefined) /\
    (most = true -> 0 < n -> (forall v, v ∈ vs -> asked_at es duration start template v = []) -> result = Undefined) /\
    (vs <> [] -> (most = true -> exists v, v ∈ vs /\ asked_at es duration start template v <> []) ->
      exists queries g', result = Ret (queries, g') /\ length queries = Z.to_nat n /\ Forall (search_for s duration start templates vs) queries /\
        (most = true -> exists v, most_prolific es duration start template vs v /\ Forall (fun q => fiq_headVertex q = v) queries) /\
        exists qs', serves pointer_hash s sv A es (qs ++ qs') g').
Proof.
  intros Hdef Hnames Hslice Horder Hm Hg Htemp Hlt Hnt Hz Hts Hd Hr Hend Hdur Hes Hfuel (c & st & v & e & Hc & Est & He & Ht).
  by apply (gen_queries pointer_hash order rand zipf_rand s sv Hdef Hnames Hslice Horder A es Hm tsStart tsEnd duration Hts Hd Hr Hend
    pow templates template z n delta fuel qs g most c st v e).
Qed.

(** Three queries on the graph of the client: from 3, half of the five units of
    time is two, and the vertices 1 and 2 have the edge at time 3. *)
Lemma search_queries_witness :
  exists (g g' : InteractionGraph (gmap bytes bytes) (list (bytes * Region * Z))) queries,
    genSearchQueries (fun i => Z.of_nat i) (seq 0) (fun _ => 0) (fun _ => 0x3FE0000000000000) 7 (fun _ _ => dunit)
      [["weight"]; ["tag"]]%string dzero 3 3 8 0x3FE0000000000000 g true = Ret (queries, g') /\
    length queries = 3%nat /\ Forall (answerable (edgeSchema client_conf)) queries.
Proof.
  destruct client_served as (g & A & Hg). exists g.
  destruct (search_queries (fun i => Z.of_nat i) (seq 0) (fun _ => 0) (fun _ => 0x3FE0000000000000) (fun _ _ => dunit)
    (edgeSchema client_conf) (vertexSchema client_conf) A client_stream [] g [["weight"]; ["tag"]]%string ["weight"]%string dzero 3 3 8 2 0x3FE0000000000000 true 7)
    as (start & vs & [_ [c Hc]] & _ & Hall & _ & _ & Hq).
  - exact (ck_edge _ client_conf_ok).
  - exact (ck_names _ client_conf_ok).
  - exact (ck_slice _ client_conf_ok).
  - reflexivity.
  - exact client_measured.
  - exact Hg.
  - reflexivity.
  - vm_compute. reflexivity.
  - repeat (apply Forall_cons_2 || apply Forall_nil_2); apply Forall_singleton; vm_compute; eauto.
  - intros i pm. set (l := last _). vm_compute in l. subst l. intros [= <-]. vm_compute. reflexivity.
  - lia.
  - lia.
  - lia.
  - lia.
  - vm_compute. reflexivity.
  - vm_compute. reflexivity.
  - vm_compute. lia.
  - exists 0%nat, 3, 1. eexists. split; [lia|]. split; [reflexivity|]. split; [vm_compute; left|vm_compute; split; [discriminate|reflexivity]].
  - assert (start = 3) as -> by (vm_compute in Hc; congruence).
    assert (1 ∈ vs) as H1 by (eapply Hall; [vm_compute; left|lia|vm_compute; split; [discriminate|reflexivity]]).
    destruct Hq as (queries & g' & E & Hlen & Hf & _).
    + intros ->. exact (not_elem_of_nil 1 H1).
    + intros _. exists 1. split; [exact H1|]. vm_compute. discriminate.
    + exists g', queries. split; [exact E|]. split; [exact Hlen|]. eapply Forall_impl; [exact Hf|]. intros q Hq'. exact (proj1 Hq').
Defined.
